(* ===== verification/_CoqProject ===== *)
-Q . S2P
Prelude.v
Wire.v
Encoder.v
Decoder.v
Message.v
Roundtrip.v
Tokens.v
Lexer.v
LexerShape.v
LexerSpec.v
TokenStream.v
WellFounded.v
WellFoundedSpec.v
Types.v
TypesSpec.v
Scopes.v
ScopesSpec.v
Resolution.v
ResolutionSpec.v
UserDefined.v
UserDefinedSpec.v
DescriptorSpec.v
TypeGraph.v
TypeGraphSpec.v
ComputedData.v
ComputedDataSpec.v
Strconv.v
Parser.v
Grammar.v
ParseTypes.v
ParseDecls.v
TypeGrammar.v
ParserLogic.v
ParserSpec.v
ParserExact.v
ParserHeap.v
Filepath.v
ParseDriver.v
FilepathSpec.v
ParseDriverSpec.v
Router.v
RouterSpec.v
AsyncWaiter.v
AsyncWaiterSpec.v
FidlTypes.v
FinalData.v
Serialization.v
CGen.v
CLayout.v
CGenSpec.v
CTypeTable.v
Names.v
GoTranslator.v
RustGen.v
GeneratorsSpec.v
GoSpec.v
FloatBits.v
FidlEncode.v
FidlDecode.v
FidlWellFormed.v
Serialize.v
CodecLogic.v
CodecSlots.v
CodecObjects.v
FidlCodecSpec.v
SerializeSpec.v
FidlDecodeSpec.v
