(* ===== verification/Prelude.v ===== *)
(** * A verification development for the Go code of FIDL

    FIDL describes interfaces; the repository has a compiler for the language
    (src/compiler/src/fidl/compiler, in Go) and runtime bindings that encode and
    decode messages (src/go/src/fidl/bindings, in Go).  This library models that
    code in Rocq, function by function and under the names of the source, and
    proves what it is meant to do.  Bindings and generators in other languages
    are not part of it.

    ** The program

    The driver (parser/parse_driver.go) reads the files that are given and those
    they import, and runs the lexer and the parser on each.  The parser fills a
    descriptor: scopes, declared types and values, references still to be
    resolved.  The descriptor resolves the references, computes the data of the
    wire format (field offsets, versions, enum values) and rejects types without
    a finite instance.  The serializer translates the descriptor to the
    intermediate representation, a FidlFileGraph, and encodes it; the generators
    for C, Go and Rust decode the graph and print code.  The bindings that
    generated Go code uses are the encoder, the decoder, the messages, the router
    and the asynchronous waiter.  The graph itself is encoded by such code.

    ** The files of this library

    In the order of compilation; a file named X and its XSpec hold the model of a
    component and the theorems about it.

    - Prelude: outcomes of Go calls ([Ok], [Err], [Panic]), the state monad [M],
      weakest preconditions, integers of a width, slices.
    - Wire, Encoder, Decoder, Message, Roundtrip: go/src/fidl/bindings/encoder.go,
      decoder.go, message.go, util.go.
    - Tokens, Lexer, TokenStream: compiler/lexer.  LexerShape has the forms of the
      tokens and where one must end.
    - WellFounded: compiler/utils/wellfounded_graphs.go, for any graph given by
      its edges; TypeGraph: the graph of user-defined types (core/
      user_defined_types.go) and DetectIllFoundedTypes.
    - Types: core/types.go.  Scopes, Resolution, DescriptorSpec: core/scopes.go
      and core/mojom_descriptor.go.  UserDefined: core/user_defined_types.go.
      ComputedData, FinalData: core/computed_data.go.
    - Strconv, Parser, ParseTypes, ParseDecls: parser/parser.go and parsing.go;
      Grammar is the language of the comments of parsing.go and lists where the
      parser accepts more or less than they say; TypeGrammar relates it to the names
      of types; ParserLogic, ParserSpec, ParserExact and ParserHeap are the proofs.
    - Filepath, ParseDriver: parser/parse_driver.go.
    - Router, AsyncWaiter: bindings/router.go and async_waiter.go.
    - FidlTypes: the Go types of go/src/fidl/compiler/generated.
      Serialization: cmd/fidl/serialization/serialization.go.
    - FloatBits: the bit patterns of floats.  FidlEncode, FidlDecode: the methods of
      generated/fidl_types/fidl_types.core.go and fidl_files/fidl_files.core.go.
      FidlWellFormed: the ranges and sizes that Go's types and the wire promise.
      Serialize: serialize and the type information of a file (serialization.go).
      CodecLogic, CodecSlots, CodecObjects are a logic of encoders and their
      decoders; FidlCodecSpec, SerializeSpec and FidlDecodeSpec are the proofs.
    - CGen, CTypeTable: generators/c/cgen.  Names, GoTranslator:
      generators/go/translator.  RustGen: generators/rust/rustgen.  CLayout
      reads the texts of a C struct as a compiler does; CGenSpec, GeneratorsSpec and
      GoSpec are the proofs.

    ** How the code is represented

    A Go method with a receiver is a state transformer [M S E A]: it returns the
    state it leaves behind together with [Ok a], [Err e] or [Panic], since Go
    keeps the writes made before an early return; where no error exists a partial
    function is an option, and [None] is a panic or a call of log.Fatal.  Heap
    objects that are shared and mutated (scopes, files, references, declared
    objects, user-defined types) live in tables of the descriptor and a pointer
    is an index: aliasing is modelled, not copied.  Integers of a width wrap where
    Go's do.  Strings of source text are bytes; identifiers are strings.  A map
    is a [gmap] where its order does not matter; where the code ranges over a
    map, the order is a parameter of the model, so that theorems hold for every
    order.  Goroutines and channels (Router, AsyncWaiter) are a state with a
    program counter per goroutine and a step function; a theorem about them is
    about every interleaving.  Error values keep their code and their arguments,
    not the formatted text.

    Loops and recursions that are not structural take fuel.  For the lexer and
    the parser the length of the source or the number of tokens left is shown to
    be enough ([lexer_tiles], [Parse_terminates]); for the queue of the driver,
    the resolution passes and the graph search the theorems say which amount is
    enough ([parse_loop_terminates], [CheckWellFounded_correct]); the decoders of
    types and comments have the length of the buffer, of which each level of the
    recursion takes a part ([code_with_fuel]).  The one loop for which no fuel is
    enough, on a comma in the body of an enum, is the theorem
    [enum_body_comma_hangs]: the theorems about the parser and the driver exclude it
    by a condition on the tokens, and show that nothing else runs out of fuel.

    ** What the theorems show

    - The wire: no sequence of calls makes the encoder panic, no bytes make the
      decoder panic except after a bool in a block of odd size; what is written
      is read back, for structs of scalars and for whole messages; the capacity
      check is sound; a message of any bytes is parsed or refused.
    - The intermediate representation: every well-formed file graph is read back from
      its encoding, in whatever orders the loops over maps run; what serialize
      returns does not depend on these orders; whatever is decoded is well-formed,
      but there are bytes on which the generated Decode panics.
    - The front end: the tokens of a file are its text, in order, each ending where
      the longest token does; the parser accepts only sentences of the grammar, in
      both of its modes, and it terminates, with the exception above; integer
      literals have their value or are refused; names are registered in every
      enclosing scope or none, the scopes stay a tree, a reference is resolved to
      what its scope says; values fit the types of what they are assigned to;
      ordinals, tags, enum values, field offsets and version tables are what the
      declarations ask for, or the first offender is reported; a type is rejected as
      ill-founded exactly if it has no finite instance; the driver reads every
      wanted file once, under one canonical name, and stops.
    - The generators: C and Go agree with the front end on the size of every type, and
      Rust on the size of every type but bool, which it refuses; the members that a
      compiler, given the sizes of the C types, reads from the texts of a C struct
      have exactly the layout of the wire; the encoding infos of the Go generator
      describe the type, and the identifiers they give to the elements, keys and
      values of nested loops differ (the counters that the template itself names are
      the same in each).
    - The runtime: the router never sends on a closed channel, delivers a response
      to its requester once, and answers everybody when it stops, unless a one-way
      request is queued ([oneway_request_blocks_drainer]); the waiter loses
      no wait and answers each once.
    - Deviations of the code from what it means to do are theorems as well (an
      enum that hangs the parser, a wrapped enum value, a decoder panic), and are
      listed among the findings of the development.

    ** Bounds

    Lengths of slices are below 2^63, as in Go.  The packing theorems assume at
    most 2^32 / 24 fields; the theorems about arrays on the wire assume that
    the size of one array fits 32 bits, as the format does.

    ** Not modelled, and why

    - Text output: the formatter (formatter/printer.go), the comments it attaches
      (core/attach_comments.go, mojom_file_visitor.go), the String methods and the
      texts of errors are printing, without effect on what is compiled.
    - The templates of the generators are text in the language of text/template;
      the data they are given is modelled.
    - Commands, flags and files (cmd/fidl, generators/common, the main files of the
      generators, deps) are input and output.
    - bindings/connector.go, stub.go and interface.go are thin layers over the
      system's message channels, on which the router's model abstracts.
    - compiler/src/fidl/bindings is an earlier copy of the encoder, the decoder and
      the messages, with the same code; the copy of the runtime is the one modelled.
    - The bindings and generators in C++, Dart, Rust and Python, the build files and
      the tests. *)

From stdpp Require Export base list strings gmap.
From Stdlib Require Export ZArith Lia.

#[global] Open Scope Z_scope.

(** Lemmas that close the routine side conditions of the wire-format proofs. *)
Create HintDb wire.

(** ** Outcomes of a Go call

    A Go function of the modelled code returns a value, returns a non-nil
    [error], or panics (a failed bounds check, a nil dereference, an explicit
    [panic]).  The three are kept apart: a theorem that a function returns an
    error is not a theorem that it panics. *)
Inductive res (E A : Type) : Type :=
| Ok (a : A)
| Err (e : E)
| Panic.
Arguments Ok {E A} a.
Arguments Err {E A} e.
Arguments Panic {E A}.

(** A method with receiver state [S]: the state after the call is returned on
    every branch, because Go keeps the writes made before an early return. *)
Definition M (S E A : Type) : Type := S -> S * res E A.

Definition ret {S E A} (a : A) : M S E A := fun s => (s, Ok a).
Definition throw {S E A} (e : E) : M S E A := fun s => (s, Err e).
Definition panic {S E A} : M S E A := fun s => (s, Panic).
Definition bind {S E A B} (m : M S E A) (k : A -> M S E B) : M S E B :=
  fun s => match m s with
           | (s', Ok a) => k a s'
           | (s', Err e) => (s', Err e)
           | (s', Panic) => (s', Panic)
           end.
Definition get {S E} : M S E S := fun s => (s, Ok s).
Definition modify {S E} (f : S -> S) : M S E unit := fun s => (f s, Ok tt).
Definition lift {S E A} (r : res E A) : M S E A := fun s => (s, r).
(** A slice or map operation that panics when it yields [None]. *)
Definition must {S E A} (o : option A) : M S E A :=
  fun s => match o with Some a => (s, Ok a) | None => (s, Panic) end.

(** Calls without a receiver. *)
Definition res_bind {E A B} (r : res E A) (k : A -> res E B) : res E B :=
  match r with Ok a => k a | Err e => Err e | Panic => Panic end.

Declare Scope go_scope.
Delimit Scope go_scope with go.
Notation "'let!' x := m 'in' k" := (bind m (fun x => k))
  (at level 10, x name, m at level 100, k at level 200) : go_scope.
Notation "m ;;; k" := (bind m (fun _ => k))
  (at level 100, k at level 200, right associativity) : go_scope.
Notation "'let?' x := r 'in' k" := (res_bind r (fun x => k))
  (at level 10, x pattern, r at level 100, k at level 200) : go_scope.
#[global] Open Scope go_scope.

(** ** Weakest preconditions

    [wp m Q X s]: run from [s], [m] does not panic; if it returns [a] in state
    [s'] then [Q s' a], and if it returns the error [e] in [s'] then [X s' e]. *)
Definition wp {S E A} (m : M S E A) (Q : S -> A -> Prop) (X : S -> E -> Prop)
    (s : S) : Prop :=
  match m s with
  | (s', Ok a) => Q s' a
  | (s', Err e) => X s' e
  | (_, Panic) => False
  end.

Section wp_rules.
Context {S E : Type}.
Implicit Types s : S.

Lemma wp_ret {A} (a : A) Q (X : S -> E -> Prop) s :
  Q s a -> wp (ret a) Q X s.
Proof. done. Qed.
Lemma wp_throw {A} (e : E) (Q : S -> A -> Prop) (X : S -> E -> Prop) s :
  X s e -> wp (throw e) Q X s.
Proof. done. Qed.
Lemma wp_bind {A B} (m : M S E A) (k : A -> M S E B) Q X s :
  wp m (fun s' a => wp (k a) Q X s') X s -> wp (bind m k) Q X s.
Proof. unfold wp, bind. by destruct (m s) as [s' [a|e|]]. Qed.
Lemma wp_get Q (X : S -> E -> Prop) s : Q s s -> wp get Q X s.
Proof. done. Qed.
Lemma wp_modify f Q (X : S -> E -> Prop) s :
  Q (f s) tt -> wp (modify f) Q X s.
Proof. done. Qed.
Lemma wp_lift_ok {A} (a : A) Q (X : S -> E -> Prop) s :
  Q s a -> wp (lift (Ok a)) Q X s.
Proof. done. Qed.
Lemma wp_must {A} (o : option A) a Q (X : S -> E -> Prop) s :
  o = Some a -> Q s a -> wp (must o) Q X s.
Proof. intros -> ?. done. Qed.
Lemma wp_mono {A} (m : M S E A) Q Q' (X X' : S -> E -> Prop) s :
  wp m Q X s ->
  (forall s' a, Q s' a -> Q' s' a) -> (forall s' e, X s' e -> X' s' e) ->
  wp m Q' X' s.
Proof.
  unfold wp. destruct (m s) as [s' [a|e|]]; intros H HQ HX; auto.
Qed.
Lemma wp_no_panic {A} (m : M S E A) Q X s :
  wp m Q X s -> (m s).2 <> Panic.
Proof. unfold wp. by destruct (m s) as [s' [a|e|]]. Qed.
Lemma wp_ok {A} (m : M S E A) Q X s s' a :
  wp m Q X s -> m s = (s', Ok a) -> Q s' a.
Proof. unfold wp. intros H Hm. by rewrite Hm in H. Qed.
Lemma wp_err {A} (m : M S E A) Q X s s' e :
  wp m Q X s -> m s = (s', Err e) -> X s' e.
Proof. unfold wp. intros H Hm. by rewrite Hm in H. Qed.
(** Running a sequence when the outcome of its head is known. *)
Lemma bind_run_ok {A B} (m : M S E A) (k : A -> M S E B) s s1 a :
  m s = (s1, Ok a) -> bind m k s = k a s1.
Proof. unfold bind. by intros ->. Qed.
Lemma bind_run_err {A B} (m : M S E A) (k : A -> M S E B) s s1 e :
  m s = (s1, Err e) -> bind m k s = (s1, Err e).
Proof. unfold bind. by intros ->. Qed.
Lemma bind_Ok {A B} (m : M S E A) (k : A -> M S E B) s s' b :
  bind m k s = (s', Ok b) -> exists s1 a, m s = (s1, Ok a) /\ k a s1 = (s', Ok b).
Proof.
  unfold bind. destruct (m s) as [s1 [a|e|]]; intros H; simplify_eq; eauto.
Qed.
End wp_rules.

(** ** Fixed-width integers

    [int] is Go's 64-bit [int]: the modelled values of that type are lengths
    and indices of in-memory slices, so they are plain [Z].  The explicitly
    sized types wrap. *)
Definition u8 (z : Z) : Z := z mod 2 ^ 8.
Definition u16 (z : Z) : Z := z mod 2 ^ 16.
Definition u32 (z : Z) : Z := z mod 2 ^ 32.
Definition u64 (z : Z) : Z := z mod 2 ^ 64.
(** Conversion to a signed type of [w] bits (two's complement). *)
Definition signed (w z : Z) : Z := (z + 2 ^ (w - 1)) mod 2 ^ w - 2 ^ (w - 1).
Definition i8 : Z -> Z := signed 8.
Definition i16 : Z -> Z := signed 16.
Definition i32 : Z -> Z := signed 32.
Definition i64 : Z -> Z := signed 64.
Definition MaxUint32 : Z := 2 ^ 32 - 1.

Lemma u32_small z : 0 <= z < 2 ^ 32 -> u32 z = z.
Proof. apply Z.mod_small. Qed.
Lemma u64_small z : 0 <= z < 2 ^ 64 -> u64 z = z.
Proof. apply Z.mod_small. Qed.
Lemma u32_range z : 0 <= u32 z < 2 ^ 32.
Proof. apply Z.mod_pos_bound; lia. Qed.
Lemma u64_range z : 0 <= u64 z < 2 ^ 64.
Proof. apply Z.mod_pos_bound; lia. Qed.
Lemma u8_range z : 0 <= u8 z < 2 ^ 8.
Proof. apply Z.mod_pos_bound; lia. Qed.
Lemma signed_range w z : 0 < w -> - 2 ^ (w - 1) <= signed w z < 2 ^ (w - 1).
Proof.
  intros Hw. unfold signed.
  assert (2 ^ w = 2 * 2 ^ (w - 1)) as E.
  { rewrite <- Z.pow_succ_r by lia. f_equal; lia. }
  pose proof (Z.mod_pos_bound (z + 2 ^ (w - 1)) (2 ^ w)). lia.
Qed.
(** Casting a signed value to unsigned and back is the identity. *)
Lemma signed_unsigned w z :
  0 < w -> - 2 ^ (w - 1) <= z < 2 ^ (w - 1) -> signed w (z mod 2 ^ w) = z.
Proof.
  intros Hw Hz. unfold signed.
  assert (2 ^ w = 2 * 2 ^ (w - 1)) as E.
  { rewrite <- Z.pow_succ_r by lia. f_equal; lia. }
  rewrite Zplus_mod_idemp_l, Z.mod_small; lia.
Qed.

(** ** Slices *)
Abbreviation len l := (Z.of_nat (length l)).

(** [l[i]], [l[i] = x] and [l[lo:hi]]; out of range Go panics, here [None]. *)
Definition index {A} (l : list A) (i : Z) : option A :=
  if (0 <=? i) then l !! Z.to_nat i else None.
Definition store {A} (l : list A) (i : Z) (x : A) : option (list A) :=
  if (0 <=? i) && (i <? len l) then Some (<[Z.to_nat i := x]> l) else None.
Definition slice {A} (l : list A) (lo hi : Z) : option (list A) :=
  if (0 <=? lo) && (lo <=? hi) && (hi <=? len l)
  then Some (take (Z.to_nat (hi - lo)) (drop (Z.to_nat lo) l)) else None.

Lemma index_Some {A} (l : list A) i :
  0 <= i < len l -> exists x, index l i = Some x.
Proof.
  intros H. unfold index. rewrite (proj2 (Z.leb_le 0 i)) by lia.
  destruct (lookup_lt_is_Some_2 l (Z.to_nat i)) as [x Hx]; [lia|eauto].
Qed.
Lemma index_inv {A} (l : list A) i x : index l i = Some x -> 0 <= i < len l.
Proof.
  unfold index. case_match; [|done]. intros Hl%lookup_lt_Some. lia.
Qed.
Lemma store_Some {A} (l : list A) i x :
  0 <= i < len l -> store l i x = Some (<[Z.to_nat i := x]> l).
Proof.
  intros H. unfold store.
  by rewrite (proj2 (Z.leb_le 0 i)), (proj2 (Z.ltb_lt i (len l))) by lia.
Qed.
Lemma index_store {A} (l l' : list A) i j x :
  store l i x = Some l' -> index l' j = if i =? j then Some x else index l j.
Proof.
  unfold store, index. case_match eqn:Hc; [|done]. intros [= <-].
  apply andb_prop in Hc as [H1%Z.leb_le H2%Z.ltb_lt].
  destruct (Z.eqb_spec i j) as [->|Hne].
  - rewrite (proj2 (Z.leb_le 0 j)) by lia. apply list_lookup_insert_eq. lia.
  - destruct (Z.leb_spec 0 j); [|done]. apply list_lookup_insert_ne. lia.
Qed.
Lemma length_store {A} (l l' : list A) i x : store l i x = Some l' -> length l' = length l.
Proof. unfold store. case_match; [|done]. intros [= <-]. apply length_insert. Qed.
Lemma slice_Some {A} (l : list A) lo hi :
  0 <= lo <= hi -> hi <= len l ->
  slice l lo hi = Some (take (Z.to_nat (hi - lo)) (drop (Z.to_nat lo) l)).
Proof.
  intros H1 H2. unfold slice.
  by rewrite (proj2 (Z.leb_le 0 lo)), (proj2 (Z.leb_le lo hi)), (proj2 (Z.leb_le hi (len l))) by lia.
Qed.
Lemma length_slice {A} (l l' : list A) lo hi : slice l lo hi = Some l' -> len l' = hi - lo.
Proof.
  unfold slice. case_match eqn:Hc; [|done]. intros [= <-].
  apply andb_prop in Hc as [[H1%Z.leb_le H2%Z.leb_le]%andb_prop H3%Z.leb_le].
  rewrite length_take, length_drop. lia.
Qed.
