(* ===== verification/Wire.v ===== *)
(** * The wire level: little-endian words, alignment and cursors

    Models the parts of [go/src/fidl/bindings] that the encoder and the decoder
    share: [align] and [bytesForBits] of util.go, [encodingState] and
    [ensureElementBitSizeAndCapacity] of encoder.go, the error values and the
    constants of message.go, and the accesses of [encoding/binary]'s
    [LittleEndian] (Go's standard library) to a byte slice. *)
From S2P Require Import Prelude.

(** ** Errors and constants *)

(** [fmt.Errorf] (format and arguments, unformatted) and [ValidationError]. *)
Inductive error : Type :=
| Errorf (format : string) (args : list Z)
| ValidationError (ErrorCode : string) (Message : string) (args : list Z).

Definition MessageNoFlag : Z := 0.
Definition MessageExpectsResponseFlag : Z := Z.shiftl 1 0.
Definition MessageIsResponseFlag : Z := Z.shiftl 1 1.
Definition dataHeaderSize : Z := 8.
Definition defaultAlignment : Z := 8.

Definition IllegalHandle : string := "VALIDATION_ERROR_ILLEGAL_HANDLE".
Definition IllegalMemoryRange : string := "VALIDATION_ERROR_ILLEGAL_MEMORY_RANGE".
Definition IllegalPointer : string := "VALIDATION_ERROR_ILLEGAL_POINTER".
Definition MessageHeaderInvalidFlags : string :=
  "VALIDATION_ERROR_MESSAGE_HEADER_INVALID_FLAGS".
Definition MessageHeaderMissingRequestId : string :=
  "VALIDATION_ERROR_MESSAGE_HEADER_MISSING_REQUEST_ID".
Definition MisalignedObject : string := "VALIDATION_ERROR_MISALIGNED_OBJECT".
Definition UnexpectedArrayHeader : string := "VALIDATION_ERROR_UNEXPECTED_ARRAY_HEADER".
Definition UnexpectedStructHeader : string := "VALIDATION_ERROR_UNEXPECTED_STRUCT_HEADER".

Record DataHeader := mkDataHeader { Size : Z; ElementsOrVersion : Z }.
#[export] Instance DataHeader_eq_dec : EqDecision DataHeader.
Proof. solve_decision. Defined.
Definition mapHeader : DataHeader := mkDataHeader 24 0.

(** ** util.go *)
Definition align (size alignment : Z) : Z := Z.lor (size - 1) (alignment - 1) + 1.
Definition bytesForBits (bits : Z) : Z := u64 (bits + 7) / 8.

(** ** Little-endian words in a byte slice *)
Fixpoint le_bytes (n : nat) (v : Z) : list Z :=
  match n with O => [] | S n => v mod 256 :: le_bytes n (v / 256) end.
Fixpoint le_word (bs : list Z) : Z :=
  match bs with [] => 0 | b :: bs => b + 256 * le_word bs end.

(** [binary.LittleEndian.PutUint(8n)(buf[off:], v)] and its [Uint(8n)]. *)
Definition PutUint (n : nat) (buf : list Z) (off v : Z) : option (list Z) :=
  if (0 <=? off) && (off + Z.of_nat n <=? len buf)
  then Some (take (Z.to_nat off) buf ++ le_bytes n v ++ drop (Z.to_nat off + n) buf)
  else None.
Definition GetUint (n : nat) (buf : list Z) (off : Z) : option Z :=
  if (0 <=? off) && (off + Z.of_nat n <=? len buf)
  then Some (le_word (take n (drop (Z.to_nat off) buf))) else None.

(** ** encodingState *)
Record encodingState := mkState {
  offset : Z;
  bitOffset : Z;
  limit : Z;
  elements : Z;
  elementsProcessed : Z;
  checkElements : bool
}.

Definition set_offset (o : Z) (s : encodingState) : encodingState :=
  mkState o (bitOffset s) (limit s) (elements s) (elementsProcessed s) (checkElements s).
Definition set_processed (n : Z) (s : encodingState) : encodingState :=
  mkState (offset s) (bitOffset s) (limit s) (elements s) n (checkElements s).

Definition alignOffsetToBytes (s : encodingState) : encodingState :=
  if 0 <? bitOffset s
  then mkState (offset s + 1) 0 (limit s) (elements s) (elementsProcessed s) (checkElements s)
  else s.

Definition skipBits (count : Z) (s : encodingState) : encodingState :=
  let b := u32 (bitOffset s + count) in
  mkState (offset s + Z.shiftr b 3) (Z.land b 7) (limit s) (elements s)
    (elementsProcessed s) (checkElements s).

Definition skipBytes (count : Z) (s : encodingState) : encodingState :=
  mkState (offset s + count) 0 (limit s) (elements s) (elementsProcessed s) (checkElements s).

(** [elementsProcessed++] and [elementsProcessed--] on a [uint32]. *)
Definition incProcessed (s : encodingState) : encodingState :=
  set_processed (u32 (elementsProcessed s + 1)) s.
Definition decProcessed (s : encodingState) : encodingState :=
  set_processed (u32 (elementsProcessed s - 1)) s.
Definition alignOffset (a : Z) (s : encodingState) : encodingState :=
  set_offset (align (offset s) a) s.

Definition ensureElementBitSizeAndCapacity (state : option encodingState) (bitSize : Z)
    : res error unit :=
  match state with
  | None => Err (Errorf "empty state stack" [])
  | Some state =>
    if checkElements state && (elements state <=? elementsProcessed state)
    then Err (Errorf "can't process more than elements defined in header(%d)" [elements state])
    else
      let byteSize := bytesForBits (u32 (bitOffset state + bitSize)) in
      if limit state <? align (offset state + byteSize) byteSize
      then Err (Errorf "buffer size limit exceeded" [])
      else Ok tt
  end.

(** ** Alignment *)
Lemma align_pow2 k s :
  0 <= k -> align s (2 ^ k) = ((s - 1) / 2 ^ k) * 2 ^ k + 2 ^ k.
Proof.
  intros Hk. unfold align.
  replace (2 ^ k - 1) with (Z.ones k) by (rewrite Z.ones_equiv; lia).
  assert (Z.lor (s - 1) (Z.ones k) = Z.lor (Z.shiftl (Z.shiftr (s - 1) k) k) (Z.ones k)) as ->.
  { apply Z.bits_inj'. intros n Hn. rewrite !Z.lor_spec, Z.shiftl_spec by lia.
    destruct (Z.ltb_spec n k).
    - rewrite Z.ones_spec_low by lia. by rewrite !orb_true_r.
    - rewrite Z.ones_spec_high, Z.shiftr_spec by lia. do 2 f_equal. lia. }
  pose proof (Z.add_lor_land (Z.shiftl (Z.shiftr (s - 1) k) k) (Z.ones k)) as E.
  assert (Z.land (Z.shiftl (Z.shiftr (s - 1) k) k) (Z.ones k) = 0) as E0.
  { rewrite Z.land_ones, Z.shiftl_mul_pow2 by lia. apply Z.mod_mul. lia. }
  rewrite E0, Z.add_0_r, Z.shiftl_mul_pow2, Z.shiftr_div_pow2, Z.ones_equiv in E by lia.
  rewrite Z.ones_equiv, Z.shiftl_mul_pow2, Z.shiftr_div_pow2 by lia. lia.
Qed.

Lemma align_bounds k s :
  0 <= k -> s <= align s (2 ^ k) < s + 2 ^ k /\ (2 ^ k | align s (2 ^ k)).
Proof.
  intros Hk. rewrite align_pow2 by done.
  pose proof (Z.pow_pos_nonneg 2 k). pose proof (Z.div_mod (s - 1) (2 ^ k)).
  pose proof (Z.mod_pos_bound (s - 1) (2 ^ k)).
  split; [lia|]. exists ((s - 1) / 2 ^ k + 1). lia.
Qed.

Lemma align_shift k s d :
  0 <= k -> (2 ^ k | d) -> align (s + d) (2 ^ k) = align s (2 ^ k) + d.
Proof.
  intros Hk [q ->]. rewrite !align_pow2 by done.
  replace (s + q * 2 ^ k - 1) with (s - 1 + q * 2 ^ k) by lia.
  rewrite Z.div_add by (pose proof (Z.pow_pos_nonneg 2 k); lia). lia.
Qed.

Lemma bytesForBits_small n : 0 <= n < 2 ^ 64 - 7 -> bytesForBits n = (n + 7) / 8.
Proof. intros. unfold bytesForBits. rewrite u64_small by lia. done. Qed.

(** ** Little-endian words *)
Lemma length_le_bytes n v : length (le_bytes n v) = n.
Proof. revert v. induction n; intros; simpl; auto. Qed.

Lemma le_word_bytes n v : le_word (le_bytes n v) = v mod 2 ^ (8 * Z.of_nat n).
Proof.
  revert v. induction n as [|n IH]; intros v; simpl le_word.
  { by rewrite Z.mod_1_r. }
  rewrite IH.
  replace (2 ^ (8 * Z.of_nat (S n))) with (256 * 2 ^ (8 * Z.of_nat n)).
  - rewrite Z.rem_mul_r by lia. done.
  - replace (8 * Z.of_nat (S n)) with (8 + 8 * Z.of_nat n) by lia.
    rewrite Z.pow_add_r by lia. done.
Qed.

Lemma PutUint_Some n buf off v :
  0 <= off -> off + Z.of_nat n <= len buf -> exists buf', PutUint n buf off v = Some buf'.
Proof.
  intros. unfold PutUint.
  rewrite (proj2 (Z.leb_le 0 off)), (proj2 (Z.leb_le _ (len buf))) by lia. eauto.
Qed.

Lemma PutUint_inv n buf off v buf' :
  PutUint n buf off v = Some buf' ->
  0 <= off /\ off + Z.of_nat n <= len buf /\
  buf' = take (Z.to_nat off) buf ++ le_bytes n v ++ drop (Z.to_nat off + n) buf.
Proof.
  unfold PutUint. case_match eqn:Hc; [|done]. intros [= <-].
  apply andb_prop in Hc as [?%Z.leb_le ?%Z.leb_le]. done.
Qed.

Lemma length_PutUint n buf off v buf' :
  PutUint n buf off v = Some buf' -> length buf' = length buf.
Proof.
  intros (?&?&->)%PutUint_inv.
  rewrite !length_app, length_take, length_le_bytes, length_drop. lia.
Qed.

(** Bytes outside the written window keep their value. *)
Lemma PutUint_frame n buf off v buf' i :
  PutUint n buf off v = Some buf' ->
  i < off \/ off + Z.of_nat n <= i -> index buf' i = index buf i.
Proof.
  intros (?&?&->)%PutUint_inv Hi. unfold index. case_match eqn:Hc; [|done].
  apply Z.leb_le in Hc. destruct Hi.
  - rewrite lookup_app_l by (rewrite length_take; lia). by rewrite lookup_take_lt by lia.
  - rewrite lookup_app_r by (rewrite length_take; lia).
    rewrite lookup_app_r by (rewrite length_take, length_le_bytes; lia).
    rewrite lookup_drop, length_take, length_le_bytes. f_equal. lia.
Qed.

(** Two buffers that agree on a window give the same word, at any base. *)
Lemma GetUint_agree n buf buf' off off' :
  0 <= off -> 0 <= off' -> off + Z.of_nat n <= len buf -> off' + Z.of_nat n <= len buf' ->
  (forall j, 0 <= j < Z.of_nat n -> index buf (off + j) = index buf' (off' + j)) ->
  GetUint n buf off = GetUint n buf' off'.
Proof.
  intros H1 H2 H3 H4 H. unfold GetUint.
  rewrite !(proj2 (Z.leb_le 0 _)), !(proj2 (Z.leb_le _ (len _))) by lia. simpl.
  do 2 f_equal. apply list_eq. intros i.
  destruct (decide (i < n)%nat).
  - rewrite !lookup_take_lt, !lookup_drop by lia.
    specialize (H (Z.of_nat i)). unfold index in H.
    rewrite !(proj2 (Z.leb_le 0 _)) in H by lia.
    replace (Z.to_nat off + i)%nat with (Z.to_nat (off + Z.of_nat i)) by lia.
    replace (Z.to_nat off' + i)%nat with (Z.to_nat (off' + Z.of_nat i)) by lia.
    apply H. lia.
  - rewrite !lookup_ge_None_2; rewrite ?length_take; lia || done.
Qed.

Lemma GetUint_Put n buf off v buf' :
  PutUint n buf off v = Some buf' -> GetUint n buf' off = Some (v mod 2 ^ (8 * Z.of_nat n)).
Proof.
  intros H. pose proof (length_PutUint _ _ _ _ _ H) as Hl.
  apply PutUint_inv in H as (?&?&->). unfold GetUint.
  rewrite (proj2 (Z.leb_le 0 off)), (proj2 (Z.leb_le _ (len _))) by lia. simpl.
  rewrite drop_app_length' by (rewrite length_take; lia).
  by rewrite take_app_length', le_word_bytes by (rewrite length_le_bytes; lia).
Qed.

Lemma GetUint_Some n buf off :
  0 <= off -> off + Z.of_nat n <= len buf -> exists v, GetUint n buf off = Some v.
Proof.
  intros. unfold GetUint.
  rewrite (proj2 (Z.leb_le 0 off)), (proj2 (Z.leb_le _ (len buf))) by lia. eauto.
Qed.

(** ** The capacity check *)

Definition cursor_ok (s : encodingState) : Prop :=
  0 <= offset s /\ 0 <= bitOffset s < 8.

Lemma ensure_inv st n :
  ensureElementBitSizeAndCapacity st n = Ok tt ->
  exists s, st = Some s /\
    (checkElements s = true -> elementsProcessed s < elements s) /\
    align (offset s + bytesForBits (u32 (bitOffset s + n)))
          (bytesForBits (u32 (bitOffset s + n))) <= limit s.
Proof.
  destruct st as [s|]; simpl; [|done].
  case_match eqn:Hc; [done|]. case_match eqn:Hl; [done|]. intros _.
  exists s. split; [done|]. apply Z.ltb_ge in Hl. split; [|done].
  intros Hce. rewrite Hce in Hc. simpl in Hc. apply Z.leb_gt in Hc. done.
Qed.

Lemma ensure_no_panic st n : ensureElementBitSizeAndCapacity st n <> Panic.
Proof. destruct st; simpl; [|done]. by repeat case_match. Qed.

Lemma lor_ge x y : 0 <= y -> x <= Z.lor x y.
Proof.
  intros Hy. pose proof (Z.add_lor_land x y). pose proof (Z.land_nonneg x y).
  assert (Z.land x y <= y); [|lia].
  rewrite Z.land_comm. pose proof (Z.lor_ldiff_and y x).
  pose proof (Z.add_lor_land (Z.ldiff y x) (Z.land y x)).
  assert (Z.land (Z.ldiff y x) (Z.land y x) = 0) as E.
  { apply Z.bits_inj'. intros n Hn. rewrite !Z.land_spec, Z.ldiff_spec, Z.bits_0.
    by destruct (Z.testbit y n), (Z.testbit x n). }
  assert (0 <= Z.ldiff y x) by (apply Z.ldiff_nonneg; auto). lia.
Qed.

(** The least multiple above is below every other multiple above. *)
Lemma align_least k s m :
  0 <= k -> s <= m -> (2 ^ k | m) -> align s (2 ^ k) <= m.
Proof.
  intros Hk Hs [q ->]. rewrite align_pow2 by done.
  pose proof (Z.pow_pos_nonneg 2 k).
  assert ((s - 1) / 2 ^ k < q); [|nia].
  apply Z.div_lt_upper_bound; nia.
Qed.

(** A value of [2 ^ k] bytes fits whenever the check succeeds, if no bit of the
    current byte is in use or the block ends on an 8-byte boundary. *)
Lemma ensure_fits s k :
  0 <= k <= 3 -> cursor_ok s ->
  bitOffset s = 0 \/ (8 | limit s) ->
  ensureElementBitSizeAndCapacity (Some s) (8 * 2 ^ k) = Ok tt ->
  let s' := alignOffset (2 ^ k) (alignOffsetToBytes s) in
  bitOffset s' = 0 /\ offset s <= offset s' /\ offset s' + 2 ^ k <= limit s /\
  (0 < bitOffset s -> offset s < offset s') /\ (2 ^ k | offset s').
Proof.
  intros Hk (Ho&Hb) Hcase Hens. apply ensure_inv in Hens as (s0&[= <-]&_&Hfit).
  assert (1 <= 2 ^ k <= 8) as Hpow.
  { split; [pose proof (Z.pow_pos_nonneg 2 k); lia|apply (Z.pow_le_mono_r 2 k 3); lia]. }
  assert ((2 ^ k | 8)) as Hdiv.
  { exists (2 ^ (3 - k)). rewrite <- Z.pow_add_r by lia. by replace (3 - k + k) with 3 by lia. }
  rewrite u32_small, bytesForBits_small in Hfit by lia.
  unfold alignOffset, alignOffsetToBytes.
  destruct (Z.ltb_spec 0 (bitOffset s)); simpl.
  - destruct Hcase as [?|Hq]; [lia|].
    replace ((bitOffset s + 8 * 2 ^ k + 7) / 8) with (2 ^ k + 1) in Hfit
      by (apply (Z.div_unique_pos _ _ _ (bitOffset s - 1)); lia).
    assert (offset s + (2 ^ k + 1) <= limit s).
    { unfold align in Hfit. pose proof (lor_ge (offset s + (2 ^ k + 1) - 1) (2 ^ k + 1 - 1)). lia. }
    destruct (align_bounds k (offset s + 1)) as [? ?]; [lia|].
    pose proof (align_least k (offset s + 1) (limit s - 2 ^ k)) as Hl.
    assert (align (offset s + 1) (2 ^ k) <= limit s - 2 ^ k).
    { apply Hl; [lia|lia|]. apply Z.divide_sub_r; [|exists 1; lia]. by apply (Z.divide_trans _ 8). }
    split_and!; lia || done.
  - replace ((bitOffset s + 8 * 2 ^ k + 7) / 8) with (2 ^ k) in Hfit
      by (apply (Z.div_unique_pos _ _ _ 7); lia).
    rewrite align_shift in Hfit by (lia || (exists 1; lia)).
    destruct (align_bounds k (offset s)) as [? ?]; [lia|].
    split_and!; lia || done.
Qed.

Lemma ensure_fits_bit s :
  cursor_ok s -> ensureElementBitSizeAndCapacity (Some s) 1 = Ok tt ->
  offset s + 1 <= limit s.
Proof.
  intros (Ho&Hb) Hens. apply ensure_inv in Hens as (s0&[= <-]&_&Hfit).
  rewrite u32_small, bytesForBits_small in Hfit by lia.
  replace ((bitOffset s + 1 + 7) / 8) with 1 in Hfit
    by (apply (Z.div_unique_pos _ _ _ (bitOffset s)); lia).
  unfold align in Hfit. rewrite Z.lor_0_r in Hfit. lia.
Qed.

(** ** Cursor movement shared by the encoder and the decoder *)

(** Where a value of [n] bytes is placed, and where the cursor goes next. *)
Definition word_start (n : Z) (s : encodingState) : encodingState :=
  alignOffset n (alignOffsetToBytes s).
Definition word_next (n : Z) (s : encodingState) : encodingState :=
  incProcessed (skipBytes n (word_start n s)).
Definition bit_next (s : encodingState) : encodingState := incProcessed (skipBits 1 s).

Lemma align_1 x : align x 1 = x.
Proof. unfold align. rewrite Z.lor_0_r. lia. Qed.

Lemma alignOffset_1 s : alignOffset 1 s = s.
Proof. destruct s. unfold alignOffset, set_offset. simpl. by rewrite align_1. Qed.

Lemma skipBits_1 s :
  0 <= bitOffset s < 8 ->
  skipBits 1 s =
  if bitOffset s =? 7
  then mkState (offset s + 1) 0 (limit s) (elements s) (elementsProcessed s) (checkElements s)
  else mkState (offset s) (bitOffset s + 1) (limit s) (elements s) (elementsProcessed s)
         (checkElements s).
Proof.
  intros Hb. unfold skipBits. rewrite u32_small by lia.
  change 7 with (Z.ones 3) at 1. rewrite Z.land_ones, Z.shiftr_div_pow2 by lia.
  change (2 ^ 3) with 8.
  destruct (Z.eqb_spec (bitOffset s) 7) as [->|Hne]; f_equal; try reflexivity.
  - rewrite Z.div_small; lia.
  - rewrite Z.mod_small; lia.
Qed.

Lemma limit_word_start n s : limit (word_start n s) = limit s.
Proof. unfold word_start, alignOffset, alignOffsetToBytes. by case_match. Qed.
Lemma limit_word_next n s : limit (word_next n s) = limit s.
Proof. apply limit_word_start. Qed.
Lemma limit_bit_next s : limit (bit_next s) = limit s.
Proof. done. Qed.

Lemma word_start_offset k s :
  0 <= k -> offset s <= offset (word_start (2 ^ k) s).
Proof.
  intros Hk. unfold word_start, alignOffset, alignOffsetToBytes.
  case_match; simpl;
    [pose proof (align_bounds k (offset s + 1) Hk)|pose proof (align_bounds k (offset s) Hk)]; lia.
Qed.
Lemma cursor_ok_word_next k s :
  0 <= k -> cursor_ok s -> cursor_ok (word_next (2 ^ k) s).
Proof.
  intros Hk (Ho&Hb). pose proof (word_start_offset k s Hk).
  pose proof (Z.pow_pos_nonneg 2 k). split; simpl; [|lia].
  change (0 <= offset (word_start (2 ^ k) s) + 2 ^ k). lia.
Qed.
Lemma cursor_ok_bit_next s : cursor_ok s -> cursor_ok (bit_next s).
Proof.
  intros (Ho&Hb). unfold bit_next. rewrite skipBits_1 by done.
  destruct (Z.eqb_spec (bitOffset s) 7); split; simpl; lia.
Qed.

(** ** Bytes *)
Definition is_byte (b : Z) : Prop := 0 <= b < 256.
Lemma le_word_range bs :
  Forall is_byte bs -> 0 <= le_word bs < 2 ^ (8 * Z.of_nat (length bs)).
Proof.
  induction 1 as [|b bs Hb _ IH]; cbn [le_word length]; [done|].
  unfold is_byte in Hb.
  replace (8 * Z.of_nat (S (length bs))) with (8 + 8 * Z.of_nat (length bs)) by lia.
  rewrite Z.pow_add_r by lia. change (2 ^ 8) with 256. nia.
Qed.
Lemma GetUint_range n buf off v :
  Forall is_byte buf -> GetUint n buf off = Some v -> 0 <= v < 2 ^ (8 * Z.of_nat n).
Proof.
  intros Hb. unfold GetUint. destruct (_ && _) eqn:E; [|done]. intros [= <-].
  apply andb_prop in E as [?%Z.leb_le ?%Z.leb_le].
  pose proof (le_word_range (take n (drop (Z.to_nat off) buf))) as Hr.
  rewrite length_take_le in Hr by (rewrite length_drop; lia).
  apply Hr. by apply Forall_take, Forall_drop.
Qed.

(** ** Properties *)

(** [align] on a power of two returns the least multiple of it that is not
    below the argument. *)
Theorem align_is_least_multiple k s :
  0 <= k ->
  s <= align s (2 ^ k) /\ (2 ^ k | align s (2 ^ k)) /\
  forall m, s <= m -> (2 ^ k | m) -> align s (2 ^ k) <= m.
Proof.
  intros Hk. destruct (align_bounds k s Hk) as [Hb ?]. split_and!; [lia|done|].
  intros m. by apply align_least.
Qed.
Lemma align_is_least_multiple_witness :
  13 <= align 13 (2 ^ 3) /\ (2 ^ 3 | align 13 (2 ^ 3)) /\
  forall m, 13 <= m -> (2 ^ 3 | m) -> align 13 (2 ^ 3) <= m.
Proof. apply (align_is_least_multiple 3 13). lia. Defined.

(** C17: when the capacity check accepts a value of [2 ^ k] bytes and either no bit
    of the current byte is used or the block ends on an 8-byte boundary, then the
    aligned value lies between the old cursor and the end of the block. *)
Theorem capacity_check_sound k s :
  0 <= k <= 3 -> cursor_ok s -> bitOffset s = 0 \/ (8 | limit s) ->
  ensureElementBitSizeAndCapacity (Some s) (8 * 2 ^ k) = Ok tt ->
  offset s <= offset (word_start (2 ^ k) s) /\ (2 ^ k | offset (word_start (2 ^ k) s)) /\
  offset (word_start (2 ^ k) s) + 2 ^ k <= limit s /\
  (0 < bitOffset s -> offset s < offset (word_start (2 ^ k) s)).
Proof. intros Hk Hc Hb Hens. by destruct (ensure_fits s k Hk Hc Hb Hens) as (_&?&?&?&?). Qed.
Lemma capacity_check_sound_witness :
  let s := mkState 8 1 16 0 0 false in
  8 <= offset (word_start (2 ^ 2) s) /\ (2 ^ 2 | offset (word_start (2 ^ 2) s)) /\
  offset (word_start (2 ^ 2) s) + 2 ^ 2 <= 16 /\
  (0 < 1 -> 8 < offset (word_start (2 ^ 2) s)).
Proof.
  apply (capacity_check_sound 2 (mkState 8 1 16 0 0 false)); [lia|split; simpl; lia| |reflexivity].
  right. exists 2. reflexivity.
Defined.

(** the check is not sound otherwise: with one bit of the current byte read
    and three bytes left in the block it accepts a 16-bit value that needs four. *)
Theorem capacity_check_unsound_after_bit :
  let s := mkState 8 1 11 0 0 false in
  cursor_ok s /\ ensureElementBitSizeAndCapacity (Some s) 16 = Ok tt /\
  limit s < offset (word_start 2 s) + 2.
Proof. split_and!; [split; simpl; lia|vm_compute; done..]. Qed.
