(* ===== verification/Encoder.v ===== *)
(** * The encoder of go/src/fidl/bindings/encoder.go

    [Encoder] is the struct of that name; every method is a Definition of the
    same name in the monad [M Encoder error].  [stateStack] is kept with its
    top at the head: [e.state()] is [head], [append] is [cons].  A call through
    the nil result of [e.state()] panics.  A [float32]/[float64] is represented
    by its IEEE 754 bits, which is all the encoder looks at. *)
From S2P Require Import Prelude Wire.

Record Encoder := mkEncoder {
  buf : list Z;
  end_ : Z;
  handles : list Z;
  stateStack : list encodingState;
  deterministic : bool
}.

Abbreviation EM A := (M Encoder error A).

Definition set_buf (b : list Z) (e : Encoder) : Encoder :=
  mkEncoder b (end_ e) (handles e) (stateStack e) (deterministic e).
Definition set_stack (st : list encodingState) (e : Encoder) : Encoder :=
  mkEncoder (buf e) (end_ e) (handles e) st (deterministic e).

(** [e.state()] *)
Definition state (e : Encoder) : option encodingState := head (stateStack e).
(** Dereference of [e.state()], and an update through it. *)
Definition get_state : EM encodingState := fun e => must (state e) e.
Definition with_state (f : encodingState -> encodingState) : EM unit := fun e =>
  match stateStack e with
  | [] => (e, Panic)
  | s :: st => (set_stack (f s :: st) e, Ok tt)
  end.
Definition ensure (bitSize : Z) : EM unit := fun e =>
  (e, ensureElementBitSizeAndCapacity (state e) bitSize).
(** [binary.LittleEndian.PutUint(8n)(e.buf[off:], v)] *)
Definition put_uint (n : nat) (off v : Z) : EM unit := fun e =>
  match PutUint n (buf e) off v with
  | Some b => (set_buf b e, Ok tt)
  | None => (e, Panic)
  end.
(** [e.buf[off] = x] *)
Definition put_byte (off x : Z) : EM unit := fun e =>
  match store (buf e) off x with
  | Some b => (set_buf b e, Ok tt)
  | None => (e, Panic)
  end.

Definition NewEncoder : Encoder := mkEncoder [] 0 [] [] false.

Definition SetDeterministic (d : bool) : EM unit :=
  modify (fun e => mkEncoder (buf e) (end_ e) (handles e) (stateStack e) d).
Definition Deterministic (e : Encoder) : bool := deterministic e.

Definition claimData (size : Z) : EM unit := modify (fun e =>
  let e1 := mkEncoder (buf e) (end_ e + size) (handles e) (stateStack e) (deterministic e) in
  if end_ e1 <? len (buf e1) then e1
  else
    let l := 2 * len (buf e1) in
    let newLen := if end_ e1 <? l then l else end_ e1 in
    set_buf (buf e1 ++ replicate (Z.to_nat newLen - length (buf e1)) 0) e1).

Definition popState : EM unit := modify (fun e =>
  if negb (bool_decide (length (stateStack e) = 0%nat)) then set_stack (tail (stateStack e)) e
  else e).

Definition pushState (header : DataHeader) (check : bool) : EM unit :=
  let! e0 := get in
  let oldEnd := end_ e0 in
  claimData (align (Size header) defaultAlignment) ;;;
  let elems := if check then ElementsOrVersion header else 0 in
  modify (fun e => set_stack (mkState oldEnd 0 (end_ e) elems 0 check :: stateStack e) e).

Definition writeDataHeader (header : DataHeader) : EM unit :=
  let! s := get_state in
  put_uint 4 (offset s) (Size header) ;;;
  put_uint 4 (offset s + 4) (ElementsOrVersion header) ;;;
  with_state (fun s => set_offset (offset s + 8) s).

Definition StartArray (length elementBitSize : Z) : EM unit :=
  let dataSize := dataHeaderSize + bytesForBits (u64 (length * elementBitSize)) in
  let header := mkDataHeader (u32 dataSize) length in
  pushState header true ;;; writeDataHeader header.

Definition StartMap : EM unit :=
  pushState mapHeader false ;;; writeDataHeader mapHeader.

Definition StartStruct (size version : Z) : EM unit :=
  let dataSize := dataHeaderSize + size in
  let header := mkDataHeader (u32 dataSize) version in
  pushState header false ;;; writeDataHeader header.

Definition StartNestedUnion : EM unit := pushState (mkDataHeader 16 0) false.

Definition WriteUnionHeader (tag : Z) : EM unit :=
  ensure 64 ;;;
  with_state alignOffsetToBytes ;;;
  with_state (alignOffset 8) ;;;
  let! s := get_state in
  put_uint 4 (offset s) 16 ;;;
  put_uint 4 (offset s + 4) tag ;;;
  with_state (fun s => set_offset (offset s + 8) s) ;;;
  ensure 64.

Definition FinishWritingUnionValue : EM unit :=
  with_state (alignOffset 8) ;;; with_state alignOffsetToBytes.

Definition Finish : EM unit := fun e =>
  match state e with
  | None => (e, Err (Errorf "state stack is empty" []))
  | Some s =>
    if checkElements s && negb (elementsProcessed s =? elements s)
    then (e, Err (Errorf "unexpected number of elements written: defined in header %d, but written %d"
                   [elements s; elementsProcessed s]))
    else popState e
  end.

Definition Data : EM (list Z * list Z) := fun e =>
  if negb (bool_decide (length (stateStack e) = 0%nat))
  then (e, Err (Errorf "can't return data when encoder has non-empty state stack" []))
  else match slice (buf e) 0 (end_ e) with
       | Some bs => (e, Ok (bs, handles e))
       | None => (e, Panic)
       end.

Definition WriteBool (value : bool) : EM unit :=
  ensure 1 ;;;
  (if value then
     let! s := get_state in
     let! e := get in
     let! b := must (index (buf e) (offset s)) in
     put_byte (offset s) (Z.lor b (u8 (Z.shiftl 1 (bitOffset s))))
   else ret tt) ;;;
  with_state (skipBits 1) ;;;
  with_state incProcessed.

Definition WriteUint8 (value : Z) : EM unit :=
  ensure 8 ;;;
  with_state alignOffsetToBytes ;;;
  let! s := get_state in
  put_byte (offset s) value ;;;
  with_state (skipBytes 1) ;;;
  with_state incProcessed.

Definition WriteUint16 (value : Z) : EM unit :=
  ensure 16 ;;;
  with_state alignOffsetToBytes ;;;
  with_state (alignOffset 2) ;;;
  let! s := get_state in
  put_uint 2 (offset s) value ;;;
  with_state (skipBytes 2) ;;;
  with_state incProcessed.

Definition WriteUint32 (value : Z) : EM unit :=
  ensure 32 ;;;
  with_state alignOffsetToBytes ;;;
  with_state (alignOffset 4) ;;;
  let! s := get_state in
  put_uint 4 (offset s) value ;;;
  with_state (skipBytes 4) ;;;
  with_state incProcessed.

Definition WriteUint64 (value : Z) : EM unit :=
  ensure 64 ;;;
  with_state alignOffsetToBytes ;;;
  with_state (alignOffset 8) ;;;
  let! s := get_state in
  put_uint 8 (offset s) value ;;;
  with_state (skipBytes 8) ;;;
  with_state incProcessed.

Definition WriteInt8 (value : Z) : EM unit := WriteUint8 (u8 value).
Definition WriteInt16 (value : Z) : EM unit := WriteUint16 (u16 value).
Definition WriteInt32 (value : Z) : EM unit := WriteUint32 (u32 value).
Definition WriteInt64 (value : Z) : EM unit := WriteUint64 (u64 value).

(** [math.Float32bits] and [math.Float64bits] on the bit representation. *)
Definition Float32bits (value : Z) : Z := value.
Definition Float64bits (value : Z) : Z := value.
Definition WriteFloat32 (value : Z) : EM unit := WriteUint32 (Float32bits value).
Definition WriteFloat64 (value : Z) : EM unit := WriteUint64 (Float64bits value).

Definition WriteNullUnion : EM unit :=
  WriteUint64 0 ;;; with_state decProcessed ;;; WriteUint64 0.
Definition WriteNullPointer : EM unit := WriteUint64 0.

Fixpoint write_bytes (bs : list Z) : EM unit :=
  match bs with
  | [] => ret tt
  | b :: bs => WriteUint8 b ;;; write_bytes bs
  end.

Definition WriteString (value : list Z) : EM unit :=
  StartArray (u32 (len value)) 8 ;;; write_bytes value ;;; Finish.

Definition WritePointer : EM unit :=
  with_state alignOffsetToBytes ;;;
  with_state (alignOffset 8) ;;;
  let! s := get_state in
  let! e := get in
  WriteUint64 (u64 (end_ e - offset s)).

Definition WriteInvalidHandle : EM unit := WriteInt32 (-1).

Section Handles.
(** [handle.IsValid()] of the [syscall/mx] package. *)
Context (IsValid : Z -> bool).

Definition WriteHandle (handle : Z) : EM unit :=
  if negb (IsValid handle) then throw (Errorf "can't write an invalid handle" [])
  else
    modify (fun e => mkEncoder (buf e) (end_ e) (handles e ++ [handle])
                       (stateStack e) (deterministic e)) ;;;
    let! e := get in
    WriteUint32 (u32 (len (handles e) - 1)).

Definition WriteInvalidInterface : EM unit :=
  WriteInvalidHandle ;;; with_state decProcessed ;;; WriteUint32 0.

Definition WriteInterface (handle : Z) : EM unit :=
  WriteHandle handle ;;; with_state decProcessed ;;; WriteUint32 0.
End Handles.

(** ** The word writers, uniformly *)

(** All of [WriteUint8] ... [WriteUint64] are this on [2 ^ k] bytes. *)
Definition write_word (n : Z) (v : Z) : EM unit :=
  ensure (8 * n) ;;;
  with_state alignOffsetToBytes ;;;
  with_state (alignOffset n) ;;;
  let! s := get_state in
  put_uint (Z.to_nat n) (offset s) v ;;;
  with_state (skipBytes n) ;;;
  with_state incProcessed.

Lemma WriteUint16_word v : WriteUint16 v = write_word (2 ^ 1) v.
Proof. done. Qed.
Lemma WriteUint32_word v : WriteUint32 v = write_word (2 ^ 2) v.
Proof. done. Qed.
Lemma WriteUint64_word v : WriteUint64 v = write_word (2 ^ 3) v.
Proof. done. Qed.

Lemma put_byte_uint off v e :
  0 <= v < 256 -> put_byte off v e = put_uint 1 off v e.
Proof.
  intros Hv. unfold put_byte, put_uint, store, PutUint.
  destruct (Z.leb_spec 0 off); simpl; [|done].
  change (Z.of_nat 1) with 1.
  destruct (Z.ltb_spec off (len (buf e))), (Z.leb_spec (off + 1) (len (buf e))); try lia; [|done].
  do 3 f_equal. rewrite insert_take_drop by lia. simpl. do 2 f_equal.
  - symmetry. apply Z.mod_small. lia.
  - f_equal. lia.
Qed.

Lemma WriteUint8_word v e : 0 <= v < 256 -> WriteUint8 v e = write_word (2 ^ 0) v e.
Proof.
  intros Hv. unfold WriteUint8, write_word, bind. change (8 * 2 ^ 0) with 8.
  destruct (ensure 8 e) as [e1 [[]|x|]]; [|done..].
  destruct (with_state alignOffsetToBytes e1) as [e2 [[]|x|]]; [|done..].
  assert (with_state (alignOffset (2 ^ 0)) e2 =
          match stateStack e2 with [] => (e2, Panic) | _ => (e2, Ok tt) end) as ->.
  { unfold with_state. destruct e2 as [? ? ? [|s st] ?]; simpl; [done|].
    by rewrite alignOffset_1. }
  destruct (stateStack e2) as [|s st] eqn:Hst.
  - unfold get_state, state. by rewrite Hst.
  - destruct (get_state e2) as [e3 [s'|x|]]; [|done..]. by rewrite put_byte_uint.
Qed.

Lemma ensure_run n e s st :
  stateStack e = s :: st -> ensureElementBitSizeAndCapacity (Some s) n = Ok tt ->
  ensure n e = (e, Ok tt).
Proof. intros Hst H. unfold ensure, state. by rewrite Hst, <- H. Qed.
Lemma with_state_run f e s st :
  stateStack e = s :: st -> with_state f e = (set_stack (f s :: st) e, Ok tt).
Proof. intros Hst. unfold with_state. by rewrite Hst. Qed.
Lemma get_state_run e s st : stateStack e = s :: st -> get_state e = (e, Ok s).
Proof. intros Hst. unfold get_state, state. by rewrite Hst. Qed.

(** Result of a word write when the check succeeds and the bytes fit. *)
Lemma write_word_ok n v e s st b :
  stateStack e = s :: st ->
  ensureElementBitSizeAndCapacity (Some s) (8 * n) = Ok tt ->
  PutUint (Z.to_nat n) (buf e) (offset (word_start n s)) v = Some b ->
  write_word n v e =
  (mkEncoder b (end_ e) (handles e) (word_next n s :: st) (deterministic e), Ok tt).
Proof.
  intros Hst Hens Hput. unfold write_word.
  rewrite (bind_run_ok _ _ _ _ _ (ensure_run _ _ _ _ Hst Hens)).
  rewrite (bind_run_ok _ _ _ _ _ (with_state_run _ _ _ _ Hst)).
  erewrite bind_run_ok by (by apply with_state_run).
  erewrite bind_run_ok by done.
  erewrite bind_run_ok.
  2:{ unfold put_uint.
      change (PutUint _ _ _ _) with (PutUint (Z.to_nat n) (buf e) (offset (word_start n s)) v).
      by rewrite Hput. }
  done.
Qed.

Lemma write_word_err n v e x :
  ensureElementBitSizeAndCapacity (state e) (8 * n) = Err x ->
  write_word n v e = (e, Err x).
Proof. intros H. apply bind_run_err. unfold ensure. by rewrite H. Qed.

(** Likewise for a bit. *)
Lemma WriteBool_ok value e s st :
  stateStack e = s :: st ->
  ensureElementBitSizeAndCapacity (Some s) 1 = Ok tt ->
  forall x, index (buf e) (offset s) = Some x ->
  WriteBool value e =
  (mkEncoder (if value then <[Z.to_nat (offset s) := Z.lor x (u8 (Z.shiftl 1 (bitOffset s)))]> (buf e)
              else buf e)
     (end_ e) (handles e) (bit_next s :: st) (deterministic e), Ok tt).
Proof.
  intros Hst Hens x Hx. unfold WriteBool.
  rewrite (bind_run_ok _ _ _ _ _ (ensure_run _ _ _ _ Hst Hens)).
  destruct value.
  - erewrite bind_run_ok.
    2:{ rewrite (bind_run_ok _ _ _ _ _ (get_state_run _ _ _ Hst)).
        erewrite bind_run_ok by done.
        erewrite bind_run_ok by (unfold must; by rewrite Hx).
        unfold put_byte. by rewrite store_Some by (by eapply index_inv). }
    erewrite bind_run_ok by (by apply with_state_run). done.
  - erewrite bind_run_ok by done.
    erewrite bind_run_ok by (by apply with_state_run). by destruct e.
Qed.

(** ** The invariant of the encoder *)

(** A claimed block ends inside the claimed part of the buffer, on an 8-byte
    boundary. *)
Definition block_ok (e : Z) (s : encodingState) : Prop :=
  cursor_ok s /\ limit s <= e /\ (8 | limit s).
Definition enc_inv (e : Encoder) : Prop :=
  0 <= end_ e <= len (buf e) /\ (8 | end_ e) /\ Forall (block_ok (end_ e)) (stateStack e).

Lemma enc_inv_new : enc_inv NewEncoder.
Proof. split_and!; simpl; try lia; [exists 0; lia|constructor]. Qed.

Lemma block_ok_top e s st f :
  Forall (block_ok e) (s :: st) ->
  cursor_ok (f s) -> limit (f s) = limit s -> Forall (block_ok e) (f s :: st).
Proof.
  intros [(?&?&?) ?]%Forall_cons ? Hl. constructor; [|done]. split; [done|]. by rewrite Hl.
Qed.

Lemma block_ok_mono e e' st : e <= e' -> Forall (block_ok e) st -> Forall (block_ok e') st.
Proof. intros H Hst. eapply Forall_impl; [done|]. intros s (?&?&?). split_and!; auto; lia. Qed.

Abbreviation safe m := (wp m (fun e' _ => enc_inv e') (fun e' _ => enc_inv e')).

(** A successful check is a check of the top block. *)
Lemma ensure_top e n :
  enc_inv e -> ensureElementBitSizeAndCapacity (state e) n = Ok tt ->
  exists s st, stateStack e = s :: st /\ block_ok (end_ e) s /\
    ensureElementBitSizeAndCapacity (Some s) n = Ok tt.
Proof.
  intros (_&_&Hst) Hens. unfold state in Hens.
  destruct (stateStack e) as [|s st]; [by simpl in Hens|].
  exists s, st. split_and!; [done| |done]. by inversion Hst.
Qed.

Lemma write_word_wp k v e :
  0 <= k <= 3 -> enc_inv e ->
  wp (write_word (2 ^ k) v)
     (fun e' _ => enc_inv e' /\ end_ e' = end_ e /\ handles e' = handles e /\
        exists s st, stateStack e = s :: st /\ stateStack e' = word_next (2 ^ k) s :: st)
     (fun e' _ => e' = e) e.
Proof.
  intros Hk (He&Hd&Hst). unfold wp.
  destruct (ensureElementBitSizeAndCapacity (state e) (8 * 2 ^ k)) as [[]|x|] eqn:Hens.
  - destruct (ensure_top e _ ltac:(done) Hens) as (s&st&Hst0&(Hc&Hl&Hm)&Hens').
    rewrite Hst0 in Hst. clear Hens. rename Hens' into Hens.
    pose proof (ensure_fits s k Hk Hc (or_intror Hm) Hens) as (_&Ho&Hfit&_&_).
    pose proof (Z.pow_pos_nonneg 2 k).
    destruct (PutUint_Some (Z.to_nat (2 ^ k)) (buf e) (offset (word_start (2 ^ k) s)) v) as [b Hb].
    { destruct Hc. unfold word_start. lia. }
    { rewrite Z2Nat.id by lia. unfold word_start. lia. }
    rewrite (write_word_ok _ _ _ _ _ _ Hst0 Hens Hb). split_and!; try done.
    + apply length_PutUint in Hb. split_and!; simpl; [lia..|done|].
      apply (block_ok_top _ s); [done| |apply limit_word_next].
      apply cursor_ok_word_next; [lia|done].
    + eauto.
  - by rewrite (write_word_err _ _ _ _ Hens).
  - by apply ensure_no_panic in Hens.
Qed.

Lemma write_word_safe k v e : 0 <= k <= 3 -> enc_inv e -> safe (write_word (2 ^ k) v) e.
Proof.
  intros Hk He. eapply wp_mono; [by apply write_word_wp|by intros ?? (?&_)|]. by intros ?? ->.
Qed.

(** Moving the cursor of the top block keeps the invariant. *)
Definition moves (f : encodingState -> encodingState) : Prop :=
  forall s, cursor_ok s -> cursor_ok (f s) /\ limit (f s) = limit s.

Lemma with_state_wp f e :
  moves f -> stateStack e <> [] -> enc_inv e ->
  wp (with_state f) (fun e' _ => enc_inv e' /\ stateStack e' <> []) (fun _ _ => False) e.
Proof.
  intros Hf Hne (He&Hd&Hst). unfold wp, with_state.
  destruct (stateStack e) as [|s st] eqn:E; [done|]. split; [|done].
  split_and!; simpl; [lia..|done|].
  assert (cursor_ok s) as [? ?]%Hf by (by inversion Hst as [|?? (?&?) ?]).
  by apply (block_ok_top _ s).
Qed.

Lemma moves_aligned k : 0 <= k -> moves (alignOffset (2 ^ k)).
Proof.
  intros Hk s (?&?). split; [|done]. split; simpl; [|done].
  pose proof (align_bounds k (offset s)). lia.
Qed.
Lemma moves_to_bytes : moves alignOffsetToBytes.
Proof.
  intros s (?&?). unfold alignOffsetToBytes. case_match; [|done].
  split; [|done]. split; simpl; lia.
Qed.
Lemma moves_processed n : moves (fun s => set_processed (n s) s).
Proof. by intros s (?&?). Qed.
Lemma moves_ahead n : 0 <= n -> moves (fun s => set_offset (offset s + n) s).
Proof. intros Hn s (?&?). split; [|done]. split; simpl; lia. Qed.
Lemma moves_compose f g : moves f -> moves g -> moves (fun s => g (f s)).
Proof. intros Hf Hg s Hs. destruct (Hf s Hs) as [? <-]. by apply Hg. Qed.
#[local] Hint Resolve moves_to_bytes moves_processed moves_compose : wire.

(** Claiming a block extends the buffer by zeros and pushes a state on it. *)
Lemma pushState_run h c e :
  0 <= Size h -> enc_inv e ->
  exists z, pushState h c e =
    (mkEncoder (buf e ++ replicate z 0) (end_ e + align (Size h) 8) (handles e)
       (mkState (end_ e) 0 (end_ e + align (Size h) 8)
          (if c then ElementsOrVersion h else 0) 0 c :: stateStack e) (deterministic e), Ok tt)
    /\ end_ e + align (Size h) 8 <= len (buf e ++ replicate z 0).
Proof.
  intros Hs (He&Hd&Hst). unfold pushState.
  erewrite bind_run_ok by done. simpl.
  change defaultAlignment with 8.
  set (n := end_ e + align (Size h) 8).
  unfold claimData. destruct (Z.ltb_spec n (len (buf e))) as [Hlt|Hge].
  - exists 0%nat. rewrite app_nil_r. split; [|lia].
    erewrite bind_run_ok by done. simpl. subst n.
    rewrite (proj2 (Z.ltb_lt _ _)) by done. done.
  - exists (Z.to_nat (if n <? 2 * len (buf e) then 2 * len (buf e) else n)%Z - length (buf e))%nat.
    split.
    + erewrite bind_run_ok by done. simpl. fold n.
      rewrite (proj2 (Z.ltb_ge _ _)) by done. done.
    + rewrite length_app, length_replicate. destruct (Z.ltb_spec n (2 * len (buf e))); lia.
Qed.

Lemma pushState_inv h c e :
  0 <= Size h -> enc_inv e -> enc_inv (pushState h c e).1.
Proof.
  intros Hs He. destruct (pushState_run h c e Hs He) as (z&->&Hz).
  destruct He as (He&Hd&Hst). change 8 with (2 ^ 3) in Hz at 1. simpl in Hz.
  pose proof (align_bounds 3 (Size h)) as [? Hdv]; [lia|]. change (2 ^ 3) with 8 in *.
  assert ((8 | end_ e + align (Size h) 8)) by (by apply Z.divide_add_r).
  split_and!; simpl; [lia..|done|].
  constructor; [split_and!; simpl; [|lia|done]|].
  - split; simpl; lia.
  - by eapply block_ok_mono; [|done]; lia.
Qed.

Lemma writeDataHeader_run h e s st :
  stateStack e = s :: st -> 0 <= offset s -> offset s + 8 <= len (buf e) ->
  exists b b', PutUint 4 (buf e) (offset s) (Size h) = Some b /\
    PutUint 4 b (offset s + 4) (ElementsOrVersion h) = Some b' /\
    writeDataHeader h e =
    (mkEncoder b' (end_ e) (handles e) (set_offset (offset s + 8) s :: st) (deterministic e), Ok tt).
Proof.
  intros Hst Ho Hl.
  destruct (PutUint_Some 4 (buf e) (offset s) (Size h)) as [b Hb]; [lia..|].
  destruct (PutUint_Some 4 b (offset s + 4) (ElementsOrVersion h)) as [b' Hb'].
  { lia. } { rewrite (length_PutUint _ _ _ _ _ Hb). lia. }
  exists b, b'. split_and!; [done..|]. unfold writeDataHeader.
  rewrite (bind_run_ok _ _ _ _ _ (get_state_run _ _ _ Hst)).
  erewrite bind_run_ok by (unfold put_uint; by rewrite Hb).
  erewrite bind_run_ok by (unfold put_uint; simpl; by rewrite Hb').
  erewrite with_state_run by done. done.
Qed.

(** Starting a one-level value: the block is claimed and its header written. *)
Definition start (h : DataHeader) (c : bool) : EM unit := pushState h c ;;; writeDataHeader h.

Lemma start_run h c e :
  8 <= Size h -> enc_inv e ->
  exists b, start h c e =
    (mkEncoder b (end_ e + align (Size h) 8) (handles e)
       (mkState (end_ e + 8) 0 (end_ e + align (Size h) 8)
          (if c then ElementsOrVersion h else 0) 0 c :: stateStack e) (deterministic e), Ok tt)
    /\ exists z b1, PutUint 4 (buf e ++ replicate z 0) (end_ e) (Size h) = Some b1 /\
       PutUint 4 b1 (end_ e + 4) (ElementsOrVersion h) = Some b /\
       end_ e + align (Size h) 8 <= len (buf e ++ replicate z 0).
Proof.
  intros Hs He. unfold start.
  destruct (pushState_run h c e ltac:(lia) He) as (z&Hp&Hz).
  pose proof (align_bounds 3 (Size h)) as [? _]; [lia|]. change (2 ^ 3) with 8 in *.
  destruct He as (He&_&_). rewrite (bind_run_ok _ _ _ _ _ Hp).
  edestruct writeDataHeader_run as (b1&b&Hb1&Hb&->); [done|simpl; lia..|].
  exists b. split; [done|]. exists z, b1. auto.
Qed.

Lemma start_safe h c e : 8 <= Size h -> enc_inv e -> safe (start h c) e.
Proof.
  intros Hs He. destruct (start_run h c e Hs He) as (b&Hr&z&b1&Hb1&Hb&Hl).
  unfold wp. rewrite Hr.
  apply length_PutUint in Hb1. apply length_PutUint in Hb.
  pose proof (align_bounds 3 (Size h)) as [? Hdv]; [lia|]. change (2 ^ 3) with 8 in *.
  destruct He as (He&Hd&Hst).
  assert ((8 | end_ e + align (Size h) 8)) by (by apply Z.divide_add_r).
  split_and!; simpl; [lia..|done|].
  constructor; [split_and!; simpl; [split; simpl; lia|lia|done]|].
  by eapply block_ok_mono; [|done]; lia.
Qed.

Lemma safe_bind {A B} (m : EM A) (k : A -> EM B) e :
  safe m e -> (forall e' a, enc_inv e' -> safe (k a) e') -> safe (bind m k) e.
Proof. intros Hm Hk. apply wp_bind. eapply wp_mono; [done| |done]. auto. Qed.

Lemma WriteBool_wp v e :
  enc_inv e ->
  wp (WriteBool v) (fun e' _ => enc_inv e' /\ stateStack e' <> []) (fun e' _ => e' = e) e.
Proof.
  intros (He&Hd&Hst). unfold wp.
  destruct (ensureElementBitSizeAndCapacity (state e) 1) as [[]|x|] eqn:Hens.
  - destruct (ensure_top e _ ltac:(done) Hens) as (s&st&Hst0&(Hc&Hl&Hm)&Hens').
    rewrite Hst0 in Hst. clear Hens. rename Hens' into Hens.
    pose proof (ensure_fits_bit s Hc Hens) as Hfit.
    destruct (index_Some (buf e) (offset s)) as [x Hx]; [destruct Hc; lia|].
    rewrite (WriteBool_ok _ _ _ _ Hst0 Hens _ Hx). split; [|done].
    split_and!; simpl; [lia|destruct v; rewrite ?length_insert; lia|done|].
    apply (block_ok_top _ s); [done| |done]. by apply cursor_ok_bit_next.
  - unfold WriteBool. erewrite bind_run_err; [done|]. unfold ensure. by rewrite Hens.
  - by apply ensure_no_panic in Hens.
Qed.

Lemma word_then_dec_safe k v k' v' e :
  0 <= k <= 3 -> 0 <= k' <= 3 -> enc_inv e ->
  safe (write_word (2 ^ k) v ;;; with_state decProcessed ;;; write_word (2 ^ k') v') e.
Proof.
  intros Hk Hk' He. apply wp_bind.
  eapply wp_mono; [by apply write_word_wp| |by intros ?? ->].
  intros e1 _ (He1&_&_&s&st&_&Hst1). apply wp_bind.
  eapply wp_mono; [apply with_state_wp; [apply moves_processed|by rewrite Hst1|done]| |done].
  intros e2 _ (He2&_). by apply write_word_safe.
Qed.

(** The union header is written and the cursor stands on the value field. *)
Lemma WriteUnionHeader_run tag e s st :
  enc_inv e -> stateStack e = s :: st -> block_ok (end_ e) s ->
  ensureElementBitSizeAndCapacity (Some s) 64 = Ok tt ->
  exists b b', let s1 := word_start (2 ^ 3) s in
    PutUint 4 (buf e) (offset s1) 16 = Some b /\ PutUint 4 b (offset s1 + 4) tag = Some b' /\
    WriteUnionHeader tag e =
    ensure 64 (mkEncoder b' (end_ e) (handles e) (set_offset (offset s1 + 8) s1 :: st)
                 (deterministic e)).
Proof.
  intros (Hen&_&_) Hst (Hc&Hl&Hm) Hens.
  pose proof (ensure_fits s 3 ltac:(lia) Hc (or_intror Hm) Hens) as (_&Ho&Hfit&_&_).
  set (s1 := word_start (2 ^ 3) s). fold (word_start (2 ^ 3) s) in Ho, Hfit. fold s1 in Ho, Hfit.
  destruct (PutUint_Some 4 (buf e) (offset s1) 16) as [b Hb]; [destruct Hc; lia|lia|].
  destruct (PutUint_Some 4 b (offset s1 + 4) tag) as [b' Hb'].
  { destruct Hc; lia. } { rewrite (length_PutUint _ _ _ _ _ Hb). lia. }
  exists b, b'. split_and!; [done..|]. unfold WriteUnionHeader.
  rewrite (bind_run_ok _ _ _ _ _ (ensure_run _ _ _ _ Hst Hens)).
  rewrite (bind_run_ok _ _ _ _ _ (with_state_run _ _ _ _ Hst)).
  erewrite bind_run_ok by (by apply with_state_run).
  erewrite bind_run_ok by done.
  erewrite bind_run_ok.
  2:{ unfold put_uint. change (PutUint _ _ _ _) with (PutUint 4 (buf e) (offset s1) 16).
      by rewrite Hb. }
  erewrite bind_run_ok.
  2:{ unfold put_uint. change (PutUint _ _ _ _) with (PutUint 4 b (offset s1 + 4) tag).
      by rewrite Hb'. }
  by erewrite bind_run_ok by (by apply with_state_run).
Qed.

Lemma ensure_safe n e : enc_inv e -> safe (ensure n) e.
Proof.
  intros He. unfold wp, ensure.
  destruct (ensureElementBitSizeAndCapacity _ n) as [[]|x|] eqn:E; [done..|].
  by apply ensure_no_panic in E.
Qed.

Lemma WriteUnionHeader_safe tag e : enc_inv e -> safe (WriteUnionHeader tag) e.
Proof.
  intros He. pose proof He as (Hen&Hd&Hst).
  destruct (ensureElementBitSizeAndCapacity (state e) 64) as [[]|x|] eqn:Hens.
  2:{ unfold wp, WriteUnionHeader. erewrite bind_run_err; [done|]. unfold ensure. by rewrite Hens. }
  2:{ by apply ensure_no_panic in Hens. }
  destruct (ensure_top e _ He Hens) as (s&st&Hst0&Hblk&Hens').
  destruct (WriteUnionHeader_run tag e s st He Hst0 Hblk Hens') as (b&b'&Hb&Hb'&Hr).
  unfold wp. rewrite Hr. apply ensure_safe.
  destruct Hblk as (Hc&Hl&Hm). rewrite Hst0 in Hst.
  apply length_PutUint in Hb. apply length_PutUint in Hb'.
  pose proof (word_start_offset 3 s ltac:(lia)).
  split_and!; simpl; [lia|lia|done|].
  apply Forall_cons in Hst as [_ Hst]. constructor; [|done].
  split; [|by change (limit (set_offset _ _)) with (limit (word_start (2 ^ 3) s));
           rewrite limit_word_start].
  destruct (moves_compose _ _ moves_to_bytes (moves_aligned 3 ltac:(lia)) s Hc) as [[? ?] _].
  destruct Hc. split; [|done]. change (0 <= offset (word_start (2 ^ 3) s) + 8). lia.
Qed.

Lemma Finish_safe e : enc_inv e -> safe Finish e.
Proof.
  intros He. unfold wp, Finish. destruct (state e) as [s|]; [|done].
  destruct (checkElements s && _); [done|]. unfold popState, modify.
  destruct (negb _); [|done]. destruct He as (?&?&Hst). split_and!; simpl; [lia..|done|].
  destruct (stateStack e); [done|]. by apply Forall_cons in Hst as [_ ?].
Qed.

Lemma write_bytes_safe bs e :
  Forall (fun b => 0 <= b < 256) bs -> enc_inv e -> safe (write_bytes bs) e.
Proof.
  intros Hbs. revert e. induction Hbs as [|b bs Hb _ IH]; intros e He; [done|].
  simpl. apply safe_bind; [|auto].
  unfold wp. rewrite WriteUint8_word by done. apply (write_word_safe 0); [lia|done].
Qed.

(** ** Every sequence of calls *)

(** The public calls of the encoder. *)
Inductive call : Type :=
| CStartArray (length elementBitSize : Z) | CStartMap | CStartStruct (size version : Z)
| CStartNestedUnion | CWriteUnionHeader (tag : Z) | CFinishWritingUnionValue | CFinish
| CWriteBool (b : bool) | CWriteUint8 (v : Z) | CWriteUint16 (v : Z) | CWriteUint32 (v : Z)
| CWriteUint64 (v : Z) | CWriteNullUnion | CWriteString (value : list Z) | CWritePointer
| CWriteHandle (h : Z) | CWriteInterface (h : Z) | CWriteInvalidInterface.

Section Reach.
Context (IsValid : Z -> bool).

Definition run_call (c : call) : EM unit :=
  match c with
  | CStartArray l n => StartArray l n
  | CStartMap => StartMap
  | CStartStruct s v => StartStruct s v
  | CStartNestedUnion => StartNestedUnion
  | CWriteUnionHeader t => WriteUnionHeader t
  | CFinishWritingUnionValue => FinishWritingUnionValue
  | CFinish => Finish
  | CWriteBool b => WriteBool b
  | CWriteUint8 v => WriteUint8 v
  | CWriteUint16 v => WriteUint16 v
  | CWriteUint32 v => WriteUint32 v
  | CWriteUint64 v => WriteUint64 v
  | CWriteNullUnion => WriteNullUnion
  | CWriteString s => WriteString s
  | CWritePointer => WritePointer
  | CWriteHandle h => WriteHandle IsValid h
  | CWriteInterface h => WriteInterface IsValid h
  | CWriteInvalidInterface => WriteInvalidInterface
  end.

(** What the Go types and the documented call order give: byte values are
    bytes, data sizes fit in 32 bits, and the two calls that do not check for
    an open one-level value are made inside one. *)
Definition legal (c : call) (e : Encoder) : Prop :=
  match c with
  | CStartArray l n => 8 + bytesForBits (u64 (l * n)) < 2 ^ 32
  | CStartStruct s _ => 0 <= s /\ 8 + s < 2 ^ 32
  | CFinishWritingUnionValue | CWritePointer => stateStack e <> []
  | CWriteUint8 v => 0 <= v < 256
  | CWriteString s => Forall (fun b => 0 <= b < 256) s /\ 8 + len s < 2 ^ 32
  | _ => True
  end.

(** Encoder states reached by legal calls; a call that returned an error
    leaves its writes behind and the encoder may be used further. *)
Inductive reach : Encoder -> Prop :=
| reach_new : reach NewEncoder
| reach_call e c : reach e -> legal c e -> reach (run_call c e).1.

Lemma StartArray_safe l n e :
  8 + bytesForBits (u64 (l * n)) < 2 ^ 32 -> enc_inv e -> safe (StartArray l n) e.
Proof.
  intros Hn He. apply (start_safe (mkDataHeader _ _) true); [|done]. simpl.
  unfold dataHeaderSize. assert (0 <= bytesForBits (u64 (l * n))).
  { unfold bytesForBits. apply Z.div_pos; [apply u64_range|lia]. }
  rewrite u32_small; lia.
Qed.

Lemma WriteString_safe s e :
  Forall (fun b => 0 <= b < 256) s -> 8 + len s < 2 ^ 32 -> enc_inv e ->
  safe (WriteString s) e.
Proof.
  intros Hs Hl He. unfold WriteString. apply safe_bind.
  - apply StartArray_safe; [|done]. rewrite (u32_small (len s)) by lia.
    rewrite u64_small, bytesForBits_small by lia.
    replace (len s * 8 + 7) with (7 + len s * 8) by lia.
    rewrite Z.div_add by lia. change (7 / 8) with 0. lia.
  - intros e1 _ He1. apply safe_bind; [by apply write_bytes_safe|].
    intros e2 _ He2. by apply Finish_safe.
Qed.

Lemma WriteHandle_wp h e :
  enc_inv e ->
  wp (WriteHandle IsValid h) (fun e' _ => enc_inv e' /\ stateStack e' <> [])
     (fun e' _ => enc_inv e') e.
Proof.
  intros He. unfold WriteHandle. destruct (IsValid h); [|done]. simpl.
  apply wp_bind, wp_modify, wp_bind, wp_get. rewrite WriteUint32_word.
  eapply wp_mono; [apply (write_word_wp 2); [lia|exact He]| |by intros ?? ->].
  intros e' _ (?&_&_&?&?&_&Hst). split; [done|]. by rewrite Hst.
Qed.

Lemma call_safe c e : legal c e -> enc_inv e -> safe (run_call c) e.
Proof.
  intros Hc He. destruct c; simpl in *.
  - by apply StartArray_safe.
  - by apply start_safe.
  - apply (start_safe (mkDataHeader _ _) false); [|done]. simpl.
    unfold dataHeaderSize. rewrite u32_small; lia.
  - unfold wp. destruct (pushState_run (mkDataHeader 16 0) false e) as (z&Hp&_); [done..|].
    pose proof (pushState_inv (mkDataHeader 16 0) false e) as Hi.
    unfold StartNestedUnion. rewrite Hp in Hi |- *. by apply Hi.
  - by apply WriteUnionHeader_safe.
  - apply wp_bind. eapply wp_mono; [by apply with_state_wp; [apply (moves_aligned 3)| |]| |done].
    intros e' _ (?&?). eapply wp_mono; [by apply with_state_wp; [apply moves_to_bytes| |]| |done].
    by intros ?? (?&_).
  - by apply Finish_safe.
  - eapply wp_mono; [by apply WriteBool_wp|by intros ?? (?&_)|by intros ?? ->].
  - unfold wp. rewrite WriteUint8_word by done. apply (write_word_safe 0); [lia|done].
  - apply (write_word_safe 1); [lia|done].
  - apply (write_word_safe 2); [lia|done].
  - apply (write_word_safe 3); [lia|done].
  - apply (word_then_dec_safe 3 _ 3); [lia..|done].
  - destruct Hc. by apply WriteString_safe.
  - apply wp_bind. eapply wp_mono; [by apply with_state_wp; [apply moves_to_bytes| |]| |done].
    intros e1 _ (?&?). apply wp_bind.
    eapply wp_mono; [by apply with_state_wp; [apply (moves_aligned 3)| |]| |done].
    intros e2 _ (?&Hne). destruct (stateStack e2) eqn:E; [done|].
    unfold wp. rewrite (bind_run_ok _ _ _ _ _ (get_state_run _ _ _ E)).
    apply (write_word_safe 3); [lia|done].
  - eapply wp_mono; [by apply WriteHandle_wp|by intros ?? (?&_)|done].
  - apply wp_bind. eapply wp_mono; [by apply WriteHandle_wp| |done].
    intros e1 _ (?&?). apply wp_bind.
    eapply wp_mono; [by apply with_state_wp; [apply moves_processed| |]| |done].
    intros e2 _ (?&_). apply (write_word_safe 2); [lia|done].
  - apply (word_then_dec_safe 2 _ 2); [lia..|done].
Qed.

Lemma reach_inv e : reach e -> enc_inv e.
Proof.
  induction 1 as [|e c Hr IH Hc]; [apply enc_inv_new|].
  pose proof (call_safe c e Hc IH) as H. unfold wp in H.
  destruct (run_call c e) as [e' [|x|]]; done.
Qed.
End Reach.

(** ** Properties *)

(** C14: no legal call on a reachable encoder panics, whether it succeeds or
    fails, and afterwards every open block again lies inside the claimed part of
    the buffer and ends on an 8-byte boundary. *)
Theorem encoder_calls_safe IsValid e c :
  reach IsValid e -> legal c e ->
  (run_call IsValid c e).2 <> Panic /\ enc_inv (run_call IsValid c e).1.
Proof.
  intros Hr Hl. pose proof (call_safe IsValid c e Hl (reach_inv IsValid e Hr)) as Hs.
  unfold wp in Hs. by destruct (run_call IsValid c e) as [e' [|x|]].
Qed.
Lemma encoder_calls_safe_witness :
  let e := (run_call (fun _ => true) (CStartStruct 8 0) NewEncoder).1 in
  (run_call (fun _ => true) (CWriteUint32 7) e).2 <> Panic /\
  enc_inv (run_call (fun _ => true) (CWriteUint32 7) e).1.
Proof.
  apply (encoder_calls_safe (fun _ => true)); [|exact I].
  apply (reach_call _ NewEncoder (CStartStruct 8 0)); [apply reach_new|simpl; lia].
Defined.

(** the capacity check rejects values that fit: in a struct of 16 bytes
    whose first field is a bool, a 64-bit second field is refused, although it
    would occupy the last 8 bytes of the struct. *)
Theorem bool_then_uint64_refused version b v :
  let e := (StartStruct 16 version ;;; WriteBool b) NewEncoder in
  (exists s, stateStack e.1 = [s] /\ offset (word_start 8 s) + 8 = limit s) /\
  WriteUint64 v e.1 = (e.1, Err (Errorf "buffer size limit exceeded" [])).
Proof. split; [destruct b; eexists; split; reflexivity|destruct b; reflexivity]. Qed.

(** a union whose value is a bool leaves the cursor inside the value field:
    [FinishWritingUnionValue] aligns to 8 bytes before it leaves the bit cursor,
    so the field after the union is written at 20, inside the 16 bytes of the
    union at 8. *)
Theorem union_bool_value_overlaps :
  let e := (StartStruct 32 0 ;;; WriteUnionHeader 1 ;;; WriteBool true ;;;
            FinishWritingUnionValue ;;; WriteUint32 5) NewEncoder in
  e.2 = Ok tt /\ GetUint 4 (buf e.1) 8 = Some 16 /\ GetUint 4 (buf e.1) 20 = Some 5.
Proof. by vm_compute. Qed.
