(* ===== verification/Decoder.v ===== *)
(** * The decoder of go/src/fidl/bindings/decoder.go

    Same conventions as [Encoder]: one Definition per method in the monad
    [M Decoder error], the state stack kept with its top at the head. *)
From S2P Require Import Prelude Wire.

Record Decoder := mkDecoder {
  buf : list Z;
  end_ : Z;
  handles : list Z;
  nextHandle : Z;
  stateStack : list encodingState
}.

Abbreviation DM A := (M Decoder error A).

Definition NewDecoder (bytes handles : list Z) : Decoder := mkDecoder bytes 0 handles 0 [].

Definition set_end (n : Z) (d : Decoder) : Decoder :=
  mkDecoder (buf d) n (handles d) (nextHandle d) (stateStack d).
Definition set_stack (st : list encodingState) (d : Decoder) : Decoder :=
  mkDecoder (buf d) (end_ d) (handles d) (nextHandle d) st.
Definition state (d : Decoder) : option encodingState := head (stateStack d).
Definition get_state : DM encodingState := fun d => must (state d) d.
Definition with_state (f : encodingState -> encodingState) : DM unit := fun d =>
  match stateStack d with
  | [] => (d, Panic)
  | s :: st => (set_stack (f s :: st) d, Ok tt)
  end.
Definition ensure (bitSize : Z) : DM unit := fun d =>
  (d, ensureElementBitSizeAndCapacity (state d) bitSize).
(** [binary.LittleEndian.Uint(8n)(d.buf[off:])] *)
Definition get_uint (n : nat) (off : Z) : DM Z := fun d => must (GetUint n (buf d) off) d.

Definition claimData (size : Z) : DM unit := fun d =>
  if len (buf d) <? end_ d + size
  then (d, Err (ValidationError IllegalMemoryRange "data buffer is too small" []))
  else (set_end (end_ d + size) d, Ok tt).

Definition claimHandle (i : Z) : DM Z := fun d =>
  if len (handles d) <=? i
  then (d, Err (ValidationError IllegalHandle "trying to access non present handle" []))
  else if i <? nextHandle d
  then (d, Err (ValidationError IllegalHandle "trying to access handle out of order" []))
  else
    let d' := mkDecoder (buf d) (end_ d) (handles d) (i + 1) (stateStack d) in
    must (index (handles d') i) d'.

Definition popState : DM unit := modify (fun d =>
  if negb (bool_decide (length (stateStack d) = 0%nat)) then set_stack (tail (stateStack d)) d
  else d).

Definition pushState (header : DataHeader) (check : bool) : DM unit :=
  let! d0 := get in
  let oldEnd := end_ d0 in
  claimData (u32 (Size header - dataHeaderSize)) ;;;
  let elems := if check then ElementsOrVersion header else 0 in
  modify (fun d => set_stack (mkState oldEnd 0 (end_ d) elems 0 check :: stateStack d) d).

Definition readDataHeader : DM DataHeader :=
  claimData dataHeaderSize ;;;
  let! d := get in
  let oldEnd := end_ d - dataHeaderSize in
  let! size := get_uint 4 oldEnd in
  let! elementsOrVersion := get_uint 4 (oldEnd + 4) in
  ret (mkDataHeader size elementsOrVersion).

Definition StartArray (elementBitSize : Z) : DM Z :=
  let! header := readDataHeader in
  let minSize := bytesForBits (u64 (ElementsOrVersion header * elementBitSize)) in
  let got := Size header in
  let want := dataHeaderSize + minSize in
  if got <? want
  then throw (ValidationError UnexpectedArrayHeader
                "data header size(%d) should be at least %d" [got; want])
  else pushState header true ;;; ret (ElementsOrVersion header).

Definition StartMap : DM unit :=
  let! header := readDataHeader in
  if negb (bool_decide (header = mapHeader))
  then throw (ValidationError UnexpectedStructHeader "invalid map header: %v"
                [Size header; ElementsOrVersion header])
  else pushState header false.

Definition StartStruct : DM DataHeader :=
  let! header := readDataHeader in
  if Size header <? dataHeaderSize
  then throw (ValidationError UnexpectedStructHeader
                "data header size(%d) should be at least %d" [Size header; dataHeaderSize])
  else pushState header false ;;; ret header.

Definition StartNestedUnion : DM unit := pushState (mkDataHeader 24 0) false.

Definition ReadUnionHeader : DM (Z * Z) :=
  ensure 64 ;;;
  with_state alignOffsetToBytes ;;;
  with_state (alignOffset 8) ;;;
  let! s := get_state in
  let! size := get_uint 4 (offset s) in
  let! tag := get_uint 4 (offset s + 4) in
  with_state (fun s => set_offset (offset s + 8) s) ;;;
  ensure 64 ;;;
  ret (size, tag).

Definition FinishReadingUnionValue : DM unit :=
  with_state (alignOffset 8) ;;; with_state alignOffsetToBytes.

Definition SkipUnionValue : DM unit :=
  with_state (fun s => set_offset (offset s + 8) s) ;;; with_state incProcessed.

Definition Finish : DM unit := fun d =>
  match state d with
  | None => (d, Err (Errorf "state stack is empty" []))
  | Some s =>
    if checkElements s && negb (elementsProcessed s =? elements s)
    then (d, Err (Errorf "unexpected number of elements read: defined in header %d, but read %d"
                   [elements s; elementsProcessed s]))
    else popState d
  end.

Definition ReadBool : DM bool :=
  ensure 1 ;;;
  let! s := get_state in
  let! d := get in
  let! b := must (index (buf d) (offset s)) in
  let value := Z.land (Z.shiftr b (bitOffset s)) 1 =? 1 in
  with_state (skipBits 1) ;;;
  with_state incProcessed ;;;
  ret value.

Definition ReadUint8 : DM Z :=
  ensure 8 ;;;
  with_state alignOffsetToBytes ;;;
  let! s := get_state in
  let! d := get in
  let! value := must (index (buf d) (offset s)) in
  with_state (skipBytes 1) ;;;
  with_state incProcessed ;;;
  ret value.

Definition ReadUint16 : DM Z :=
  ensure 16 ;;;
  with_state alignOffsetToBytes ;;;
  with_state (alignOffset 2) ;;;
  let! s := get_state in
  let! value := get_uint 2 (offset s) in
  with_state (skipBytes 2) ;;;
  with_state incProcessed ;;;
  ret value.

Definition ReadUint32 : DM Z :=
  ensure 32 ;;;
  with_state alignOffsetToBytes ;;;
  with_state (alignOffset 4) ;;;
  let! s := get_state in
  let! value := get_uint 4 (offset s) in
  with_state (skipBytes 4) ;;;
  with_state incProcessed ;;;
  ret value.

Definition ReadUint64 : DM Z :=
  ensure 64 ;;;
  with_state alignOffsetToBytes ;;;
  with_state (alignOffset 8) ;;;
  let! s := get_state in
  let! value := get_uint 8 (offset s) in
  with_state (skipBytes 8) ;;;
  with_state incProcessed ;;;
  ret value.

Definition ReadInt8 : DM Z := let! value := ReadUint8 in ret (i8 value).
Definition ReadInt16 : DM Z := let! value := ReadUint16 in ret (i16 value).
Definition ReadInt32 : DM Z := let! value := ReadUint32 in ret (i32 value).
Definition ReadInt64 : DM Z := let! value := ReadUint64 in ret (i64 value).

(** [math.Float32frombits] and [math.Float64frombits] on the bit representation. *)
Definition Float32frombits (bits : Z) : Z := bits.
Definition Float64frombits (bits : Z) : Z := bits.
Definition ReadFloat32 : DM Z := let! bits := ReadUint32 in ret (Float32frombits bits).
Definition ReadFloat64 : DM Z := let! bits := ReadUint64 in ret (Float64frombits bits).

Fixpoint read_bytes (n : nat) : DM (list Z) :=
  match n with
  | O => ret []
  | S n => let! b := ReadUint8 in let! bs := read_bytes n in ret (b :: bs)
  end.

Definition ReadString : DM (list Z) :=
  let! length := StartArray 8 in
  let! bytes := read_bytes (Z.to_nat length) in
  Finish ;;;
  ret bytes.

Definition ReadPointer : DM Z :=
  let! pointer := ReadUint64 in
  if pointer =? 0 then ret pointer
  else
    let! d := get in
    let! s := get_state in
    let newEnd := u64 (u64 (offset s - 8) + pointer) in
    if (len (buf d) <=? pointer) || (len (buf d) <=? newEnd)
    then throw (ValidationError IllegalPointer "trying to access out of range memory" [])
    else if newEnd <? u64 (end_ d)
    then throw (ValidationError IllegalMemoryRange "trying to access memory out of order" [])
    else if negb (newEnd mod 8 =? 0)
    then throw (ValidationError MisalignedObject "incorrect pointer data alignment: %d" [newEnd])
    else (fun d => ((claimData (newEnd - end_ d) d).1, Ok pointer)).

Definition ReadUntypedHandle : DM Z :=
  let! handleIndex := ReadUint32 in
  if handleIndex =? 2 ^ 32 - 1 then ret 0 else claimHandle handleIndex.
Definition ReadHandle : DM Z := ReadUntypedHandle.
Definition ReadChannelHandle : DM Z := ReadUntypedHandle.
Definition ReadVmoHandle : DM Z := ReadUntypedHandle.

Definition ReadInterface : DM Z :=
  let! handle := ReadChannelHandle in
  with_state decProcessed ;;;
  ReadUint32 ;;;
  ret handle.

(** ** The word readers, uniformly *)
Definition read_word (n : Z) : DM Z :=
  ensure (8 * n) ;;;
  with_state alignOffsetToBytes ;;;
  with_state (alignOffset n) ;;;
  let! s := get_state in
  let! value := get_uint (Z.to_nat n) (offset s) in
  with_state (skipBytes n) ;;;
  with_state incProcessed ;;;
  ret value.

Lemma ReadUint16_word : ReadUint16 = read_word (2 ^ 1).
Proof. done. Qed.
Lemma ReadUint32_word : ReadUint32 = read_word (2 ^ 2).
Proof. done. Qed.
Lemma ReadUint64_word : ReadUint64 = read_word (2 ^ 3).
Proof. done. Qed.

Lemma dec_ensure_run n d s st :
  stateStack d = s :: st -> ensureElementBitSizeAndCapacity (Some s) n = Ok tt ->
  ensure n d = (d, Ok tt).
Proof. intros Hst H. unfold ensure, state. by rewrite Hst, <- H. Qed.
Lemma dec_with_state_run f d s st :
  stateStack d = s :: st -> with_state f d = (set_stack (f s :: st) d, Ok tt).
Proof. intros Hst. unfold with_state. by rewrite Hst. Qed.
Lemma dec_get_state_run d s st : stateStack d = s :: st -> get_state d = (d, Ok s).
Proof. intros Hst. unfold get_state, state. by rewrite Hst. Qed.

Lemma read_word_ok n d s st v :
  stateStack d = s :: st ->
  ensureElementBitSizeAndCapacity (Some s) (8 * n) = Ok tt ->
  GetUint (Z.to_nat n) (buf d) (offset (word_start n s)) = Some v ->
  read_word n d = (set_stack (word_next n s :: st) d, Ok v).
Proof.
  intros Hst Hens Hget. unfold read_word.
  rewrite (bind_run_ok _ _ _ _ _ (dec_ensure_run _ _ _ _ Hst Hens)).
  rewrite (bind_run_ok _ _ _ _ _ (dec_with_state_run _ _ _ _ Hst)).
  erewrite bind_run_ok by (by apply dec_with_state_run).
  erewrite bind_run_ok by done.
  erewrite bind_run_ok.
  2:{ unfold get_uint, must.
      change (GetUint _ _ _) with (GetUint (Z.to_nat n) (buf d) (offset (word_start n s))).
      by rewrite Hget. }
  done.
Qed.

Lemma read_word_err n d x :
  ensureElementBitSizeAndCapacity (state d) (8 * n) = Err x ->
  read_word n d = (d, Err x).
Proof. intros H. apply bind_run_err. unfold ensure. by rewrite H. Qed.

Lemma GetUint_1 buf off v : GetUint 1 buf off = Some v <-> index buf off = Some v.
Proof.
  unfold GetUint, index. change (Z.of_nat 1) with 1.
  destruct (Z.leb_spec 0 off); simpl; [|reflexivity].
  destruct (Z.leb_spec (off + 1) (len buf)).
  - destruct (lookup_lt_is_Some_2 buf (Z.to_nat off)) as [x Hx]; [lia|].
    rewrite (drop_S _ _ _ Hx), Hx. cbn [take le_word]. by rewrite Z.mul_0_r, Z.add_0_r.
  - by rewrite lookup_ge_None_2 by lia.
Qed.

Lemma ReadUint8_ok d s st v :
  stateStack d = s :: st ->
  ensureElementBitSizeAndCapacity (Some s) 8 = Ok tt ->
  GetUint 1 (buf d) (offset (word_start 1 s)) = Some v ->
  ReadUint8 d = (set_stack (word_next 1 s :: st) d, Ok v).
Proof.
  intros Hst Hens Hget%GetUint_1. unfold word_next, word_start in *.
  rewrite alignOffset_1 in *. unfold ReadUint8.
  rewrite (bind_run_ok _ _ _ _ _ (dec_ensure_run _ _ _ _ Hst Hens)).
  rewrite (bind_run_ok _ _ _ _ _ (dec_with_state_run _ _ _ _ Hst)).
  erewrite bind_run_ok by done. erewrite bind_run_ok by done.
  erewrite bind_run_ok; [|unfold must; cbn [buf set_stack]; by rewrite Hget].
  done.
Qed.

Lemma ReadBool_ok d s st x :
  stateStack d = s :: st ->
  ensureElementBitSizeAndCapacity (Some s) 1 = Ok tt ->
  index (buf d) (offset s) = Some x ->
  ReadBool d = (set_stack (bit_next s :: st) d,
                Ok (Z.land (Z.shiftr x (bitOffset s)) 1 =? 1)).
Proof.
  intros Hst Hens Hx. unfold ReadBool.
  rewrite (bind_run_ok _ _ _ _ _ (dec_ensure_run _ _ _ _ Hst Hens)).
  rewrite (bind_run_ok _ _ _ _ _ (dec_get_state_run _ _ _ Hst)).
  erewrite bind_run_ok by done.
  erewrite bind_run_ok by (unfold must; by rewrite Hx).
  erewrite bind_run_ok by (by apply dec_with_state_run). done.
Qed.

(** ** Safety *)

(** The decoder reads untrusted bytes: nothing is known of the limits except
    that they lie in the buffer. *)
Definition block_ok (n : Z) (s : encodingState) : Prop := cursor_ok s /\ limit s <= n.
Definition dec_inv (d : Decoder) : Prop :=
  0 <= end_ d <= len (buf d) /\ Forall is_byte (buf d) /\
  Forall (block_ok (len (buf d))) (stateStack d).

(** No bit of the current byte has been read, or the block ends on a word. *)
Definition word_ready (d : Decoder) : Prop :=
  match state d with
  | Some s => bitOffset s = 0 \/ (8 | limit s)
  | None => True
  end.

Abbreviation safe m := (wp m (fun d' _ => dec_inv d') (fun d' _ => dec_inv d')).

Lemma dec_ensure_top d n :
  dec_inv d -> ensureElementBitSizeAndCapacity (state d) n = Ok tt ->
  exists s st, stateStack d = s :: st /\ block_ok (len (buf d)) s /\
    ensureElementBitSizeAndCapacity (Some s) n = Ok tt.
Proof.
  intros (_&_&Hst) Hens. unfold state in Hens.
  destruct (stateStack d) as [|s st]; [by simpl in Hens|].
  exists s, st. split_and!; [done| |done]. by inversion Hst.
Qed.

Lemma dec_inv_top d s st f :
  dec_inv d -> stateStack d = s :: st -> cursor_ok (f s) -> limit (f s) = limit s ->
  dec_inv (set_stack (f s :: st) d).
Proof.
  intros (He&Hb&Hst) E Hc Hl. rewrite E in Hst. apply Forall_cons in Hst as [[_ ?] ?].
  split_and!; simpl; [lia..|done|]. constructor; [|done]. split; [done|]. by rewrite Hl.
Qed.

(** What a word read gives: the value is the word at the cursor and lies in range,
    the cursor is past it, on a byte boundary. *)
Definition word_post (k : Z) (d d' : Decoder) (v : Z) : Prop :=
  dec_inv d' /\ 0 <= v < 2 ^ (8 * 2 ^ k) /\
  exists s st, stateStack d = s :: st /\ d' = set_stack (word_next (2 ^ k) s :: st) d /\
    offset s <= offset (word_start (2 ^ k) s) /\ offset (word_next (2 ^ k) s) <= limit s /\
    GetUint (Z.to_nat (2 ^ k)) (buf d) (offset (word_start (2 ^ k) s)) = Some v.

Lemma word_fits k d s st :
  0 <= k <= 3 -> dec_inv d -> word_ready d -> stateStack d = s :: st ->
  ensureElementBitSizeAndCapacity (Some s) (8 * 2 ^ k) = Ok tt ->
  exists v, GetUint (Z.to_nat (2 ^ k)) (buf d) (offset (word_start (2 ^ k) s)) = Some v /\
    word_post k d (set_stack (word_next (2 ^ k) s :: st) d) v.
Proof.
  intros Hk Hd Hw Hst Hens. pose proof Hd as (He&Hb&Hfa).
  rewrite Hst in Hfa. apply Forall_cons in Hfa as [[Hc Hl] _].
  unfold word_ready, state in Hw. rewrite Hst in Hw. simpl in Hw.
  pose proof (ensure_fits s k Hk Hc Hw Hens) as (_&Ho&Hfit&_&_).
  fold (word_start (2 ^ k) s) in Ho, Hfit.
  pose proof (Z.pow_pos_nonneg 2 k). destruct Hc as [Hc1 Hc2].
  destruct (GetUint_Some (Z.to_nat (2 ^ k)) (buf d) (offset (word_start (2 ^ k) s))) as [v Hv].
  { lia. } { rewrite Z2Nat.id by lia. lia. }
  exists v. split; [done|]. split_and!.
  - eapply dec_inv_top; [done..| |apply limit_word_next]. apply cursor_ok_word_next; [lia|done].
  - apply (GetUint_range _ _ _ _ Hb) in Hv. rewrite Z2Nat.id in Hv by lia. lia.
  - apply (GetUint_range _ _ _ _ Hb) in Hv. rewrite Z2Nat.id in Hv by lia. lia.
  - exists s, st. split_and!; done.
Qed.

Lemma read_word_wp k d :
  0 <= k <= 3 -> dec_inv d -> word_ready d ->
  wp (read_word (2 ^ k)) (fun d' v => word_post k d d' v) (fun d' _ => d' = d) d.
Proof.
  intros Hk Hd Hw. unfold wp.
  destruct (ensureElementBitSizeAndCapacity (state d) (8 * 2 ^ k)) as [[]|x|] eqn:Hens.
  - destruct (dec_ensure_top d _ Hd Hens) as (s&st&Hst&_&Hens').
    destruct (word_fits k d s st Hk Hd Hw Hst Hens') as (v&Hv&?).
    by rewrite (read_word_ok _ _ _ _ _ Hst Hens' Hv).
  - by rewrite (read_word_err _ _ _ Hens).
  - by apply ensure_no_panic in Hens.
Qed.

Lemma ReadUint8_wp d :
  dec_inv d -> word_ready d ->
  wp ReadUint8 (fun d' v => word_post 0 d d' v) (fun d' _ => d' = d) d.
Proof.
  intros Hd Hw. unfold wp.
  destruct (ensureElementBitSizeAndCapacity (state d) (8 * 2 ^ 0)) as [[]|x|] eqn:Hens.
  - destruct (dec_ensure_top d _ Hd Hens) as (s&st&Hst&_&Hens').
    destruct (word_fits 0 d s st ltac:(lia) Hd Hw Hst Hens') as (v&Hv&?).
    by rewrite (ReadUint8_ok _ _ _ _ Hst Hens' Hv).
  - unfold ReadUint8. erewrite bind_run_err; [done|].
    unfold ensure. change (8 * 2 ^ 0) with 8 in Hens. by rewrite Hens.
  - by apply ensure_no_panic in Hens.
Qed.

Lemma ReadBool_wp d :
  dec_inv d ->
  wp ReadBool (fun d' _ => dec_inv d' /\ exists s st, stateStack d = s :: st /\
                d' = set_stack (bit_next s :: st) d /\ offset s + 1 <= limit s)
     (fun d' _ => d' = d) d.
Proof.
  intros Hd. unfold wp.
  destruct (ensureElementBitSizeAndCapacity (state d) 1) as [[]|x|] eqn:Hens.
  - destruct (dec_ensure_top d _ Hd Hens) as (s&st&Hst&[Hc Hl]&Hens').
    pose proof (ensure_fits_bit s Hc Hens').
    destruct (index_Some (buf d) (offset s)) as [x Hx]; [destruct Hc; lia|].
    rewrite (ReadBool_ok _ _ _ _ Hst Hens' Hx). split; [|eauto 10].
    eapply dec_inv_top; [done..| |done]. by apply cursor_ok_bit_next.
  - unfold ReadBool. erewrite bind_run_err; [done|]. unfold ensure. by rewrite Hens.
  - by apply ensure_no_panic in Hens.
Qed.

(** Claiming never passes the end of the buffer. *)
Lemma claimData_wp n d :
  dec_inv d -> 0 <= n ->
  wp (claimData n) (fun d' _ => dec_inv d' /\ d' = set_end (end_ d + n) d)
     (fun d' _ => d' = d) d.
Proof.
  intros Hd Hn. unfold wp, claimData. destruct (Z.ltb_spec (len (buf d)) (end_ d + n)); [done|].
  split; [|done]. destruct Hd as (?&?&?). split_and!; simpl; [lia..|done|done].
Qed.

Lemma readDataHeader_wp d :
  dec_inv d ->
  wp readDataHeader
     (fun d' h => dec_inv d' /\ stateStack d' = stateStack d /\ end_ d' = end_ d + 8 /\
        buf d' = buf d /\ 0 <= Size h < 2 ^ 32 /\ 0 <= ElementsOrVersion h < 2 ^ 32 /\
        GetUint 4 (buf d) (end_ d) = Some (Size h) /\
        GetUint 4 (buf d) (end_ d + 4) = Some (ElementsOrVersion h))
     (fun d' _ => d' = d) d.
Proof.
  intros Hd. pose proof Hd as (He&Hb&_). unfold readDataHeader, dataHeaderSize.
  apply wp_bind. eapply wp_mono; [by apply claimData_wp| |done].
  intros d' _ [Hd' ->]. apply wp_bind, wp_get. simpl.
  replace (end_ d + 8 - 8) with (end_ d) by lia. destruct Hd' as (He'&_&_). simpl in He'.
  destruct (GetUint_Some 4 (buf d) (end_ d)) as [v Hv]; [lia..|].
  destruct (GetUint_Some 4 (buf d) (end_ d + 4)) as [v' Hv']; [lia..|].
  apply wp_bind. unfold get_uint. eapply wp_must; [done|].
  apply wp_bind. eapply wp_must; [done|]. apply wp_ret. simpl.
  pose proof (GetUint_range _ _ _ _ Hb Hv). pose proof (GetUint_range _ _ _ _ Hb Hv').
  change (8 * Z.of_nat 4) with 32 in *.
  destruct Hd as (?&?&?). split_and!; simpl; try done; try lia.
Qed.

Lemma pushState_wp h c d :
  dec_inv d -> 8 <= Size h < 2 ^ 32 ->
  wp (pushState h c)
     (fun d' _ => dec_inv d' /\
        d' = mkDecoder (buf d) (end_ d + (Size h - 8)) (handles d) (nextHandle d)
               (mkState (end_ d) 0 (end_ d + (Size h - 8))
                  (if c then ElementsOrVersion h else 0) 0 c :: stateStack d))
     (fun d' _ => d' = d) d.
Proof.
  intros Hd Hs. unfold pushState, dataHeaderSize. apply wp_bind, wp_get.
  rewrite u32_small by lia. apply wp_bind.
  eapply wp_mono; [apply claimData_wp; [done|lia]| |done].
  intros d' _ [Hd' ->]. simpl. apply wp_modify. split; [|done].
  destruct Hd as (?&?&?), Hd' as (?&?&?). simpl in *. split_and!; simpl; [lia..|done|].
  constructor; [|done]. split; [split; simpl; lia|simpl; lia].
Qed.

Lemma Finish_wp d : dec_inv d -> safe Finish d.
Proof.
  intros Hd. unfold wp, Finish. destruct (state d) as [s|]; [|done].
  destruct (checkElements s && _); [done|]. unfold popState, modify.
  destruct (negb _); [|done]. destruct Hd as (?&?&Hst). split_and!; simpl; [lia..|done|].
  destruct (stateStack d); [done|]. by apply Forall_cons in Hst as [_ ?].
Qed.

Lemma StartArray_wp n d :
  dec_inv d ->
  wp (StartArray n)
     (fun d' l => dec_inv d' /\ 0 <= l < 2 ^ 32 /\ word_ready d') (fun d' _ => dec_inv d') d.
Proof.
  intros Hd. unfold StartArray. apply wp_bind.
  eapply wp_mono; [by apply readDataHeader_wp| |by intros ?? ->].
  intros d1 h (Hd1&_&_&_&Hs&Hl&_). unfold dataHeaderSize.
  assert (0 <= bytesForBits (u64 (ElementsOrVersion h * n))).
  { unfold bytesForBits. apply Z.div_pos; [apply u64_range|lia]. }
  destruct (Z.ltb_spec (Size h) (8 + bytesForBits (u64 (ElementsOrVersion h * n)))); [done|].
  apply wp_bind. eapply wp_mono; [apply pushState_wp; [done|lia]| |by intros ?? ->].
  intros d2 _ [Hd2 ->]. apply wp_ret. split_and!; [done|lia..|]. by left.
Qed.

Lemma StartStruct_wp d :
  dec_inv d ->
  wp StartStruct
    (fun d' h => dec_inv d' /\ 8 <= Size h < 2 ^ 32 /\ 0 <= ElementsOrVersion h < 2 ^ 32 /\
       GetUint 4 (buf d) (end_ d) = Some (Size h) /\
       GetUint 4 (buf d) (end_ d + 4) = Some (ElementsOrVersion h) /\
       d' = mkDecoder (buf d) (end_ d + Size h) (handles d') (nextHandle d')
              (mkState (end_ d + 8) 0 (end_ d + Size h) 0 0 false :: stateStack d))
    (fun d' _ => dec_inv d') d.
Proof.
  intros Hd. unfold StartStruct. apply wp_bind.
  eapply wp_mono; [by apply readDataHeader_wp| |by intros ?? ->].
  intros d1 h (Hd1&Hst1&He1&Hb1&Hs&Hl&Hg1&Hg2). unfold dataHeaderSize.
  destruct (Z.ltb_spec (Size h) 8); [done|].
  apply wp_bind. eapply wp_mono; [apply pushState_wp; [done|lia]| |by intros ?? ->].
  intros d2 _ [Hd2 ->]. apply wp_ret. split_and!; [done|lia..|done|done|]. simpl.
  rewrite Hb1, Hst1, He1.
  by replace (end_ d + 8 + (Size h - 8)) with (end_ d + Size h) by lia.
Qed.

Lemma word_post_ready k d d' v : word_post k d d' v -> word_ready d'.
Proof. intros (_&_&s&st&_&->&_). by left. Qed.

Lemma read_bytes_wp n d :
  dec_inv d -> word_ready d ->
  wp (read_bytes n) (fun d' bs => dec_inv d' /\ length bs = n) (fun d' _ => dec_inv d') d.
Proof.
  revert d. induction n as [|n IH]; intros d Hd Hw; simpl; [done|].
  apply wp_bind. eapply wp_mono; [by apply ReadUint8_wp| |by intros ?? ->].
  intros d1 b Hp. apply wp_bind.
  eapply wp_mono; [apply IH; [apply Hp|by eapply word_post_ready]| |done].
  intros d2 bs [Hd2 Hl]. apply wp_ret. simpl. auto.
Qed.

Lemma ReadString_wp d : dec_inv d -> safe ReadString d.
Proof.
  intros Hd. apply wp_bind. eapply wp_mono; [by apply StartArray_wp| |done].
  intros d1 l (Hd1&_&Hw). apply wp_bind.
  eapply wp_mono; [by apply read_bytes_wp| |done]. intros d2 bs [Hd2 _].
  apply wp_bind. eapply wp_mono; [by apply Finish_wp| |done]. done.
Qed.

Lemma claimHandle_wp i d : dec_inv d -> 0 <= i -> safe (claimHandle i) d.
Proof.
  intros Hd Hi. unfold wp, claimHandle.
  destruct (Z.leb_spec (len (handles d)) i); [done|].
  destruct (i <? nextHandle d); [done|]. simpl.
  destruct (index_Some (handles d) i) as [x Hx]; [lia|]. unfold must. by rewrite Hx.
Qed.

Lemma ReadUntypedHandle_wp d :
  dec_inv d -> word_ready d ->
  wp ReadUntypedHandle
    (fun d' _ => dec_inv d' /\ word_ready d' /\ stateStack d' <> [])
    (fun d' _ => dec_inv d') d.
Proof.
  intros Hd Hw. unfold ReadUntypedHandle. apply wp_bind. rewrite ReadUint32_word.
  eapply wp_mono; [by apply (read_word_wp 2)| |by intros ?? ->].
  intros d1 i Hp. assert (word_ready d1) as Hw1 by (by eapply word_post_ready).
  destruct Hp as (Hd1&Hi&s&st&Hst&->&_).
  destruct (i =? 2 ^ 32 - 1); [by apply wp_ret|].
  pose proof (claimHandle_wp i _ Hd1 (proj1 Hi)) as H. unfold wp, claimHandle in *.
  destruct (_ <=? i); [done|]. destruct (i <? _); [done|].
  unfold must in *. by destruct (index _ i).
Qed.

Lemma ReadPointer_wp d : dec_inv d -> word_ready d -> safe ReadPointer d.
Proof.
  intros Hd Hw. unfold ReadPointer. apply wp_bind. rewrite ReadUint64_word.
  eapply wp_mono; [by apply (read_word_wp 3)| |by intros ?? ->].
  intros d1 p (Hd1&Hp&s&st&Hst&Hd1'&_). destruct (p =? 0); [done|].
  apply wp_bind, wp_get. assert (stateStack d1 = word_next (2 ^ 3) s :: st) as Hst1 by (by subst).
  unfold wp. rewrite (bind_run_ok _ _ _ _ _ (dec_get_state_run _ _ _ Hst1)).
  set (newEnd := u64 (u64 (offset (word_next (2 ^ 3) s) - 8) + p)).
  destruct (Z.leb_spec (len (buf d1)) p); [done|].
  destruct (Z.leb_spec (len (buf d1)) newEnd); [done|].
  destruct (Z.ltb_spec newEnd (u64 (end_ d1))); [done|].
  destruct (negb _); [done|]. simpl. unfold claimData.
  destruct (_ <? _); [done|]. simpl. destruct Hd1 as (?&?&?).
  assert (0 <= newEnd) by apply u64_range.
  split_and!; simpl; [lia..|done|done].
Qed.

Lemma dec_with_state_wp f d :
  (forall s, cursor_ok s -> cursor_ok (f s) /\ limit (f s) = limit s) ->
  stateStack d <> [] -> dec_inv d ->
  wp (with_state f) (fun d' _ => dec_inv d' /\ stateStack d' <> []) (fun _ _ => False) d.
Proof.
  intros Hf Hne Hd. unfold wp. destruct (stateStack d) as [|s st] eqn:E; [done|].
  rewrite (dec_with_state_run _ _ _ _ E). split; [|done].
  assert (cursor_ok s) as [? ?]%Hf.
  { destruct Hd as (_&_&Hst). rewrite E in Hst. by inversion Hst as [|?? (?&?) ?]. }
  by eapply dec_inv_top.
Qed.

Lemma dec_moves_to_bytes s : cursor_ok s ->
  cursor_ok (alignOffsetToBytes s) /\ limit (alignOffsetToBytes s) = limit s.
Proof.
  intros (?&?). unfold alignOffsetToBytes. case_match; [|done].
  split; [|done]. split; simpl; lia.
Qed.
Lemma dec_moves_aligned k s : 0 <= k -> cursor_ok s ->
  cursor_ok (alignOffset (2 ^ k) s) /\ limit (alignOffset (2 ^ k) s) = limit s.
Proof.
  intros Hk (?&?). split; [|done]. split; simpl; [|done].
  pose proof (align_bounds k (offset s)). lia.
Qed.

Lemma ensure_then_ret {A} n (a : A) d : dec_inv d -> safe (ensure n ;;; ret a) d.
Proof.
  intros Hd. apply wp_bind. unfold wp, ensure.
  destruct (ensureElementBitSizeAndCapacity _ n) as [[]|x|] eqn:E; [done..|].
  by apply ensure_no_panic in E.
Qed.

Lemma ReadUnionHeader_wp d : dec_inv d -> word_ready d -> safe ReadUnionHeader d.
Proof.
  intros Hd Hw. unfold wp.
  destruct (ensureElementBitSizeAndCapacity (state d) 64) as [[]|x|] eqn:Hens.
  2:{ unfold ReadUnionHeader. erewrite bind_run_err; [done|]. unfold ensure. by rewrite Hens. }
  2:{ by apply ensure_no_panic in Hens. }
  destruct (dec_ensure_top d _ Hd Hens) as (s&st&Hst&[Hc Hl]&Hens').
  unfold word_ready, state in Hw. rewrite Hst in Hw. simpl in Hw.
  pose proof (ensure_fits s 3 ltac:(lia) Hc Hw Hens') as (_&Ho&Hfit&_&_).
  set (s1 := word_start (2 ^ 3) s). fold (word_start (2 ^ 3) s) in Ho, Hfit. fold s1 in Ho, Hfit.
  destruct Hc as [Hc1 Hc2].
  destruct (GetUint_Some 4 (buf d) (offset s1)) as [v Hv]; [lia..|].
  destruct (GetUint_Some 4 (buf d) (offset s1 + 4)) as [v' Hv']; [lia..|].
  unfold ReadUnionHeader.
  rewrite (bind_run_ok _ _ _ _ _ (dec_ensure_run _ _ _ _ Hst Hens')).
  rewrite (bind_run_ok _ _ _ _ _ (dec_with_state_run _ _ _ _ Hst)).
  erewrite bind_run_ok by (by apply dec_with_state_run).
  erewrite bind_run_ok by done.
  erewrite bind_run_ok.
  2:{ unfold get_uint, must. change (GetUint _ _ _) with (GetUint 4 (buf d) (offset s1)).
      by rewrite Hv. }
  erewrite bind_run_ok.
  2:{ unfold get_uint, must. change (GetUint _ _ _) with (GetUint 4 (buf d) (offset s1 + 4)).
      by rewrite Hv'. }
  erewrite bind_run_ok by (by apply dec_with_state_run).
  assert (dec_inv (set_stack (set_offset (offset s1 + 8) s1 :: st) d)) as Hd'.
  { apply (dec_inv_top d s st (fun _ => set_offset (offset s1 + 8) s1)); [done..| |].
    - split; [change (0 <= offset s1 + 8); lia|]. destruct (dec_moves_to_bytes s (conj Hc1 Hc2)) as [[_ ?] _]. done.
    - apply limit_word_start. }
  by apply ensure_then_ret.
Qed.

(** ** Every sequence of calls *)

Inductive call : Type :=
| DStartArray (elementBitSize : Z) | DStartMap | DStartStruct | DStartNestedUnion
| DReadUnionHeader | DFinishReadingUnionValue | DSkipUnionValue | DFinish
| DReadBool | DReadUint8 | DReadUint16 | DReadUint32 | DReadUint64 | DReadString
| DReadPointer | DReadHandle | DReadInterface.

Definition run_call (c : call) : DM unit :=
  match c with
  | DStartArray n => StartArray n ;;; ret tt
  | DStartMap => StartMap
  | DStartStruct => StartStruct ;;; ret tt
  | DStartNestedUnion => StartNestedUnion
  | DReadUnionHeader => ReadUnionHeader ;;; ret tt
  | DFinishReadingUnionValue => FinishReadingUnionValue
  | DSkipUnionValue => SkipUnionValue
  | DFinish => Finish
  | DReadBool => ReadBool ;;; ret tt
  | DReadUint8 => ReadUint8 ;;; ret tt
  | DReadUint16 => ReadUint16 ;;; ret tt
  | DReadUint32 => ReadUint32 ;;; ret tt
  | DReadUint64 => ReadUint64 ;;; ret tt
  | DReadString => ReadString ;;; ret tt
  | DReadPointer => ReadPointer ;;; ret tt
  | DReadHandle => ReadHandle ;;; ret tt
  | DReadInterface => ReadInterface ;;; ret tt
  end.

(** Words are not read right after a bit in a block that ends off a word
    boundary, and the two union calls are made inside a one-level value. *)
Definition legal (c : call) (d : Decoder) : Prop :=
  match c with
  | DReadUnionHeader | DReadUint8 | DReadUint16 | DReadUint32 | DReadUint64
  | DReadPointer | DReadHandle | DReadInterface => word_ready d
  | DFinishReadingUnionValue | DSkipUnionValue => stateStack d <> []
  | _ => True
  end.

Inductive reach (bytes hs : list Z) : Decoder -> Prop :=
| reach_new : reach bytes hs (NewDecoder bytes hs)
| reach_call d c : reach bytes hs d -> legal c d -> reach bytes hs (run_call c d).1.

Lemma safe_then_ret {A} (m : DM A) d : safe m d -> safe (m ;;; ret tt) d.
Proof. intros H. apply wp_bind. by eapply wp_mono. Qed.

Lemma StartMap_safe d : dec_inv d -> safe StartMap d.
Proof.
  intros Hd. apply wp_bind. eapply wp_mono; [by apply readDataHeader_wp| |by intros ?? ->].
  intros d1 h (Hd1&_). destruct (bool_decide (h = mapHeader)) eqn:E; [|done].
  apply bool_decide_eq_true in E as ->. simpl.
  eapply wp_mono; [apply pushState_wp; [done|simpl; lia]|by intros ?? [? _]|by intros ?? ->].
Qed.

Lemma ReadInterface_safe d : dec_inv d -> word_ready d -> safe ReadInterface d.
Proof.
  intros Hd Hw. apply wp_bind. eapply wp_mono; [by apply ReadUntypedHandle_wp| |done].
  intros d1 hd (Hd1&Hw1&Hne). apply wp_bind.
  destruct (stateStack d1) as [|s st] eqn:E; [done|].
  unfold wp. rewrite (dec_with_state_run _ _ _ _ E). apply wp_bind. rewrite ReadUint32_word.
  unfold word_ready, state in Hw1. rewrite E in Hw1.
  eapply wp_mono; [apply (read_word_wp 2); [lia| |done]| |].
  - apply (dec_inv_top d1 s st decProcessed); [done..| |done].
    destruct Hd1 as (_&_&Hst). rewrite E in Hst. by inversion Hst as [|?? ((?&?)&?) ?].
  - intros d2 v (?&_). by apply wp_ret.
  - intros d2 x ->. apply (dec_inv_top d1 s st decProcessed); [done..| |done].
    destruct Hd1 as (_&_&Hst). rewrite E in Hst. by inversion Hst as [|?? ((?&?)&?) ?].
Qed.

Lemma dec_call_safe c d : legal c d -> dec_inv d -> safe (run_call c) d.
Proof.
  intros Hc Hd. destruct c; simpl in *; try apply safe_then_ret.
  - eapply wp_mono; [by apply StartArray_wp|by intros ?? (?&_)|done].
  - by apply StartMap_safe.
  - eapply wp_mono; [by apply StartStruct_wp|by intros ?? (?&_)|done].
  - eapply wp_mono; [apply pushState_wp; [done|simpl; lia]|by intros ?? [? _]|by intros ?? ->].
  - by apply ReadUnionHeader_wp.
  - apply wp_bind.
    eapply wp_mono; [by apply dec_with_state_wp; [intros s; apply (dec_moves_aligned 3)| |]| |done].
    intros d1 _ (?&?).
    eapply wp_mono; [by apply dec_with_state_wp; [apply dec_moves_to_bytes| |]| |done]. by intros ?? (?&_).
  - apply wp_bind. eapply wp_mono; [apply dec_with_state_wp; [|done..]| |done].
    { intros s (?&?). split; [|done]. split; simpl; lia. }
    intros d1 _ (?&?).
    eapply wp_mono; [by apply dec_with_state_wp; [by intros s (?&?)| |]| |done]. by intros ?? (?&_).
  - by apply Finish_wp.
  - eapply wp_mono; [by apply ReadBool_wp|by intros ?? (?&_)|by intros ?? ->].
  - eapply wp_mono; [by apply ReadUint8_wp|by intros ?? (?&_)|by intros ?? ->].
  - eapply wp_mono; [by apply (read_word_wp 1)|by intros ?? (?&_)|by intros ?? ->].
  - eapply wp_mono; [by apply (read_word_wp 2)|by intros ?? (?&_)|by intros ?? ->].
  - eapply wp_mono; [by apply (read_word_wp 3)|by intros ?? (?&_)|by intros ?? ->].
  - by apply ReadString_wp.
  - by apply ReadPointer_wp.
  - eapply wp_mono; [by apply ReadUntypedHandle_wp|by intros ?? (?&_)|done].
  - by apply ReadInterface_safe.
Qed.

Lemma dec_inv_new bytes hs : Forall is_byte bytes -> dec_inv (NewDecoder bytes hs).
Proof. intros Hb. split_and!; simpl; [lia..|done|constructor]. Qed.

Lemma dec_reach_inv bytes hs d : Forall is_byte bytes -> reach bytes hs d -> dec_inv d.
Proof.
  intros Hb. induction 1 as [|d c Hr IH Hc]; [by apply dec_inv_new|].
  pose proof (dec_call_safe c d Hc IH) as H. unfold wp in H.
  destruct (run_call c d) as [d' [|x|]]; done.
Qed.

(** ** Properties *)

(** C13: decoding untrusted bytes: whatever the input, no legal call on a
    reachable decoder panics, and every open block stays inside the buffer. *)
Theorem decoder_calls_safe bytes hs d c :
  Forall is_byte bytes -> reach bytes hs d -> legal c d ->
  (run_call c d).2 <> Panic /\ dec_inv (run_call c d).1.
Proof.
  intros Hb Hr Hl. pose proof (dec_call_safe c d Hl (dec_reach_inv bytes hs d Hb Hr)) as Hs.
  unfold wp in Hs. by destruct (run_call c d) as [d' [|x|]].
Qed.
Lemma decoder_calls_safe_witness :
  let d := (run_call DStartStruct (NewDecoder [16; 0; 0; 0; 0; 0; 0; 0; 7; 0; 0; 0; 0; 0; 0; 0] [])).1 in
  (run_call DReadUint32 d).2 <> Panic /\ dec_inv (run_call DReadUint32 d).1.
Proof.
  apply (decoder_calls_safe [16; 0; 0; 0; 0; 0; 0; 0; 7; 0; 0; 0; 0; 0; 0; 0] []).
  - repeat constructor; unfold is_byte; lia.
  - apply (reach_call _ _ (NewDecoder _ []) DStartStruct); [apply reach_new|exact I].
  - left. reflexivity.
Defined.

(** without that condition a message can make the decoder panic: a struct
    header of size 11 leaves three bytes of data, and reading a bool and then a
    16-bit value indexes past the end of the buffer. *)
Theorem decoder_panics_after_bool :
  let d := (StartStruct ;;; ReadBool ;;; ReadUint16) (NewDecoder [11; 0; 0; 0; 0; 0; 0; 0; 1; 0; 0] []) in
  d.2 = Panic.
Proof. by vm_compute. Qed.
