(* ===== verification/Message.v ===== *)
(** * Messages: go/src/fidl/bindings/message.go

    The message header and its two codecs, and the functions that build and
    parse messages around a payload. *)
From S2P Require Import Prelude Wire.
From S2P Require Encoder Decoder.
Import Encoder(Encoder, EM) Decoder(Decoder, DM).

Record MessageHeader := mkHeader { Type_ : Z; Flags : Z; RequestId : Z }.

Definition dataSize (h : MessageHeader) : Z :=
  let size := 2 * 4 in
  if negb (Flags h =? MessageNoFlag) then u32 (size + 8) else size.

Definition version (h : MessageHeader) : Z :=
  if negb (Flags h =? MessageNoFlag) then 1 else 0.

Definition Encode (h : MessageHeader) : M Encoder error unit :=
  Encoder.StartStruct (dataSize h) (version h) ;;;
  Encoder.WriteUint32 (Type_ h) ;;;
  Encoder.WriteUint32 (Flags h) ;;;
  (if negb (Flags h =? MessageNoFlag) then Encoder.WriteUint64 (RequestId h) else ret tt) ;;;
  Encoder.Finish.

(** [h] starts as the zero value in [ParseMessage], hence the zero RequestId. *)
Definition Decode : M Decoder error MessageHeader :=
  let! header := Decoder.StartStruct in
  let version := ElementsOrVersion header in
  if 1 <? version
  then throw (ValidationError UnexpectedStructHeader
    "invalid message header: it should be of version 0 or 1, but has %d" [version])
  else
  let expectedSize := u32 (dataHeaderSize + 2 * 4) in
  let expectedSize := if version =? 1 then u32 (expectedSize + 8) else expectedSize in
  if negb (expectedSize =? Size header)
  then throw (ValidationError UnexpectedStructHeader
    "unexpected struct header size: expected %d, but got %d" [expectedSize; Size header])
  else
  let! type_ := Decoder.ReadUint32 in
  let! flags := Decoder.ReadUint32 in
  let! requestId :=
    (if version =? 1 then
       if negb (flags =? MessageExpectsResponseFlag) && negb (flags =? MessageIsResponseFlag)
       then throw (ValidationError MessageHeaderInvalidFlags
         "message header flags(%v) should be MessageExpectsResponseFlag or MessageIsResponseFlag"
         [flags])
       else Decoder.ReadUint64
     else
       if negb (flags =? MessageNoFlag)
       then throw (ValidationError MessageHeaderMissingRequestId
              "missing request ID in message header" [])
       else ret 0) in
  Decoder.Finish ;;;
  ret (mkHeader type_ flags requestId).

Record Message := mkMessage {
  Header : MessageHeader;
  Bytes : list Z;
  Handles : list Z;
  PayloadBytes : list Z
}.

(** Slicing past the end of [bytes] panics. *)
Definition newMessage (header : MessageHeader) (bytes handles : list Z) : res error Message :=
  match slice bytes (u32 (dataSize header + dataHeaderSize)) (len bytes) with
  | Some p => Ok (mkMessage header bytes handles p)
  | None => Panic
  end.

(** The [Payload] interface. *)
Class Payload (P : Type) := {
  EncodeP : P -> M Encoder error unit;
  DecodeP : M Decoder error P
}.

Definition DecodePayload {P} `{Payload P} (m : Message) : res error P :=
  (DecodeP (Decoder.NewDecoder (PayloadBytes m) (Handles m))).2.

Definition EncodeMessage {P} `{Payload P} (header : MessageHeader) (payload : P)
    : res error Message :=
  match (Encode header ;;; EncodeP payload ;;; Encoder.Data) Encoder.NewEncoder with
  | (_, Ok (bytes, handles)) => newMessage header bytes handles
  | (_, Err e) => Err e
  | (_, Panic) => Panic
  end.

Definition ParseMessage (bytes handles : list Z) : res error Message :=
  match Decode (Decoder.NewDecoder bytes []) with
  | (_, Ok header) => newMessage header bytes handles
  | (_, Err e) => Err e
  | (_, Panic) => Panic
  end.

(** ** Parsing untrusted bytes *)

(** The header that parsing accepts: version 0 without a request id, or version
    1 with exactly one of the two flags. *)
Definition valid_header (h : MessageHeader) : Prop :=
  0 <= Type_ h < 2 ^ 32 /\
  (Flags h = MessageNoFlag /\ RequestId h = 0 \/
   (Flags h = MessageExpectsResponseFlag \/ Flags h = MessageIsResponseFlag) /\
   0 <= RequestId h < 2 ^ 64).

(** The words of an encoded header. *)
Definition header_words (bytes : list Z) (h : MessageHeader) : Prop :=
  GetUint 4 bytes 0 = Some (dataSize h + dataHeaderSize) /\ GetUint 4 bytes 4 = Some (version h) /\
  GetUint 4 bytes 8 = Some (Type_ h) /\ GetUint 4 bytes 12 = Some (Flags h) /\
  (if version h =? 1 then GetUint 8 bytes 16 = Some (RequestId h) else RequestId h = 0).

Lemma dataSize_small h : u32 (dataSize h + dataHeaderSize) = dataSize h + dataHeaderSize.
Proof. unfold dataSize, dataHeaderSize. by destruct (negb _). Qed.

Lemma Decode_wp bytes :
  Forall is_byte bytes ->
  wp Decode
    (fun _ h => valid_header h /\ dataSize h + dataHeaderSize <= len bytes /\ header_words bytes h)
    (fun _ _ => True) (Decoder.NewDecoder bytes []).
Proof.
  intros Hb. pose proof (Decoder.dec_inv_new bytes [] Hb) as Hd. unfold Decode.
  apply wp_bind. eapply wp_mono; [by apply Decoder.StartStruct_wp| |done].
  intros d1 h (Hd1&Hs&Hv&Hg1&Hg2&Hd1'). simpl in Hg1, Hg2, Hd1'.
  assert (Decoder.word_ready d1) as Hw1 by (rewrite Hd1'; by left).
  assert (Size h <= len bytes) as Hsz.
  { destruct Hd1 as (?&_&_). rewrite Hd1' in *. simpl in *. lia. }
  destruct (Z.ltb_spec 1 (ElementsOrVersion h)); [done|].
  destruct (Z.eqb_spec (if ElementsOrVersion h =? 1 then u32 (u32 (dataHeaderSize + 2 * 4) + 8)
                        else u32 (dataHeaderSize + 2 * 4)) (Size h)) as [Hes|]; [|done].
  apply wp_bind. rewrite Decoder.ReadUint32_word.
  eapply wp_mono; [by apply (Decoder.read_word_wp 2)| |done].
  intros d2 t Hp2. pose proof (Decoder.word_post_ready _ _ _ _ Hp2).
  destruct Hp2 as (Hd2&Ht&s2&st2&Hst2&->&_&_&Hgt). apply wp_bind.
  eapply wp_mono; [by apply (Decoder.read_word_wp 2)| |done].
  intros d3 f Hp3. pose proof (Decoder.word_post_ready _ _ _ _ Hp3).
  destruct Hp3 as (Hd3&Hf&s3&st3&Hst3&->&_&_&Hgf).
  rewrite Hd1' in Hst2, Hst3, Hgt, Hgf. simpl in Hst2. injection Hst2 as <- <-.
  simpl in Hst3. injection Hst3 as <- <-. cbn in Hgt, Hgf.
  assert (forall d q, Decoder.dec_inv d ->
    let h' := mkHeader t f q in
    valid_header h' -> ElementsOrVersion h = version h' ->
    (if version h' =? 1 then GetUint 8 bytes 16 = Some q else q = 0) ->
    wp (Decoder.Finish ;;; ret h')
      (fun _ h' => valid_header h' /\ dataSize h' + dataHeaderSize <= len bytes /\ header_words bytes h')
      (fun _ _ => True) d) as Hend.
  { intros d q Hdq h' Hvh Hver Hq. apply wp_bind.
    eapply wp_mono; [by apply Decoder.Finish_wp| |done]. intros d4 _ _. apply wp_ret.
    assert (dataSize h' + dataHeaderSize = Size h) as Hsize.
    { rewrite Hver in Hes. unfold version, dataSize in *. simpl in *.
      destruct (negb (f =? MessageNoFlag)); simpl in *; rewrite <- Hes; done. }
    unfold header_words. rewrite Hsize, <- Hver. split_and!; try done. by rewrite Hver. }
  apply wp_bind. destruct (Z.eqb_spec (ElementsOrVersion h) 1) as [Hv1|Hv1].
  - destruct (Z.eqb_spec f MessageExpectsResponseFlag) as [->|];
      [|destruct (Z.eqb_spec f MessageIsResponseFlag) as [->|]]; simpl; [..|done];
      rewrite Decoder.ReadUint64_word;
      (eapply wp_mono; [by apply (Decoder.read_word_wp 3)| |done]);
      intros d4 q (Hd4&Hq&s4&st4&Hst4&->&_&_&Hgq); rewrite Hd1' in Hst4, Hgq;
      simpl in Hst4; injection Hst4 as <- <-; cbn in Hgq;
      (apply Hend; [done| |done|done]);
      (split; [done|right; split; [|exact Hq]; auto]).
  - destruct (Z.eqb_spec f MessageNoFlag) as [->|]; [|done]. simpl. apply wp_ret.
    apply Hend; [done| |unfold version; simpl; lia|done]. split; [done|]. by left.
Qed.

Lemma newMessage_ok h bytes hs :
  dataSize h + dataHeaderSize <= len bytes ->
  newMessage h bytes hs = Ok (mkMessage h bytes hs (drop (Z.to_nat (dataSize h + dataHeaderSize)) bytes)).
Proof.
  intros Hl. unfold newMessage. pose proof (u32_range (dataSize h + dataHeaderSize)) as Hr.
  rewrite dataSize_small in *. rewrite slice_Some by lia. do 2 f_equal. apply take_ge. rewrite length_drop. lia.
Qed.

Lemma ParseMessage_no_panic bytes hs : Forall is_byte bytes -> ParseMessage bytes hs <> Panic.
Proof.
  intros Hb. pose proof (Decode_wp bytes Hb) as Hd. unfold wp in Hd. unfold ParseMessage.
  destruct (Decode (Decoder.NewDecoder bytes [])) as [d [h|x|]]; [|done..].
  destruct Hd as (_&Hl&_). by rewrite newMessage_ok.
Qed.

(** ** Properties *)

(** C16: parsing untrusted bytes never panics; what it accepts has a valid header
    each field of which is the word at its place in the bytes (the request id of
    version 0 is zero), the bytes and handles that were given, and as payload
    exactly the bytes after the header. *)
Theorem ParseMessage_total bytes hs :
  Forall is_byte bytes ->
  match ParseMessage bytes hs with
  | Ok m => valid_header (Header m) /\ header_words bytes (Header m) /\
      Bytes m = bytes /\ Handles m = hs /\
      PayloadBytes m = drop (Z.to_nat (dataSize (Header m) + dataHeaderSize)) bytes
  | Err _ => True
  | Panic => False
  end.
Proof.
  intros Hb. pose proof (Decode_wp bytes Hb) as Hd. unfold wp in Hd. unfold ParseMessage.
  destruct (Decode (Decoder.NewDecoder bytes [])) as [d [h|x|]]; [|done..].
  destruct Hd as (Hv&Hl&Hw). rewrite newMessage_ok by done.
  cbn [Header Bytes Handles PayloadBytes]. by split_and!.
Qed.
Lemma ParseMessage_total_witness :
  match ParseMessage [16; 0; 0; 0; 0; 0; 0; 0; 7; 0; 0; 0; 0; 0; 0; 0; 9] [4] with
  | Ok m => valid_header (Header m) /\
      header_words [16; 0; 0; 0; 0; 0; 0; 0; 7; 0; 0; 0; 0; 0; 0; 0; 9] (Header m) /\
      Bytes m = [16; 0; 0; 0; 0; 0; 0; 0; 7; 0; 0; 0; 0; 0; 0; 0; 9] /\ Handles m = [4] /\
      PayloadBytes m = drop (Z.to_nat (dataSize (Header m) + dataHeaderSize))
        [16; 0; 0; 0; 0; 0; 0; 0; 7; 0; 0; 0; 0; 0; 0; 0; 9]
  | Err _ => True
  | Panic => False
  end.
Proof. apply (ParseMessage_total _ [4]). repeat constructor; unfold is_byte; lia. Defined.
