(* ===== verification/Roundtrip.v ===== *)
(** * Encoding followed by decoding

    A one-level value is described by the list of scalars written into it.
    [write_all] and [read_all] make the encoder and decoder calls that
    generated code makes for such a value; the lemmas show that what was
    written is what is read, whatever is encoded after it and wherever in the
    buffer the value starts. *)
From S2P Require Import Prelude Wire Message.
From S2P Require Encoder Decoder.
Import Encoder(Encoder, enc_inv) Decoder(Decoder).

(** ** Scripts *)
Inductive scalar : Type :=
| SBool (b : bool) | SUint8 (v : Z) | SUint16 (v : Z) | SUint32 (v : Z) | SUint64 (v : Z).
Inductive kind : Type := KBool | KUint8 | KUint16 | KUint32 | KUint64.

Definition kind_of (x : scalar) : kind :=
  match x with
  | SBool _ => KBool | SUint8 _ => KUint8 | SUint16 _ => KUint16
  | SUint32 _ => KUint32 | SUint64 _ => KUint64
  end.

Definition write_scalar (x : scalar) : M Encoder error unit :=
  match x with
  | SBool b => Encoder.WriteBool b
  | SUint8 v => Encoder.WriteUint8 v
  | SUint16 v => Encoder.WriteUint16 v
  | SUint32 v => Encoder.WriteUint32 v
  | SUint64 v => Encoder.WriteUint64 v
  end.

Definition read_scalar (k : kind) : M Decoder error scalar :=
  match k with
  | KBool => let! b := Decoder.ReadBool in ret (SBool b)
  | KUint8 => let! v := Decoder.ReadUint8 in ret (SUint8 v)
  | KUint16 => let! v := Decoder.ReadUint16 in ret (SUint16 v)
  | KUint32 => let! v := Decoder.ReadUint32 in ret (SUint32 v)
  | KUint64 => let! v := Decoder.ReadUint64 in ret (SUint64 v)
  end.

Fixpoint write_all (xs : list scalar) : M Encoder error unit :=
  match xs with
  | [] => ret tt
  | x :: xs => write_scalar x ;;; write_all xs
  end.
Fixpoint read_all (ks : list kind) : M Decoder error (list scalar) :=
  match ks with
  | [] => ret []
  | k :: ks => let! x := read_scalar k in let! xs := read_all ks in ret (x :: xs)
  end.

(** The value has the width of its Go type. *)
Definition in_range (x : scalar) : Prop :=
  match x with
  | SBool _ => True
  | SUint8 v => 0 <= v < 2 ^ 8
  | SUint16 v => 0 <= v < 2 ^ 16
  | SUint32 v => 0 <= v < 2 ^ 32
  | SUint64 v => 0 <= v < 2 ^ 64
  end.

(** No 64-bit value directly after a bool that left the cursor inside a byte. *)
Fixpoint no_word_after_bit (after_bit : bool) (xs : list scalar) : Prop :=
  match xs with
  | [] => True
  | SBool _ :: xs => no_word_after_bit true xs
  | SUint64 _ :: xs => after_bit = false /\ no_word_after_bit false xs
  | _ :: xs => no_word_after_bit false xs
  end.

(** Words as [k]-sized scalars, to treat the four widths at once. *)
Definition word_of (x : scalar) : option (Z * Z) :=
  match x with
  | SBool _ => None
  | SUint8 v => Some (0, v) | SUint16 v => Some (1, v)
  | SUint32 v => Some (2, v) | SUint64 v => Some (3, v)
  end.
Definition next (x : scalar) (s : encodingState) : encodingState :=
  match word_of x with
  | None => bit_next s
  | Some (k, _) => word_next (2 ^ k) s
  end.

(** ** Agreement of two buffers below a cursor *)

(** [E] from position [d] and [B] from 0 agree on every bit below the cursor. *)
Definition agree (d : Z) (s : encodingState) (E B : list Z) : Prop :=
  (forall i, d <= i < offset s -> index E i = index B (i - d)) /\
  (0 < bitOffset s -> exists x y, index E (offset s) = Some x /\
     index B (offset s - d) = Some y /\
     forall j, 0 <= j < bitOffset s -> Z.testbit x j = Z.testbit y j).

(** Every bit of the block from the cursor on is zero. *)
Definition zero_ahead (s : encodingState) (b : list Z) : Prop :=
  forall i, offset s <= i < limit s -> exists x, index b i = Some x /\
    forall j, 0 <= j -> (i = offset s -> bitOffset s <= j) -> Z.testbit x j = false.

(** The same cursor in a buffer whose first [d] bytes were dropped. *)
Definition shift (d : Z) (s : encodingState) : encodingState :=
  mkState (offset s - d) (bitOffset s) (limit s - d) (elements s) (elementsProcessed s)
    (checkElements s).

Lemma shift_word_start d k s :
  0 <= k -> (2 ^ k | d) -> word_start (2 ^ k) (shift d s) = shift d (word_start (2 ^ k) s).
Proof.
  intros Hk Hd. unfold word_start, alignOffset, alignOffsetToBytes, shift. simpl.
  assert (forall x, align (x - d) (2 ^ k) = align x (2 ^ k) - d) as Ha.
  { intros x. rewrite <- Z.add_opp_r, align_shift; [lia..|]. by apply Z.divide_opp_r. }
  destruct (0 <? bitOffset s); unfold set_offset; simpl; f_equal; [|apply Ha].
  replace (offset s - d + 1) with (offset s + 1 - d) by lia. apply Ha.
Qed.

Lemma shift_word_next d k s :
  0 <= k -> (2 ^ k | d) -> word_next (2 ^ k) (shift d s) = shift d (word_next (2 ^ k) s).
Proof.
  intros Hk Hd. unfold word_next. rewrite shift_word_start by done.
  unfold incProcessed, skipBytes, shift, set_processed. simpl. f_equal. lia.
Qed.

Lemma shift_bit_next d s :
  0 <= bitOffset s < 8 -> bit_next (shift d s) = shift d (bit_next s).
Proof.
  intros Hb. unfold bit_next. rewrite !skipBits_1 by done. simpl.
  destruct (bitOffset s =? 7); unfold incProcessed, shift, set_processed; simpl; f_equal; lia.
Qed.

(** ** The capacity check is the same at both positions *)
Lemma lor_shift_small x d m : (8 | d) -> 0 <= m < 8 -> Z.lor (x + d) m = Z.lor x m + d.
Proof.
  intros [q ->] Hm.
  assert (Z.lor (x + q * 8) m = Z.lor x m + q * 8) as H; [|done].
  assert (m = Z.land m (Z.ones 3)) as Hmm.
  { rewrite Z.land_ones by lia. symmetry. apply Z.mod_small. lia. }
  pose proof (Z.add_lor_land (x + q * 8) m). pose proof (Z.add_lor_land x m).
  assert (Z.land (x + q * 8) m = Z.land x m); [|lia].
  rewrite Hmm, (Z.land_comm m), !Z.land_assoc, !Z.land_ones by lia.
  change (2 ^ 3) with 8. by rewrite Z.mod_add by lia.
Qed.

Definition shift_ok (d k : Z) (s : encodingState) : Prop :=
  (8 | d) /\ (d = 0 \/ bitOffset s = 0 \/ k <= 2).

Lemma ensure_shift d k s :
  0 <= k <= 3 -> 0 <= bitOffset s < 8 -> shift_ok d k s ->
  ensureElementBitSizeAndCapacity (Some s) (8 * 2 ^ k) = Ok tt ->
  ensureElementBitSizeAndCapacity (Some (shift d s)) (8 * 2 ^ k) = Ok tt.
Proof.
  intros Hk Hb [Hd Hcase]. simpl.
  destruct (checkElements s && _); [done|].
  assert (1 <= 2 ^ k <= 8) as Hpow.
  { split; [pose proof (Z.pow_pos_nonneg 2 k); lia|apply (Z.pow_le_mono_r 2 k 3); lia]. }
  destruct Hcase as [->|Hcase]; [by rewrite !Z.sub_0_r|].
  rewrite u32_small, bytesForBits_small by lia.
  set (n := (bitOffset s + 8 * 2 ^ k + 7) / 8).
  assert (0 < n <= 8).
  { destruct Hcase as [Hb0|Hk2].
    - subst n. rewrite Hb0. replace ((0 + 8 * 2 ^ k + 7) / 8) with (2 ^ k);
        [lia|apply (Z.div_unique_pos _ _ _ 7); lia].
    - assert (2 ^ k <= 4) by (apply (Z.pow_le_mono_r 2 k 2); lia).
      split; [apply Z.div_str_pos; lia|apply Z.div_le_upper_bound; lia]. }
  unfold align. replace (offset s - d + n - 1) with (offset s + n - 1 + - d) by lia.
  rewrite lor_shift_small by (by apply Z.divide_opp_r || lia).
  destruct (Z.ltb_spec (limit s) (Z.lor (offset s + n - 1) (n - 1) + 1)); [done|].
  intros _. destruct (Z.ltb_spec (limit s - d) (Z.lor (offset s + n - 1) (n - 1) + - d + 1)); [lia|done].
Qed.

Lemma ensure_shift_bit d s :
  0 <= bitOffset s < 8 ->
  ensureElementBitSizeAndCapacity (Some s) 1 = Ok tt ->
  ensureElementBitSizeAndCapacity (Some (shift d s)) 1 = Ok tt.
Proof.
  intros Hb. simpl. destruct (checkElements s && _); [done|].
  rewrite u32_small, bytesForBits_small by lia.
  replace ((bitOffset s + 1 + 7) / 8) with 1
    by (apply (Z.div_unique_pos _ _ _ (bitOffset s)); lia).
  rewrite !align_1. intros Hf.
  destruct (Z.ltb_spec (limit s) (offset s + 1)); [done|].
  destruct (Z.ltb_spec (limit s - d) (offset s - d + 1)); [lia|done].
Qed.

(** ** One scalar *)

(** A successful word write, inverted. *)
Lemma write_word_inv k v e e' s st :
  0 <= k <= 3 -> enc_inv e -> Encoder.stateStack e = s :: st ->
  Encoder.write_word (2 ^ k) v e = (e', Ok tt) ->
  ensureElementBitSizeAndCapacity (Some s) (8 * 2 ^ k) = Ok tt /\
  offset s <= offset (word_start (2 ^ k) s) /\
  (0 < bitOffset s -> offset s < offset (word_start (2 ^ k) s)) /\
  offset (word_start (2 ^ k) s) + 2 ^ k <= limit s /\
  exists b, PutUint (Z.to_nat (2 ^ k)) (Encoder.buf e) (offset (word_start (2 ^ k) s)) v = Some b /\
    e' = Encoder.mkEncoder b (Encoder.end_ e) (Encoder.handles e)
           (word_next (2 ^ k) s :: st) (Encoder.deterministic e).
Proof.
  intros Hk He Hst Hw. pose proof He as (Hen&_&Hfa).
  rewrite Hst in Hfa. apply Forall_cons in Hfa as [(Hc&Hl&Hm) _].
  destruct (ensureElementBitSizeAndCapacity (Some s) (8 * 2 ^ k)) as [[]|x|] eqn:Hens.
  - pose proof (ensure_fits s k Hk Hc (or_intror Hm) Hens) as (_&Ho&Hfit&Hb&_).
    fold (word_start (2 ^ k) s) in Ho, Hfit, Hb.
    split_and!; [done..|]. pose proof (Z.pow_pos_nonneg 2 k). destruct Hc.
    destruct (PutUint_Some (Z.to_nat (2 ^ k)) (Encoder.buf e) (offset (word_start (2 ^ k) s)) v)
      as [b Hput]; [lia|rewrite Z2Nat.id by lia; lia|].
    exists b. split; [done|].
    rewrite (Encoder.write_word_ok _ _ _ _ _ _ Hst Hens Hput) in Hw. by injection Hw.
  - rewrite (Encoder.write_word_err _ _ _ x) in Hw; [done|].
    unfold Encoder.state. by rewrite Hst.
  - by apply ensure_no_panic in Hens.
Qed.

Lemma WriteBool_inv v e e' s st :
  enc_inv e -> Encoder.stateStack e = s :: st -> Encoder.WriteBool v e = (e', Ok tt) ->
  ensureElementBitSizeAndCapacity (Some s) 1 = Ok tt /\ offset s + 1 <= limit s /\
  exists x, index (Encoder.buf e) (offset s) = Some x /\
    e' = Encoder.mkEncoder
           (if v then <[Z.to_nat (offset s) := Z.lor x (u8 (Z.shiftl 1 (bitOffset s)))]> (Encoder.buf e)
            else Encoder.buf e) (Encoder.end_ e) (Encoder.handles e) (bit_next s :: st)
           (Encoder.deterministic e).
Proof.
  intros He Hst Hw. pose proof He as (Hen&_&Hfa).
  rewrite Hst in Hfa. apply Forall_cons in Hfa as [(Hc&Hl&Hm) _].
  destruct (ensureElementBitSizeAndCapacity (Some s) 1) as [[]|x|] eqn:Hens.
  - pose proof (ensure_fits_bit s Hc Hens). split_and!; [done..|].
    destruct (index_Some (Encoder.buf e) (offset s)) as [x Hx]; [destruct Hc; lia|].
    exists x. split; [done|].
    rewrite (Encoder.WriteBool_ok _ _ _ _ Hst Hens _ Hx) in Hw. by injection Hw.
  - unfold Encoder.WriteBool in Hw. erewrite bind_run_err in Hw; [done|].
    unfold Encoder.ensure, Encoder.state. rewrite Hst. cbn [head]. by rewrite Hens.
  - by apply ensure_no_panic in Hens.
Qed.

(** What writing one scalar does to the buffer: bits below the cursor and bytes
    from the end of the block on are untouched, and reading it back from any
    buffer that agrees up to the new cursor gives the scalar. *)
Definition step_spec (x : scalar) (s : encodingState) (E E' : list Z) : Prop :=
  length E' = length E /\
  (forall i, i < offset s \/ limit s <= i -> index E' i = index E i) /\
  (zero_ahead s E -> zero_ahead (next x s) E') /\
  forall d B, d <= offset s -> agree d (next x s) E' B ->
    agree d s E B /\
    match word_of x with
    | Some (k, v) => GetUint (Z.to_nat (2 ^ k)) B (offset (word_start (2 ^ k) s) - d) = Some v
    | None => forall b, x = SBool b -> zero_ahead s E ->
        exists y, index B (offset s - d) = Some y /\ Z.testbit y (bitOffset s) = b
    end.

Lemma word_step x k v s E E' :
  word_of x = Some (k, v) -> 0 <= k <= 3 -> 0 <= v < 2 ^ (8 * 2 ^ k) -> cursor_ok s ->
  (0 < bitOffset s -> offset s < offset (word_start (2 ^ k) s)) ->
  offset (word_start (2 ^ k) s) + 2 ^ k <= limit s ->
  PutUint (Z.to_nat (2 ^ k)) E (offset (word_start (2 ^ k) s)) v = Some E' ->
  step_spec x s E E'.
Proof.
  intros Hx Hk Hv [Hc1 Hc2] Hbit Hfit Hput.
  pose proof (word_start_offset k s ltac:(lia)) as Ho.
  set (w := offset (word_start (2 ^ k) s)) in *.
  pose proof (Z.pow_pos_nonneg 2 k ltac:(lia) ltac:(lia)) as Hp.
  pose proof (length_PutUint _ _ _ _ _ Hput) as Hlen.
  pose proof (proj1 (PutUint_inv _ _ _ _ _ Hput)) as Hw0.
  pose proof (proj1 (proj2 (PutUint_inv _ _ _ _ _ Hput))) as Hw1.
  assert (forall i, i < w \/ w + 2 ^ k <= i -> index E' i = index E i) as Hfr.
  { intros i Hi. apply (PutUint_frame _ _ _ _ _ _ Hput). rewrite Z2Nat.id by lia. lia. }
  assert (offset (next x s) = w + 2 ^ k /\ bitOffset (next x s) = 0 /\ limit (next x s) = limit s)
    as (Hno&Hnb&Hnl).
  { unfold next. rewrite Hx. split_and!; [done..|apply limit_word_next]. }
  split_and!; [done|intros i Hi; apply Hfr; lia| |].
  - intros Hz i Hi. rewrite Hno, Hnl in Hi. destruct (Hz i) as (y&Hy&Hyb); [lia|].
    exists y. rewrite Hfr by lia. split; [done|]. intros j Hj _. apply Hyb; lia.
  - intros d B Hd [Hag _]. rewrite Hno in Hag. split.
    + split.
      * intros i Hi. rewrite <- Hfr by lia. apply Hag. lia.
      * intros Hb. specialize (Hbit Hb).
        destruct (index_Some E (offset s)) as [y Hy]; [lia|].
        exists y, y. split_and!; [done| |done]. rewrite <- Hag by lia. by rewrite Hfr by lia.
    + rewrite Hx. pose proof (GetUint_Put _ _ _ _ _ Hput) as Hg.
      rewrite Z2Nat.id, Z.mod_small in Hg by lia. rewrite <- Hg. symmetry.
      destruct (index_Some E' (w + 2 ^ k - 1)) as [y Hy]; [rewrite Hlen; lia|].
      rewrite Hag in Hy by lia. apply index_inv in Hy.
      apply GetUint_agree; rewrite ?Z2Nat.id, ?Hlen by lia; [lia..|].
      intros j Hj. rewrite Hag by lia. f_equal. lia.
Qed.

Lemma bit_next_cursor s :
  0 <= bitOffset s < 8 ->
  (bitOffset s = 7 /\ offset (bit_next s) = offset s + 1 /\ bitOffset (bit_next s) = 0) \/
  (bitOffset s < 7 /\ offset (bit_next s) = offset s /\ bitOffset (bit_next s) = bitOffset s + 1).
Proof.
  intros Hb. unfold bit_next. rewrite skipBits_1 by done.
  destruct (Z.eqb_spec (bitOffset s) 7); simpl; [left|right]; lia.
Qed.

(** Setting one bit of a byte. *)
Lemma testbit_set_bit x b j :
  0 <= b < 8 -> 0 <= j ->
  Z.testbit (Z.lor x (u8 (Z.shiftl 1 b))) j = Z.testbit x j || (j =? b).
Proof.
  intros Hb Hj. unfold u8. rewrite Z.shiftl_1_l, Z.mod_small.
  - rewrite Z.lor_spec, Z.pow2_bits_eqb by lia. by rewrite Z.eqb_sym.
  - split; [pose proof (Z.pow_pos_nonneg 2 b); lia|]. apply Z.pow_lt_mono_r; lia.
Qed.

Lemma bit_step v s E x :
  cursor_ok s -> offset s + 1 <= limit s -> index E (offset s) = Some x ->
  step_spec (SBool v) s E
    (if v then <[Z.to_nat (offset s) := Z.lor x (u8 (Z.shiftl 1 (bitOffset s)))]> E else E).
Proof.
  intros [Hc1 Hc2] Hfit Hx.
  set (x' := if v then Z.lor x (u8 (Z.shiftl 1 (bitOffset s))) else x).
  set (E' := if v then _ else E).
  pose proof (index_inv _ _ _ Hx) as Hin.
  assert (forall j, 0 <= j -> j <> bitOffset s -> Z.testbit x' j = Z.testbit x j) as Hx'.
  { intros j Hj Hne. subst x'. destruct v; [|done].
    rewrite testbit_set_bit by lia. rewrite (proj2 (Z.eqb_neq _ _)) by done. by rewrite orb_false_r. }
  assert (forall i, index E' i = if offset s =? i then Some x' else index E i) as HE'.
  { intros i. subst E' x'. destruct v.
    - apply (index_store E). apply store_Some. lia.
    - destruct (Z.eqb_spec (offset s) i) as [<-|]; done. }
  pose proof (bit_next_cursor s Hc2) as Hnc. change (bit_next s) with (next (SBool v) s) in Hnc.
  split_and!.
  - subst E'. destruct v; [apply length_insert|done].
  - intros i Hi. rewrite HE', (proj2 (Z.eqb_neq _ _)) by lia. done.
  - intros Hz i Hi. change (limit (next (SBool v) s)) with (limit s) in Hi.
    destruct (Hz i) as (y&Hy&Hyb); [lia|]. rewrite HE'.
    destruct (Z.eqb_spec (offset s) i) as [<-|Hne].
    + exists x'. split; [done|]. intros j Hj Hjb. rewrite Hx in Hy. injection Hy as <-.
      rewrite Hx' by lia. apply Hyb; lia.
    + exists y. split; [done|]. intros j Hj _. apply Hyb; lia.
  - intros d B Hd [Hag Hagb].
    assert (exists y, index B (offset s - d) = Some y /\
              forall j, 0 <= j <= bitOffset s -> Z.testbit x' j = Z.testbit y j) as (y&Hy&Hyb).
    { destruct Hnc as [(H7&Hno&_)|(H7&Hno&Hnb)].
      - exists x'. split; [|done]. rewrite <- Hag by lia. by rewrite HE', Z.eqb_refl.
      - destruct Hagb as (y1&y&Hy1&Hy&Hyb); [lia|]. rewrite Hno, HE', Z.eqb_refl in Hy1.
        injection Hy1 as <-. rewrite Hno in Hy. exists y. split; [done|].
        intros j Hj. apply Hyb. lia. }
    split.
    + split.
      * intros i Hi. rewrite <- Hag by lia. by rewrite HE', (proj2 (Z.eqb_neq _ _)) by lia.
      * intros _. exists x, y. split_and!; [done..|]. intros j Hj.
        rewrite <- Hx' by lia. apply Hyb. lia.
    + simpl. intros b [= ->] Hz. exists y. split; [done|]. rewrite <- Hyb by lia.
      subst x'. destruct b; [rewrite testbit_set_bit, Z.eqb_refl by lia; apply orb_true_r|].
      destruct (Hz (offset s)) as (z&Hz1&Hz2); [lia|].
      rewrite Hx in Hz1. injection Hz1 as <-. apply Hz2; lia.
Qed.

(** The cursor has not passed the end of the block. *)
Definition within (s : encodingState) : Prop :=
  offset s <= limit s /\ (0 < bitOffset s -> offset s < limit s).

(** ** A successful scalar write, in full *)
Lemma write_scalar_inv x e e' s st :
  in_range x -> enc_inv e -> Encoder.stateStack e = s :: st ->
  write_scalar x e = (e', Ok tt) ->
  enc_inv e' /\ Encoder.stateStack e' = next x s :: st /\
  Encoder.end_ e' = Encoder.end_ e /\ Encoder.handles e' = Encoder.handles e /\
  limit (next x s) = limit s /\ within (next x s) /\
  step_spec x s (Encoder.buf e) (Encoder.buf e') /\
  match word_of x with
  | Some (k, v) => 0 <= k <= 3 /\ ensureElementBitSizeAndCapacity (Some s) (8 * 2 ^ k) = Ok tt
  | None => ensureElementBitSizeAndCapacity (Some s) 1 = Ok tt
  end.
Proof.
  intros Hr He Hst Hw.
  assert (cursor_ok s) as Hc.
  { destruct He as (_&_&Hfa). rewrite Hst in Hfa. by apply Forall_cons in Hfa as [(?&?&?) _]. }
  destruct (word_of x) as [[k v]|] eqn:Hx.
  - assert (0 <= k <= 3 /\ 0 <= v < 2 ^ (8 * 2 ^ k) /\
            Encoder.write_word (2 ^ k) v e = (e', Ok tt)) as (Hk&Hv&Hw').
    { destruct x; simpl in *; try done; injection Hx as <- <-; split_and!; try lia; try exact Hw.
      rewrite <- Encoder.WriteUint8_word by lia. exact Hw. }
    destruct (write_word_inv k v e e' s st Hk He Hst Hw') as (Hens&Ho&Hb&Hfit&b&Hput&He').
    pose proof (Encoder.write_word_wp k v e Hk He) as Hwp. unfold wp in Hwp. rewrite Hw' in Hwp.
    destruct Hwp as (Hi&_). subst e'. simpl. unfold next. rewrite Hx.
    split_and!; try done; [apply limit_word_next| |by eapply word_step|lia..].
    split; rewrite limit_word_next; [exact Hfit|].
    change (bitOffset (word_next (2 ^ k) s)) with 0. lia.
  - destruct x; [|done..]. simpl in Hw.
    destruct (WriteBool_inv b e e' s st He Hst Hw) as (Hens&Hfit&y&Hy&He').
    pose proof (Encoder.WriteBool_wp b e He) as Hwp. unfold wp in Hwp. rewrite Hw in Hwp.
    destruct Hwp as (Hi&_). subst e'. simpl. split_and!; try done; [|by apply bit_step].
    destruct Hc as [_ Hc]. change (within (bit_next s)). unfold within.
    rewrite limit_bit_next.
    destruct (bit_next_cursor s Hc) as [(_&->&->)|(_&->&->)]; lia.
Qed.

(** Reading it back at the shifted position. *)
Lemma read_scalar_run x d s E E' dc sd B :
  cursor_ok s -> in_range x -> step_spec x s E E' -> zero_ahead s E ->
  match word_of x with
  | Some (k, v) => 0 <= k <= 3 /\ ensureElementBitSizeAndCapacity (Some s) (8 * 2 ^ k) = Ok tt
                   /\ shift_ok d k s
  | None => ensureElementBitSizeAndCapacity (Some s) 1 = Ok tt
  end ->
  d <= offset s -> agree d (next x s) E' B ->
  Decoder.buf dc = B -> Decoder.stateStack dc = shift d s :: sd ->
  read_scalar (kind_of x) dc = (Decoder.set_stack (shift d (next x s) :: sd) dc, Ok x).
Proof.
  intros [Hc1 Hc2] Hr (_&_&_&Hstep) Hz Hens Hd Hag HB Hst.
  destruct (Hstep d B Hd Hag) as [_ Hread]. clear Hstep.
  unfold next in *. destruct (word_of x) as [[k v]|] eqn:Hx.
  - destruct Hens as (Hk&Hens&Hok).
    assert ((2 ^ k | d)) as Hdiv.
    { destruct Hok as [? _]. apply (Z.divide_trans _ 8); [|done].
      exists (2 ^ (3 - k)). rewrite <- Z.pow_add_r by lia. by replace (3 - k + k) with 3 by lia. }
    pose proof (ensure_shift d k s Hk Hc2 Hok Hens) as Hens'.
    rewrite <- shift_word_next by (lia || done).
    assert (GetUint (Z.to_nat (2 ^ k)) (Decoder.buf dc) (offset (word_start (2 ^ k) (shift d s))) =
            Some v) as Hg by (rewrite shift_word_start by (lia || done); by rewrite HB).
    pose proof (Decoder.read_word_ok _ _ _ _ _ Hst Hens' Hg) as Hrun.
    destruct x; simpl in Hx; try done; injection Hx as <- <-; simpl kind_of;
      unfold read_scalar; erewrite bind_run_ok; try exact Hrun; try done.
    by apply Decoder.ReadUint8_ok.
  - destruct x; [|done..]. simpl. rewrite <- shift_bit_next by done.
    destruct (Hread b eq_refl Hz) as (y&Hy&Hyb).
    erewrite bind_run_ok.
    2:{ eapply Decoder.ReadBool_ok; [done|by apply ensure_shift_bit|]. rewrite HB. exact Hy. }
    simpl. unfold ret. do 3 f_equal.
    change 1 with (Z.ones 1) at 1. rewrite Z.land_ones, <- Hyb by lia.
    by rewrite Z.testbit_eqb, Z.shiftr_div_pow2 by lia.
Qed.

(** ** Sequences of scalars *)

(** A position from which the script can be decoded [d] bytes earlier. *)
Definition movable (d : Z) (ab : bool) (s : encodingState) (xs : list scalar) : Prop :=
  (8 | d) /\ d <= offset s /\
  (d = 0 \/ no_word_after_bit ab xs /\ (ab = false -> bitOffset s = 0)).

Lemma movable_head d ab s x xs k v :
  movable d ab s (x :: xs) -> word_of x = Some (k, v) -> shift_ok d k s.
Proof.
  intros (Hd&_&[->|[Hn Hab]]) Hx; split; auto.
  destruct x; simpl in *; try done; injection Hx as <- <-; auto with lia.
  destruct Hn as [-> _]. auto.
Qed.

Lemma movable_tail d ab s x xs :
  movable d ab s (x :: xs) -> 0 <= bitOffset s < 8 -> offset s <= offset (next x s) ->
  exists ab', movable d ab' (next x s) xs.
Proof.
  intros (Hd&Ho&Hcase) Hb Hle. unfold movable.
  destruct Hcase as [->|[Hn Hab]]; [exists false; split_and!; auto; lia|].
  destruct x; simpl in Hn; [exists true|exists false..]; split_and!; try lia; try done;
    right; split; try done; by destruct Hn.
Qed.

Lemma offset_next x s :
  cursor_ok s -> cursor_ok (next x s) /\ offset s <= offset (next x s).
Proof.
  intros Hc. pose proof Hc as [Hc1 Hc2].
  assert (forall k, 0 <= k -> cursor_ok (word_next (2 ^ k) s) /\
            offset s <= offset (word_next (2 ^ k) s)) as Hw.
  { intros k Hk. split; [by apply cursor_ok_word_next|].
    pose proof (word_start_offset k s Hk). pose proof (Z.pow_pos_nonneg 2 k).
    change (offset s <= offset (word_start (2 ^ k) s) + 2 ^ k). lia. }
  destruct x; [|apply (Hw 0)|apply (Hw 1)|apply (Hw 2)|apply (Hw 3)]; try lia.
  split; [by apply cursor_ok_bit_next|]. change (next (SBool b) s) with (bit_next s).
  destruct (bit_next_cursor s Hc2) as [(_&->&_)|(_&->&_)]; lia.
Qed.

Lemma all_run xs d : forall ab e s st e',
  Forall in_range xs -> enc_inv e -> Encoder.stateStack e = s :: st ->
  zero_ahead s (Encoder.buf e) -> within s ->
  write_all xs e = (e', Ok tt) -> movable d ab s xs ->
  exists s', Encoder.stateStack e' = s' :: st /\ enc_inv e' /\
    Encoder.end_ e' = Encoder.end_ e /\ Encoder.handles e' = Encoder.handles e /\
    limit s' = limit s /\ within s' /\ offset s <= offset s' /\
    checkElements s' = checkElements s /\
    length (Encoder.buf e') = length (Encoder.buf e) /\
    (forall i, i < offset s \/ limit s <= i ->
       index (Encoder.buf e') i = index (Encoder.buf e) i) /\
    forall B, agree d s' (Encoder.buf e') B ->
      agree d s (Encoder.buf e) B /\
      forall dc sd, Decoder.buf dc = B -> Decoder.stateStack dc = shift d s :: sd ->
        read_all (map kind_of xs) dc = (Decoder.set_stack (shift d s' :: sd) dc, Ok xs).
Proof.
  induction xs as [|x xs IH]; intros ab e s st e' Hr He Hst Hz Hin Hw Hm.
  { simpl in Hw. injection Hw as <-. exists s. split_and!; try done.
    intros B Hag. split; [done|]. intros dc sd HB Hsd. simpl. rewrite <- Hsd.
    by destruct dc. }
  apply Forall_cons in Hr as [Hrx Hr]. simpl in Hw. apply bind_Ok in Hw as (e1&[]&Hw1&Hw).
  destruct (write_scalar_inv x e e1 s st Hrx He Hst Hw1) as (He1&Hst1&Hend1&Hh1&Hl1&Hin1&Hstep&Hens).
  assert (cursor_ok s) as Hc.
  { destruct He as (_&_&Hfa). rewrite Hst in Hfa. by apply Forall_cons in Hfa as [(?&?&?) _]. }
  destruct (offset_next x s Hc) as [_ Hle]. pose proof Hc as [Hc1 Hc2].
  destruct (movable_tail d ab s x xs Hm Hc2 Hle) as [ab' Hm'].
  pose proof Hstep as (Hlen&Hfr&Hz1&Hback).
  destruct (IH ab' e1 (next x s) st e' Hr He1 Hst1 (Hz1 Hz) Hin1 Hw Hm')
    as (s'&Hst'&He'&Hend'&Hh'&Hl'&Hin'&Hle'&Hck&Hlen'&Hfr'&Hrest).
  exists s'. split_and!; try done; try congruence; try lia.
  - rewrite Hck. unfold next. by destruct x; [..]; simpl; unfold word_next, word_start,
      bit_next, alignOffset, alignOffsetToBytes; simpl; try destruct (0 <? bitOffset s).
  - intros i Hi. rewrite Hfr' by lia. apply Hfr. lia.
  - intros B HB. destruct (Hrest B HB) as [Hag1 Hread]. pose proof Hm as (_&Hd&_).
    destruct (Hback d B Hd Hag1) as [Hag _]. split; [done|].
    intros dc sd HBdc Hsd. simpl.
    rewrite (bind_run_ok _ _ _ (Decoder.set_stack (shift d (next x s) :: sd) dc) x).
    2:{ eapply read_scalar_run; try done. destruct (word_of x) as [[k v]|] eqn:Hx; [|done].
        destruct Hens as [? ?]. split; [done|split; [done|]]. by eapply movable_head. }
    erewrite bind_run_ok; [|by apply Hread]. by destruct dc.
Qed.

(** ** A struct of scalars *)
Definition encode_struct (size ver : Z) (xs : list scalar) : M Encoder error unit :=
  Encoder.StartStruct size ver ;;; write_all xs ;;; Encoder.Finish.
Definition decode_struct (ks : list kind) : M Decoder error (DataHeader * list scalar) :=
  let! h := Decoder.StartStruct in
  let! xs := read_all ks in
  Decoder.Finish ;;;
  ret (h, xs).

(** The unclaimed part of the buffer is zero. *)
Definition tail_zero (e : Encoder) : Prop :=
  forall i, Encoder.end_ e <= i < len (Encoder.buf e) -> index (Encoder.buf e) i = Some 0.

Lemma index_replicate_app (l : list Z) z i :
  0 <= i < len l + Z.of_nat z ->
  index (l ++ replicate z 0) i = if i <? len l then index l i else Some 0.
Proof.
  intros Hi. unfold index. rewrite (proj2 (Z.leb_le 0 i)) by lia.
  destruct (Z.ltb_spec i (len l)).
  - by rewrite lookup_app_l by lia.
  - rewrite lookup_app_r by lia. apply lookup_replicate. split; [done|]. lia.
Qed.

(** State after the header of a struct is written. *)
Lemma StartStruct_run size ver e :
  0 <= size -> (8 | size) -> 8 + size < 2 ^ 32 -> enc_inv e -> tail_zero e ->
  exists b, let s := mkState (Encoder.end_ e + 8) 0 (Encoder.end_ e + 8 + size) 0 0 false in
    let e1 := Encoder.mkEncoder b (Encoder.end_ e + 8 + size) (Encoder.handles e)
       (s :: Encoder.stateStack e) (Encoder.deterministic e) in
    Encoder.StartStruct size ver e = (e1, Ok tt) /\ enc_inv e1 /\ tail_zero e1 /\
    zero_ahead s b /\
    (forall i, i < Encoder.end_ e -> index b i = index (Encoder.buf e) i) /\
    GetUint 4 b (Encoder.end_ e) = Some (8 + size) /\
    GetUint 4 b (Encoder.end_ e + 4) = Some (ver mod 2 ^ 32).
Proof.
  intros Hs Hs8 Hs32 He Hz. pose proof He as (Hen&Hd8&_).
  pose proof (Encoder.start_run (mkDataHeader (u32 (8 + size)) ver) false e) as Hrun.
  pose proof (Encoder.start_safe (mkDataHeader (u32 (8 + size)) ver) false e) as Hsafe.
  simpl in Hrun, Hsafe. rewrite u32_small in Hrun, Hsafe by lia.
  destruct Hrun as (b&Hr&z&b1&Hb1&Hb&Hl); [lia|done|].
  assert (align (8 + size) 8 = 8 + size) as Hal.
  { destruct Hs8 as [q ->]. change 8 with (2 ^ 3). replace (2 ^ 3 + q * 2 ^ 3) with (0 + (q + 1) * 2 ^ 3) by lia.
    rewrite align_shift; [done|lia|by exists (q + 1)]. }
  rewrite Hal in *. specialize (Hsafe ltac:(lia) He). unfold wp in Hsafe. rewrite Hr in Hsafe.
  rewrite Z.add_assoc in *.
  exists b. cbv zeta.
  pose proof (length_PutUint _ _ _ _ _ Hb1) as Hlb1. pose proof (length_PutUint _ _ _ _ _ Hb) as Hlb.
  rewrite length_app, length_replicate in Hl, Hlb1.
  assert (forall i, i < Encoder.end_ e \/ Encoder.end_ e + 8 <= i < len b ->
            index b i = if i <? Encoder.end_ e then index (Encoder.buf e) i else Some 0) as Hix.
  { intros i Hi. rewrite (PutUint_frame _ _ _ _ _ i Hb), (PutUint_frame _ _ _ _ _ i Hb1) by lia.
    destruct (Z.leb_spec 0 i) as [?|Hneg].
    2:{ unfold index. rewrite (proj2 (Z.leb_gt 0 i)) by lia. by rewrite (proj2 (Z.ltb_lt _ _)) by lia. }
    rewrite index_replicate_app by lia.
    destruct (Z.ltb_spec i (len (Encoder.buf e))), (Z.ltb_spec i (Encoder.end_ e)); try done; try lia.
    apply Hz. lia. }
  split_and!.
  - unfold Encoder.StartStruct, dataHeaderSize. rewrite u32_small by lia. exact Hr.
  - exact Hsafe.
  - intros i Hi. simpl in *. rewrite Hix by lia. by rewrite (proj2 (Z.ltb_ge _ _)) by lia.
  - intros i Hi. simpl in *. exists 0. rewrite Hix, (proj2 (Z.ltb_ge _ _)) by lia.
    split; [done|]. intros. apply Z.bits_0.
  - intros i Hi. rewrite Hix by lia. by rewrite (proj2 (Z.ltb_lt _ _)) by lia.
  - rewrite (GetUint_agree 4 b b1 (Encoder.end_ e) (Encoder.end_ e)) by
      (try lia; intros; apply (PutUint_frame _ _ _ _ _ _ Hb); lia).
    rewrite (GetUint_Put _ _ _ _ _ Hb1). f_equal. apply Z.mod_small. simpl. lia.
  - by rewrite (GetUint_Put _ _ _ _ _ Hb).
Qed.

(** ** Reading a struct back *)
Lemma get_uint_run n off d v :
  GetUint n (Decoder.buf d) off = Some v -> Decoder.get_uint n off d = (d, Ok v).
Proof. intros Hg. unfold Decoder.get_uint. by rewrite Hg. Qed.

Lemma dec_StartStruct_run d n v :
  8 <= n < 2 ^ 32 -> Decoder.end_ d + n <= len (Decoder.buf d) ->
  GetUint 4 (Decoder.buf d) (Decoder.end_ d) = Some n ->
  GetUint 4 (Decoder.buf d) (Decoder.end_ d + 4) = Some v ->
  Decoder.StartStruct d =
  (Decoder.mkDecoder (Decoder.buf d) (Decoder.end_ d + n) (Decoder.handles d)
     (Decoder.nextHandle d)
     (mkState (Decoder.end_ d + 8) 0 (Decoder.end_ d + n) 0 0 false :: Decoder.stateStack d),
   Ok (mkDataHeader n v)).
Proof.
  intros Hn Hl Hg1 Hg2. unfold Decoder.StartStruct, Decoder.readDataHeader, dataHeaderSize.
  assert (forall d m, Decoder.end_ d + m <= len (Decoder.buf d) ->
    Decoder.claimData m d = (Decoder.set_end (Decoder.end_ d + m) d, Ok tt)) as Hcl.
  { intros d0 m Hm. unfold Decoder.claimData.
    destruct (Z.ltb_spec (len (Decoder.buf d0)) (Decoder.end_ d0 + m)); [lia|done]. }
  erewrite bind_run_ok.
  2:{ erewrite bind_run_ok by (apply Hcl; lia). erewrite bind_run_ok by done.
      simpl Decoder.end_. replace (Decoder.end_ d + 8 - 8) with (Decoder.end_ d) by lia.
      erewrite bind_run_ok by (apply get_uint_run; exact Hg1).
      erewrite bind_run_ok by (apply get_uint_run; exact Hg2). done. }
  cbn [Size]. destruct (Z.ltb_spec n 8); [lia|].
  unfold Decoder.pushState, dataHeaderSize. cbn [Size]. rewrite u32_small by lia.
  erewrite bind_run_ok.
  2:{ erewrite bind_run_ok by done. erewrite bind_run_ok by (apply Hcl; simpl; lia). done. }
  replace (Decoder.end_ d + n) with (Decoder.end_ d + 8 + (n - 8)) by lia. done.
Qed.

Lemma enc_Finish_run e s st :
  Encoder.stateStack e = s :: st -> checkElements s = false ->
  Encoder.Finish e = (Encoder.set_stack st e, Ok tt).
Proof.
  intros Hst Hc. unfold Encoder.Finish, Encoder.state, Encoder.popState, modify.
  rewrite Hst. simpl. by rewrite Hc.
Qed.
Lemma dec_Finish_run d s st :
  Decoder.stateStack d = s :: st -> checkElements s = false ->
  Decoder.Finish d = (Decoder.set_stack st d, Ok tt).
Proof.
  intros Hst Hc. unfold Decoder.Finish, Decoder.state, Decoder.popState, modify.
  rewrite Hst. simpl. by rewrite Hc.
Qed.

(** Both buffers hold the same bytes from the encoder's position [d] on. *)
Definition same_bytes (d : Z) (E : list Z) (n : Z) (B : list Z) : Prop :=
  forall i, d <= i < n -> index E i = index B (i - d).

(** The result of decoding, and where the decoder then is. *)
Definition decodes_to {A} (m : M Decoder error A) (d : Decoder) (n : Z) (a : A) : Prop :=
  m d = (Decoder.set_end n d, Ok a).

Lemma struct_rt d size ver xs e e' :
  0 <= size -> (8 | size) -> 8 + size < 2 ^ 32 -> 0 <= ver < 2 ^ 32 ->
  Forall in_range xs -> enc_inv e -> tail_zero e ->
  encode_struct size ver xs e = (e', Ok tt) ->
  (8 | d) -> d <= Encoder.end_ e -> (d = 0 \/ no_word_after_bit false xs) ->
  (enc_inv e' /\ tail_zero e' /\ Encoder.end_ e' = Encoder.end_ e + (8 + size) /\
   Encoder.handles e' = Encoder.handles e /\ Encoder.stateStack e' = Encoder.stateStack e /\
   (forall i, i < Encoder.end_ e -> index (Encoder.buf e') i = index (Encoder.buf e) i)) /\
  forall dc,
  same_bytes d (Encoder.buf e') (Encoder.end_ e') (Decoder.buf dc) ->
  Encoder.end_ e' - d <= len (Decoder.buf dc) ->
  Decoder.end_ dc = Encoder.end_ e - d ->
  decodes_to (decode_struct (map kind_of xs)) dc (Encoder.end_ e' - d)
    (mkDataHeader (8 + size) ver, xs).
Proof.
  intros Hs Hs8 Hs32 Hver Hr He Htz Hrun Hd8 Hd Hnw.
  destruct (StartStruct_run size ver e Hs Hs8 Hs32 He Htz) as (b&Hst&Hi1&Ht1&Hz1&Hfr1&Hg1&Hg2).
  unfold encode_struct in Hrun. rewrite (bind_run_ok _ _ _ _ _ Hst) in Hrun.
  apply bind_Ok in Hrun as (e2&[]&Hw&Hfin).
  destruct (all_run xs d false _ _ _ _ Hr Hi1 eq_refl Hz1
              ltac:(split; simpl; lia) Hw)
    as (s'&Hst2&Hi2&Hend2&Hh2&Hl2&[Hin1 Hin2]&Hle2&Hck&Hlb2&Hfr2&Hread).
  { split_and!; simpl; [done|lia|]. destruct Hnw; auto. }
  simpl in Hend2, Hh2, Hl2, Hle2, Hlb2, Hck.
  rewrite (enc_Finish_run _ _ _ Hst2 Hck) in Hfin. injection Hfin as <-.
  change (Encoder.end_ (Encoder.set_stack _ e2)) with (Encoder.end_ e2) in *.
  change (Encoder.buf (Encoder.set_stack _ e2)) with (Encoder.buf e2) in *.
  pose proof Hi2 as (Hen2&Hen2'&Hfa2). rewrite Hst2 in Hfa2.
  apply Forall_cons in Hfa2 as [(Hc'&Hl'&_) Hfa2].
  assert (forall i, i < Encoder.end_ e + 8 -> index (Encoder.buf e2) i = index b i) as Hfr3.
  { intros i Hi. apply Hfr2. simpl. lia. }
  split.
  { split_and!; try done; try (simpl; lia).
    - intros i Hi. change (index (Encoder.buf e2) i = Some 0).
      simpl in Hi, Ht1, Hfr2. rewrite Hfr2 by lia. apply Ht1. simpl. lia.
    - intros i Hi. rewrite Hfr3 by lia. by apply Hfr1. }
  intros dc Hsame Hlen Hend.
  pose proof He as (Hen&_). pose proof Hi1 as (Hen1&_). simpl in Hen1.
  assert (forall off, Encoder.end_ e <= off <= Encoder.end_ e + 4 ->
    GetUint 4 (Decoder.buf dc) (off - d) = GetUint 4 b off) as Hg.
  { intros off Ho. apply GetUint_agree; simpl; [lia..|]. intros j Hj.
    rewrite <- Hfr3 by lia. rewrite Hsame by lia. f_equal. lia. }
  assert (agree d s' (Encoder.buf e2) (Decoder.buf dc)) as Hag.
  { split; [intros i Hi; apply Hsame; lia|]. intros Hb. specialize (Hin2 Hb).
    destruct (index_Some (Encoder.buf e2) (offset s')) as [x Hx]; [destruct Hc'; lia|].
    exists x, x. split_and!; [done| |done]. rewrite <- Hsame by (destruct Hc'; lia). done. }
  destruct (Hread _ Hag) as [_ Hrd]. clear Hread. unfold decodes_to, decode_struct.
  erewrite bind_run_ok.
  2:{ apply (dec_StartStruct_run dc (8 + size) ver); [lia|lia| |].
      - by rewrite Hend, Hg by lia.
      - replace (Encoder.end_ e - d + 4) with (Encoder.end_ e + 4 - d) in * by lia.
        rewrite Hend. replace (Encoder.end_ e - d + 4) with (Encoder.end_ e + 4 - d) by lia.
        rewrite Hg, Hg2 by lia. f_equal. by apply Z.mod_small. }
  erewrite bind_run_ok.
  2:{ apply Hrd; [done|]. simpl. unfold shift. simpl. f_equal. f_equal; lia. }
  erewrite bind_run_ok by (by eapply dec_Finish_run).
  unfold ret, Decoder.set_end, Decoder.set_stack. simpl. do 2 f_equal. rewrite Hend, Hend2. lia.
Qed.

(** ** Message headers *)
Definition header_fields (h : MessageHeader) : list scalar :=
  SUint32 (Type_ h) :: SUint32 (Flags h) ::
  (if negb (Flags h =? MessageNoFlag) then [SUint64 (RequestId h)] else []).

Lemma bind_assoc_run {S E A B C} (m : M S E A) (f : A -> M S E B) (g : B -> M S E C) s :
  bind (bind m f) g s = bind m (fun x => bind (f x) g) s.
Proof. unfold bind. by destruct (m s) as [? [?|?|]]. Qed.

Lemma bind_ext_run {S E A B} (m : M S E A) (f g : A -> M S E B) s :
  (forall a s', f a s' = g a s') -> bind m f s = bind m g s.
Proof. intros Hfg. unfold bind. by destruct (m s) as [? [?|?|]]. Qed.

Lemma Encode_struct h e :
  Encode h e = encode_struct (dataSize h) (version h) (header_fields h) e.
Proof.
  unfold Encode, encode_struct, header_fields. apply bind_ext_run. intros _ s1.
  cbn [write_all write_scalar]. rewrite !bind_assoc_run. apply bind_ext_run. intros _ s2.
  rewrite !bind_assoc_run. apply bind_ext_run. intros _ s3.
  destruct (negb (Flags h =? MessageNoFlag)); [|done].
  cbn [write_all write_scalar]. by rewrite bind_assoc_run.
Qed.

Lemma read_scalar_Ok k d d' x :
  read_scalar k d = (d', Ok x) ->
  match k, x with
  | KUint32, SUint32 v => Decoder.ReadUint32 d = (d', Ok v)
  | KUint64, SUint64 v => Decoder.ReadUint64 d = (d', Ok v)
  | KUint32, _ | KUint64, _ => False
  | _, _ => True
  end.
Proof.
  destruct k; simpl; try done; intros (d1&v&Hv&[= <- <-])%bind_Ok; exact Hv.
Qed.

Lemma valid_header_size h :
  valid_header h ->
  dataSize h = (if Flags h =? MessageNoFlag then 8 else 16) /\ 0 <= version h <= 1 /\
  Forall in_range (header_fields h) /\ no_word_after_bit false (header_fields h).
Proof.
  intros (Ht&[[Hf Hq]|[[Hf|Hf] Hq]]); unfold dataSize, version, header_fields; rewrite Hf; simpl;
    (split_and!; try done; try lia; repeat (constructor; simpl; try (done || lia))).
Qed.

Lemma read_all_cons k ks d d' x xs :
  read_all (k :: ks) d = (d', Ok (x :: xs)) ->
  exists d1, read_scalar k d = (d1, Ok x) /\ read_all ks d1 = (d', Ok xs).
Proof.
  intros (d1&y&H1&H2)%bind_Ok. apply bind_Ok in H2 as (d2&ys&H2&[= <- <- <-]). eauto.
Qed.

(** Evaluate the closed guard of the conditional at the head of the run. *)
Ltac eval_guard :=
  match goal with
  | |- context [ if ?c then _ else _ ] =>
    let b := eval vm_compute in c in
    lazymatch b with true => idtac | false => idtac end; change c with b; cbv iota
  end.

(** The header read back: the fields of [decode_struct] pass every check of
    [Decode] when the header is valid. *)
Lemma Decode_struct h d d' :
  valid_header h ->
  decode_struct (map kind_of (header_fields h)) d =
    (d', Ok (mkDataHeader (8 + dataSize h) (version h), header_fields h)) ->
  Decode d = (d', Ok h).
Proof.
  intros Hv. unfold decode_struct, Decode.
  intros (d1&hd&H1&(d2&ys&H2&H4)%bind_Ok)%bind_Ok.
  apply bind_Ok in H4 as (d3&[]&H3&[= <- -> ->]).
  rewrite (bind_run_ok _ _ _ _ _ H1). cbn [ElementsOrVersion Size].
  destruct Hv as (Ht&Hf). unfold header_fields, version, dataSize in *.
  destruct h as [t f q]. cbn [Type_ Flags RequestId] in *.
  assert (f = 0 /\ q = 0 \/ (f = 1 \/ f = 2)) as [[-> ->]|Hf'] by
    (destruct Hf as [[-> ->]|[[-> | ->] _]]; auto); [|assert ((f =? MessageNoFlag) = false) as Hf0].
  - simpl negb in *. cbn [map kind_of app] in H2.
    apply read_all_cons in H2 as (e1&R1%read_scalar_Ok&H2).
    apply read_all_cons in H2 as (e2&R2%read_scalar_Ok&[= <-]).
    repeat eval_guard.
    rewrite (bind_run_ok _ _ _ _ _ R1), (bind_run_ok _ _ _ _ _ R2).
    eval_guard. rewrite (bind_run_ok _ _ _ e2 0) by done.
    by rewrite (bind_run_ok _ _ _ _ _ H3).
  - apply Z.eqb_neq. by destruct Hf' as [->| ->].
  - rewrite Hf0 in *. simpl negb in *. cbn [map kind_of app] in H2.
    apply read_all_cons in H2 as (e1&R1%read_scalar_Ok&H2).
    apply read_all_cons in H2 as (e2&R2%read_scalar_Ok&H2).
    apply read_all_cons in H2 as (e3&R3%read_scalar_Ok&[= <-]).
    repeat eval_guard.
    rewrite (bind_run_ok _ _ _ _ _ R1), (bind_run_ok _ _ _ _ _ R2).
    assert (negb (f =? MessageExpectsResponseFlag) && negb (f =? MessageIsResponseFlag) = false)
      as -> by (by destruct Hf' as [->| ->]).
    rewrite (bind_run_ok _ _ _ _ _ R3). by rewrite (bind_run_ok _ _ _ _ _ H3).
Qed.

(** ** Payloads *)

(** What generated code promises of a payload: encoded after anything whose
    end is [Encoder.end_ e], it leaves the bytes before it alone, closes what it
    opened, and its bytes and handles decode to the same value. *)
Class PayloadRoundtrip (P : Type) `{Payload P} (ok : P -> Prop) : Prop :=
  payload_rt : forall p e e',
    ok p -> enc_inv e -> tail_zero e ->
    Encoder.stateStack e = [] -> Encoder.handles e = [] -> EncodeP p e = (e', Ok tt) ->
    enc_inv e' /\ Encoder.stateStack e' = [] /\ Encoder.end_ e <= Encoder.end_ e' /\
    (forall i, i < Encoder.end_ e -> index (Encoder.buf e') i = index (Encoder.buf e) i) /\
    exists d, DecodeP (Decoder.NewDecoder
                (drop (Z.to_nat (Encoder.end_ e)) (take (Z.to_nat (Encoder.end_ e')) (Encoder.buf e')))
                (Encoder.handles e')) = (d, Ok p).

(** A struct of scalars as generated code encodes it. *)
Section StructPayload.
Context (size ver : Z) (ks : list kind).
Definition struct_payload : Payload (list scalar) := {|
  EncodeP xs := encode_struct size ver xs;
  DecodeP := let! r := decode_struct ks in ret r.2
|}.
Definition struct_ok (xs : list scalar) : Prop :=
  map kind_of xs = ks /\ Forall in_range xs /\ no_word_after_bit false xs.
End StructPayload.

Lemma index_drop_take (l : list Z) d n i :
  0 <= d -> 0 <= i -> i + d < n -> index (drop (Z.to_nat d) (take (Z.to_nat n) l)) i = index l (i + d).
Proof.
  intros Hd Hi Hn. unfold index. rewrite !(proj2 (Z.leb_le _ _)) by lia.
  rewrite lookup_drop, lookup_take_lt by lia. f_equal. lia.
Qed.

Lemma same_bytes_drop d E n rest :
  0 <= d -> n <= len E -> same_bytes d E n (drop (Z.to_nat d) (take (Z.to_nat n) E) ++ rest).
Proof.
  intros Hd Hn i Hi. unfold index. rewrite !(proj2 (Z.leb_le _ _)) by lia.
  rewrite lookup_app_l by (rewrite length_drop, length_take; lia).
  rewrite lookup_drop, lookup_take_lt by lia. f_equal. lia.
Qed.

#[export] Instance struct_payload_rt size ver ks :
  0 <= size -> (8 | size) -> 8 + size < 2 ^ 32 -> 0 <= ver < 2 ^ 32 ->
  @PayloadRoundtrip (list scalar) (struct_payload size ver ks) (struct_ok ks).
Proof.
  intros Hs Hs8 Hs32 Hver xs e e' (Hks&Hr&Hnw) He Htz Hst Hh Hrun. cbn [EncodeP struct_payload] in Hrun.
  pose proof He as (Hen&Hd8&_).
  destruct (struct_rt (Encoder.end_ e) size ver xs e e') as [(He'&_&Hend&Hh'&Hst'&Hfr) Hdec];
    [done..|lia|by right|].
  pose proof He' as (Hen'&_). split_and!; [done|congruence|lia|done|].
  eexists. cbn [DecodeP struct_payload]. rewrite <- Hks.
  erewrite bind_run_ok; [|apply Hdec].
  - done.
  - rewrite <- (app_nil_r (drop _ _)). apply same_bytes_drop; lia.
  - simpl. rewrite length_drop, length_take. lia.
  - simpl. lia.
Qed.

(** ** Messages *)
Lemma Data_Ok e bs hs e' :
  Encoder.Data e = (e', Ok (bs, hs)) ->
  e' = e /\ Encoder.stateStack e = [] /\ hs = Encoder.handles e /\
  (enc_inv e -> bs = take (Z.to_nat (Encoder.end_ e)) (Encoder.buf e)).
Proof.
  unfold Encoder.Data. destruct (Encoder.stateStack e) eqn:Hst; [|done]. simpl.
  destruct (slice _ _ _) as [b|] eqn:Hs; [|done]. intros [= <- <- <-]. split_and!; try done.
  intros (?&_). rewrite slice_Some in Hs by lia. injection Hs as <-.
  by rewrite Z.sub_0_r.
Qed.

Lemma tail_zero_new : tail_zero Encoder.NewEncoder.
Proof. intros i Hi. simpl in Hi. lia. Qed.

Lemma message_rt {P} `{PayloadRoundtrip P ok} h p m :
  valid_header h -> ok p -> EncodeMessage h p = Ok m ->
  Header m = h /\ ParseMessage (Bytes m) (Handles m) = Ok m /\ DecodePayload m = Ok p.
Proof.
  intros Hv Hok. unfold EncodeMessage.
  destruct ((Encode h ;;; EncodeP p ;;; Encoder.Data) Encoder.NewEncoder) as [e3 [[bs hs]|x|]] eqn:Hrun; [|done..]. intros Hm.
  apply bind_Ok in Hrun as (e1&[]&H1&Hrun). apply bind_Ok in Hrun as (e2&[]&H2&H3).
  rewrite Encode_struct in H1.
  destruct (valid_header_size h Hv) as (Hsz&Hver&Hir&Hnw).
  destruct (struct_rt 0 (dataSize h) (version h) (header_fields h) Encoder.NewEncoder e1)
    as [(He1&Htz1&Hend1&Hh1&Hst1&_) Hdec]; try done.
  { rewrite Hsz. by destruct (Flags h =? MessageNoFlag). }
  { rewrite Hsz. destruct (Flags h =? MessageNoFlag); [by exists 1|by exists 2]. }
  { rewrite Hsz. by destruct (Flags h =? MessageNoFlag). }
  { lia. }
  { apply Encoder.enc_inv_new. }
  { apply tail_zero_new. }
  { by exists 0. }
  { by left. }
  destruct (payload_rt p e1 e2 Hok He1 Htz1 Hst1 Hh1 H2) as (He2&Hst2&Hle&Hfr&d&Hd).
  apply Data_Ok in H3 as (_&_&->&Hbs). specialize (Hbs He2).
  pose proof He1 as (Hen1&_). pose proof He2 as (Hen2&_). simpl in Hend1, Hen1.
  assert (len bs = Encoder.end_ e2) as Hlb by (subst bs; rewrite length_take; lia).
  assert (dataSize h + dataHeaderSize = Encoder.end_ e1) as Hds by (rewrite Hend1; unfold dataHeaderSize; lia).
  rewrite newMessage_ok in Hm by lia. injection Hm as <-. cbn [Header Bytes Handles PayloadBytes].
  split; [done|]. rewrite Hds in *. split.
  - unfold ParseMessage. erewrite (Decode_struct h _ _ Hv) by
      (apply (Hdec (Decoder.NewDecoder bs [])); [|simpl; lia|done];
       intros i Hi; simpl Decoder.buf; subst bs; rewrite Z.sub_0_r, <- Hfr by lia;
       pose proof (index_drop_take (Encoder.buf e2) 0 (Encoder.end_ e2) i) as Hdt;
       rewrite drop_0, Z.add_0_r in Hdt; symmetry; apply Hdt; lia).
    rewrite newMessage_ok by lia. by rewrite Hds.
  - unfold DecodePayload. cbn [PayloadBytes Handles]. subst bs. by rewrite Hd.
Qed.

(** ** Properties *)

(** C4: a message made by [EncodeMessage] is read back by [ParseMessage] as the
    same message, with the same header, and its payload decodes to the payload,
    for every valid header and every payload type whose codec round-trips. *)
Theorem message_roundtrip {P} (PC : Payload P) ok (PR : PayloadRoundtrip P ok) h p m :
  valid_header h -> ok p -> EncodeMessage h p = Ok m ->
  Header m = h /\ ParseMessage (Bytes m) (Handles m) = Ok m /\ DecodePayload m = Ok p.
Proof. by apply message_rt. Qed.
Lemma message_roundtrip_witness :
  let PC := struct_payload 16 0 [KUint32; KBool; KUint8; KUint64] in
  let h := mkHeader 5 1 77 in
  let p := [SUint32 9; SBool true; SUint8 3; SUint64 12345678901] in
  exists m, EncodeMessage h p = Ok m /\
    Header m = h /\ ParseMessage (Bytes m) (Handles m) = Ok m /\ DecodePayload m = Ok p.
Proof.
  cbv zeta. eexists. split; [vm_compute; reflexivity|].
  apply (message_roundtrip (struct_payload 16 0 [KUint32; KBool; KUint8; KUint64])
           (struct_ok [KUint32; KBool; KUint8; KUint64])).
  - apply struct_payload_rt; [lia|by exists 2|lia|lia].
  - split; [cbn; lia|]. right. cbn. split; [by left|lia].
  - split; [done|]. split; [repeat constructor; cbn; lia|done].
  - vm_compute. reflexivity.
Defined.

(** C15: a struct of scalars encoded at any 8-byte aligned position of a
    well-formed encoder is decoded to the same header and fields from the bytes
    starting at any earlier aligned position [d], whatever follows it, and the
    decoder ends where the encoder ended. Starting from a different position
    needs that no 64-bit field directly follows a bool. *)
Theorem struct_roundtrip d size ver xs e e' rest hs :
  0 <= size -> (8 | size) -> 8 + size < 2 ^ 32 -> 0 <= ver < 2 ^ 32 ->
  Forall in_range xs -> enc_inv e -> tail_zero e ->
  encode_struct size ver xs e = (e', Ok tt) ->
  (8 | d) -> 0 <= d <= Encoder.end_ e -> d = 0 \/ no_word_after_bit false xs ->
  let bytes := drop (Z.to_nat d) (take (Z.to_nat (Encoder.end_ e')) (Encoder.buf e')) ++ rest in
  let dc := Decoder.set_end (Encoder.end_ e - d) (Decoder.NewDecoder bytes hs) in
  decode_struct (map kind_of xs) dc =
    (Decoder.set_end (Encoder.end_ e' - d) dc, Ok (mkDataHeader (8 + size) ver, xs)).
Proof.
  intros Hs Hs8 Hs32 Hver Hr He Htz Hrun Hd8 Hd Hnw bytes dc.
  destruct (struct_rt d size ver xs e e') as [(He'&_&Hend&_) Hdec]; try done; [lia|].
  destruct He' as (Hen'&_). apply Hdec; [|simpl|done].
  - apply same_bytes_drop; lia.
  - unfold bytes. rewrite length_app, length_drop, length_take. lia.
Qed.
Lemma struct_roundtrip_witness :
  let xs := [SUint8 7; SBool true; SBool false; SUint16 513] in
  let e' := (encode_struct 8 2 xs Encoder.NewEncoder).1 in
  let bytes := drop (Z.to_nat 0) (take (Z.to_nat (Encoder.end_ e')) (Encoder.buf e')) ++ [1] in
  let dc := Decoder.set_end 0 (Decoder.NewDecoder bytes []) in
  decode_struct (map kind_of xs) dc =
    (Decoder.set_end (Encoder.end_ e' - 0) dc, Ok (mkDataHeader (8 + 8) 2, xs)).
Proof.
  apply (struct_roundtrip 0 8 2 [SUint8 7; SBool true; SBool false; SUint16 513]
           Encoder.NewEncoder (encode_struct 8 2 [SUint8 7; SBool true; SBool false; SUint16 513]
             Encoder.NewEncoder).1 [1] []); try lia; try by exists 0.
  - by exists 1.
  - repeat constructor; cbn; lia.
  - apply Encoder.enc_inv_new.
  - apply tail_zero_new.
  - vm_compute. reflexivity.
  - simpl. lia.
Defined.
