(* ===== verification/Tokens.v ===== *)
(** * Source text and tokens: compiler/lexer/tokens.go

    Go strings are lists of bytes. [DecodeRuneInString] is the function of the
    [unicode/utf8] package that the lexer and the error messages use; the rest
    of the file is tokens.go. *)
From Stdlib Require Export Ascii.
From stdpp Require Export pretty.
From S2P Require Export Prelude.

(** ** Bytes, runes and UTF-8 *)
Definition chr (a : ascii) : Z := Z.of_N (N_of_ascii a).
Arguments chr a%_char_scope.
Fixpoint bytes_of (s : string) : list Z :=
  match s with
  | EmptyString => []
  | String a s => chr a :: bytes_of s
  end.
Arguments bytes_of s%_string_scope.

Definition newline : Z := chr "010".
Definition quote : Z := chr "034".

Definition RuneError : Z := 0xFFFD.

(** A rune of the source with the number of bytes it takes. *)
Abbreviation rune := (Z * nat)%type.

Definition between (lo hi b : Z) : bool := (lo <=? b) && (b <=? hi).

(** The length a leading byte announces and the range of its second byte;
    [None] for a byte that starts no multi-byte sequence. *)
Definition lead (b : Z) : option (nat * Z * Z) :=
  if between 0xC2 0xDF b then Some (2%nat, 0x80, 0xBF)
  else if b =? 0xE0 then Some (3%nat, 0xA0, 0xBF)
  else if b =? 0xED then Some (3%nat, 0x80, 0x9F)
  else if between 0xE1 0xEF b then Some (3%nat, 0x80, 0xBF)
  else if b =? 0xF0 then Some (4%nat, 0x90, 0xBF)
  else if between 0xF1 0xF3 b then Some (4%nat, 0x80, 0xBF)
  else if b =? 0xF4 then Some (4%nat, 0x80, 0x8F)
  else None.

Definition cont (b : Z) : bool := between 0x80 0xBF b.

(** [utf8.DecodeRuneInString]: an invalid sequence is [RuneError] of width 1,
    the empty string [RuneError] of width 0. *)
Definition DecodeRuneInString (s : list Z) : rune :=
  match s with
  | [] => (RuneError, 0%nat)
  | b0 :: s1 =>
    if between 0 0x7F b0 then (b0, 1%nat)
    else
      match lead b0, s1 with
      | Some (2%nat, lo, hi), b1 :: _ =>
        if between lo hi b1 then (Z.land b0 0x1F * 2 ^ 6 + Z.land b1 0x3F, 2%nat)
        else (RuneError, 1%nat)
      | Some (3%nat, lo, hi), b1 :: b2 :: _ =>
        if between lo hi b1 && cont b2
        then (Z.land b0 0x0F * 2 ^ 12 + Z.land b1 0x3F * 2 ^ 6 + Z.land b2 0x3F, 3%nat)
        else (RuneError, 1%nat)
      | Some (4%nat, lo, hi), b1 :: b2 :: b3 :: _ =>
        if between lo hi b1 && cont b2 && cont b3
        then (Z.land b0 0x07 * 2 ^ 18 + Z.land b1 0x3F * 2 ^ 12 + Z.land b2 0x3F * 2 ^ 6
              + Z.land b3 0x3F, 4%nat)
        else (RuneError, 1%nat)
      | _, _ => (RuneError, 1%nat)
      end
  end.

(** ** Token kinds *)
Inductive TokenKind : Type :=
| ErrorIllegalChar | ErrorUnterminatedStringLiteral | ErrorUnterminatedComment
| EOF
| LParen | RParen | LBracket | RBracket | LBrace | RBrace | LAngle | RAngle
| Semi | Comma | Dot | Minus | Plus | Amp | Qstn | Equals | Response
| Name
| Import | Module_ | Struct | Union | Interface | Enum | Const | True_ | False_ | Default
| IntConstDec | IntConstHex | FloatConst | Ordinal | StringLiteral
| SingleLineComment | MultiLineComment
| EmptyLine.
#[export] Instance TokenKind_eq_dec : EqDecision TokenKind.
Proof. solve_decision. Defined.

Definition TokenKind_String (tokenKind : TokenKind) : string :=
  match tokenKind with
  | ErrorIllegalChar => "illegal token"
  | ErrorUnterminatedStringLiteral => "unterminated string literal"
  | ErrorUnterminatedComment => "unterminated comment"
  | EOF => "eof"
  | LParen => "'('" | RParen => "')'"
  | LBracket => "'['" | RBracket => "']'"
  | LBrace => "'{'" | RBrace => "'}'"
  | LAngle => "'<'" | RAngle => "'>'"
  | Semi => "';'" | Comma => "','" | Dot => "'.'" | Minus => "'-'" | Plus => "'+'"
  | Amp => "'&'" | Qstn => "'?'" | Equals => "'='" | Response => "'=>'"
  | Name => "a name"
  | Import => "'import'" | Module_ => "'module'" | Struct => "'struct'"
  | Union => "'union'" | Interface => "'interface'" | Enum => "'enum'"
  | Const => "'const'" | True_ => "'true'" | False_ => "'false'" | Default => "'default'"
  | IntConstDec => "decimal integer literal"
  | IntConstHex => "hex integer literal"
  | FloatConst => "float literal"
  | Ordinal => "an ordinal"
  | StringLiteral => "a string literal"
  | SingleLineComment => "single line comment"
  | MultiLineComment => "multi line comment"
  | EmptyLine => "empty line"
  end.

(** ** Tokens *)
Record Token := mkToken {
  Kind : TokenKind;
  Text : list Z;
  SourcePos : nat;
  LinePos : nat;
  SourcePosBytes : nat;
  LinePosBytes : nat;
  LineNo : nat
}.
#[export] Instance Token_eq_dec : EqDecision Token.
Proof. solve_decision. Defined.

Definition ShortLocationString (t : Token) : string :=
  pretty (LineNo t + 1)%nat +:+ ":" +:+ pretty (LinePos t + 1)%nat.
Definition LongLocationString (t : Token) : string :=
  "line " +:+ pretty (LineNo t + 1)%nat +:+ ", column " +:+ pretty (LinePos t + 1)%nat.
Definition Token_EOF (t : Token) : bool := bool_decide (Kind t = EOF).

(** Panics on another kind of token and on a text without its two quotes. *)
Definition StringLiteralTokenToText (token : Token) : option (list Z) :=
  if negb (bool_decide (Kind token = StringLiteral)) then None
  else
    let text := Text token in
    let length := length text in
    if (length <? 2)%nat || negb (bool_decide (text !! 0%nat = Some quote))
       || negb (bool_decide (text !! (length - 1)%nat = Some quote))
    then None
    else Some (take (length - 2) (drop 1 text)).

(** The zero value of [Token] except for its kind. *)
Definition eofToken : Token := mkToken EOF [] 0 0 0 0 0.

(** The zero value of [lexer.Token]: its kind is the first constant. *)
Definition zeroToken : Token := mkToken ErrorIllegalChar [] 0 0 0 0 0.
