(* ===== verification/Lexer.v ===== *)
(** * The lexer: compiler/lexer/lexer.go

    The state functions of the lexer are the constructors of [stateFn] and
    [call] is the call of one of them.  [run] is the main loop; the tokens
    sent to the channel are the field [tokens], oldest first. *)
From S2P Require Import Prelude.
From S2P Require Export Tokens.

Record lexer := mkLexer {
  source : list Z;
  tokens : list Token;
  sourcePosBytes : nat;
  sourcePos : nat;
  lineNo : nat;
  linePos : nat;
  linePosBytes : nat;
  curTokenSourcePosBytes : nat;
  curTokenSourcePos : nat;
  curTokenLineNo : nat;
  curTokenLinePos : nat;
  curTokenLinePosBytes : nat
}.

Definition new_lexer (src : list Z) : lexer := mkLexer src [] 0 0 0 0 0 0 0 0 0 0.

(** [l.source[a:b]] *)
Definition substr (s : list Z) (a b : nat) : list Z := take (b - a) (drop a s).

Definition CurText (l : lexer) : list Z :=
  substr (source l) (curTokenSourcePosBytes l) (sourcePosBytes l).

Definition beginToken (l : lexer) : lexer :=
  mkLexer (source l) (tokens l) (sourcePosBytes l) (sourcePos l) (lineNo l) (linePos l)
    (linePosBytes l) (sourcePosBytes l) (sourcePos l) (lineNo l) (linePos l) (linePosBytes l).

Definition emitToken (tokenType : TokenKind) (l : lexer) : lexer :=
  let t := mkToken tokenType (substr (source l) (curTokenSourcePosBytes l) (sourcePosBytes l))
             (curTokenSourcePos l) (curTokenLinePos l) (curTokenSourcePosBytes l)
             (curTokenLinePosBytes l) (curTokenLineNo l) in
  beginToken
    (mkLexer (source l) (tokens l ++ [t]) (sourcePosBytes l) (sourcePos l) (lineNo l) (linePos l)
       (linePosBytes l) (curTokenSourcePosBytes l) (curTokenSourcePos l) (curTokenLineNo l)
       (curTokenLinePos l) (curTokenLinePosBytes l)).

Definition IsEos (l : lexer) : bool := (length (source l) <=? sourcePosBytes l)%nat.

Definition Consume (l : lexer) : lexer :=
  if IsEos l then l
  else
    let '(c, width) := DecodeRuneInString (drop (sourcePosBytes l) (source l)) in
    let '(ln, lp, lpb) :=
      if c =? newline then (S (lineNo l), 0%nat, 0%nat)
      else (lineNo l, S (linePos l), (linePosBytes l + width)%nat) in
    mkLexer (source l) (tokens l) (sourcePosBytes l + width) (S (sourcePos l)) ln lp lpb
      (curTokenSourcePosBytes l) (curTokenSourcePos l) (curTokenLineNo l)
      (curTokenLinePos l) (curTokenLinePosBytes l).

Definition Peek (l : lexer) : Z :=
  if IsEos l then RuneError
  else (DecodeRuneInString (drop (sourcePosBytes l) (source l))).1.

(** ** Character classes *)
Definition isSkippable (c : Z) : bool :=
  (c =? chr " ") || (c =? chr "009") || (c =? chr "013") || (c =? newline).

Definition singleCharTokens : list (Z * TokenKind) :=
  [(chr "(", LParen); (chr ")", RParen); (chr "[", LBracket); (chr "]", RBracket);
   (chr "{", LBrace); (chr "}", RBrace); (chr "<", LAngle); (chr ">", RAngle);
   (chr ";", Semi); (chr ",", Comma); (chr ".", Dot); (chr "-", Minus); (chr "+", Plus);
   (chr "&", Amp); (chr "?", Qstn)].
Definition lookup_rune (c : Z) (m : list (Z * TokenKind)) : option TokenKind :=
  snd <$> find (fun p => p.1 =? c) m.
Definition isSingleCharTokens (c : Z) : bool :=
  bool_decide (is_Some (lookup_rune c singleCharTokens)).
Definition isEqualsOrResponseStart (c : Z) : bool := c =? chr "=".
Definition isAlpha (c : Z) : bool :=
  ((chr "a" <=? c) && (c <=? chr "z")) || ((chr "A" <=? c) && (c <=? chr "Z")).
Definition isDigit (c : Z) : bool := (chr "0" <=? c) && (c <=? chr "9").
Definition isHexDigit (c : Z) : bool :=
  isDigit c || ((chr "a" <=? c) && (c <=? chr "f")) || ((chr "A" <=? c) && (c <=? chr "F")).
Definition isNameStart (c : Z) : bool := isAlpha c || (c =? chr "_").
Definition isNameRune (c : Z) : bool := isAlpha c || isDigit c || (c =? chr "_").
Definition isOrdinalStart (c : Z) : bool := chr "@" =? c.
Definition isNumberStart (c : Z) : bool := isDigit c.
Definition isStringStart (c : Z) : bool := quote =? c.
Definition isMaybeComment (c : Z) : bool := c =? chr "/".

Definition keywordTokens : list (list Z * TokenKind) :=
  [(bytes_of "import", Import); (bytes_of "module", Module_); (bytes_of "struct", Struct);
   (bytes_of "union", Union); (bytes_of "interface", Interface); (bytes_of "enum", Enum);
   (bytes_of "const", Const); (bytes_of "true", True_); (bytes_of "false", False_);
   (bytes_of "default", Default)].
Definition keyword (text : list Z) : option TokenKind :=
  snd <$> find (fun p => bool_decide (p.1 = text)) keywordTokens.

(** ** Loops

    The unread bytes bound every loop of the lexer: a loop body consumes at
    least one rune, and every loop stops at the end of the source. *)
Definition rem (l : lexer) : nat := length (source l) - sourcePosBytes l.

(** [for cond(l) { body(l) }] *)
Fixpoint while (fuel : nat) (cond : lexer -> bool) (body : lexer -> lexer) (l : lexer) : lexer :=
  match fuel with
  | O => l
  | S fuel => if cond l then while fuel cond body (body l) else l
  end.
Definition loop (cond : lexer -> bool) (body : lexer -> lexer) (l : lexer) : lexer :=
  while (S (rem l)) cond body l.
Definition consume_while (p : Z -> bool) : lexer -> lexer := loop (fun l => p (Peek l)) Consume.

(** ** The state functions *)
Inductive stateFn : Type :=
| LexRoot | LexSkip | LexSingleCharTokens | LexEqualsOrResponse | LexName | LexOrdinal
| LexNumber | LexDec | LexNumberStartWithZero | LexHexNumber | LexFractionPart
| LexExponentPart | LexString | LexComment | LexSingleLineComment | LexMultiLineComment
| LexPossibleEndOfComment.

Definition lexRoot (l : lexer) : option stateFn * lexer :=
  if IsEos l then (None, l)
  else
    let c := Peek l in
    if isSingleCharTokens c then (Some LexSingleCharTokens, l)
    else if isEqualsOrResponseStart c then (Some LexEqualsOrResponse, l)
    else if isNameStart c then (Some LexName, l)
    else if isOrdinalStart c then (Some LexOrdinal, l)
    else if isNumberStart c then (Some LexNumber, l)
    else if isStringStart c then (Some LexString, l)
    else if isSkippable c then (Some LexSkip, l)
    else if isMaybeComment c then (Some LexComment, l)
    else (None, emitToken ErrorIllegalChar (Consume l)).

Definition lexSkip (l : lexer) : option stateFn * lexer :=
  let l := loop (fun l => isSkippable (Peek l))
             (fun l =>
                let l := beginToken l in
                let l := if (Peek l =? newline) && (linePos l =? 0)%nat
                         then emitToken EmptyLine l else l in
                Consume l) l in
  (Some LexRoot, beginToken l).

(** The map lookup of a missing key gives the zero [TokenKind]. *)
Definition lexSingleCharTokens (l : lexer) : option stateFn * lexer :=
  let c := Peek l in
  let l := Consume l in
  let t := default ErrorIllegalChar (lookup_rune c singleCharTokens) in
  (Some LexRoot, emitToken t l).

Definition lexEqualsOrResponse (l : lexer) : option stateFn * lexer :=
  let l := Consume l in
  if Peek l =? chr ">" then (Some LexRoot, emitToken Response (Consume l))
  else (Some LexRoot, emitToken Equals l).

Definition lexName (l : lexer) : option stateFn * lexer :=
  let l := Consume l in
  let l := consume_while isNameRune l in
  match keyword (CurText l) with
  | Some token => (Some LexRoot, emitToken token l)
  | None => (Some LexRoot, emitToken Name l)
  end.

Definition lexOrdinal (l : lexer) : option stateFn * lexer :=
  let l := Consume l in
  let l := consume_while isDigit l in
  (Some LexRoot, emitToken Ordinal l).

Definition lexNumber (l : lexer) : option stateFn * lexer :=
  if Peek l =? chr "0" then (Some LexNumberStartWithZero, l) else (Some LexDec, l).

Definition lexDec (l : lexer) : option stateFn * lexer :=
  let l := consume_while isDigit l in
  let c := Peek l in
  if (c =? chr "e") || (c =? chr "E") then (Some LexExponentPart, l)
  else if c =? chr "." then (Some LexFractionPart, l)
  else (Some LexRoot, emitToken IntConstDec l).

Definition lexNumberStartWithZero (l : lexer) : option stateFn * lexer :=
  let l := Consume l in
  let c := Peek l in
  if (c =? chr "x") || (c =? chr "X") then (Some LexHexNumber, l)
  else if c =? chr "." then (Some LexFractionPart, l)
  else if (c =? chr "e") || (c =? chr "E") then (Some LexExponentPart, l)
  else (Some LexRoot, emitToken IntConstDec l).

Definition lexHexNumber (l : lexer) : option stateFn * lexer :=
  let l := Consume l in
  let l := consume_while isHexDigit l in
  (Some LexRoot, emitToken IntConstHex l).

Definition lexFractionPart (l : lexer) : option stateFn * lexer :=
  let l := Consume l in
  let l := consume_while isDigit l in
  let c := Peek l in
  if (c =? chr "e") || (c =? chr "E") then (Some LexExponentPart, l)
  else (Some LexRoot, emitToken FloatConst l).

Definition lexExponentPart (l : lexer) : option stateFn * lexer :=
  let l := Consume l in
  let c := Peek l in
  let l := if (c =? chr "+") || (c =? chr "-") then Consume l else l in
  let l := consume_while isDigit l in
  (Some LexRoot, emitToken FloatConst l).

Definition lexString (l : lexer) : option stateFn * lexer :=
  let l := Consume l in
  let l := loop (fun l => negb (IsEos l) && negb (Peek l =? quote) && negb (Peek l =? newline))
             (fun l => let l := if Peek l =? chr "\" then Consume l else l in Consume l) l in
  if IsEos l || (Peek l =? newline)
  then (None, emitToken ErrorUnterminatedStringLiteral l)
  else
    let l := Consume l in
    (Some LexRoot, emitToken StringLiteral l).

Definition lexComment (l : lexer) : option stateFn * lexer :=
  let l := Consume l in
  if Peek l =? chr "/" then (Some LexSingleLineComment, l)
  else if Peek l =? chr "*" then (Some LexMultiLineComment, l)
  else (None, emitToken ErrorIllegalChar l).

Definition lexSingleLineComment (l : lexer) : option stateFn * lexer :=
  let l := Consume l in
  let l := loop (fun l => negb (IsEos l) && negb (Peek l =? newline)) Consume l in
  (Some LexRoot, emitToken SingleLineComment l).

(** The loop leaves the function at the first star. *)
Definition lexMultiLineComment (l : lexer) : option stateFn * lexer :=
  let l := Consume l in
  let l := loop (fun l => negb (IsEos l) && negb (Peek l =? chr "*")) Consume l in
  if negb (IsEos l) then (Some LexPossibleEndOfComment, l)
  else (None, emitToken ErrorUnterminatedComment l).

Definition lexPossibleEndOfComment (l : lexer) : option stateFn * lexer :=
  let l := Consume l in
  if IsEos l then (None, emitToken ErrorUnterminatedComment l)
  else if Peek l =? chr "/" then (Some LexRoot, emitToken MultiLineComment (Consume l))
  else (Some LexMultiLineComment, l).

Definition call (state : stateFn) : lexer -> option stateFn * lexer :=
  match state with
  | LexRoot => lexRoot
  | LexSkip => lexSkip
  | LexSingleCharTokens => lexSingleCharTokens
  | LexEqualsOrResponse => lexEqualsOrResponse
  | LexName => lexName
  | LexOrdinal => lexOrdinal
  | LexNumber => lexNumber
  | LexDec => lexDec
  | LexNumberStartWithZero => lexNumberStartWithZero
  | LexHexNumber => lexHexNumber
  | LexFractionPart => lexFractionPart
  | LexExponentPart => lexExponentPart
  | LexString => lexString
  | LexComment => lexComment
  | LexSingleLineComment => lexSingleLineComment
  | LexMultiLineComment => lexMultiLineComment
  | LexPossibleEndOfComment => lexPossibleEndOfComment
  end.

(** [for state := lexRoot; state != nil; { state = state(l) }]; [None] when
    the fuel does not suffice. *)
Fixpoint run (fuel : nat) (state : option stateFn) (l : lexer) : option lexer :=
  match state with
  | None => Some l
  | Some s =>
    match fuel with
    | O => None
    | S fuel => let '(state', l') := call s l in run fuel state' l'
    end
  end.

(** Every state function consumes a rune, or moves to a state of lower rank
    without consuming (see [call_measure]): four calls per byte are enough. *)
Definition run_fuel (l : lexer) : nat := 4 * rem l + 4.
Definition tokenizeUnfiltered (src : list Z) : option (list Token) :=
  tokens <$> run (run_fuel (new_lexer src)) (Some LexRoot) (new_lexer src).
