(* ===== verification/LexerShape.v ===== *)
(** * The forms of tokens

    [shape] says which runes may make up a token of each kind, and [ends] that a
    token ends where it must: nothing longer that the source has there is a token,
    or, for an error, nothing that the source has there is one.  An automaton that
    reads all tokens at once shows both. *)
From S2P Require Import Prelude.
From S2P Require Export Lexer.

(** ** The shape of each kind of token *)
Definition all (p : Z -> bool) (cs : list Z) : Prop := Forall (fun c => p c = true) cs.

Definition dec_int (cs : list Z) : Prop :=
  cs = [chr "0"] \/ all isDigit cs /\ cs <> [] /\ head cs <> Some (chr "0").
Definition fraction (cs : list Z) : Prop := exists ds, cs = chr "." :: ds /\ all isDigit ds.
Definition exponent (cs : list Z) : Prop :=
  exists c s ds, cs = c :: s ++ ds /\ (c = chr "e" \/ c = chr "E") /\
    (s = [] \/ s = [chr "+"] \/ s = [chr "-"]) /\ all isDigit ds.

(** What may stand between the quotes: no quote or newline, except after a
    backslash, which takes whatever follows it. *)
Inductive string_body : list Z -> Prop :=
| body_nil : string_body []
| body_rune cs c : string_body cs -> c <> quote -> c <> newline -> c <> chr "\" ->
    string_body (cs ++ [c])
| body_escape cs c : string_body cs -> string_body (cs ++ [chr "\"; c]).

(** What may stand between the slash and star and the star and slash: the rune
    after a star is consumed with it, unless it is a slash. *)
Inductive comment_body : list Z -> Prop :=
| comment_nil : comment_body []
| comment_rune cs c : comment_body cs -> c <> chr "*" -> comment_body (cs ++ [c])
| comment_star cs c : comment_body cs -> c <> chr "/" -> comment_body (cs ++ [chr "*"; c]).

Definition shape (k : TokenKind) (cs : list Z) : Prop :=
  match k with
  | EOF => False
  | LParen | RParen | LBracket | RBracket | LBrace | RBrace | LAngle | RAngle
  | Semi | Comma | Dot | Minus | Plus | Amp | Qstn =>
    exists c, cs = [c] /\ lookup_rune c singleCharTokens = Some k
  | Equals => cs = [chr "="]
  | Response => cs = [chr "="; chr ">"]
  | Name => exists c ds, cs = c :: ds /\ isNameStart c = true /\ all isNameRune ds /\ keyword cs = None
  | Import | Module_ | Struct | Union | Interface | Enum | Const | True_ | False_ | Default =>
    keyword cs = Some k
  | IntConstDec => dec_int cs
  | IntConstHex => exists x ds, cs = chr "0" :: x :: ds /\ (x = chr "x" \/ x = chr "X") /\ all isHexDigit ds
  | FloatConst => exists i f, dec_int i /\
      (cs = i ++ f /\ (fraction f \/ exponent f) \/
       exists e, cs = i ++ f ++ e /\ fraction f /\ exponent e)
  | Ordinal => exists ds, cs = chr "@" :: ds /\ all isDigit ds
  | StringLiteral => exists body, cs = quote :: body ++ [quote] /\ string_body body
  | SingleLineComment => exists body, cs = chr "/" :: chr "/" :: body /\ Forall (.≠ newline) body
  | MultiLineComment => exists body, cs = [chr "/"; chr "*"] ++ body ++ [chr "*"; chr "/"] /\ comment_body body
  | EmptyLine => cs = []
  | ErrorIllegalChar => exists c, cs = [c] /\ isSkippable c = false
  | ErrorUnterminatedStringLiteral => exists body esc, cs = quote :: body ++ esc /\ string_body body /\
      (esc = [] \/ esc = [chr "\"])
  | ErrorUnterminatedComment => exists body star, cs = [chr "/"; chr "*"] ++ body ++ star /\
      comment_body body /\ (star = [] \/ star = [chr "*"])
  end.

Definition is_error (k : TokenKind) : bool :=
  match k with
  | ErrorIllegalChar | ErrorUnterminatedStringLiteral | ErrorUnterminatedComment => true
  | _ => false
  end.

(** What follows is [next], the rune after [cs] if there is one. *)
Definition longest (cs : list Z) (next : option Z) : Prop :=
  forall k ds, is_error k = false -> ds <> [] -> head ds = next -> ~ shape k (cs ++ ds).
Definition no_token (cs : list Z) (next : option Z) : Prop :=
  forall k ds, is_error k = false -> head ds = next -> ~ shape k (cs ++ ds).
Definition ends (k : TokenKind) (cs : list Z) (next : option Z) : Prop :=
  match k with
  | EmptyLine => next = Some newline
  | _ => if is_error k then no_token cs next else longest cs next
  end.

(** ** The automaton *)
Inductive munch :=
| MStart | MEquals | MName | MOrdinal | MZero | MDec | MHex | MFrac | MExp | MExpDigits
| MString | MEscape | MSlash | MLine | MBlock | MStar | MEnd.

Definition when (b : bool) (st : munch) : option munch := if b then Some st else None.
Definition is_exp (c : Z) : bool := (c =? chr "e") || (c =? chr "E").

Definition delta (st : munch) (c : Z) : option munch :=
  match st with
  | MStart =>
      if isSingleCharTokens c then Some MEnd
      else if c =? chr "=" then Some MEquals
      else if isNameStart c then Some MName
      else if c =? chr "@" then Some MOrdinal
      else if c =? chr "0" then Some MZero
      else if isDigit c then Some MDec
      else if c =? quote then Some MString
      else when (c =? chr "/") MSlash
  | MEquals => when (c =? chr ">") MEnd
  | MName => when (isNameRune c) MName
  | MOrdinal => when (isDigit c) MOrdinal
  | MZero => if (c =? chr "x") || (c =? chr "X") then Some MHex
             else if c =? chr "." then Some MFrac else when (is_exp c) MExp
  | MDec => if isDigit c then Some MDec else if c =? chr "." then Some MFrac else when (is_exp c) MExp
  | MHex => when (isHexDigit c) MHex
  | MFrac => if isDigit c then Some MFrac else when (is_exp c) MExp
  | MExp => when ((c =? chr "+") || (c =? chr "-") || isDigit c) MExpDigits
  | MExpDigits => when (isDigit c) MExpDigits
  | MString => if c =? quote then Some MEnd else if c =? newline then None
               else if c =? chr "\" then Some MEscape else Some MString
  | MEscape => Some MString
  | MSlash => if c =? chr "/" then Some MLine else when (c =? chr "*") MBlock
  | MLine => when (negb (c =? newline)) MLine
  | MBlock => if c =? chr "*" then Some MStar else Some MBlock
  | MStar => if c =? chr "/" then Some MEnd else Some MBlock
  | MEnd => None
  end.

(** The states in which a token may end. *)
Definition accepts (st : munch) : bool :=
  match st with MStart | MString | MEscape | MSlash | MBlock | MStar => false | _ => true end.

Definition munch_from (st : munch) (cs : list Z) : option munch :=
  foldl (fun st c => st ← st; delta st c) (Some st) cs.

Lemma munch_app st cs ds :
  munch_from st (cs ++ ds) = (st' ← munch_from st cs; munch_from st' ds).
Proof.
  unfold munch_from. rewrite foldl_app. destruct (foldl _ _ cs); simpl; [done|].
  by induction ds.
Qed.
Lemma munch_one st c : munch_from st [c] = delta st c.
Proof. done. Qed.
Lemma munch_cons st c cs : munch_from st (c :: cs) = (st' ← delta st c; munch_from st' cs).
Proof. exact (munch_app st [c] cs). Qed.

(** A run of runes of one class stays in the state of the class. *)
Lemma munch_loop st p cs : (forall c, p c = true -> delta st c = Some st) -> all p cs -> munch_from st cs = Some st.
Proof.
  intros Hp. induction 1 as [|c cs Hc _ IH]; [done|]. by rewrite munch_cons, Hp.
Qed.

Lemma munch_digits st ds :
  match st with MDec | MOrdinal | MFrac | MExpDigits => True | _ => False end ->
  all isDigit ds -> munch_from st ds = Some st.
Proof. intros Hst. apply munch_loop. intros c Hc. by destruct st; simpl; rewrite ?Hc. Qed.

(** The classes of runes at which a token can start are disjoint. *)
Ltac runes :=
  unfold isSingleCharTokens, is_exp, isNameStart, isNameRune, isHexDigit, isAlpha, isDigit, isSkippable, newline, quote in *;
  repeat match goal with |- context [chr ?s] => let v := eval vm_compute in (chr s) in change (chr s) with v in * end;
  repeat match goal with H : context [chr ?s] |- _ => let v := eval vm_compute in (chr s) in change (chr s) with v in * end.

Lemma not_single c k : lookup_rune c singleCharTokens = Some k -> isSingleCharTokens c = true.
Proof. unfold isSingleCharTokens. intros ->. by apply bool_decide_eq_true. Qed.
Lemma single_punctuation c :
  isSingleCharTokens c = true ->
  isNameStart c = false /\ isDigit c = false /\ c <> chr "=" /\ c <> chr "@" /\ c <> quote /\ c <> chr "/".
Proof.
  unfold isSingleCharTokens. intros [k Hk]%bool_decide_eq_true. unfold lookup_rune in Hk.
  destruct (find _ _) as [p|] eqn:Hf; [|done]. apply find_some in Hf as [Hin Hc].
  apply Z.eqb_eq in Hc. subst c. simpl in Hin.
  repeat destruct Hin as [<-|Hin]; try done; vm_compute; split_and!; done.
Qed.

Lemma delta_start_name c : isNameStart c = true -> delta MStart c = Some MName.
Proof.
  intros Hc. simpl. destruct (isSingleCharTokens c) eqn:E; [apply single_punctuation in E as (E&_); congruence|].
  destruct (Z.eqb_spec c (chr "=")) as [->|]; [done|]. by rewrite Hc.
Qed.
Lemma delta_start_digit c : isDigit c = true -> c <> chr "0" -> delta MStart c = Some MDec.
Proof.
  intros Hc H0. simpl. destruct (isSingleCharTokens c) eqn:E; [apply single_punctuation in E as (_&E&_); congruence|].
  destruct (Z.eqb_spec c (chr "=")) as [->|]; [done|].
  destruct (isNameStart c) eqn:E2; [revert Hc E2; runes; lia|].
  destruct (Z.eqb_spec c (chr "@")) as [->|]; [done|].
  destruct (Z.eqb_spec c (chr "0")) as [->|]; [done|]. by rewrite Hc.
Qed.

Lemma name_start_rune c : isNameStart c = true -> isNameRune c = true.
Proof. unfold isNameStart, isNameRune. destruct (isAlpha c), (isDigit c), (c =? _); done. Qed.

Lemma munch_name c ds : isNameStart c = true -> all isNameRune ds -> munch_from MStart (c :: ds) = Some MName.
Proof.
  intros Hc Hds. rewrite munch_cons, delta_start_name by done. simpl.
  apply (munch_loop _ isNameRune); [|done]. intros d Hd. simpl. by rewrite Hd.
Qed.

Lemma munch_dec cs :
  all isDigit cs -> cs <> [] -> head cs <> Some (chr "0") -> munch_from MStart cs = Some MDec.
Proof.
  intros Hall Hne Hhd. destruct cs as [|c cs]; [done|]. apply Forall_cons in Hall as [Hc Hall].
  rewrite munch_cons, delta_start_digit; [by apply munch_digits|done|]. intros ->. by apply Hhd.
Qed.
Lemma munch_dec_int cs : dec_int cs -> munch_from MStart cs = Some MZero \/ munch_from MStart cs = Some MDec.
Proof. intros [->|(Hall&Hne&Hhd)]; [by left|right; by apply munch_dec]. Qed.

Lemma munch_fraction st f : st = MZero \/ st = MDec -> fraction f -> munch_from st f = Some MFrac.
Proof. intros [->| ->] (ds&->&Hds); rewrite munch_cons; by apply munch_digits. Qed.

Lemma munch_fixed i f : dec_int i -> fraction f -> munch_from MStart (i ++ f) = Some MFrac.
Proof.
  intros Hi Hf. rewrite munch_app. destruct (munch_dec_int i Hi) as [-> | ->]; apply munch_fraction; auto.
Qed.
Lemma munch_hex x ds :
  x = chr "x" \/ x = chr "X" -> all isHexDigit ds -> munch_from MStart (chr "0" :: x :: ds) = Some MHex.
Proof.
  intros Hx Hds. destruct Hx as [->| ->]; change (munch_from MHex ds = Some MHex);
    (apply (munch_loop _ isHexDigit); [intros d Hd; simpl; by rewrite Hd|done]).
Qed.

Lemma munch_exponent st e :
  st = MZero \/ st = MDec \/ st = MFrac -> exponent e ->
  munch_from st e = Some MExp /\ (exists c, e = [c]) \/ munch_from st e = Some MExpDigits.
Proof.
  intros Hst (c&s&ds&->&Hc&Hs&Hds).
  assert (delta st c = Some MExp) as Hd.
  { destruct Hst as [->|[->| ->]], Hc as [->| ->]; done. }
  rewrite munch_cons, Hd. simpl. destruct Hs as [->|[->| ->]]; simpl.
  - destruct ds as [|d ds]; [left; eauto|]. right. apply Forall_cons in Hds as [Hd' Hds].
    rewrite munch_cons. simpl. rewrite Hd', orb_true_r. simpl. by apply munch_digits.
  - right. rewrite munch_cons. by apply munch_digits.
  - right. rewrite munch_cons. by apply munch_digits.
Qed.

Lemma munch_string_body body : string_body body -> munch_from MString body = Some MString.
Proof.
  induction 1 as [|cs c _ IH Hq Hn Hb|cs c _ IH]; [done| |].
  - rewrite munch_app, IH. simpl. rewrite munch_one. simpl.
    by rewrite (proj2 (Z.eqb_neq _ _) Hq), (proj2 (Z.eqb_neq _ _) Hn), (proj2 (Z.eqb_neq _ _) Hb).
  - by rewrite munch_app, IH.
Qed.
Lemma munch_comment_body body : comment_body body -> munch_from MBlock body = Some MBlock.
Proof.
  induction 1 as [|cs c _ IH Hc|cs c _ IH Hc]; [done| |]; rewrite munch_app, IH; simpl.
  - rewrite munch_one. simpl. by rewrite (proj2 (Z.eqb_neq _ _) Hc).
  - rewrite munch_cons. simpl. rewrite munch_one. simpl. by rewrite (proj2 (Z.eqb_neq _ _) Hc).
Qed.

Lemma munch_line body :
  Forall (.≠ newline) body -> munch_from MStart (chr "/" :: chr "/" :: body) = Some MLine.
Proof.
  intros Hb. apply (munch_loop MLine (fun c => negb (c =? newline))); [intros c Hc; simpl; by rewrite Hc|].
  eapply Forall_impl; [exact Hb|]. intros c Hc. simpl. by apply negb_true_iff, Z.eqb_neq.
Qed.

(** The automaton accepts every token. *)
Lemma shape_munch k cs :
  is_error k = false -> k <> EmptyLine -> shape k cs ->
  exists st, munch_from MStart cs = Some st /\ accepts st = true.
Proof.
  intros Hk Hne Hs.
  assert (forall k, keyword cs = Some k -> munch_from MStart cs = Some MName) as Hkw.
  { unfold keyword. intros k' Hf. destruct (find _ _) as [p|] eqn:Hp; [|done].
    apply find_some in Hp as [Hin He]. apply bool_decide_eq_true in He. subst cs.
    simpl in Hin. repeat destruct Hin as [<-|Hin]; try done; by vm_compute. }
  destruct k; try done; simpl in Hs;
    try (destruct Hs as (c&->&Hc); apply not_single in Hc; exists MEnd; rewrite munch_one; simpl; by rewrite Hc);
    try (by eapply Hkw in Hs; exists MName);
    try (by subst cs; eexists).
  - destruct Hs as (c&ds&->&Hc&Hds&_). exists MName. by rewrite munch_name.
  - destruct (munch_dec_int _ Hs); by eexists.
  - destruct Hs as (x&ds&->&Hx&Hds). exists MHex. split; [|done]. by apply munch_hex.
  - destruct Hs as (i&f&Hi&Hf). apply munch_dec_int in Hi.
    assert (exists st, munch_from MStart i = Some st /\ (st = MZero \/ st = MDec)) as (st&Hst&Hz)
      by (destruct Hi; eauto). clear Hi.
    destruct Hf as [[-> [Hf|Hf]]|(e&->&Hf&He)]; rewrite munch_app, Hst; simpl.
    + rewrite munch_fraction by done. by eexists.
    + destruct (munch_exponent st f) as [[H _]|H]; [tauto|done|by eexists|by eexists].
    + rewrite munch_app, (munch_fraction st f) by done. simpl.
      destruct (munch_exponent MFrac e) as [[H _]|H]; [tauto|done|by eexists|by eexists].
  - destruct Hs as (ds&->&Hds). exists MOrdinal. split; [|done]. rewrite munch_cons. by apply munch_digits.
  - destruct Hs as (body&->&Hb). exists MEnd. split; [|done].
    change (munch_from MString (body ++ [quote]) = Some MEnd). by rewrite munch_app, munch_string_body.
  - destruct Hs as (body&->&Hb). exists MLine. split; [|done]. by apply munch_line.
  - destruct Hs as (body&->&Hb). exists MEnd. split; [|done].
    change (munch_from MBlock (body ++ [chr "*"; chr "/"]) = Some MEnd). by rewrite munch_app, munch_comment_body.
Qed.

Lemma munch_stuck st cs ds k next :
  munch_from MStart cs = Some st -> next ≫= delta st = None ->
  is_error k = false -> ds <> [] -> head ds = next -> ~ shape k (cs ++ ds).
Proof.
  intros Hst Hn Hk Hds Hhd Hs. destruct ds as [|d ds]; [done|]. simpl in Hhd. subst next. simpl in Hn.
  destruct (decide (k = EmptyLine)) as [->|Hne]; [by apply app_eq_nil in Hs as [_ ?]|].
  destruct (shape_munch k _ Hk Hne Hs) as (st'&Hst'&_).
  rewrite munch_app, Hst in Hst'. cbn [mbind option_bind] in Hst'. by rewrite munch_cons, Hn in Hst'.
Qed.

(** A token is as long as possible where the automaton cannot read on, and there is
    no token where it has not come to its end either. *)
Lemma munch_longest st cs next :
  munch_from MStart cs = Some st -> next ≫= delta st = None -> longest cs next.
Proof. intros Hst Hn k ds Hk Hds Hhd. by eapply munch_stuck. Qed.

Lemma munch_no_token st cs next :
  munch_from MStart cs = Some st -> next ≫= delta st = None -> accepts st = false -> cs <> [] -> no_token cs next.
Proof.
  intros Hst Hn Ha Hcs k ds Hk Hhd Hs. destruct ds as [|d ds].
  - rewrite app_nil_r in Hs. destruct (decide (k = EmptyLine)) as [->|Hne]; [done|].
    destruct (shape_munch k _ Hk Hne Hs) as (st'&Hst'&Ha'). congruence.
  - by eapply munch_stuck in Hs.
Qed.

Lemma start_no_token c next : delta MStart c = None -> no_token [c] next.
Proof.
  intros Hd k ds Hk _ Hs. destruct (decide (k = EmptyLine)) as [->|Hne]; [done|].
  destruct (shape_munch k _ Hk Hne Hs) as (st'&Hst'&_). by rewrite munch_app, munch_one, Hd in Hst'.
Qed.
