(* ===== verification/LexerSpec.v ===== *)
(** * Correctness of the lexer

    [tiling] says what a token list must be for a source: the tokens lie one
    after the other, only white space lies between them, each carries the
    position of its first rune, has the shape of its kind and ends where it must
    ([ends]).  The lexer is shown to produce such a list for every source. *)
From S2P Require Import Prelude Lexer.
From S2P Require Export LexerShape.

(** ** Positions *)

(** The runes [rs] are what decoding [src] from its start gives. *)
Fixpoint reads (src : list Z) (rs : list rune) : Prop :=
  match rs with
  | [] => True
  | r :: rs => src <> [] /\ DecodeRuneInString src = r /\ reads (drop r.2 src) rs
  end.
Definition nbytes (rs : list rune) : nat := foldr (fun r n => r.2 + n)%nat 0%nat rs.
Definition lines (rs : list rune) : nat := length (filter (fun r => r.1 = newline) rs).
(** The runes after the last newline. *)
Definition last_line (rs : list rune) : list rune :=
  fold_left (fun acc r => if r.1 =? newline then [] else acc ++ [r]) rs [].

(** The rune at a byte position. *)
Definition next_at (src : list Z) (n : nat) : option Z :=
  if (length src <=? n)%nat then None else Some (DecodeRuneInString (drop n src)).1.
Definition Next (l : lexer) : option Z := if IsEos l then None else Some (Peek l).

Definition token_at (src : list Z) (k : TokenKind) (rs ts : list rune) : Token :=
  mkToken k (substr src (nbytes rs) (nbytes (rs ++ ts))) (length rs) (length (last_line rs))
    (nbytes rs) (nbytes (last_line rs)) (lines rs).

(** A newline at the start of a line is announced by an [EmptyLine]. *)
Definition blank_line (src : list Z) (toks : list Token) (rs : list rune) (r : rune) : Prop :=
  r.1 = newline -> last_line rs = [] -> last toks = Some (token_at src EmptyLine rs []).

Inductive tiling (src : list Z) : list Token -> list rune -> Prop :=
| tile_nil : tiling src [] []
| tile_skip toks rs r :
    tiling src toks rs -> isSkippable r.1 = true -> blank_line src toks rs r ->
    tiling src toks (rs ++ [r])
| tile_token toks rs ts k :
    tiling src toks rs -> shape k (ts.*1) -> ends k (ts.*1) (next_at src (nbytes (rs ++ ts))) ->
    (k = EmptyLine -> last_line rs = []) ->
    tiling src (toks ++ [token_at src k rs ts]) (rs ++ ts).

(** ** Decoding *)
Lemma DecodeRune_width s :
  s <> [] -> (1 <= (DecodeRuneInString s).2 <= length s)%nat.
Proof.
  destruct s as [|b0 s1]; [done|]. intros _. unfold DecodeRuneInString.
  destruct (between 0 0x7F b0); [simpl; lia|].
  destruct (lead b0) as [[[[|[|[|[|[|?]]]]] lo] hi]|]; simpl; try lia;
    destruct s1 as [|b1 [|b2 [|b3 ?]]]; simpl; try lia; case_match; simpl; lia.
Qed.

Lemma nbytes_app rs ts : nbytes (rs ++ ts) = (nbytes rs + nbytes ts)%nat.
Proof. unfold nbytes. rewrite foldr_app. induction rs; simpl; lia. Qed.
Lemma last_line_snoc rs r :
  last_line (rs ++ [r]) = if r.1 =? newline then [] else last_line rs ++ [r].
Proof. unfold last_line. by rewrite fold_left_app. Qed.
Lemma lines_snoc rs r : lines (rs ++ [r]) = if r.1 =? newline then S (lines rs) else lines rs.
Proof.
  unfold lines. rewrite filter_app, length_app. unfold filter at 2. simpl.
  destruct (Z.eqb_spec r.1 newline), (decide (r.1 = newline)); simpl; try done; lia.
Qed.

Lemma reads_snoc src rs r :
  reads src rs -> (nbytes rs < length src)%nat ->
  DecodeRuneInString (drop (nbytes rs) src) = r -> reads src (rs ++ [r]).
Proof.
  revert src. induction rs as [|r0 rs IH]; intros src Hr Hl Hd.
  - simpl in *. split; [by destruct src; [simpl in Hl; lia|]|done].
  - destruct Hr as (Hne&H0&Hr). split_and!; try done. apply IH; [done| |].
    + rewrite length_drop. simpl in Hl. lia.
    + by rewrite drop_drop.
Qed.

(** ** The state of the lexer between two calls of [Consume] *)
Definition pos_is (rs : list rune) (b n ln lp lpb : nat) : Prop :=
  b = nbytes rs /\ n = length rs /\ ln = lines rs /\ lp = length (last_line rs) /\
  lpb = nbytes (last_line rs).

(** [lx src l cs]: the tokens so far tile the part of [src] before the current
    token, of which the runes [cs] have been consumed. *)
Definition lx_at (src : list Z) (l : lexer) (rs ts : list rune) : Prop :=
  source l = src /\ reads src (rs ++ ts) /\ (nbytes (rs ++ ts) <= length src)%nat /\
  pos_is (rs ++ ts) (sourcePosBytes l) (sourcePos l) (lineNo l) (linePos l) (linePosBytes l) /\
  pos_is rs (curTokenSourcePosBytes l) (curTokenSourcePos l) (curTokenLineNo l)
    (curTokenLinePos l) (curTokenLinePosBytes l) /\
  tiling src (tokens l) rs /\ Forall (fun t => is_error (Kind t) = false) (tokens l).
Definition lx (src : list Z) (l : lexer) (cs : list Z) : Prop :=
  exists rs ts, ts.*1 = cs /\ lx_at src l rs ts.

Lemma lx_new src : lx src (new_lexer src) [].
Proof. exists [], []. split; [done|]. split_and!; simpl; try done; try lia; constructor. Qed.

Lemma Next_next_at l : Next l = next_at (source l) (sourcePosBytes l).
Proof. unfold Next, next_at, Peek. by destruct (IsEos l) eqn:E; unfold IsEos in E; rewrite E. Qed.

Lemma next_stuck l st : (IsEos l = false -> delta st (Peek l) = None) -> Next l ≫= delta st = None.
Proof. unfold Next. destruct (IsEos l); [done|]. simpl. auto. Qed.

Lemma peek_not_eos l : Peek l <> RuneError -> IsEos l = false.
Proof. unfold Peek. by destruct (IsEos l). Qed.

Lemma Consume_lx_at src l rs ts :
  lx_at src l rs ts -> IsEos l = false -> exists w, lx_at src (Consume l) rs (ts ++ [(Peek l, w)]).
Proof.
  intros (Hsrc&Hr&Hle&Hp&Hc&Ht&He) Heos. unfold Peek, Consume. rewrite Heos.
  unfold IsEos in Heos. apply Nat.leb_gt in Heos. destruct Hp as (Hb&Hn&Hln&Hlp&Hlpb).
  rewrite Hsrc, Hb in *.
  set (d := DecodeRuneInString (drop (nbytes (rs ++ ts)) src)).
  pose proof (reads_snoc src (rs ++ ts) d Hr Heos eq_refl) as Hr'.
  pose proof (DecodeRune_width (drop (nbytes (rs ++ ts)) src)) as Hw. fold d in Hw.
  rewrite length_drop in Hw.
  assert (drop (nbytes (rs ++ ts)) src <> []) as Hne.
  { intros E. apply (f_equal length) in E. rewrite length_drop in E. simpl in E. lia. }
  specialize (Hw Hne). clearbody d. destruct d as [c w].
  exists w. cbn [fst].
  assert (nbytes (rs ++ ts ++ [(c, w)]) = nbytes (rs ++ ts) + w)%nat as Hnb.
  { rewrite !nbytes_app. simpl. lia. }
  rewrite Hln, Hlp, Hlpb, Hn. unfold lx_at, pos_is.
  simpl in Hw. rewrite (app_assoc rs ts) in Hnb. rewrite !(app_assoc rs ts).
  rewrite !Hnb, lines_snoc, last_line_snoc. cbn [fst].
  destruct (c =? newline); cbn [source tokens sourcePosBytes sourcePos lineNo linePos linePosBytes
    curTokenSourcePosBytes curTokenSourcePos curTokenLineNo curTokenLinePos curTokenLinePosBytes];
    split_and!; try done; try apply Hc; try lia; rewrite ?length_app, ?nbytes_app; simpl; lia.
Qed.

Lemma Consume_lx src l cs :
  lx src l cs -> IsEos l = false -> lx src (Consume l) (cs ++ [Peek l]).
Proof.
  intros (rs&ts&<-&H) He. destruct (Consume_lx_at src l rs ts H He) as [w Hw].
  exists rs, (ts ++ [(Peek l, w)]). by rewrite fmap_app.
Qed.

Lemma tokens_Consume l : tokens (Consume l) = tokens l.
Proof. unfold Consume. by repeat case_match. Qed.

Lemma begin_lx_at src l rs ts :
  lx_at src l rs ts -> tiling src (tokens l) (rs ++ ts) -> lx_at src (beginToken l) (rs ++ ts) [].
Proof. intros (?&?&?&?&?&?&?) ?. unfold lx_at. by rewrite app_nil_r. Qed.

(** Nothing, or one white space rune, is consumed since the last token. *)
Definition lx_skip (src : list Z) (l : lexer) : Prop :=
  exists rs ts, lx_at src l rs ts /\
    (ts = [] \/ exists r, ts = [r] /\ isSkippable r.1 = true /\ blank_line src (tokens l) rs r).

Lemma begin_lx src l : lx_skip src l -> lx src (beginToken l) [].
Proof.
  intros (rs&ts&H&Hts). exists (rs ++ ts), []. split; [done|]. apply begin_lx_at; [done|].
  destruct H as (_&_&_&_&_&Ht&_). destruct Hts as [->|(r&->&Hs&Hb)]; [by rewrite app_nil_r|].
  by apply tile_skip.
Qed.

(** The token list after emitting. *)
Lemma emit_tiling src l rs ts k :
  lx_at src l rs ts -> shape k (ts.*1) -> ends k (ts.*1) (Next l) -> (k = EmptyLine -> last_line rs = []) ->
  tokens (emitToken k l) = tokens l ++ [token_at src k rs ts] /\
  tiling src (tokens l ++ [token_at src k rs ts]) (rs ++ ts).
Proof.
  intros (Hsrc&Hr&Hle&(Hb&Hn&Hln&Hlp&Hlpb)&(Cb&Cn&Cln&Clp&Clpb)&Ht&Hne) Hs Hf He. split.
  - unfold emitToken, token_at. simpl. by rewrite Hsrc, Hb, Cb, Cn, Cln, Clp, Clpb.
  - constructor; [done..| |done]. by rewrite Next_next_at, Hsrc, Hb in Hf.
Qed.

Lemma emit_lx_at src l rs ts k :
  lx_at src l rs ts -> shape k (ts.*1) -> ends k (ts.*1) (Next l) -> (k = EmptyLine -> last_line rs = []) ->
  is_error k = false -> lx_at src (emitToken k l) (rs ++ ts) [].
Proof.
  intros H Hs Hf He Hk. destruct (emit_tiling src l rs ts k H Hs Hf He) as [Htoks Ht].
  destruct H as (Hsrc&Hr&Hle&Hp&Hc&_&Hne).
  unfold lx_at. rewrite app_nil_r, Htoks. simpl. split_and!; try done.
  apply Forall_app. split; [done|]. by constructor.
Qed.

Lemma emit_lx src l cs k :
  lx src l cs -> shape k cs -> ends k cs (Next l) -> is_error k = false -> k <> EmptyLine ->
  lx src (emitToken k l) [].
Proof. intros (rs&ts&<-&H) Hs Hf Hk He. exists (rs ++ ts), []. split; [done|]. by apply emit_lx_at. Qed.

Lemma emit_empty_line src l rs :
  lx_at src l rs [] -> Next l = Some newline -> last_line rs = [] ->
  lx_at src (emitToken EmptyLine l) rs [] /\
  (Peek l = newline -> last_line rs = [] -> last (tokens (emitToken EmptyLine l)) = Some (token_at src EmptyLine rs [])).
Proof.
  intros H Hn Hl. destruct (emit_tiling src l rs [] EmptyLine H eq_refl Hn) as [Htoks _]; [done|].
  split; [|intros _ _; rewrite Htoks; apply last_snoc].
  pose proof (emit_lx_at src l rs [] EmptyLine H eq_refl Hn (fun _ => Hl) eq_refl) as Hl'.
  by rewrite app_nil_r in Hl'.
Qed.

(** ** Progress *)
Lemma rem_Consume l : IsEos l = false -> (rem (Consume l) < rem l)%nat.
Proof.
  intros He. unfold rem, Consume. rewrite He. unfold IsEos in He. apply Nat.leb_gt in He.
  pose proof (DecodeRune_width (drop (sourcePosBytes l) (source l))) as Hw.
  rewrite length_drop in Hw.
  destruct (DecodeRuneInString _) as [c w]. simpl in Hw.
  assert (1 <= w)%nat.
  { apply Hw. intros E. apply (f_equal length) in E. rewrite length_drop in E. simpl in E. lia. }
  destruct (c =? newline); simpl; lia.
Qed.
Lemma rem_Consume_le l : (rem (Consume l) <= rem l)%nat.
Proof.
  destruct (IsEos l) eqn:E; [unfold Consume; by rewrite E|]. pose proof (rem_Consume l E). lia.
Qed.
Lemma rem_emit k l : rem (emitToken k l) = rem l.
Proof. done. Qed.
Lemma rem_begin l : rem (beginToken l) = rem l.
Proof. done. Qed.

(** A loop whose body makes progress ends with its condition false; an
    invariant of the body holds there. *)
Lemma loop_ind (P : lexer -> Prop) cond body l :
  P l -> (forall l, P l -> cond l = true -> P (body l) /\ (rem (body l) < rem l)%nat) ->
  let l' := loop cond body l in
  P l' /\ cond l' = false /\ (rem l' <= rem l)%nat /\ (cond l = true -> (rem l' < rem l)%nat).
Proof.
  intros HP Hbody. unfold loop.
  assert (forall fuel l, P l -> (rem l < fuel)%nat -> let l' := while fuel cond body l in
    P l' /\ cond l' = false /\ (rem l' <= rem l)%nat /\ (cond l = true -> (rem l' < rem l)%nat)) as H.
  { induction fuel as [|fuel IH]; intros l0 HP0 Hf; [lia|]. simpl.
    destruct (cond l0) eqn:Hc; [|by split_and!].
    destruct (Hbody l0 HP0 Hc) as [HP1 Hr]. destruct (IH (body l0) HP1) as (?&?&?&?); [lia|].
    split_and!; try done; [lia|]. intros _. lia. }
  apply H; [done|lia].
Qed.

Lemma consume_while_lx p src l cs :
  p RuneError = false -> lx src l cs ->
  let l' := consume_while p l in
  (exists ds, lx src l' (cs ++ ds) /\ all p ds /\ (p (Peek l) = true -> head ds = Some (Peek l))) /\
  p (Peek l') = false /\ (rem l' <= rem l)%nat /\ (p (Peek l) = true -> (rem l' < rem l)%nat).
Proof.
  intros Hp Hl.
  set (P := fun l' => exists ds, lx src l' (cs ++ ds) /\ all p ds /\
    ((l' = l /\ ds = []) \/ head ds = Some (Peek l))).
  destruct (loop_ind P (fun l => p (Peek l)) Consume l) as ((ds&Hds&Hall&Hhd)&Hex&Hrem&Hprog).
  - exists []. rewrite app_nil_r. split_and!; [done|constructor|by left].
  - intros l1 (ds&Hds&Hall&Hhd) Hc.
    assert (IsEos l1 = false) as He by (apply peek_not_eos; intros E; by rewrite E, Hp in Hc).
    split; [|by apply rem_Consume]. exists (ds ++ [Peek l1]). rewrite app_assoc.
    split_and!; [by apply Consume_lx|by apply Forall_app; repeat constructor|right].
    destruct Hhd as [[-> ->]|Hhd]; [done|]. by destruct ds.
  - split; [|done]. exists ds. split_and!; [done..|]. intros Hpl.
    destruct Hhd as [[Heq ->]|Hhd]; [|done]. change (loop _ Consume l) with (consume_while p l) in *.
    rewrite Heq in Hex. congruence.
Qed.

(** ** One call of a state function *)

(** What holds of the current token and the next rune when a state is entered. *)
Definition pre (src : list Z) (s : stateFn) (l : lexer) : Prop :=
  exists cs, lx src l cs /\
  let c := Peek l in
  match s with
  | LexRoot => cs = []
  | LexSkip => cs = [] /\ isSkippable c = true
  | LexSingleCharTokens => cs = [] /\ isSingleCharTokens c = true
  | LexEqualsOrResponse => cs = [] /\ c = chr "="
  | LexName => cs = [] /\ isNameStart c = true
  | LexOrdinal => cs = [] /\ c = chr "@"
  | LexNumber => cs = [] /\ isDigit c = true
  | LexDec => cs = [] /\ isDigit c = true /\ c <> chr "0"
  | LexNumberStartWithZero => cs = [] /\ c = chr "0"
  | LexHexNumber => cs = [chr "0"] /\ (c = chr "x" \/ c = chr "X")
  | LexFractionPart => dec_int cs /\ c = chr "."
  | LexExponentPart => (c = chr "e" \/ c = chr "E") /\
      (dec_int cs \/ exists i f, cs = i ++ f /\ dec_int i /\ fraction f)
  | LexString => cs = [] /\ c = quote
  | LexComment => cs = [] /\ c = chr "/"
  | LexSingleLineComment => cs = [chr "/"] /\ c = chr "/"
  | LexMultiLineComment => IsEos l = false /\
      (cs = [chr "/"] /\ c = chr "*" \/
       exists body, cs = [chr "/"; chr "*"] ++ body ++ [chr "*"] /\ comment_body body /\ c <> chr "/")
  | LexPossibleEndOfComment => c = chr "*" /\ exists body, cs = [chr "/"; chr "*"] ++ body /\ comment_body body
  end.

Definition final (src : list Z) (l : lexer) : Prop :=
  (lx src l [] /\ IsEos l = true) \/
  exists l0 cs k, lx src l0 cs /\ is_error k = true /\ shape k cs /\
    no_token cs (Next l0) /\ l = emitToken k l0.

Definition rank (s : stateFn) : nat :=
  match s with LexRoot => 3 | LexNumber => 2 | _ => 1 end.
Definition call_measure (s : stateFn) (l : lexer) : nat := 4 * rem l + rank s.

Definition post (src : list Z) (s : stateFn) (l : lexer) (r : option stateFn * lexer) : Prop :=
  match r with
  | (Some s', l') => pre src s' l' /\ (call_measure s' l' < call_measure s l)%nat
  | (None, l') => final src l'
  end.

Section Post.
Context (src : list Z) (s : stateFn) (l : lexer).

Lemma post_goto s' l' : pre src s' l' -> (rem l' < rem l)%nat -> post src s l (Some s', l').
Proof. intros Hp Hr. split; [done|]. unfold call_measure, rank. destruct s, s'; lia. Qed.

Lemma post_emit st k l' cs :
  lx src l' cs -> shape k cs -> munch_from MStart cs = Some st ->
  (IsEos l' = false -> delta st (Peek l') = None) -> is_error k = false ->
  k <> EmptyLine -> (rem l' < rem l)%nat -> post src s l (Some LexRoot, emitToken k l').
Proof.
  intros Hl Hs Hst Hf Hk Hn Hr. apply post_goto; [|done]. exists []. split; [|done].
  eapply emit_lx; try done. destruct k; try done; eapply munch_longest; by eauto using next_stuck.
Qed.

Lemma post_error k l' cs :
  lx src l' cs -> shape k cs -> is_error k = true -> no_token cs (Next l') ->
  post src s l (None, emitToken k l').
Proof. intros. right. by exists l', cs, k. Qed.
End Post.

(** The first rune of a state that is entered on a known rune. *)
Lemma consume_first src l cs c :
  lx src l cs -> Peek l = c -> c <> RuneError ->
  lx src (Consume l) (cs ++ [c]) /\ (rem (Consume l) < rem l)%nat.
Proof.
  intros Hl <- Hc. pose proof (peek_not_eos l Hc). split; [by apply Consume_lx|by apply rem_Consume].
Qed.
Lemma class_ne p c : p RuneError = false -> p c = true -> c <> RuneError.
Proof. by intros H1 H2 ->; rewrite H1 in H2. Qed.

Lemma lexRoot_post src l : pre src LexRoot l -> post src LexRoot l (lexRoot l).
Proof.
  intros (cs&Hl&->). unfold lexRoot. destruct (IsEos l) eqn:He; [by left|].
  assert (forall s', s' <> LexRoot -> pre src s' l -> post src LexRoot l (Some s', l)) as Hgo.
  { intros s' Hs' Hp. split; [done|]. unfold call_measure. destruct s'; simpl; done || lia. }
  destruct (isSingleCharTokens (Peek l)) eqn:E1; [by apply Hgo; [|exists []]|].
  destruct (isEqualsOrResponseStart (Peek l)) eqn:E2;
    [apply Z.eqb_eq in E2; by apply Hgo; [|exists []]|].
  destruct (isNameStart (Peek l)) eqn:E3; [by apply Hgo; [|exists []]|].
  destruct (isOrdinalStart (Peek l)) eqn:E4;
    [apply Z.eqb_eq in E4; by apply Hgo; [|exists []]|].
  destruct (isNumberStart (Peek l)) eqn:E5; [by apply Hgo; [|exists []]|].
  destruct (isStringStart (Peek l)) eqn:E6;
    [apply Z.eqb_eq in E6; by apply Hgo; [|exists []]|].
  destruct (isSkippable (Peek l)) eqn:E7; [by apply Hgo; [|exists []]|].
  destruct (isMaybeComment (Peek l)) eqn:E8;
    [apply Z.eqb_eq in E8; by apply Hgo; [|exists []]|].
  eapply post_error; [by apply Consume_lx|by exists (Peek l)|done|]. apply start_no_token. simpl.
  unfold isEqualsOrResponseStart, isOrdinalStart, isNumberStart, isStringStart, isMaybeComment in *.
  rewrite Z.eqb_sym in E4, E6. rewrite E1, E2, E3, E4, E5, E6, E8. destruct (Z.eqb_spec (Peek l) (chr "0")) as [E|]; [|done].
  by rewrite E in E5.
Qed.

Lemma lexSkip_post src l : pre src LexSkip l -> post src LexSkip l (lexSkip l).
Proof.
  intros (cs&Hl&->&Hc). unfold lexSkip. cbv zeta.
  edestruct (loop_ind (lx_skip src) (fun l => isSkippable (Peek l))) as (Hskip&_&_&Hprog); cycle 2.
  - apply post_goto; [exists []; split; [by eapply begin_lx|done]|].
    rewrite rem_begin. by apply Hprog.
  - destruct Hl as (rs&ts&Hts&Hat). destruct ts; [|done]. exists rs, []. eauto.
  - clear l Hl Hc. intros l Hl Hc.
    pose proof (begin_lx src l Hl) as (rs&ts&Hts&Hb). destruct ts; [|done]. cbv beta zeta.
    change (Peek (beginToken l)) with (Peek l). change (linePos (beginToken l)) with (linePos l).
    set (l1 := if _ && _ then emitToken EmptyLine (beginToken l) else beginToken l).
    assert (lx_at src l1 rs [] /\ (Peek l = newline -> last_line rs = [] ->
      last (tokens l1) = Some (token_at src EmptyLine rs []))) as [H1 Hblank].
    { subst l1. pose proof Hb as (_&_&_&(_&_&_&Hlp&_)&_). rewrite app_nil_r in Hlp.
      change (linePos (beginToken l)) with (linePos l) in Hlp.
      destruct (_ && _) eqn:E.
      - apply andb_prop in E as [E1%Z.eqb_eq E2%Nat.eqb_eq].
        apply (emit_empty_line src _ rs Hb); [|by rewrite E2 in Hlp; destruct (last_line rs)].
        change (Next (beginToken l)) with (Next l). unfold Next. rewrite E1.
        by rewrite (peek_not_eos l) by (by rewrite E1).
      - split; [done|]. intros E1 E2. rewrite E1, Hlp, E2 in E. done. }
    assert (Peek l1 = Peek l /\ rem l1 = rem l) as [HP Hrm] by (subst l1; by destruct (_ && _)).
    clearbody l1. rewrite <- HP in Hc, Hblank.
    assert (IsEos l1 = false) as He by (apply peek_not_eos; by apply (class_ne isSkippable)).
    split; [|rewrite <- Hrm; by apply rem_Consume].
    destruct (Consume_lx_at src l1 rs [] H1 He) as [w Hw].
    exists rs, [(Peek l1, w)]. split; [done|]. right. eexists. split_and!; [done..|].
    unfold blank_line. by rewrite tokens_Consume.
Qed.

Lemma lexSingleCharTokens_post src l :
  pre src LexSingleCharTokens l -> post src LexSingleCharTokens l (lexSingleCharTokens l).
Proof.
  intros (cs&Hl&->&Hc). unfold lexSingleCharTokens. cbv zeta.
  destruct (consume_first src l [] (Peek l) Hl eq_refl) as [H1 Hr];
    [by apply (class_ne isSingleCharTokens)|].
  unfold isSingleCharTokens in Hc. apply bool_decide_eq_true in Hc as [k Hk]. rewrite Hk.
  assert (munch_from MStart [Peek l] = Some MEnd) as Hm.
  { pose proof (not_single _ _ Hk) as E. by rewrite munch_one; simpl; rewrite E. }
  assert (is_error k = false /\ k <> EmptyLine /\ shape k [Peek l]) as (?&?&?); [|by eapply post_emit].
  assert (In k (map snd singleCharTokens)) as Hin.
  { unfold lookup_rune in Hk. destruct (find _ _) as [p|] eqn:Hf; [|done]. injection Hk as <-.
    apply in_map. by apply find_some in Hf as [? _]. }
  simpl in Hin. repeat destruct Hin as [<-|Hin]; try done; split_and!; try done; by exists (Peek l).
Qed.

Lemma lexEqualsOrResponse_post src l :
  pre src LexEqualsOrResponse l -> post src LexEqualsOrResponse l (lexEqualsOrResponse l).
Proof.
  intros (cs&Hl&->&Hc). unfold lexEqualsOrResponse. cbv zeta.
  destruct (consume_first src l [] _ Hl Hc) as [H1 Hr]; [done|].
  destruct (Z.eqb_spec (Peek (Consume l)) (chr ">")) as [E|E].
  - destruct (consume_first src _ _ _ H1 E) as [H2 Hr2]; [done|].
    eapply (post_emit _ _ _ MEnd); try done. lia.
  - eapply (post_emit _ _ _ MEquals); try done. intros _. simpl. by apply Z.eqb_neq in E as ->.
Qed.

(** A rune below 128 is a byte of its own. *)
Lemma land_mod b k : 0 <= k -> Z.land b (Z.ones k) = b mod 2 ^ k.
Proof. apply Z.land_ones. Qed.

Lemma DecodeRune_ascii s :
  s <> [] -> (DecodeRuneInString s).1 < 128 ->
  exists b s', s = b :: s' /\ DecodeRuneInString s = (b, 1%nat).
Proof.
  destruct s as [|b0 s1]; [done|]. intros _ Hr. exists b0, s1. split; [done|].
  revert Hr. unfold DecodeRuneInString, lead, cont, RuneError, between.
  change 0x1F with (Z.ones 5). change 0x3F with (Z.ones 6). change 0x0F with (Z.ones 4).
  change 0x07 with (Z.ones 3).
  intros Hr. repeat (case_match; simplify_eq/=; try lia; try done); rewrite ?land_mod in Hr by lia;
    Z.to_euclidean_division_equations; lia.
Qed.

Lemma ascii_bytes src rs :
  reads src rs -> Forall (fun c => c < 128) (rs.*1) ->
  take (nbytes rs) src = rs.*1 /\ nbytes rs = length rs.
Proof.
  revert src. induction rs as [|r rs IH]; intros src; simpl; [done|].
  intros (Hne&Hd&Hr) [Hc Hall]%Forall_cons. rewrite <- Hd in Hc.
  destruct (DecodeRune_ascii src Hne Hc) as (b&s'&->&Hb). rewrite Hb in Hd. subst r. simpl in *.
  rewrite drop_0 in Hr. destruct (IH s' Hr Hall) as [H1 H2]. rewrite H2 in *. by rewrite H1.
Qed.

Lemma reads_app src rs ts : reads src (rs ++ ts) -> reads src rs /\ reads (drop (nbytes rs) src) ts.
Proof.
  revert src. induction rs as [|r rs IH]; intros src; simpl; [by rewrite drop_0|].
  intros (Hne&Hd&Hr). destruct (IH _ Hr) as [H1 H2]. rewrite drop_drop in H2. done.
Qed.

Lemma CurText_ascii src l cs : lx src l cs -> Forall (fun c => c < 128) cs -> CurText l = cs.
Proof.
  intros (rs&ts&<-&Hsrc&Hr&_&(Hb&_)&(Cb&_)&_) Hall. unfold CurText, substr.
  rewrite Hsrc, Hb, Cb, nbytes_app. apply reads_app in Hr as [_ Hr].
  replace (nbytes rs + nbytes ts - nbytes rs)%nat with (nbytes ts) by lia.
  by destruct (ascii_bytes _ ts Hr Hall).
Qed.

Lemma class_ascii p cs :
  (forall c, p c = true -> c < 128) -> all p cs -> Forall (fun c => c < 128) cs.
Proof. intros Hp Hall. eapply Forall_impl; [exact Hall|]. exact Hp. Qed.
Lemma isNameRune_ascii c : isNameRune c = true -> c < 128.
Proof.
  unfold isNameRune, isAlpha, isDigit. change (chr "z") with 122. change (chr "Z") with 90.
  change (chr "9") with 57. change (chr "_") with 95. lia.
Qed.

(** ** The remaining state functions *)
Lemma lexName_post src l : pre src LexName l -> post src LexName l (lexName l).
Proof.
  intros (cs&Hl&->&Hc). unfold lexName. cbv zeta.
  destruct (consume_first src l [] (Peek l) Hl eq_refl) as [H1 Hr]; [by apply (class_ne isNameStart)|].
  destruct (consume_while_lx isNameRune src _ _ eq_refl H1) as ((ds&Hds&Hall&_)&Hex&Hr2&_).
  set (l2 := consume_while isNameRune (Consume l)) in *.
  assert (CurText l2 = [Peek l] ++ ds) as ->.
  { apply (CurText_ascii src); [done|]. apply (class_ascii isNameRune), Forall_app;
      [apply isNameRune_ascii|split; [|done]]. constructor; [|done].
    revert Hc. unfold isNameStart, isNameRune. by destruct (isAlpha _), (isDigit _), (_ =? _). }
  destruct (keyword ([Peek l] ++ ds)) as [k|] eqn:Hk.
  - assert (is_error k = false /\ k <> EmptyLine /\ shape k ([Peek l] ++ ds)) as (?&?&?);
      [|eapply (post_emit _ _ _ MName); try done; [by apply munch_name|intros _; simpl; by rewrite Hex|lia]].
    assert (In k (map snd keywordTokens)) as Hin.
    { unfold keyword in Hk. destruct (find _ _) as [p|] eqn:Hf; [|done]. injection Hk as <-.
      apply in_map. by apply find_some in Hf as [? _]. }
    simpl in Hin. repeat destruct Hin as [<-|Hin]; try done; split_and!; try done; simpl; by rewrite Hex.
  - eapply (post_emit _ _ _ MName); [exact Hds|..]; try done;
      [|by apply munch_name|intros _; simpl; by rewrite Hex|lia].
    exists (Peek l), ds. by split_and!.
Qed.

Lemma lexOrdinal_post src l : pre src LexOrdinal l -> post src LexOrdinal l (lexOrdinal l).
Proof.
  intros (cs&Hl&->&Hc). unfold lexOrdinal. cbv zeta.
  destruct (consume_first src l [] _ Hl Hc) as [H1 Hr]; [done|].
  destruct (consume_while_lx isDigit src _ _ eq_refl H1) as ((ds&Hds&Hall&_)&Hex&Hr2&_).
  eapply (post_emit _ _ _ MOrdinal); [exact Hds|..]; try done;
    [by exists ds|by apply (munch_digits MOrdinal)|intros _; simpl; by rewrite Hex|lia].
Qed.

Lemma lexNumber_post src l : pre src LexNumber l -> post src LexNumber l (lexNumber l).
Proof.
  intros (cs&Hl&->&Hc). unfold lexNumber. unfold post, call_measure.
  destruct (Z.eqb_spec (Peek l) (chr "0")) as [E|E]; (split; [by exists []|simpl; lia]).
Qed.

Lemma is_e c : (c =? chr "e") || (c =? chr "E") = true -> c = chr "e" \/ c = chr "E".
Proof. intros [H%Z.eqb_eq|H%Z.eqb_eq]%orb_prop; auto. Qed.

Lemma lexDec_post src l : pre src LexDec l -> post src LexDec l (lexDec l).
Proof.
  intros (cs&Hl&->&Hc&Hne). unfold lexDec. cbv zeta.
  destruct (consume_while_lx isDigit src _ _ eq_refl Hl) as ((ds&Hds&Hall&Hhd)&Hex&Hr2&Hr).
  specialize (Hhd Hc). specialize (Hr Hc). set (l2 := consume_while isDigit l) in *.
  assert (dec_int ds) as Hi.
  { right. split_and!; [done|by destruct ds|]. rewrite Hhd. by intros [= E]. }
  destruct ((_ =? chr "e") || _) eqn:E1.
  { apply is_e in E1. apply post_goto; [|done]. exists ds. split; [done|]. split; [done|by left]. }
  destruct (Z.eqb_spec (Peek l2) (chr ".")) as [E2|E2].
  { apply post_goto; [|done]. by exists ds. }
  eapply (post_emit _ _ _ MDec); try done; [apply (munch_dec ds); [done|by destruct ds|rewrite Hhd; congruence]|].
  intros _. simpl. rewrite Hex.
  apply Z.eqb_neq in E2 as ->. unfold is_exp. by rewrite E1.
Qed.

Lemma lexNumberStartWithZero_post src l :
  pre src LexNumberStartWithZero l -> post src LexNumberStartWithZero l (lexNumberStartWithZero l).
Proof.
  intros (cs&Hl&->&Hc). unfold lexNumberStartWithZero. cbv zeta.
  destruct (consume_first src l [] _ Hl Hc) as [H1 Hr]; [done|].
  assert (dec_int [chr "0"]) as Hi by by left.
  destruct ((_ =? chr "x") || _) eqn:E0.
  { apply post_goto; [|done]. exists [chr "0"]. split; [done|]. split; [done|].
    apply orb_prop in E0 as [E%Z.eqb_eq|E%Z.eqb_eq]; auto. }
  destruct (Z.eqb_spec (Peek (Consume l)) (chr ".")) as [E2|E2].
  { apply post_goto; [|done]. by exists [chr "0"]. }
  destruct ((_ =? chr "e") || _) eqn:E1.
  { apply is_e in E1. apply post_goto; [|done]. exists [chr "0"]. split; [done|]. split; [done|by left]. }
  eapply (post_emit _ _ _ MZero); try done. intros _. simpl. rewrite E0.
  apply Z.eqb_neq in E2 as ->. unfold is_exp. by rewrite E1.
Qed.

Lemma lexHexNumber_post src l : pre src LexHexNumber l -> post src LexHexNumber l (lexHexNumber l).
Proof.
  intros (cs&Hl&->&Hc). unfold lexHexNumber. cbv zeta.
  destruct (consume_first src l _ (Peek l) Hl eq_refl) as [H1 Hr]; [by destruct Hc as [->| ->]|].
  destruct (consume_while_lx isHexDigit src _ _ eq_refl H1) as ((ds&Hds&Hall&_)&Hex&Hr2&_).
  eapply (post_emit _ _ _ MHex); [exact Hds|..]; try done; [|by apply munch_hex|intros _; simpl; by rewrite Hex|lia].
  by exists (Peek l), ds.
Qed.

Lemma lexFractionPart_post src l :
  pre src LexFractionPart l -> post src LexFractionPart l (lexFractionPart l).
Proof.
  intros (cs&Hl&Hi&Hc). unfold lexFractionPart. cbv zeta.
  destruct (consume_first src l _ _ Hl Hc) as [H1 Hr]; [done|].
  destruct (consume_while_lx isDigit src _ _ eq_refl H1) as ((ds&Hds&Hall&_)&Hex&Hr2&_).
  set (l2 := consume_while isDigit (Consume l)) in *. rewrite <- app_assoc in Hds. simpl in Hds.
  assert (fraction (chr "." :: ds)) as Hf by by exists ds.
  destruct ((_ =? chr "e") || _) eqn:E1.
  { apply is_e in E1. apply post_goto; [|lia]. eexists. split; [exact Hds|]. split; [done|].
    right. by eexists _, _. }
  eapply (post_emit _ _ _ MFrac); [exact Hds|..]; try done; [| |intros _; simpl; rewrite Hex; unfold is_exp; by rewrite E1|lia].
  - exists cs, (chr "." :: ds). split; [done|]. left. by split; [|left].
  - by apply munch_fixed.
Qed.

Lemma consume_while_stop p l : p (Peek l) = false -> consume_while p l = l.
Proof. intros Hp. unfold consume_while, loop. simpl. by rewrite Hp. Qed.

Lemma lexExponentPart_post src l :
  pre src LexExponentPart l -> post src LexExponentPart l (lexExponentPart l).
Proof.
  intros (cs&Hl&Hc&Hcs). unfold lexExponentPart. cbv zeta.
  destruct (consume_first src l _ (Peek l) Hl eq_refl) as [H1 Hr]; [by destruct Hc as [->| ->]|].
  set (l1 := Consume l) in *.
  set (l2 := if _ || _ then Consume l1 else l1).
  assert (exists s, lx src l2 ((cs ++ [Peek l]) ++ s) /\ (rem l2 <= rem l1)%nat /\
     (s = [] \/ s = [chr "+"] \/ s = [chr "-"]) /\
     (s = [] -> (Peek l2 =? chr "+") || (Peek l2 =? chr "-") = false)) as (s&H2&Hr2&Hs&Hsign).
  { subst l2. destruct (_ || _) eqn:E.
    - exists [Peek l1]. apply orb_prop in E as [E%Z.eqb_eq|E%Z.eqb_eq]; rewrite E;
        (destruct (consume_first src l1 _ _ H1 E) as [? ?]; [done|]); split_and!; auto; (lia || done).
    - exists []. rewrite app_nil_r. auto. }
  clearbody l2.
  destruct (consume_while_lx isDigit src _ _ eq_refl H2) as ((ds&Hds&Hall&Hhd)&Hex&Hr3&_).
  rewrite <- !app_assoc in Hds. simpl in Hds.
  assert (exponent (Peek l :: s ++ ds)) as He by by exists (Peek l), s, ds.
  assert (exists st, munch_from MStart cs = Some st /\ (st = MZero \/ st = MDec \/ st = MFrac)) as (st0&Hst0&Hz).
  { destruct Hcs as [Hi|(i&f&->&Hi&Hf)]; [destruct (munch_dec_int _ Hi)|pose proof (munch_fixed i f Hi Hf)]; eauto. }
  assert (exists st, munch_from MStart (cs ++ Peek l :: s ++ ds) = Some st /\
    delta st (Peek (consume_while isDigit l2)) = None) as (st&Hst&Hd).
  { rewrite munch_app, Hst0. cbn [mbind option_bind].
    destruct (munch_exponent st0 _ Hz He) as [[Hm [c [= _ [-> ->]%app_nil]]]|Hm]; rewrite Hm; eexists; (split; [done|]).
    - assert (isDigit (Peek l2) = false) as Hnd
        by (destruct (isDigit (Peek l2)); [by specialize (Hhd eq_refl)|done]).
      rewrite consume_while_stop by done. simpl. by rewrite Hsign, Hnd by done.
    - simpl. by rewrite Hex. }
  eapply post_emit; [exact Hds| |exact Hst|done|done|done|lia].
  destruct Hcs as [Hi|(i&f&->&Hi&Hf)].
  - exists cs, (Peek l :: s ++ ds). split; [done|]. left. by split; [|right].
  - exists i, f. split; [done|]. right. exists (Peek l :: s ++ ds). by rewrite <- app_assoc.
Qed.

Lemma eos_mono l : IsEos l = true -> Consume l = l.
Proof. unfold Consume. by intros ->. Qed.

Lemma lexString_post src l : pre src LexString l -> post src LexString l (lexString l).
Proof.
  intros (cs&Hl&->&Hc). unfold lexString. cbv zeta.
  destruct (consume_first src l [] _ Hl Hc) as [H1 Hr]; [done|].
  destruct (loop_ind (fun l => exists body, lx src l (quote :: body) /\
      (string_body body \/
       IsEos l = true /\ exists b, body = b ++ [chr "\"] /\ string_body b))
    (fun l => negb (IsEos l) && negb (Peek l =? quote) && negb (Peek l =? newline))
    (fun l => let l := if Peek l =? chr "\" then Consume l else l in Consume l) (Consume l))
    as ((body&Hb&Hsb)&Hex&Hr2&_); [exists []; split; [done|left; constructor]| |].
  - clear l Hl Hc H1 Hr. intros l (body&Hb&Hsb) Hc.
    apply andb_prop in Hc as [[He%negb_true_iff Hq%negb_true_iff]%andb_prop Hn%negb_true_iff].
    apply Z.eqb_neq in Hq, Hn. cbv beta zeta.
    pose proof (Consume_lx src l _ Hb He) as H1. pose proof (rem_Consume l He) as Hr.
    destruct Hsb as [Hsb|[]]; [|congruence]. simpl in H1.
    destruct (Z.eqb_spec (Peek l) (chr "\")) as [Es|Es].
    + destruct (IsEos (Consume l)) eqn:He1.
      * rewrite eos_mono by done. split; [|done]. eexists. split; [exact H1|]. right. split; [done|].
        exists body. by rewrite Es.
      * pose proof (Consume_lx src _ _ H1 He1) as H2. pose proof (rem_Consume _ He1).
        split; [|lia]. rewrite Es in H2. simpl in H2. rewrite <- app_assoc in H2.
        eexists. split; [exact H2|]. left. by apply body_escape.
    + split; [|done]. eexists. split; [exact H1|]. left. by apply body_rune.
  - set (l2 := loop _ _ (Consume l)) in *.
    destruct (IsEos l2) eqn:He2; simpl in Hex; cbn [orb negb].
    { destruct Hsb as [Hsb|(_&b&->&Hsb)].
      - eapply post_error; [exact Hb|by exists body, []; rewrite app_nil_r; auto|done|].
        eapply (munch_no_token MString); try done; [|by unfold Next; rewrite He2].
        change (munch_from MString body = Some MString). by apply munch_string_body.
      - eapply post_error; [exact Hb|by exists b, [chr "\"]; auto|done|].
        eapply (munch_no_token MEscape); try done; [|by unfold Next; rewrite He2].
        change (munch_from MString (b ++ [chr "\"]) = Some MEscape). by rewrite munch_app, munch_string_body. }
    destruct Hsb as [Hsb|[]]; [|congruence].
    assert (munch_from MStart (quote :: body) = Some MString) as Hm by (by apply (munch_string_body body)).
    destruct (Z.eqb_spec (Peek l2) newline) as [E|E].
    { eapply post_error; [exact Hb|by exists body, []; rewrite app_nil_r; auto|done|].
      eapply (munch_no_token MString); try done. unfold Next. rewrite He2. simpl. by rewrite E. }
    rewrite andb_true_r in Hex. apply negb_false_iff, Z.eqb_eq in Hex.
    destruct (consume_first src l2 _ _ Hb Hex) as [H3 Hr3]; [done|].
    eapply (post_emit _ _ _ MEnd); [exact H3|..]; try done; [by exists body| |lia].
    change (munch_from MString (body ++ [quote]) = Some MEnd). by rewrite munch_app, (munch_string_body body Hsb).
Qed.

Lemma lexComment_post src l : pre src LexComment l -> post src LexComment l (lexComment l).
Proof.
  intros (cs&Hl&->&Hc). unfold lexComment. cbv zeta.
  destruct (consume_first src l [] _ Hl Hc) as [H1 Hr]; [done|].
  destruct (Z.eqb_spec (Peek (Consume l)) (chr "/")) as [E|E].
  { apply post_goto; [by exists [chr "/"]|done]. }
  destruct (Z.eqb_spec (Peek (Consume l)) (chr "*")) as [E2|E2].
  { apply post_goto; [|done]. exists [chr "/"]. split; [done|]. split; [|by left].
    apply peek_not_eos. by rewrite E2. }
  eapply post_error; [exact H1|by exists (chr "/")|done|].
  eapply (munch_no_token MSlash); try done. apply next_stuck. intros _. simpl.
  by apply Z.eqb_neq in E as ->, E2 as ->.
Qed.

Lemma lexSingleLineComment_post src l :
  pre src LexSingleLineComment l -> post src LexSingleLineComment l (lexSingleLineComment l).
Proof.
  intros (cs&Hl&->&Hc). unfold lexSingleLineComment. cbv zeta.
  destruct (consume_first src l _ _ Hl Hc) as [H1 Hr]; [done|].
  destruct (loop_ind (fun l => exists body, lx src l (chr "/" :: chr "/" :: body) /\
      Forall (.≠ newline) body) (fun l => negb (IsEos l) && negb (Peek l =? newline)) Consume (Consume l))
    as ((body&Hb&Hall)&Hex&Hr2&_); [by exists []| |].
  - clear l Hl Hc H1 Hr. intros l (body&Hb&Hall) Hc.
    apply andb_prop in Hc as [He%negb_true_iff Hn%negb_true_iff]. apply Z.eqb_neq in Hn.
    split; [|by apply rem_Consume]. exists (body ++ [Peek l]).
    split; [apply (Consume_lx src l _ Hb He)|]. apply Forall_app. split; [done|]. by constructor.
  - set (l2 := loop _ _ (Consume l)) in *.
    eapply (post_emit _ _ _ MLine); [exact Hb|..]; try done; [by exists body|by apply munch_line| |lia].
    intros He. rewrite He in Hex. simpl in *. by rewrite Hex.
Qed.

(** A comment that has not come to its end. *)
Lemma post_comment src s l l' body star :
  lx src l' ([chr "/"; chr "*"] ++ body ++ star) -> comment_body body -> star = [] \/ star = [chr "*"] ->
  IsEos l' = true -> post src s l (None, emitToken ErrorUnterminatedComment l').
Proof.
  intros Hl Hb Hs He. eapply post_error; [exact Hl|by exists body, star|done|].
  destruct Hs as [->| ->]; [eapply (munch_no_token MBlock)|eapply (munch_no_token MStar)]; try done;
    try (by unfold Next; rewrite He);
    rewrite ?app_nil_r; [by apply (munch_comment_body body)|].
  change (munch_from MBlock (body ++ [chr "*"]) = Some MStar). by rewrite munch_app, munch_comment_body.
Qed.

Lemma lexMultiLineComment_post src l :
  pre src LexMultiLineComment l -> post src LexMultiLineComment l (lexMultiLineComment l).
Proof.
  intros (cs&Hl&He&Hc). unfold lexMultiLineComment. cbv zeta.
  pose proof (Consume_lx src l _ Hl He) as H1. pose proof (rem_Consume l He) as Hr.
  assert (exists body, lx src (Consume l) ([chr "/"; chr "*"] ++ body) /\ comment_body body) as [b0 H2].
  { destruct Hc as [[-> E]|(body&->&Hb&Hc)]; [exists []; by rewrite E in H1; split; [|constructor]|].
    exists (body ++ [chr "*"; Peek l]). rewrite <- !app_assoc in H1. split; [done|by apply comment_star]. }
  destruct (loop_ind (fun l => exists body, lx src l ([chr "/"; chr "*"] ++ body) /\ comment_body body)
      (fun l => negb (IsEos l) && negb (Peek l =? chr "*")) Consume (Consume l))
    as ((body&Hb&Hbody)&Hex&Hr2&_); [by exists b0| |].
  - clear. intros l (body&Hb&Hbody) Hc. apply andb_prop in Hc as [He%negb_true_iff Hs%negb_true_iff%Z.eqb_neq].
    split; [|by apply rem_Consume]. exists (body ++ [Peek l]). rewrite app_assoc.
    split; [by apply Consume_lx|by apply comment_rune].
  - set (l2 := loop _ _ (Consume l)) in *. destruct (IsEos l2) eqn:He2; simpl in Hex; cbn [orb negb].
    + apply (post_comment _ _ _ _ body []); [by rewrite app_nil_r|done|by left|done].
    + apply post_goto; [|lia]. eexists. split; [exact Hb|]. apply negb_false_iff, Z.eqb_eq in Hex.
      split; [done|by exists body].
Qed.

Lemma lexPossibleEndOfComment_post src l :
  pre src LexPossibleEndOfComment l ->
  post src LexPossibleEndOfComment l (lexPossibleEndOfComment l).
Proof.
  intros (cs&Hl&Hc&body&->&Hbody). unfold lexPossibleEndOfComment. cbv zeta.
  destruct (consume_first src l _ _ Hl Hc) as [H1 Hr]; [done|]. rewrite <- app_assoc in H1.
  destruct (IsEos (Consume l)) eqn:He1.
  { apply (post_comment _ _ _ _ body [chr "*"]); auto. }
  destruct (Z.eqb_spec (Peek (Consume l)) (chr "/")) as [E|E].
  - destruct (consume_first src _ _ _ H1 E) as [H2 Hr2]; [done|]. rewrite <- !app_assoc in H2.
    eapply (post_emit _ _ _ MEnd); [exact H2|..]; try done; [by exists body| |lia].
    change (munch_from MBlock (body ++ [chr "*"; chr "/"]) = Some MEnd).
    by rewrite munch_app, munch_comment_body.
  - apply post_goto; [|done]. eexists. split; [exact H1|]. split; [done|]. right. by exists body.
Qed.

Lemma call_post src s l : pre src s l -> post src s l (call s l).
Proof.
  destruct s; [apply lexRoot_post|apply lexSkip_post|apply lexSingleCharTokens_post
    |apply lexEqualsOrResponse_post|apply lexName_post|apply lexOrdinal_post|apply lexNumber_post
    |apply lexDec_post|apply lexNumberStartWithZero_post|apply lexHexNumber_post
    |apply lexFractionPart_post|apply lexExponentPart_post|apply lexString_post
    |apply lexComment_post|apply lexSingleLineComment_post|apply lexMultiLineComment_post
    |apply lexPossibleEndOfComment_post].
Qed.

Lemma run_final src fuel s l :
  pre src s l -> (call_measure s l < fuel)%nat ->
  exists l', run fuel (Some s) l = Some l' /\ final src l'.
Proof.
  revert s l. induction fuel as [|fuel IH]; intros s l Hp Hf; [lia|].
  pose proof (call_post src s l Hp) as Hpost. simpl. destruct (call s l) as [[s'|] l'].
  - destruct Hpost as [Hp' Hm]. apply IH; [done|lia].
  - exists l'. split; [by destruct fuel|done].
Qed.

Lemma run_new src :
  exists l, run (run_fuel (new_lexer src)) (Some LexRoot) (new_lexer src) = Some l /\ final src l.
Proof.
  apply run_final; [exists []; split; [apply lx_new|done]|].
  unfold call_measure, run_fuel. simpl. lia.
Qed.

(** Every token of the result occurs in the tiling at some position. *)
Lemma tiling_In src toks rs t :
  tiling src toks rs -> reads src rs -> (nbytes rs <= length src)%nat -> In t toks ->
  exists rs0 ts k, t = token_at src k rs0 ts /\ shape k (ts.*1) /\ reads src (rs0 ++ ts) /\
    (nbytes (rs0 ++ ts) <= length src)%nat.
Proof.
  induction 1 as [|toks rs r Ht IH Hs Hb|toks rs ts k Ht IH Hs Hf He]; [done|..].
  - intros [Hr _]%reads_app Hle. rewrite nbytes_app in Hle. apply IH; [done|lia].
  - intros Hr Hb [Hin|[<-|[]]]%in_app_or; [|by exists rs, ts, k].
    apply reads_app in Hr as [Hr _]. rewrite nbytes_app in Hb. apply IH; [done|lia|done].
Qed.

Lemma final_tiling src l :
  final src l -> exists rs, reads src rs /\ (nbytes rs <= length src)%nat /\
    tiling src (tokens l) rs /\
    ((nbytes rs = length src /\ Forall (fun t => is_error (Kind t) = false) (tokens l)) \/
     exists toks t, tokens l = toks ++ [t] /\ is_error (Kind t) = true /\
       Forall (fun t => is_error (Kind t) = false) toks).
Proof.
  intros [[Hl He]|(l0&cs&k&Hl&Hk&Hs&Hno&->)].
  - destruct Hl as (rs&ts&Hts&Hsrc&Hr&Hle&(Hb&_)&_&Ht&Hne). destruct ts; [|done].
    rewrite app_nil_r in *. unfold IsEos in He. apply Nat.leb_le in He. rewrite Hsrc, Hb in He.
    exists rs. split_and!; try done. left. split; [lia|done].
  - destruct Hl as (rs&ts&<-&Hat).
    destruct (emit_tiling src l0 rs ts k Hat Hs) as [Htoks Htl]; [by unfold ends; rewrite Hk; destruct k|by destruct k|].
    destruct Hat as (Hsrc&Hr&Hle&_&_&_&Hne). rewrite Htoks. exists (rs ++ ts).
    split_and!; try done. right. by exists (tokens l0), (token_at src k rs ts).
Qed.

(** A token whose runes start and end with ASCII runes has text that does. *)
Lemma reads_head src c ts :
  reads src ts -> head (ts.*1) = Some c -> c < 128 -> exists s, src = c :: s.
Proof.
  destruct ts as [|[c' w] ts]; [done|]. intros (Hne&Hd&_) [= ->] Hc.
  destruct (DecodeRune_ascii src Hne) as (b&s&->&Hb); [by rewrite Hd|].
  rewrite Hd in Hb. injection Hb as -> _. by exists s.
Qed.

Lemma StringLiteral_text src rs ts :
  reads src (rs ++ ts) -> (nbytes (rs ++ ts) <= length src)%nat -> shape StringLiteral (ts.*1) ->
  exists inner, substr src (nbytes rs) (nbytes (rs ++ ts)) = quote :: inner ++ [quote].
Proof.
  intros Hr Hle (body&Hts&_).
  assert (exists ts1 r1 r2, ts = r1 :: ts1 ++ [r2] /\ r1.1 = quote /\ r2.1 = quote) as (ts1&r1&r2&->&E1&E2).
  { destruct ts as [|r1 ts]; [done|]. injection Hts as E1 Hts.
    destruct ts as [|r2 ts _] using rev_ind; [by destruct body|].
    rewrite fmap_app in Hts. apply app_inj_2 in Hts as [_ [= E2]]; [|done]. by exists ts, r1, r2. }
  pose proof (proj2 (reads_app _ _ _ Hr)) as Hts2.
  destruct (reads_head _ quote _ Hts2) as [s1 Hs1]; [by rewrite <- E1|done|].
  change (r1 :: ts1 ++ [r2]) with ((r1 :: ts1) ++ [r2]) in *. rewrite app_assoc in Hr, Hle.
  pose proof (proj2 (reads_app _ _ _ Hr)) as Hlast.
  destruct (reads_head _ quote _ Hlast) as [s2 Hs2]; [by rewrite <- E2|done|].
  assert (r1.2 = 1%nat) as W1.
  { destruct Hts2 as (Hne&Hd&_). destruct (DecodeRune_ascii _ Hne) as (b&?&_&Hb); [by rewrite Hd, E1|].
    rewrite Hb in Hd. by subst r1. }
  assert (r2.2 = 1%nat) as W2.
  { destruct Hlast as (Hne&Hd&_). destruct (DecodeRune_ascii _ Hne) as (b&?&_&Hb); [by rewrite Hd, E2|].
    rewrite Hb in Hd. by subst r2. }
  unfold substr. rewrite !nbytes_app in *. simpl in *. rewrite W1, W2 in *.
  exists (take (nbytes ts1) s1).
  rewrite Hs1. match goal with |- take ?n _ = _ => replace n with (S (nbytes ts1 + 1)) by lia end.
  simpl. f_equal. rewrite <- take_take_drop. f_equal.
  rewrite <- (drop_drop src) in Hs2. rewrite Hs1 in Hs2. simpl in Hs2. by rewrite Hs2.
Qed.

(** The text of a name token. *)
Lemma lexer_names src toks t :
  tokenizeUnfiltered src = Some toks -> In t toks -> Kind t = Name ->
  Text t <> [] /\ all isNameRune (Text t).
Proof.
  intros Htok Hin Hk. destruct (run_new src) as (l&Hrun&Hf). unfold tokenizeUnfiltered in Htok.
  rewrite Hrun in Htok. injection Htok as <-.
  destruct (final_tiling src l Hf) as (rs&Hr&Hle&Ht&_).
  destruct (tiling_In src _ rs t Ht Hr Hle Hin) as (rs0&ts&k&->&Hs&Hr0&Hle0).
  simpl in Hk. subst k. destruct Hs as (c&ds&Hc&Hstart&Hall&_).
  assert (all isNameRune (ts.*1)) as Hname.
  { rewrite Hc. constructor; [|done]. unfold isNameStart in Hstart. unfold isNameRune.
    by apply orb_prop in Hstart as [->| ->]; rewrite ?orb_true_r. }
  destruct (ascii_bytes _ ts (proj2 (reads_app _ _ _ Hr0)) (class_ascii _ _ isNameRune_ascii Hname)) as [Htext _].
  assert (Text (token_at src Name rs0 ts) = ts.*1) as ->; [|split; [by rewrite Hc|done]].
  cbn [Text token_at]. unfold substr. rewrite nbytes_app.
  by replace (nbytes rs0 + nbytes ts - nbytes rs0)%nat with (nbytes ts) by lia.
Qed.

(** ** Properties *)


(** [StringLiteralTokenToText] does not panic on the string literals the
    lexer produces, and gives the text between the quotes. *)
Theorem lexer_string_literals src toks t :
  tokenizeUnfiltered src = Some toks -> In t toks -> Kind t = StringLiteral ->
  exists inner, Text t = quote :: inner ++ [quote] /\ StringLiteralTokenToText t = Some inner.
Proof.
  intros Htok Hin Hk. destruct (run_new src) as (l&Hrun&Hf). unfold tokenizeUnfiltered in Htok.
  rewrite Hrun in Htok. injection Htok as <-.
  destruct (final_tiling src l Hf) as (rs&Hr&Hle&Ht&_).
  destruct (tiling_In src _ rs t Ht Hr Hle Hin) as (rs0&ts&k&->&Hs&Hr0&Hle0).
  simpl in Hk. subst k. destruct (StringLiteral_text src rs0 ts Hr0 Hle0 Hs) as [inner Hi].
  exists inner. split; [exact Hi|]. unfold StringLiteralTokenToText. cbn [Kind Text token_at]. rewrite Hi.
  rewrite bool_decide_true by done. cbn [negb length]. rewrite length_app. simpl.
  replace (length inner + 1)%nat with (S (length inner)) by lia. simpl.
  rewrite (lookup_app_r inner) by lia. rewrite Nat.sub_diag. simpl.
  rewrite Nat.sub_0_r, drop_0. f_equal. apply take_app_length'. lia.
Qed.
Lemma lexer_string_literals_witness :
  let src := bytes_of "import" ++ [quote] ++ bytes_of "a.fidl" ++ [quote] in
  exists t inner, Text t = quote :: inner ++ [quote] /\ StringLiteralTokenToText t = Some inner.
Proof.
  cbv zeta.
  exists (mkToken StringLiteral ([quote] ++ bytes_of "a.fidl" ++ [quote]) 6 6 6 6 0).
  apply (lexer_string_literals (bytes_of "import" ++ [quote] ++ bytes_of "a.fidl" ++ [quote])
    (default [] (tokenizeUnfiltered (bytes_of "import" ++ [quote] ++ bytes_of "a.fidl" ++ [quote])))).
  - vm_compute. reflexivity.
  - vm_compute. right. left. reflexivity.
  - reflexivity.
Defined.

(** a multi-line comment that ends in two stars and a slash is reported as
    unterminated: the function that looks at the rune after a star returns to
    [lexMultiLineComment], which consumes the second star unseen. *)
Theorem double_star_comment_unterminated :
  option_map (map Kind) (tokenizeUnfiltered (bytes_of "/* a **/ struct")) =
  Some [ErrorUnterminatedComment].
Proof. vm_compute. reflexivity. Qed.
