(* ===== verification/TokenStream.v ===== *)
(** * Token streams: compiler/lexer/token_stream.go

    [TokenStream] is the interface the parser reads through. [StreamOf] says
    what it promises: a stream stands for the list of tokens still to come.
    The channel reader keeps the promise, and the filter keeps it for the
    filtered list over any stream that keeps it. *)
From S2P Require Import Prelude Lexer LexerSpec.

Class TokenStream (S : Type) := {
  PeekNext : S -> S * Token;
  ConsumeNext : S -> S
}.

(** [R s ts]: the tokens still to come from [s] are [ts]. *)
Class StreamOf (S : Type) `{TokenStream S} (R : S -> list Token -> Prop) : Prop := {
  PeekNext_of s ts : R s ts ->
    R (PeekNext s).1 ts /\ (PeekNext s).2 = default eofToken (head ts);
  ConsumeNext_of s ts : R s ts -> R (ConsumeNext s) (tail ts)
}.

(** ** Reading from the channel *)

(** [tokenChan] lists the tokens the lexer has yet to send; it then closes the
    channel. Whether a token has already been sent makes no difference to a
    receiver that blocks until it is. *)
Record TokenChan := mkTokenChan {
  tokenChan : list Token;
  nextToken : Token;
  read : bool
}.

Definition TokenChan_ConsumeNext (s : TokenChan) : TokenChan :=
  match tokenChan s with
  | t :: rest => mkTokenChan rest t (read s)
  | [] => mkTokenChan [] eofToken (read s)
  end.
Definition TokenChan_PeekNext (s : TokenChan) : TokenChan * Token :=
  let s := if negb (read s)
           then TokenChan_ConsumeNext (mkTokenChan (tokenChan s) (nextToken s) true) else s in
  (s, nextToken s).
#[export] Instance TokenChan_stream : TokenStream TokenChan :=
  {| PeekNext := TokenChan_PeekNext; ConsumeNext := TokenChan_ConsumeNext |}.

(** Nothing read yet. *)
Definition newTokenChan (ts : list Token) : TokenChan := mkTokenChan ts zeroToken false.

Definition chan_of (s : TokenChan) (ts : list Token) : Prop :=
  if read s
  then ts = nextToken s :: tokenChan s \/ (ts = [] /\ nextToken s = eofToken /\ tokenChan s = [])
  else tokenChan s = ts.

#[export] Instance TokenChan_of : StreamOf TokenChan chan_of.
Proof.
  split; intros [c t r] ts; unfold chan_of; simpl.
  - unfold TokenChan_PeekNext, TokenChan_ConsumeNext. simpl. destruct r; simpl.
    + intros [->|(->&->&->)]; eauto.
    + intros ->. destruct ts; simpl; eauto.
  - unfold TokenChan_ConsumeNext. simpl. destruct r.
    + intros [->|(->&->&->)]; simpl; [destruct c; simpl|]; eauto.
    + intros ->. by destruct ts.
Qed.

(** ** Filtering *)
Section Filter.
Context {S : Type} `{TokenStream S}.

Record FilteredTokenStream := mkFiltered {
  tokenStream : S;
  filter_ : list TokenKind;
  filteredTokens : list Token
}.

Definition isFiltered (s : FilteredTokenStream) (token : Token) : bool :=
  bool_decide (Kind token ∈ filter_ s).

(** [for s.isFiltered(t)]; the loop ends because the stream ends with an
    end-of-file token, which is never filtered. [fuel] bounds the number of
    tokens still to come. *)
Fixpoint skip_loop (fuel : nat) (t : Token) (s : FilteredTokenStream) : FilteredTokenStream :=
  match fuel with
  | O => s
  | Datatypes.S fuel =>
    if isFiltered s t then
      let '(ts, t') := PeekNext (ConsumeNext (tokenStream s)) in
      skip_loop fuel t' (mkFiltered ts (filter_ s) (filteredTokens s ++ [t]))
    else s
  end.
Definition skipFiltered (fuel : S -> nat) (s : FilteredTokenStream) : FilteredTokenStream :=
  let '(ts, t) := PeekNext (tokenStream s) in
  skip_loop (fuel ts) t (mkFiltered ts (filter_ s) (filteredTokens s)).

Definition Filtered_PeekNext (fuel : S -> nat) (s : FilteredTokenStream) : FilteredTokenStream * Token :=
  let s := skipFiltered fuel s in
  let '(ts, t) := PeekNext (tokenStream s) in
  (mkFiltered ts (filter_ s) (filteredTokens s), t).
Definition Filtered_ConsumeNext (fuel : S -> nat) (s : FilteredTokenStream) : FilteredTokenStream :=
  let s := skipFiltered fuel s in
  skipFiltered fuel (mkFiltered (ConsumeNext (tokenStream s)) (filter_ s) (filteredTokens s)).
Definition FilteredTokens (s : FilteredTokenStream) : list Token := filteredTokens s.

(** [None] is the panic on a filter that holds [EOF]. *)
Definition NewFilteredTokenStream (ts : S) (filter : list TokenKind) : option FilteredTokenStream :=
  if bool_decide (EOF ∈ filter) then None else Some (mkFiltered ts filter []).
End Filter.
Arguments FilteredTokenStream : clear implicits.

Definition Filtered_stream {S} `{TokenStream S} (fuel : S -> nat)
    : TokenStream (FilteredTokenStream S) :=
  {| PeekNext := Filtered_PeekNext fuel; ConsumeNext := Filtered_ConsumeNext fuel |}.

Section FilterOf.
Context {S : Type} `{StreamOf S R} (all : list Token) (kinds : list TokenKind).

Definition kept (t : Token) : Prop := Kind t ∉ kinds.
Definition dropped (t : Token) : Prop := Kind t ∈ kinds.
#[local] Instance kept_dec t : Decision (kept t).
Proof. unfold kept. apply _. Defined.
#[local] Instance dropped_dec t : Decision (dropped t).
Proof. unfold dropped. apply _. Defined.

(** The stream is [seen] tokens into the list [all] of the underlying stream. *)
Definition filtered_at (s : FilteredTokenStream S) (seen us : list Token) : Prop :=
  filter_ s = kinds /\ R (tokenStream s) us /\ all = seen ++ us /\
  filteredTokens s = filter dropped seen.
Definition filtered_of (s : FilteredTokenStream S) (ts : list Token) : Prop :=
  exists seen us, filtered_at s seen us /\ ts = filter kept us.

Context (fuel : S -> nat) (HEOF : EOF ∉ kinds) (Hfuel : forall s us, R s us -> (length us <= fuel s)%nat).

Lemma skip_loop_at n s seen us :
  filtered_at s seen us -> (length us <= n)%nat ->
  let s' := skip_loop n (default eofToken (head us)) s in
  exists seen' us', filtered_at s' seen' us' /\ filter kept us' = filter kept us /\
    (forall t, head us' = Some t -> kept t).
Proof.
  revert s seen us. induction n as [|n IH]; intros s seen us Hs Hn.
  { destruct us; [|simpl in Hn; lia]. exists seen, []. by split_and!. }
  simpl. destruct Hs as (Hk&HR&Hall&Hf). unfold isFiltered. rewrite Hk.
  destruct us as [|t us].
  - simpl. rewrite bool_decide_false by done. exists seen, []. by split_and!.
  - change (default eofToken (head (t :: us))) with t.
    case_bool_decide as Hin.
    + pose proof (ConsumeNext_of _ _ HR) as HR1. destruct (PeekNext_of _ _ HR1) as [HR2 Ht].
      destruct (PeekNext (ConsumeNext (tokenStream s))) as [ts2 t2]. cbn [fst snd tail] in *.
      destruct (IH (mkFiltered ts2 kinds (filteredTokens s ++ [t])) (seen ++ [t]) us)
        as (seen'&us'&Hs'&Hfl&Hh).
      { split_and!; simpl; try done; [by rewrite <- app_assoc|].
        rewrite filter_app, Hf. f_equal. by rewrite filter_cons_True. }
      { simpl in Hn. lia. }
      subst t2. exists seen', us'. split_and!; try done.
      rewrite Hfl, filter_cons_False; [done|]. intros Hkt. by apply Hkt.
    + exists seen, (t :: us). split_and!; try done. by intros ? [= <-].
Qed.

Lemma skipFiltered_at s seen us :
  filtered_at s seen us ->
  exists seen' us', filtered_at (skipFiltered fuel s) seen' us' /\
    filter kept us' = filter kept us /\ (forall t, head us' = Some t -> kept t).
Proof.
  intros (Hk&HR&Hall&Hf). unfold skipFiltered. destruct (PeekNext_of _ _ HR) as [HR1 Ht].
  destruct (PeekNext (tokenStream s)) as [ts t]. cbn [fst snd] in *. subst t.
  apply skip_loop_at with seen; [by split_and!|]. by apply Hfuel.
Qed.

Lemma kept_head us : (forall t, head us = Some t -> kept t) ->
  head us = head (filter kept us) /\ filter kept (tail us) = tail (filter kept us).
Proof.
  destruct us as [|t us]; [done|]. intros Hh. by rewrite filter_cons_True by (by apply Hh).
Qed.

Lemma Filtered_PeekNext_of s ts :
  filtered_of s ts ->
  filtered_of (Filtered_PeekNext fuel s).1 ts /\
  (Filtered_PeekNext fuel s).2 = default eofToken (head ts).
Proof.
  intros (seen&us&Hs&->). destruct (skipFiltered_at s seen us Hs)
    as (seen'&us'&(Hk&HR&Hall&Hf)&Hfl&Hh). rewrite <- Hfl. destruct (kept_head us' Hh) as [H1 _].
  unfold Filtered_PeekNext. destruct (PeekNext_of _ _ HR) as [HR1 Ht].
  destruct (PeekNext (tokenStream (skipFiltered fuel s))) as [ts t]. cbn [fst snd] in *. subst t.
  split; [|by rewrite H1]. exists seen', us'. by split_and!.
Qed.

(** After [ConsumeNext] the stream stands at a token it keeps, or at its end. *)
Lemma Filtered_ConsumeNext_at s ts :
  filtered_of s ts ->
  exists seen us, filtered_at (Filtered_ConsumeNext fuel s) seen us /\ tail ts = filter kept us /\
    (forall t, head us = Some t -> kept t).
Proof.
  intros (seen&us&Hs&->). destruct (skipFiltered_at s seen us Hs)
    as (seen'&us'&(Hk&HR&Hall&Hf)&Hfl&Hh). rewrite <- Hfl. destruct (kept_head us' Hh) as [_ H2].
  unfold Filtered_ConsumeNext. pose proof (ConsumeNext_of _ _ HR) as HR1.
  set (s1 := mkFiltered _ _ _).
  assert (exists seen1, filtered_at s1 seen1 (tail us')) as [seen1 Hs1].
  { destruct us' as [|t us']; [exists seen'; by split_and!|]. exists (seen' ++ [t]).
    split_and!; simpl; try done; [by rewrite <- app_assoc|].
    rewrite filter_app, Hf, (filter_cons_False dropped), app_nil_r; [done|]. by apply (Hh t). }
  destruct (skipFiltered_at s1 seen1 _ Hs1) as (seen2&us2&Hs2&Hfl2&Hh2).
  exists seen2, us2. by rewrite Hfl2, <- H2.
Qed.

Lemma Filtered_of_all : @StreamOf (FilteredTokenStream S) (Filtered_stream fuel) filtered_of.
Proof.
  split; intros s ts Hs; [by apply Filtered_PeekNext_of|].
  destruct (Filtered_ConsumeNext_at s ts Hs) as (seen&us&Hus&Hts&_). by exists seen, us.
Qed.
End FilterOf.

(** ** Tokenize *)
Definition comment_kinds : list TokenKind := [SingleLineComment; MultiLineComment; EmptyLine].
Definition Tokenize (src : list Z) : option (FilteredTokenStream TokenChan) :=
  match tokenizeUnfiltered src with
  | Some toks => NewFilteredTokenStream (newTokenChan toks) comment_kinds
  | None => None
  end.

(** The tokens still in the channel, and the one just read. *)
Definition chan_fuel (s : TokenChan) : nat := Datatypes.S (length (tokenChan s)).
Lemma chan_fuel_enough s us : chan_of s us -> (length us <= chan_fuel s)%nat.
Proof.
  unfold chan_of, chan_fuel. destruct (read s); [|by intros <-; lia].
  intros [->|(-> & _)]; cbn; lia.
Qed.
#[export] Instance Tokens_stream : TokenStream (FilteredTokenStream TokenChan) := Filtered_stream chan_fuel.
(** The stream of a file whose tokens are [toks]. *)
Definition tokens_of (toks : list Token) : FilteredTokenStream TokenChan -> list Token -> Prop :=
  filtered_of (R := chan_of) toks comment_kinds.
Lemma comment_kinds_EOF : EOF ∉ comment_kinds.
Proof. apply (bool_decide_unpack _). by vm_compute. Qed.
#[export] Instance tokens_of_stream toks : StreamOf (FilteredTokenStream TokenChan) (tokens_of toks).
Proof. apply Filtered_of_all; [apply comment_kinds_EOF|apply chan_fuel_enough]. Qed.
Lemma tokens_of_new toks :
  tokens_of toks (mkFiltered (newTokenChan toks) comment_kinds [])
    (filter (fun t => Kind t ∉ comment_kinds) toks).
Proof. exists [], toks. by split_and!. Qed.

(** [n] rounds of [PeekNext] and [ConsumeNext]. *)
Fixpoint read_tokens {S} `{TokenStream S} (n : nat) (s : S) : list Token * S :=
  match n with
  | O => ([], s)
  | Datatypes.S n =>
    let '(s1, t) := PeekNext s in
    let '(ts, s2) := read_tokens n (ConsumeNext s1) in
    (t :: ts, s2)
  end.

Lemma read_tokens_snoc {S} `{TokenStream S} n (s : S) :
  (read_tokens (Datatypes.S n) s).2 = ConsumeNext (PeekNext (read_tokens n s).2).1.
Proof.
  assert (forall m s, (read_tokens (Datatypes.S m) s).2 =
            (read_tokens m (ConsumeNext (PeekNext s).1)).2) as Hstep.
  { intros m s0. cbn [read_tokens]. destruct (PeekNext s0) as [s1 t]. cbn [fst].
    by destruct (read_tokens m _). }
  revert s. induction n as [|n IH]; intros s; [apply Hstep|].
  rewrite (Hstep (Datatypes.S n) s), (Hstep n s). apply IH.
Qed.

Lemma read_tokens_of {S} `{StreamOf S R} n s ts :
  R s ts ->
  R (read_tokens n s).2 (drop n ts) /\
  (read_tokens n s).1 = take n (ts ++ replicate n eofToken).
Proof.
  revert s ts. induction n as [|n IH]; intros s ts Hs; [by rewrite drop_0|]. cbn [read_tokens].
  destruct (PeekNext_of _ _ Hs) as [Hs1 Ht]. destruct (PeekNext s) as [s1 t]. cbn [fst snd] in *.
  pose proof (ConsumeNext_of _ _ Hs1) as Hs2. destruct (IH _ _ Hs2) as [H2 H3].
  destruct (read_tokens n (ConsumeNext s1)) as [l s2]. cbn [fst snd] in *. subst t l.
  destruct ts as [|t ts]; simpl in *; [by rewrite drop_nil in H2|].
  split; [done|]. f_equal. change (eofToken :: replicate n eofToken) with (replicate (Datatypes.S n) eofToken).
  rewrite !take_app. f_equal. rewrite !take_replicate. f_equal. lia.
Qed.

(** ** Properties *)

(** C6: [Tokenize] never fails, and reading [n] tokens from the stream it
    returns gives the first [n] tokens of the lexer that are not comments or
    empty lines, then end-of-file tokens; [FilteredTokens] then holds comments
    and empty lines passed over, in source order, and all of those in the
    source once the end of the stream has been read. *)
Theorem Tokenize_reads src n :
  exists toks s, tokenizeUnfiltered src = Some toks /\ Tokenize src = Some s /\
  let keep := filter (fun t => Kind t ∉ comment_kinds) toks in
  let comments := filter (fun t => Kind t ∈ comment_kinds) toks in
  let r := read_tokens n s in
  r.1 = take n (keep ++ replicate n eofToken) /\
  FilteredTokens r.2 `prefix_of` comments /\
  ((length keep < n)%nat -> FilteredTokens r.2 = comments).
Proof.
  destruct (run_new src) as (l&Hrun&_).
  assert (tokenizeUnfiltered src = Some (tokens l)) as Htok
    by (unfold tokenizeUnfiltered; by rewrite Hrun).
  set (toks := tokens l) in *.
  exists toks, (mkFiltered (newTokenChan toks) comment_kinds []).
  split; [done|]. split; [unfold Tokenize; by rewrite Htok|].
  intros keep comments r.
  pose proof (tokens_of_new toks : tokens_of toks _ keep) as H0.
  destruct (read_tokens_of n _ _ H0) as [Hrel Hread]. fold r in Hrel, Hread.
  split; [exact Hread|]. split.
  - destruct Hrel as (seen&us&(_&_&Hall&Hf)&_). unfold FilteredTokens, comments.
    rewrite Hf, Hall, filter_app. by eexists.
  - intros Hn. destruct n as [|n]; [lia|].
    destruct (read_tokens_of n _ _ H0) as [Hrel1 _].
    unfold r. rewrite read_tokens_snoc. destruct (PeekNext_of _ _ Hrel1) as [Hrel2 _].
    destruct (Filtered_ConsumeNext_at toks comment_kinds chan_fuel comment_kinds_EOF chan_fuel_enough _ _ Hrel2)
      as (seen&us&(_&_&Hall&Hf)&Hts&Hh).
    destruct us as [|t us].
    + etrans; [exact Hf|]. rewrite app_nil_r in Hall. unfold comments. by rewrite Hall.
    + exfalso. rewrite filter_cons_True in Hts by (by apply Hh).
      rewrite drop_ge in Hts by lia. done.
Qed.
