(* ===== verification/WellFounded.v ===== *)
(** * Well-founded two-sorted graphs: compiler/utils/wellfounded_graphs.go

    The graph is given by [OutEdges] and [IsSquare]. The one mutable property
    of a node, [KnownWellFounded], is the set [known] of the finder. A holder
    is created once per node of a finder, so a [NodeSet] of holders is a set of
    nodes. Go iterates over maps in any order: [iter] gives the order, and may
    give another one at every iteration. *)
From stdpp Require Import gmap.
From S2P Require Import Prelude.

(** Outcomes of the fuelled functions: [Err tt] is running out of fuel. *)
Abbreviation outcome A := (res unit A).

Section Finder.
Context {node : Type} `{Countable node} {label : Type}.

Record OutEdge := mkEdge { Label : label; Target : node }.

Context (OutEdges : node -> list OutEdge) (IsSquare : node -> bool).
Context (iter : nat -> gset node -> list node).

Inductive visitationState : Type := vsUnvisited | vsVisitStarted | vsVisitEnded.
#[global] Instance visitationState_eq_dec : EqDecision visitationState.
Proof. solve_decision. Defined.

Record nodeHolder := mkHolder {
  parentsToBeNotified : gset node;
  visitationOrder : nat;
  state : visitationState
}.

Record cycleFinder := mkFinder {
  known : gset node;
  nodeToHolder : gmap node nodeHolder;
  foundationSet : gset node;
  pendingSet : gset node;
  visitationIndex : nat
}.

Definition makeCycleFinder (known : gset node) : cycleFinder := mkFinder known ∅ ∅ ∅ 0.

Definition newNodeHolder (order : nat) : nodeHolder := mkHolder ∅ order vsUnvisited.

(** ** Access to the node and its holder *)
Definition KnownWellFounded (n : node) (f : cycleFinder) : bool := bool_decide (n ∈ known f).
Definition SetKnownWellFounded (n : node) (f : cycleFinder) : cycleFinder :=
  mkFinder ({[n]} ∪ known f) (nodeToHolder f) (foundationSet f) (pendingSet f) (visitationIndex f).

Definition holderForNode (n : node) (f : cycleFinder) : cycleFinder :=
  match nodeToHolder f !! n with
  | Some _ => f
  | None =>
    mkFinder (known f) (<[n := newNodeHolder (visitationIndex f)]> (nodeToHolder f))
      (foundationSet f) (pendingSet f) (S (visitationIndex f))
  end.
Definition holder (n : node) (f : cycleFinder) : nodeHolder :=
  default (newNodeHolder 0) (nodeToHolder f !! n).
Definition set_holder (n : node) (h : nodeHolder) (f : cycleFinder) : cycleFinder :=
  mkFinder (known f) (<[n := h]> (nodeToHolder f)) (foundationSet f) (pendingSet f)
    (visitationIndex f).
Definition set_state (n : node) (s : visitationState) (f : cycleFinder) : cycleFinder :=
  let h := holder n f in
  set_holder n (mkHolder (parentsToBeNotified h) (visitationOrder h) s) f.
(** [childHolder.parentsToBeNotified.Add(nodeHolder)] *)
Definition add_parent (child parent : node) (f : cycleFinder) : cycleFinder :=
  let h := holder child f in
  set_holder child (mkHolder ({[parent]} ∪ parentsToBeNotified h) (visitationOrder h) (state h)) f.
Definition add_foundation (n : node) (f : cycleFinder) : cycleFinder :=
  mkFinder (known f) (nodeToHolder f) ({[n]} ∪ foundationSet f) (pendingSet f) (visitationIndex f).
Definition remove_foundation (n : node) (f : cycleFinder) : cycleFinder :=
  mkFinder (known f) (nodeToHolder f) (foundationSet f ∖ {[n]}) (pendingSet f) (visitationIndex f).
Definition add_pending (n : node) (f : cycleFinder) : cycleFinder :=
  mkFinder (known f) (nodeToHolder f) (foundationSet f) ({[n]} ∪ pendingSet f) (visitationIndex f).
Definition remove_pending (n : node) (f : cycleFinder) : cycleFinder :=
  mkFinder (known f) (nodeToHolder f) (foundationSet f) (pendingSet f ∖ {[n]}) (visitationIndex f).

(** ** Phase 1 *)

(** The loop over the out edges of [n]; [visit] is the recursive call. *)
Fixpoint edge_loop (visit : node -> cycleFinder -> outcome cycleFinder) (n : node)
    (edges : list OutEdge) (sawUnverifiedChild : bool) (f : cycleFinder)
    : outcome (bool * cycleFinder) :=
  match edges with
  | [] => Ok (sawUnverifiedChild, f)
  | edge :: edges =>
    let child := Target edge in
    let f := holderForNode child f in
    let? f := if bool_decide (state (holder child f) = vsUnvisited) then visit child f else Ok f in
    if IsSquare n then
      if KnownWellFounded n f then edge_loop visit n edges sawUnverifiedChild f
      else if KnownWellFounded child f
      then edge_loop visit n edges sawUnverifiedChild (SetKnownWellFounded n f)
      else edge_loop visit n edges true (add_parent child n f)
    else
      if negb (KnownWellFounded child f)
      then edge_loop visit n edges true (add_parent child n f)
      else edge_loop visit n edges sawUnverifiedChild f
  end.

Fixpoint checkWellFoundedPhase1 (fuel : nat) (n : node) (f : cycleFinder) : outcome cycleFinder :=
  match fuel with
  | O => Err tt
  | S fuel =>
    if KnownWellFounded n f then Ok (set_state n vsVisitEnded f)
    else
      let f := set_state n vsVisitStarted f in
      let? (sawUnverifiedChild, f) :=
        edge_loop (checkWellFoundedPhase1 fuel) n (OutEdges n) false f in
      let f := if negb sawUnverifiedChild && negb (KnownWellFounded n f)
               then SetKnownWellFounded n f else f in
      let f :=
        if KnownWellFounded n f then
          if negb (bool_decide (parentsToBeNotified (holder n f) = ∅)) then add_foundation n f else f
        else add_pending n f in
      Ok (set_state n vsVisitEnded f)
  end.

(** ** Phase 2 *)

(** The check of a parent that is a circle: every child other than the parent
    itself is known to be well-founded. *)
Definition children_known (p : node) (f : cycleFinder) : bool :=
  forallb (fun edge => bool_decide (Target edge = p) || KnownWellFounded (Target edge) f) (OutEdges p).

Fixpoint notify (parents : list node) (f : cycleFinder) : cycleFinder :=
  match parents with
  | [] => f
  | p :: parents =>
    if bool_decide (p ∈ pendingSet f) then
      if IsSquare p || children_known p f
      then notify parents (remove_pending p (add_foundation p (SetKnownWellFounded p f)))
      else notify parents f
    else notify parents f
  end.

Fixpoint checkWellFoundedPhase2 (fuel : nat) (f : cycleFinder) : outcome cycleFinder :=
  match iter fuel (foundationSet f) with
  | [] => Ok f
  | n :: _ =>
    match fuel with
    | O => Err tt
    | S fuel =>
      let f := remove_foundation n f in
      checkWellFoundedPhase2 fuel (notify (iter fuel (parentsToBeNotified (holder n f))) f)
    end
  end.

(** ** Phase 3 *)
Record CycleDescription := mkCycle { First : node; Last : node; Path : list OutEdge }.

Definition cycle_path (path : list (node * OutEdge)) (cycleStart : node) : list OutEdge :=
  fold_left (fun acc element =>
    if negb (bool_decide (length acc = 0%nat)) || bool_decide (element.1 = cycleStart)
    then acc ++ [element.2] else acc) path [].

Definition newCycleDescription (path : list (node * OutEdge)) (cycleStart end_ : node)
    : outcome CycleDescription :=
  match last path with
  | None => Panic
  | Some (lastNode, lastEdge) =>
    if negb (bool_decide (lastNode = end_)) then Panic
    else if negb (bool_decide (Target lastEdge = cycleStart)) then Panic
    else
      let p := cycle_path path cycleStart in
      match last p with
      | None => Panic
      | Some e =>
        if negb (bool_decide (Target e = cycleStart)) then Panic
        else Ok (mkCycle cycleStart end_ p)
      end
  end.

(** The loop over the out edges of [n]; [recur] is the recursive call. *)
Fixpoint cycle_loop
    (recur : node -> list (node * OutEdge) -> cycleFinder -> outcome CycleDescription)
    (n : node) (path : list (node * OutEdge)) (edges : list OutEdge) (f : cycleFinder)
    : outcome CycleDescription :=
  match edges with
  | [] => Panic
  | edge :: edges =>
    let child := Target edge in
    let f := holderForNode child f in
    if bool_decide (state (holder child f) = vsVisitStarted)
    then newCycleDescription (path ++ [(n, edge)]) child n
    else if negb (KnownWellFounded child f) then recur child (path ++ [(n, edge)]) f
    else cycle_loop recur n path edges f
  end.
Fixpoint findKnownIllFoundedCycle (fuel : nat) (n : node) (path : list (node * OutEdge))
    (f : cycleFinder) : outcome CycleDescription :=
  match fuel with
  | O => Err tt
  | S fuel =>
    cycle_loop (findKnownIllFoundedCycle fuel) n path (OutEdges n) (set_state n vsVisitStarted f)
  end.

(** ** The algorithm *)

(** The pending node with the least visitation order. *)
Definition min_illfounded (f : cycleFinder) (nodes : list node) : option node :=
  snd <$> fold_left (fun (acc : option (nat * node)) n =>
    match acc with
    | None => Some (visitationOrder (holder n f), n)
    | Some (m, _) =>
      if (visitationOrder (holder n f) <? m)%nat then Some (visitationOrder (holder n f), n) else acc
    end) nodes None.

Definition checkWellFounded (fuel : nat) (n : node) (f : cycleFinder)
    : outcome (gset node * option CycleDescription) :=
  if KnownWellFounded n f then Ok (known f, None)
  else
    let? f := checkWellFoundedPhase1 fuel n f in
    if bool_decide (pendingSet f = ∅) then Ok (known f, None)
    else
      let? f := checkWellFoundedPhase2 fuel f in
      if bool_decide (pendingSet f = ∅) then Ok (known f, None)
      else
        match min_illfounded f (iter fuel (pendingSet f)) with
        | None => Panic
        | Some m =>
          let fresh := holderForNode m (makeCycleFinder (known f)) in
          let? c := findKnownIllFoundedCycle fuel m [] fresh in
          Ok (known f, Some c)
        end.

(** [root] is [None] for the nil node. The first result is the set of nodes
    known to be well-founded afterwards. *)
Definition CheckWellFounded (fuel : nat) (known : gset node) (root : option node)
    : outcome (gset node * option CycleDescription) :=
  match root with
  | None => Ok (known, None)
  | Some r => checkWellFounded fuel r (holderForNode r (makeCycleFinder known))
  end.
End Finder.
Arguments OutEdge : clear implicits.
Arguments CycleDescription : clear implicits.
Arguments cycleFinder node {_ _}.
