(* ===== verification/WellFoundedSpec.v ===== *)
(** * Correctness of the well-foundedness check

    [WF] is the definition of well-foundedness in the comments of
    wellfounded_graphs.go. The invariants of the three phases show that
    [CheckWellFounded] decides it on finite graphs without a circle node that
    is its own child, whatever the order of map iteration. *)
From stdpp Require Import gmap.
From S2P Require Import Prelude WellFounded.
#[local] Set Warnings "-clear-no-such-hyp".

Section Spec.
Context {node : Type} `{Countable node} {label : Type}.
Context (OutEdges : node -> list (OutEdge node label)) (IsSquare : node -> bool).

Definition child (n c : node) : Prop := exists e, e ∈ OutEdges n /\ Target e = c.

Inductive WF : node -> Prop :=
| wf_leaf n : OutEdges n = [] -> WF n
| wf_circle n : IsSquare n = false -> (forall c, child n c -> WF c) -> WF n
| wf_square n c : IsSquare n = true -> child n c -> WF c -> WF n.

Inductive reachable (root : node) : node -> Prop :=
| reach_root : reachable root root
| reach_child n c : reachable root n -> child n c -> reachable root c.

(** A walk along edges, and the cycle a description stands for. *)
Fixpoint walk (n : node) (path : list (OutEdge node label)) (m : node) : Prop :=
  match path with
  | [] => n = m
  | e :: path => e ∈ OutEdges n /\ walk (Target e) path m
  end.
Definition is_cycle (c : CycleDescription node label) : Prop :=
  Path c <> [] /\ walk (First c) (Path c) (First c) /\
  (exists e, last (Path c) = Some e /\ e ∈ OutEdges (Last c)).

(** ** Reading the finder *)
Abbreviation finder := (cycleFinder node).
Definition st (f : finder) (n : node) : visitationState := state (holder n f).
Definition par (f : finder) (n : node) : gset node := parentsToBeNotified (holder n f).

Lemma holder_set m n h (f : finder) :
  holder m (set_holder n h f) = if decide (m = n) then h else holder m f.
Proof.
  unfold holder, set_holder. simpl. destruct (decide (m = n)) as [->|Hne].
  - by rewrite lookup_insert_eq.
  - by rewrite lookup_insert_ne.
Qed.
Lemma st_set_state m n s (f : finder) :
  st (set_state n s f) m = if decide (m = n) then s else st f m.
Proof. unfold st, set_state. rewrite holder_set. by destruct (decide (m = n)). Qed.
Lemma par_set_state m n s (f : finder) : par (set_state n s f) m = par f m.
Proof. unfold par, set_state. rewrite holder_set. by destruct (decide (m = n)) as [->|]. Qed.
Lemma st_add_parent m c p (f : finder) : st (add_parent c p f) m = st f m.
Proof. unfold st, add_parent. rewrite holder_set. by destruct (decide (m = c)) as [->|]. Qed.
Lemma par_add_parent m c p (f : finder) :
  par (add_parent c p f) m = if decide (m = c) then {[p]} ∪ par f c else par f m.
Proof. unfold par, add_parent. rewrite holder_set. by destruct (decide (m = c)). Qed.
Lemma holderForNode_same n (f : finder) :
  (forall m, st (holderForNode n f) m = st f m /\ par (holderForNode n f) m = par f m) /\
  known (holderForNode n f) = known f /\ foundationSet (holderForNode n f) = foundationSet f /\
  pendingSet (holderForNode n f) = pendingSet f.
Proof.
  unfold holderForNode. destruct (nodeToHolder f !! n) eqn:E; [done|]. split_and!; try done.
  intros m. unfold st, par, holder. simpl. destruct (decide (m = n)) as [->|Hne].
  - by rewrite lookup_insert_eq, E.
  - by rewrite lookup_insert_ne.
Qed.

(** ** Phase 1 *)
Section Phase1.
Context (U K0 : gset node).
Context (U_closed : forall n c, n ∈ U -> child n c -> c ∈ U).

(** The back links of a pending node. *)
Definition pending_ok (p : node) (f : finder) : Prop :=
  (forall c, child p c -> c ∈ known f \/ p ∈ par f c) /\
  (exists c, child p c /\ p ∈ par f c) /\
  (IsSquare p = true -> forall c, child p c -> p ∈ par f c).
Lemma pending_ok_mono p f f' :
  (forall n, n ∈ known f -> n ∈ known f') -> (forall c q, q ∈ par f c -> q ∈ par f' c) ->
  pending_ok p f -> pending_ok p f'.
Proof.
  intros Hk Hp (A&(c&B1&B2)&C). split_and!; [|eauto|eauto].
  intros c' Hc'. destruct (A c' Hc'); auto.
Qed.

Record Inv (f : finder) : Prop := {
  i_wf n : n ∈ known f -> WF n;
  i_new n : n ∈ known f -> n ∈ K0 \/ st f n <> vsUnvisited;
  i_old n : n ∈ K0 -> n ∈ known f;
  i_PK n : n ∈ pendingSet f -> (n ∉ known f) /\ st f n = vsVisitEnded;
  i_end n : st f n = vsVisitEnded -> n ∈ known f \/ n ∈ pendingSet f;
  i_F n : n ∈ foundationSet f -> n ∈ known f /\ st f n <> vsUnvisited;
  i_vis n c : st f n = vsVisitEnded -> n ∉ K0 -> child n c -> st f c <> vsUnvisited;
  i_U n : st f n <> vsUnvisited -> n ∈ U;
  i_P p : p ∈ pendingSet f -> pending_ok p f;
  i_par p c : p ∈ par f c -> child p c /\ st f c <> vsUnvisited /\
    (c ∈ known f -> c ∈ foundationSet f \/ st f c = vsVisitStarted)
}.

(** How a visit extends the finder; the nodes of [X] may have become known. *)
Record ext (X : node -> Prop) (f f' : finder) : Prop := {
  e_st m : st f m <> vsUnvisited -> st f' m = st f m;
  e_started m : st f' m = vsVisitStarted -> st f m = vsVisitStarted;
  e_known m : m ∈ known f -> m ∈ known f';
  e_known' m : st f m <> vsUnvisited -> (m ∈ known f') -> (m ∈ known f) \/ X m;
  e_par p c : p ∈ par f c -> p ∈ par f' c
}.

Lemma ext_refl X f : ext X f f.
Proof. split; auto. Qed.
Lemma ext_trans X f1 f2 f3 : ext X f1 f2 -> ext X f2 f3 -> ext X f1 f3.
Proof.
  intros E1 E2. split.
  - intros m Hm. rewrite (e_st _ _ _ E2), (e_st _ _ _ E1); [done..|].
    by rewrite (e_st _ _ _ E1).
  - intros m Hm. by apply (e_started _ _ _ E1), (e_started _ _ _ E2).
  - intros m Hm. by apply (e_known _ _ _ E2), (e_known _ _ _ E1).
  - intros m Hm Hk. destruct (e_known' _ _ _ E2 m) as [Hk2|]; [by rewrite (e_st _ _ _ E1)|done| |by right].
    by apply (e_known' _ _ _ E1).
  - intros p c Hp. by apply (e_par _ _ _ E2), (e_par _ _ _ E1).
Qed.
Lemma ext_weaken (X Y : node -> Prop) f f' : (forall m, X m -> Y m) -> ext X f f' -> ext Y f f'.
Proof. intros HXY [? ? ? Hk ?]. split; try done. intros m Hm Hm'. destruct (Hk m); auto. Qed.

(** Two finders that differ only in visitation orders. *)
Definition eqv (f f' : finder) : Prop :=
  (forall m, st f' m = st f m /\ par f' m = par f m) /\ known f' = known f /\
  foundationSet f' = foundationSet f /\ pendingSet f' = pendingSet f.
Lemma Inv_eqv f f' : eqv f f' -> Inv f -> Inv f'.
Proof.
  intros (Hs&Hk&HF&HP) I.
  assert (forall m, st f' m = st f m) as Est by (intros; apply Hs).
  assert (forall m, par f' m = par f m) as Epar by (intros; apply Hs).
  split; intros *; rewrite ?Hk, ?HF, ?HP, ?Est, ?Epar; try apply I.
  intros Hp. eapply pending_ok_mono; [..|by apply I]; intros *; by rewrite ?Hk, ?Epar.
Qed.
Lemma ext_eqv X f f' : eqv f f' -> ext X f f'.
Proof.
  intros (Hs&Hk&HF&HP). split; intros *; rewrite ?Hk; try (destruct (Hs m) as [-> _]); auto.
  by destruct (Hs c) as [_ ->].
Qed.

(** The unvisited nodes bound the depth of the traversal. *)
Definition unvisited (f : finder) : gset node := filter (fun n => st f n = vsUnvisited) U.
Lemma unvisited_ext X f f' : ext X f f' -> unvisited f' ⊆ unvisited f.
Proof.
  intros E n. unfold unvisited. rewrite !elem_of_filter. intros [Hs Hn]. split; [|done].
  destruct (decide (st f n = vsUnvisited)) as [|Hne]; [done|]. by rewrite <- (e_st _ _ _ E n Hne).
Qed.

(** What has been established about [n] after the edges [done]. *)
Definition loop_inv (n : node) (done : list (OutEdge node label)) (saw : bool) (f : finder) : Prop :=
  (forall e, e ∈ done -> st f (Target e) <> vsUnvisited) /\
  (IsSquare n = false -> (n ∉ known f) /\
    (forall e, e ∈ done -> Target e ∈ known f \/ n ∈ par f (Target e)) /\
    if saw then exists e, e ∈ done /\ n ∈ par f (Target e)
    else forall e, e ∈ done -> Target e ∈ known f) /\
  (IsSquare n = true -> n ∉ known f ->
    (forall e, e ∈ done -> n ∈ par f (Target e)) /\ (saw = true <-> done <> [])).

Definition visit_spec (fuel : nat) (visit : node -> finder -> outcome finder) : Prop :=
  forall c f, Inv f -> c ∈ U -> st f c = vsUnvisited -> (size (unvisited f) <= fuel)%nat ->
  exists f', visit c f = Ok f' /\ Inv f' /\ ext (fun _ => False) f f' /\ st f' c = vsVisitEnded.

(** Marking a started node as known, and adding a back link, keep the invariant. *)
Lemma Inv_set_known n f :
  Inv f -> st f n = vsVisitStarted -> WF n -> Inv (SetKnownWellFounded n f).
Proof.
  intros I Hs Hwf. split; simpl; intros *.
  - intros [->%elem_of_singleton|Hk]%elem_of_union; [done|by apply I].
  - intros [->%elem_of_singleton|Hk]%elem_of_union; [right|by apply I].
    change (st f n <> vsUnvisited). by rewrite Hs.
  - intros Hk. apply elem_of_union_r. by apply I.
  - intros HP. destruct (i_PK _ I _ HP) as [Hk He]. split; [|done].
    intros [->%elem_of_singleton|?]%elem_of_union; [|done]. by rewrite Hs in He.
  - intros He. destruct (i_end _ I _ He); [left; by apply elem_of_union_r|by right].
  - intros HF. destruct (i_F _ I _ HF). split; [by apply elem_of_union_r|done].
  - apply I.
  - apply I.
  - intros HP. eapply pending_ok_mono; [..|by apply I]; [|done]. intros *. apply elem_of_union_r.
  - intros Hp. destruct (i_par _ I _ _ Hp) as (A&B&C). split_and!; [done..|].
    intros [->%elem_of_singleton|?]%elem_of_union; [by right|by apply C].
Qed.

Lemma Inv_add_parent c p f :
  Inv f -> child p c -> st f c <> vsUnvisited -> c ∉ known f -> Inv (add_parent c p f).
Proof.
  intros I Hc Hs Hk.
  assert (forall m, m <> c -> par (add_parent c p f) m = par f m) as Hpm.
  { intros m Hm. rewrite par_add_parent. by rewrite decide_False. }
  assert (forall m q, q ∈ par f m -> q ∈ par (add_parent c p f) m) as Hmono.
  { intros m q. rewrite par_add_parent. destruct (decide (m = c)) as [->|]; [|done].
    intros. by apply elem_of_union_r. }
  split; intros *; rewrite ?st_add_parent; try apply I.
  - intros HP. eapply pending_ok_mono; [..|by apply I]; auto.
  - rewrite par_add_parent. destruct (decide (c0 = c)) as [->|Hne]; [|apply I].
    intros [->%elem_of_singleton|Hp]%elem_of_union; [|by apply I]. split_and!; try done.
Qed.

Lemma loop_inv_mono X n done saw f f' :
  ext X f f' -> ~ X n -> st f n = vsVisitStarted -> loop_inv n done saw f -> loop_inv n done saw f'.
Proof.
  intros E HX Hs (A&B&C).
  assert (n ∈ known f' -> n ∈ known f) as Hn.
  { intros Hk. destruct (e_known' _ _ _ E n) as [|]; [by rewrite Hs|done..]. }
  split_and!.
  - intros e He. rewrite (e_st _ _ _ E); auto.
  - intros Hc. destruct (B Hc) as (B1&B2&B3). split_and!; [auto| |].
    + intros e He. destruct (B2 e He); [left; by apply (e_known _ _ _ E)|right; by apply (e_par _ _ _ E)].
    + destruct saw.
      * destruct B3 as (e&He&Hp). exists e. split; [done|]. by apply (e_par _ _ _ E).
      * intros e He. apply (e_known _ _ _ E). auto.
  - intros Hc Hk. destruct (C Hc) as (C1&C2); [intros ?; apply Hk; by apply (e_known _ _ _ E)|].
    split; [|done]. intros e He. apply (e_par _ _ _ E). auto.
Qed.

Lemma ext_add_parent X c p f : ext X f (add_parent c p f).
Proof.
  split; intros *; rewrite ?st_add_parent; auto. rewrite par_add_parent.
  destruct (decide _) as [->|]; [|done]. intros. by apply elem_of_union_r.
Qed.
Lemma ext_set_known n f : ext (eq n) f (SetKnownWellFounded n f).
Proof.
  split; simpl; intros *; auto.
  - intros. by apply elem_of_union_r.
  - intros _ [->%elem_of_singleton|]%elem_of_union; auto.
Qed.

Lemma edge_loop_ok fuel visit n edges :
  visit_spec fuel visit -> n ∈ U -> n ∉ K0 ->
  forall done saw f, OutEdges n = done ++ edges -> Inv f -> st f n = vsVisitStarted ->
  (size (unvisited f) <= fuel)%nat -> loop_inv n done saw f ->
  exists saw' f', edge_loop IsSquare visit n edges saw f = Ok (saw', f') /\ Inv f' /\
    ext (eq n) f f' /\ loop_inv n (OutEdges n) saw' f'.
Proof.
  intros Hvisit HU HK0. induction edges as [|e edges IH]; intros dn saw f He I Hs Hf HL.
  { rewrite app_nil_r in He. rewrite He. exists saw, f. split_and!; try done. apply ext_refl. }
  cbn [edge_loop]. cbv zeta. set (c := Target e).
  assert (child n c) as Hc by (exists e; split; [rewrite He; apply elem_of_app; right; by left|done]).
  pose proof (holderForNode_same c f) as Heq. set (f1 := holderForNode c f) in *.
  pose proof (Inv_eqv _ _ Heq I) as I1.
  pose proof (ext_eqv (fun _ => False) _ _ Heq) as E1.
  assert (exists f2, (if bool_decide (state (holder c f1) = vsUnvisited) then visit c f1 else Ok f1) = Ok f2
    /\ Inv f2 /\ ext (fun _ => False) f f2 /\ st f2 c <> vsUnvisited) as (f2&->&I2&E2&Hc2).
  { case_bool_decide as Hst.
    - destruct (Hvisit c f1 I1) as (f2&Hv&I2&E2&Hs2); [by apply (U_closed n)|done| |].
      + pose proof (subseteq_size _ _ (unvisited_ext _ _ _ E1)). lia.
      + exists f2. split_and!; [done..|by eapply ext_trans|by rewrite Hs2].
    - exists f1. by split_and!. }
  cbn [res_bind].
  assert (st f2 n = vsVisitStarted) as Hs2 by (rewrite (e_st _ _ _ E2); [done|by rewrite Hs]).
  pose proof (loop_inv_mono _ _ _ _ _ _ E2 (fun H => H) Hs HL) as HL2.
  assert (forall saw' f', Inv f' -> ext (eq n) f f' -> loop_inv n (dn ++ [e]) saw' f' ->
    exists saw'' f'', edge_loop IsSquare visit n edges saw' f' = Ok (saw'', f'') /\ Inv f'' /\
      ext (eq n) f f'' /\ loop_inv n (OutEdges n) saw'' f'') as Hgo.
  { intros saw' f' I' E' HL'. destruct (IH (dn ++ [e]) saw' f') as (saw2&f3&H1&H2&H3&H4).
    - by rewrite <- app_assoc.
    - done.
    - rewrite (e_st _ _ _ E'); [done|by rewrite Hs].
    - pose proof (subseteq_size _ _ (unvisited_ext _ _ _ E')). lia.
    - done.
    - exists saw2, f3. split_and!; [done..|by eapply ext_trans|done]. }
  apply (ext_weaken _ (eq n)) in E2; [|done].
  destruct HL2 as (A&B&C).
  assert (forall f', (forall m, st f' m = st f2 m) -> forall e', e' ∈ dn ++ [e] -> st f' (Target e') <> vsUnvisited) as HA.
  { intros f' Hst e' [He'| ->%list_elem_of_singleton]%elem_of_app; rewrite Hst; auto. }
  assert (n ∈ par (add_parent c n f2) c) as Hnc
    by (rewrite par_add_parent, decide_True by done; by apply elem_of_union_l, elem_of_singleton).
  assert (forall m, n ∈ par f2 m -> n ∈ par (add_parent c n f2) m) as Hpm
    by (intros m; apply (e_par (eq n) _ _ (ext_add_parent _ c n f2))).
  assert (KnownWellFounded c f2 = false -> Inv (add_parent c n f2)) as Hadd.
  { intros Hk. apply Inv_add_parent; try done. by apply bool_decide_eq_false in Hk. }
  unfold KnownWellFounded. destruct (IsSquare n) eqn:Hsq.
  - case_bool_decide as Hkn.
    + apply Hgo; [done..|]. split_and!; [by apply HA|by rewrite Hsq|done].
    + case_bool_decide as Hkc.
      * apply Hgo; [apply Inv_set_known; [done..|apply (wf_square n c); [done..|by apply I2]]|..].
        { eapply ext_trans; [exact E2|apply ext_set_known]. }
        split_and!; [by apply HA|by rewrite Hsq|]. intros _ Hk. destruct Hk.
        by apply elem_of_union_l, elem_of_singleton.
      * apply Hgo; [apply Hadd; by apply bool_decide_eq_false|by eapply ext_trans, ext_add_parent|].
        split_and!; [apply HA; intros; apply st_add_parent|by rewrite Hsq|].
        intros _ Hk. destruct (C eq_refl Hk) as [C1 C2]. split.
        -- intros e' [He'| ->%list_elem_of_singleton]%elem_of_app; auto.
        -- split; [|done]. intros _ Hnil. by destruct dn.
  - destruct (B eq_refl) as (B1&B2&B3). case_bool_decide as Hkc; cbn [negb].
    + apply Hgo; [done..|]. split_and!; [by apply HA| |by rewrite Hsq]. intros _. split_and!; [done| |].
      * intros e' [He'| ->%list_elem_of_singleton]%elem_of_app; auto.
      * destruct saw; [destruct B3 as (e'&?&?); exists e'; split; [apply elem_of_app; by left|done]|].
        intros e' [He'| ->%list_elem_of_singleton]%elem_of_app; auto.
    + apply Hgo; [apply Hadd; by apply bool_decide_eq_false|by eapply ext_trans, ext_add_parent|].
      split_and!; [apply HA; intros; apply st_add_parent| |by rewrite Hsq]. intros _. split_and!; [done| |].
      * intros e' [He'| ->%list_elem_of_singleton]%elem_of_app; [|by right].
        destruct (B2 e' He'); auto.
      * exists e. split; [apply elem_of_app; right; by apply list_elem_of_singleton|done].
Qed.

(** The visit of an unvisited node. *)
Lemma unvisited_start n f :
  n ∈ U -> st f n = vsUnvisited ->
  (size (unvisited (set_state n vsVisitStarted f)) < size (unvisited f))%nat.
Proof.
  intros HU Hs. apply subset_size. split.
  - intros m. unfold unvisited. rewrite !elem_of_filter, st_set_state.
    destruct (decide (m = n)); [by intros [? _]|done].
  - intros Hsub. assert (n ∈ unvisited f) as Hn by by apply elem_of_filter.
    apply Hsub, elem_of_filter in Hn as [Hn _]. by rewrite st_set_state, decide_True in Hn.
Qed.

Lemma Inv_visit_known n f :
  Inv f -> n ∈ U -> st f n = vsUnvisited -> n ∈ known f -> Inv (set_state n vsVisitEnded f).
Proof.
  intros I HU Hs Hk.
  assert (n ∈ K0) as HK0 by (destruct (i_new _ I n Hk); done).
  split; intros *; rewrite ?st_set_state, ?par_set_state; try apply I.
  - intros Hn. destruct (i_new _ I _ Hn); [by left|right]. by destruct (decide (n0 = n)).
  - intros HP. destruct (i_PK _ I _ HP) as [? He]. split; [done|]. by destruct (decide (n0 = n)).
  - destruct (decide (n0 = n)) as [->|]; [by left|apply I].
  - intros HF. destruct (i_F _ I _ HF). by destruct (decide (n0 = n)).
  - destruct (decide (n0 = n)) as [->|]; [done|]. intros He Hn Hc.
    destruct (decide (c = n)); [done|]. by apply (i_vis _ I n0).
  - destruct (decide (n0 = n)) as [->|]; [done|apply I].
  - intros Hp. eapply pending_ok_mono; [..|by apply I]; intros *; by rewrite ?par_set_state.
  - intros Hp. destruct (i_par _ I _ _ Hp) as (A&B&C). destruct (decide (c = n)) as [->|]; done.
Qed.

Lemma Inv_visit_start n f :
  Inv f -> n ∈ U -> st f n = vsUnvisited -> Inv (set_state n vsVisitStarted f).
Proof.
  intros I HU Hs.
  split; intros *; rewrite ?st_set_state, ?par_set_state; try apply I.
  - intros Hn. destruct (i_new _ I _ Hn); [by left|right]. by destruct (decide (n0 = n)).
  - intros HP. destruct (i_PK _ I _ HP) as [? He]. split; [done|].
    destruct (decide (n0 = n)) as [->|]; [by rewrite Hs in He|done].
  - destruct (decide (n0 = n)) as [->|]; [done|apply I].
  - intros HF. destruct (i_F _ I _ HF). by destruct (decide (n0 = n)).
  - destruct (decide (n0 = n)) as [->|]; [done|]. intros He Hn Hc.
    destruct (decide (c = n)); [done|]. by apply (i_vis _ I n0).
  - destruct (decide (n0 = n)) as [->|]; [done|apply I].
  - intros Hp. eapply pending_ok_mono; [..|by apply I]; intros *; by rewrite ?par_set_state.
  - intros Hp. destruct (i_par _ I _ _ Hp) as (A&B&C). destruct (decide (c = n)) as [->|]; done.
Qed.

(** The end of a visit: a node whose edges have all been examined is put in the
    foundation set, in the pending set or in neither. *)
Lemma Inv_end_known n f :
  Inv f -> st f n = vsVisitStarted -> n ∈ known f ->
  (forall e, e ∈ OutEdges n -> st f (Target e) <> vsUnvisited) ->
  Inv (set_state n vsVisitEnded
         (if negb (bool_decide (par f n = ∅)) then add_foundation n f else f)).
Proof.
  intros I Hs Hk Hvis. set (f1 := if negb _ then _ else _).
  assert ((forall m, st f1 m = st f m /\ par f1 m = par f m) /\ known f1 = known f /\
          pendingSet f1 = pendingSet f) as (Hsp&HK&HP) by (subst f1; by destruct (negb _)).
  assert (forall m, st f1 m = st f m) as Est by (intros; apply Hsp).
  assert (forall m, par f1 m = par f m) as Epar by (intros; apply Hsp).
  assert (forall m, m ∈ foundationSet f1 -> m = n \/ m ∈ foundationSet f) as HF.
  { subst f1. destruct (negb _); [|by right]. simpl. intros m [->%elem_of_singleton|]%elem_of_union; auto. }
  assert (forall m, m ∈ foundationSet f -> m ∈ foundationSet f1) as HF'.
  { subst f1. destruct (negb _); [|done]. simpl. intros. by apply elem_of_union_r. }
  assert (forall p, p ∈ par f n -> n ∈ foundationSet f1) as HFn.
  { intros p Hp. subst f1. case_bool_decide as E; [by rewrite E in Hp; apply not_elem_of_empty in Hp|].
    simpl. by apply elem_of_union_l, elem_of_singleton. }
  split; intros *; cbn [known pendingSet foundationSet set_state set_holder];
    rewrite ?st_set_state, ?par_set_state, ?Est, ?Epar, ?HK, ?HP; try apply I.
  - intros Hn. destruct (i_new _ I _ Hn); [by left|right]. by destruct (decide (n0 = n)).
  - intros Hn. destruct (i_PK _ I _ Hn) as [? He]. split; [done|]. by destruct (decide (n0 = n)).
  - destruct (decide (n0 = n)) as [->|]; [by left|apply I].
  - intros [->|Hn]%HF; [by rewrite decide_True|]. destruct (i_F _ I _ Hn). by destruct (decide (n0 = n)).
  - destruct (decide (n0 = n)) as [->|].
    + intros _ _ (e&He&<-). destruct (decide (Target e = n)); [done|]. auto.
    + intros He Hn Hc. destruct (decide (c = n)); [done|]. by apply (i_vis _ I n0).
  - destruct (decide (n0 = n)) as [->|]; intros Hn; apply (i_U _ I); [by rewrite Hs|done].
  - intros Hp. eapply pending_ok_mono; [..|by apply I]; intros *; cbn [known set_state set_holder];
      by rewrite ?par_set_state, ?Epar, ?HK.
  - intros Hp. destruct (i_par _ I _ _ Hp) as (A&B&C). destruct (decide (c = n)) as [->|].
    + split_and!; [done..|]. intros _. left. by apply (HFn p).
    + split_and!; [done..|]. intros Hc. destruct (C Hc); auto.
Qed.

Lemma Inv_end_pending n f :
  Inv f -> st f n = vsVisitStarted -> n ∉ known f -> pending_ok n f ->
  (forall e, e ∈ OutEdges n -> st f (Target e) <> vsUnvisited) ->
  Inv (set_state n vsVisitEnded (add_pending n f)).
Proof.
  intros I Hs Hk Hpo Hvis.
  assert (forall m, st (add_pending n f) m = st f m) as Est by done.
  assert (forall m, par (add_pending n f) m = par f m) as Epar by done.
  split; intros *; cbn [known pendingSet foundationSet set_state set_holder add_pending];
    rewrite ?st_set_state, ?par_set_state, ?Est, ?Epar; try apply I.
  - intros Hn. destruct (i_new _ I _ Hn); [by left|right]. by destruct (decide (n0 = n)).
  - intros [->%elem_of_singleton|Hn]%elem_of_union; [by rewrite decide_True|].
    destruct (i_PK _ I _ Hn) as [? He]. split; [done|]. by destruct (decide (n0 = n)).
  - destruct (decide (n0 = n)) as [->|]; [right; by apply elem_of_union_l, elem_of_singleton|].
    intros He. destruct (i_end _ I _ He); [by left|right; by apply elem_of_union_r].
  - intros Hn. destruct (i_F _ I _ Hn). by destruct (decide (n0 = n)).
  - destruct (decide (n0 = n)) as [->|].
    + intros _ _ (e&He&<-). destruct (decide (Target e = n)); [done|]. auto.
    + intros He Hn Hc. destruct (decide (c = n)); [done|]. by apply (i_vis _ I n0).
  - destruct (decide (n0 = n)) as [->|]; intros Hn; apply (i_U _ I); [by rewrite Hs|done].
  - intros Hp. apply (pending_ok_mono p f); [done|intros *; by rewrite par_set_state|].
    apply elem_of_union in Hp as [->%elem_of_singleton|Hp]; [done|by apply I].
  - intros Hp. destruct (i_par _ I _ _ Hp) as (A&B&C). destruct (decide (c = n)) as [->|]; [|done].
    split_and!; [done..|]. done.
Qed.

(** What a visit of [n] changes, seen from before it. *)
Lemma visit_ext n f f1 f2 f4 :
  st f n = vsUnvisited -> n ∉ known f -> f1 = set_state n vsVisitStarted f -> ext (eq n) f1 f2 ->
  (forall m, st f4 m = st f2 m) -> (forall m, par f4 m = par f2 m) ->
  (forall m, m ∈ known f2 -> m ∈ known f4) -> (forall m, m ∈ known f4 -> n = m \/ m ∈ known f2) ->
  ext (fun _ => False) f (set_state n vsVisitEnded f4).
Proof.
  intros Hs Hk -> E Est Epar K1 K2. split; intros *; rewrite ?st_set_state, ?par_set_state, ?Est, ?Epar.
  - intros Hm. destruct (decide (m = n)) as [->|Hne]; [done|].
    rewrite (e_st _ _ _ E), st_set_state, decide_False; [done|done|].
    by rewrite st_set_state, decide_False.
  - destruct (decide (m = n)) as [->|Hne]; [done|]. intros Hm.
    apply (e_started _ _ _ E) in Hm. by rewrite st_set_state, decide_False in Hm.
  - intros Hm. apply K1, (e_known _ _ _ E). done.
  - intros Hm Hm4. assert (m <> n) as Hne by by intros ->.
    destruct (K2 m Hm4) as [|Hm2]; [done|]. left.
    destruct (e_known' _ _ _ E m) as [|]; [by rewrite st_set_state, decide_False|done..].
  - intros Hp. apply (e_par _ _ _ E). by rewrite par_set_state.
Qed.

Lemma phase1_ok fuel : visit_spec fuel (checkWellFoundedPhase1 OutEdges IsSquare fuel).
Proof.
  induction fuel as [|fuel IH]; intros n f I HU Hs Hf.
  { pose proof (unvisited_start n f HU Hs). lia. }
  cbn [checkWellFoundedPhase1]. unfold KnownWellFounded at 1. case_bool_decide as Hk.
  { eexists. split; [done|]. split; [by apply Inv_visit_known|].
    split; [|by rewrite st_set_state, decide_True].
    split; intros *; rewrite ?st_set_state, ?par_set_state; auto;
      destruct (decide (m = n)) as [->|]; done. }
  set (f1 := set_state n vsVisitStarted f).
  pose proof (Inv_visit_start n f I HU Hs) as I1. fold f1 in I1.
  assert (st f1 n = vsVisitStarted) as Hs1 by (unfold f1; by rewrite st_set_state, decide_True).
  destruct (edge_loop_ok fuel (checkWellFoundedPhase1 OutEdges IsSquare fuel) n (OutEdges n) IH HU)
    with (done := @nil (OutEdge node label)) (saw := false) (f := f1)
    as (saw&f2&->&I2&E2&(A&B&C)); try done.
  { intros HK0. apply Hk. by apply I. }
  { pose proof (unvisited_start n f HU Hs). fold f1 in H0. lia. }
  { split_and!; [by intros ? ?%elem_of_nil|intros _|intros _ _].
    - split_and!; [done|by intros ? ?%elem_of_nil..].
    - split; [by intros ? ?%elem_of_nil|done]. }
  cbn [res_bind]. unfold KnownWellFounded.
  assert (st f2 n = vsVisitStarted) as Hs2 by (rewrite (e_st _ _ _ E2); [done|by rewrite Hs1]).
  destruct (bool_decide_reflect (n ∈ known f2)) as [Hk2|Hk2].
  - rewrite andb_false_r, bool_decide_true by done. eexists. split; [done|].
    split; [by apply Inv_end_known|].
    split; [|by rewrite st_set_state, decide_True].
    apply (visit_ext n f f1 f2); try done; intros m; destruct (negb _); auto.
  - cbn [negb]. rewrite andb_true_r. destruct saw; cbn [negb].
    + rewrite bool_decide_false by done. eexists. split; [done|].
      split; [apply Inv_end_pending; try done|].
      * destruct (IsSquare n) eqn:Hsq.
        -- destruct (C eq_refl Hk2) as [C1 C2]. split_and!.
           ++ intros c (e&He&<-). right. auto.
           ++ destruct (OutEdges n) as [|e es] eqn:Ho; [by destruct (proj1 C2 eq_refl)|].
              exists (Target e). assert (e ∈ e :: es) by by left. split; [|auto].
              exists e. by rewrite Ho.
           ++ intros _ c (e&He&<-). auto.
        -- destruct (B eq_refl) as (B1&B2&(e&He&Hp)). split_and!.
           ++ intros c (e'&He'&<-). auto.
           ++ exists (Target e). split; [by exists e|done].
           ++ by rewrite Hsq.
      * split; [|by rewrite st_set_state, decide_True].
        apply (visit_ext n f f1 f2); try done; intros m; auto.
    + assert (WF n) as Hwf.
      { destruct (IsSquare n) eqn:Hsq.
        - destruct (C eq_refl Hk2) as [C1 C2]. apply wf_leaf.
          destruct (OutEdges n) eqn:Ho; [done|].
          assert (false = true) as [=] by (by apply C2).
        - destruct (B eq_refl) as (B1&B2&B3). apply wf_circle; [done|].
          intros c (e&He&<-). apply (i_wf _ I2). auto. }
      pose proof (Inv_set_known n f2 I2 Hs2 Hwf) as I3.
      assert (n ∈ known (SetKnownWellFounded n f2)) as Hk3 by by apply elem_of_union_l, elem_of_singleton.
      rewrite bool_decide_true by done. eexists. split; [done|].
      split; [by apply Inv_end_known|].
      split; [|by rewrite st_set_state, decide_True].
      apply (visit_ext n f f1 f2); try done; intros m.
      * by destruct (negb _).
      * by destruct (negb _).
      * intros Hm. destruct (negb _); by apply elem_of_union_r.
      * intros Hm. assert (m ∈ {[n]} ∪ known f2) as Hm2 by by destruct (negb _).
        apply elem_of_union in Hm2 as [->%elem_of_singleton|]; auto.
Qed.
End Phase1.


(** ** Phase 2 *)
Section Phase2.
Context (iter : nat -> gset node -> list node).
Context (iter_perm : forall k X, iter k X ≡ₚ elements X).
Context (V K1 : node -> Prop).
Context (no_loop : forall n, V n -> IsSquare n = false -> ~ child n n).

(** [Q c p]: the child [c], known to be well-founded, has yet to notify [p]. *)
Record J (f : finder) (Q : node -> node -> Prop) : Prop := {
  j_wf n : n ∈ known f -> WF n;
  j_P p : p ∈ pendingSet f -> (p ∉ known f) /\ V p;
  j_V n : V n -> n ∈ known f \/ n ∈ pendingSet f;
  j_child p c : p ∈ pendingSet f -> child p c -> V c;
  j_F n : n ∈ foundationSet f -> n ∈ known f;
  j_par p c : p ∈ par f c -> child p c;
  j_link p c : p ∈ pendingSet f -> child p c -> c ∈ known f \/ p ∈ par f c;
  j_circle p : p ∈ pendingSet f -> IsSquare p = false ->
    exists c, p ∈ par f c /\ (c ∈ pendingSet f \/ Q c p);
  j_square p : p ∈ pendingSet f -> IsSquare p = true ->
    (exists c, child p c) /\ forall c, child p c -> p ∈ par f c /\ (c ∈ pendingSet f \/ Q c p);
  j_new n : n ∈ known f -> K1 n \/ V n
}.

Lemma J_impl f (Q Q' : node -> node -> Prop) :
  (forall c p, p ∈ pendingSet f -> p ∈ par f c -> Q c p -> c ∈ pendingSet f \/ Q' c p) -> J f Q -> J f Q'.
Proof.
  intros HQ I. split; try apply I.
  - intros p Hp Hs. destruct (j_circle _ _ I p Hp Hs) as (c&Hc&[|]); exists c; [auto|].
    split; [done|]. by apply HQ.
  - intros p Hp Hs. destruct (j_square _ _ I p Hp Hs) as [A B]. split; [done|].
    intros c Hc. destruct (B c Hc) as [Hpc [|]]; [auto|]. split; [done|]. by apply HQ.
Qed.

(** A pending node is moved to the foundation set. *)
Definition promote (p : node) (f : finder) : finder :=
  remove_pending p (add_foundation p (SetKnownWellFounded p f)).

Lemma promote_J p f Q :
  J f Q -> p ∈ pendingSet f -> WF p -> J (promote p f) (fun c q => c = p \/ Q c q).
Proof.
  intros I Hp Hwf.
  assert (forall m, m ∈ pendingSet (promote p f) <-> m ∈ pendingSet f /\ m <> p) as HP.
  { intros m. simpl. by rewrite elem_of_difference, elem_of_singleton. }
  assert (forall m, m ∈ known (promote p f) <-> m = p \/ m ∈ known f) as HK.
  { intros m. simpl. by rewrite elem_of_union, elem_of_singleton. }
  assert (forall m, m ∈ foundationSet (promote p f) <-> m = p \/ m ∈ foundationSet f) as HF.
  { intros m. simpl. by rewrite elem_of_union, elem_of_singleton. }
  assert (forall m, par (promote p f) m = par f m) as Hpar by done.
  split; intros *; rewrite ?HP, ?HK, ?HF, ?Hpar.
  - intros [->|]; [done|by apply I].
  - intros [Hn Hne]. destruct (j_P _ _ I _ Hn). split; [|done]. by intros [|].
  - intros Hn. destruct (decide (n = p)) as [->|]; [auto|]. destruct (j_V _ _ I n Hn); auto.
  - intros [Hn _]. by apply I.
  - intros [->|Hn]; [by left|right; by apply I].
  - apply I.
  - intros [Hn _] Hc. destruct (j_link _ _ I _ _ Hn Hc); auto.
  - intros [Hn _] Hs. destruct (j_circle _ _ I _ Hn Hs) as (c&Hc&Hor). exists c. split; [done|].
    rewrite HP. destruct (decide (c = p)) as [->|]; [auto|]. destruct Hor; auto.
  - intros [Hn _] Hs. destruct (j_square _ _ I _ Hn Hs) as [A B]. split; [done|].
    intros c Hc. destruct (B c Hc) as [Hpc Hor]. split; [done|]. rewrite HP.
    destruct (decide (c = p)) as [->|]; [auto|]. destruct Hor; auto.
  - intros [->|Hn]; [right; by apply (j_P _ _ I)|by apply I].
Qed.

Lemma children_known_spec p f :
  children_known OutEdges p f = true <-> forall c, child p c -> c = p \/ c ∈ known f.
Proof.
  unfold children_known. rewrite forallb_forall. split.
  - intros Hall c (e&He&<-). apply list_elem_of_In in He. specialize (Hall e He).
    apply orb_prop in Hall as [Hb|Hb]; [left|right]; by apply bool_decide_eq_true in Hb.
  - intros Hall e He. apply list_elem_of_In in He.
    destruct (Hall (Target e)) as [Ht|Ht]; [by exists e|..]; apply orb_true_iff;
      [left|right]; by apply bool_decide_eq_true.
Qed.

Abbreviation notified f n ps := (fun c p : node => c ∈ foundationSet f \/ (c = n /\ p ∈ ps)).

Lemma notify_J n ps f :
  n ∈ known f -> (forall p, p ∈ ps -> p ∈ par f n) -> J f (notified f n ps) ->
  let f' := notify OutEdges IsSquare ps f in
  J f' (fun c _ => c ∈ foundationSet f') /\ nodeToHolder f' = nodeToHolder f /\
  (forall m, m ∈ known f -> m ∈ known f') /\
  (size (foundationSet f') + size (pendingSet f') <= size (foundationSet f) + size (pendingSet f))%nat.
Proof.
  revert f. induction ps as [|p ps IH]; intros f Hn Hps I; cbn [notify].
  { split_and!; try done. eapply J_impl; [|exact I]. intros c q _ _ [|[_ []%elem_of_nil]]; by right. }
  assert (p ∈ par f n) as Hp by (apply Hps; by left).
  assert (forall q, q ∈ ps -> q ∈ par f n) as Hps' by (intros; apply Hps; by right).
  (* The head of the list is dropped when it is settled. *)
  assert ((p ∈ pendingSet f -> IsSquare p = false /\ exists c, p ∈ par f c /\ c ∈ pendingSet f) ->
          J f (notified f n ps)) as Hdrop.
  { intros Hset.
    assert (forall c q, q <> p -> notified f n (p :: ps) c q -> notified f n ps c q) as Hrest.
    { intros c q Hne [|[Heq Hin]]; [by left|right]. split; [done|].
      by apply elem_of_cons in Hin as [|]. }
    split; try apply I.
    - intros q Hq Hs. destruct (decide (q = p)) as [->|Hne].
      + destruct (Hset Hq) as [_ (c&?&?)]. exists c. auto.
      + destruct (j_circle _ _ I q Hq Hs) as (c&?&[|HQ]); exists c; [auto|].
        split; [done|]. right. by apply Hrest.
    - intros q Hq Hs. destruct (decide (q = p)) as [->|Hne].
      { destruct (Hset Hq) as [Hsq _]. congruence. }
      destruct (j_square _ _ I q Hq Hs) as [A B]. split; [done|]. intros c Hc.
      destruct (B c Hc) as (Hqc&[|HQ]); [auto|]. split; [done|]. right. by apply Hrest. }
  case_bool_decide as HP; [|by apply IH; [..|apply Hdrop]].
  destruct (IsSquare p || children_known OutEdges p f) eqn:Hb.
  - assert (WF p) as Hwf.
    { apply orb_prop in Hb as [Hs|Hb].
      - apply (wf_square p n); [done|by apply (j_par _ _ I)|by apply (j_wf _ _ I)].
      - destruct (IsSquare p) eqn:Hs.
        { apply (wf_square p n); [done|by apply (j_par _ _ I)|by apply (j_wf _ _ I)]. }
        apply wf_circle; [done|]. intros c Hc. apply (j_wf _ _ I).
        destruct (proj1 (children_known_spec p f) Hb c Hc) as [->|]; [|done].
        exfalso. by apply (no_loop p); [apply (j_P _ _ I)|..]. }
    pose proof (promote_J p f _ I HP Hwf) as I1. fold (promote p f).
    assert (p ∉ foundationSet f) as HpF.
    { intros HF. by apply (proj1 (j_P _ _ I p HP)), (j_F _ _ I). }
    destruct (IH (promote p f)) as (A&B&C&D).
    + by apply elem_of_union_r.
    + done.
    + eapply J_impl; [|exact I1]. intros c q Hq Hqc. simpl.
      rewrite elem_of_union, elem_of_singleton. intros [->|[|[-> Hin]]]; auto.
      right. right. split; [done|]. apply elem_of_cons in Hin as [->|]; [|done].
      exfalso. simpl in Hq. apply elem_of_difference in Hq as [_ Hq]. by apply Hq, elem_of_singleton.
    + split_and!; [done..| |].
      * intros m Hm. apply C. by apply elem_of_union_r.
      * simpl in D. rewrite size_union, size_singleton in D
          by (apply disjoint_singleton_l; done).
        rewrite size_difference, size_singleton in D by (by apply singleton_subseteq_l).
        assert (pendingSet f <> ∅) as Hne by (intros E; rewrite E in HP; by apply not_elem_of_empty in HP).
        pose proof (size_non_empty_iff (pendingSet f)) as Hsz. 
        assert (size (pendingSet f) <> 0%nat) by (apply Hsz; by rewrite leibniz_equiv_iff). lia.
  - apply orb_false_elim in Hb as [Hs Hb]. apply IH; [done..|]. apply Hdrop. intros _. split; [done|].
    destruct (decide (Forall (fun e => Target e = p \/ Target e ∈ known f) (OutEdges p))) as [Hall|Hall].
    { exfalso. assert (children_known OutEdges p f = true); [|congruence]. apply children_known_spec.
      intros c (e&He&<-). rewrite Forall_forall in Hall. auto. }
    apply not_Forall_Exists in Hall; [|apply _]. apply Exists_exists in Hall as (e&He&Hno).
    assert (Target e ∉ known f) as Hk by (intros ?; apply Hno; by right).
    assert (child p (Target e)) as Hc by by exists e.
    exists (Target e). split.
    + destruct (j_link _ _ I p _ HP Hc); done.
    + destruct (j_V _ _ I (Target e)); [by apply (j_child _ _ I p)|done..].
Qed.

Lemma iter_In k X n : n ∈ iter k X <-> n ∈ X.
Proof. by rewrite (iter_perm k X), elem_of_elements. Qed.

Lemma remove_foundation_J n f (ps : list node) :
  J f (fun c _ => c ∈ foundationSet f) -> (forall p, p ∈ par f n -> p ∈ ps) ->
  let f1 := remove_foundation n f in J f1 (notified f1 n ps).
Proof.
  intros I Hps f1.
  assert (J f (notified f1 n ps)) as I1.
  { eapply J_impl; [|exact I]. intros c q _ Hqc Hc. right. simpl.
    rewrite elem_of_difference, elem_of_singleton. destruct (decide (c = n)) as [->|]; auto. }
  split; try apply I1. intros m Hm. apply (j_F _ _ I).
  simpl in Hm. by apply elem_of_difference in Hm as [? _].
Qed.

Lemma phase2_ok fuel f :
  J f (fun c _ => c ∈ foundationSet f) ->
  (size (foundationSet f) + size (pendingSet f) <= fuel)%nat ->
  exists f', checkWellFoundedPhase2 OutEdges IsSquare iter fuel f = Ok f' /\
    J f' (fun _ _ => False) /\ nodeToHolder f' = nodeToHolder f /\
    (forall m, m ∈ known f -> m ∈ known f').
Proof.
  revert f. induction fuel as [|fuel IH]; intros f I Hf; simpl.
  - destruct (iter 0 (foundationSet f)) as [|n ns] eqn:Hit.
    + exists f. split_and!; try done. eapply J_impl; [|exact I]. intros c p _ _ Hc. exfalso.
      apply (iter_In 0) in Hc. rewrite Hit in Hc. by apply elem_of_nil in Hc.
    + exfalso. assert (n ∈ foundationSet f) as Hn by (apply (iter_In 0); rewrite Hit; by left).
      assert (size (foundationSet f) = 0%nat) as Hz by lia.
      apply size_empty_inv in Hz. by apply Hz, not_elem_of_empty in Hn.
  - destruct (iter (S fuel) (foundationSet f)) as [|n ns] eqn:Hit.
    + exists f. split_and!; try done. eapply J_impl; [|exact I]. intros c p _ _ Hc. exfalso.
      apply (iter_In (S fuel)) in Hc. rewrite Hit in Hc. by apply elem_of_nil in Hc.
    + assert (n ∈ foundationSet f) as Hn by (apply (iter_In (S fuel)); rewrite Hit; by left).
      set (f1 := remove_foundation n f).
      assert (size (foundationSet f) = S (size (foundationSet f1))) as Hsz.
      { simpl. rewrite size_difference, size_singleton by by apply singleton_subseteq_l.
        assert (size (foundationSet f) <> 0%nat); [|lia].
        intros Hz%size_empty_inv. by apply Hz, not_elem_of_empty in Hn. }
      destruct (notify_J n (iter fuel (par f n)) f1) as (A&B&C&D).
      * by apply (j_F _ _ I).
      * intros p. apply iter_In.
      * apply remove_foundation_J; [done|]. intros p. apply iter_In.
      * destruct (IH _ A) as (f'&Hr&HJ&HH&HK).
        { change (pendingSet f1) with (pendingSet f) in D. lia. }
        exists f'. split_and!; [exact Hr|exact HJ|etrans; [exact HH|exact B]|]. intros m Hm. by apply HK, C.
Qed.

(** When nothing is left to notify, the pending nodes are exactly the
    ill-founded ones. *)
Lemma pending_illfounded f n : J f (fun _ _ => False) -> n ∈ pendingSet f -> ~ WF n.
Proof.
  intros I Hp Hwf. induction Hwf as [n Hl|n Hs _ IH|n c Hs Hc _ IH].
  - destruct (IsSquare n) eqn:Hs.
    + destruct (j_square _ _ I n Hp Hs) as [(c&e&He&_) _]. rewrite Hl in He. by apply elem_of_nil in He.
    + destruct (j_circle _ _ I n Hp Hs) as (c&Hc&_). apply (j_par _ _ I) in Hc as (e&He&_).
      rewrite Hl in He. by apply elem_of_nil in He.
  - destruct (j_circle _ _ I n Hp Hs) as (c&Hc&[Hcp|[]]). apply (IH c); [|done].
    by apply (j_par _ _ I).
  - destruct (j_square _ _ I n Hp Hs) as [_ Hall]. destruct (Hall c Hc) as [_ [Hcp|[]]]. by apply IH.
Qed.

Lemma pending_child f p : J f (fun _ _ => False) -> p ∈ pendingSet f ->
  exists c, child p c /\ c ∈ pendingSet f.
Proof.
  intros I Hp. destruct (IsSquare p) eqn:Hs.
  - destruct (j_square _ _ I p Hp Hs) as [(c&Hc) Hall]. destruct (Hall c Hc) as [_ [?|[]]]. eauto.
  - destruct (j_circle _ _ I p Hp Hs) as (c&Hc&[?|[]]). exists c. split; [|done]. by apply (j_par _ _ I).
Qed.
End Phase2.

(** ** Phase 3 *)
(** [path] leads from its first node to [n] through the nodes it lists. *)
Fixpoint chain (path : list (node * OutEdge node label)) (n : node) : Prop :=
  match path with
  | [] => True
  | (m, e) :: rest => e ∈ OutEdges m /\
      Target e = match rest with [] => n | (m', _) :: _ => m' end /\ chain rest n
  end.
Lemma chain_snoc path n e :
  chain path n -> e ∈ OutEdges n -> chain (path ++ [(n, e)]) (Target e).
Proof.
  induction path as [|[m e0] path IH]; simpl; [done|]. intros (H1&H2&H3) He.
  split_and!; [done| |by apply IH]. rewrite H2. by destruct path as [|[m' e'] path].
Qed.
Lemma chain_walk path n :
  chain path n -> match path with [] => True | (m, _) :: _ => walk m (path.*2) n end.
Proof.
  induction path as [|[m e] path IH]; [done|]. intros (H1&H2&H3). simpl. split; [done|].
  rewrite H2. specialize (IH H3). destruct path as [|[m' e'] path]; done.
Qed.
Lemma chain_suffix p q n : chain (p ++ q) n -> chain q n.
Proof. induction p as [|[m e] p IH]; [done|]. intros (_&_&?). by apply IH. Qed.

(** [cycle_path] keeps the path from the first visit of [start] on. *)
Lemma cycle_path_skip (p q : list (node * OutEdge node label)) (start : node) :
  Forall (fun x => x.1 <> start) p -> cycle_path (p ++ q) start = cycle_path q start.
Proof.
  unfold cycle_path. rewrite fold_left_app. intros Hp. f_equal.
  induction Hp as [|x p Hx _ IH]; [done|]. simpl. by rewrite bool_decide_false.
Qed.
Lemma cycle_path_keep (e : OutEdge node label) q (start : node) : cycle_path ((start, e) :: q) start = e :: q.*2.
Proof.
  unfold cycle_path. simpl. rewrite bool_decide_true by done.
  assert (forall acc, acc <> [] -> fold_left (fun acc element =>
    if negb (bool_decide (length acc = 0%nat)) || bool_decide (element.1 = start)
    then acc ++ [element.2] else acc) q acc = acc ++ q.*2) as Hfold; [|by apply (Hfold [e])].
  induction q as [|x q IH]; intros acc Hacc; simpl; [by rewrite app_nil_r|].
  rewrite bool_decide_false by by destruct acc. simpl. rewrite IH by by destruct acc.
  by rewrite <- app_assoc.
Qed.

Lemma first_visit (path : list (node * OutEdge node label)) start :
  start ∈ path.*1 ->
  exists p e q, path = p ++ (start, e) :: q /\ Forall (fun x => x.1 <> start) p.
Proof.
  induction path as [|[m e] path IH]; simpl; [by intros ?%elem_of_nil|].
  intros Hin. destruct (decide (m = start)) as [->|Hne].
  - by exists [], e, path.
  - apply elem_of_cons in Hin as [->|Hin]; [done|]. destruct (IH Hin) as (p&e'&q&->&Hp).
    exists ((m, e) :: p), e', q. split; [done|]. by constructor.
Qed.

Lemma newCycleDescription_ok path n e :
  chain path n -> e ∈ OutEdges n -> Target e ∈ (path ++ [(n, e)]).*1 ->
  exists c, newCycleDescription (path ++ [(n, e)]) (Target e) n = Ok c /\ is_cycle c /\
    First c = Target e /\ forall e', e' ∈ Path c -> Target e' ∈ Target e :: path.*1 ++ [n].
Proof.
  intros Hch He Hin. unfold newCycleDescription.
  rewrite last_snoc, !bool_decide_true by done. cbn [negb].
  pose proof (chain_snoc _ _ _ Hch He) as Hch2.
  destruct (first_visit _ _ Hin) as (p&e0&q&Hpath&Hp).
  assert (last (e0 :: q.*2) = Some e) as Hlast.
  { assert (last ((path ++ [(n, e)]).*2) = Some e) as Hl
      by (rewrite fmap_app; apply last_snoc).
    rewrite Hpath, fmap_app, fmap_cons in Hl. by rewrite last_app_cons in Hl. }
  rewrite Hpath, cycle_path_skip, cycle_path_keep, Hlast by done.
  rewrite bool_decide_true by done. eexists. split; [done|]. cbn [First Path Last].
  rewrite Hpath in Hch2. apply chain_suffix in Hch2. pose proof (chain_walk _ _ Hch2) as Hw.
  split; [split_and!; [done|exact Hw|by exists e]|]. split; [done|].
  intros e' He'.
  assert (forall path m, chain path m -> forall e', e' ∈ path.*2 -> Target e' ∈ m :: path.*1) as Htar.
  { clear. induction path as [|[m0 e0] path IH]; intros m Hc e' He'; [by apply elem_of_nil in He'|].
    destruct Hc as (H1&H2&H3). simpl in He'. apply elem_of_cons in He' as [->|He'].
    - rewrite H2. destruct path as [|[m' e'] path]; set_solver.
    - specialize (IH m H3 e' He'). set_solver. }
  specialize (Htar _ _ Hch2 e' He'). assert (((Target e, e0) :: q).*1 ⊆ (path ++ [(n, e)]).*1) as Hsub.
  { rewrite Hpath, fmap_app. set_solver. }
  rewrite fmap_app in Hsub. simpl in Hsub. set_solver.
Qed.

Section Phase3.
Context (K P : gset node).
Context (P_child : forall p, p ∈ P -> exists c, child p c /\ c ∈ P).
Context (P_dec : forall p c, p ∈ P -> child p c -> c ∈ K \/ c ∈ P).
Context (P_K : forall p, p ∈ P -> p ∉ K).

Definition cycle_ok (c : CycleDescription node label) : Prop :=
  is_cycle c /\ First c ∈ P /\ forall e, e ∈ Path c -> Target e ∈ P.

Lemma find_ok fuel n path f :
  known f = K -> (forall m, st f m = vsVisitStarted <-> m ∈ path.*1) ->
  chain path n -> n ∈ P -> n ∉ path.*1 -> (forall m, m ∈ path.*1 -> m ∈ P) ->
  (size (P ∖ list_to_set (path.*1)) <= fuel)%nat ->
  exists c, findKnownIllFoundedCycle OutEdges fuel n path f = Ok c /\ cycle_ok c.
Proof.
  revert n path f. induction fuel as [|fuel IH]; intros n path f HK Hst Hch Hn Hnew HP Hsz.
  { exfalso. assert (n ∈ P ∖ list_to_set (path.*1)) as Hin
      by (apply elem_of_difference; by rewrite elem_of_list_to_set).
    assert (size (P ∖ list_to_set (C:=gset node) (path.*1)) = 0%nat) as Hz by lia.
    apply size_empty_inv in Hz. by apply Hz, not_elem_of_empty in Hin. }
  cbn [findKnownIllFoundedCycle].
  assert (forall m, st (set_state n vsVisitStarted f) m = vsVisitStarted <-> m ∈ path.*1 ++ [n]) as Hst1.
  { intros m. rewrite st_set_state, elem_of_app, list_elem_of_singleton.
    destruct (decide (m = n)) as [->|]; [naive_solver|]. rewrite Hst. naive_solver. }
  assert (known (set_state n vsVisitStarted f) = K) as HK1 by done.
  revert Hst1 HK1. generalize (set_state n vsVisitStarted f) as f1. intros f1 Hst1 HK1.
  assert (exists e, e ∈ OutEdges n /\ Target e ∈ P) as Hex
    by (destruct (P_child n Hn) as (c&(e&He&<-)&Hc); eauto).
  assert (forall e, e ∈ OutEdges n -> e ∈ OutEdges n) as Hsub by done. revert Hex Hsub f1 Hst1 HK1.
  generalize (OutEdges n) at 1 2 4 as es.
  induction es as [|e es IHes]; intros (e0&He0&HP0) Hsub f1 Hst1 HK1;
    [by apply elem_of_nil in He0|]. cbn [cycle_loop].
  destruct (holderForNode_same (Target e) f1) as (Hsp&Hkn&_&_).
  set (f2 := holderForNode (Target e) f1) in *.
  assert (e ∈ OutEdges n) as He by (apply Hsub; by left).
  assert (forall m, st f2 m = vsVisitStarted <-> m ∈ path.*1 ++ [n]) as Hst2
    by (intros m; destruct (Hsp m) as [-> _]; apply Hst1).
  change (state (holder (Target e) f2)) with (st f2 (Target e)).
  case_bool_decide as Hs.
  - apply Hst2 in Hs. assert (Target e ∈ (path ++ [(n, e)]).*1) as Hin by by rewrite fmap_app.
    destruct (newCycleDescription_ok path n e Hch He Hin) as (c&Hc&Hcy&Hf&Ht).
    exists c. split; [exact Hc|].
    assert (forall m, m ∈ path.*1 ++ [n] -> m ∈ P) as HPm.
    { intros m [Hm| ->%list_elem_of_singleton]%elem_of_app; auto. }
    split_and!; [done|rewrite Hf; auto|]. intros e' He'.
    destruct (proj1 (elem_of_cons _ _ _) (Ht e' He')) as [->|]; auto.
  - assert (Target e ∉ path.*1 ++ [n]) as Hfresh by by rewrite <- Hst2.
    apply not_elem_of_app in Hfresh as [Hf1 Hf2]. rewrite list_elem_of_singleton in Hf2.
    unfold KnownWellFounded. rewrite Hkn, HK1. case_bool_decide as Hk; cbn [negb].
    + apply (IHes); [|intros; apply Hsub; by right|done|by rewrite Hkn].
      exists e0. split; [|done]. apply elem_of_cons in He0 as [->|]; [|done]. by apply P_K in HP0.
    + destruct (P_dec n (Target e) Hn) as [|HtP]; [by exists e|done|].
      apply IH.
      * by rewrite Hkn.
      * intros m. by rewrite Hst2, fmap_app.
      * by apply chain_snoc.
      * done.
      * rewrite fmap_app. apply not_elem_of_app. split; [done|]. by intros ?%list_elem_of_singleton.
      * intros m. rewrite fmap_app. intros [Hm| ->%list_elem_of_singleton]%elem_of_app; auto.
      * assert (size (P ∖ list_to_set (C:=gset node) ((path ++ [(n, e)]).*1)) <
                size (P ∖ list_to_set (C:=gset node) (path.*1)))%nat; [|lia].
        apply subset_size. rewrite fmap_app. split; [set_solver|].
        intros Hss. specialize (Hss n). set_solver.
Qed.
End Phase3.

(** ** The whole algorithm *)
Lemma min_illfounded_In (f : finder) (nodes : list node) :
  nodes <> [] -> exists m, min_illfounded f nodes = Some m /\ m ∈ nodes.
Proof.
  unfold min_illfounded.
  assert (forall l acc, (acc = None -> l <> []) ->
    exists o m, fold_left (fun (acc : option (nat * node)) n =>
      match acc with
      | None => Some (visitationOrder (holder n f), n)
      | Some (m, _) =>
        if (visitationOrder (holder n f) <? m)%nat then Some (visitationOrder (holder n f), n) else acc
      end) l acc = Some (o, m) /\ (m ∈ l \/ acc = Some (o, m))) as Hfold.
  { induction l as [|n l IH]; intros acc Hacc; simpl.
    - destruct acc as [[o m]|]; [eauto|by destruct (Hacc eq_refl)].
    - destruct acc as [[o0 m0]|]; [destruct (_ <? _)%nat|];
        (edestruct IH as (o&m&->&Hor); [|exists o, m; split; [done|]]; [done|]);
        destruct Hor as [?|[= <- <-]]; auto; left; try (by left); by right. }
  intros Hne. destruct (Hfold nodes None) as (o&m&->&[Hm|]); [done|eauto|done].
Qed.

Section Main.
Context (iter : nat -> gset node -> list node).
Context (iter_perm : forall k X, iter k X ≡ₚ elements X).
Context (U K0 : gset node) (root : node).
Context (U_reach : forall n, n ∈ U <-> reachable root n).
Context (K0_wf : forall n, n ∈ K0 -> WF n) (K0_closed : forall n c, n ∈ K0 -> child n c -> c ∈ K0).
Context (no_circle_loop : forall n, n ∈ U -> IsSquare n = false -> ~ child n n).

Lemma U_child n c : n ∈ U -> child n c -> c ∈ U.
Proof. rewrite !U_reach. apply reach_child. Qed.

Lemma new_finder n (K : gset node) :
  let f := holderForNode n (makeCycleFinder K) in
  (forall m, st f m = vsUnvisited /\ par f m = ∅) /\ known f = K /\ foundationSet f = ∅ /\ pendingSet f = ∅.
Proof.
  destruct (holderForNode_same n (makeCycleFinder K)) as (A&B&C&D). split_and!; try done.
Qed.

Lemma Inv_new : Inv U K0 (holderForNode root (makeCycleFinder K0)).
Proof.
  destruct (new_finder root K0) as (A&B&C&D). set (f := holderForNode _ _) in *.
  assert (forall m, st f m = vsUnvisited) as Est by apply A.
  assert (forall m, par f m = ∅) as Epar by apply A.
  split; intros *; rewrite ?B, ?C, ?D, ?Est, ?Epar; try done; auto;
    by intros ?%not_elem_of_empty.
Qed.

Abbreviation visited f := (fun n => st f n <> vsUnvisited).

(** When every visited node is known, everything reachable is. *)
Lemma all_known f (K : gset node) :
  Inv U K0 f -> (forall m, st f m <> vsVisitStarted) -> visited f root ->
  (forall n, n ∈ known f -> n ∈ K) -> (forall n, visited f n -> n ∈ K) ->
  (forall n, reachable root n -> n ∈ K).
Proof.
  intros I Hns Hroot HK HV n Hn.
  assert (n ∈ K0 \/ visited f n) as [Hn0|Hn0]; [|by apply HK, (i_old _ _ _ I)|by apply HV].
  induction Hn as [|n c _ IH Hc]; [by right|].
  destruct (decide (n ∈ K0)) as [Hn0|Hn0]; [left; by apply (K0_closed n)|].
  destruct IH as [|Hv]; [done|]. right. apply (i_vis _ _ _ I n); [|done..].
  specialize (Hns n). by destruct (st f n).
Qed.

Lemma J_after_phase1 f :
  Inv U K0 f -> (forall m, st f m <> vsVisitStarted) ->
  J (visited f) (fun n => n ∈ K0) f (fun c _ => c ∈ foundationSet f).
Proof.
  intros I Hns.
  assert (forall m, visited f m -> st f m = vsVisitEnded) as Hend.
  { intros m Hm. specialize (Hns m). by destruct (st f m). }
  assert (forall p c, p ∈ par f c -> c ∈ pendingSet f \/ c ∈ foundationSet f) as Hlink.
  { intros p c Hp. destruct (i_par _ _ _ I p c Hp) as (_&Hv&HF).
    destruct (i_end _ _ _ I c (Hend c Hv)) as [Hk|]; [|by left].
    destruct (HF Hk) as [|Hs]; [by right|by destruct (Hns c)]. }
  split.
  - apply I.
  - intros p Hp. destruct (i_PK _ _ _ I p Hp) as [? Hs]. split; [done|]. by rewrite Hs.
  - intros n Hn. apply (i_end _ _ _ I). auto.
  - intros p c Hp Hc. destruct (i_PK _ _ _ I p Hp) as [Hk Hs]. apply (i_vis _ _ _ I p); [done| |done].
    intros H0. by apply Hk, (i_old _ _ _ I).
  - intros n Hn. by apply (i_F _ _ _ I).
  - intros p c Hp. by apply (i_par _ _ _ I).
  - intros p c Hp. by apply (i_P _ _ _ I).
  - intros p Hp _. destruct (i_P _ _ _ I p Hp) as (_&(c&_&Hc)&_). exists c. split; [done|]. eauto.
  - intros p Hp Hs. destruct (i_P _ _ _ I p Hp) as (_&(c&Hc&_)&Hall). split; [eauto|].
    intros c' Hc'. split; [auto|]. apply (Hlink p). auto.
  - intros n Hn. by apply (i_new _ _ _ I).
Qed.

Lemma sets_bound f : Inv U K0 f -> (size (foundationSet f) + size (pendingSet f) <= size U)%nat.
Proof.
  intros I. rewrite <- size_union.
  - apply subseteq_size. intros n [Hn|Hn]%elem_of_union; apply (i_U _ _ _ I).
    + by apply (i_F _ _ _ I).
    + destruct (i_PK _ _ _ I n Hn) as [_ Hs]. by rewrite Hs.
  - intros n HF HP. by apply (i_PK _ _ _ I n HP), (i_F _ _ _ I).
Qed.

(** The result for a graph with ill-founded and well-founded nodes. *)
Definition result_ok (K : gset node) (r : option (CycleDescription node label)) : Prop :=
  (forall n, n ∈ K0 -> n ∈ K) /\ (forall n, n ∈ K -> WF n) /\ (forall n, n ∈ K -> n ∈ K0 \/ n ∈ U) /\
  match r with
  | None => forall n, reachable root n -> n ∈ K
  | Some c => is_cycle c /\
      forall n, n = First c \/ (exists e, e ∈ Path c /\ Target e = n) -> reachable root n /\ ~ WF n
  end.

Lemma CheckWellFounded_ok fuel :
  (size U <= fuel)%nat ->
  exists K r, CheckWellFounded OutEdges IsSquare iter fuel K0 (Some root) = Ok (K, r) /\ result_ok K r.
Proof.
  intros Hfuel. unfold CheckWellFounded, checkWellFounded. pose proof Inv_new as I0.
  destruct (new_finder root K0) as (A&B&_&_). set (f0 := holderForNode root _) in *.
  assert (root ∈ U) as HrU by (apply U_reach; constructor).
  unfold KnownWellFounded. rewrite B. case_bool_decide as Hr.
  { exists K0, None. split; [done|]. split_and!; [done|done|by left|]. intros n Hn.
    induction Hn; [done|]. by eapply K0_closed. }
  destruct (phase1_ok U K0 U_child fuel root f0 I0 HrU) as (f1&->&I1&E1&Hs1); [apply A| |].
  { etrans; [|exact Hfuel]. apply subseteq_size. intros n. unfold unvisited. by intros [_ ?]%elem_of_filter. }
  cbn [res_bind].
  assert (forall m, st f1 m <> vsVisitStarted) as Hns.
  { intros m Hm. apply (e_started _ _ _ E1) in Hm. destruct (A m) as [Hu _]. by rewrite Hu in Hm. }
  assert (visited f1 root) as Hroot by by rewrite Hs1.
  assert (forall m, visited f1 m -> m ∈ known f1 \/ m ∈ pendingSet f1) as Hkp.
  { intros m Hm. apply (i_end _ _ _ I1). specialize (Hns m). by destruct (st f1 m). }
  case_bool_decide as HP1.
  { exists (known f1), None. split; [done|]. split_and!; [apply I1..| |].
    { intros n Hn. destruct (i_new _ _ _ I1 n Hn); [by left|right; by apply (i_U _ _ _ I1)]. }
    apply (all_known f1); try done. intros n Hn. destruct (Hkp n Hn) as [|HP]; [done|].
    rewrite HP1 in HP. by apply not_elem_of_empty in HP. }
  pose proof (J_after_phase1 f1 I1 Hns) as J1.
  assert (forall n, visited f1 n -> IsSquare n = false -> ~ child n n) as Hnl
    by (intros n Hn; apply no_circle_loop; by apply (i_U _ _ _ I1)).
  destruct (phase2_ok iter iter_perm (visited f1) (fun n => n ∈ K0) Hnl fuel f1 J1) as (f2&->&J2&HH&HK).
  { etrans; [by apply sets_bound|done]. }
  cbn [res_bind].
  assert (forall n, n ∈ K0 -> n ∈ known f2) as HK0 by (intros n Hn; by apply HK, (i_old _ _ _ I1)).
  assert (forall n, n ∈ known f2 -> n ∈ K0 \/ n ∈ U) as HK2.
  { intros n Hn. destruct (j_new _ _ _ _ J2 n Hn); [by left|right; by apply (i_U _ _ _ I1)]. }
  case_bool_decide as HP2.
  { exists (known f2), None. split; [done|]. split_and!; [done|apply (j_wf _ _ _ _ J2)|done|].
    apply (all_known f1); try done. intros n Hn. destruct (j_V _ _ _ _ J2 n Hn) as [|HP]; [done|].
    rewrite HP2 in HP. by apply not_elem_of_empty in HP. }
  destruct (min_illfounded_In f2 (iter fuel (pendingSet f2))) as (m&->&Hm).
  { intros E. apply HP2. apply leibniz_equiv, elements_empty_inv. apply Permutation_nil_r.
    by rewrite <- E, (iter_perm fuel). }
  apply (iter_In iter iter_perm) in Hm.
  destruct (new_finder m (known f2)) as (A2&B2&_&_).
  set (fresh := holderForNode m (makeCycleFinder (known f2))) in *.
  destruct (find_ok (known f2) (pendingSet f2)) with (fuel := fuel) (n := m)
    (path := @nil (node * OutEdge node label)) (f := fresh) as (c&->&Hcy&HfP&HtP).
  - intros p. by apply (pending_child _ _ _ _ J2).
  - intros p c Hp Hc. apply (j_V _ _ _ _ J2). by apply (j_child _ _ _ _ J2 p).
  - intros p Hp. by apply (j_P _ _ _ _ J2).
  - done.
  - intros n. destruct (A2 n) as [-> _]. split; [done|by intros ?%elem_of_nil].
  - done.
  - done.
  - by intros ?%elem_of_nil.
  - by intros n ?%elem_of_nil.
  - etrans; [|exact Hfuel]. apply subseteq_size. intros n [Hn _]%elem_of_difference.
    apply (i_U _ _ _ I1). by apply (j_P _ _ _ _ J2).
  - exists (known f2), (Some c). split; [done|]. split_and!; [done|apply (j_wf _ _ _ _ J2)|done|done|].
    assert (forall n, n ∈ pendingSet f2 -> reachable root n /\ ~ WF n) as Hill.
    { intros n Hn. split; [apply U_reach, (i_U _ _ _ I1); by apply (j_P _ _ _ _ J2)|].
      by apply (pending_illfounded _ _ _ _ J2). }
    intros n [->|(e&He&<-)]; apply Hill; auto.
Qed.
End Main.
End Spec.

(** ** Properties *)

(** C3: on a finite graph in which no circle node is its own child,
    [CheckWellFounded] terminates without a panic; it returns nil exactly when
    every node reachable from the root is well-founded, otherwise a cycle along
    edges whose nodes are all reachable and ill-founded; and every node it has
    marked is well-founded. This holds for every order of map iteration. *)
Theorem CheckWellFounded_correct {node} `{Countable node} {label}
    (OutEdges : node -> list (OutEdge node label)) (IsSquare : node -> bool)
    (iter : nat -> gset node -> list node) (U K0 : gset node) (root : node) (fuel : nat) :
  (forall k X, iter k X ≡ₚ elements X) ->
  (forall n, n ∈ U <-> reachable OutEdges root n) ->
  (forall n, n ∈ K0 -> WF OutEdges IsSquare n) ->
  (forall n c, n ∈ K0 -> child OutEdges n c -> c ∈ K0) ->
  (forall n, n ∈ U -> IsSquare n = false -> ~ child OutEdges n n) ->
  (size U <= fuel)%nat ->
  exists K r, CheckWellFounded OutEdges IsSquare iter fuel K0 (Some root) = Ok (K, r) /\
    (forall n, n ∈ K -> WF OutEdges IsSquare n) /\
    (r = None <-> forall n, reachable OutEdges root n -> WF OutEdges IsSquare n) /\
    (forall c, r = Some c -> is_cycle OutEdges c /\
       forall n, n = First c \/ (exists e, e ∈ Path c /\ Target e = n) ->
         reachable OutEdges root n /\ ~ WF OutEdges IsSquare n).
Proof.
  intros Hiter HU HK0 Hcl Hnl Hfuel.
  destruct (CheckWellFounded_ok OutEdges IsSquare iter Hiter U K0 root HU HK0 Hcl Hnl fuel Hfuel)
    as (K&r&Hr&H1&H2&_&H3).
  exists K, r. split_and!; [done..| |].
  - split; [by intros ->; auto|]. intros Hall. destruct r as [c|]; [|done]. exfalso.
    destruct H3 as [_ H3]. destruct (H3 (First c)) as [Hre Hwf]; [by left|]. by apply Hwf, Hall.
  - by intros c ->.
Qed.
Lemma CheckWellFounded_correct_witness :
  let E := fun n : nat => match n with 0 => [mkEdge tt 1] | 1 => [mkEdge tt 0; mkEdge tt 2] | _ => [] end%nat in
  let sq := fun n : nat => false in
  exists K r, CheckWellFounded E sq (fun _ X => elements X) 3 ∅ (Some 0%nat) = Ok (K, r) /\
    (forall n, n ∈ K -> WF E sq n) /\
    (r = None <-> forall n, reachable E 0%nat n -> WF E sq n) /\
    (forall c, r = Some c -> is_cycle E c /\
       forall n, n = First c \/ (exists e, e ∈ Path c /\ Target e = n) ->
         reachable E 0%nat n /\ ~ WF E sq n).
Proof.
  intros E sq.
  assert (forall n c, child E n c -> (n = 0 /\ c = 1) \/ (n = 1 /\ (c = 0 \/ c = 2)))%nat as Hch.
  { intros n c (e&He&<-). destruct n as [|[|n]]; simpl in He.
    - apply list_elem_of_singleton in He as ->. by left.
    - right. apply elem_of_cons in He as [->|He%list_elem_of_singleton]; [auto|]. subst e. auto.
    - by apply elem_of_nil in He. }
  assert (child E 0%nat 1%nat /\ child E 1%nat 2%nat) as [C1 C2].
  { split; [exists (mkEdge tt 1%nat)|exists (mkEdge tt 2%nat)]; split; try done; [by left|by right; left]. }
  apply (CheckWellFounded_correct E sq (fun _ X => elements X) {[0; 1; 2]}%nat ∅ 0%nat 3).
  - done.
  - intros n. split.
    + rewrite !elem_of_union, !elem_of_singleton. intros [[->| ->]| ->]; [constructor|..].
      * by apply (reach_child _ _ 0%nat); [constructor|].
      * apply (reach_child _ _ 1%nat); [|done]. by apply (reach_child _ _ 0%nat); [constructor|].
    + induction 1 as [|n c _ IH Hc]; [set_solver|]. destruct (Hch _ _ Hc) as [[_ ->]|[_ [->| ->]]]; set_solver.
  - intros n Hn. by apply not_elem_of_empty in Hn.
  - intros n c Hn. by apply not_elem_of_empty in Hn.
  - intros n _ _ Hc. destruct (Hch _ _ Hc) as [[? ?]|[? [?|?]]]; lia.
  - vm_compute. lia.
Defined.

(** a circle node that is its own child is missed: with the square node 0
    over the circle 1 and the leaf 2, and 1 over itself and 0, the check of 0
    returns nil and marks node 1, although 1 is reachable and ill-founded. *)
Theorem circle_self_loop_missed :
  let E := fun n : nat => match n with
    | 0 => [mkEdge tt 1; mkEdge tt 2] | 1 => [mkEdge tt 1; mkEdge tt 0] | _ => [] end%nat in
  let sq := fun n : nat => bool_decide (n = 0%nat) in
  (exists K, CheckWellFounded E sq (fun _ X => elements X) 3 ∅ (Some 0%nat) = Ok (K, None) /\ 1%nat ∈ K) /\
  reachable E 0%nat 1%nat /\ ~ WF E sq 1%nat.
Proof.
  intros E sq. split_and!.
  - exists ({[0; 1; 2]}%nat : gset nat). split; [vm_compute; reflexivity|set_solver].
  - apply (reach_child _ _ 0%nat); [constructor|]. exists (mkEdge tt 1%nat). split; [by left|done].
  - assert (forall n, WF E sq n -> n <> 1%nat) as Hall; [|intros Hwf; by apply (Hall 1%nat)].
    induction 1 as [n Hl|n Hs _ IH|n c Hs Hc _ IH]; intros ->; try done.
    apply (IH 1%nat); [|done]. exists (mkEdge tt 1%nat). split; [by left|done].
Qed.
