(* ===== verification/Types.v ===== *)
(** * Types, type references and concrete values: compiler/core/types.go

    Built-in types, references to types and values, literals, and the rules
    that say which value may be assigned to a variable of which type.  A
    pointer to a user-defined type is a [UserDefinedType] record: what a
    reference consults of the type it resolved to, with the address that
    makes two of them the same object; other pointers are plain addresses.  Go's dynamic checks (a type assertion
    on another dynamic type, an explicit [panic]) are [None]. *)
From Stdlib Require Import SpecFloat.
From S2P Require Export Tokens.

(** ** Kinds *)
Inductive TypeKind : Type :=
| TypeKindSimple | TypeKindString | TypeKindArray | TypeKindMap
| TypeKindHandle | TypeKindUserDefined.

Inductive SimpleType : Type :=
| SimpleTypeBool | SimpleTypeDouble | SimpleTypeFloat
| SimpleTypeInt8 | SimpleTypeInt16 | SimpleTypeInt32 | SimpleTypeInt64
| SimpleTypeUInt8 | SimpleTypeUInt16 | SimpleTypeUInt32 | SimpleTypeUInt64.
#[export] Instance SimpleType_eq_dec : EqDecision SimpleType.
Proof. solve_decision. Defined.

Definition allSimpleTypes : list SimpleType :=
  [SimpleTypeBool; SimpleTypeDouble; SimpleTypeFloat;
   SimpleTypeInt8; SimpleTypeInt16; SimpleTypeInt32; SimpleTypeInt64;
   SimpleTypeUInt8; SimpleTypeUInt16; SimpleTypeUInt32; SimpleTypeUInt64].
Definition integerTypes : list SimpleType :=
  [SimpleTypeInt8; SimpleTypeInt16; SimpleTypeInt32; SimpleTypeInt64].
Definition unsignedIntegerTypes : list SimpleType :=
  [SimpleTypeUInt8; SimpleTypeUInt16; SimpleTypeUInt32; SimpleTypeUInt64].

(** The two rank maps that [init] fills from the slices: the rank of a type is
    its position in the slice, a missing key reads as [None]. *)
Definition rank_in (ts : list SimpleType) (t : SimpleType) : option Z :=
  (fun p => Z.of_nat p.1) <$> list_find (eq t) ts.
Definition integerTypeCompatibilityRank : SimpleType -> option Z := rank_in integerTypes.
Definition unsignedIntegerTypeCompatibilityRank : SimpleType -> option Z :=
  rank_in unsignedIntegerTypes.
(** Go's single-value read of a map: the zero value when the key is missing. *)
Definition map_read (o : option Z) : Z := default 0 o.

Definition SimpleType_SerializationSize (t : SimpleType) : Z :=
  match t with
  | SimpleTypeBool => 1
  | SimpleTypeDouble => 8
  | SimpleTypeFloat => 4
  | SimpleTypeInt8 => 1
  | SimpleTypeInt16 => 2
  | SimpleTypeInt32 => 4
  | SimpleTypeInt64 => 8
  | SimpleTypeUInt8 => 1
  | SimpleTypeUInt16 => 2
  | SimpleTypeUInt32 => 4
  | SimpleTypeUInt64 => 8
  end.
Definition SimpleType_SerializationAlignment (t : SimpleType) : Z :=
  SimpleType_SerializationSize t.
Definition SimpleType_String (t : SimpleType) : string :=
  match t with
  | SimpleTypeBool => "bool"
  | SimpleTypeDouble => "double"
  | SimpleTypeFloat => "float"
  | SimpleTypeInt8 => "int8"
  | SimpleTypeInt16 => "int16"
  | SimpleTypeInt32 => "int32"
  | SimpleTypeInt64 => "int64"
  | SimpleTypeUInt8 => "uint8"
  | SimpleTypeUInt16 => "uint16"
  | SimpleTypeUInt32 => "uint32"
  | SimpleTypeUInt64 => "uint64"
  end.

Record StringType := mkStringType { StringType_nullable : bool }.
#[export] Instance StringType_eq_dec : EqDecision StringType.
Proof. solve_decision. Defined.
Definition StringType_String (s : StringType) : string :=
  "string" +:+ (if StringType_nullable s then "?" else "").

Inductive HandleKind : Type :=
| HandleKindUnspecified | HandleKindChannel | HandleKindVmo | HandleKindProcess
| HandleKindThread | HandleKindEvent | HandleKindPort | HandleKindJob
| HandleKindSocket | HandleKindEventPair.
#[export] Instance HandleKind_eq_dec : EqDecision HandleKind.
Proof. solve_decision. Defined.
Definition allHandleKinds : list HandleKind :=
  [HandleKindUnspecified; HandleKindChannel; HandleKindVmo; HandleKindProcess;
   HandleKindThread; HandleKindEvent; HandleKindPort; HandleKindJob;
   HandleKindSocket; HandleKindEventPair].
Record HandleTypeRef := mkHandleTypeRef { HandleTypeRef_nullable : bool; kind : HandleKind }.
Definition HandleTypeRef_String (h : HandleTypeRef) : string :=
  let suffix :=
    match kind h with
    | HandleKindUnspecified => ""
    | HandleKindChannel => "<channel>"
    | HandleKindVmo => "<vmo>"
    | HandleKindProcess => "<process>"
    | HandleKindThread => "<thread>"
    | HandleKindEvent => "<event>"
    | HandleKindPort => "<port>"
    | HandleKindJob => "<job>"
    | HandleKindSocket => "<socket>"
    | HandleKindEventPair => "<eventpair>"
    end in
  "handle" +:+ suffix +:+ (if HandleTypeRef_nullable h then "?" else "").

(** ** User-defined types, as a reference sees them *)
Inductive UserDefinedTypeKind : Type :=
| UserDefinedTypeKindStruct | UserDefinedTypeKindInterface
| UserDefinedTypeKindEnum | UserDefinedTypeKindUnion.
#[export] Instance UserDefinedTypeKind_eq_dec : EqDecision UserDefinedTypeKind.
Proof. solve_decision. Defined.
Definition UserDefinedTypeKind_String (k : UserDefinedTypeKind) : string :=
  match k with
  | UserDefinedTypeKindStruct => "struct"
  | UserDefinedTypeKindInterface => "interface"
  | UserDefinedTypeKindEnum => "enum"
  | UserDefinedTypeKindUnion => "union"
  end.

Record UserDefinedType := mkUserDefinedType {
  address : nat;
  udt_Kind : UserDefinedTypeKind;
  udt_TypeKey : string;
  udt_FullyQualifiedName : string
}.
#[export] Instance UserDefinedType_eq_dec : EqDecision UserDefinedType.
Proof. solve_decision. Defined.

(** The [SerializationSize] and [SerializationAlignment] methods of MojomStruct,
    MojomInterface, MojomEnum and MojomUnion. *)
Definition udt_SerializationSize (t : UserDefinedType) : Z :=
  match udt_Kind t with
  | UserDefinedTypeKindStruct => 8
  | UserDefinedTypeKindInterface => 8
  | UserDefinedTypeKindEnum => 4
  | UserDefinedTypeKindUnion => 16
  end.
Definition udt_SerializationAlignment (t : UserDefinedType) : Z :=
  match udt_Kind t with
  | UserDefinedTypeKindStruct => 8
  | UserDefinedTypeKindInterface => 4
  | UserDefinedTypeKindEnum => 4
  | UserDefinedTypeKindUnion => 8
  end.

(** ** Literal values *)
Inductive LiteralType : Type :=
| LitSimple (t : SimpleType)
| LitString (s : StringType).
#[export] Instance LiteralType_eq_dec : EqDecision LiteralType.
Proof. solve_decision. Defined.
Definition StringLiteralType : LiteralType := LitString (mkStringType false).
Definition LiteralTypeKind (t : LiteralType) : TypeKind :=
  match t with LitSimple _ => TypeKindSimple | LitString _ => TypeKindString end.

(** The dynamic values of the [interface{}] field of a literal. *)
Inductive GoValue : Type :=
| VString (s : string) | VBool (b : bool)
| VInt8 (z : Z) | VInt16 (z : Z) | VInt32 (z : Z) | VInt64 (z : Z)
| VUint8 (z : Z) | VUint16 (z : Z) | VUint32 (z : Z) | VUint64 (z : Z)
| VFloat32 (f : spec_float) | VFloat64 (f : spec_float).

Record LiteralValue := mkLiteralValue {
  valueType : LiteralType;
  value : GoValue;
  isDefault : bool;
  token : option Token
}.
Definition MakeStringLiteralValue (text : string) t := mkLiteralValue StringLiteralType (VString text) false t.
Definition MakeBoolLiteralValue (v : bool) t := mkLiteralValue (LitSimple SimpleTypeBool) (VBool v) false t.
Definition MakeInt8LiteralValue (v : Z) t := mkLiteralValue (LitSimple SimpleTypeInt8) (VInt8 v) false t.
Definition MakeInt16LiteralValue (v : Z) t := mkLiteralValue (LitSimple SimpleTypeInt16) (VInt16 v) false t.
Definition MakeInt32LiteralValue (v : Z) t := mkLiteralValue (LitSimple SimpleTypeInt32) (VInt32 v) false t.
Definition MakeInt64LiteralValue (v : Z) t := mkLiteralValue (LitSimple SimpleTypeInt64) (VInt64 v) false t.
Definition MakeUint8LiteralValue (v : Z) t := mkLiteralValue (LitSimple SimpleTypeUInt8) (VUint8 v) false t.
Definition MakeUint16LiteralValue (v : Z) t := mkLiteralValue (LitSimple SimpleTypeUInt16) (VUint16 v) false t.
Definition MakeUint32LiteralValue (v : Z) t := mkLiteralValue (LitSimple SimpleTypeUInt32) (VUint32 v) false t.
Definition MakeUint64LiteralValue (v : Z) t := mkLiteralValue (LitSimple SimpleTypeUInt64) (VUint64 v) false t.
Definition MakeDoubleLiteralValue (v : spec_float) t := mkLiteralValue (LitSimple SimpleTypeDouble) (VFloat64 v) false t.
Definition MakeFloatLiteralValue (v : spec_float) t := mkLiteralValue (LitSimple SimpleTypeFloat) (VFloat32 v) false t.
Definition MakeDefaultLiteral t := mkLiteralValue StringLiteralType (VString "default") true t.

(** [None]: the type assertion on the dynamic value fails. *)
Definition int64Value (literalValue : LiteralValue) : option (Z * bool) :=
  match valueType literalValue with
  | LitSimple SimpleTypeInt8 =>
    match value literalValue with VInt8 v => Some (i64 v, true) | _ => None end
  | LitSimple SimpleTypeUInt8 =>
    match value literalValue with VUint8 v => Some (i64 v, true) | _ => None end
  | LitSimple SimpleTypeInt16 =>
    match value literalValue with VInt16 v => Some (i64 v, true) | _ => None end
  | LitSimple SimpleTypeUInt16 =>
    match value literalValue with VUint16 v => Some (i64 v, true) | _ => None end
  | LitSimple SimpleTypeInt32 =>
    match value literalValue with VInt32 v => Some (i64 v, true) | _ => None end
  | LitSimple SimpleTypeUInt32 =>
    match value literalValue with VUint32 v => Some (i64 v, true) | _ => None end
  | LitSimple SimpleTypeInt64 =>
    match value literalValue with VInt64 v => Some (v, true) | _ => None end
  | LitSimple SimpleTypeUInt64 =>
    match value literalValue with
    | VUint64 v => Some (i64 v, v <=? 2 ^ 63 - 1)
    | _ => None
    end
  | _ => Some (0, false)
  end.

Definition int32Value (literalValue : LiteralValue) : option (Z * bool) :=
  '(v, ok) ← int64Value literalValue;
  Some (i32 v, ok && (v <=? 2 ^ 31 - 1) && (- 2 ^ 31 <=? v)).

Definition uint32Value (literalValue : LiteralValue) : option (Z * bool) :=
  '(v, ok) ← int64Value literalValue;
  Some (u32 v, ok && (v <=? MaxUint32) && (0 <=? v)).

(** [LiteralValue.MarkUsedAsEnumValueInitializer]. *)
Definition MarkUsedAsEnumValueInitializer (lv : LiteralValue) : option bool :=
  snd <$> int32Value lv.

(** ** Concrete values *)
Inductive BuiltInConstantValue : Type :=
| FloatInfinity | FloatNegativeInfinity | FloatNAN
| DoubleInfinity | DoubleNegativeInfinity | DoubleNAN.
#[export] Instance BuiltInConstantValue_eq_dec : EqDecision BuiltInConstantValue.
Proof. solve_decision. Defined.
Definition allBuiltInConstantValues : list BuiltInConstantValue :=
  [FloatInfinity; FloatNegativeInfinity; FloatNAN;
   DoubleInfinity; DoubleNegativeInfinity; DoubleNAN].
Definition BuiltInConstantValue_String (b : BuiltInConstantValue) : string :=
  match b with
  | FloatInfinity => "float.INFINITY"
  | FloatNegativeInfinity => "float.NEGATIVE_INFINITY"
  | FloatNAN => "float.NAN"
  | DoubleInfinity => "double.INFINITY"
  | DoubleNegativeInfinity => "double.NEGATIVE_INFINITY"
  | DoubleNAN => "double.NAN"
  end.
(** A Go map filled by assigning [m[name(x)] = x] for each element in turn. *)
Definition map_by_name {A} (name : A -> string) (l : list A) : gmap string A :=
  foldl (fun m x => <[name x := x]> m) ∅ l.
Definition builtInConstantValues : gmap string BuiltInConstantValue :=
  map_by_name BuiltInConstantValue_String allBuiltInConstantValues.
Definition LookupBuiltInConstantValue (identifier : string) : option BuiltInConstantValue :=
  builtInConstantValues !! identifier.

(** An enum value, by the type it belongs to. *)
Record EnumValue := mkEnumValue {
  EnumType : UserDefinedType;
  ev_FullyQualifiedName : string;
  valueIndex : Z
}.
#[export] Instance EnumValue_eq_dec : EqDecision EnumValue.
Proof. solve_decision. Defined.

Inductive ConcreteValue : Type :=
| CVLiteral (v : LiteralValue)
| CVBuiltIn (v : BuiltInConstantValue)
| CVEnum (v : EnumValue).

(** The [IsAssignmentCompatibleWith] methods of the user-defined types. *)
Definition udt_IsAssignmentCompatibleWith (t : UserDefinedType) (value : LiteralValue) : bool :=
  match udt_Kind t with
  | UserDefinedTypeKindStruct => isDefault value
  | UserDefinedTypeKindInterface => false
  | UserDefinedTypeKindUnion => false
  | UserDefinedTypeKindEnum => false
  end.

Inductive LiteralAssignmentKind : Type :=
| LiteralAssignmentKindDefaultStructField | LiteralAssignmentKindConstantDeclaration.
Definition LiteralAssignmentKind_String (k : LiteralAssignmentKind) : string :=
  match k with
  | LiteralAssignmentKindDefaultStructField => "Field"
  | LiteralAssignmentKindConstantDeclaration => "Const"
  end.
Record LiteralAssignment := mkLiteralAssignment {
  assignedValue : LiteralValue;
  variableName : string;
  la_kind : LiteralAssignmentKind
}.

(** ** Assigning a literal to a variable of a simple type *)
Definition minFloatInt : Z := - 2 ^ 24.
Definition maxFloatInt : Z := 2 ^ 24.
Definition minDoubleInt : Z := - 2 ^ 53.
Definition maxDoubleInt : Z := 2 ^ 53.
(** [math.MaxFloat32] = (2^24 - 1) * 2^104 as a float64. *)
Definition MaxFloat32 : spec_float := S754_finite false ((2 ^ 24 - 1) * 2 ^ 29) 75.

Definition isAssignmentCompatibleWithLiteral (t : SimpleType) (assignedValue : LiteralValue)
    : option bool :=
  if isDefault assignedValue then Some false
  else if bool_decide (valueType assignedValue = StringLiteralType) then Some false
  else
    match valueType assignedValue with
    | LitString _ => None
    | LitSimple assignedType =>
      if bool_decide (assignedType = SimpleTypeBool)
      then Some (bool_decide (t = SimpleTypeBool))
      else
        match t with
        | SimpleTypeBool => Some false
        | SimpleTypeFloat =>
          match assignedType with
          | SimpleTypeFloat => Some true
          | SimpleTypeDouble =>
            match value assignedValue with
            | VFloat64 f => Some (SFleb (SFabs f) MaxFloat32)
            | _ => None
            end
          | _ =>
            '(v, ok) ← int64Value assignedValue;
            Some (ok && (minFloatInt <=? v) && (v <=? maxFloatInt))
          end
        | SimpleTypeDouble =>
          match assignedType with
          | SimpleTypeFloat | SimpleTypeDouble => Some true
          | _ =>
            '(v, ok) ← int64Value assignedValue;
            Some (ok && (minDoubleInt <=? v) && (v <=? maxDoubleInt))
          end
        | SimpleTypeInt8 | SimpleTypeInt16 | SimpleTypeInt32 | SimpleTypeInt64 =>
          match integerTypeCompatibilityRank assignedType with
          | Some rank => Some (rank <=? map_read (integerTypeCompatibilityRank t))
          | None =>
            match unsignedIntegerTypeCompatibilityRank assignedType with
            | Some rank => Some (rank <? map_read (integerTypeCompatibilityRank t))
            | None => Some false
            end
          end
        | SimpleTypeUInt8 | SimpleTypeUInt16 | SimpleTypeUInt32 | SimpleTypeUInt64 =>
          match unsignedIntegerTypeCompatibilityRank assignedType with
          | Some rank => Some (rank <=? map_read (unsignedIntegerTypeCompatibilityRank t))
          | None =>
            match integerTypeCompatibilityRank assignedType with
            | Some rank =>
              if rank <=? map_read (unsignedIntegerTypeCompatibilityRank t)
              then '(numericValue, _) ← int64Value assignedValue; Some (0 <=? numericValue)
              else Some false
            | None => Some false
            end
          end
        end
    end.

Definition isAssignmentCompatibleWithBuiltIn (t : SimpleType) (value : BuiltInConstantValue)
    : bool :=
  match t with
  | SimpleTypeBool => false
  | SimpleTypeFloat =>
    match value with
    | FloatInfinity | FloatNegativeInfinity | FloatNAN => true
    | _ => false
    end
  | SimpleTypeDouble => true
  | _ => false
  end.

Definition SimpleType_IsAssignmentCompatible (t : SimpleType) (assignedValue : ConcreteValue)
    : option bool :=
  match assignedValue with
  | CVLiteral v => isAssignmentCompatibleWithLiteral t v
  | CVBuiltIn v => Some (isAssignmentCompatibleWithBuiltIn t v)
  | CVEnum _ => Some false
  end.

Definition StringType_IsAssignmentCompatible (assignedValue : ConcreteValue) : bool :=
  match assignedValue with
  | CVLiteral v => bool_decide (valueType v = StringLiteralType) && negb (isDefault v)
  | CVBuiltIn _ => false
  | CVEnum _ => false
  end.

(** ** Type references *)
Record UserTypeRef := mkUserTypeRef {
  nullable : bool;
  interfaceRequest : bool;
  ref_scope : option nat;
  identifier : string;
  ref_token : Token;
  usedAsMapKey : bool;
  usedAsConstantType : bool;
  literalAssignment : option LiteralAssignment;
  resolvedType : option UserDefinedType
}.
Definition NewUserTypeRef (identifier : string) (nullable interfaceRequest : bool)
    (scope : option nat) (token : Token) : UserTypeRef :=
  mkUserTypeRef nullable interfaceRequest scope identifier token false false None None.
Definition NewResolvedUserTypeRef (identifier : string) (resolvedType : UserDefinedType)
    : UserTypeRef :=
  mkUserTypeRef false false None identifier zeroToken false false None (Some resolvedType).

(** [R] is a user type reference: the record itself, or a pointer to it where
    several holders share it ([TypeRefOf nat]). *)
Inductive TypeRefOf (R : Type) : Type :=
| TRSimple (t : SimpleType)
| TRString (s : StringType)
| TRHandle (h : HandleTypeRef)
| TRArray (nullable : bool) (fixedLength : Z) (elementType : TypeRefOf R)
| TRMap (nullable : bool) (keyType valueType : TypeRefOf R)
| TRUser (r : R).
Arguments TRSimple {R} t.
Arguments TRString {R} s.
Arguments TRHandle {R} h.
Arguments TRArray {R} nullable fixedLength elementType.
Arguments TRMap {R} nullable keyType valueType.
Arguments TRUser {R} r.
Abbreviation TypeRef := (TypeRefOf UserTypeRef).
Definition NewArrayTypeRef {R} (elementType : TypeRefOf R) (fixedSize : Z) (nullable : bool) : TypeRefOf R :=
  TRArray nullable fixedSize elementType.
Definition NewMapTypeRef {R} (keyType valueType : TypeRefOf R) (nullable : bool) : TypeRefOf R :=
  TRMap nullable keyType valueType.

Definition TypeRefKind (t : TypeRef) : TypeKind :=
  match t with
  | TRSimple _ => TypeKindSimple
  | TRString _ => TypeKindString
  | TRHandle _ => TypeKindHandle
  | TRArray _ _ _ => TypeKindArray
  | TRMap _ _ _ => TypeKindMap
  | TRUser _ => TypeKindUserDefined
  end.

(** A marking method returns the reference it was invoked on, as it leaves it,
    with the answer. *)
Definition UserTypeRef_MarkUsedAsMapKey (r : UserTypeRef) : UserTypeRef * bool :=
  (mkUserTypeRef (nullable r) (interfaceRequest r) (ref_scope r) (identifier r) (ref_token r)
     true (usedAsConstantType r) (literalAssignment r) (resolvedType r), true).
Definition UserTypeRef_MarkUsedAsConstantType (r : UserTypeRef) : UserTypeRef * bool :=
  (mkUserTypeRef (nullable r) (interfaceRequest r) (ref_scope r) (identifier r) (ref_token r)
     (usedAsMapKey r) true (literalAssignment r) (resolvedType r), true).
Definition UserTypeRef_MarkTypeCompatible (r : UserTypeRef) (assignment : LiteralAssignment)
    : UserTypeRef * bool :=
  (mkUserTypeRef (nullable r) (interfaceRequest r) (ref_scope r) (identifier r) (ref_token r)
     (usedAsMapKey r) (usedAsConstantType r) (Some assignment) (resolvedType r), true).
Definition SimpleType_MarkTypeCompatible (s : SimpleType) (assignment : LiteralAssignment)
    : option bool :=
  isAssignmentCompatibleWithLiteral s (assignedValue assignment).
Definition StringType_MarkTypeCompatible (assignment : LiteralAssignment) : bool :=
  StringType_IsAssignmentCompatible (CVLiteral (assignedValue assignment)).
Definition MarkUsedAsMapKey (t : TypeRef) : TypeRef * bool :=
  match t with
  | TRSimple _ | TRString _ => (t, true)
  | TRHandle _ | TRArray _ _ _ | TRMap _ _ _ => (t, false)
  | TRUser r => let (r', ok) := UserTypeRef_MarkUsedAsMapKey r in (TRUser r', ok)
  end.
Definition MarkUsedAsConstantType (t : TypeRef) : TypeRef * bool :=
  match t with
  | TRSimple _ | TRString _ => (t, true)
  | TRHandle _ | TRArray _ _ _ | TRMap _ _ _ => (t, false)
  | TRUser r => let (r', ok) := UserTypeRef_MarkUsedAsConstantType r in (TRUser r', ok)
  end.
Definition MarkTypeCompatible (t : TypeRef) (assignment : LiteralAssignment)
    : option (TypeRef * bool) :=
  match t with
  | TRSimple s => ok ← SimpleType_MarkTypeCompatible s assignment; Some (t, ok)
  | TRString _ => Some (t, StringType_MarkTypeCompatible assignment)
  | TRHandle _ | TRArray _ _ _ | TRMap _ _ _ => Some (t, false)
  | TRUser r => let (r', ok) := UserTypeRef_MarkTypeCompatible r assignment in Some (TRUser r', ok)
  end.

Definition UserTypeRef_IsAssignmentCompatible (ref : UserTypeRef) (assignedValue : ConcreteValue)
    : option bool :=
  rt ← resolvedType ref;
  match assignedValue with
  | CVLiteral v => Some (udt_IsAssignmentCompatibleWith rt v)
  | CVBuiltIn _ => Some false
  | CVEnum v => Some (bool_decide (rt = EnumType v))
  end.
Definition IsAssignmentCompatible (t : TypeRef) (assignedValue : ConcreteValue) : option bool :=
  match t with
  | TRSimple s => SimpleType_IsAssignmentCompatible s assignedValue
  | TRString _ => Some (StringType_IsAssignmentCompatible assignedValue)
  | TRHandle _ | TRArray _ _ _ | TRMap _ _ _ => None
  | TRUser ref => UserTypeRef_IsAssignmentCompatible ref assignedValue
  end.

Definition UserTypeRef_AllowedInNonZeroStructVersion (r : UserTypeRef) : option bool :=
  rt ← resolvedType r;
  if bool_decide (udt_Kind rt = UserDefinedTypeKindEnum) then Some true
  else Some (nullable r).
Definition AllowedInNonZeroStructVersion (t : TypeRef) : option bool :=
  match t with
  | TRSimple _ => Some true
  | TRString s => Some (StringType_nullable s)
  | TRHandle h => Some (HandleTypeRef_nullable h)
  | TRArray nullable _ _ | TRMap nullable _ _ => Some nullable
  | TRUser r => UserTypeRef_AllowedInNonZeroStructVersion r
  end.

Definition UserTypeRef_SerializationSize (r : UserTypeRef) : option Z :=
  rt ← resolvedType r;
  if interfaceRequest r then Some 4 else Some (udt_SerializationSize rt).
Definition UserTypeRef_SerializationAlignment (r : UserTypeRef) : option Z :=
  rt ← resolvedType r; Some (udt_SerializationAlignment rt).
Definition SerializationSize (t : TypeRef) : option Z :=
  match t with
  | TRSimple s => Some (SimpleType_SerializationSize s)
  | TRString _ => Some 8
  | TRHandle _ => Some 4
  | TRArray _ _ _ => Some 8
  | TRMap _ _ _ => Some 8
  | TRUser r => UserTypeRef_SerializationSize r
  end.

Definition SerializationAlignment (t : TypeRef) : option Z :=
  match t with
  | TRSimple s => Some (SimpleType_SerializationAlignment s)
  | TRString _ => Some 8
  | TRHandle _ => Some 4
  | TRArray _ _ _ => Some 8
  | TRMap _ _ _ => Some 8
  | TRUser r => UserTypeRef_SerializationAlignment r
  end.

(** [None] is a panic, [Some None] a nil result. *)
Definition UserTypeRef_NonAvoidableUserType (r : UserTypeRef) : option (option UserDefinedType) :=
  if nullable r || interfaceRequest r then Some None
  else
    rt ← resolvedType r;
    match udt_Kind rt with
    | UserDefinedTypeKindStruct | UserDefinedTypeKindUnion => Some (Some rt)
    | _ => Some None
    end.
Fixpoint NonAvoidableUserType (t : TypeRef) : option (option UserDefinedType) :=
  match t with
  | TRSimple _ | TRString _ | TRHandle _ | TRMap _ _ _ => Some None
  | TRArray nullable fixedLength elementType =>
    if nullable || (fixedLength <=? 0) then Some None
    else NonAvoidableUserType elementType
  | TRUser r => UserTypeRef_NonAvoidableUserType r
  end.

(** ** Names *)
Definition UserTypeRef_ToString (t : UserTypeRef) (debug : bool) : string :=
  let interfaceRequest := if interfaceRequest t then "&" else "" in
  let nullable := if nullable t then "?" else "" in
  let resolvedKey := match resolvedType t with Some rt => udt_TypeKey rt | None => "" end in
  let debugString := if debug then "(" +:+ resolvedKey +:+ ")" else "" in
  let baseName :=
    match debug, resolvedType t with
    | false, Some rt => udt_FullyQualifiedName rt
    | _, _ => identifier t
    end in
  debugString +:+ baseName +:+ interfaceRequest +:+ nullable.

(** [String()] is [ToString(true)], [TypeName()] is [ToString(false)]. *)
Fixpoint TypeRef_ToString (debug : bool) (t : TypeRef) : string :=
  match t with
  | TRSimple s => SimpleType_String s
  | TRString s => StringType_String s
  | TRHandle h => HandleTypeRef_String h
  | TRArray nullable fixedLength elementType =>
    let fixedLengthSpecifier := if 0 <? fixedLength then ", " +:+ pretty fixedLength else "" in
    let nullableSpecifier := if nullable then "?" else "" in
    "array<" +:+ TypeRef_ToString debug elementType +:+ fixedLengthSpecifier +:+ ">"
      +:+ nullableSpecifier
  | TRMap nullable keyType valueType =>
    let nullableSpecifier := if nullable then "?" else "" in
    "map<" +:+ TypeRef_ToString debug keyType +:+ ", " +:+ TypeRef_ToString debug valueType
      +:+ ">" +:+ nullableSpecifier
  | TRUser r => UserTypeRef_ToString r debug
  end.
Definition TypeRef_String (t : TypeRef) : string := TypeRef_ToString true t.
Definition TypeName (t : TypeRef) : string := TypeRef_ToString false t.

Definition allBuiltInTypes : list TypeRef :=
  map TRSimple allSimpleTypes
  ++ [TRString (mkStringType false); TRString (mkStringType true)]
  ++ flat_map (fun kind => [TRHandle (mkHandleTypeRef false kind);
                            TRHandle (mkHandleTypeRef true kind)]) allHandleKinds.
Definition builtInTypeMap : gmap string TypeRef := map_by_name TypeRef_String allBuiltInTypes.
Definition BuiltInType (name : string) : option TypeRef := builtInTypeMap !! name.

(** ** Validation of a type reference after resolution *)
Inductive TypeRefError : Type :=
| InvalidInterfaceRequest (ref : string) (resolved : string)
| NullableEnum (ref : string) (resolved : string)
| NotAMapKey (ref : string)
| NotAConstantType (ref : string)
| DefaultNotAllowed (variableName : string) (ref : string)
| IllegalLiteral (kind variableName ref : string) (assigned : LiteralValue).

(** Panics when the reference is not resolved. *)
Definition validateAfterResolution (ref : UserTypeRef) : res TypeRefError unit :=
  match resolvedType ref with
  | None => Panic
  | Some rt =>
    let name := TypeName (TRUser ref) in
    let isEnum := bool_decide (udt_Kind rt = UserDefinedTypeKindEnum) in
    if interfaceRequest ref && negb (bool_decide (udt_Kind rt = UserDefinedTypeKindInterface))
    then Err (InvalidInterfaceRequest name (udt_FullyQualifiedName rt))
    else if nullable ref && isEnum
    then Err (NullableEnum name (udt_FullyQualifiedName rt))
    else if negb isEnum && usedAsMapKey ref then Err (NotAMapKey name)
    else if negb isEnum && usedAsConstantType ref then Err (NotAConstantType name)
    else
      match literalAssignment ref with
      | None => Ok tt
      | Some a =>
        if udt_IsAssignmentCompatibleWith rt (assignedValue a) then Ok tt
        else if isDefault (assignedValue a)
        then Err (DefaultNotAllowed (variableName a) name)
        else Err (IllegalLiteral (LiteralAssignmentKind_String (la_kind a)) (variableName a)
                    name (assignedValue a))
      end
  end.

(** ** References to values *)
Inductive UserDefinedValue : Type :=
| UDVEnumValue (v : EnumValue)
| UDVConstant (constant : nat)
| UDVBuiltIn (v : BuiltInConstantValue).
Record AssigneeSpec (R : Type) := mkAssigneeSpec { as_Name : string; as_Type : TypeRefOf R }.
Arguments mkAssigneeSpec {R} as_Name as_Type.
Arguments as_Name {R} a.
Arguments as_Type {R} a.
Record UserValueRef (R : Type) := mkUserValueRef {
  uv_scope : option nat;
  uv_token : Token;
  uv_identifier : string;
  usedAsEnumValueInitializer : bool;
  assigneeSpec : AssigneeSpec R;
  resolvedDeclaredValue : option UserDefinedValue;
  resolvedConcreteValue : option ConcreteValue
}.
Arguments mkUserValueRef {R} uv_scope uv_token uv_identifier usedAsEnumValueInitializer
  assigneeSpec resolvedDeclaredValue resolvedConcreteValue.
Arguments uv_scope {R} u.
Arguments uv_token {R} u.
Arguments uv_identifier {R} u.
Arguments usedAsEnumValueInitializer {R} u.
Arguments assigneeSpec {R} u.
Arguments resolvedDeclaredValue {R} u.
Arguments resolvedConcreteValue {R} u.
Definition NewUserValueRef {R} (assigneeSpec : AssigneeSpec R) (identifier : string)
    (scope : option nat) (token : Token) : UserValueRef R :=
  mkUserValueRef scope token identifier false assigneeSpec None None.
Definition UserValueRef_MarkUsedAsEnumValueInitializer {R} (v : UserValueRef R)
    : UserValueRef R * bool :=
  (mkUserValueRef (uv_scope v) (uv_token v) (uv_identifier v) true (assigneeSpec v)
     (resolvedDeclaredValue v) (resolvedConcreteValue v), true).

(** Which message; each is given the names it prints. *)
Inductive ValueRefError : Type :=
| NotAnInt32 (ref : string) (v : LiteralValue)
| BuiltInInitializer (ref : string)
| EnumValueInitializer (ref enumType assignee assigneeType : string)
| ConstantInitializer (ref enumValue assignee assigneeType : string)
| LiteralConstantAssigned (ref : string) (v : LiteralValue) (assignee assigneeType : string)
| BuiltInAssigned (ref assignee assigneeType : string)
| BuiltInConstantAssigned (ref : string) (v : BuiltInConstantValue) (assignee assigneeType : string)
| EnumValueAssigned (ref enumType assignee assigneeType : string)
| EnumConstantAssigned (ref enumValue assignee assigneeType : string).

Definition UserValueRef_validateAfterResolution (v : UserValueRef UserTypeRef) : res ValueRefError unit :=
  match resolvedConcreteValue v with
  | None => Panic
  | Some concrete =>
    let id := uv_identifier v in
    let name := as_Name (assigneeSpec v) in
    let tn := TypeName (as_Type (assigneeSpec v)) in
    if usedAsEnumValueInitializer v then
      match concrete with
      | CVLiteral lv =>
        match int32Value lv with
        | None => Panic
        | Some (_, true) => Ok tt
        | Some (_, false) => Err (NotAnInt32 id lv)
        end
      | CVBuiltIn _ => Err (BuiltInInitializer id)
      | CVEnum ev =>
        match IsAssignmentCompatible (as_Type (assigneeSpec v)) concrete with
        | None => Panic
        | Some true => Ok tt
        | Some false =>
          match resolvedDeclaredValue v with
          | Some (UDVEnumValue _) =>
            Err (EnumValueInitializer id (udt_FullyQualifiedName (EnumType ev)) name tn)
          | _ => Err (ConstantInitializer id (ev_FullyQualifiedName ev) name tn)
          end
        end
      end
    else
      match IsAssignmentCompatible (as_Type (assigneeSpec v)) concrete with
      | None => Panic
      | Some true => Ok tt
      | Some false =>
        match concrete with
        | CVLiteral lv => Err (LiteralConstantAssigned id lv name tn)
        | CVBuiltIn b =>
          match resolvedDeclaredValue v with
          | Some (UDVBuiltIn _) => Err (BuiltInAssigned id name tn)
          | _ => Err (BuiltInConstantAssigned id b name tn)
          end
        | CVEnum ev =>
          match resolvedDeclaredValue v with
          | Some (UDVEnumValue _) =>
            Err (EnumValueAssigned id (udt_FullyQualifiedName (EnumType ev)) name tn)
          | _ => Err (EnumConstantAssigned id (ev_FullyQualifiedName ev) name tn)
          end
        end
      end
  end.

(** A value reference is a literal or points to a [UserValueRef]. *)
Inductive ValueRef : Type :=
| VRLiteral (v : LiteralValue)
| VRUser (ref : nat).
