(* ===== verification/TypesSpec.v ===== *)
(** * Correctness of the type and value model of compiler/core/types.go

    The integer readers of literals, the assignment-compatibility rules
    against the ranges of the types, the table of built-in types, and the
    layout facts and validation of type references. *)
From S2P Require Export Types.

#[local] Set Warnings "-clear-no-such-hyp".

(** ** Literals as the [Make*LiteralValue] functions build them *)
Definition signed_type (t : SimpleType) : Prop := t ∈ integerTypes.
Definition unsigned_type (t : SimpleType) : Prop := t ∈ unsignedIntegerTypes.
Definition integer_type (t : SimpleType) : Prop := signed_type t \/ unsigned_type t.

(** The least and the greatest value of an integer type. *)
Definition type_min (t : SimpleType) : Z :=
  match t with
  | SimpleTypeInt8 => - 2 ^ 7 | SimpleTypeInt16 => - 2 ^ 15
  | SimpleTypeInt32 => - 2 ^ 31 | SimpleTypeInt64 => - 2 ^ 63
  | _ => 0
  end.
Definition type_max (t : SimpleType) : Z :=
  match t with
  | SimpleTypeInt8 => 2 ^ 7 - 1 | SimpleTypeInt16 => 2 ^ 15 - 1
  | SimpleTypeInt32 => 2 ^ 31 - 1 | SimpleTypeInt64 => 2 ^ 63 - 1
  | SimpleTypeUInt8 => 2 ^ 8 - 1 | SimpleTypeUInt16 => 2 ^ 16 - 1
  | SimpleTypeUInt32 => 2 ^ 32 - 1 | SimpleTypeUInt64 => 2 ^ 64 - 1
  | _ => 0
  end.

(** The dynamic value agrees with the declared literal type. *)
Definition well_typed (lv : LiteralValue) : Prop :=
  match valueType lv, value lv with
  | LitString s, VString _ => StringType_nullable s = false
  | LitSimple SimpleTypeBool, VBool _ => True
  | LitSimple SimpleTypeFloat, VFloat32 _ => True
  | LitSimple SimpleTypeDouble, VFloat64 _ => True
  | LitSimple SimpleTypeInt8, VInt8 z => - 2 ^ 7 <= z <= 2 ^ 7 - 1
  | LitSimple SimpleTypeInt16, VInt16 z => - 2 ^ 15 <= z <= 2 ^ 15 - 1
  | LitSimple SimpleTypeInt32, VInt32 z => - 2 ^ 31 <= z <= 2 ^ 31 - 1
  | LitSimple SimpleTypeInt64, VInt64 z => - 2 ^ 63 <= z <= 2 ^ 63 - 1
  | LitSimple SimpleTypeUInt8, VUint8 z => 0 <= z <= 2 ^ 8 - 1
  | LitSimple SimpleTypeUInt16, VUint16 z => 0 <= z <= 2 ^ 16 - 1
  | LitSimple SimpleTypeUInt32, VUint32 z => 0 <= z <= 2 ^ 32 - 1
  | LitSimple SimpleTypeUInt64, VUint64 z => 0 <= z <= 2 ^ 64 - 1
  | _, _ => False
  end.

(** The mathematical integer an integer literal denotes. *)
Definition int_value (lv : LiteralValue) : option Z :=
  match value lv with
  | VInt8 z | VInt16 z | VInt32 z | VInt64 z
  | VUint8 z | VUint16 z | VUint32 z | VUint64 z => Some z
  | _ => None
  end.

Lemma signed_small w z : 0 < w -> - 2 ^ (w - 1) <= z < 2 ^ (w - 1) -> signed w z = z.
Proof.
  intros Hw Hz. unfold signed.
  assert (2 ^ w = 2 * 2 ^ (w - 1)) as E.
  { rewrite <- Z.pow_succ_r by lia. f_equal; lia. }
  rewrite Z.mod_small; lia.
Qed.
Lemma i64_small z : - 2 ^ 63 <= z <= 2 ^ 63 - 1 -> i64 z = z.
Proof. intros. apply (signed_small 64); lia. Qed.
Lemma i32_small z : - 2 ^ 31 <= z <= 2 ^ 31 - 1 -> i32 z = z.
Proof. intros. apply (signed_small 32); lia. Qed.

(** [int64Value] on the three sorts of well-typed literals. *)
Lemma int64Value_spec lv :
  well_typed lv ->
  exists v ok, int64Value lv = Some (v, ok) /\
    (ok = true <-> exists z, int_value lv = Some z /\ - 2 ^ 63 <= z <= 2 ^ 63 - 1) /\
    (ok = true -> int_value lv = Some v).
Proof.
  intros Hw.
  assert (forall z b, int_value lv = Some z -> (b = true <-> z <= 2 ^ 63 - 1) ->
            - 2 ^ 63 <= z -> int64Value lv = Some (i64 z, b) ->
            exists v ok, int64Value lv = Some (v, ok) /\
              (ok = true <-> exists z, int_value lv = Some z /\ - 2 ^ 63 <= z <= 2 ^ 63 - 1) /\
              (ok = true -> int_value lv = Some v)) as Hint.
  { intros z b Hz Hb Hlo Hv. exists (i64 z), b. split; [done|]. split.
    - rewrite Hb. split; [intros; eauto with lia|]. intros (z' & Hz' & ?).
      rewrite Hz in Hz'. injection Hz' as <-. lia.
    - intros ?%Hb. rewrite i64_small by lia. done. }
  assert (int_value lv = None -> int64Value lv = Some (0, false) ->
            exists v ok, int64Value lv = Some (v, ok) /\
              (ok = true <-> exists z, int_value lv = Some z /\ - 2 ^ 63 <= z <= 2 ^ 63 - 1) /\
              (ok = true -> int_value lv = Some v)) as Hnone.
  { intros Hz Hv. exists 0, false. rewrite Hz. naive_solver. }
  destruct lv as [[[]|[[]]] [] d t]; cbn [well_typed valueType value] in Hw; try done;
    try (apply Hnone; reflexivity);
    (eapply Hint; [reflexivity| |lia|]; [|try reflexivity]);
    try (split; [intros; lia|done]).
  - unfold int64Value; cbn [valueType value]. by rewrite i64_small by lia.
  - apply Z.leb_le.
Qed.

(** Reading a 64-bit integer into a narrower type [cast] with range [lo..hi]. *)
Lemma narrow_spec lv (cast : Z -> Z) lo hi :
  well_typed lv -> - 2 ^ 63 <= lo -> hi <= 2 ^ 63 - 1 ->
  (forall z, lo <= z <= hi -> cast z = z) ->
  exists v ok, int64Value lv = Some (v, ok) /\
    let ok' := ok && (v <=? hi) && (lo <=? v) in
    (ok' = true <-> exists z, int_value lv = Some z /\ lo <= z <= hi) /\
    (ok' = true -> int_value lv = Some (cast v)).
Proof.
  intros Hw Hlo Hhi Hcast. destruct (int64Value_spec lv Hw) as (v & ok & Hv & Hok & Hval).
  exists v, ok. split; [done|]. cbv zeta.
  assert (ok && (v <=? hi) && (lo <=? v) = true <-> ok = true /\ lo <= v <= hi) as E.
  { rewrite !andb_true_iff, !Z.leb_le. tauto. }
  rewrite E. split.
  - split.
    + intros [Ho ?]. exists v. eauto.
    + intros (z & Hz & ?). assert (ok = true) as Ho by (apply Hok; eauto with lia).
      specialize (Hval Ho). rewrite Hz in Hval. injection Hval as ->. done.
  - intros [Ho ?]. rewrite Hcast by lia. auto.
Qed.

Lemma int32Value_spec lv :
  well_typed lv ->
  exists s ok, int32Value lv = Some (s, ok) /\
    (ok = true <-> exists z, int_value lv = Some z /\ - 2 ^ 31 <= z <= 2 ^ 31 - 1) /\
    (ok = true -> int_value lv = Some s).
Proof.
  intros Hw. unfold int32Value.
  destruct (narrow_spec lv i32 (- 2 ^ 31) (2 ^ 31 - 1) Hw) as (v & ok & -> & H1 & H2);
    [lia..|apply i32_small|]. cbn [mbind option_bind]. eauto.
Qed.
Lemma uint32Value_spec lv :
  well_typed lv ->
  exists u ok, uint32Value lv = Some (u, ok) /\
    (ok = true <-> exists z, int_value lv = Some z /\ 0 <= z <= 2 ^ 32 - 1) /\
    (ok = true -> int_value lv = Some u).
Proof.
  intros Hw. unfold uint32Value.
  destruct (narrow_spec lv u32 0 MaxUint32 Hw) as (v & ok & -> & H1 & H2);
    [unfold MaxUint32; lia..|intros; apply u32_small; unfold MaxUint32 in *; lia|].
  cbn [mbind option_bind]. eauto.
Qed.

(** On a literal whose dynamic value has its declared type, int32Value and uint32Value return without panic; ok is true exactly when the literal is an integer in the range of the target type, and then the returned value is that integer. *)
Theorem int_readers_correct lv :
  well_typed lv ->
  exists s oks u oku,
    int32Value lv = Some (s, oks) /\ uint32Value lv = Some (u, oku) /\
    (oks = true <-> exists z, int_value lv = Some z /\ - 2 ^ 31 <= z <= 2 ^ 31 - 1) /\
    (oks = true -> int_value lv = Some s) /\
    (oku = true <-> exists z, int_value lv = Some z /\ 0 <= z <= 2 ^ 32 - 1) /\
    (oku = true -> int_value lv = Some u).
Proof.
  intros Hw. destruct (int32Value_spec lv Hw) as (s & oks & ? & ? & ?).
  destruct (uint32Value_spec lv Hw) as (u & oku & ? & ? & ?). exists s, oks, u, oku.
  repeat (split; [assumption|]); assumption.
Qed.
Lemma int_readers_correct_witness :
  well_typed (MakeUint64LiteralValue (2 ^ 32 + 7) None) /\
  exists s oks u oku,
    int32Value (MakeUint64LiteralValue (2 ^ 32 + 7) None) = Some (s, oks) /\
    uint32Value (MakeUint64LiteralValue (2 ^ 32 + 7) None) = Some (u, oku) /\
    oks = false /\ oku = false.
Proof.
  assert (well_typed (MakeUint64LiteralValue (2 ^ 32 + 7) None)) as Hw by (cbn; lia).
  split; [exact Hw|].
  destruct (int_readers_correct _ Hw) as (s & oks & u & oku & H1 & H2 & H3).
  exists s, oks, u, oku. vm_compute in H1, H2.
  injection H1 as <- <-. injection H2 as <- <-. repeat split.
Defined.

(** ** Assignment compatibility *)
(** Evaluates the two sides of the comparison the left of an equivalence has. *)
Ltac eval_sides :=
  match goal with
  | |- (?x <= ?y) <-> _ =>
    let x' := eval vm_compute in x in let y' := eval vm_compute in y in change (x <= y) with (x' <= y')
  | |- (?x < ?y) <-> _ =>
    let x' := eval vm_compute in x in let y' := eval vm_compute in y in change (x < y) with (x' < y')
  | |- (?b = true) <-> _ => let b' := eval vm_compute in b in change b with b'
  end.

(** C18: A literal of an integer type may be assigned to a variable of an integer type exactly when the non-negative values of the literal's type fit the variable's type and the literal is not below the variable's least value; in particular a compatible literal lies in the range of the variable's type. The check never panics on a well-typed literal. *)
Theorem integer_assignment_sound t lv a v :
  integer_type t -> integer_type a ->
  well_typed lv -> isDefault lv = false ->
  valueType lv = LitSimple a -> int_value lv = Some v ->
  exists b, isAssignmentCompatibleWithLiteral t lv = Some b /\
    (b = true <-> type_max a <= type_max t /\ type_min t <= v) /\
    (b = true -> type_min t <= v <= type_max t).
Proof.
  intros Ht Ha Hw Hd Ha' Hv.
  assert (forall b, isAssignmentCompatibleWithLiteral t lv = Some b ->
    (b = true <-> type_max a <= type_max t /\ type_min t <= v) -> v <= type_max a ->
    exists b, isAssignmentCompatibleWithLiteral t lv = Some b /\
    (b = true <-> type_max a <= type_max t /\ type_min t <= v) /\
    (b = true -> type_min t <= v <= type_max t)) as Hgoal.
  { intros b Hb Hiff Hmax. exists b. split; [done|]. split; [done|]. intros ?%Hiff. lia. }
  destruct lv as [vt x d tok]; unfold int_value in Hv; cbn [isDefault valueType value] in *; subst d vt.
  assert (forall P : SimpleType -> Prop, P SimpleTypeInt8 -> P SimpleTypeInt16 ->
    P SimpleTypeInt32 -> P SimpleTypeInt64 -> P SimpleTypeUInt8 -> P SimpleTypeUInt16 ->
    P SimpleTypeUInt32 -> P SimpleTypeUInt64 -> forall t, integer_type t -> P t) as Hind.
  { unfold integer_type, signed_type, unsigned_type, integerTypes, unsignedIntegerTypes.
    intros P ???????? s [Hs|Hs]; set_unfold in Hs; naive_solver. }
  revert t Ht Hgoal. revert a Ha Hw.
  refine (Hind _ _ _ _ _ _ _ _ _); destruct x; try (by intros []);
    intros Hw; cbn in Hw; injection Hv as ->;
    refine (Hind _ _ _ _ _ _ _ _ _); intros Hgoal;
    cbn [type_max type_min] in Hgoal |- *;
    (eapply Hgoal; [reflexivity| |lia]);
    rewrite ?i64_small by lia; rewrite ?Z.leb_le, ?Z.ltb_lt; eval_sides;
    split; intros; lia.
Qed.
Lemma integer_assignment_sound_witness :
  isAssignmentCompatibleWithLiteral SimpleTypeUInt8 (MakeInt8LiteralValue 100 None) = Some true /\
  type_min SimpleTypeUInt8 <= 100 <= type_max SimpleTypeUInt8.
Proof.
  assert (isAssignmentCompatibleWithLiteral SimpleTypeUInt8 (MakeInt8LiteralValue 100 None)
          = Some true) as Hc by (vm_compute; reflexivity).
  split; [exact Hc|].
  destruct (integer_assignment_sound SimpleTypeUInt8
              (MakeInt8LiteralValue 100 None) SimpleTypeInt8 100) as (b & Hb & _ & Hr).
  - right. unfold unsigned_type. set_solver.
  - left. unfold signed_type. set_solver.
  - cbn. lia.
  - reflexivity.
  - reflexivity.
  - reflexivity.
  - rewrite Hc in Hb. injection Hb as <-. apply Hr. reflexivity.
Defined.

(** [v] is the product of a mantissa of [prec] bits and a power of two, so a
    binary float of that precision holds it without rounding. *)
Definition exact_in (prec v : Z) : Prop :=
  exists m e, 0 <= e /\ Z.abs m < 2 ^ prec /\ v = m * 2 ^ e.
Lemma exact_in_bound prec v : 1 < prec -> Z.abs v <= 2 ^ prec -> exact_in prec v.
Proof.
  intros Hp Hv.
  assert (2 ^ prec = 2 * 2 ^ (prec - 1)) as E.
  { rewrite <- Z.pow_succ_r by lia. f_equal; lia. }
  pose proof (Z.pow_pos_nonneg 2 (prec - 1)).
  destruct (Z.eq_dec (Z.abs v) (2 ^ prec)) as [Heq|Hne].
  - exists (Z.sgn v * 2 ^ (prec - 1)), 1. split; [lia|]. split; nia.
  - exists v, 0. rewrite Z.pow_0_r. lia.
Qed.

(** The check of an integer literal against a symmetric bound. *)
Lemma bounded_int64 lv v bound :
  well_typed lv -> int_value lv = Some v -> 0 <= bound <= 2 ^ 62 ->
  exists b, (int64Value lv ≫= fun '(w, ok) => Some (ok && (- bound <=? w) && (w <=? bound))) = Some b /\
            (b = true <-> Z.abs v <= bound).
Proof.
  intros Hw Hv Hb. destruct (int64Value_spec lv Hw) as (w & ok & -> & Hok & Hval).
  cbn [mbind option_bind]. eexists. split; [reflexivity|].
  rewrite !andb_true_iff, !Z.leb_le. split.
  - intros [[Ho ?] ?]. specialize (Hval Ho). rewrite Hv in Hval. injection Hval as <-. lia.
  - intros ?. assert (ok = true) as Ho by (apply Hok; exists v; split; [done|lia]).
    specialize (Hval Ho). rewrite Hv in Hval. injection Hval as <-. split; [split; [done|]|]; lia.
Qed.

(** An integer literal may be assigned to a float (double) variable exactly when its absolute value is at most 2^24 (2^53), and then the variable's format holds the integer without rounding. *)
Theorem float_assignment_exact lv v :
  well_typed lv -> isDefault lv = false -> int_value lv = Some v ->
  exists bf bd,
    isAssignmentCompatibleWithLiteral SimpleTypeFloat lv = Some bf /\
    isAssignmentCompatibleWithLiteral SimpleTypeDouble lv = Some bd /\
    (bf = true <-> Z.abs v <= 2 ^ 24) /\ (bf = true -> exact_in 24 v) /\
    (bd = true <-> Z.abs v <= 2 ^ 53) /\ (bd = true -> exact_in 53 v).
Proof.
  intros Hw Hd Hv.
  destruct (bounded_int64 lv v (2 ^ 24) Hw Hv) as (bf & Hbf & Hf); [lia|].
  destruct (bounded_int64 lv v (2 ^ 53) Hw Hv) as (bd & Hbd & Hdd); [lia|].
  exists bf, bd.
  assert (isAssignmentCompatibleWithLiteral SimpleTypeFloat lv = Some bf /\
          isAssignmentCompatibleWithLiteral SimpleTypeDouble lv = Some bd) as [-> ->].
  { destruct lv as [[[]|[[]]] [] d tk]; cbn [well_typed valueType value] in Hw; try done;
      cbn [isDefault] in Hd; subst d; exact (conj Hbf Hbd). }
  split; [done|]. split; [done|]. rewrite Hf, Hdd.
  split; [done|]. split; [apply exact_in_bound; lia|].
  split; [done|]. apply exact_in_bound; lia.
Qed.
Lemma float_assignment_exact_witness :
  isAssignmentCompatibleWithLiteral SimpleTypeFloat (MakeInt32LiteralValue (2 ^ 24) None) = Some true /\
  exact_in 24 (2 ^ 24).
Proof.
  assert (isAssignmentCompatibleWithLiteral SimpleTypeFloat (MakeInt32LiteralValue (2 ^ 24) None)
          = Some true) as Hc by (vm_compute; reflexivity).
  split; [exact Hc|].
  destruct (float_assignment_exact (MakeInt32LiteralValue (2 ^ 24) None) (2 ^ 24))
    as (bf & bd & Hb & _ & _ & He & _).
  - cbn. lia.
  - reflexivity.
  - reflexivity.
  - rewrite Hc in Hb. injection Hb as <-. apply He. reflexivity.
Defined.

(** ** Maps filled by name *)
Lemma foldl_by_name {A} (name : A -> string) l (m : gmap string A) k x :
  NoDup (map name l) ->
  foldl (fun m x => <[name x := x]> m) m l !! k = Some x <->
  (x ∈ l /\ name x = k) \/ ((k ∉ map name l) /\ m !! k = Some x).
Proof.
  revert m. induction l as [|y l IH]; intros m Hnd; cbn [foldl map].
  { set_solver. }
  apply NoDup_cons in Hnd as [Hy Hnd]. rewrite IH by done.
  rewrite lookup_insert_Some, elem_of_cons, not_elem_of_cons.
  split.
  - intros [[? ?]|[Hk [[<- <-]|[? ?]]]]; naive_solver.
  - intros [[[->|Hx] <-]|[[? ?] ?]]; naive_solver.
Qed.
Lemma map_by_name_Some {A} (name : A -> string) l k x :
  NoDup (map name l) -> map_by_name name l !! k = Some x <-> x ∈ l /\ name x = k.
Proof. intros H. unfold map_by_name. rewrite foldl_by_name by done. set_solver. Qed.

Definition built_in (t : TypeRef) : Prop :=
  match t with TRSimple _ | TRString _ | TRHandle _ => True | _ => False end.

(** BuiltInType inverts String on the built-in types: it finds a type under a name exactly when that type is a simple, string or handle type whose String is the name; so no two built-in types share a name and every other name is left to resolution. *)
Theorem BuiltInType_iff name t :
  BuiltInType name = Some t <-> built_in t /\ TypeRef_String t = name.
Proof.
  unfold BuiltInType, builtInTypeMap. rewrite map_by_name_Some.
  - enough (t ∈ allBuiltInTypes <-> built_in t) as -> by done. split.
    + intros Ht. cbn in Ht. set_unfold in Ht. naive_solver.
    + intros Ht. destruct t as [[]|[[]]|[[] []]| | |]; try done; cbn; set_solver.
  - apply (bool_decide_unpack _). vm_compute. exact I.
Qed.

(** LookupBuiltInConstantValue finds a constant under a name exactly when that is the constant's String. *)
Theorem LookupBuiltInConstantValue_iff name b :
  LookupBuiltInConstantValue name = Some b <-> BuiltInConstantValue_String b = name.
Proof.
  unfold LookupBuiltInConstantValue, builtInConstantValues. rewrite map_by_name_Some.
  - assert (b ∈ allBuiltInConstantValues) by (destruct b; cbn; set_solver). tauto.
  - apply (bool_decide_unpack _). vm_compute. exact I.
Qed.

(** ** Layout of validated references *)
Definition validated (t : TypeRef) : Prop :=
  match t with TRUser r => validateAfterResolution r = Ok tt | _ => True end.

Lemma validateAfterResolution_Ok r :
  validateAfterResolution r = Ok tt <->
  exists rt, resolvedType r = Some rt /\
    (interfaceRequest r = true -> udt_Kind rt = UserDefinedTypeKindInterface) /\
    (nullable r = true -> udt_Kind rt <> UserDefinedTypeKindEnum) /\
    (usedAsMapKey r = true \/ usedAsConstantType r = true -> udt_Kind rt = UserDefinedTypeKindEnum) /\
    (forall a, literalAssignment r = Some a ->
       udt_Kind rt = UserDefinedTypeKindStruct /\ isDefault (assignedValue a) = true).
Proof.
  destruct r as [n q sc id tok mk ct la rt]. unfold validateAfterResolution, udt_IsAssignmentCompatibleWith.
  cbn [resolvedType nullable interfaceRequest usedAsMapKey usedAsConstantType literalAssignment].
  destruct rt as [[ad k key fqn]|]; [|naive_solver].
  cbn [udt_Kind udt_FullyQualifiedName].
  split.
  - intros H. eexists. split; [reflexivity|]. cbn [udt_Kind].
    destruct k, q; cbn in H; try discriminate H; destruct n; cbn in H; try discriminate H;
      destruct mk; cbn in H; try discriminate H; destruct ct; cbn in H; try discriminate H;
      destruct la as [[[? ? [] ?] ? ?]|]; cbn in H; try discriminate H;
      naive_solver.
  - intros (rt & [= <-] & Hq & Hn & Hm & Ha). cbn [udt_Kind] in *.
    destruct k, q; cbn; try (by specialize (Hq eq_refl)); destruct n; cbn; try (by destruct Hn);
      destruct mk; cbn; try (by specialize (Hm (or_introl eq_refl)));
      destruct ct; cbn; try (by specialize (Hm (or_intror eq_refl)));
      (destruct la as [a|]; [|done]; destruct (Ha a eq_refl) as [? Hd]; try done; cbn; by rewrite Hd).
Qed.

Lemma layout_of t :
  validated t ->
  exists s a, SerializationSize t = Some s /\ SerializationAlignment t = Some a /\
    a ∈ [1; 2; 4; 8] /\ (a | s) /\ 0 < s <= 16.
Proof.
  assert (forall s a, SerializationSize t = Some s -> SerializationAlignment t = Some a ->
    bool_decide (a ∈ [1; 2; 4; 8] /\ s mod a = 0 /\ 0 < s <= 16) = true ->
    exists s a, SerializationSize t = Some s /\ SerializationAlignment t = Some a /\
    a ∈ [1; 2; 4; 8] /\ (a | s) /\ 0 < s <= 16) as Hgoal.
  { intros s a ? ? (Ha & ? & ?)%bool_decide_eq_true. exists s, a. split_and!; try done; try lia.
    apply Z.mod_divide; [|done]. set_unfold in Ha. lia. }
  destruct t as [[]|?|?|n l e|n k v|r]; cbn [validated]; intros Hv;
    try (solve [eapply Hgoal; [reflexivity|reflexivity|reflexivity]]).
  apply validateAfterResolution_Ok in Hv as (rt & Hrt & Hreq & _).
  unfold SerializationSize, SerializationAlignment, UserTypeRef_SerializationSize,
    UserTypeRef_SerializationAlignment in *.
  rewrite Hrt in *. cbn [mbind option_bind] in *.
  unfold udt_SerializationSize, udt_SerializationAlignment in *.
  destruct (interfaceRequest r) eqn:Hq; [rewrite Hreq in * by done|destruct (udt_Kind rt) eqn:Hk];
    (eapply Hgoal; [reflexivity|reflexivity|reflexivity]).
Qed.
(** C20: After validation, every type reference has a serialization size and alignment; the alignment is 1, 2, 4 or 8 and divides the size. *)
Theorem validated_layout t :
  validated t ->
  exists s a, SerializationSize t = Some s /\ SerializationAlignment t = Some a /\
    a ∈ [1; 2; 4; 8] /\ (a | s) /\ 0 < s <= 16.
Proof. apply layout_of. Qed.
Definition an_interface : UserDefinedType :=
  mkUserDefinedType 1 UserDefinedTypeKindInterface "TYPE_KEY:I" "I".
Definition an_interface_request : UserTypeRef :=
  mkUserTypeRef false true None "I" zeroToken false false None (Some an_interface).
Lemma validated_layout_witness :
  validated (TRUser an_interface_request) /\
  exists s a, SerializationSize (TRUser an_interface_request) = Some s /\
    SerializationAlignment (TRUser an_interface_request) = Some a /\ s = 4 /\ a = 4.
Proof.
  assert (validated (TRUser an_interface_request)) as H by reflexivity.
  split; [exact H|]. destruct (validated_layout _ H) as (s & a & Hs & Ha & _).
  exists s, a. split; [exact Hs|]. split; [exact Ha|].
  vm_compute in Hs, Ha. injection Hs as <-. injection Ha as <-. split; reflexivity.
Defined.

(** ** Deferred checks *)
(** What resolution does to a reference. *)
Definition resolve (r : UserTypeRef) (rt : UserDefinedType) : UserTypeRef :=
  mkUserTypeRef (nullable r) (interfaceRequest r) (ref_scope r) (identifier r) (ref_token r)
    (usedAsMapKey r) (usedAsConstantType r) (literalAssignment r) (Some rt).

(** C19: Marking an unresolved reference during parsing defers the check, it does not lose it: a literal recorded by MarkTypeCompatible passes validateAfterResolution, once the reference is resolved, exactly when the unmarked reference does and the literal is assignment compatible with the resolved type; a map-key or constant-type mark passes exactly when the resolved type is an enum. *)
Theorem deferred_checks r rt a :
  literalAssignment r = None -> usedAsMapKey r = false -> usedAsConstantType r = false ->
  (exists r', MarkTypeCompatible (TRUser r) a = Some (TRUser r', true) /\
    (validateAfterResolution (resolve r' rt) = Ok tt <->
     validateAfterResolution (resolve r rt) = Ok tt /\
     IsAssignmentCompatible (TRUser (resolve r rt)) (CVLiteral (assignedValue a)) = Some true)) /\
  (forall mark, mark ∈ [MarkUsedAsMapKey; MarkUsedAsConstantType] ->
    exists r', mark (TRUser r) = (TRUser r', true) /\
    (validateAfterResolution (resolve r' rt) = Ok tt <->
     validateAfterResolution (resolve r rt) = Ok tt /\ udt_Kind rt = UserDefinedTypeKindEnum)).
Proof.
  intros Hl Hk Hc. split.
  - eexists. split; [reflexivity|]. rewrite !validateAfterResolution_Ok.
    unfold resolve, IsAssignmentCompatible, UserTypeRef_IsAssignmentCompatible,
      udt_IsAssignmentCompatibleWith.
    cbn. rewrite Hl, Hk, Hc. split.
    + intros (? & [= <-] & Hq & Hn & _ & Ha). destruct (Ha a eq_refl) as [-> ->].
      split; [|done]. eexists. split; [reflexivity|]. naive_solver.
    + intros [(? & [= <-] & Hq & Hn & _ & _) Hd]. eexists. split; [reflexivity|].
      split_and!; try done; [naive_solver|]. intros ? [= <-].
      destruct (udt_Kind rt); naive_solver.
  - intros mark Hm. set_unfold in Hm. destruct Hm as [->|[->|[]]];
      (eexists; split; [reflexivity|]); rewrite !validateAfterResolution_Ok; unfold resolve; cbn;
      rewrite Hl, Hk, Hc; naive_solver.
Qed.
Lemma deferred_checks_witness :
  (exists r', MarkUsedAsMapKey (TRUser (NewUserTypeRef "I" false false None zeroToken)) = (TRUser r', true) /\
     validateAfterResolution (resolve r' an_interface) <> Ok tt).
Proof.
  destruct (deferred_checks (NewUserTypeRef "I" false false None zeroToken) an_interface
              (mkLiteralAssignment (MakeDefaultLiteral None) "x" LiteralAssignmentKindDefaultStructField)
              eq_refl eq_refl eq_refl) as [_ H].
  destruct (H MarkUsedAsMapKey) as (r' & Hr & Hiff); [set_solver|].
  exists r'. split; [exact Hr|]. intros [_ Hk]%Hiff. discriminate Hk.
Defined.

(** What a validated value reference stands for. *)
Definition value_fits (v : UserValueRef UserTypeRef) : Prop :=
  exists cv, resolvedConcreteValue v = Some cv /\
  if usedAsEnumValueInitializer v then
    match cv with
    | CVLiteral lv => exists z, int_value lv = Some z /\ - 2 ^ 31 <= z <= 2 ^ 31 - 1
    | CVBuiltIn _ => False
    | CVEnum _ => IsAssignmentCompatible (as_Type (assigneeSpec v)) cv = Some true
    end
  else IsAssignmentCompatible (as_Type (assigneeSpec v)) cv = Some true.

(** UserValueRef.validateAfterResolution accepts a resolved reference exactly when its value fits: an enum initializer is a 32-bit signed integer literal or an enum value compatible with the assignee, anything else is assignment compatible with the assignee's type. *)
Theorem UserValueRef_validate_iff v :
  (forall lv, resolvedConcreteValue v = Some (CVLiteral lv) -> well_typed lv) ->
  UserValueRef_validateAfterResolution v = Ok tt <-> value_fits v.
Proof.
  intros Hw. unfold UserValueRef_validateAfterResolution, value_fits.
  destruct (resolvedConcreteValue v) as [cv|] eqn:Hcv; [|naive_solver].
  destruct (usedAsEnumValueInitializer v).
  - destruct cv as [lv|b|ev].
    + destruct (int32Value_spec lv (Hw lv eq_refl)) as (s & ok & Hs & Hok & _).
      rewrite Hs. destruct ok; naive_solver.
    + naive_solver.
    + destruct (IsAssignmentCompatible _ _) as [[]|] eqn:Hi; repeat case_match;
        (split; [intros; simplify_eq; eauto|intros (? & [= <-] & ?); congruence]).
  - destruct (IsAssignmentCompatible _ _) as [[]|] eqn:Hi; repeat case_match;
      (split; [intros; simplify_eq; eauto|intros (? & [= <-] & ?); congruence]).
Qed.
Lemma UserValueRef_validate_iff_witness :
  UserValueRef_validateAfterResolution
    (mkUserValueRef None zeroToken "C" true (mkAssigneeSpec "E.A" (TRSimple SimpleTypeInt32)) None
       (Some (CVLiteral (MakeUint64LiteralValue (2 ^ 31) None)))) <> Ok tt.
Proof.
  intros [cv [[= <-] [z [[= <-] Hz]]]]%UserValueRef_validate_iff.
  - lia.
  - intros lv [= <-]. cbn. lia.
Defined.
