(* ===== verification/Scopes.v ===== *)
(** * Scopes and the descriptor they live in: compiler/core/scopes.go

    Scopes, declared objects and files are heap objects of a
    [MojomDescriptor]: a pointer is an index into the table of its kind, and
    every operation is a state transformer on the descriptor.  The file has
    the scope tree, registration and lookup of scopes.go, the RegisterInScope
    methods of user_defined_types.go, and the file and module-scope
    bookkeeping of mojom_descriptor.go. *)
From S2P Require Export Types.

Inductive ScopeKind : Type :=
| ScopeAbstractModule | ScopeFileModule | ScopeInterface | ScopeStruct | ScopeEnum.
#[export] Instance ScopeKind_eq_dec : EqDecision ScopeKind.
Proof. solve_decision. Defined.

Inductive StructType : Type :=
| StructTypeRegular | StructTypeSyntheticRequest | StructTypeSyntheticResponse.
#[export] Instance StructType_eq_dec : EqDecision StructType.
Proof. solve_decision. Defined.

(** The dynamic type of a declared object, with what lookup and resolution
    read of it.  An enum value knows its enum and its position, a constant its
    declared type and its value. *)
Inductive ObjectClass : Type :=
| OType (kind : UserDefinedTypeKind) (structType : StructType)
| OEnumValue (enumType : nat) (index : Z)
| OConstant (declaredType : TypeRefOf nat) (valueRef : ValueRef)
| OMethod
| OField.

Record DeclaredObject := mkDeclaredObject {
  class : ObjectClass;
  SimpleName : string;
  NameToken : Token;
  FullyQualifiedName : string;
  object_key : string;
  object_scope : option nat
}.

Record Scope := mkScope {
  scope_kind : ScopeKind;
  shortName : string;
  fullyQualifiedName : string;
  parentScope : option nat;
  declaredObjects : gmap string nat;
  file : option nat;
  containingType : option nat
}.

Record MojomAttribute := mkMojomAttribute {
  Key : string;
  attr_Value : LiteralValue;
  KeyToken : option Token
}.
Record Attributes := mkAttributes { List : list MojomAttribute; LeftBracketToken : Token }.
Definition NewAttributes (leftBracket : Token) : Attributes := mkAttributes [] leftBracket.
Definition NewMojomAttribute (key : string) (keyToken : option Token) (value : LiteralValue)
    : MojomAttribute :=
  mkMojomAttribute key value keyToken.

Record ImportedFile := mkImportedFile {
  SpecifiedName : string;
  imp_CanonicalFileName : string;
  imp_NameToken : Token
}.
Definition NewImportedFile (specifiedName : string) (nameToken : option Token) : ImportedFile :=
  mkImportedFile specifiedName "" (default zeroToken nameToken).

(** [importsBySpecifiedName] points into [Imports]. *)
Record MojomFile := mkMojomFile {
  CanonicalFileName : string;
  SpecifiedFileName : string;
  ImportedFrom : option nat;
  ModuleNamespace : option string;
  file_Attributes : option Attributes;
  Imports : list ImportedFile;
  importsBySpecifiedName : gmap string nat;
  FileScope : option nat;
  Interfaces : list nat;
  Structs : list nat;
  Unions : list nat;
  Enums : list nat;
  Constants : list nat;
  DeclaredObjects : list nat
}.

Record MojomDescriptor := mkMojomDescriptor {
  scopes : list Scope;
  objects : list DeclaredObject;
  mojomFiles : list MojomFile;
  MojomFilesByName : gmap string nat;
  abstractScopesByName : gmap string nat;
  TypesByKey : gmap string nat;
  ValuesByKey : gmap string nat;
  typeRefs : list UserTypeRef;
  valueRefs : list (UserValueRef nat);
  unresolvedTypeReferences : list (option nat);
  unresolvedValueReferences : list (option nat)
}.

Definition set_scopes (v : list Scope) (d : MojomDescriptor) : MojomDescriptor :=
  mkMojomDescriptor v (objects d) (mojomFiles d) (MojomFilesByName d)
    (abstractScopesByName d) (TypesByKey d) (ValuesByKey d) (typeRefs d) (valueRefs d)
    (unresolvedTypeReferences d) (unresolvedValueReferences d).
Definition set_objects (v : list DeclaredObject) (d : MojomDescriptor) : MojomDescriptor :=
  mkMojomDescriptor (scopes d) v (mojomFiles d) (MojomFilesByName d)
    (abstractScopesByName d) (TypesByKey d) (ValuesByKey d) (typeRefs d) (valueRefs d)
    (unresolvedTypeReferences d) (unresolvedValueReferences d).
Definition set_files (v : list MojomFile) (d : MojomDescriptor) : MojomDescriptor :=
  mkMojomDescriptor (scopes d) (objects d) v (MojomFilesByName d)
    (abstractScopesByName d) (TypesByKey d) (ValuesByKey d) (typeRefs d) (valueRefs d)
    (unresolvedTypeReferences d) (unresolvedValueReferences d).
Definition set_files_by_name (v : gmap string nat) (d : MojomDescriptor) : MojomDescriptor :=
  mkMojomDescriptor (scopes d) (objects d) (mojomFiles d) v
    (abstractScopesByName d) (TypesByKey d) (ValuesByKey d) (typeRefs d) (valueRefs d)
    (unresolvedTypeReferences d) (unresolvedValueReferences d).
Definition set_abstract (v : gmap string nat) (d : MojomDescriptor) : MojomDescriptor :=
  mkMojomDescriptor (scopes d) (objects d) (mojomFiles d) (MojomFilesByName d)
    v (TypesByKey d) (ValuesByKey d) (typeRefs d) (valueRefs d)
    (unresolvedTypeReferences d) (unresolvedValueReferences d).
Definition set_types_by_key (v : gmap string nat) (d : MojomDescriptor) : MojomDescriptor :=
  mkMojomDescriptor (scopes d) (objects d) (mojomFiles d) (MojomFilesByName d)
    (abstractScopesByName d) v (ValuesByKey d) (typeRefs d) (valueRefs d)
    (unresolvedTypeReferences d) (unresolvedValueReferences d).
Definition set_values_by_key (v : gmap string nat) (d : MojomDescriptor) : MojomDescriptor :=
  mkMojomDescriptor (scopes d) (objects d) (mojomFiles d) (MojomFilesByName d)
    (abstractScopesByName d) (TypesByKey d) v (typeRefs d) (valueRefs d)
    (unresolvedTypeReferences d) (unresolvedValueReferences d).

(** Reading through a pointer panics when it is nil (or dangling). *)
Definition deref {S E A} (table : S -> list A) (p : nat) : M S E A :=
  fun d => must (table d !! p) d.
Definition deref_nil {S E A} (table : S -> list A) (p : option nat) : M S E A :=
  match p with Some p => deref table p | None => panic end.

Definition update_scope {E} (p : nat) (f : Scope -> Scope) : M MojomDescriptor E unit :=
  modify (fun d => set_scopes (alter f p (scopes d)) d).
Definition update_object {E} (p : nat) (f : DeclaredObject -> DeclaredObject)
    : M MojomDescriptor E unit :=
  modify (fun d => set_objects (alter f p (objects d)) d).
Definition update_file {E} (p : nat) (f : MojomFile -> MojomFile) : M MojomDescriptor E unit :=
  modify (fun d => set_files (alter f p (mojomFiles d)) d).

Definition declare (name : string) (obj : nat) (s : Scope) : Scope :=
  mkScope (scope_kind s) (shortName s) (fullyQualifiedName s) (parentScope s)
    (<[name := obj]> (declaredObjects s)) (file s) (containingType s).
Definition set_object_scope (p : nat) (o : DeclaredObject) : DeclaredObject :=
  mkDeclaredObject (class o) (SimpleName o) (NameToken o) (FullyQualifiedName o)
    (object_key o) (Some p).
Definition set_fqn (fqn key : string) (o : DeclaredObject) : DeclaredObject :=
  mkDeclaredObject (class o) (SimpleName o) (NameToken o) fqn key (object_scope o).

(** ** Dotted names *)
Definition buildDottedName (prefix suffix : string) : string :=
  if bool_decide (prefix = "") then suffix else prefix +:+ "." +:+ suffix.

(** [strings.Split(s, ".")] and [strings.Join(l, ".")]. *)
Fixpoint split_dots (s : string) : list string :=
  match s with
  | EmptyString => [""]
  | String c s =>
    if Ascii.eqb c "."%char then "" :: split_dots s
    else match split_dots s with
         | x :: r => String c x :: r
         | [] => [String c ""]
         end
  end.
Fixpoint join_dots (l : list string) : string :=
  match l with
  | [] => ""
  | [x] => x
  | x :: r => x +:+ "." +:+ join_dots r
  end.

(** ** Creating scopes *)
(** Allocates a scope and initialises it as [Scope.init] does. *)
Definition new_scope {E} (kind : ScopeKind) (short fqn : string) (parent file containing : option nat)
    : M MojomDescriptor E nat :=
  fun d => (set_scopes (scopes d ++ [mkScope kind short fqn parent ∅ file containing]) d,
            Ok (length (scopes d))).

Definition getGlobalScobe (d : MojomDescriptor) : option nat := abstractScopesByName d !! "".

Definition NewAbstractModuleScope {E} (getAbstractModuleScope : string -> M MojomDescriptor E nat)
    (fullyQualifiedName : string) : M MojomDescriptor E nat :=
  if negb (bool_decide (fullyQualifiedName = "")) then
    let splitName := split_dots fullyQualifiedName in
    let numSegments := length splitName in
    let shortName := List.last splitName "" in
    if (1 <? numSegments)%nat then
      let! parent := getAbstractModuleScope (join_dots (take (numSegments - 1) splitName)) in
      new_scope ScopeAbstractModule shortName fullyQualifiedName (Some parent) None None
    else
      let! d := get in
      new_scope ScopeAbstractModule shortName fullyQualifiedName (getGlobalScobe d) None None
  else new_scope ScopeAbstractModule fullyQualifiedName fullyQualifiedName None None None.

(** Each recursive call has one segment less: the length of the name is fuel
    enough (theorem [getAbstractModuleScope_total]). *)
Fixpoint getAbstractModuleScope_fuel {E} (fuel : nat) (fullyQualifiedName : string)
    : M MojomDescriptor E nat :=
  match fuel with
  | O => panic
  | S fuel =>
    let! d := get in
    match abstractScopesByName d !! fullyQualifiedName with
    | Some scope => ret scope
    | None =>
      let! scope := NewAbstractModuleScope (getAbstractModuleScope_fuel fuel) fullyQualifiedName in
      modify (fun d => set_abstract (<[fullyQualifiedName := scope]> (abstractScopesByName d)) d) ;;;
      ret scope
    end
  end.
Definition getAbstractModuleScope {E} (fullyQualifiedName : string) : M MojomDescriptor E nat :=
  getAbstractModuleScope_fuel (S (String.length fullyQualifiedName)) fullyQualifiedName.

Definition has_kind (d : MojomDescriptor) (p : option nat) (k : ScopeKind) : bool :=
  match p ≫= fun p => scopes d !! p with
  | Some s => bool_decide (scope_kind s = k)
  | None => false
  end.

Definition NewLexicalScope {E} (kind : ScopeKind) (parent : option nat) (shortName : string)
    (file : option nat) (containingType : option nat) : M MojomDescriptor E nat :=
  let! d := get in
  let! f := deref_nil mojomFiles file in
  let child :=
    (let! p := deref_nil scopes parent in
     new_scope kind shortName (buildDottedName (fullyQualifiedName p) shortName) parent file
       containingType) in
  match kind with
  | ScopeFileModule =>
    match parent, containingType, ModuleNamespace f with
    | None, None, Some fqn =>
      let! parent := getAbstractModuleScope fqn in
      new_scope kind shortName fqn (Some parent) file None
    | _, _, _ => panic
    end
  | ScopeInterface =>
    if negb (has_kind d parent ScopeFileModule) then panic
    else match containingType with None => panic | Some _ => child end
  | ScopeStruct =>
    let! containingStruct := deref_nil objects containingType in
    match class containingStruct with
    | OType UserDefinedTypeKindStruct StructTypeRegular =>
      if negb (has_kind d parent ScopeFileModule) then panic else child
    | OType UserDefinedTypeKindStruct _ =>
      if negb (has_kind d parent ScopeInterface) then panic else child
    | _ => panic
    end
  | ScopeEnum =>
    match parent, containingType with
    | Some _, Some _ => if has_kind d parent ScopeAbstractModule then panic else child
    | _, _ => panic
    end
  | ScopeAbstractModule => panic
  end.

(** ** Registration *)
Record DuplicateNameError := mkDuplicateNameError {
  dup_nameToken : Token;
  dup_owningFile : option nat;
  existingObject : nat
}.
Definition newDuplicateDeclaredNameError {A} (duplicateObject existing : nat)
    : M MojomDescriptor DuplicateNameError A :=
  let! o := deref objects duplicateObject in
  let! s := deref_nil scopes (object_scope o) in
  throw (mkDuplicateNameError (NameToken o) (file s) existing).

(** The fuel is the depth of the scope: a parent is allocated before its
    children, so [S scope] is enough (theorem [registration_total]). *)
Fixpoint registerObjectWithNamePrefix (fuel : nat) (scope : nat) (declaredObject : nat)
    (namePrefix : string) : M MojomDescriptor DuplicateNameError unit :=
  match fuel with
  | O => panic
  | S fuel =>
    let! s := deref scopes scope in
    let! o := deref objects declaredObject in
    match object_scope o with
    | None => panic
    | Some _ =>
      let registrationName := namePrefix +:+ SimpleName o in
      match declaredObjects s !! registrationName with
      | Some existing => newDuplicateDeclaredNameError declaredObject existing
      | None =>
        update_scope scope (declare registrationName declaredObject) ;;;
        match parentScope s with
        | None => ret tt
        | Some parent =>
          if bool_decide (scope_kind s = ScopeFileModule) then
            let! p := deref scopes parent in
            if bool_decide (scope_kind p = ScopeAbstractModule)
            then registerObjectWithNamePrefix fuel parent declaredObject namePrefix
            else panic
          else registerObjectWithNamePrefix fuel parent declaredObject
                 (buildDottedName (shortName s) namePrefix)
        end
      end
    end
  end.

(** [RegisterType], [RegisterValue], [RegisterMethod] and [RegisterStructField]. *)
Definition Register (scope declaredObject : nat) : M MojomDescriptor DuplicateNameError unit :=
  registerObjectWithNamePrefix (S scope) scope declaredObject "".

Definition ComputeTypeKey (fullyQualifiedName : string) : string :=
  "TYPE_KEY:" +:+ fullyQualifiedName.

(** [UserDefinedTypeBase.RegisterInScope]. *)
Definition type_RegisterInScope (obj : nat) (scope : option nat)
    : M MojomDescriptor DuplicateNameError unit :=
  match scope with
  | None => panic
  | Some scope =>
    update_object obj (set_object_scope scope) ;;;
    Register scope obj ;;;
    let! s := deref scopes scope in
    let! o := deref objects obj in
    let fqn := buildDottedName (fullyQualifiedName s) (SimpleName o) in
    update_object obj (set_fqn fqn (ComputeTypeKey fqn)) ;;;
    modify (fun d => set_types_by_key (<[ComputeTypeKey fqn := obj]> (TypesByKey d)) d)
  end.

(** [UserDefinedValueBase.RegisterInScope]. *)
Definition value_RegisterInScope (obj : nat) (scope : option nat)
    : M MojomDescriptor DuplicateNameError unit :=
  match scope with
  | None => panic
  | Some scope =>
    update_object obj (set_object_scope scope) ;;;
    Register scope obj ;;;
    let! s := deref scopes scope in
    let! o := deref objects obj in
    let misplaced :=
      match class o with
      | OEnumValue _ _ => negb (bool_decide (scope_kind s = ScopeEnum))
      | _ => false
      end in
    if misplaced then panic
    else
      let fqn := buildDottedName (fullyQualifiedName s) (SimpleName o) in
      update_object obj (set_fqn fqn (ComputeTypeKey fqn)) ;;;
      let! _ := deref_nil mojomFiles (file s) in
      modify (fun d => set_values_by_key (<[ComputeTypeKey fqn := obj]> (ValuesByKey d)) d)
  end.

(** [StructField.RegisterInScope] and [MojomMethod.RegisterInScope], which
    differ in the kind of scope they accept. *)
Definition member_RegisterInScope (kind : ScopeKind) (obj : nat) (scope : option nat)
    : M MojomDescriptor DuplicateNameError unit :=
  match scope with
  | None => panic
  | Some scope =>
    update_object obj (set_object_scope scope) ;;;
    Register scope obj ;;;
    let! s := deref scopes scope in
    let! o := deref objects obj in
    if negb (bool_decide (scope_kind s = kind)) then panic
    else
      update_object obj
        (set_fqn (buildDottedName (fullyQualifiedName s) (SimpleName o)) (object_key o))
  end.
Definition field_RegisterInScope := member_RegisterInScope ScopeStruct.
Definition method_RegisterInScope := member_RegisterInScope ScopeInterface.

(** ** Lookup *)
Definition LookupAcceptType : Z := 2.
Definition LookupAcceptValue : Z := 4.
Definition LookupAcceptMethod : Z := 8.
Definition LookupAcceptField : Z := 16.
Definition LookupAcceptAll : Z :=
  Z.lor (Z.lor (Z.lor LookupAcceptType LookupAcceptValue) LookupAcceptMethod) LookupAcceptField.
Definition LookupAcceptNone : Z := 0.
Definition acceptType (f : Z) : bool := negb (Z.land f LookupAcceptType =? 0).
Definition acceptValue (f : Z) : bool := negb (Z.land f LookupAcceptValue =? 0).
Definition acceptMethod (f : Z) : bool := negb (Z.land f LookupAcceptMethod =? 0).
Definition acceptField (f : Z) : bool := negb (Z.land f LookupAcceptField =? 0).

Definition accepts (acceptFilter : Z) (c : ObjectClass) : bool :=
  if acceptFilter =? LookupAcceptAll then true
  else
    match c with
    | OType _ _ => acceptType acceptFilter
    | OEnumValue _ _ | OConstant _ _ => acceptValue acceptFilter
    | OMethod => acceptMethod acceptFilter
    | OField => acceptField acceptFilter
    end.

(** [Ok None] is the nil result of a failed lookup; the fuel is as for
    registration. *)
Fixpoint LookupObject_fuel {E} (fuel : nat) (d : MojomDescriptor) (scope : nat) (name : string)
    (acceptFilter : Z) : res E (option nat) :=
  match fuel with
  | O => Panic
  | S fuel =>
    if acceptFilter =? LookupAcceptNone then Panic
    else
      match scopes d !! scope with
      | None => Panic
      | Some s =>
        let continue :=
          match parentScope s with
          | None => Ok None
          | Some parent => LookupObject_fuel fuel d parent name acceptFilter
          end in
        match declaredObjects s !! name with
        | Some obj =>
          match objects d !! obj with
          | Some o => if accepts acceptFilter (class o) then Ok (Some obj) else continue
          | None => Panic
          end
        | None => continue
        end
      end
  end.
Definition LookupObject {E} (d : MojomDescriptor) (scope : nat) (name : string)
    (acceptFilter : Z) : res E (option nat) :=
  LookupObject_fuel (S scope) d scope name acceptFilter.

(** ** Files of a descriptor *)
(** [NewAbstractModuleScope("", d)] of the global scope, on empty tables. *)
Definition NewMojomDescriptor : MojomDescriptor :=
  mkMojomDescriptor [mkScope ScopeAbstractModule "" "" None ∅ None None] [] [] ∅
    {["" := 0%nat]} ∅ ∅ [] [] [] [].

Definition newMojomFile {E} (fileName specifiedName : string) (importedFrom : option nat)
    : M MojomDescriptor E MojomFile :=
  let ok :=
    match importedFrom with
    | Some _ => bool_decide (specifiedName = "")
    | None => negb (bool_decide (specifiedName = ""))
    end in
  if negb ok then panic
  else ret (mkMojomFile fileName specifiedName importedFrom None None [] ∅ None [] [] [] [] [] []).

Definition AddMojomFile {E} (fileName specifiedName : string) (importedFrom : option nat)
    : M MojomDescriptor E nat :=
  let! f := newMojomFile fileName specifiedName importedFrom in
  let! d := get in
  let p := length (mojomFiles d) in
  modify (set_files (mojomFiles d ++ [f])) ;;;
  if bool_decide (is_Some (MojomFilesByName d !! fileName)) then panic
  else
    modify (fun d => set_files_by_name (<[fileName := p]> (MojomFilesByName d)) d) ;;;
    ret p.

Definition set_namespace (ns : string) (f : MojomFile) : MojomFile :=
  mkMojomFile (CanonicalFileName f) (SpecifiedFileName f) (ImportedFrom f) (Some ns)
    (file_Attributes f) (Imports f) (importsBySpecifiedName f) (FileScope f) (Interfaces f) (Structs f) (Unions f) (Enums f) (Constants f)
    (DeclaredObjects f).
Definition set_file_scope (s : nat) (f : MojomFile) : MojomFile :=
  mkMojomFile (CanonicalFileName f) (SpecifiedFileName f) (ImportedFrom f) (ModuleNamespace f)
    (file_Attributes f) (Imports f) (importsBySpecifiedName f) (Some s) (Interfaces f) (Structs f) (Unions f) (Enums f) (Constants f)
    (DeclaredObjects f).
Definition InitializeFileScope {E} (f : nat) (moduleNamespace : string) : M MojomDescriptor E nat :=
  update_file f (set_namespace moduleNamespace) ;;;
  let! scope := NewLexicalScope ScopeFileModule None moduleNamespace (Some f) None in
  update_file f (set_file_scope scope) ;;;
  ret scope.

Definition set_file_attributes (a : option Attributes) (f : MojomFile) : MojomFile :=
  mkMojomFile (CanonicalFileName f) (SpecifiedFileName f) (ImportedFrom f) (ModuleNamespace f)
    a (Imports f) (importsBySpecifiedName f) (FileScope f) (Interfaces f) (Structs f) (Unions f)
    (Enums f) (Constants f) (DeclaredObjects f).
Definition set_imports (l : list ImportedFile) (m : gmap string nat) (f : MojomFile) : MojomFile :=
  mkMojomFile (CanonicalFileName f) (SpecifiedFileName f) (ImportedFrom f) (ModuleNamespace f)
    (file_Attributes f) l m (FileScope f) (Interfaces f) (Structs f) (Unions f) (Enums f)
    (Constants f) (DeclaredObjects f).
Definition AddImport (importedFile : ImportedFile) (f : MojomFile) : MojomFile :=
  set_imports (Imports f ++ [importedFile])
    (<[SpecifiedName importedFile := length (Imports f)]> (importsBySpecifiedName f)) f.
(** [None] is the panic on a name that was not imported. *)
Definition SetCanonicalImportName (specifiedName canonicalName : string) (f : MojomFile)
    : option MojomFile :=
  i ← importsBySpecifiedName f !! specifiedName;
  Some (set_imports
          (alter (fun imp => mkImportedFile (SpecifiedName imp) canonicalName (imp_NameToken imp)) i
             (Imports f)) (importsBySpecifiedName f) f).

(** [AddInterface], [AddStruct], [AddUnion], [AddEnum] and [AddConstant]: the
    object joins the list of its kind before it is registered. *)
Definition add_declared (obj : nat) (c : ObjectClass) (f : MojomFile) : MojomFile :=
  mkMojomFile (CanonicalFileName f) (SpecifiedFileName f) (ImportedFrom f) (ModuleNamespace f)
    (file_Attributes f) (Imports f) (importsBySpecifiedName f) (FileScope f)
    (match c with OType UserDefinedTypeKindInterface _ => Interfaces f ++ [obj] | _ => Interfaces f end)
    (match c with OType UserDefinedTypeKindStruct _ => Structs f ++ [obj] | _ => Structs f end)
    (match c with OType UserDefinedTypeKindUnion _ => Unions f ++ [obj] | _ => Unions f end)
    (match c with OType UserDefinedTypeKindEnum _ => Enums f ++ [obj] | _ => Enums f end)
    (match c with OConstant _ _ => Constants f ++ [obj] | _ => Constants f end)
    (DeclaredObjects f ++ [obj]).
Definition file_add (f obj : nat) : M MojomDescriptor DuplicateNameError unit :=
  let! o := deref objects obj in
  update_file f (add_declared obj (class o)) ;;;
  let! file := deref mojomFiles f in
  match FileScope file with
  | None => panic
  | Some scope =>
    match class o with
    | OType _ _ => type_RegisterInScope obj (Some scope)
    | OConstant _ _ => value_RegisterInScope obj (Some scope)
    | _ => panic
    end
  end.
