(* ===== verification/ScopesSpec.v ===== *)
(** * Correctness of scopes: registration, lookup and the scope tree

    [tree] is the invariant of the scope table, [linked] relates the entries
    of the scopes to the fully qualified names of the objects.  Registration
    is specified by slots: an object takes one name in each ancestor scope,
    the one that completes the ancestor's own name to the object's fully
    qualified name. *)
From S2P Require Export Scopes.

#[local] Set Warnings "-clear-no-such-hyp".

(** ** Running the monad on known tables *)
Lemma bind_deref {S E A B} (table : S -> list A) p (k : A -> M S E B) d x :
  table d !! p = Some x -> bind (deref table p) k d = k x d.
Proof. intros H. unfold bind, deref, must. by rewrite H. Qed.
Lemma bind_deref_nil {S E A B} (table : S -> list A) p (k : A -> M S E B) d x :
  table d !! p = Some x -> bind (deref_nil table (Some p)) k d = k x d.
Proof. apply bind_deref. Qed.
Lemma bind_modify {S E B} f (k : unit -> M S E B) d : bind (modify f) k d = k tt (f d).
Proof. done. Qed.
Lemma bind_get_l {S E A B} (f : S -> M S E A) (k : A -> M S E B) d :
  bind (bind get f) k d = bind (f d) k d.
Proof. done. Qed.
Lemma bind_get {S E B} (k : S -> M S E B) d : bind get k d = k d d.
Proof. done. Qed.

(** ** Dotted names *)
Lemma append_cons c s t : String c s +:+ t = String c (s +:+ t).
Proof. done. Qed.
Lemma append_nil_r s : s +:+ "" = s.
Proof. induction s as [|c s IH]; [done|]. by rewrite append_cons, IH. Qed.
Lemma append_assoc s1 s2 s3 : (s1 +:+ s2) +:+ s3 = s1 +:+ (s2 +:+ s3).
Proof. induction s1 as [|c s IH]; [done|]. by rewrite !append_cons, IH. Qed.
Lemma append_inj s x y : s +:+ x = s +:+ y -> x = y.
Proof. apply (inj (String.append s)). Qed.
Lemma append_nil_inv s t : s +:+ t = "" -> s = "" /\ t = "".
Proof. destruct s; [done|discriminate]. Qed.

Lemma buildDottedName_nil x : buildDottedName "" x = x.
Proof. done. Qed.
Lemma buildDottedName_cons p x : p <> "" -> buildDottedName p x = p +:+ "." +:+ x.
Proof. intros H. unfold buildDottedName. by rewrite bool_decide_false. Qed.
Lemma buildDottedName_inj p x y : buildDottedName p x = buildDottedName p y -> x = y.
Proof.
  unfold buildDottedName. case_bool_decide; [done|]. intros ?%append_inj%append_inj. done.
Qed.
Lemma buildDottedName_nonempty p x : x <> "" -> buildDottedName p x <> "".
Proof.
  unfold buildDottedName. case_bool_decide; [done|]. by intros _ [? _]%append_nil_inv.
Qed.
(** Moving the last segment of a scope's name into the name of an entry. *)
Lemma buildDottedName_assoc p short x :
  short <> "" ->
  buildDottedName (buildDottedName p short) x = buildDottedName p (buildDottedName short x).
Proof.
  intros Hs. rewrite (buildDottedName_cons (buildDottedName _ _)) by by apply buildDottedName_nonempty.
  rewrite (buildDottedName_cons short) by done. unfold buildDottedName.
  case_bool_decide; [done|]. by rewrite !append_assoc.
Qed.
Lemma buildDottedName_prefix short prefix x :
  short <> "" -> buildDottedName short prefix +:+ x = buildDottedName short (prefix +:+ x).
Proof. intros Hs. rewrite !buildDottedName_cons by done. by rewrite !append_assoc. Qed.

(** ** The scope tree *)
Definition scope_ok (d : MojomDescriptor) (p : nat) (s : Scope) : Prop :=
  match parentScope s with
  | None => scope_kind s = ScopeAbstractModule /\ fullyQualifiedName s = ""
  | Some q =>
    (q < p)%nat /\
    exists ps, scopes d !! q = Some ps /\
      if bool_decide (scope_kind s = ScopeFileModule)
      then scope_kind ps = ScopeAbstractModule /\ fullyQualifiedName s = fullyQualifiedName ps
      else shortName s <> "" /\
           fullyQualifiedName s = buildDottedName (fullyQualifiedName ps) (shortName s)
  end.
Record tree (d : MojomDescriptor) : Prop := mkTree {
  tree_scope : forall p s, scopes d !! p = Some s -> scope_ok d p s;
  tree_abstract : forall n p, abstractScopesByName d !! n = Some p ->
    exists s, scopes d !! p = Some s /\ scope_kind s = ScopeAbstractModule /\
              fullyQualifiedName s = n;
  tree_root : is_Some (abstractScopesByName d !! "")
}.

Definition parent (d : MojomDescriptor) (p q : nat) : Prop :=
  exists s, scopes d !! p = Some s /\ parentScope s = Some q.
Definition ancestor (d : MojomDescriptor) : nat -> nat -> Prop := rtc (parent d).

(** Everything of a scope but its entries. *)
Definition shape (s : Scope) : Scope :=
  mkScope (scope_kind s) (shortName s) (fullyQualifiedName s) (parentScope s) ∅
    (file s) (containingType s).
Lemma same_shape_lookup d d' p s :
  shape <$> scopes d' = shape <$> scopes d -> scopes d !! p = Some s ->
  exists s', scopes d' !! p = Some s' /\ shape s' = shape s.
Proof.
  intros H Hs. apply (f_equal (.!! p)) in H. rewrite !list_lookup_fmap, Hs in H. cbn in H.
  destruct (scopes d' !! p) as [s'|]; cbn in H; [|done].
  apply (inj Some) in H. eauto.
Qed.
Lemma shape_inv s s' : shape s' = shape s ->
  scope_kind s' = scope_kind s /\ shortName s' = shortName s /\
  fullyQualifiedName s' = fullyQualifiedName s /\ parentScope s' = parentScope s /\
  file s' = file s.
Proof. unfold shape. by intros [= -> -> -> -> -> _]. Qed.

Lemma same_shape_scope_ok d d' p s s' :
  shape <$> scopes d' = shape <$> scopes d -> shape s' = shape s ->
  scope_ok d p s -> scope_ok d' p s'.
Proof.
  intros Hd (Hk & Hn & Hf & Hp & _)%shape_inv. unfold scope_ok. rewrite Hk, Hn, Hf, Hp.
  destruct (parentScope s) as [q|]; [|done]. intros (? & ps & Hps & Hc).
  split; [done|]. destruct (same_shape_lookup _ _ _ _ Hd Hps) as (ps' & ? & Hsh).
  exists ps'. apply shape_inv in Hsh as (-> & _ & -> & _). auto.
Qed.
Lemma same_shape_tree d d' :
  shape <$> scopes d' = shape <$> scopes d ->
  abstractScopesByName d' = abstractScopesByName d -> tree d -> tree d'.
Proof.
  intros Hd Ha Ht. assert (shape <$> scopes d = shape <$> scopes d') as Hd' by done.
  split.
  - intros p s' Hs'. destruct (same_shape_lookup _ _ _ _ Hd' Hs') as (s & Hs & Hsh).
    eapply same_shape_scope_ok; [done| |by apply (tree_scope d Ht)]. done.
  - intros n p. rewrite Ha. intros (s & Hs & Hk & Hf)%(tree_abstract d Ht).
    destruct (same_shape_lookup _ _ _ _ Hd Hs) as (s' & ? & (Hk' & _ & Hf' & _)%shape_inv).
    exists s'. rewrite Hk', Hf'. auto.
  - rewrite Ha. apply Ht.
Qed.
Lemma same_shape_ancestor d d' p q :
  shape <$> scopes d' = shape <$> scopes d -> ancestor d p q -> ancestor d' p q.
Proof.
  intros Hd. induction 1 as [|p q r (s & Hs & Hp) _ IH]; [reflexivity|].
  eapply rtc_l; [|exact IH]. destruct (same_shape_lookup _ _ _ _ Hd Hs) as (s' & ? & (_ & _ & _ & Hp' & _)%shape_inv).
  exists s'. rewrite Hp'. auto.
Qed.
Lemma ancestor_le d p q : tree d -> ancestor d p q -> (q <= p)%nat.
Proof.
  intros Ht. induction 1 as [|p q r (s & Hs & Hp) _ IH]; [done|].
  pose proof (tree_scope d Ht p s Hs) as Hok. unfold scope_ok in Hok. rewrite Hp in Hok. lia.
Qed.
Lemma ancestor_scope d p q s :
  tree d -> scopes d !! p = Some s -> ancestor d p q -> exists sq, scopes d !! q = Some sq.
Proof.
  intros Ht Hs. induction 1 as [|p q r (s' & Hs' & Hp) _ IH] in s, Hs |- *; [eauto|].
  pose proof (tree_scope d Ht p s' Hs') as Hok. unfold scope_ok in Hok. rewrite Hp in Hok.
  destruct Hok as (_ & ps & Hps & _). eauto.
Qed.

(** ** Registration *)
Definition declared (d : MojomDescriptor) (q : nat) (n : string) : option nat :=
  scopes d !! q ≫= fun s => declaredObjects s !! n.
(** The name [n] in scope [q], an ancestor of [p] or [p] itself, stands for the
    fully qualified name [fqn]. *)
Definition slot (d : MojomDescriptor) (p : nat) (fqn : string) (q : nat) (n : string) : Prop :=
  ancestor d p q /\ exists sq, scopes d !! q = Some sq /\
    buildDottedName (fullyQualifiedName sq) n = fqn.

Lemma slot_same_shape d d' p F q n :
  shape <$> scopes d' = shape <$> scopes d -> slot d p F q n -> slot d' p F q n.
Proof.
  intros Hd [Ha (sq & Hq & HF)]. split; [by eapply same_shape_ancestor|].
  destruct (same_shape_lookup _ _ _ _ Hd Hq) as (s' & ? & Hsh). exists s'.
  apply shape_inv in Hsh as (_ & _ & -> & _). auto.
Qed.

(** Filling one entry. *)
Lemma update_scope_shape d p n obj :
  shape <$> scopes (set_scopes (alter (declare n obj) p (scopes d)) d) = shape <$> scopes d.
Proof.
  cbn [scopes set_scopes]. apply list_eq. intros i. rewrite !list_lookup_fmap.
  destruct (decide (p = i)) as [->|Hne].
  - rewrite list_lookup_alter_eq. by destruct (scopes d !! i).
  - by rewrite list_lookup_alter_ne.
Qed.
Lemma update_scope_declared d p n obj q m s :
  scopes d !! p = Some s ->
  declared (set_scopes (alter (declare n obj) p (scopes d)) d) q m =
  if decide (q = p /\ m = n) then Some obj else declared d q m.
Proof.
  intros Hs. unfold declared. cbn [scopes set_scopes]. destruct (decide (p = q)) as [->|Hne].
  - rewrite list_lookup_alter_eq, Hs. cbn. case_decide as H.
    + destruct H as [_ ->]. apply lookup_insert_eq.
    + apply lookup_insert_ne. naive_solver.
  - rewrite list_lookup_alter_ne by done. by rewrite decide_False by naive_solver.
Qed.

(** The slots of a scope are its own and those of its parent. *)
Lemma slot_step d p s q n m F x :
  tree d -> scopes d !! p = Some s -> buildDottedName (fullyQualifiedName s) m = F ->
  parentScope s = Some x ->
  slot d p F q n <-> (q = p /\ n = m) \/ slot d x F q n.
Proof.
  intros Ht Hs HF Hx. split.
  - intros [Ha (sq & Hq & Hn)]. apply rtc_inv in Ha as [<-|(y & (s' & Hs' & Hy) & Ha)].
    + left. split; [done|]. apply (buildDottedName_inj (fullyQualifiedName s)). congruence.
    + right. assert (y = x) as -> by congruence. split; eauto.
  - intros [[-> ->]|[Ha Hq]].
    + split; [reflexivity|eauto].
    + split; [|done]. eapply rtc_l; [|done]. exists s. auto.
Qed.
Lemma slot_root d p s q n m F :
  scopes d !! p = Some s -> buildDottedName (fullyQualifiedName s) m = F ->
  parentScope s = None -> slot d p F q n <-> q = p /\ n = m.
Proof.
  intros Hs HF Hx. split.
  - intros [Ha (sq & Hq & Hn)]. apply rtc_inv in Ha as [<-|(y & (s' & Hs' & Hy) & Ha)]; [|congruence].
    split; [done|]. apply (buildDottedName_inj (fullyQualifiedName s)). congruence.
  - intros [-> ->]. split; [reflexivity|eauto].
Qed.

(** What a registration under the full name [F] starting at [p] does. *)
Definition registers (d : MojomDescriptor) (p obj : nat) (o : DeclaredObject) (F : string)
    (d' : MojomDescriptor) (r : res DuplicateNameError unit) : Prop :=
  d' = set_scopes (scopes d') d /\ shape <$> scopes d' = shape <$> scopes d /\
  match r with
  | Ok _ => (forall q n, slot d p F q n -> declared d q n = None /\ declared d' q n = Some obj) /\
            (forall q n, slot d p F q n \/ (~ slot d p F q n /\ declared d' q n = declared d q n))
  | Err e => exists q n, slot d p F q n /\ declared d q n = Some (existingObject e) /\
               dup_nameToken e = NameToken o
  | Panic => False
  end.

Lemma registers_step d p s m obj o F x d' r :
  tree d -> scopes d !! p = Some s -> buildDottedName (fullyQualifiedName s) m = F ->
  parentScope s = Some x -> declared d p m = None ->
  let d1 := set_scopes (alter (declare m obj) p (scopes d)) d in
  registers d1 x obj o F d' r -> registers d p obj o F d' r.
Proof.
  intros Ht Hs HF Hx Hfree d1 (Hd' & Hsh & Hr).
  assert (shape <$> scopes d1 = shape <$> scopes d) as Hsh1 by apply update_scope_shape.
  assert (x < p)%nat as Hlt.
  { pose proof (tree_scope d Ht p s Hs) as Hok. unfold scope_ok in Hok. rewrite Hx in Hok. lia. }
  assert (forall q n, slot d1 x F q n <-> slot d x F q n) as Hslot.
  { intros q n. split; apply slot_same_shape; done. }
  assert (forall q n, slot d x F q n -> q <> p) as Hne.
  { intros q n [Ha _] ->. apply (ancestor_le d x p Ht) in Ha. lia. }
  assert (forall q n, declared d1 q n = if decide (q = p /\ n = m) then Some obj else declared d q n)
    as Hdec by (intros; by eapply update_scope_declared).
  split; [by rewrite Hd'|]. split; [by rewrite Hsh|].
  destruct r as [u|e|]; [|..].
  - destruct Hr as [Hin Hout]. split.
    + intros q n [[-> ->]|Hq]%(slot_step d p s q n m F x Ht Hs HF Hx).
      * split; [done|]. destruct (Hout p m) as [Hc%Hslot|[_ ->]]; [by edestruct Hne|].
        by rewrite Hdec, decide_True.
      * apply Hslot in Hq as Hq1. destruct (Hin q n Hq1) as [Hn ?].
        rewrite Hdec, decide_False in Hn by (intros [-> _]; by eapply Hne). auto.
    + intros q n. rewrite (slot_step d p s q n m F x Ht Hs HF Hx).
      destruct (Hout q n) as [Hc%Hslot|[Hn ->]]; [tauto|]. rewrite Hslot in Hn.
      destruct (decide (q = p /\ n = m)) as [?|Hqn]; [tauto|]. right.
      rewrite Hdec. rewrite decide_False by done. tauto.
  - destruct Hr as (q & n & Hq%Hslot & Hold & Htok). exists q, n.
    rewrite Hdec, decide_False in Hold by (intros [-> _]; by eapply Hne).
    split; [|done]. apply (slot_step d p s q n m F x Ht Hs HF Hx). auto.
  - done.
Qed.

Lemma registerObjectWithNamePrefix_spec fuel d p obj prefix o sc s F :
  tree d -> scopes d !! p = Some s -> (p < fuel)%nat ->
  objects d !! obj = Some o -> object_scope o = Some sc -> is_Some (scopes d !! sc) ->
  buildDottedName (fullyQualifiedName s) (prefix +:+ SimpleName o) = F ->
  exists d' r, registerObjectWithNamePrefix fuel p obj prefix d = (d', r) /\
               registers d p obj o F d' r.
Proof.
  induction fuel as [|fuel IH] in d, p, prefix, s |- *; intros Ht Hs Hf Ho Hsc Hsome HF; [lia|].
  cbn [registerObjectWithNamePrefix].
  rewrite (bind_deref _ _ _ _ _ Hs), (bind_deref _ _ _ _ _ Ho), Hsc.
  set (m := prefix +:+ SimpleName o) in *. cbv zeta.
  destruct (declaredObjects s !! m) as [ex|] eqn:Hm.
  { destruct Hsome as [scope Hscope].
    assert (declared d p m = Some ex) as Hd by (unfold declared; by rewrite Hs).
    exists d, (Err (mkDuplicateNameError (NameToken o) (file scope) ex)). split.
    - unfold newDuplicateDeclaredNameError.
      by rewrite (bind_deref _ _ _ _ _ Ho), Hsc, (bind_deref_nil _ _ _ _ _ Hscope).
    - split; [by destruct d|]. split; [done|]. exists p, m. split_and!; try done.
      split; [reflexivity|]. eauto. }
  assert (declared d p m = None) as Hfree by (unfold declared; by rewrite Hs).
  unfold update_scope at 1. rewrite bind_modify.
  set (d1 := set_scopes (alter (declare m obj) p (scopes d)) d).
  assert (shape <$> scopes d1 = shape <$> scopes d) as Hsh1 by apply update_scope_shape.
  assert (tree d1) as Ht1 by by eapply same_shape_tree.
  assert (forall q, is_Some (scopes d !! q) -> is_Some (scopes d1 !! q)) as Hsome1.
  { intros q [sq Hq]. destruct (same_shape_lookup d d1 q sq Hsh1 Hq) as (? & -> & _). eauto. }
  pose proof (tree_scope d Ht p s Hs) as Hok. unfold scope_ok in Hok.
  destruct (parentScope s) as [x|] eqn:Hx.
  2:{ exists d1, (Ok tt). split; [done|]. split; [done|]. split; [done|]. split.
      - intros q n [-> ->]%(slot_root d p s q n m F Hs HF Hx). split; [done|].
        unfold d1. rewrite (update_scope_declared d p m obj p m s Hs). by rewrite decide_True.
      - intros q n. rewrite (slot_root d p s q n m F Hs HF Hx).
        destruct (decide (q = p /\ n = m)) as [?|Hn]; [by left|]. right. split; [done|].
        unfold d1. rewrite (update_scope_declared d p m obj q n s Hs). by rewrite decide_False. }
  destruct Hok as (Hlt & ps & Hps & Hc).
  destruct (same_shape_lookup d d1 x ps Hsh1 Hps) as (ps1 & Hps1 & Hpsh).
  apply shape_inv in Hpsh as (Hk1 & _ & Hf1 & _).
  assert (forall prefix', buildDottedName (fullyQualifiedName ps1) (prefix' +:+ SimpleName o) = F ->
    exists d' r, registerObjectWithNamePrefix fuel x obj prefix' d1 = (d', r) /\
                 registers d p obj o F d' r) as Hrec.
  { intros prefix' HF'. destruct (IH d1 x prefix' ps1) as (d' & r & Hrun & Hreg); auto; [lia|].
    exists d', r. split; [done|]. by eapply (registers_step d p s m obj o F x). }
  case_bool_decide as Hk.
  - rewrite (bind_deref _ _ _ _ _ Hps1), Hk1.
    destruct Hc as [-> Hfq]. rewrite bool_decide_true by done. apply Hrec. by rewrite Hf1, <- Hfq.
  - destruct Hc as [Hshort Hfq]. apply Hrec.
    rewrite Hf1, buildDottedName_prefix, <- buildDottedName_assoc, <- Hfq by done. done.
Qed.

(** Registration of an object never panics on a well-formed tree. On success the object takes exactly the names that stand for its fully qualified name, one in each ancestor scope, all of which were free, and nothing else changes; on failure one of those names was already taken, by the object the error reports. *)
Theorem Register_correct d p s obj o :
  tree d -> scopes d !! p = Some s -> objects d !! obj = Some o -> object_scope o = Some p ->
  let (d', r) := Register p obj d in
  registers d p obj o (buildDottedName (fullyQualifiedName s) (SimpleName o)) d' r.
Proof.
  intros Ht Hs Ho Hsc. unfold Register.
  destruct (registerObjectWithNamePrefix_spec (S p) d p obj "" o p s _ Ht Hs (Nat.lt_succ_diag_r p)
              Ho Hsc (mk_is_Some _ _ Hs) eq_refl) as (d' & r & -> & H). exact H.
Qed.

(** ** Lookup *)
Definition objects_valid (d : MojomDescriptor) : Prop :=
  forall q n x, declared d q n = Some x -> is_Some (objects d !! x).
(** [obj] is declared as [name] in scope [q] on the chain of [p] and has an
    accepted kind. *)
Definition visible (d : MojomDescriptor) (p : nat) (name : string) (f : Z) (q obj : nat) : Prop :=
  ancestor d p q /\ declared d q name = Some obj /\
  exists o, objects d !! obj = Some o /\ accepts f (class o) = true.

Lemma visible_step d p s x name f q obj :
  scopes d !! p = Some s -> parentScope s = Some x ->
  visible d x name f q obj -> visible d p name f q obj.
Proof.
  intros Hs Hx [Ha H]. split; [|done]. eapply rtc_l; [|exact Ha]. exists s. auto.
Qed.
Lemma visible_inv d p s name f q obj :
  scopes d !! p = Some s -> visible d p name f q obj ->
  visible d p name f p obj /\ q = p \/
  exists x, parentScope s = Some x /\ visible d x name f q obj.
Proof.
  intros Hs [Ha H]. apply rtc_inv in Ha as [<-|(y & (s' & Hs' & Hy) & Ha)].
  - left. split; [|done]. split; [reflexivity|done].
  - right. exists y. assert (s' = s) as -> by congruence. split; [done|]. by split.
Qed.

Definition nearest (d : MojomDescriptor) (p : nat) (name : string) (f : Z) (r : option nat) : Prop :=
  match r with
  | Some obj => exists q, visible d p name f q obj /\
      forall q' obj', visible d p name f q' obj' -> ancestor d q q' /\ (q' = q -> obj' = obj)
  | None => forall q obj, ~ visible d p name f q obj
  end.

Lemma LookupObject_fuel_spec {E} fuel d p name f :
  tree d -> objects_valid d -> f <> LookupAcceptNone -> is_Some (scopes d !! p) -> (p < fuel)%nat ->
  exists r, LookupObject_fuel (E:=E) fuel d p name f = Ok r /\ nearest d p name f r.
Proof.
  intros Ht Hv Hf. induction fuel as [|fuel IH] in p |- *; intros [s Hs] Hlt; [lia|].
  cbn [LookupObject_fuel]. rewrite (proj2 (Z.eqb_neq _ _) Hf), Hs.
  set (continue := match parentScope s with None => Ok None | Some _ => _ end).
  assert ((forall obj, ~ visible d p name f p obj) ->
          exists r, continue = Ok r /\ nearest d p name f r) as Hcont.
  { intros Hno. unfold continue. pose proof (tree_scope d Ht p s Hs) as Hok. unfold scope_ok in Hok.
    destruct (parentScope s) as [x|] eqn:Hx.
    - destruct Hok as (? & ps & Hps & _). destruct (IH x) as (r & -> & Hr); [eauto|lia|].
      exists r. split; [done|]. destruct r as [obj|]; cbn in Hr |- *.
      + destruct Hr as (q & Hq & Hmin). exists q. split; [by eapply visible_step|].
        intros q' obj' [[Hself ->]|(y & Hy & Hq')]%(visible_inv _ _ _ _ _ _ _ Hs); [by edestruct Hno|].
        rewrite Hx in Hy. injection Hy as <-. auto.
      + intros q obj [[Hself ->]|(y & Hy & Hq')]%(visible_inv _ _ _ _ _ _ _ Hs); [by edestruct Hno|].
        rewrite Hx in Hy. injection Hy as <-. by eapply Hr.
    - exists None. split; [done|]. intros q obj [[Hself ->]|(y & Hy & Hq')]%(visible_inv _ _ _ _ _ _ _ Hs);
        [by eapply Hno|congruence]. }
  assert (forall obj, declared d p name = Some obj <-> declaredObjects s !! name = Some obj) as Hdec.
  { intros obj. unfold declared. by rewrite Hs. }
  destruct (declaredObjects s !! name) as [obj|] eqn:Hobj.
  - destruct (Hv p name obj) as [o Ho]; [by apply Hdec|]. rewrite Ho.
    destruct (accepts f (class o)) eqn:Hacc.
    + exists (Some obj). split; [done|]. exists p. split.
      * split; [reflexivity|]. split; [by apply Hdec|]. eauto.
      * intros q' obj' [Ha [Hd _]]. split; [done|]. intros ->. apply Hdec in Hd. congruence.
    + apply Hcont. intros obj' [_ [Hd (o' & Ho' & Hacc')]]. apply Hdec in Hd. congruence.
  - apply Hcont. intros obj' [_ [Hd _]]. apply Hdec in Hd. congruence.
Qed.

(** C22: LookupObject terminates without panic and returns the object declared under the name, with an accepted kind, in the nearest scope on the chain of parents, or nil when no scope of the chain has one. *)
Theorem LookupObject_nearest d p name f :
  tree d -> objects_valid d -> f <> LookupAcceptNone -> is_Some (scopes d !! p) ->
  exists r, LookupObject (E:=DuplicateNameError) d p name f = Ok r /\ nearest d p name f r.
Proof. intros. by apply LookupObject_fuel_spec; [..|lia]. Qed.

(** ** Module names *)
Definition no_dot (s : string) : Prop := split_dots s = [s].
Definition good_name (n : string) : Prop := n = "" \/ Forall (.≠ "") (split_dots n).

Lemma split_dots_cons c s :
  split_dots (String c s) =
  if Ascii.eqb c "."%char then "" :: split_dots s
  else match split_dots s with x :: r => String c x :: r | [] => [String c ""] end.
Proof. done. Qed.
Lemma split_dots_nonempty s : exists x r, split_dots s = x :: r.
Proof.
  destruct s as [|c s]; [cbn; eauto|]. rewrite split_dots_cons.
  destruct (Ascii.eqb c "."); [eauto|]. destruct (split_dots s); eauto.
Qed.
Lemma split_dots_no_dot s : Forall no_dot (split_dots s).
Proof.
  induction s as [|c s IH]; [by repeat constructor|]. rewrite split_dots_cons.
  destruct (Ascii.eqb c ".") eqn:Hc; [by constructor|].
  destruct (split_dots_nonempty s) as (x & r & E). rewrite E in *.
  inversion IH as [|?? Hx Hr]; subst. constructor; [|done].
  unfold no_dot. rewrite split_dots_cons, Hc. unfold no_dot in Hx. by rewrite Hx.
Qed.
Lemma split_dots_dot x y : no_dot x -> split_dots (x +:+ String "." y) = x :: split_dots y.
Proof.
  unfold no_dot. induction x as [|c x IH]; intros Hx; [done|].
  rewrite append_cons, split_dots_cons in *. destruct (Ascii.eqb c "."); [naive_solver|].
  destruct (split_dots_nonempty x) as (z & r & E). rewrite E in Hx.
  injection Hx as -> ->. by rewrite IH.
Qed.
Lemma split_join l : l <> [] -> Forall no_dot l -> split_dots (join_dots l) = l.
Proof.
  induction l as [|x [|y l] IH]; intros Hne Hl; [done| |]; inversion Hl; subst; [done|].
  change (join_dots (x :: y :: l)) with (x +:+ String "." (join_dots (y :: l))).
  rewrite split_dots_dot by done. by rewrite IH.
Qed.
Lemma join_split s : join_dots (split_dots s) = s.
Proof.
  induction s as [|c s IH]; [done|]. rewrite split_dots_cons.
  destruct (split_dots_nonempty s) as (x & r & E). rewrite E in *.
  destruct (Ascii.eqb_spec c "."%char) as [->|_].
  - change (join_dots ("" :: x :: r)) with (String "." (join_dots (x :: r))). by rewrite IH.
  - destruct r as [|y r]; cbn in IH |- *; by rewrite <- IH.
Qed.
Lemma join_dots_snoc l x :
  l <> [] -> join_dots (l ++ [x]) = join_dots l +:+ String "." x.
Proof.
  induction l as [|y [|z l] IH]; intros Hne; [done|done|].
  change (join_dots ((y :: z :: l) ++ [x])) with (y +:+ String "." (join_dots ((z :: l) ++ [x]))).
  rewrite IH by done. change (join_dots (y :: z :: l)) with (y +:+ String "." (join_dots (z :: l))).
  by rewrite append_assoc, append_cons.
Qed.
Lemma join_dots_nonempty l : l <> [] -> Forall (.≠ "") l -> join_dots l <> "".
Proof.
  destruct l as [|x [|y l]]; intros Hne Hl; inversion Hl; subst; [done|done|].
  by intros [? _]%append_nil_inv.
Qed.

(** A name of several segments is its parent's name and the last segment. *)
Lemma dotted_parent n :
  good_name n -> (1 < length (split_dots n))%nat ->
  let m := join_dots (take (length (split_dots n) - 1) (split_dots n)) in
  good_name m /\ length (split_dots m) = (length (split_dots n) - 1)%nat /\
  List.last (split_dots n) "" <> "" /\ n = buildDottedName m (List.last (split_dots n) "").
Proof.
  intros [->|Hn] Hlen; [cbn in Hlen; lia|].
  destruct (exists_last (l := split_dots n)) as (l & x & E).
  { intros E. rewrite E in Hlen. cbn in Hlen. lia. }
  pose proof (split_dots_no_dot n) as Hnd. rewrite E in *. rewrite length_app in *. cbn in *.
  replace (length l + 1 - 1)%nat with (length l) in * by lia.
  rewrite take_app_length, last_last. apply Forall_app in Hn as [Hl Hx], Hnd as [Hndl _].
  assert (l <> []) as Hne by (intros ->; cbn in Hlen; lia).
  inversion Hx; subst. rewrite <- (join_split n), E, join_dots_snoc by done.
  rewrite buildDottedName_cons by by apply join_dots_nonempty.
  split_and!; try done; unfold good_name; rewrite split_join by done; auto.
Qed.

(** ** Creating scopes *)
(** [d'] has more scopes than [d], all of them empty; nothing else moved. *)
Definition extends (d d' : MojomDescriptor) : Prop :=
  (exists l, scopes d' = scopes d ++ l /\ Forall (fun s => declaredObjects s = ∅) l) /\
  d' = set_abstract (abstractScopesByName d') (set_scopes (scopes d') d) /\
  abstractScopesByName d ⊆ abstractScopesByName d'.
#[export] Instance extends_preorder : PreOrder extends.
Proof.
  split.
  - intros d. split; [|by destruct d]. exists []. by rewrite app_nil_r.
  - intros d1 d2 d3 [(l & Hl & Hl') (H2 & ?)] [(k & Hk & Hk') (H3 & ?)].
    split; [|split; [by rewrite H3, H2|by etrans]].
    exists (l ++ k). rewrite Hk, Hl, app_assoc. split; [done|]. by apply Forall_app.
Qed.
Lemma extends_scope d d' p s : extends d d' -> scopes d !! p = Some s -> scopes d' !! p = Some s.
Proof. intros [(l & -> & _) _]. apply lookup_app_l_Some. Qed.
Lemma extends_declared d d' q n : extends d d' -> declared d' q n = declared d q n.
Proof.
  intros [(l & Hl & Hl') _]. unfold declared. rewrite Hl.
  destruct (scopes d !! q) as [s|] eqn:Hs; [by rewrite (lookup_app_l_Some _ _ _ _ Hs)|].
  rewrite lookup_app_r by by apply lookup_ge_None. cbn.
  destruct (l !! _) as [s|] eqn:Hk; [|done]. cbn. eapply Forall_lookup_1 in Hl'; [|done].
  by rewrite Hl'.
Qed.

Lemma new_scope_tree d s :
  tree d -> scope_ok d (length (scopes d)) s ->
  tree (set_scopes (scopes d ++ [s]) d).
Proof.
  intros Ht Hok. split.
  - intros p s'. cbn [scopes set_scopes]. intros Hp.
    assert (scope_ok d p s') as Hd.
    { apply lookup_app_Some in Hp as [Hp|[? Hp]]; [by apply (tree_scope d Ht)|].
      destruct (p - length (scopes d))%nat as [|i] eqn:E; [|done]. injection Hp as <-.
      by replace p with (length (scopes d)) by lia. }
    unfold scope_ok in *. destruct (parentScope s') as [q|]; [|done].
    destruct Hd as (? & ps & Hps & ?). split; [done|]. exists ps. split; [|done].
    by apply lookup_app_l_Some.
  - intros n p (s' & Hs' & ?)%(tree_abstract d Ht). exists s'. split; [|done].
    by apply lookup_app_l_Some.
  - apply Ht.
Qed.
Lemma new_scope_spec {E} d k sh fqn par f c s :
  tree d -> s = mkScope k sh fqn par ∅ f c -> scope_ok d (length (scopes d)) s ->
  exists d', new_scope (E:=E) k sh fqn par f c d = (d', Ok (length (scopes d))) /\ tree d' /\
    extends d d' /\ abstractScopesByName d' = abstractScopesByName d /\
    scopes d' !! length (scopes d) = Some s.
Proof.
  intros Ht -> Hok. eexists. split; [reflexivity|]. split; [by apply new_scope_tree|].
  split; [|split; [done|]].
  - split; [|done]. eexists. split; [done|]. by repeat constructor.
  - cbn. by apply list_lookup_middle.
Qed.

Definition module_scope_ok (d d' : MojomDescriptor) (n : string) (p : nat) : Prop :=
  tree d' /\ extends d d' /\ abstractScopesByName d' !! n = Some p /\
  exists s, scopes d' !! p = Some s /\ scope_kind s = ScopeAbstractModule /\ fullyQualifiedName s = n.

(** Recording a new module scope. *)
Lemma record_module d d1 n p s :
  tree d1 -> extends d d1 -> abstractScopesByName d1 !! n = None ->
  scopes d1 !! p = Some s -> scope_kind s = ScopeAbstractModule -> fullyQualifiedName s = n ->
  module_scope_ok d (set_abstract (<[n := p]> (abstractScopesByName d1)) d1) n p.
Proof.
  intros Ht He Hn Hs Hk Hf. split.
  - split; [exact (tree_scope d1 Ht)| |].
    + intros m q. cbn [abstractScopesByName set_abstract scopes].
      intros [[<- <-]|[_ Hq]]%lookup_insert_Some; [eauto|]. by apply (tree_abstract d1 Ht).
    + cbn. destruct (decide (n = "")) as [->|?]; [rewrite lookup_insert_eq; eauto|].
      rewrite lookup_insert_ne by done. apply Ht.
  - split; [|split; [apply lookup_insert_eq|eauto]].
    etrans; [exact He|]. split; [exists []; by rewrite app_nil_r|]. split_and!; [done..|].
    by apply insert_subseteq.
Qed.

Lemma append_length s t : String.length (s +:+ t) = (String.length s + String.length t)%nat.
Proof. induction s as [|c s IH]; [done|]. rewrite append_cons. cbn. by rewrite IH. Qed.

(** The names that [d'] has and [d] has not are at most as long as [n]. *)
Definition new_names_below (d d' : MojomDescriptor) (n : string) : Prop :=
  forall k, is_Some (abstractScopesByName d' !! k) ->
    is_Some (abstractScopesByName d !! k) \/ (String.length k <= String.length n)%nat.

(** The module scope of a missing name, once its parent [par] is known. *)
Lemma new_module_scope {E} d d1 n par ps short :
  tree d1 -> extends d d1 -> abstractScopesByName d1 !! n = None ->
  scopes d1 !! par = Some ps -> short <> "" ->
  n = buildDottedName (fullyQualifiedName ps) short ->
  exists d' p,
    (let! scope := new_scope (E:=E) ScopeAbstractModule short n (Some par) None None in
     modify (fun d => set_abstract (<[n := scope]> (abstractScopesByName d)) d) ;;;
     ret scope) d1 = (d', Ok p) /\
    module_scope_ok d d' n p /\
    abstractScopesByName d' = (<[n := p]> (abstractScopesByName d1)).
Proof.
  intros Ht He Hnone Hps Hshort Hn.
  destruct (new_scope_spec (E:=E) d1 ScopeAbstractModule short n (Some par) None None _ Ht eq_refl)
    as (d2 & Hrun & Ht2 & He2 & Ha2 & Hs2).
  { split; [by eapply lookup_lt_Some|]. exists ps. done. }
  eexists _, _. split; [erewrite bind_run_ok by exact Hrun; reflexivity|].
  rewrite Ha2. split; [|done].
  rewrite <- Ha2. eapply (record_module d d2 n); [done|by etrans|by rewrite Ha2|exact Hs2|done|done].
Qed.

Lemma getAbstractModuleScope_fuel_spec {E} fuel d n :
  tree d -> good_name n -> (length (split_dots n) <= fuel)%nat ->
  exists d' p, getAbstractModuleScope_fuel (E:=E) fuel n d = (d', Ok p) /\
               module_scope_ok d d' n p /\ new_names_below d d' n.
Proof.
  induction fuel as [|fuel IH] in d, n |- *; intros Ht Hn Hlen.
  { destruct (split_dots_nonempty n) as (x & r & E'). rewrite E' in Hlen. cbn in Hlen. lia. }
  cbn [getAbstractModuleScope_fuel]. rewrite bind_get.
  destruct (abstractScopesByName d !! n) as [p|] eqn:Hp.
  { exists d, p. split; [done|]. split; [|by left]. split; [done|]. split; [reflexivity|].
    split; [done|]. by apply (tree_abstract d Ht). }
  destruct (decide (n = "")) as [->|Hne].
  { destruct (tree_root d Ht) as [r Hr]. congruence. }
  unfold NewAbstractModuleScope. rewrite bool_decide_false by done. cbn [negb].
  destruct (Nat.ltb_spec 1 (length (split_dots n))) as [Hlt|Hge].
  - destruct (dotted_parent n Hn Hlt) as (Hm & Hlm & Hlast & Hnm).
    set (m := join_dots _) in *. set (short := List.last _ _) in *.
    destruct (IH d m Ht Hm) as (d1 & par & Hrun & (Ht1 & He1 & Ha1 & ps & Hps & Hpk & Hpf) & Hnew1); [lia|].
    assert (String.length m < String.length n)%nat as Hshorter.
    { rewrite Hnm. unfold buildDottedName. destruct short; [done|]. case_bool_decide as Hm0.
      - rewrite Hm0. cbn. lia.
      - rewrite !append_length. cbn. lia. }
    assert (abstractScopesByName d1 !! n = None) as Hn1.
    { apply eq_None_not_Some. intros [[q Hq]|?]%Hnew1; [congruence|lia]. }
    destruct (new_module_scope (E:=E) d d1 n par ps short Ht1 He1 Hn1 Hps Hlast) as (d2 & p & Hrun2 & Hok & Ha2);
      [by rewrite Hpf|].
    exists d2, p. split; [|split; [done|]].
    { rewrite <- Hrun2. unfold bind at 1 2. rewrite Hrun. done. }
    intros k. rewrite Ha2. intros [q [[<- _]|[_ Hq]]%lookup_insert_Some]; [by right|].
    destruct (Hnew1 k) as [?|?]; [eauto|by left|right; lia].
  - destruct (tree_root d Ht) as [r Hr]. destruct (tree_abstract d Ht "" r Hr) as (rs & Hrs & Hrk & Hrf).
    rewrite bind_get_l. unfold getGlobalScobe. rewrite Hr.
    assert (List.last (split_dots n) "" = n) as ->.
    { destruct (split_dots_nonempty n) as (x & [|y l] & E'); rewrite E' in *; [|cbn in Hge; lia].
      cbn. rewrite <- (join_split n), E'. done. }
    destruct (new_module_scope (E:=E) d d n r rs n Ht) as (d2 & p & Hrun2 & Hok & Ha2); try done.
    { by rewrite Hrf. }
    exists d2, p. split; [done|]. split; [done|].
    intros k. rewrite Ha2. intros [q [[<- _]|[_ Hq]]%lookup_insert_Some]; [by right|left; eauto].
Qed.

Lemma length_split_dots n : (length (split_dots n) <= S (String.length n))%nat.
Proof.
  induction n as [|c n IH]; [done|]. rewrite split_dots_cons. destruct (Ascii.eqb c "."); [cbn; lia|].
  destruct (split_dots n); cbn in *; lia.
Qed.
Lemma getAbstractModuleScope_ok {E} d n :
  tree d -> good_name n ->
  exists d' p, getAbstractModuleScope (E:=E) n d = (d', Ok p) /\ module_scope_ok d d' n p.
Proof.
  intros Ht Hn.
  destruct (getAbstractModuleScope_fuel_spec (E:=E) (S (String.length n)) d n Ht Hn (length_split_dots n))
    as (d' & p & ? & ? & _). eauto.
Qed.

(** getAbstractModuleScope terminates without panic on every dotted name without empty segments and on the root's name: it returns the abstract module scope of that name, creating it and its missing ancestors, keeps every existing scope and its entries, and preserves the invariant that a scope's fully qualified name is its parent's name and its own short name. *)
Theorem getAbstractModuleScope_total d n :
  tree d -> good_name n ->
  exists d' p, getAbstractModuleScope (E:=DuplicateNameError) n d = (d', Ok p) /\ module_scope_ok d d' n p.
Proof. apply getAbstractModuleScope_ok. Qed.

Lemma has_kind_true d p k : has_kind d p k = true ->
  exists q s, p = Some q /\ scopes d !! q = Some s /\ scope_kind s = k.
Proof.
  unfold has_kind. destruct p as [q|]; [|done]. cbn. destruct (scopes d !! q) as [s|] eqn:Hs; [|done].
  intros ?%bool_decide_eq_true. eauto.
Qed.

(** Creating a lexical scope below the scope [q]. *)
Lemma child_scope_ok {E} d k short f c q d' p :
  tree d -> short <> "" -> k <> ScopeFileModule ->
  (let! s := deref_nil scopes (Some q) in
   new_scope (E:=E) k short (buildDottedName (fullyQualifiedName s) short) (Some q) f c) d
    = (d', Ok p) ->
  tree d' /\ extends d d' /\ exists s ps, scopes d' !! p = Some s /\ scopes d !! q = Some ps /\
    scope_kind s = k /\ parentScope s = Some q /\ declaredObjects s = ∅ /\
    fullyQualifiedName s = buildDottedName (fullyQualifiedName ps) short.
Proof.
  intros Ht Hshort Hk (d1 & s & Hd & Hn)%bind_Ok. unfold deref_nil, deref, must in Hd.
  destruct (scopes d !! q) as [ps|] eqn:Hps; [|done]. injection Hd as <- <-.
  destruct (new_scope_spec (E:=E) d k short (buildDottedName (fullyQualifiedName ps) short) (Some q) f c
              _ Ht eq_refl) as (d2 & Hrun & ? & ? & _ & Hs).
  { unfold scope_ok. cbn. split; [by eapply lookup_lt_Some|]. exists ps. split; [done|].
    by rewrite bool_decide_false. }
  rewrite Hrun in Hn. injection Hn as <- <-. split; [done|]. split; [done|].
  eexists _, ps. split; [exact Hs|]. done.
Qed.

Lemma NewLexicalScope_run {E} d kind parent short f c d' p :
  tree d -> (kind <> ScopeFileModule -> short <> "") ->
  (forall i fl ns, f = Some i -> mojomFiles d !! i = Some fl -> ModuleNamespace fl = Some ns -> good_name ns) ->
  NewLexicalScope (E:=E) kind parent short f c d = (d', Ok p) ->
  tree d' /\ extends d d' /\
  exists s q ps, scopes d' !! p = Some s /\ scopes d' !! q = Some ps /\
    scope_kind s = kind /\ parentScope s = Some q /\ declaredObjects s = ∅ /\
    match kind with
    | ScopeAbstractModule => False
    | ScopeFileModule => scope_kind ps = ScopeAbstractModule /\ fullyQualifiedName s = fullyQualifiedName ps
    | ScopeInterface => scope_kind ps = ScopeFileModule
    | ScopeStruct => scope_kind ps = ScopeFileModule \/ scope_kind ps = ScopeInterface
    | ScopeEnum => scope_kind ps <> ScopeAbstractModule
    end /\
    (kind <> ScopeFileModule -> fullyQualifiedName s = buildDottedName (fullyQualifiedName ps) short).
Proof.
  intros Ht Hshort Hns. unfold NewLexicalScope. rewrite bind_get.
  intros (d1 & fl & Hfl & Hrun)%bind_Ok.
  destruct f as [i|]; [|done]. unfold deref_nil, deref, must in Hfl.
  destruct (mojomFiles d !! i) as [fl'|] eqn:Hi; [|done]. injection Hfl as <- <-.
  assert (forall k q c, k <> ScopeFileModule -> short <> "" ->
    (let! s := deref_nil scopes (Some q) in
     new_scope (E:=E) k short (buildDottedName (fullyQualifiedName s) short) (Some q) (Some i) c) d
      = (d', Ok p) ->
    tree d' /\ extends d d' /\ exists s ps, scopes d' !! p = Some s /\ scopes d' !! q = Some ps /\
      scope_kind s = k /\ parentScope s = Some q /\ declaredObjects s = ∅ /\ scopes d !! q = Some ps /\
      fullyQualifiedName s = buildDottedName (fullyQualifiedName ps) short) as Hchild.
  { intros k q c' Hk Hsh Hc. destruct (child_scope_ok _ _ _ _ _ _ _ _ Ht Hsh Hk Hc)
      as (? & He & s & ps & ? & Hq & ? & ? & ? & ?).
    split; [done|]. split; [done|]. exists s, ps. split_and!; try done. by eapply extends_scope. }
  destruct kind.
  - done.
  - destruct parent, c, (ModuleNamespace fl') as [ns|] eqn:Hm; try done.
    destruct (getAbstractModuleScope_ok (E:=E) d ns Ht)
      as (d1 & q & Hq & Ht1 & He1 & _ & ps & Hps & Hpk & Hpf); [by eapply Hns|].
    rewrite (bind_run_ok _ _ _ _ _ Hq) in Hrun.
    destruct (new_scope_spec (E:=E) d1 ScopeFileModule short ns (Some q) (Some i) None
                _ Ht1 eq_refl) as (d2 & Hrun2 & Ht2 & He2 & _ & Hs).
    { split; [by eapply lookup_lt_Some|]. exists ps. split; [done|]. cbn. by rewrite Hpf. }
    rewrite Hrun2 in Hrun. injection Hrun as <- <-.
    split; [done|]. split; [by etrans|]. eexists _, q, ps. split; [exact Hs|].
    split; [by eapply extends_scope|]. cbn. rewrite Hpf. done.
  - destruct (has_kind d parent ScopeFileModule) eqn:Hk; [|done].
    apply has_kind_true in Hk as (q & ps0 & -> & Hq & Hk). destruct c as [c|]; [|done]. cbn [negb] in Hrun.
    apply Hchild in Hrun as (? & ? & s & ps & ? & ? & ? & ? & ? & Hq' & ?); [|done|by apply Hshort].
    split; [done|]. split; [done|]. exists s, q, ps. split_and!; try done. congruence.
  - apply bind_Ok in Hrun as (d1 & o & Ho & Hrun). unfold deref_nil, deref, must in Ho.
    destruct c as [c|]; [|done]. destruct (objects d !! c) as [o'|] eqn:Hc; [|done]. injection Ho as <- <-.
    assert (exists q ps0, parent = Some q /\ scopes d !! q = Some ps0 /\
              (scope_kind ps0 = ScopeFileModule \/ scope_kind ps0 = ScopeInterface) /\
              (let! s := deref_nil scopes (Some q) in
               new_scope (E:=E) ScopeStruct short (buildDottedName (fullyQualifiedName s) short) (Some q) (Some i)
                 (Some c)) d = (d', Ok p)) as (q & ps0 & -> & Hq & Hk & Hrun').
    { destruct (class o') as [[] []| | | |]; try done;
        (destruct (has_kind d parent _) eqn:Hk; [|done]);
        apply has_kind_true in Hk as (q & ps0 & -> & Hq & Hk); eauto 10. }
    apply Hchild in Hrun' as (? & ? & s & ps & ? & ? & ? & ? & ? & Hq' & ?); [|done|by apply Hshort].
    split; [done|]. split; [done|]. exists s, q, ps. split_and!; try done.
    assert (ps = ps0) as -> by congruence. done.
  - destruct parent as [q|], c as [c|]; try done.
    destruct (has_kind d (Some q) ScopeAbstractModule) eqn:Hk; [done|].
    apply Hchild in Hrun as (? & ? & s & ps & ? & ? & ? & ? & ? & Hq' & ?); [|done|by apply Hshort].
    split; [done|]. split; [done|]. exists s, q, ps. split_and!; try done.
    unfold has_kind in Hk. cbn in Hk. rewrite Hq' in Hk. by apply bool_decide_eq_false in Hk.
Qed.

(** C23: A call of NewLexicalScope that returns preserves the scope-tree invariant and every existing scope with its entries; the new scope is empty, and its name is the file's module name for a file scope and otherwise the parent's name with the short name appended, under a parent of the kind its own kind requires. *)
Theorem NewLexicalScope_tree d kind parent short f c d' p :
  tree d -> short <> "" ->
  (forall i fl ns, f = Some i -> mojomFiles d !! i = Some fl -> ModuleNamespace fl = Some ns -> good_name ns) ->
  NewLexicalScope (E:=DuplicateNameError) kind parent short f c d = (d', Ok p) ->
  tree d' /\ extends d d' /\
  exists s q ps, scopes d' !! p = Some s /\ scopes d' !! q = Some ps /\
    scope_kind s = kind /\ parentScope s = Some q /\ declaredObjects s = ∅ /\
    match kind with
    | ScopeAbstractModule => False
    | ScopeFileModule => scope_kind ps = ScopeAbstractModule /\ fullyQualifiedName s = fullyQualifiedName ps
    | ScopeInterface => scope_kind ps = ScopeFileModule
    | ScopeStruct => scope_kind ps = ScopeFileModule \/ scope_kind ps = ScopeInterface
    | ScopeEnum => scope_kind ps <> ScopeAbstractModule
    end /\
    (kind <> ScopeFileModule -> fullyQualifiedName s = buildDottedName (fullyQualifiedName ps) short).
Proof. intros Ht Hs. by apply NewLexicalScope_run. Qed.

(** ** The RegisterInScope methods *)
(** Every entry of a scope completes the scope's name to the fully qualified
    name of an object that was declared in the scope or in a descendant. *)
Definition linked (d : MojomDescriptor) : Prop :=
  forall q n x, declared d q n = Some x ->
    exists o sq p, objects d !! x = Some o /\ scopes d !! q = Some sq /\
      FullyQualifiedName o = buildDottedName (fullyQualifiedName sq) n /\
      object_scope o = Some p /\ ancestor d p q.
Definition undeclared (d : MojomDescriptor) (obj : nat) : Prop :=
  forall q n, declared d q n <> Some obj.

(** Which RegisterInScope, and where it panics after registering. *)
Inductive Registrant : Type := RType | RValue | RField | RMethod.
Definition RegisterInScope (k : Registrant) : nat -> option nat -> M MojomDescriptor DuplicateNameError unit :=
  match k with
  | RType => type_RegisterInScope
  | RValue => value_RegisterInScope
  | RField => field_RegisterInScope
  | RMethod => method_RegisterInScope
  end.
Definition accepted_in (k : Registrant) (d : MojomDescriptor) (o : DeclaredObject) (s : Scope) : bool :=
  match k with
  | RType => true
  | RValue =>
    match class o with OEnumValue _ _ => bool_decide (scope_kind s = ScopeEnum) | _ => true end &&
    match file s with Some f => bool_decide (is_Some (mojomFiles d !! f)) | None => false end
  | RField => bool_decide (scope_kind s = ScopeStruct)
  | RMethod => bool_decide (scope_kind s = ScopeInterface)
  end.

(** The state in which Register runs. *)
Definition scoped (p obj : nat) (d : MojomDescriptor) : MojomDescriptor :=
  set_objects (alter (set_object_scope p) obj (objects d)) d.

Lemma RegisterInScope_run k p obj d d1 s o :
  Register p obj (scoped p obj d) = (d1, Ok tt) ->
  scopes d1 !! p = Some s -> objects d1 !! obj = Some o ->
  exists d', RegisterInScope k obj (Some p) d = (d', if accepted_in k d1 o s then Ok tt else Panic) /\
    (accepted_in k d1 o s = true ->
     scopes d' = scopes d1 /\ abstractScopesByName d' = abstractScopesByName d1 /\
     exists key, objects d' =
       alter (set_fqn (buildDottedName (fullyQualifiedName s) (SimpleName o)) key) obj (objects d1)).
Proof.
  intros Hreg Hs Ho.
  destruct k; cbn [RegisterInScope accepted_in]; unfold type_RegisterInScope, value_RegisterInScope,
    field_RegisterInScope, method_RegisterInScope, member_RegisterInScope, update_object;
    rewrite bind_modify; fold (scoped p obj d); rewrite (bind_run_ok _ _ _ _ _ Hreg),
      (bind_deref _ _ _ _ _ Hs), (bind_deref _ _ _ _ _ Ho).
  - eexists. split; [reflexivity|]. eauto.
  - assert (match class o with
            | OEnumValue _ _ => negb (bool_decide (scope_kind s = ScopeEnum))
            | _ => false end =
            negb match class o with OEnumValue _ _ => bool_decide (scope_kind s = ScopeEnum) | _ => true end)
      as -> by by destruct (class o).
    destruct (match class o with OEnumValue _ _ => bool_decide (scope_kind s = ScopeEnum) | _ => true end);
      cbn [negb andb]; [|eexists; split; [reflexivity|done]].
    cbv zeta. rewrite bind_modify.
    destruct (file s) as [f|]; [|eexists; split; [reflexivity|done]].
    case_bool_decide as Hfl.
    + destruct Hfl as [fl Hfl].
      match goal with |- context [bind (deref_nil _ _) ?k ?dd] =>
        rewrite (bind_deref_nil mojomFiles f k dd fl) by exact Hfl end.
      eexists. split; [reflexivity|]. eauto.
    + apply eq_None_not_Some in Hfl. eexists. split; [|done].
      unfold bind, deref_nil, deref, must. cbn [mojomFiles set_objects]. by rewrite Hfl.
  - case_bool_decide; cbn [negb]; (eexists; split; [reflexivity|]); eauto; done.
  - case_bool_decide; cbn [negb]; (eexists; split; [reflexivity|]); eauto; done.
Qed.
Lemma RegisterInScope_err k p obj d d1 e :
  Register p obj (scoped p obj d) = (d1, Err e) -> RegisterInScope k obj (Some p) d = (d1, Err e).
Proof.
  intros Hreg. destruct k; cbn [RegisterInScope]; unfold type_RegisterInScope, value_RegisterInScope,
    field_RegisterInScope, method_RegisterInScope, member_RegisterInScope, update_object;
    rewrite bind_modify; fold (scoped p obj d); by rewrite (bind_run_err _ _ _ _ _ Hreg).
Qed.

Lemma linked_valid d : linked d -> objects_valid d.
Proof. intros Hl q n x (o & _ & _ & Ho & _)%Hl. eauto. Qed.

(** After registering and naming the object the entries are linked again. *)
Lemma linked_after d d1 d' p obj o s key :
  let F := buildDottedName (fullyQualifiedName s) (SimpleName o) in
  let d0 := scoped p obj d in
  tree d -> linked d -> undeclared d obj ->
  scopes d !! p = Some s -> objects d !! obj = Some o ->
  registers d0 p obj (set_object_scope p o) F d1 (Ok tt) ->
  scopes d' = scopes d1 -> objects d' = alter (set_fqn F key) obj (objects d1) ->
  linked d'.
Proof.
  intros F d0 Ht Hl Hu Hs Ho (Hd1 & Hsh & Hin & Hout) Hsc Hob q n x Hx.
  assert (declared d' q n = declared d1 q n) as Hdec by (unfold declared; by rewrite Hsc).
  rewrite Hdec in Hx.
  assert (forall q sq, scopes d !! q = Some sq ->
    exists sq', scopes d' !! q = Some sq' /\ fullyQualifiedName sq' = fullyQualifiedName sq) as Hsame.
  { intros q0 sq Hq. rewrite Hsc. destruct (same_shape_lookup d0 d1 q0 sq Hsh Hq) as (sq' & ? & Hq').
    exists sq'. by apply shape_inv in Hq' as (_ & _ & ? & _). }
  assert (forall p q, ancestor d p q -> ancestor d' p q) as Hanc.
  { intros p0 q0 Ha. apply (same_shape_ancestor d0 d'); [by rewrite Hsc|exact Ha]. }
  assert (objects d1 = objects d0) as Hob1 by (rewrite Hd1; done).
  rewrite Hob, Hob1. cbn [d0 scoped objects set_objects].
  destruct (decide (x = obj)) as [->|Hne].
  - assert (slot d0 p F q n) as Hslot.
    { destruct (Hout q n) as [?|[_ E]]; [done|]. rewrite Hx in E. by destruct (Hu q n). }
    destruct Hslot as [Ha (sq & Hq & HF)]. destruct (Hsame q sq Hq) as (sq' & Hq' & Hf).
    eexists _, sq', p. rewrite !list_lookup_alter_eq, Ho. split; [reflexivity|].
    split; [done|]. split; [cbn; by rewrite Hf, HF|]. split; [done|]. by apply Hanc.
  - assert (declared d q n = Some x) as Hold.
    { destruct (Hout q n) as [Hslot|[_ E]]; [|by rewrite <- Hx, E].
      destruct (Hin q n Hslot) as [_ Hnew]. congruence. }
    destruct (Hl q n x Hold) as (o' & sq & p' & Ho' & Hq & HF & Hp' & Ha).
    destruct (Hsame q sq Hq) as (sq' & Hq' & Hf).
    exists o', sq', p'. rewrite !list_lookup_alter_ne by done. rewrite Hf.
    split_and!; auto.
Qed.

(** C21: A RegisterInScope method of a fresh object on a well-formed, linked descriptor: on success the object's fully qualified name is the scope's name and its simple name, the object is declared in every ancestor scope under the name that stands for it, the tree and the links are preserved, and looking its simple name up in the scope finds it; on a duplicate the object the error reports has that same fully qualified name; it panics only in a scope that does not accept the object's kind. *)
Theorem RegisterInScope_correct k d p s obj o :
  tree d -> linked d -> undeclared d obj ->
  scopes d !! p = Some s -> objects d !! obj = Some o ->
  let F := buildDottedName (fullyQualifiedName s) (SimpleName o) in
  let (d', r) := RegisterInScope k obj (Some p) d in
  match r with
  | Ok _ =>
    tree d' /\ linked d' /\
    (exists o', objects d' !! obj = Some o' /\ FullyQualifiedName o' = F /\ class o' = class o) /\
    (forall q n, slot d p F q n -> declared d' q n = Some obj) /\
    LookupObject (E:=DuplicateNameError) d' p (SimpleName o) LookupAcceptAll = Ok (Some obj)
  | Err e => exists ex, objects d !! existingObject e = Some ex /\ FullyQualifiedName ex = F
  | Panic => accepted_in k d o s = false
  end.
Proof.
  intros Ht Hl Hu Hs Ho F.
  set (d0 := scoped p obj d). set (o0 := set_object_scope p o).
  assert (objects d0 !! obj = Some o0) as Ho0 by (cbn; by rewrite list_lookup_alter_eq, Ho).
  assert (tree d0) as Ht0 by by apply (same_shape_tree d d0).
  destruct (registerObjectWithNamePrefix_spec (S p) d0 p obj "" o0 p s F Ht0 Hs (Nat.lt_succ_diag_r p)
              Ho0 eq_refl (mk_is_Some _ _ Hs) eq_refl) as (d1 & r & Hrun & Hreg).
  change (Register p obj d0 = (d1, r)) in Hrun.
  pose proof Hreg as (Hd1 & Hsh & Hr).
  destruct r as [[]|e|]; [| |done].
  2:{ rewrite (RegisterInScope_err k p obj d d1 e Hrun). destruct Hr as (q & n & [_ (sq & Hq & HF)] & Hdec & _).
      destruct (Hl q n _ Hdec) as (ex & sq' & _ & Hex & Hq' & Hfx & _). exists ex. split; [done|].
      assert (sq' = sq) as -> by (cbn in Hq; congruence). congruence. }
  destruct (same_shape_lookup d0 d1 p s Hsh Hs) as (s1 & Hs1 & Hshape).
  pose proof (shape_inv _ _ Hshape) as (Hk1 & _ & Hf1 & _ & Hfile1).
  assert (objects d1 !! obj = Some o0) as Ho1 by (rewrite Hd1; exact Ho0).
  destruct (RegisterInScope_run k p obj d d1 s1 o0 Hrun Hs1 Ho1) as (d' & -> & Hd').
  assert (accepted_in k d1 o0 s1 = accepted_in k d o s) as Hacc.
  { destruct k; cbn [accepted_in]; rewrite ?Hk1, ?Hfile1; try done. by rewrite Hd1. }
  rewrite Hacc in *. destruct (accepted_in k d o s); [|done].
  destruct (Hd' eq_refl) as (Hsc & Hab & key & Hob). rewrite Hf1 in Hob. fold F in Hob.
  assert (tree d') as Ht'.
  { eapply (same_shape_tree d0); [by rewrite Hsc|by rewrite Hab, Hd1|done]. }
  assert (linked d') as Hl' by by eapply (linked_after d d1 d' p obj o s key).
  assert (objects d' !! obj = Some (set_fqn F key o0)) as Ho'.
  { by rewrite Hob, list_lookup_alter_eq, Ho1. }
  assert (forall q n, slot d p F q n -> declared d' q n = Some obj) as Hslot.
  { intros q n Hq. destruct Hr as [Hin _]. destruct (Hin q n Hq) as [_ <-].
    unfold declared. by rewrite Hsc. }
  split; [done|]. split; [done|]. split; [by eexists|]. split; [done|].
  assert (declared d' p (SimpleName o) = Some obj) as Hself.
  { apply Hslot. split; [reflexivity|]. eauto. }
  assert (is_Some (scopes d' !! p)) as Hp' by (rewrite Hsc, Hs1; eauto).
  destruct (LookupObject_fuel_spec (E:=DuplicateNameError) (S p) d' p (SimpleName o) LookupAcceptAll
              Ht' (linked_valid d' Hl')) as (r & Hlook & Hnear); [done|done|lia|].
  unfold LookupObject. rewrite Hlook.
  assert (visible d' p (SimpleName o) LookupAcceptAll p obj) as Hvis.
  { split; [reflexivity|]. split; [done|]. eauto. }
  destruct r as [x|]; [|by edestruct (Hnear p obj)].
  destruct Hnear as (q & [Hq _] & Hmin). destruct (Hmin p obj Hvis) as [Hqp Heq].
  assert (p = q) as E by (apply (ancestor_le d' _ _ Ht') in Hq, Hqp; lia).
  by rewrite (Heq E).
Qed.

(** ** A concrete descriptor *)
Lemma NewMojomDescriptor_tree : tree NewMojomDescriptor.
Proof.
  split.
  - intros [|[|p]] s; [|done|done]. by intros [= <-].
  - intros n p. cbn. intros [<- <-]%lookup_singleton_Some. eexists. split; [reflexivity|done].
  - cbn. rewrite lookup_singleton_eq. eauto.
Qed.
Definition module_descriptor : MojomDescriptor :=
  (getAbstractModuleScope (E:=DuplicateNameError) "foo.bar" NewMojomDescriptor).1.
Definition an_object (name : string) (c : ObjectClass) : DeclaredObject :=
  mkDeclaredObject c name zeroToken "" "" (Some 2%nat).
Definition an_enum : DeclaredObject := an_object "E" (OType UserDefinedTypeKindEnum StructTypeRegular).
(** Scopes 0, 1 and 2 are the modules "", "foo" and "foo.bar"; object 0 is an
    enum still to be registered in the last. *)
Definition example_descriptor : MojomDescriptor := set_objects [an_enum] module_descriptor.
Lemma example_tree : tree example_descriptor.
Proof.
  apply (same_shape_tree module_descriptor); [done..|].
  destruct (getAbstractModuleScope_ok (E:=DuplicateNameError) NewMojomDescriptor "foo.bar"
              NewMojomDescriptor_tree) as (d' & p & Hrun & Ht & _).
  - right. repeat constructor; done.
  - unfold module_descriptor. by rewrite Hrun.
Qed.
Definition example_scope : Scope := mkScope ScopeAbstractModule "bar" "foo.bar" (Some 1%nat) ∅ None None.
Lemma example_scope_lookup : scopes example_descriptor !! 2%nat = Some example_scope.
Proof. vm_compute. reflexivity. Qed.
Lemma example_undeclared q n : declared example_descriptor q n = None.
Proof.
  assert (Forall (fun s => declaredObjects s = ∅) (scopes example_descriptor)) as H.
  { repeat (apply Forall_cons; split; [vm_compute; reflexivity|]). by apply Forall_nil. }
  unfold declared. destruct (scopes example_descriptor !! q) as [s|] eqn:Hs; [|done].
  cbn. eapply Forall_lookup_1 in H; [|done]. by rewrite H.
Qed.

Lemma Register_correct_witness :
  let (d', r) := Register 2 0 example_descriptor in
  r = Ok tt /\ declared d' 0 "foo.bar.E" = Some 0%nat /\
  registers example_descriptor 2 0 an_enum (buildDottedName "foo.bar" "E") d' r.
Proof.
  pose proof (Register_correct example_descriptor 2 example_scope 0 an_enum example_tree
                example_scope_lookup eq_refl eq_refl) as H.
  destruct (Register 2 0 example_descriptor) as [d' r] eqn:E.
  vm_compute in E. injection E as <- <-. split; [reflexivity|]. split; [reflexivity|exact H].
Defined.
(** The enum registered: it is "E" in scope 2, "bar.E" in scope 1 and "foo.bar.E" in 0. *)
Definition registered_descriptor : MojomDescriptor := (Register 2 0 example_descriptor).1.
Lemma registered_tree : tree registered_descriptor.
Proof. apply (same_shape_tree example_descriptor); [by vm_compute..|exact example_tree]. Qed.
Lemma registered_valid : objects_valid registered_descriptor.
Proof.
  assert (Forall (fun s => map_Forall (fun _ x => x = 0%nat) (declaredObjects s)) (scopes registered_descriptor)) as H
    by (apply (bool_decide_eq_true_1 _); by vm_compute).
  intros q n x. unfold declared. destruct (scopes registered_descriptor !! q) as [s|] eqn:Hs; [|done].
  cbn. eapply Forall_lookup_1 in H; [|done]. intros ->%H. vm_compute. eauto.
Qed.
Lemma LookupObject_nearest_witness :
  LookupObject (E:=DuplicateNameError) registered_descriptor 2 "bar.E" LookupAcceptType = Ok (Some 0%nat) /\
  nearest registered_descriptor 2 "bar.E" LookupAcceptType (Some 0%nat).
Proof.
  destruct (LookupObject_nearest registered_descriptor 2 "bar.E" LookupAcceptType) as (r & Hr & Hn).
  - exact registered_tree.
  - exact registered_valid.
  - discriminate.
  - vm_compute. eauto.
  - split; [vm_compute; reflexivity|]. vm_compute in Hr. injection Hr as <-. exact Hn.
Defined.
Lemma getAbstractModuleScope_total_witness :
  exists d' p, getAbstractModuleScope (E:=DuplicateNameError) "foo.bar" NewMojomDescriptor = (d', Ok p) /\
    module_scope_ok NewMojomDescriptor d' "foo.bar" p.
Proof.
  apply getAbstractModuleScope_total.
  - exact NewMojomDescriptor_tree.
  - right. repeat constructor; discriminate.
Defined.
Definition file_descriptor : MojomDescriptor :=
  set_files [mkMojomFile "f" "f" None (Some "foo.bar") None [] ∅ None [] [] [] [] [] []] NewMojomDescriptor.
Lemma NewLexicalScope_tree_witness :
  exists d', (NewLexicalScope (E:=DuplicateNameError) ScopeFileModule None "foo.bar" (Some 0%nat) None
               file_descriptor) = (d', Ok 3%nat) /\ tree d'.
Proof.
  eexists. split; [vm_compute; reflexivity|].
  eapply (NewLexicalScope_tree file_descriptor ScopeFileModule None "foo.bar" (Some 0%nat) None _ 3).
  - apply (same_shape_tree NewMojomDescriptor); [reflexivity..|exact NewMojomDescriptor_tree].
  - discriminate.
  - intros i fl ns [= <-] [= <-] [= <-]. right. repeat constructor; discriminate.
  - vm_compute. reflexivity.
Defined.
Lemma RegisterInScope_correct_witness :
  let (d', r) := RegisterInScope RType 0 (Some 2%nat) example_descriptor in
  r = Ok tt /\ tree d' /\ linked d' /\
  LookupObject (E:=DuplicateNameError) d' 2 "E" LookupAcceptAll = Ok (Some 0%nat).
Proof.
  pose proof (RegisterInScope_correct RType example_descriptor 2 example_scope 0 an_enum) as H.
  assert (linked example_descriptor) as Hl.
  { intros q n x. rewrite example_undeclared. discriminate. }
  assert (undeclared example_descriptor 0) as Hu.
  { intros q n. rewrite example_undeclared. discriminate. }
  specialize (H example_tree Hl Hu example_scope_lookup eq_refl).
  destruct (RegisterInScope RType 0 (Some 2%nat) example_descriptor) as [d' r] eqn:E.
  assert (r = Ok tt) as ->.
  { vm_compute in E. injection E as _ <-. reflexivity. }
  destruct H as (? & ? & _ & _ & ?). auto.
Defined.
