(* ===== verification/Resolution.v ===== *)
(** * Resolution of type and value references: compiler/core/mojom_descriptor.go

    [Resolve] and the functions it calls.  References are heap objects of the
    descriptor, shared between the lists of unresolved references, the
    constants they define and the assignee types they consult.  The results
    that Go passes as values ([*resolveReferenceError], the error of a pass)
    are values here too, because [Resolve] discards some of them. *)
From S2P Require Export Scopes.

Inductive ReferenceError : Type :=
| NotResolved
| WrongKind (identifier : string) (found : nat).

Inductive PassError : Type :=
| TypeKindError (e : ReferenceError)
| TypeUseError (e : TypeRefError)
| ValueUseError (e : ValueRefError).

(** The lists of [Undefined] are what its message enumerates: undefined types,
    then values without a declaration and values without a concrete value. *)
Inductive ResolveError : Type :=
| Invalid (e : PassError)
| Undefined (types undeclared unresolved : list nat).

Abbreviation RM := (M MojomDescriptor ResolveError).

(** ** Reading the heap *)
Definition as_type (d : MojomDescriptor) (p : nat) : option UserDefinedType :=
  o ← objects d !! p;
  match class o with
  | OType k _ => Some (mkUserDefinedType p k (object_key o) (FullyQualifiedName o))
  | _ => None
  end.
Definition as_enum_value (d : MojomDescriptor) (p : nat) : option EnumValue :=
  o ← objects d !! p;
  match class o with
  | OEnumValue t i => ty ← as_type d t; Some (mkEnumValue ty (FullyQualifiedName o) i)
  | _ => None
  end.
(** A resolved type is a pointer: what is read through it is up to date. *)
Definition current_type (d : MojomDescriptor) (rt : UserDefinedType) : UserDefinedType :=
  default rt (as_type d (address rt)).
Definition deref_user_type_ref (d : MojomDescriptor) (r : UserTypeRef) : UserTypeRef :=
  mkUserTypeRef (nullable r) (interfaceRequest r) (ref_scope r) (identifier r) (ref_token r)
    (usedAsMapKey r) (usedAsConstantType r) (literalAssignment r) (current_type d <$> resolvedType r).
Fixpoint deref_type (d : MojomDescriptor) (t : TypeRefOf nat) : option TypeRef :=
  match t with
  | TRSimple s => Some (TRSimple s)
  | TRString s => Some (TRString s)
  | TRHandle h => Some (TRHandle h)
  | TRArray n l e => e' ← deref_type d e; Some (TRArray n l e')
  | TRMap n k v => k' ← deref_type d k; v' ← deref_type d v; Some (TRMap n k' v')
  | TRUser p => r ← typeRefs d !! p; Some (TRUser (deref_user_type_ref d r))
  end.
Definition deref_value_ref (d : MojomDescriptor) (v : UserValueRef nat) : option (UserValueRef UserTypeRef) :=
  ty ← deref_type d (as_Type (assigneeSpec v));
  Some (mkUserValueRef (uv_scope v) (uv_token v) (uv_identifier v) (usedAsEnumValueInitializer v)
          (mkAssigneeSpec (as_Name (assigneeSpec v)) ty) (resolvedDeclaredValue v)
          (resolvedConcreteValue v)).
(** [ResolvedConcreteValue] of a literal and of a reference. *)
Definition ValueRef_ResolvedConcreteValue (d : MojomDescriptor) (v : ValueRef)
    : option (option ConcreteValue) :=
  match v with
  | VRLiteral lv => Some (Some (CVLiteral lv))
  | VRUser p => r ← valueRefs d !! p; Some (resolvedConcreteValue r)
  end.

Definition set_type_refs (v : list UserTypeRef) (d : MojomDescriptor) : MojomDescriptor :=
  mkMojomDescriptor (scopes d) (objects d) (mojomFiles d) (MojomFilesByName d)
    (abstractScopesByName d) (TypesByKey d) (ValuesByKey d) v (valueRefs d)
    (unresolvedTypeReferences d) (unresolvedValueReferences d).
Definition set_value_refs (v : list (UserValueRef nat)) (d : MojomDescriptor) : MojomDescriptor :=
  mkMojomDescriptor (scopes d) (objects d) (mojomFiles d) (MojomFilesByName d)
    (abstractScopesByName d) (TypesByKey d) (ValuesByKey d) (typeRefs d) v
    (unresolvedTypeReferences d) (unresolvedValueReferences d).
Definition set_unresolved (t v : list (option nat)) (d : MojomDescriptor) : MojomDescriptor :=
  mkMojomDescriptor (scopes d) (objects d) (mojomFiles d) (MojomFilesByName d)
    (abstractScopesByName d) (TypesByKey d) (ValuesByKey d) (typeRefs d) (valueRefs d) t v.

Definition set_resolved_type (rt : UserDefinedType) (r : UserTypeRef) : UserTypeRef :=
  mkUserTypeRef (nullable r) (interfaceRequest r) (ref_scope r) (identifier r) (ref_token r)
    (usedAsMapKey r) (usedAsConstantType r) (literalAssignment r) (Some rt).
Definition set_declared_value (v : UserDefinedValue) (r : UserValueRef nat) : UserValueRef nat :=
  mkUserValueRef (uv_scope r) (uv_token r) (uv_identifier r) (usedAsEnumValueInitializer r)
    (assigneeSpec r) (Some v) (resolvedConcreteValue r).
Definition set_concrete_value (v : option ConcreteValue) (r : UserValueRef nat) : UserValueRef nat :=
  mkUserValueRef (uv_scope r) (uv_token r) (uv_identifier r) (usedAsEnumValueInitializer r)
    (assigneeSpec r) (resolvedDeclaredValue r) v.
Definition update_type_ref (p : nat) (f : UserTypeRef -> UserTypeRef) : RM unit :=
  modify (fun d => set_type_refs (alter f p (typeRefs d)) d).
Definition update_value_ref (p : nat) (f : UserValueRef nat -> UserValueRef nat) : RM unit :=
  modify (fun d => set_value_refs (alter f p (valueRefs d)) d).

Definition lookup_from (scope : option nat) (name : string) (acceptFilter : Z) : RM (option nat) :=
  match scope with
  | None => panic
  | Some s => fun d => (d, LookupObject d s name acceptFilter)
  end.
Definition RegisterUnresolvedTypeReference (ref : nat) (d : MojomDescriptor) : MojomDescriptor :=
  set_unresolved (unresolvedTypeReferences d ++ [Some ref]) (unresolvedValueReferences d) d.
Definition RegisterUnresolvedValueReference (ref : nat) (d : MojomDescriptor) : MojomDescriptor :=
  set_unresolved (unresolvedTypeReferences d) (unresolvedValueReferences d ++ [Some ref]) d.

(** ** One reference *)
(** [None] is the nil of a successful resolution. *)
Definition resolveTypeRef (ref : nat) : RM (option ReferenceError) :=
  let! r := deref typeRefs ref in
  let! lookupResult := lookup_from (ref_scope r) (identifier r) LookupAcceptAll in
  match lookupResult with
  | None => ret (Some NotResolved)
  | Some obj =>
    let! d := get in
    match as_type d obj with
    | Some ty => update_type_ref ref (set_resolved_type ty) ;;; ret None
    | None => ret (Some (WrongKind (identifier r) obj))
    end
  end.

Definition contains_dot (s : string) : bool := (1 <? length (split_dots s))%nat.

(** The boolean result: the reference was resolved here. *)
Definition resolveSpecialEnumValueAssignment (ref : nat) : RM bool :=
  let! r := deref valueRefs ref in
  let name := uv_identifier r in
  if contains_dot name then ret false
  else
    match as_Type (assigneeSpec r) with
    | TRUser p =>
      let! userTypeRef := deref typeRefs p in
      let! d := get in
      match current_type d <$> resolvedType userTypeRef with
      | Some assigneeEnumType =>
        if bool_decide (udt_Kind assigneeEnumType = UserDefinedTypeKindEnum) then
          let! lookupResult :=
            lookup_from (uv_scope r) (udt_FullyQualifiedName assigneeEnumType +:+ "." +:+ name)
              LookupAcceptValue in
          match lookupResult with
          | None => ret false
          | Some obj =>
            let! d := get in
            match as_enum_value d obj with
            | Some ev =>
              if bool_decide (EnumType ev = assigneeEnumType) then
                update_value_ref ref (set_declared_value (UDVEnumValue ev)) ;;;
                update_value_ref ref (set_concrete_value (Some (CVEnum ev))) ;;;
                ret true
              else ret false
            | None => ret false
            end
          end
        else ret false
      | None => ret false
      end
    | _ => ret false
    end.

(** Step 2 of [resolveValueRef]. *)
Definition resolve_concrete (ref : nat) (declared : UserDefinedValue) : RM (option ReferenceError) :=
  let! d := get in
  let! concrete :=
    match declared with
    | UDVConstant c =>
      let! o := deref objects c in
      match class o with
      | OConstant _ valueRef => must (ValueRef_ResolvedConcreteValue d valueRef)
      | _ => panic
      end
    | UDVEnumValue ev => ret (Some (CVEnum ev))
    | UDVBuiltIn b => ret (Some (CVBuiltIn b))
    end in
  update_value_ref ref (set_concrete_value concrete) ;;;
  match concrete with
  | None => ret (Some NotResolved)
  | Some _ => ret None
  end.

Definition resolveValueRef (ref : nat) : RM (option ReferenceError) :=
  let! r := deref valueRefs ref in
  match resolvedDeclaredValue r with
  | Some declared => resolve_concrete ref declared
  | None =>
    let! lookupResult := lookup_from (uv_scope r) (uv_identifier r) LookupAcceptAll in
    let! d := get in
    match lookupResult with
    | Some obj =>
      let! o := deref objects obj in
      match class o with
      | OEnumValue _ _ =>
        let! ev := must (as_enum_value d obj) in
        update_value_ref ref (set_declared_value (UDVEnumValue ev)) ;;;
        resolve_concrete ref (UDVEnumValue ev)
      | OConstant _ _ =>
        update_value_ref ref (set_declared_value (UDVConstant obj)) ;;;
        resolve_concrete ref (UDVConstant obj)
      | _ => ret (Some (WrongKind (uv_identifier r) obj))
      end
    | None =>
      let! special := resolveSpecialEnumValueAssignment ref in
      if special then ret None
      else
        match LookupBuiltInConstantValue (uv_identifier r) with
        | Some b =>
          update_value_ref ref (set_declared_value (UDVBuiltIn b)) ;;;
          resolve_concrete ref (UDVBuiltIn b)
        | None => ret (Some NotResolved)
        end
    end
  end.

(** ** One pass over a list of references *)
(** [acc] is [unresolvedReferences[0:numUnresolved]].  The return on a wrong
    kind leaves the slice at its full length, padded with nil. *)
Definition padded (acc : list (option nat)) (total : nat) : list (option nat) :=
  acc ++ replicate (total - length acc) None.

Fixpoint resolve_types_loop (refs : list (option nat)) (total : nat) (acc : list (option nat))
    : RM (list (option nat) * option PassError) :=
  match refs with
  | [] => ret (acc, None)
  | None :: refs => resolve_types_loop refs total acc
  | Some ref :: refs =>
    let! err := resolveTypeRef ref in
    match err with
    | Some NotResolved => resolve_types_loop refs total (acc ++ [Some ref])
    | Some e => ret (padded acc total, Some (TypeKindError e))
    | None =>
      let! r := deref typeRefs ref in
      match validateAfterResolution r with
      | Ok _ => resolve_types_loop refs total acc
      | Err e => ret (acc, Some (TypeUseError e))
      | Panic => panic
      end
    end
  end.
Definition resolveTypeReferences : RM (list (option nat) * option PassError) :=
  let! d := get in
  let refs := unresolvedTypeReferences d in
  resolve_types_loop refs (length refs) [].

Fixpoint resolve_values_loop (refs : list (option nat)) (total : nat) (acc : list (option nat))
    : RM (list (option nat) * option PassError) :=
  match refs with
  | [] => ret (acc, None)
  | None :: refs => resolve_values_loop refs total acc
  | Some ref :: refs =>
    let! err := resolveValueRef ref in
    match err with
    | Some NotResolved => resolve_values_loop refs total (acc ++ [Some ref])
    | Some e => ret (padded acc total, Some (TypeKindError e))
    | None =>
      let! r := deref valueRefs ref in
      let! d := get in
      let! r := must (deref_value_ref d r) in
      match UserValueRef_validateAfterResolution r with
      | Ok _ => resolve_values_loop refs total acc
      | Err e => ret (acc, Some (ValueUseError e))
      | Panic => panic
      end
    end
  end.
Definition resolveValueReferences : RM (list (option nat) * option PassError) :=
  let! d := get in
  let refs := unresolvedValueReferences d in
  resolve_values_loop refs (length refs) [].

(** ** Resolve *)
(** The loop runs while the number of unresolved values decreases; the error
    of the pass is discarded.  The number itself is fuel enough. *)
Fixpoint resolve_again (fuel : nat) (unresolved : list (option nat)) (num : nat)
    : RM (list (option nat) * nat) :=
  match num with
  | O => ret (unresolved, num)
  | S _ =>
    match fuel with
    | O => panic
    | S fuel =>
      let! pass := resolveValueReferences in
      let unresolved := pass.1 in
      if (length unresolved <? num)%nat
      then resolve_again fuel unresolved (length unresolved)
      else ret (unresolved, num)
    end
  end.

Definition undeclared_values (d : MojomDescriptor) (refs : list nat) : list nat :=
  filter (fun p => (valueRefs d !! p ≫= resolvedDeclaredValue) = None) refs.
Definition declared_values (d : MojomDescriptor) (refs : list nat) : list nat :=
  filter (fun p => (valueRefs d !! p ≫= resolvedDeclaredValue) <> None) refs.

Definition Resolve : RM unit :=
  let! types := resolveTypeReferences in
  match types with
  | (_, Some e) => throw (Invalid e)
  | (unresolvedTypes, None) =>
    let numTypes := length unresolvedTypes in
    let! values := resolveValueReferences in
    match values with
    | (_, Some e) => throw (Invalid e)
    | (unresolvedValues, None) =>
      let! again := resolve_again (length unresolvedValues) unresolvedValues (length unresolvedValues) in
      let (unresolvedValues, numValues) := again : list (option nat) * nat in
      modify (set_unresolved (take numTypes unresolvedTypes) (take numValues unresolvedValues)) ;;;
      if (numTypes + numValues =? 0)%nat then ret tt
      else
        let! d := get in
        let! ts := must (mapM id (unresolvedTypeReferences d)) in
        let! vs := must (mapM id (unresolvedValueReferences d)) in
        let internal :=
          existsb (fun p => bool_decide (is_Some (valueRefs d !! p ≫= resolvedConcreteValue)))
            (declared_values d vs) in
        if internal then panic
        else throw (Undefined ts (undeclared_values d vs) (declared_values d vs))
    end
  end.
