(* ===== verification/ResolutionSpec.v ===== *)
(** * Correctness of reference resolution

    The type pass in full; the value passes: a reference that a pass resolves
    is valid, the repetition terminates; and two executions on concrete
    descriptors that show where [Resolve] departs from its contract. *)
From S2P Require Export Resolution ScopesSpec.

#[local] Set Warnings "-clear-no-such-hyp".

Lemma LookupObject_fuel_ext {E} fuel d d' p name f :
  scopes d' = scopes d -> objects d' = objects d ->
  LookupObject_fuel (E:=E) fuel d' p name f = LookupObject_fuel fuel d p name f.
Proof.
  intros Hs Ho. induction fuel as [|fuel IH] in p |- *; [done|].
  cbn [LookupObject_fuel]. rewrite Hs, Ho. destruct (_ =? _); [done|].
  destruct (scopes d !! p) as [s|]; [|done].
  assert (match parentScope s with Some x => LookupObject_fuel (E:=E) fuel d' x name f | None => Ok None end =
          match parentScope s with Some x => LookupObject_fuel fuel d x name f | None => Ok None end) as ->
    by (destruct (parentScope s); [apply IH|done]).
  done.
Qed.

(** ** The type pass *)
(** What looking up the identifier of a reference gives. *)
Definition finds (d : MojomDescriptor) (r : UserTypeRef) (res : option nat) : Prop :=
  exists s, ref_scope r = Some s /\
    LookupObject (E:=ResolveError) d s (identifier r) LookupAcceptAll = Ok res.
Definition undefined_type (d : MojomDescriptor) (p : nat) : Prop :=
  exists r, typeRefs d !! p = Some r /\ finds d r None.
(** [p] is resolved in [d'] to the type its identifier names in [d]. *)
Definition resolved_type (d d' : MojomDescriptor) (p : nat) : Prop :=
  exists r obj ty, typeRefs d !! p = Some r /\ finds d r (Some obj) /\ as_type d obj = Some ty /\
    typeRefs d' !! p = Some (set_resolved_type ty r).
Definition type_refs_valid (d : MojomDescriptor) (refs : list (option nat)) : Prop :=
  forall p, Some p ∈ refs -> exists r s, typeRefs d !! p = Some r /\ ref_scope r = Some s /\
    is_Some (scopes d !! s).

Definition type_pass (d : MojomDescriptor) (refs : list (option nat)) (d' : MojomDescriptor)
    (un : list (option nat)) (e : option PassError) : Prop :=
  match e with
  | None =>
    (forall p, Some p ∈ un <-> Some p ∈ refs /\ undefined_type d p) /\
    (forall p, Some p ∈ refs -> ~ undefined_type d p ->
       resolved_type d d' p /\ forall r, typeRefs d' !! p = Some r -> validateAfterResolution r = Ok tt)
  | Some (TypeKindError (WrongKind id obj)) =>
    exists p r, Some p ∈ refs /\ typeRefs d !! p = Some r /\ identifier r = id /\
      finds d r (Some obj) /\ as_type d obj = None
  | Some (TypeUseError e) =>
    exists p r, Some p ∈ refs /\ resolved_type d d' p /\ typeRefs d' !! p = Some r /\
      validateAfterResolution r = Err e
  | Some _ => False
  end.

Section TypePass.
Context (d : MojomDescriptor) (Ht : tree d) (Hv : objects_valid d).
Let at_refs (tr : list UserTypeRef) : MojomDescriptor := set_type_refs tr d.

Lemma resolveTypeRef_run tr p r s :
  tr !! p = Some r -> typeRefs d !! p = Some r -> ref_scope r = Some s -> is_Some (scopes d !! s) ->
  exists res, finds d r res /\
  resolveTypeRef p (at_refs tr) =
  match res with
  | None => (at_refs tr, Ok (Some NotResolved))
  | Some obj =>
    match as_type d obj with
    | Some ty => (at_refs (alter (set_resolved_type ty) p tr), Ok None)
    | None => (at_refs tr, Ok (Some (WrongKind (identifier r) obj)))
    end
  end.
Proof.
  intros Hp Hr Hs Hsc.
  destruct (LookupObject_fuel_spec (E:=ResolveError) (S s) d s (identifier r) LookupAcceptAll Ht Hv)
    as (res & Hres & _); [done|done|lia|].
  exists res. split; [exists s; split; [done|exact Hres]|].
  unfold resolveTypeRef. rewrite (bind_deref typeRefs p _ (at_refs tr) r) by done. rewrite Hs.
  assert (lookup_from (Some s) (identifier r) LookupAcceptAll (at_refs tr) = (at_refs tr, Ok res)) as Hl.
  { cbn [lookup_from]. unfold LookupObject. f_equal.
    rewrite (LookupObject_fuel_ext (S s) d (at_refs tr)) by done. exact Hres. }
  rewrite (bind_run_ok _ _ _ _ _ Hl). destruct res as [obj|]; [|done].
  rewrite bind_get. change (as_type (at_refs tr) obj) with (as_type d obj).
  destruct (as_type d obj); done.
Qed.

Lemma finds_unique r res res' : finds d r res -> finds d r res' -> res = res'.
Proof. intros (s & Hs & H) (s' & Hs' & H'). congruence. Qed.

Lemma resolve_types_loop_spec refs : forall tr acc total,
  NoDup refs -> type_refs_valid d refs ->
  (forall p, Some p ∈ refs -> tr !! p = typeRefs d !! p) ->
  exists tr' keep e un, resolve_types_loop refs total acc (at_refs tr) = (at_refs tr', Ok (un, e)) /\
    (e = None -> un = acc ++ keep) /\ (forall p, (Some p ∉ refs) -> tr' !! p = tr !! p) /\
    type_pass d refs (at_refs tr') keep e.
Proof.
  induction refs as [|[p|] refs IH]; intros tr acc total Hnd Hvalid Htr; cbn [resolve_types_loop].
  - exists tr, [], None, acc. rewrite app_nil_r. split_and!; try done; set_solver.
  - apply NoDup_cons in Hnd as [Hp Hnd].
    destruct (Hvalid p) as (r & s & Hr & Hs & Hsc); [set_solver|].
    assert (tr !! p = Some r) as Htp by (rewrite Htr; set_solver).
    assert (type_refs_valid d refs) as Hvalid' by (intros q Hq; apply Hvalid; set_solver).
    assert (forall q, Some q ∈ refs -> q <> p) as Hne by (intros q Hq ->; done).
    destruct (resolveTypeRef_run tr p r s Htp Hr Hs Hsc) as (res & Hfind & Hrun).
    destruct res as [obj|]; [destruct (as_type d obj) as [ty|] eqn:Hty|];
      rewrite (bind_run_ok _ _ _ _ _ Hrun).
    + set (tr1 := alter (set_resolved_type ty) p tr).
      assert (tr1 !! p = Some (set_resolved_type ty r)) as Hp1.
      { unfold tr1. by rewrite list_lookup_alter_eq, Htp. }
      rewrite (bind_deref typeRefs p _ (at_refs tr1) _ Hp1).
      assert (~ undefined_type d p) as Hdef.
      { intros (r' & Hr' & Hnone). assert (r' = r) as -> by congruence.
        by pose proof (finds_unique _ _ _ Hfind Hnone). }
      destruct (validateAfterResolution (set_resolved_type ty r)) as [[]|e|] eqn:Hval.
      * destruct (IH tr1 acc total Hnd Hvalid') as (tr' & keep & e & un & Hloop & Hun & Hsame & Hpass).
        { intros q Hq. unfold tr1. rewrite list_lookup_alter_ne by (intros ->; set_solver).
          apply Htr. set_solver. }
        assert (tr' !! p = Some (set_resolved_type ty r)) as Hp' by (rewrite Hsame; done).
        exists tr', keep, e, un. split_and!; [done|done| |].
        { intros q Hq. rewrite Hsame by set_solver. unfold tr1. apply list_lookup_alter_ne. set_solver. }
        assert (resolved_type d (at_refs tr') p) as Hres by (exists r, obj, ty; done).
        destruct e as [[[]| |]|]; cbn [type_pass] in Hpass |- *; try done.
        -- destruct Hpass as (q & r' & ? & ?). exists q, r'. set_solver.
        -- destruct Hpass as (q & r' & ? & ?). exists q, r'. set_solver.
        -- destruct Hpass as [Hk Hok]. split.
           ++ intros q. rewrite Hk, elem_of_cons. naive_solver.
           ++ intros q [[= ->]|Hq]%elem_of_cons Hdq; [|by apply Hok].
              split; [done|]. cbn. intros r' Hr'. congruence.
      * exists tr1, [], (Some (TypeUseError e)), acc. split_and!; try done.
        { intros q Hq. unfold tr1. apply list_lookup_alter_ne. set_solver. }
        exists p, (set_resolved_type ty r). split_and!; try done; [set_solver|].
        exists r, obj, ty. done.
      * exfalso. unfold validateAfterResolution, set_resolved_type in Hval. cbn in Hval.
        repeat case_match; discriminate.
    + exists tr, [], (Some (TypeKindError (WrongKind (identifier r) obj))), (padded acc total).
      split_and!; try done. exists p, r. split_and!; try done. set_solver.
    + destruct (IH tr (acc ++ [Some p]) total Hnd Hvalid') as (tr' & keep & e & un & Hloop & Hun & Hsame & Hpass).
      { intros q Hq. apply Htr. set_solver. }
      exists tr', (Some p :: keep), e, un. split_and!; [done| | |].
      { intros He. rewrite Hun by done. by rewrite <- app_assoc. }
      { intros q Hq. apply Hsame. set_solver. }
      assert (undefined_type d p) as Hund by (exists r; done).
      destruct e as [[[]| |]|]; cbn [type_pass] in Hpass |- *; try done.
      * destruct Hpass as (q & r' & ? & ?). exists q, r'. set_solver.
      * destruct Hpass as (q & r' & ? & ?). exists q, r'. set_solver.
      * destruct Hpass as [Hk Hok]. split.
        -- intros q. rewrite !elem_of_cons, Hk. naive_solver.
        -- intros q [[= ->]|Hq]%elem_of_cons Hdq; [done|]. by apply Hok.
  - apply NoDup_cons in Hnd as [Hp Hnd].
    destruct (IH tr acc total Hnd) as (tr' & keep & e & un & Hloop & Hun & Hsame & Hpass).
    { intros q Hq. apply Hvalid. set_solver. }
    { intros q Hq. apply Htr. set_solver. }
    exists tr', keep, e, un. split_and!; [done|done| |].
    { intros q Hq. apply Hsame. set_solver. }
    destruct e as [[[]| |]|]; cbn [type_pass] in Hpass |- *; set_solver.
Qed.
End TypePass.

Lemma resolveTypeReferences_run d :
  tree d -> objects_valid d -> NoDup (unresolvedTypeReferences d) ->
  type_refs_valid d (unresolvedTypeReferences d) ->
  exists d' un e, resolveTypeReferences d = (d', Ok (un, e)) /\
    d' = set_type_refs (typeRefs d') d /\
    type_pass d (unresolvedTypeReferences d) d' un e.
Proof.
  intros Ht Hv Hnd Hvalid. unfold resolveTypeReferences. rewrite bind_get.
  destruct (resolve_types_loop_spec d Ht Hv (unresolvedTypeReferences d) (typeRefs d) []
              (length (unresolvedTypeReferences d)) Hnd Hvalid) as (tr & keep & e & un & Hrun & Hun & _ & Hpass).
  { done. }
  change (set_type_refs (typeRefs d) d) with (mkMojomDescriptor (scopes d) (objects d) (mojomFiles d)
    (MojomFilesByName d) (abstractScopesByName d) (TypesByKey d) (ValuesByKey d) (typeRefs d)
    (valueRefs d) (unresolvedTypeReferences d) (unresolvedValueReferences d)) in Hrun.
  destruct d; cbn in *. exists (set_type_refs tr (mkMojomDescriptor scopes objects mojomFiles
    MojomFilesByName abstractScopesByName TypesByKey ValuesByKey typeRefs valueRefs
    unresolvedTypeReferences unresolvedValueReferences)), un, e.
  split; [exact Hrun|]. split; [done|].
  destruct e as [e|]; [done|]. by rewrite Hun.
Qed.

(** C7: On a well-formed descriptor resolveTypeReferences does not panic and changes only the references. Without an error, the references it returns are exactly those whose identifier names nothing, and every other one is resolved to the type its identifier names and passes validation; an error reports a reference that names something other than a type or one that is misused. *)
Theorem resolveTypeReferences_correct d :
  tree d -> objects_valid d -> NoDup (unresolvedTypeReferences d) ->
  type_refs_valid d (unresolvedTypeReferences d) ->
  exists d' un e, resolveTypeReferences d = (d', Ok (un, e)) /\
    d' = set_type_refs (typeRefs d') d /\
    type_pass d (unresolvedTypeReferences d) d' un e.
Proof. apply resolveTypeReferences_run. Qed.

(** ** Value passes *)
(** A call that writes nothing but the value reference [p]. *)
Definition framed {A} (p : nat) (m : RM A) : Prop :=
  forall d, let d' := (m d).1 in
    d' = set_value_refs (valueRefs d') d /\ forall q, q <> p -> valueRefs d' !! q = valueRefs d !! q.

Lemma set_value_refs_id d : d = set_value_refs (valueRefs d) d.
Proof. by destruct d. Qed.
Lemma framed_id {A} p (m : RM A) : (forall d, (m d).1 = d) -> framed p m.
Proof. intros H d. cbv zeta. rewrite H. split; [apply set_value_refs_id|done]. Qed.
Lemma framed_ret {A} p (a : A) : framed p (ret a).
Proof. by apply framed_id. Qed.
Lemma framed_panic {A} p : framed p (panic : RM A).
Proof. by apply framed_id. Qed.
Lemma framed_get p : framed p (get : RM MojomDescriptor).
Proof. by apply framed_id. Qed.
Lemma framed_must {A} p (o : option A) : framed p (must o).
Proof. apply framed_id. intros d. by destruct o. Qed.
Lemma framed_deref {A} p (t : MojomDescriptor -> list A) q : framed p (deref t q).
Proof. apply framed_id. intros d. unfold deref, must. by destruct (t d !! q). Qed.
Lemma framed_lookup p s n f : framed p (lookup_from s n f).
Proof. by destruct s; apply framed_id. Qed.
Lemma framed_update p f : framed p (update_value_ref p f).
Proof.
  intros d. split; [by destruct d|]. intros q Hq. cbn. by apply list_lookup_alter_ne.
Qed.
Lemma framed_bind {A B} p (m : RM A) (k : A -> RM B) :
  framed p m -> (forall a, framed p (k a)) -> framed p (bind m k).
Proof.
  intros Hm Hk d. pose proof (Hm d) as [H1 H2]. unfold bind.
  destruct (m d) as [d1 [a|e|]]; cbn [fst] in *; [|done|done].
  pose proof (Hk a d1) as [H3 H4]. split.
  - rewrite H3, H1. by destruct d.
  - intros q Hq. by rewrite H4, H2.
Qed.
Create HintDb framed.
#[export] Hint Resolve framed_ret framed_panic framed_get framed_must framed_deref framed_lookup
  framed_update : framed.
Ltac framed :=
  repeat first
    [ solve [auto with framed nocore]
    | apply framed_bind; [|intros ?]
    | case_match ].

Lemma framed_concrete p v : framed p (resolve_concrete p v).
Proof. unfold resolve_concrete. framed. Qed.
#[export] Hint Resolve framed_concrete : framed.
Lemma framed_special p : framed p (resolveSpecialEnumValueAssignment p).
Proof. unfold resolveSpecialEnumValueAssignment. framed. Qed.
#[export] Hint Resolve framed_special : framed.
Lemma framed_resolveValueRef p : framed p (resolveValueRef p).
Proof. unfold resolveValueRef. framed. Qed.

(** [p] is resolved in [d] to a value that passes validation. *)
Definition valid_value (d : MojomDescriptor) (p : nat) : Prop :=
  exists r v, valueRefs d !! p = Some r /\ deref_value_ref d r = Some v /\
    UserValueRef_validateAfterResolution v = Ok tt.

(** Types are read through the type references and the objects. *)
Definition same_types (d' d : MojomDescriptor) : Prop := typeRefs d' = typeRefs d /\ objects d' = objects d.
Lemma deref_type_ext d d' t : same_types d' d -> deref_type d' t = deref_type d t.
Proof.
  intros [Ht Ho]. induction t as [| | |n l e IH|n k IHk v IHv|p]; cbn [deref_type]; try done.
  - by rewrite IH.
  - by rewrite IHk, IHv.
  - unfold deref_user_type_ref, current_type, as_type. by rewrite Ht, Ho.
Qed.
Lemma valid_value_frame d d' p :
  same_types d' d -> valueRefs d' !! p = valueRefs d !! p -> valid_value d p -> valid_value d' p.
Proof.
  intros Ht Hp (r & v & Hr & Hd & Hv). exists r, v. rewrite Hp. split; [done|]. split; [|done].
  unfold deref_value_ref in *. by rewrite (deref_type_ext d d').
Qed.

Lemma resolve_values_loop_sound refs : forall d d' total acc un,
  NoDup refs -> resolve_values_loop refs total acc d = (d', Ok (un, None)) ->
  same_types d' d /\ (forall p, (Some p ∉ refs) -> valueRefs d' !! p = valueRefs d !! p) /\
  (exists keep, un = acc ++ keep /\ keep `sublist_of` refs) /\
  forall p, Some p ∈ refs -> Some p ∈ un \/ valid_value d' p.
Proof.
  induction refs as [|[p|] refs IH]; intros d d' total acc un Hnd; cbn [resolve_values_loop].
  - intros [= <- <-]. split_and!; try done; [exists []; by rewrite app_nil_r|set_solver].
  - apply NoDup_cons in Hnd as [Hp Hnd]. intros (d1 & err & Hres & Hrun)%bind_Ok.
    pose proof (framed_resolveValueRef p d) as [Hf1 Hf2]. rewrite Hres in Hf1, Hf2. cbn [fst] in Hf1, Hf2.
    assert (same_types d1 d) as Htr by (by rewrite Hf1).
    assert (forall d2, same_types d2 d1 -> same_types d2 d) as Htrans by (unfold same_types in *; intuition congruence).
    assert (forall q, (Some q ∉ Some p :: refs) -> valueRefs d1 !! q = valueRefs d !! q) as Hout.
    { intros q Hq. apply Hf2. set_solver. }
    destruct err as [[|id obj]|]; [|done|].
    + destruct (IH _ _ _ _ _ Hnd Hrun) as (H1 & H2 & (keep & -> & Hk) & H4). split_and!.
      * auto.
      * intros q Hq. rewrite H2, Hout; set_solver.
      * exists (Some p :: keep). rewrite <- app_assoc. split; [done|]. by constructor.
      * intros q [[= ->]|Hq]%elem_of_cons; [left; set_solver|auto].
    + apply bind_Ok in Hrun as (d2 & r & Hr & Hrun). unfold deref, must in Hr.
      destruct (valueRefs d1 !! p) as [r'|] eqn:Hp1; [|done]. injection Hr as <- ->.
      rewrite bind_get in Hrun. apply bind_Ok in Hrun as (d2 & v & Hv & Hrun). unfold must in Hv.
      destruct (deref_value_ref d1 r) as [v'|] eqn:Hd; [|done]. injection Hv as <- ->.
      destruct (UserValueRef_validateAfterResolution v) as [[]|e|] eqn:Hval; [|done|done].
      destruct (IH _ _ _ _ _ Hnd Hrun) as (H1 & H2 & (keep & -> & Hk) & H4). split_and!.
      * auto.
      * intros q Hq. rewrite H2, Hout; set_solver.
      * exists keep. split; [done|]. by constructor.
      * intros q [[= ->]|Hq]%elem_of_cons; [|auto]. right.
        apply (valid_value_frame d1 d'); [done|by apply H2|]. exists r, v. auto.
  - apply NoDup_cons in Hnd as [Hp Hnd]. intros Hrun.
    destruct (IH _ _ _ _ _ Hnd Hrun) as (H1 & H2 & (keep & -> & Hk) & H4). split_and!; try done.
    + intros q Hq. apply H2. set_solver.
    + exists keep. split; [done|]. by constructor.
    + intros q [?|Hq]%elem_of_cons; [done|auto].
Qed.

(** C24: A value pass that ends without an error leaves every reference of its list either in the list it returns or resolved to a concrete value that passes validation; it writes to no other reference. *)
Theorem resolveValueReferences_sound d d' un :
  NoDup (unresolvedValueReferences d) -> resolveValueReferences d = (d', Ok (un, None)) ->
  (forall p, Some p ∈ unresolvedValueReferences d -> Some p ∈ un \/ valid_value d' p) /\
  un `sublist_of` unresolvedValueReferences d /\
  (forall p, (Some p ∉ unresolvedValueReferences d) -> valueRefs d' !! p = valueRefs d !! p).
Proof.
  intros Hnd Hrun. unfold resolveValueReferences in Hrun. rewrite bind_get in Hrun.
  destruct (resolve_values_loop_sound _ _ _ _ _ _ Hnd Hrun) as (_ & H2 & (keep & -> & Hk) & H4). auto.
Qed.

(** ** The repetition *)
(** The repetition of value passes in Resolve terminates: while passes return (under any condition [P] that they maintain), it returns after at most as many passes as there were unresolved references, with no more unresolved references than before. *)
Theorem resolve_again_terminates (P : MojomDescriptor -> Prop) :
  (forall d, P d -> exists d' pass, resolveValueReferences d = (d', Ok pass) /\ P d') ->
  forall num unresolved d, P d ->
  exists d' un n, resolve_again num unresolved num d = (d', Ok (un, n)) /\ P d' /\ (n <= num)%nat.
Proof.
  intros Hpass.
  assert (forall fuel num unresolved d, (num <= fuel)%nat -> P d ->
    exists d' un n, resolve_again fuel unresolved num d = (d', Ok (un, n)) /\ P d' /\ (n <= num)%nat) as H.
  { induction fuel as [|fuel IH]; intros num unresolved d Hf HP.
    - assert (num = 0%nat) as -> by lia. exists d, unresolved, 0%nat. done.
    - destruct num as [|num]; [exists d, unresolved, 0%nat; done|].
      cbn [resolve_again]. destruct (Hpass d HP) as (d1 & pass & Hrun & HP1).
      rewrite (bind_run_ok _ _ _ _ _ Hrun). destruct (Nat.ltb_spec (length pass.1) (S num)) as [Hlt|Hge].
      + destruct (IH (length pass.1) pass.1 d1) as (d' & un & n & -> & ? & ?); [lia|done|].
        exists d', un, n. split; [done|]. split; [done|lia].
      + exists d1, pass.1, (S num). done. }
  intros num unresolved d HP. by apply H.
Qed.

(** ** Building concrete descriptors with the operations of the compiler *)
Definition root_scope : nat := 0.
Definition new_constant (name : string) (ty : TypeRefOf nat) (v : ValueRef) : DeclaredObject :=
  mkDeclaredObject (OConstant ty v) name zeroToken "" "" None.
Definition value_ref (name : string) (ty : TypeRefOf nat) (target : string) (scope : nat) : UserValueRef nat :=
  NewUserValueRef (mkAssigneeSpec name ty) target (Some scope) zeroToken.
(** A file of module "m" with the given constants and references, as the
    parser leaves it: scope 2 is the file's. *)
Definition parsed (constants : list DeclaredObject) (trefs : list UserTypeRef)
    (vrefs : list (UserValueRef nat)) : M MojomDescriptor DuplicateNameError unit :=
  let! f := AddMojomFile "m.mojom" "m.mojom" None in
  let! _ := InitializeFileScope f "m" in
  modify (set_objects constants) ;;;
  modify (fun d => set_type_refs trefs (set_value_refs vrefs d)) ;;;
  foldr (fun p k => file_add f p ;;; k) (ret tt) (seq 0 (length constants)) ;;;
  modify (fun d => foldl (fun d p => RegisterUnresolvedTypeReference p d) d (seq 0 (length trefs))) ;;;
  modify (fun d => foldl (fun d p => RegisterUnresolvedValueReference p d) d (seq 0 (length vrefs))).

(** const int8 A = B; const int16 B = C; const int16 C = 1000; *)
Definition forward_constants : MojomDescriptor * res DuplicateNameError unit :=
  parsed
    [new_constant "A" (TRSimple SimpleTypeInt8) (VRUser 0);
     new_constant "B" (TRSimple SimpleTypeInt16) (VRUser 1);
     new_constant "C" (TRSimple SimpleTypeInt16) (VRLiteral (MakeInt16LiteralValue 1000 None))]
    []
    [value_ref "A" (TRSimple SimpleTypeInt8) "B" 2; value_ref "B" (TRSimple SimpleTypeInt16) "C" 2]
    NewMojomDescriptor.
(** const Foo X = C; const int16 C = 1; *)
Definition undefined_constant_type : MojomDescriptor * res DuplicateNameError unit :=
  parsed
    [new_constant "X" (TRUser 0%nat) (VRUser 0);
     new_constant "C" (TRSimple SimpleTypeInt16) (VRLiteral (MakeInt16LiteralValue 1 None))]
    [NewUserTypeRef "Foo" false false (Some 2%nat) zeroToken]
    [value_ref "X" (TRUser 0%nat) "C" 2]
    NewMojomDescriptor.

(** The value a reference of [d] got, and the verdict on it. *)
Definition verdict (d : MojomDescriptor) (p : nat) : option (option ConcreteValue * bool) :=
  r ← valueRefs d !! p;
  v ← deref_value_ref d r;
  Some (resolvedConcreteValue v,
        match UserValueRef_validateAfterResolution v with Ok _ => true | _ => false end).

(** Resolve discards the validation error of a repeated pass: for [const int8 A = B; const int16 B = C; const int16 C = 1000;] it returns nil, although the reference that defines the int8 constant A has the value 1000 and fails validation. *)
Theorem Resolve_accepts_invalid_constant :
  forward_constants.2 = Ok tt /\
  let (d, r) := Resolve forward_constants.1 in
  r = Ok tt /\ verdict d 0 = Some (Some (CVLiteral (MakeInt16LiteralValue 1000 None)), false).
Proof. vm_compute. auto. Qed.

(** Resolve panics instead of reporting an undefined type when a constant of that type refers to a defined value, as in [const Foo X = C; const int16 C = 1;]: the type pass leaves the reference to Foo unresolved and the value pass validates against it. *)
Theorem Resolve_panics_on_undefined_type :
  undefined_constant_type.2 = Ok tt /\ (Resolve undefined_constant_type.1).2 = Panic /\
  (resolveTypeReferences undefined_constant_type.1).2 = Ok ([Some 0%nat], None).
Proof. vm_compute. auto. Qed.

Definition one_reference : MojomDescriptor :=
  RegisterUnresolvedTypeReference 0
    (set_type_refs [NewUserTypeRef "E" false false (Some 2%nat) zeroToken] example_descriptor).
Lemma resolveTypeReferences_correct_witness :
  exists d', resolveTypeReferences one_reference = (d', Ok ([Some 0%nat], None)) /\
    type_pass one_reference [Some 0%nat] d' [Some 0%nat] None.
Proof.
  destruct (resolveTypeReferences_correct one_reference) as (d' & un & e & Hrun & _ & Hpass).
  - apply (same_shape_tree example_descriptor); [reflexivity..|exact example_tree].
  - intros q n x. change (declared one_reference q n) with (declared example_descriptor q n).
    rewrite example_undeclared. discriminate.
  - vm_compute. repeat constructor. set_solver.
  - intros p Hp. change (Some p ∈ [Some 0%nat]) in Hp. apply list_elem_of_singleton in Hp as [= ->].
    eexists _, 2%nat. split; [reflexivity|]. split; [reflexivity|].
    change (is_Some (scopes example_descriptor !! 2%nat)). rewrite example_scope_lookup. eauto.
  - assert (un = [Some 0%nat] /\ e = None) as [-> ->].
    { vm_compute in Hrun. injection Hrun as _ <- <-. split; reflexivity. }
    exists d'. split; [exact Hrun|exact Hpass].
Defined.
Lemma resolveValueReferences_sound_witness :
  exists d', resolveValueReferences forward_constants.1 = (d', Ok ([Some 0%nat], None)) /\ valid_value d' 1.
Proof.
  destruct (resolveValueReferences forward_constants.1) as [d' r] eqn:E. exists d'.
  assert (r = Ok ([Some 0%nat], None)) as ->.
  { vm_compute in E. injection E as _ <-. reflexivity. }
  split; [reflexivity|].
  destruct (resolveValueReferences_sound forward_constants.1 d' [Some 0%nat]) as (H & _).
  - apply (bool_decide_unpack _). vm_compute. exact I.
  - exact E.
  - destruct (H 1%nat) as [Hin|Hval]; [| |exact Hval].
    + apply (bool_decide_unpack _). vm_compute. exact I.
    + apply list_elem_of_singleton in Hin. discriminate Hin.
Defined.
Lemma resolve_again_terminates_witness :
  exists d' un n, resolve_again 3 [] 3 NewMojomDescriptor = (d', Ok (un, n)) /\ (n <= 3)%nat.
Proof.
  destruct (resolve_again_terminates (fun d => unresolvedValueReferences d = [])) with
    (num := 3%nat) (unresolved := @nil (option nat)) (d := NewMojomDescriptor) as (d' & un & n & H & _ & Hn).
  - intros d Hd. exists d, ([], None). split; [|exact Hd].
    unfold resolveValueReferences. rewrite bind_get, Hd. reflexivity.
  - reflexivity.
  - exists d', un, n. split; [exact H|exact Hn].
Defined.
