(* ===== verification/UserDefined.v ===== *)
(** * User-defined types: compiler/core/user_defined_types.go

    Structs, interfaces and unions with their members, the Add* methods and
    the computation of ordinals and tags.  A pointer to a field or a method is
    its index in the lexical list of the type that owns it, which is also
    where its computed data is stored. *)
From stdpp Require Export sorting.
From S2P Require Export Scopes.

(** ** Declarations *)
Record DeclarationData := mkDeclarationData {
  dd_simpleName : string;
  dd_nameToken : Token;
  attributes : option Attributes;
  declaredOrdinal : Z;
  lexicalPosition : Z
}.
Definition DeclDataWithOrdinal (name : string) (nameToken : Token)
    (attributes : option Attributes) (declaredOrdinal : Z) : DeclarationData :=
  mkDeclarationData name nameToken attributes declaredOrdinal (-1).
Definition DeclData (name : string) (nameToken : Token)
    (attributes : option Attributes) : DeclarationData :=
  DeclDataWithOrdinal name nameToken attributes (-1).
Definition set_lexicalPosition (p : Z) (d : DeclarationData) : DeclarationData :=
  mkDeclarationData (dd_simpleName d) (dd_nameToken d) (attributes d) (declaredOrdinal d) p.

Definition attribute_list (d : DeclarationData) : list MojomAttribute :=
  match attributes d with Some a => List a | None => [] end.

Definition minVersionAttributeName : string := "MinVersion".
(** [value, literalValue, found, ok] of Go; the outer [None] is a panic on a
    literal whose value does not have its type. *)
Fixpoint find_minVersion (l : list MojomAttribute) : option (Z * LiteralValue * bool * bool) :=
  match l with
  | [] => Some (0, mkLiteralValue (LitString (mkStringType false)) (VString "") false None, false, false)
  | a :: l =>
    if bool_decide (Key a = minVersionAttributeName) then
      '(value, ok) ← uint32Value (attr_Value a);
      Some (value, attr_Value a, true, ok)
    else find_minVersion l
  end.
Definition minVersionAttribute (d : DeclarationData) : option (Z * LiteralValue * bool * bool) :=
  find_minVersion (attribute_list d).

Inductive OrdinalErrorKind : Type := ErrOrdinalRange | ErrOrdinalDuplicate.
#[export] Instance OrdinalErrorKind_eq_dec : EqDecision OrdinalErrorKind.
Proof. solve_decision. Defined.

(** ** Containers of declarations *)
(** The declared objects are pointers to the descriptor's objects. *)
Record NestedDeclarations := mkNestedDeclarations {
  nested_objects : list nat;
  closingBraceToken : option Token;
  containedScope : option nat;
  nested_Enums : list nat;
  nested_Constants : list nat
}.
Definition no_declarations : NestedDeclarations := mkNestedDeclarations [] None None [] [].
Definition SetClosingBraceToken (t : option Token) (c : NestedDeclarations) : NestedDeclarations :=
  mkNestedDeclarations (nested_objects c) t (containedScope c) (nested_Enums c) (nested_Constants c).
Definition set_containedScope (s : nat) (c : NestedDeclarations) : NestedDeclarations :=
  mkNestedDeclarations (nested_objects c) (closingBraceToken c) (Some s) (nested_Enums c) (nested_Constants c).
Definition nested_append (obj : nat) (c : NestedDeclarations) : NestedDeclarations :=
  mkNestedDeclarations (nested_objects c ++ [obj]) (closingBraceToken c) (containedScope c)
    (nested_Enums c) (nested_Constants c).
Definition add_nested_enum (obj : nat) (c : NestedDeclarations) : NestedDeclarations :=
  mkNestedDeclarations (nested_objects c ++ [obj]) (closingBraceToken c) (containedScope c)
    (nested_Enums c ++ [obj]) (nested_Constants c).
Definition add_nested_constant (obj : nat) (c : NestedDeclarations) : NestedDeclarations :=
  mkNestedDeclarations (nested_objects c ++ [obj]) (closingBraceToken c) (containedScope c)
    (nested_Enums c) (nested_Constants c ++ [obj]).
(** [NestedDeclarations.AddEnum] and [AddConstant]. *)
Definition Nested_AddEnum (obj : nat)
    : M (MojomDescriptor * NestedDeclarations) DuplicateNameError unit :=
  fun dc => let c := add_nested_enum obj dc.2 in
            let (d, r) := type_RegisterInScope obj (containedScope c) dc.1 in ((d, c), r).
Definition Nested_AddConstant (obj : nat)
    : M (MojomDescriptor * NestedDeclarations) DuplicateNameError unit :=
  fun dc => let c := add_nested_constant obj dc.2 in
            let (d, r) := value_RegisterInScope obj (containedScope c) dc.1 in ((d, c), r).

(** ** Structs *)
(** [R] is the reference to a user-defined type in the type of a member, as in
    [TypeRefOf]: the descriptor's objects hold pointers. *)
Section Types.
Context {R : Type}.

Record StructVersion := mkStructVersion { VersionNumber : Z; NumFields : Z; NumBytes : Z }.
Record StructField := mkStructField {
  f_decl : DeclarationData;
  FieldType : TypeRefOf R;
  DefaultValue : option ValueRef;
  f_minVersion : Z;
  offset : Z;
  bit : Z
}.
Definition NewStructField (declData : DeclarationData) (fieldType : TypeRefOf R)
    (defaultValue : option ValueRef) : StructField :=
  mkStructField declData fieldType defaultValue (-1) (-1) (-1).

Record MojomStruct := mkMojomStruct {
  s_decl : DeclarationData;
  structType : StructType;
  fieldsByName : gmap string nat;
  FieldsInLexicalOrder : list StructField;
  fieldsInOrdinalOrder : option (list (option nat));
  versionInfo : option (list StructVersion);
  userFacingName : string;
  s_nested : NestedDeclarations
}.
Definition NewMojomStruct (declData : DeclarationData) : MojomStruct :=
  mkMojomStruct declData StructTypeRegular ∅ [] None None (dd_simpleName declData) no_declarations.
Definition requestSuffix : string := "-request".
Definition responseSuffix : string := "-response".
Definition NewSyntheticRequestStruct (methodName : string) (nameToken : Token) : MojomStruct :=
  let s := NewMojomStruct (DeclData (methodName +:+ requestSuffix) nameToken None) in
  mkMojomStruct (s_decl s) StructTypeSyntheticRequest (fieldsByName s) (FieldsInLexicalOrder s)
    (fieldsInOrdinalOrder s) (versionInfo s) methodName (s_nested s).
Definition NewSyntheticResponseStruct (methodName : string) (nameToken : Token) : MojomStruct :=
  let s := NewMojomStruct (DeclData (methodName +:+ responseSuffix) nameToken None) in
  mkMojomStruct (s_decl s) StructTypeSyntheticResponse (fieldsByName s) (FieldsInLexicalOrder s)
    (fieldsInOrdinalOrder s) (versionInfo s) methodName (s_nested s).

Definition set_fields (names : gmap string nat) (fields : list StructField) (s : MojomStruct)
    : MojomStruct :=
  mkMojomStruct (s_decl s) (structType s) names fields (fieldsInOrdinalOrder s) (versionInfo s)
    (userFacingName s) (s_nested s).
Definition set_ordinal_order (o : list (option nat)) (s : MojomStruct) : MojomStruct :=
  mkMojomStruct (s_decl s) (structType s) (fieldsByName s) (FieldsInLexicalOrder s) (Some o)
    (versionInfo s) (userFacingName s) (s_nested s).
Definition set_versionInfo (v : list StructVersion) (s : MojomStruct) : MojomStruct :=
  mkMojomStruct (s_decl s) (structType s) (fieldsByName s) (FieldsInLexicalOrder s)
    (fieldsInOrdinalOrder s) (Some v) (userFacingName s) (s_nested s).
Definition set_struct_nested (c : NestedDeclarations) (s : MojomStruct) : MojomStruct :=
  mkMojomStruct (s_decl s) (structType s) (fieldsByName s) (FieldsInLexicalOrder s)
    (fieldsInOrdinalOrder s) (versionInfo s) (userFacingName s) c.
Definition update_field {E} (i : nat) (f : StructField -> StructField) : M MojomStruct E unit :=
  modify (fun s => set_fields (fieldsByName s) (alter f i (FieldsInLexicalOrder s)) s).

(** [FieldsInOrdinalOrder] and [VersionInfo] panic before they are computed. *)
Definition FieldsInOrdinalOrder (s : MojomStruct) : option (list (option nat)) :=
  fieldsInOrdinalOrder s.
Definition VersionInfo (s : MojomStruct) : option (list StructVersion) := versionInfo s.

(** The new member of a struct has the given address among the declared
    objects of the descriptor.  The type and container of the message follow
    the kind of struct. *)
Inductive AddError : Type :=
| DuplicateMember (duplicateObjectType containerType containerName : string)
| DuplicateName (e : DuplicateNameError).
Definition in_descriptor {S A} (m : M MojomDescriptor DuplicateNameError A)
    : M (MojomDescriptor * S) AddError A :=
  fun ds => match m ds.1 with
            | (d, Ok a) => ((d, ds.2), Ok a)
            | (d, Err e) => ((d, ds.2), Err (DuplicateName e))
            | (d, Panic) => ((d, ds.2), Panic)
            end.
Definition add_field (obj : nat) (field : StructField) (s : MojomStruct) : MojomStruct :=
  let n := length (FieldsInLexicalOrder s) in
  set_struct_nested (nested_append obj (s_nested s)) (set_fields (<[dd_simpleName (f_decl field) := n]> (fieldsByName s))
    (FieldsInLexicalOrder s ++
     [mkStructField (set_lexicalPosition (i32 (Z.of_nat n)) (f_decl field)) (FieldType field)
        (DefaultValue field) (f_minVersion field) (offset field) (bit field)]) s).
Definition AddField (field : StructField) (obj : nat)
    : M (MojomDescriptor * MojomStruct) AddError unit :=
  let! ds := get in
  let s := ds.2 in
  match fieldsByName s !! dd_simpleName (f_decl field) with
  | Some _ =>
    match structType s with
    | StructTypeRegular => throw (DuplicateMember "field" "struct" (userFacingName s))
    | StructTypeSyntheticRequest => throw (DuplicateMember "request parameter" "method" (userFacingName s))
    | StructTypeSyntheticResponse => throw (DuplicateMember "response parameter" "method" (userFacingName s))
    end
  | None =>
    (if bool_decide (structType s = StructTypeRegular)
     then in_descriptor (field_RegisterInScope obj (containedScope (s_nested s)))
     else ret tt) ;;;
    modify (fun ds => (ds.1, add_field obj field ds.2))
  end.

(** ** Ordinals *)
(** StructFieldOrdinalError, MethodOrdinalError and UnionFieldTagOrdinalError
    have the same fields; members are pointers. *)
Record OrdinalError := mkOrdinalError {
  Ord : Z;
  ContainerName : string;
  Member : nat;
  ExistingMember : option nat;
  OrdErr : OrdinalErrorKind
}.

(** The loop of [ComputeFieldOrdinals] over the fields from index [i] on. *)
Fixpoint field_ordinals_loop (fields : list StructField) (i : nat) (numFields nextOrdinal : Z)
    : M MojomStruct OrdinalError unit :=
  match fields with
  | [] => ret tt
  | field :: fields =>
    let! s := get in
    let name := dd_simpleName (s_decl s) in
    let declared := declaredOrdinal (f_decl field) in
    if (0 <=? declared) && (MaxUint32 <=? declared)
    then throw (mkOrdinalError declared name i None ErrOrdinalRange)
    else
      let fieldOrdinal := if 0 <=? declared then u32 declared else nextOrdinal in
      if numFields <=? fieldOrdinal
      then throw (mkOrdinalError fieldOrdinal name i None ErrOrdinalRange)
      else
        let! order := must (fieldsInOrdinalOrder s) in
        let! existingField := must (index order fieldOrdinal) in
        match existingField with
        | Some _ => throw (mkOrdinalError fieldOrdinal name i existingField ErrOrdinalDuplicate)
        | None =>
          let! order := must (store order fieldOrdinal (Some i)) in
          modify (set_ordinal_order order) ;;;
          field_ordinals_loop fields (S i) numFields (u32 (fieldOrdinal + 1))
        end
  end.
Definition ComputeFieldOrdinals : M MojomStruct OrdinalError unit :=
  let! s := get in
  let fields := FieldsInLexicalOrder s in
  let numFields := u32 (len fields) in
  modify (set_ordinal_order (replicate (Z.to_nat numFields) None)) ;;;
  field_ordinals_loop fields 0 numFields 0.

(** [sort.Sort(utils.UInt32Slice(s))]: the sorted rearrangement of integers
    is unique, whatever the algorithm. *)
Definition sort_uint32 (l : list Z) : list Z := merge_sort Z.le l.

(** ** Interfaces *)
Record MojomMethod := mkMojomMethod {
  m_decl : DeclarationData;
  Ordinal : Z;
  Parameters : option MojomStruct;
  ResponseParameters : option MojomStruct;
  m_minVersion : Z
}.
Definition NewMojomMethod (declData : DeclarationData) (params responseParams : option MojomStruct)
    : MojomMethod :=
  mkMojomMethod declData 0 params responseParams (-1).
Record MojomInterface := mkMojomInterface {
  i_decl : DeclarationData;
  MethodsByOrdinal : gmap Z nat;
  methodsByName : gmap string nat;
  methodsByLexicalOrder : list MojomMethod;
  ServiceName : option string;
  versionNumber : Z;
  methodsInOrdinalOrder : option (list (option nat));
  i_nested : NestedDeclarations
}.
(** The first attribute "ServiceName" with a string value. *)
Fixpoint find_ServiceName (l : list MojomAttribute) : option string :=
  match l with
  | [] => None
  | a :: l =>
    if bool_decide (Key a = "ServiceName") then
      match value (attr_Value a) with
      | VString s => Some s
      | _ => find_ServiceName l
      end
    else find_ServiceName l
  end.
Definition NewMojomInterface (declData : DeclarationData) : MojomInterface :=
  mkMojomInterface declData ∅ ∅ [] (find_ServiceName (attribute_list declData)) (-1) None no_declarations.

Definition set_methods (byName : gmap string nat) (ms : list MojomMethod) (i : MojomInterface)
    : MojomInterface :=
  mkMojomInterface (i_decl i) (MethodsByOrdinal i) byName ms (ServiceName i) (versionNumber i)
    (methodsInOrdinalOrder i) (i_nested i).
Definition set_byOrdinal (m : gmap Z nat) (i : MojomInterface) : MojomInterface :=
  mkMojomInterface (i_decl i) m (methodsByName i) (methodsByLexicalOrder i) (ServiceName i)
    (versionNumber i) (methodsInOrdinalOrder i) (i_nested i).
Definition set_method_order (o : list (option nat)) (i : MojomInterface) : MojomInterface :=
  mkMojomInterface (i_decl i) (MethodsByOrdinal i) (methodsByName i) (methodsByLexicalOrder i)
    (ServiceName i) (versionNumber i) (Some o) (i_nested i).
Definition set_interface_nested (c : NestedDeclarations) (i : MojomInterface) : MojomInterface :=
  mkMojomInterface (i_decl i) (MethodsByOrdinal i) (methodsByName i) (methodsByLexicalOrder i)
    (ServiceName i) (versionNumber i) (methodsInOrdinalOrder i) c.
Definition update_method {E} (p : nat) (f : MojomMethod -> MojomMethod) : M MojomInterface E unit :=
  modify (fun i => set_methods (methodsByName i) (alter f p (methodsByLexicalOrder i)) i).
Definition set_Ordinal (o : Z) (m : MojomMethod) : MojomMethod :=
  mkMojomMethod (m_decl m) o (Parameters m) (ResponseParameters m) (m_minVersion m).

Definition add_method (obj : nat) (method : MojomMethod) (i : MojomInterface) : MojomInterface :=
  let n := length (methodsByLexicalOrder i) in
  set_interface_nested (nested_append obj (i_nested i)) (set_methods (<[dd_simpleName (m_decl method) := n]> (methodsByName i))
    (methodsByLexicalOrder i ++
     [mkMojomMethod (set_lexicalPosition (i32 (Z.of_nat n)) (m_decl method)) (Ordinal method)
        (Parameters method) (ResponseParameters method) (m_minVersion method)]) i).
Definition AddMethod (method : MojomMethod) (obj : nat)
    : M (MojomDescriptor * MojomInterface) AddError unit :=
  let! di := get in
  in_descriptor (method_RegisterInScope obj (containedScope (i_nested di.2))) ;;;
  modify (fun di => (di.1, add_method obj method di.2)).

(** The first loop of [ComputeMethodOrdinals]; returns [methodOrdinals] from
    index [i] on. *)
Fixpoint method_ordinals_loop (methods : list MojomMethod) (i : nat) (nextOrdinal : Z)
    : M MojomInterface OrdinalError (list Z) :=
  match methods with
  | [] => ret []
  | method :: methods =>
    let! intrfc := get in
    let name := dd_simpleName (i_decl intrfc) in
    let declared := declaredOrdinal (m_decl method) in
    if (0 <=? declared) && (MaxUint32 <=? declared)
    then throw (mkOrdinalError declared name i None ErrOrdinalRange)
    else
      let ordinal := if declared <? 0 then nextOrdinal else u32 declared in
      update_method i (set_Ordinal ordinal) ;;;
      match MethodsByOrdinal intrfc !! ordinal with
      | Some existing => throw (mkOrdinalError ordinal name i (Some existing) ErrOrdinalDuplicate)
      | None =>
        modify (fun intrfc => set_byOrdinal (<[ordinal := i]> (MethodsByOrdinal intrfc)) intrfc) ;;;
        let! rest := method_ordinals_loop methods (S i) (u32 (ordinal + 1)) in
        ret (ordinal :: rest)
      end
  end.
Definition ComputeMethodOrdinals : M MojomInterface OrdinalError unit :=
  let! intrfc := get in
  let! methodOrdinals := method_ordinals_loop (methodsByLexicalOrder intrfc) 0 0 in
  let! intrfc := get in
  let sorted := sort_uint32 methodOrdinals in
  modify (set_method_order (map (fun o => MethodsByOrdinal intrfc !! o) sorted)).

(** ** Unions *)
Record UnionField := mkUnionField { u_decl : DeclarationData; u_FieldType : TypeRefOf R; Tag : Z }.
Record MojomUnion := mkMojomUnion {
  un_decl : DeclarationData;
  un_fieldsByName : gmap string nat;
  un_FieldsInLexicalOrder : list UnionField;
  fieldsInTagOrder : option (list (option nat));
  union_closingBrace : option Token
}.
Definition NewMojomUnion (declData : DeclarationData) : MojomUnion :=
  mkMojomUnion declData ∅ [] None None.
Definition set_union_fields (names : gmap string nat) (fields : list UnionField) (u : MojomUnion)
    : MojomUnion :=
  mkMojomUnion (un_decl u) names fields (fieldsInTagOrder u) (union_closingBrace u).
Definition set_union_closingBrace (t : option Token) (u : MojomUnion) : MojomUnion :=
  mkMojomUnion (un_decl u) (un_fieldsByName u) (un_FieldsInLexicalOrder u) (fieldsInTagOrder u) t.
Definition Union_AddField (declData : DeclarationData) (fieldType : TypeRefOf R)
    : M MojomUnion AddError unit :=
  let! u := get in
  let name := dd_simpleName declData in
  match un_fieldsByName u !! name with
  | Some _ => throw (DuplicateMember "field" "union" (dd_simpleName (un_decl u)))
  | None =>
    let n := length (un_FieldsInLexicalOrder u) in
    modify (set_union_fields (<[name := n]> (un_fieldsByName u))
              (un_FieldsInLexicalOrder u ++
               [mkUnionField (set_lexicalPosition (i32 (Z.of_nat n)) declData) fieldType 0]))
  end.
Definition update_union_field {E} (p : nat) (f : UnionField -> UnionField) : M MojomUnion E unit :=
  modify (fun u => set_union_fields (un_fieldsByName u) (alter f p (un_FieldsInLexicalOrder u)) u).
Definition set_Tag (t : Z) (f : UnionField) : UnionField :=
  mkUnionField (u_decl f) (u_FieldType f) t.

(** The first loop of [ComputeFieldTags]; returns [fieldsByTag] and [allTags]
    from index [i] on. *)
Fixpoint field_tags_loop (fields : list UnionField) (i : nat) (previousTag : Z)
    (fieldsByTag : gmap Z nat) : M MojomUnion OrdinalError (gmap Z nat * list Z) :=
  match fields with
  | [] => ret (fieldsByTag, [])
  | field :: fields =>
    let! u := get in
    let name := dd_simpleName (un_decl u) in
    let declared := declaredOrdinal (u_decl field) in
    if (0 <=? declared) && (MaxUint32 <=? declared)
    then throw (mkOrdinalError declared name i None ErrOrdinalRange)
    else if (declared <? 0) && ((MaxUint32 - 1 <=? previousTag) && (0 <? i)%nat)
    then throw (mkOrdinalError (previousTag + 1) name i None ErrOrdinalRange)
    else
      let fieldTag := if 0 <=? declared then u32 declared else u32 (previousTag + 1) in
      match fieldsByTag !! fieldTag with
      | Some existing => throw (mkOrdinalError fieldTag name i (Some existing) ErrOrdinalDuplicate)
      | None =>
        update_union_field i (set_Tag fieldTag) ;;;
        let! rest := field_tags_loop fields (S i) fieldTag (<[fieldTag := i]> fieldsByTag) in
        ret (rest.1, fieldTag :: rest.2)
      end
  end.
Definition ComputeFieldTags : M MojomUnion OrdinalError unit :=
  let! u := get in
  let! tags := field_tags_loop (un_FieldsInLexicalOrder u) 0 MaxUint32 ∅ in
  let sorted := sort_uint32 tags.2 in
  modify (fun u => mkMojomUnion (un_decl u) (un_fieldsByName u) (un_FieldsInLexicalOrder u)
                     (Some (map (fun t => tags.1 !! t) sorted)) (union_closingBrace u)).
End Types.
Arguments StructField R : clear implicits.
Arguments MojomStruct R : clear implicits.
Arguments MojomMethod R : clear implicits.
Arguments MojomInterface R : clear implicits.
Arguments UnionField R : clear implicits.
Arguments MojomUnion R : clear implicits.

(** ** Enums *)
(** [ComputedIntValue] is [None] while [IntValueComputed] is false. *)
Record MojomEnumValue := mkMojomEnumValue {
  ev_decl : DeclarationData;
  initializer : option ValueRef;
  valueIndex : Z;
  ComputedIntValue : option Z
}.
Record MojomEnum := mkMojomEnum {
  e_decl : DeclarationData;
  Values : list MojomEnumValue;
  scopeForValues : option nat;
  enum_objects : list nat;
  enum_closingBrace : option Token
}.
Definition NewMojomEnum (declData : DeclarationData) : MojomEnum := mkMojomEnum declData [] None [] None.
Definition set_values (vs : list MojomEnumValue) (e : MojomEnum) : MojomEnum :=
  mkMojomEnum (e_decl e) vs (scopeForValues e) (enum_objects e) (enum_closingBrace e).
Definition set_scopeForValues (s : nat) (e : MojomEnum) : MojomEnum :=
  mkMojomEnum (e_decl e) (Values e) (Some s) (enum_objects e) (enum_closingBrace e).
Definition set_enum_closingBrace (t : option Token) (e : MojomEnum) : MojomEnum :=
  mkMojomEnum (e_decl e) (Values e) (scopeForValues e) (enum_objects e) t.
(** [obj] is the address of the new value. *)
Definition AddEnumValue (declData : DeclarationData) (valueRef : option ValueRef) (obj : nat)
    : M (MojomDescriptor * MojomEnum) DuplicateNameError unit :=
  fun de =>
    let e := de.2 in
    let v := mkMojomEnumValue declData valueRef (u32 (len (Values e))) None in
    let e := mkMojomEnum (e_decl e) (Values e ++ [v]) (scopeForValues e) (enum_objects e ++ [obj])
               (enum_closingBrace e) in
    match scopeForValues e with
    | None => ((de.1, e), Ok tt)
    | Some scope => let (d, r) := value_RegisterInScope obj (Some scope) de.1 in ((d, e), r)
    end.
