(* ===== verification/UserDefinedSpec.v ===== *)
(** * Correctness of ordinals and tags

    The ordinals the declarations ask for are the list [assigned]: the
    declared ordinal, or one more than the previous member's.  The three
    computations are specified against it: when they succeed, which member an
    error names, and the order of the members. *)
From S2P Require Export ScopesSpec UserDefined.

#[local] Set Warnings "-clear-no-such-hyp".

Fixpoint assigned (next : Z) (declared : list Z) : list Z :=
  match declared with
  | [] => []
  | d :: declared => let o := if 0 <=? d then d else next in o :: assigned (o + 1) declared
  end.
(** Method ordinals continue modulo 2^32. *)
Fixpoint assigned_wrapping (next : Z) (declared : list Z) : list Z :=
  match declared with
  | [] => []
  | d :: declared => let o := if 0 <=? d then d else next in o :: assigned_wrapping (u32 (o + 1)) declared
  end.

(** [order] lists the members by increasing ordinal, each by its index. *)
Definition in_order (os : list Z) (order : list (option nat)) : Prop :=
  exists sorted, sorted ≡ₚ os /\ StronglySorted Z.lt sorted /\
    Forall2 (fun o p => exists i, p = Some i /\ os !! i = Some o) sorted order.
(** The error names the first member whose ordinal, among those [cs] that are
    checked, is not below [bound], or is that of an earlier member; the members
    before it are in range and distinct. *)
Definition ordinal_error (cs os : list Z) (bound : Z) (e : OrdinalError) : Prop :=
  os !! Member e = Some (Ord e) /\
  match OrdErr e with
  | ErrOrdinalRange => cs !! Member e = Some (Ord e) /\ bound <= Ord e
  | ErrOrdinalDuplicate =>
    exists j, (j < Member e)%nat /\ ExistingMember e = Some j /\ os !! j = Some (Ord e)
  end /\
  NoDup (take (Member e) os) /\ Forall (fun c => c < bound) (take (Member e) cs).
Definition all_below (bound : Z) (os : list Z) : Prop := Forall (fun o => 0 <= o < bound) os.

Lemma ordinal_error_here cs os bound c crest o rest e :
  Member e = length os -> Ord e = o -> length cs = length os -> NoDup os -> Forall (fun c => c < bound) cs ->
  match OrdErr e with
  | ErrOrdinalRange => c = o /\ bound <= o
  | ErrOrdinalDuplicate => exists j, ExistingMember e = Some j /\ os !! j = Some o
  end ->
  ordinal_error (cs ++ c :: crest) (os ++ o :: rest) bound e.
Proof.
  intros Hm <- Hl Hnd Hb He. unfold ordinal_error. rewrite Hm, take_app_length, take_app_length' by done.
  split; [by apply list_lookup_middle|]. split; [|done]. destruct (OrdErr e).
  - destruct He as [-> ?]. split; [by apply list_lookup_middle|done].
  - destruct He as (j & He & Hj). exists j. pose proof (lookup_lt_Some _ _ _ Hj).
    split_and!; [done..|by apply lookup_app_l_Some].
Qed.

(** ** Lists of distinct ordinals *)
Lemma all_below_snoc bound os o :
  all_below bound os -> 0 <= o < bound -> all_below bound (os ++ [o]).
Proof. intros H ?. apply Forall_app. split; [done|by constructor]. Qed.
Lemma NoDup_snoc {A} (l : list A) x : NoDup l -> (x ∉ l) -> NoDup (l ++ [x]).
Proof. intros ? ?. apply NoDup_app. split_and!; [done|set_solver|apply NoDup_singleton]. Qed.
Lemma lookup_snoc_iff {A} (l : list A) x i y :
  (l ++ [x]) !! i = Some y <-> l !! i = Some y \/ (i = length l /\ x = y).
Proof.
  rewrite lookup_app_Some. split; intros [?|[? H]]; auto.
  - apply list_lookup_singleton_Some in H as [? ->]. right. split; [lia|done].
  - subst. right. split; [lia|]. by rewrite Nat.sub_diag.
Qed.

Lemma sort_uint32_perm l : sort_uint32 l ≡ₚ l.
Proof. apply merge_sort_Permutation. Qed.
Lemma sort_uint32_sorted l : NoDup l -> StronglySorted Z.lt (sort_uint32 l).
Proof.
  intros Hnd.
  assert (StronglySorted Z.le (sort_uint32 l)) as Hs by (apply StronglySorted_merge_sort; apply _).
  assert (NoDup (sort_uint32 l)) as Hn by by rewrite sort_uint32_perm.
  induction Hs as [|x k Hs IH Hx]; [constructor|]. apply NoDup_cons in Hn as [Hxk Hn].
  constructor; [by apply IH|]. rewrite Forall_forall in Hx |- *. intros y Hy.
  specialize (Hx y Hy). assert (x <> y) by (intros ->; done). lia.
Qed.

(** The map from the distinct ordinals [os] to the members that have them. *)
Definition indexes (os : list Z) (m : gmap Z nat) : Prop :=
  forall o i, m !! o = Some i <-> os !! i = Some o.
Lemma indexes_snoc os m o :
  indexes os m -> m !! o = None -> indexes (os ++ [o]) (<[o := length os]> m).
Proof.
  intros Hm Ho o' i. rewrite lookup_snoc_iff, lookup_insert_Some, (Hm o' i). split.
  - intros [[<- <-]|[? ?]]; auto.
  - intros [H|[-> ->]]; [|auto]. right. split; [|done]. intros <-. apply Hm in H. congruence.
Qed.
Lemma indexes_None os m o : indexes os m -> m !! o = None -> o ∉ os.
Proof. intros Hm Ho [i Hi]%list_elem_of_lookup. apply Hm in Hi. congruence. Qed.
Lemma indexes_in_order os m :
  indexes os m -> NoDup os -> in_order os (map (fun o => m !! o) (sort_uint32 os)).
Proof.
  intros Hm Hnd. exists (sort_uint32 os). split; [apply sort_uint32_perm|].
  split; [by apply sort_uint32_sorted|]. apply Forall2_fmap_r, Forall_Forall2_diag, Forall_forall.
  intros o Ho. rewrite sort_uint32_perm in Ho. apply list_elem_of_lookup in Ho as [i Hi].
  exists i. split; [by apply Hm|done].
Qed.

(** ** Structs *)
Section Declarations.
Context {R : Type}.
#[local] Abbreviation StructField := (StructField R).
#[local] Abbreviation MojomStruct := (MojomStruct R).
#[local] Abbreviation MojomMethod := (MojomMethod R).
#[local] Abbreviation MojomInterface := (MojomInterface R).
#[local] Abbreviation UnionField := (UnionField R).
#[local] Abbreviation MojomUnion := (MojomUnion R).

Definition field_declared (s : MojomStruct) : list Z :=
  map (fun f : StructField => declaredOrdinal (f_decl f)) (FieldsInLexicalOrder s).

(** What the slots of the ordinal order hold after the ordinals [os]. *)
Definition placed (n : Z) (os : list Z) (order : list (option nat)) : Prop :=
  len order = n /\ forall o, 0 <= o < n ->
    exists p, index order o = Some p /\ forall i, p = Some i <-> os !! i = Some o.

Lemma placed_snoc n os order order' o :
  placed n os order -> index order o = Some None -> store order o (Some (length os)) = Some order' ->
  placed n (os ++ [o]) order'.
Proof.
  intros [Hl Hp] Ho Hst. split; [by rewrite (length_store _ _ _ _ Hst)|].
  intros o' Ho'. rewrite (index_store _ _ _ o' _ Hst). destruct (Hp o' Ho') as (p & Hi & Hiff).
  destruct (Z.eqb_spec o o') as [<-|Hne].
  - exists (Some (length os)). split; [done|]. intros i. rewrite lookup_snoc_iff.
    assert (p = None) as -> by congruence. specialize (Hiff i). split; [intros [= <-]; auto|].
    intros [H|[-> _]]; [|done]. by apply Hiff in H.
  - exists p. split; [done|]. intros i. rewrite Hiff, lookup_snoc_iff. naive_solver.
Qed.
Lemma placed_fresh n os order o :
  placed n os order -> index order o = Some None -> o ∉ os.
Proof.
  intros [Hl Hp] Ho [i Hi]%list_elem_of_lookup.
  destruct (Hp o) as (p & Hi' & Hiff); [apply index_inv in Ho; lia|].
  assert (p = None) as -> by congruence. by apply Hiff in Hi.
Qed.
Lemma StronglySorted_seqZ m n : StronglySorted Z.lt (seqZ m n).
Proof.
  destruct (Z.le_gt_cases 0 n) as [Hn|Hn]; [|rewrite seqZ_nil by lia; constructor].
  revert m. pattern n. apply natlike_ind; [constructor|clear n Hn|done].
  intros n Hn IH m. rewrite seqZ_cons, Z.pred_succ by lia. constructor; [apply IH|].
  apply Forall_forall. intros o ?%elem_of_seqZ. lia.
Qed.
Lemma NoDup_below_perm n os :
  NoDup os -> all_below n os -> len os = n -> os ≡ₚ seqZ 0 n.
Proof.
  intros Hnd Hb Hl. apply submseteq_length_Permutation.
  - apply NoDup_submseteq; [done|]. intros o Ho. apply elem_of_seqZ.
    eapply Forall_forall in Hb; [|exact Ho]. lia.
  - rewrite length_seqZ. lia.
Qed.
Lemma placed_in_order n os order :
  placed n os order -> NoDup os -> all_below n os -> len os = n -> in_order os order.
Proof.
  intros [Hl Hp] Hnd Hb Hn. pose proof (NoDup_below_perm n os Hnd Hb Hn) as Hperm.
  exists (seqZ 0 n). split; [done|]. split.
  - apply StronglySorted_seqZ.
  - apply Forall2_same_length_lookup_2; [rewrite length_seqZ; lia|].
    intros k o p Ho Hk. apply lookup_seqZ in Ho as [Ho Hlt].
    destruct (Hp o) as (p' & Hi & Hiff); [lia|].
    assert (p' = p) as ->.
    { unfold index in Hi. rewrite (proj2 (Z.leb_le 0 o)) in Hi by lia.
      replace (Z.to_nat o) with k in Hi by lia. congruence. }
    assert (o ∈ os) as [i Hi']%list_elem_of_lookup by (rewrite Hperm; apply elem_of_seqZ; lia).
    exists i. split; [by apply Hiff|done].
Qed.

Lemma field_ordinals_loop_spec n fields : forall i next s order os,
  fieldsInOrdinalOrder s = Some order -> placed n os order -> i = length os ->
  NoDup os -> all_below n os -> 0 <= next <= n -> n < 2 ^ 32 ->
  let all := os ++ assigned next (map (fun f : StructField => declaredOrdinal (f_decl f)) fields) in
  exists order' r, field_ordinals_loop fields i n next s = (set_ordinal_order order' s, r) /\
    match r with
    | Ok _ => placed n all order' /\ NoDup all /\ all_below n all
    | Err e => ordinal_error all all n e /\ ContainerName e = dd_simpleName (s_decl s)
    | Panic => False
    end.
Proof.
  induction fields as [|f fields IH]; intros i next s order os Hs Hp -> Hnd Hb Hnext Hn;
    cbn [field_ordinals_loop assigned map].
  { exists order, (Ok tt). rewrite app_nil_r. split; [|done]. destruct s; cbn in *. by subst. }
  rewrite bind_get. set (d := declaredOrdinal (f_decl f)).
  set (o := if 0 <=? d then d else next).
  set (rest := assigned (o + 1) _). cbv zeta.
  assert (Forall (fun c => c < n) os) as Hlow by (eapply Forall_impl; [exact Hb|]; cbn; lia).
  assert (exists order', order' = order /\ s = set_ordinal_order order' s) as (? & -> & Hsame).
  { exists order. split; [done|]. destruct s; cbn in *. by subst. }
  assert (forall e, Member e = length os -> Ord e = o -> OrdErr e = ErrOrdinalRange -> n <= o ->
    ordinal_error (os ++ o :: rest) (os ++ o :: rest) n e) as Hrange.
  { intros e H1 H2 H3 H4. apply ordinal_error_here; [done..|]. by rewrite H3. }
  destruct ((0 <=? d) && (MaxUint32 <=? d)) eqn:Hbig.
  { apply andb_prop in Hbig as [H0 Hbig%Z.leb_le].
    assert (o = d) as Ho by (unfold o; by rewrite H0).
    eexists order, _. split; [rewrite <- Hsame; reflexivity|]. split; [|done].
    apply Hrange; [done|by rewrite Ho|done|]. unfold MaxUint32 in Hbig. lia. }
  assert ((if 0 <=? d then u32 d else next) = o) as ->.
  { unfold o. destruct (Z.leb_spec 0 d); [|done]. cbn in Hbig. apply Z.leb_gt in Hbig.
    apply u32_small. unfold MaxUint32 in Hbig. lia. }
  assert (0 <= o) as Ho0 by (unfold o; destruct (Z.leb_spec 0 d); lia).
  destruct (Z.leb_spec n o) as [Hge|Hlt].
  { eexists order, _. split; [rewrite <- Hsame; reflexivity|]. split; [|done]. by apply Hrange. }
  pose proof Hp as [Hlen Hat']. rewrite Hs. cbn [must].
  destruct (Hat' o) as (p & Hidx & Hiff); [lia|].
  unfold bind at 1, must at 1. unfold bind at 1, must at 1. rewrite Hidx.
  destruct p as [j|].
  { eexists order, _. split; [rewrite <- Hsame; reflexivity|]. split; [|done].
    apply ordinal_error_here; [done..|]. exists j. split; [done|]. by apply Hiff. }
  assert (o ∉ os) as Hfresh by by eapply placed_fresh.
  destruct (store order o (Some (length os))) as [order1|] eqn:Hst.
  2:{ rewrite store_Some in Hst by lia. discriminate. }
  unfold bind at 1, must at 1. rewrite bind_modify, u32_small by lia.
  destruct (IH (S (length os)) (o + 1) (set_ordinal_order order1 s) order1 (os ++ [o]))
    as (order' & r & Hrun & Hr); try done; try lia.
  - by eapply placed_snoc.
  - rewrite length_app. cbn. lia.
  - by apply NoDup_snoc.
  - by apply all_below_snoc.
  - exists order', r. split; [exact Hrun|]. rewrite <- app_assoc in Hr. exact Hr.
Qed.

(** C25: ComputeFieldOrdinals succeeds exactly when the ordinals the declarations assign are distinct and below the number of fields; then fieldsInOrdinalOrder lists every field once, by increasing ordinal. Otherwise the error names the first field whose assigned ordinal is out of range or is that of an earlier field, which it also names. It never panics and changes nothing else. *)
Theorem ComputeFieldOrdinals_correct s :
  len (FieldsInLexicalOrder s) < 2 ^ 32 ->
  let os := assigned 0 (field_declared s) in
  let n := len (FieldsInLexicalOrder s) in
  exists order r, ComputeFieldOrdinals s = (set_ordinal_order order s, r) /\
    (r = Ok tt <-> NoDup os /\ all_below n os) /\
    match r with
    | Ok _ => in_order os order
    | Err e => ordinal_error os os n e
    | Panic => False
    end.
Proof.
  intros Hn os n. unfold ComputeFieldOrdinals. rewrite bind_get, bind_modify.
  rewrite u32_small by lia. fold n.
  set (order0 := replicate (Z.to_nat n) None).
  destruct (field_ordinals_loop_spec n (FieldsInLexicalOrder s) 0 0 (set_ordinal_order order0 s) order0 [])
    as (order & r & Hrun & Hr); try done; try (constructor; fail); try lia.
  - split; [unfold order0; rewrite length_replicate; lia|]. intros o Ho. exists None.
    split; [|done]. unfold index. rewrite (proj2 (Z.leb_le 0 o)) by lia.
    unfold order0. apply lookup_replicate_2. lia.
  - exists order, r. split; [exact Hrun|]. cbn [app] in Hr. fold (field_declared s) os in Hr.
    assert (len os = n) as Hlen.
    { unfold os, n, field_declared. clear. generalize 0. induction (FieldsInLexicalOrder s) as [|f l IH];
        intros k; [done|]. cbn [map assigned]. cbv zeta. rewrite !length_cons, !Nat2Z.inj_succ. by rewrite IH. }
    destruct r as [[]|e|]; [| |done].
    + destruct Hr as (Hp & Hnd & Hb). split; [done|]. by eapply placed_in_order.
    + destruct Hr as [He _]. split; [|done]. split; [done|]. intros [Hnd Hb]. exfalso.
      destruct He as (Hm & Hk & _). destruct (OrdErr e).
      * eapply Forall_lookup_1 in Hb; [|exact Hm]. cbn in Hb. lia.
      * destruct Hk as (j & Hj & _ & Hj'). pose proof (NoDup_lookup _ _ _ _ Hnd Hm Hj'). lia.
Qed.

(** ** Interfaces *)
(** The members before index [i] carry the values [os] computed for them. *)
Definition computed {A} (g : A -> Z) (l : list A) (os : list Z) : Prop :=
  g <$> take (length os) l = os.
Lemma computed_snoc {A} (g : A -> Z) (f : A -> A) l os o :
  computed g l os -> (forall x, g (f x) = o) -> (length os < length l)%nat ->
  computed g (alter f (length os) l) (os ++ [o]).
Proof.
  unfold computed. intros Hc Hf Hlt. destruct (lookup_lt_is_Some_2 l (length os) Hlt) as [x Hx].
  rewrite length_app. cbn [length]. rewrite Nat.add_1_r.
  rewrite (take_S_r _ _ (f x)) by by rewrite list_lookup_alter_eq, Hx.
  rewrite take_alter_ge by lia. rewrite fmap_app, Hc. cbn. by rewrite Hf.
Qed.
Lemma computed_all {A} (g : A -> Z) l os : computed g l os -> length os = length l -> g <$> l = os.
Proof. unfold computed. intros H Hl. by rewrite Hl, firstn_all in H. Qed.

Definition method_declared (i : MojomInterface) : list Z :=
  map (fun m : MojomMethod => declaredOrdinal (m_decl m)) (methodsByLexicalOrder i).

Lemma method_ordinals_loop_spec methods : forall i next intrfc cs os,
  length cs = length os -> Forall (fun c => c < MaxUint32) cs ->
  indexes os (MethodsByOrdinal intrfc) -> i = length os -> NoDup os -> 0 <= next < 2 ^ 32 ->
  computed Ordinal (methodsByLexicalOrder intrfc) os ->
  length (methodsByLexicalOrder intrfc) = (length os + length methods)%nat ->
  let all := os ++ assigned_wrapping next (map (fun m : MojomMethod => declaredOrdinal (m_decl m)) methods) in
  exists intrfc' r, method_ordinals_loop methods i next intrfc = (intrfc', r) /\
    i_decl intrfc' = i_decl intrfc /\
    match r with
    | Ok l => os ++ l = all /\ indexes all (MethodsByOrdinal intrfc') /\ NoDup all /\
        all_below (2 ^ 32) l /\
        computed Ordinal (methodsByLexicalOrder intrfc') all /\
        length (methodsByLexicalOrder intrfc') = length (methodsByLexicalOrder intrfc)
    | Err e => ordinal_error (cs ++ map (fun m : MojomMethod => declaredOrdinal (m_decl m)) methods) all MaxUint32 e
    | Panic => False
    end.
Proof.
  induction methods as [|m methods IH]; intros i next intrfc cs os Hcl Hcb Hm -> Hnd Hnext Hc Hlen;
    cbn [method_ordinals_loop assigned_wrapping map].
  { exists intrfc, (Ok []). rewrite app_nil_r. split; [done|]. split; [done|].
    split_and!; try done. apply Forall_nil_2. }
  rewrite bind_get. set (d := declaredOrdinal (m_decl m)).
  set (o := if 0 <=? d then d else next).
  set (rest := assigned_wrapping (u32 (o + 1)) _). cbv zeta.
  destruct ((0 <=? d) && (MaxUint32 <=? d)) eqn:Hbig.
  { apply andb_prop in Hbig as [H0 Hbig%Z.leb_le].
    assert (o = d) as Ho by (unfold o; by rewrite H0).
    eexists intrfc, _. split; [reflexivity|]. split; [done|].
    apply ordinal_error_here; [done|by rewrite Ho|done..|]. by rewrite Ho. }
  assert (Forall (fun c => c < MaxUint32) (cs ++ [d])) as Hcb'.
  { apply Forall_app. split; [done|]. constructor; [|done].
    apply andb_false_iff in Hbig as [?%Z.leb_gt|?%Z.leb_gt]; unfold MaxUint32 in *; lia. }
  assert ((if d <? 0 then next else u32 d) = o /\ 0 <= o < 2 ^ 32) as [-> Ho].
  { unfold o. destruct (Z.leb_spec 0 d), (Z.ltb_spec d 0); try lia. cbn in Hbig. apply Z.leb_gt in Hbig.
    unfold MaxUint32 in Hbig. rewrite u32_small; lia. }
  unfold update_method. rewrite bind_modify.
  destruct (MethodsByOrdinal intrfc !! o) as [j|] eqn:Hj.
  { eexists _, _. split; [reflexivity|]. split; [done|]. apply Hm in Hj.
    apply ordinal_error_here; [done..|]. by exists j. }
  rewrite bind_modify. cbn [length] in Hlen.
  set (intrfc1 := set_byOrdinal _ _).
  destruct (IH (S (length os)) (u32 (o + 1)) intrfc1 (cs ++ [d]) (os ++ [o])) as (intrfc' & r & Hrun & Hd & Hr).
  - rewrite !length_app. cbn. lia.
  - done.
  - by apply indexes_snoc.
  - rewrite length_app. cbn. lia.
  - apply NoDup_snoc; [done|]. by eapply indexes_None.
  - apply u32_range.
  - apply computed_snoc; [done|done|lia].
  - cbn. rewrite length_alter, length_app. cbn. lia.
  - rewrite <- !app_assoc in Hr. destruct r as [l|e|]; [| |done].
    + exists intrfc', (Ok (o :: l)). split; [by rewrite (bind_run_ok _ _ _ _ _ Hrun)|].
      split; [done|]. destruct Hr as (Hl & ? & ? & Hb & ? & Hlen').
      rewrite <- app_assoc in Hl. split; [exact Hl|]. split_and!; try done.
      * by constructor.
      * rewrite Hlen'. cbn. by rewrite length_alter.
    + exists intrfc', (Err e). split; [by rewrite (bind_run_err _ _ _ _ _ Hrun)|]. done.
Qed.

(** C26: ComputeMethodOrdinals of a new interface never panics. On success every method has the ordinal its declaration assigns (continuing modulo 2^32), the ordinals are distinct, and methodsInOrdinalOrder lists every method once, by increasing ordinal; an error names the first method whose declared ordinal is at least 2^32-1 or whose ordinal is that of an earlier method, which it also names. *)
Theorem ComputeMethodOrdinals_correct intrfc :
  MethodsByOrdinal intrfc = ∅ ->
  let os := assigned_wrapping 0 (method_declared intrfc) in
  exists intrfc' r, ComputeMethodOrdinals intrfc = (intrfc', r) /\
    match r with
    | Ok _ => NoDup os /\ Ordinal <$> methodsByLexicalOrder intrfc' = os /\ all_below (2 ^ 32) os /\
        exists order, methodsInOrdinalOrder intrfc' = Some order /\ in_order os order
    | Err e => ordinal_error (method_declared intrfc) os MaxUint32 e
    | Panic => False
    end.
Proof.
  intros Hempty os. unfold ComputeMethodOrdinals. rewrite bind_get.
  destruct (method_ordinals_loop_spec (methodsByLexicalOrder intrfc) 0 0 intrfc [] [])
    as (intrfc1 & r & Hrun & _ & Hr); try done; try (constructor; fail); try lia.
  { intros o i. rewrite Hempty. done. }
  cbn [app] in Hr. fold (method_declared intrfc) os in Hr.
  destruct r as [l|e|]; [| |done].
  - rewrite (bind_run_ok _ _ _ _ _ Hrun), bind_get. eexists _, (Ok tt). split; [reflexivity|].
    destruct Hr as (-> & Hm & Hnd & Hb & Hc & Hlen).
    split; [done|]. split.
    { apply computed_all; [exact Hc|]. cbn [methodsByLexicalOrder set_method_order]. rewrite Hlen.
      unfold os, method_declared. clear. generalize 0.
      induction (methodsByLexicalOrder intrfc) as [|m ms IH]; intros k; [done|]. cbn. by rewrite IH. }
    split; [done|]. eexists. split; [reflexivity|]. by apply indexes_in_order.
  - rewrite (bind_run_err _ _ _ _ _ Hrun). eexists _, _. split; [reflexivity|]. exact Hr.
Qed.

(** ** Unions *)
Definition tag_declared (u : MojomUnion) : list Z :=
  map (fun f : UnionField => declaredOrdinal (u_decl f)) (un_FieldsInLexicalOrder u).

Lemma field_tags_loop_spec fields : forall i previousTag next u os m,
  indexes os m -> i = length os -> NoDup os -> Forall (fun c => c < MaxUint32) os ->
  (i = 0%nat /\ previousTag = MaxUint32 /\ next = 0 \/
   (0 < i)%nat /\ 0 <= previousTag < MaxUint32 /\ next = previousTag + 1) ->
  computed Tag (un_FieldsInLexicalOrder u) os ->
  length (un_FieldsInLexicalOrder u) = (length os + length fields)%nat ->
  let all := os ++ assigned next (map (fun f : UnionField => declaredOrdinal (u_decl f)) fields) in
  exists u' r, field_tags_loop fields i previousTag m u = (u', r) /\
    un_decl u' = un_decl u /\
    match r with
    | Ok (m', l) => os ++ l = all /\ indexes all m' /\ NoDup all /\ all_below MaxUint32 l /\
        computed Tag (un_FieldsInLexicalOrder u') all /\
        length (un_FieldsInLexicalOrder u') = length (un_FieldsInLexicalOrder u)
    | Err e => ordinal_error all all MaxUint32 e
    | Panic => False
    end.
Proof.
  induction fields as [|f fields IH]; intros i prev next u os m Hm -> Hnd Hlow Hprev Hc Hlen;
    cbn [field_tags_loop assigned map].
  { exists u, (Ok (m, [])). rewrite app_nil_r. split; [done|]. split; [done|].
    split_and!; try done. apply Forall_nil_2. }
  rewrite bind_get. set (d := declaredOrdinal (u_decl f)).
  set (o := if 0 <=? d then d else next).
  set (rest := assigned (o + 1) _). cbv zeta.
  destruct ((0 <=? d) && (MaxUint32 <=? d)) eqn:Hbig.
  { apply andb_prop in Hbig as [H0 Hbig%Z.leb_le].
    assert (o = d) as Ho by (unfold o; by rewrite H0).
    eexists u, _. split; [reflexivity|]. split; [done|].
    apply ordinal_error_here; [done|by rewrite Ho|done..|]. by rewrite Ho. }
  destruct ((d <? 0) && ((MaxUint32 - 1 <=? prev) && (0 <? length os)%nat)) eqn:Hover.
  { apply andb_prop in Hover as [H0%Z.ltb_lt [H1%Z.leb_le H2%Nat.ltb_lt]%andb_prop].
    destruct Hprev as [[? _]|(_ & ? & Hnext)]; [lia|].
    assert (o = prev + 1) as Ho by (unfold o; destruct (Z.leb_spec 0 d); lia).
    eexists u, _. split; [reflexivity|]. split; [done|]. apply ordinal_error_here; [done..|]. cbn. lia. }
  assert ((if 0 <=? d then u32 d else u32 (prev + 1)) = o /\ 0 <= o < MaxUint32) as [-> Ho].
  { unfold o. unfold MaxUint32 in *. destruct (Z.leb_spec 0 d) as [H0|H0].
    - cbn in Hbig. apply Z.leb_gt in Hbig. rewrite u32_small; lia.
    - destruct Hprev as [(_ & -> & ->)|(? & ? & ->)]; [done|].
      rewrite (proj2 (Z.ltb_lt d 0) H0) in Hover. cbn [andb] in Hover.
      apply andb_false_iff in Hover as [?%Z.leb_gt|?%Nat.ltb_ge]; [|lia].
      rewrite u32_small; lia. }
  destruct (m !! o) as [j|] eqn:Hj.
  { eexists _, _. split; [reflexivity|]. split; [done|]. apply Hm in Hj.
    apply ordinal_error_here; [done..|]. by exists j. }
  unfold update_union_field. rewrite bind_modify. cbn [length] in Hlen.
  set (u1 := set_union_fields _ _ _).
  destruct (IH (S (length os)) o (o + 1) u1 (os ++ [o]) (<[o := length os]> m)) as (u' & r & Hrun & Hd & Hr).
  - by apply indexes_snoc.
  - rewrite length_app. cbn. lia.
  - apply NoDup_snoc; [done|]. by eapply indexes_None.
  - apply Forall_app. split; [done|]. constructor; [lia|done].
  - right. split; [lia|]. split; [lia|done].
  - apply computed_snoc; [done|done|lia].
  - cbn. rewrite length_alter, length_app. cbn. lia.
  - rewrite <- app_assoc in Hr. destruct r as [[m' l]|e|]; [| |done].
    + exists u', (Ok (m', o :: l)). split; [by rewrite (bind_run_ok _ _ _ _ _ Hrun)|].
      split; [done|]. destruct Hr as (Hl & ? & ? & Hb & ? & Hlen').
      rewrite <- app_assoc in Hl. split; [exact Hl|]. split_and!; try done.
      * by constructor.
      * rewrite Hlen'. cbn. by rewrite length_alter.
    + exists u', (Err e). split; [by rewrite (bind_run_err _ _ _ _ _ Hrun)|]. done.
Qed.

(** C27: ComputeFieldTags never panics. On success every field has the tag its declaration assigns, the tags are distinct and below 2^32-1, and fieldsInTagOrder lists every field once, by increasing tag; an error names the first field whose tag is not below 2^32-1 or is that of an earlier field, which it also names. *)
Theorem ComputeFieldTags_correct u :
  exists u' r, ComputeFieldTags u = (u', r) /\
    let os := assigned 0 (tag_declared u) in
    match r with
    | Ok _ => NoDup os /\ Tag <$> un_FieldsInLexicalOrder u' = os /\ all_below MaxUint32 os /\
        exists order, fieldsInTagOrder u' = Some order /\ in_order os order
    | Err e => ordinal_error os os MaxUint32 e
    | Panic => False
    end.
Proof.
  unfold ComputeFieldTags. rewrite bind_get.
  destruct (field_tags_loop_spec (un_FieldsInLexicalOrder u) 0 MaxUint32 0 u [] ∅)
    as (u1 & r & Hrun & _ & Hr); try done; try (constructor; fail); try (left; done).
  cbn [app] in Hr. fold (tag_declared u) in Hr.
  destruct r as [[m l]|e|]; [| |done].
  - rewrite (bind_run_ok _ _ _ _ _ Hrun). eexists _, (Ok tt). split; [reflexivity|].
    destruct Hr as (-> & Hm & Hnd & Hb & Hc & Hlen).
    cbv zeta. split; [done|]. split.
    { apply computed_all; [exact Hc|]. cbn [un_FieldsInLexicalOrder]. rewrite Hlen.
      unfold tag_declared. clear. generalize 0.
      induction (un_FieldsInLexicalOrder u) as [|m ms IH]; intros k; [done|]. cbn. by rewrite IH. }
    split; [done|]. eexists. split; [reflexivity|]. by apply indexes_in_order.
  - rewrite (bind_run_err _ _ _ _ _ Hrun). eexists _, _. split; [reflexivity|]. exact Hr.
Qed.

End Declarations.

(** ** Concrete declarations *)
Definition decl (name : string) (ordinal : Z) : DeclarationData :=
  DeclDataWithOrdinal name zeroToken None ordinal.
Definition an_interface_of (ordinals : list Z) : MojomInterface UserTypeRef :=
  set_methods ∅ (map (fun o => NewMojomMethod (decl "M" o) None None) ordinals)
    (NewMojomInterface (decl "I" (-1))).
Definition a_struct_of (ordinals : list Z) : MojomStruct UserTypeRef :=
  set_fields ∅ (map (fun o => NewStructField (decl "f" o) (TRSimple SimpleTypeInt8) None) ordinals)
    (NewMojomStruct (decl "S" (-1))).

Lemma ComputeFieldOrdinals_correct_witness :
  exists order r, ComputeFieldOrdinals (a_struct_of [-1; 2; 1]) = (set_ordinal_order order (a_struct_of [-1; 2; 1]), r) /\
    r = Ok tt /\ in_order [0; 2; 1] order.
Proof.
  destruct (ComputeFieldOrdinals_correct (a_struct_of [-1; 2; 1])) as (order & r & Hrun & _ & Hr).
  - reflexivity.
  - exists order, r. split; [exact Hrun|].
    assert (r = Ok tt) as -> by (vm_compute in Hrun; injection Hrun as _ <-; reflexivity).
    split; [reflexivity|exact Hr].
Defined.
Lemma ComputeMethodOrdinals_correct_witness :
  exists i' , ComputeMethodOrdinals (an_interface_of [5; -1; 0]) = (i', Ok tt) /\
    Ordinal <$> methodsByLexicalOrder i' = [5; 6; 0].
Proof.
  destruct (ComputeMethodOrdinals_correct (an_interface_of [5; -1; 0])) as (i' & r & Hrun & Hr).
  - reflexivity.
  - exists i'. assert (r = Ok tt) as -> by (vm_compute in Hrun; injection Hrun as _ <-; reflexivity).
    split; [exact Hrun|]. destruct Hr as (_ & -> & _). reflexivity.
Defined.

(** ComputeMethodOrdinals does not check an implicit ordinal: after a method with the greatest ordinal 4294967294 the next one gets 4294967295, outside the documented range, and the one after it wraps to 0; a declared ordinal 4294967295 is refused. *)
Theorem implicit_method_ordinal_unchecked :
  let i := an_interface_of [4294967294; -1; -1] in
  (ComputeMethodOrdinals i).2 = Ok tt /\
  Ordinal <$> methodsByLexicalOrder (ComputeMethodOrdinals i).1 = [4294967294; 4294967295; 0] /\
  (ComputeMethodOrdinals (an_interface_of [4294967295])).2 =
    Err (mkOrdinalError 4294967295 "I" 0 None ErrOrdinalRange).
Proof. vm_compute. auto. Qed.
