(* ===== verification/DescriptorSpec.v ===== *)
(** * The descriptor stays well-formed

    [well_formed] gathers what the resolution of references and the parse
    driver need of a descriptor; [grows] relates it to a later state: scopes
    and objects stay, and only the file being parsed changes.  The operations
    of scopes.go and mojom_descriptor.go that the parser calls keep both, also
    when they return an error. *)
From S2P Require Export ResolutionSpec UserDefined.
#[local] Set Warnings "-clear-no-such-hyp".

(** ** Well-formed descriptors *)
(** The two views of the imports of a file agree. *)
Record imports_indexed (f : MojomFile) : Prop := mkIndexed {
  indexed_name n i : importsBySpecifiedName f !! n = Some i ->
    exists imp, Imports f !! i = Some imp /\ SpecifiedName imp = n;
  indexed_import imp : imp ∈ Imports f -> is_Some (importsBySpecifiedName f !! SpecifiedName imp)
}.
Definition file_ok (f : MojomFile) : Prop :=
  (forall ns, ModuleNamespace f = Some ns -> good_name ns) /\ imports_indexed f.
Definition value_refs_valid (d : MojomDescriptor) (refs : list (option nat)) : Prop :=
  forall p, Some p ∈ refs -> exists r s, valueRefs d !! p = Some r /\ uv_scope r = Some s /\
    is_Some (scopes d !! s).
Record well_formed (d : MojomDescriptor) : Prop := mkWellFormed {
  wf_tree : tree d;
  wf_objects : objects_valid d;
  wf_files f fl : mojomFiles d !! f = Some fl -> file_ok fl;
  wf_types_once : NoDup (unresolvedTypeReferences d);
  wf_types : type_refs_valid d (unresolvedTypeReferences d);
  wf_values_once : NoDup (unresolvedValueReferences d);
  wf_values : value_refs_valid d (unresolvedValueReferences d)
}.

Lemma getAbstractModuleScope_no_err {E} fuel : forall n d d' e,
  getAbstractModuleScope_fuel (E:=E) fuel n d <> (d', Err e).
Proof.
  induction fuel as [|fuel IH]; intros n d d' e; [done|]. cbn [getAbstractModuleScope_fuel].
  rewrite bind_get. destruct (_ !! n); [done|]. unfold NewAbstractModuleScope.
  destruct (negb _); [|done]. cbv zeta. destruct (1 <? _)%nat; [|done].
  unfold bind. destruct (getAbstractModuleScope_fuel fuel _ d) as [d1 [a|e1|]] eqn:Hr; [done| |done].
  by destruct (IH _ _ _ _ Hr).
Qed.
Lemma NewLexicalScope_no_err {E} kind parent short file c d d' e :
  NewLexicalScope (E:=E) kind parent short file c d <> (d', Err e).
Proof.
  unfold NewLexicalScope. rewrite bind_get. unfold bind, deref_nil, deref, must.
  repeat (case_match; simplify_eq; try done). intros _. by eapply getAbstractModuleScope_no_err.
Qed.

Section Grows.
(** Where the names of new imports may come from. *)
Context (named : string -> Prop).

Record grows (f : nat) (d d' : MojomDescriptor) : Prop := mkGrows {
  grows_scopes q s : scopes d !! q = Some s -> exists s', scopes d' !! q = Some s' /\ shape s' = shape s;
  grows_objects o : is_Some (objects d !! o) -> is_Some (objects d' !! o);
  grows_names : MojomFilesByName d' = MojomFilesByName d;
  grows_count : length (mojomFiles d') = length (mojomFiles d);
  grows_others g : g <> f -> mojomFiles d' !! g = mojomFiles d !! g;
  grows_imports fl fl' imp : mojomFiles d !! f = Some fl -> mojomFiles d' !! f = Some fl' ->
    imp ∈ Imports fl' -> imp ∈ Imports fl \/ named (SpecifiedName imp) /\ imp_CanonicalFileName imp = "";
  grows_canonical fl fl' : mojomFiles d !! f = Some fl -> mojomFiles d' !! f = Some fl' ->
    CanonicalFileName fl' = CanonicalFileName fl
}.
#[export] Instance grows_preorder f : PreOrder (grows f).
Proof.
  split.
  - intros d. split; eauto.
    + intros fl fl' imp Hf Hf'. rewrite Hf in Hf'. injection Hf' as <-. auto.
    + intros fl fl' Hf Hf'. congruence.
  - intros d1 d2 d3 [S1 O1 N1 C1 F1 I1 K1] [S2 O2 N2 C2 F2 I2 K2]. split.
    + intros q s Hs. destruct (S1 q s Hs) as (s2 & Hs2 & H2). destruct (S2 q s2 Hs2) as (s3 & Hs3 & H3).
      exists s3. split; [done|]. by rewrite H3.
    + auto.
    + congruence.
    + congruence.
    + intros g Hg. by rewrite F2, F1.
    + intros fl fl' imp Hf Hf' Himp. destruct (mojomFiles d2 !! f) as [fl2|] eqn:Hf2.
      * destruct (I2 fl2 fl' imp eq_refl Hf' Himp) as [Himp2|?]; [|by right]. by apply (I1 fl fl2).
      * apply lookup_lt_Some in Hf'. apply lookup_ge_None in Hf2. lia.
    + intros fl fl' Hf Hf'. destruct (mojomFiles d2 !! f) as [fl2|] eqn:Hf2.
      * rewrite (K2 fl2 fl') by done. by apply K1.
      * apply lookup_lt_Some in Hf'. apply lookup_ge_None in Hf2. lia.
Qed.
Lemma grows_scope f d d' q : grows f d d' -> is_Some (scopes d !! q) -> is_Some (scopes d' !! q).
Proof. intros [H _ _ _ _ _ _] [s Hs]. destruct (H q s Hs) as (s' & -> & _). eauto. Qed.

(** ** Steps that leave the files alone *)
Definition same_files (d d' : MojomDescriptor) : Prop :=
  mojomFiles d' = mojomFiles d /\ MojomFilesByName d' = MojomFilesByName d.
Lemma same_files_grows f d d' :
  same_files d d' -> (forall q s, scopes d !! q = Some s -> exists s', scopes d' !! q = Some s' /\ shape s' = shape s) ->
  (forall o, is_Some (objects d !! o) -> is_Some (objects d' !! o)) -> grows f d d'.
Proof.
  intros [Hf Hn] Hs Ho. split; try done; try congruence.
  intros fl fl' imp H1 H2. rewrite Hf, H1 in H2. injection H2 as <-. auto.
Qed.
Lemma valid_refs_grow f d d' :
  grows f d d' -> typeRefs d' = typeRefs d -> valueRefs d' = valueRefs d ->
  unresolvedTypeReferences d' = unresolvedTypeReferences d ->
  unresolvedValueReferences d' = unresolvedValueReferences d ->
  well_formed d ->
  NoDup (unresolvedTypeReferences d') /\ type_refs_valid d' (unresolvedTypeReferences d') /\
  NoDup (unresolvedValueReferences d') /\ value_refs_valid d' (unresolvedValueReferences d').
Proof.
  intros Hg Ht Hv Hut Huv Hw. rewrite Hut, Huv. split_and!; [apply Hw| |apply Hw|].
  - intros p Hp. destruct (wf_types d Hw p Hp) as (r & s & Hr & Hs & Hsc). exists r, s.
    rewrite Ht. split_and!; [done..|]. by eapply grows_scope.
  - intros p Hp. destruct (wf_values d Hw p Hp) as (r & s & Hr & Hs & Hsc). exists r, s.
    rewrite Hv. split_and!; [done..|]. by eapply grows_scope.
Qed.

(** [m], run from [d], keeps the descriptor well-formed and only grows it. *)
Definition keeps_d (f : nat) {E A} (m : M MojomDescriptor E A) (d : MojomDescriptor) : Prop :=
  match m d with
  | (_, Panic) => True
  | (d', _) => well_formed d' /\ grows f d d'
  end.
Lemma kd_bind f {E A B} (m : M MojomDescriptor E A) (k : A -> M MojomDescriptor E B) d :
  keeps_d f m d ->
  (forall d1 a, m d = (d1, Ok a) -> well_formed d1 -> grows f d d1 -> keeps_d f (k a) d1) ->
  keeps_d f (bind m k) d.
Proof.
  unfold keeps_d, bind. destruct (m d) as [d1 [a|e|]]; [|done|done]. intros [Hw Hg] Hk.
  specialize (Hk d1 a eq_refl Hw Hg). destruct (k a d1) as [d2 [b|e|]]; [| |done].
  - destruct Hk. split; [done|by etrans].
  - destruct Hk. split; [done|by etrans].
Qed.
Lemma kd_same f {E A} (m : M MojomDescriptor E A) d : (m d).1 = d -> well_formed d -> keeps_d f m d.
Proof. unfold keeps_d. destruct (m d) as [d' [a|e|]]; cbn; by intros ->. Qed.
Lemma kd_modify f {E} (g : MojomDescriptor -> MojomDescriptor) d :
  well_formed (g d) -> grows f d (g d) -> keeps_d f (E:=E) (modify g) d.
Proof. done. Qed.
Lemma kd_deref f {E A B} (table : MojomDescriptor -> list A) p (k : A -> M MojomDescriptor E B) d :
  (forall x, table d !! p = Some x -> keeps_d f (k x) d) -> keeps_d f (bind (deref table p) k) d.
Proof. unfold keeps_d, bind, deref, must. destruct (table d !! p) as [x|]; [intros H; by apply H|done]. Qed.
Lemma kd_deref_nil f {E A B} (table : MojomDescriptor -> list A) p (k : A -> M MojomDescriptor E B) d :
  (forall q x, p = Some q -> table d !! q = Some x -> keeps_d f (k x) d) -> keeps_d f (bind (deref_nil table p) k) d.
Proof. destruct p as [p|]; [|done]. intros H. apply kd_deref. eauto. Qed.
Lemma kd_panic f {E A} d : keeps_d f (E:=E) (A:=A) panic d.
Proof. done. Qed.

(** ** Registration *)
Lemma register_step f d p n obj s :
  well_formed d -> scopes d !! p = Some s -> is_Some (objects d !! obj) ->
  let d1 := set_scopes (alter (declare n obj) p (scopes d)) d in
  well_formed d1 /\ grows f d d1.
Proof.
  intros Hw Hs Ho d1. pose proof (update_scope_shape d p n obj) as Hsh. fold d1 in Hsh.
  assert (grows f d d1) as Hg.
  { apply same_files_grows; [done| |done]. intros q s0 Hq. by apply (same_shape_lookup d d1). }
  destruct (valid_refs_grow f d d1 Hg eq_refl eq_refl eq_refl eq_refl Hw) as (? & ? & ? & ?).
  split; [|done]. split; try done; [apply (same_shape_tree d d1); [done|done|apply Hw]| |apply Hw].
  intros q m x. unfold d1. rewrite (update_scope_declared d p n obj q m s Hs).
  case_decide; [by intros [= <-]|]. apply Hw.
Qed.
Lemma kd_register f fuel : forall p obj prefix d, well_formed d ->
  keeps_d f (registerObjectWithNamePrefix fuel p obj prefix) d.
Proof.
  induction fuel as [|fuel IH]; intros p obj prefix d Hw; [done|]. cbn [registerObjectWithNamePrefix].
  apply kd_deref. intros s' Hp. apply kd_deref. intros o' Hob.
  destruct (object_scope o'); [|done].
  destruct (declaredObjects s' !! _).
  { unfold newDuplicateDeclaredNameError. apply kd_deref. intros o1 _. apply kd_deref_nil.
    intros q x _ _. by apply kd_same. }
  destruct (register_step f d p (prefix +:+ SimpleName o') obj s' Hw Hp) as [Hw1 Hg1]; [eauto|].
  apply kd_bind; [by apply kd_modify|]. intros d1 [] Hd1 Hwd1 _.
  destruct (parentScope s') as [q|]; [|by apply kd_same].
  case_bool_decide; [|by apply IH].
  apply kd_deref. intros s2 _. case_bool_decide; [by apply IH|done].
Qed.
Lemma kd_update_object f {E} obj (g : DeclaredObject -> DeclaredObject) d :
  well_formed d -> keeps_d f (update_object (E:=E) obj g) d.
Proof.
  intros Hw. set (d1 := set_objects (alter g obj (objects d)) d).
  assert (forall o, is_Some (objects d !! o) -> is_Some (objects d1 !! o)) as Ho.
  { intros o. cbn. rewrite !lookup_lt_is_Some, length_alter. done. }
  assert (grows f d d1) as Hg by (apply same_files_grows; eauto; done).
  destruct (valid_refs_grow f d d1 Hg eq_refl eq_refl eq_refl eq_refl Hw) as (? & ? & ? & ?).
  apply kd_modify; [|done]. split; try done; [apply (same_shape_tree d d1); [done|done|apply Hw]| |apply Hw].
  intros q n x Hx. apply Ho. by apply (wf_objects d Hw q n).
Qed.

(** Only tables that carry no obligation change. *)
Lemma kd_tables f {E} (g : MojomDescriptor -> MojomDescriptor) d :
  well_formed d -> scopes (g d) = scopes d -> abstractScopesByName (g d) = abstractScopesByName d ->
  objects (g d) = objects d -> same_files d (g d) ->
  typeRefs (g d) = typeRefs d -> valueRefs (g d) = valueRefs d ->
  unresolvedTypeReferences (g d) = unresolvedTypeReferences d ->
  unresolvedValueReferences (g d) = unresolvedValueReferences d ->
  keeps_d f (E:=E) (modify g) d.
Proof.
  intros Hw Hs Ha Ho Hf Ht Hv Hut Huv.
  assert (grows f d (g d)) as Hg.
  { apply same_files_grows; [done| |by rewrite Ho]. intros q s. rewrite Hs. eauto. }
  destruct (valid_refs_grow f d (g d) Hg Ht Hv Hut Huv Hw) as (? & ? & ? & ?).
  apply kd_modify; [|done]. split; try done.
  - apply (same_shape_tree d); [by rewrite Hs|done|apply Hw].
  - intros q n x. unfold declared. rewrite Hs, Ho. apply (wf_objects d Hw).
  - intros i fl. rewrite (proj1 Hf). apply Hw.
Qed.

Lemma kd_Register f p obj d : well_formed d -> keeps_d f (Register p obj) d.
Proof. apply kd_register. Qed.
Ltac keeps_d lemmas :=
  repeat lazymatch goal with
    | |- _ (match ?x with _ => _ end) _ => destruct x
    | |- _ panic _ => exact I
    | |- _ (bind (deref _ _) _) _ => apply kd_deref; intros ? _
    | |- _ (bind (deref_nil _ _) _) _ => apply kd_deref_nil; intros ? ? _ _
    | |- _ (bind _ _) _ => apply kd_bind; [|intros ? ? _ ? _]
    | |- _ (update_object _ _) _ => apply kd_update_object; done
    | |- _ (modify _) _ => apply kd_tables; done
    | |- _ (ret _) _ => apply kd_same; done
    | |- _ => first [lemmas; done | progress cbv zeta]
    end.

Lemma kd_type_RegisterInScope f obj scope d : well_formed d -> keeps_d f (type_RegisterInScope obj scope) d.
Proof. intros Hw. unfold type_RegisterInScope. keeps_d ltac:(apply kd_Register). Qed.
Lemma kd_value_RegisterInScope f obj scope d : well_formed d -> keeps_d f (value_RegisterInScope obj scope) d.
Proof. intros Hw. unfold value_RegisterInScope. keeps_d ltac:(apply kd_Register). Qed.
Lemma kd_member_RegisterInScope f k obj scope d :
  well_formed d -> keeps_d f (member_RegisterInScope k obj scope) d.
Proof. intros Hw. unfold member_RegisterInScope. keeps_d ltac:(apply kd_Register). Qed.

(** ** Files *)
(** Changing the file being parsed. *)
Lemma kd_update_file f {E} (g : MojomFile -> MojomFile) d :
  well_formed d -> (forall fl, mojomFiles d !! f = Some fl -> file_ok (g fl) /\
    CanonicalFileName (g fl) = CanonicalFileName fl /\ forall imp, imp ∈ Imports (g fl) -> imp ∈ Imports fl \/ named (SpecifiedName imp) /\ imp_CanonicalFileName imp = "") ->
  keeps_d f (E:=E) (update_file f g) d.
Proof.
  intros Hw Hg. set (d1 := set_files (alter g f (mojomFiles d)) d).
  assert (grows f d d1) as Hgr.
  { split; try done; [by eauto|by apply length_alter|intros i Hi; by apply list_lookup_alter_ne|..].
    - intros fl fl' imp Hf. cbn. rewrite list_lookup_alter_eq, Hf. intros [= <-]. by apply Hg.
    - intros fl fl' Hf. cbn. rewrite list_lookup_alter_eq, Hf. intros [= <-]. by apply Hg. }
  destruct (valid_refs_grow f d d1 Hgr eq_refl eq_refl eq_refl eq_refl Hw) as (? & ? & ? & ?).
  apply kd_modify; [|done]. split; try done; [apply (same_shape_tree d d1); [done|done|apply Hw]|apply Hw|].
  intros i fl. cbn. rewrite list_lookup_alter. case_decide as Hi.
  - subst i. destruct (mojomFiles d !! f) as [fl0|] eqn:Hf; [|done]. intros [= <-]. by apply Hg.
  - apply Hw.
Qed.
Lemma same_imports_ok fl fl' :
  Imports fl' = Imports fl -> importsBySpecifiedName fl' = importsBySpecifiedName fl ->
  imports_indexed fl -> imports_indexed fl'.
Proof. intros Hi Hm [H1 H2]. split; rewrite Hi, Hm; done. Qed.
Lemma AddImport_indexed imp fl : imports_indexed fl -> imports_indexed (AddImport imp fl).
Proof.
  intros [H1 H2]. split; cbn.
  - intros n i [[<- <-]|[_ Hn]]%lookup_insert_Some.
    + exists imp. split; [by apply list_lookup_middle|done].
    + destruct (H1 n i Hn) as (imp' & Hi & ?). exists imp'. split; [by apply lookup_app_l_Some|done].
  - intros imp' [Hin| ->%list_elem_of_singleton]%elem_of_app.
    + destruct (decide (SpecifiedName imp = SpecifiedName imp')) as [->|Hne]; [by rewrite lookup_insert_eq|].
      rewrite lookup_insert_ne by done. by apply H2.
    + by rewrite lookup_insert_eq.
Qed.

(** ** Scopes *)
Lemma extends_grows f d d' : extends d d' -> grows f d d'.
Proof.
  intros He. pose proof He as (_ & Hd & _). apply same_files_grows.
  - by rewrite Hd.
  - intros q s Hs. exists s. split; [by eapply extends_scope|done].
  - by rewrite Hd.
Qed.
Lemma extends_well_formed d d' : tree d' -> extends d d' -> well_formed d -> well_formed d'.
Proof.
  intros Ht He Hw. pose proof He as (_ & Hd & _).
  destruct (valid_refs_grow 0 d d') as (? & ? & ? & ?);
    [by apply extends_grows|by rewrite Hd..|done|].
  split; try done; [|intros i fl; rewrite Hd; apply Hw].
  intros q n x. rewrite (extends_declared d d' q n He), Hd. apply (wf_objects d Hw).
Qed.
Lemma kd_NewLexicalScope f {E} kind parent short file c d :
  well_formed d -> (kind <> ScopeFileModule -> short <> "") ->
  keeps_d f (NewLexicalScope (E:=E) kind parent short file c) d.
Proof.
  intros Hw Hshort. unfold keeps_d. destruct (NewLexicalScope kind parent short file c d) as [d' [p|e|]] eqn:Hrun; [| |done].
  - destruct (NewLexicalScope_run (E:=E) d kind parent short file c d' p (wf_tree d Hw) Hshort) as (Ht & He & _); [|done|].
    { intros i fl ns _ Hi. by apply (wf_files d Hw i fl Hi). }
    split; [by eapply extends_well_formed|by apply extends_grows].
  - exfalso. by eapply NewLexicalScope_no_err.
Qed.
Lemma set_namespace_ok ns fl : good_name ns -> file_ok fl -> file_ok (set_namespace ns fl).
Proof.
  intros Hns [_ Hi]. split; [by intros ? [= <-]|]. by apply (same_imports_ok fl).
Qed.
Lemma set_file_scope_ok s fl : file_ok fl -> file_ok (set_file_scope s fl).
Proof. intros [Hn Hi]. split; [exact Hn|]. by apply (same_imports_ok fl). Qed.
Lemma kd_InitializeFileScope f {E} ns d :
  well_formed d -> good_name ns -> keeps_d f (InitializeFileScope (E:=E) f ns) d.
Proof.
  intros Hw Hns. unfold InitializeFileScope. apply kd_bind.
  { apply kd_update_file; [done|]. intros fl Hf. split; [|split; [done|by left]].
    apply set_namespace_ok; [done|]. by apply (wf_files d Hw f). }
  intros d1 [] _ Hw1 _. apply kd_bind; [by apply kd_NewLexicalScope|].
  intros d2 scope _ Hw2 _. apply kd_bind; [|intros d3 [] _ ? _; by apply kd_same].
  apply kd_update_file; [done|]. intros fl Hf. split; [|split; [done|by left]].
  apply set_file_scope_ok. by apply (wf_files d2 Hw2 f).
Qed.
Lemma add_declared_ok obj c fl : file_ok fl -> file_ok (add_declared obj c fl).
Proof. intros [Hn Hi]. split; [exact Hn|]. by apply (same_imports_ok fl). Qed.
Lemma kd_file_add f obj d : well_formed d -> keeps_d f (file_add f obj) d.
Proof.
  intros Hw. unfold file_add. apply kd_deref. intros o _. apply kd_bind.
  { apply kd_update_file; [done|]. intros fl Hf. split; [|split; [done|by left]].
    apply add_declared_ok. by apply (wf_files d Hw f). }
  intros d1 [] _ Hw1 _. apply kd_deref. intros fl _. destruct (FileScope fl); [|done].
  destruct (class o); try done; [by apply kd_type_RegisterInScope|by apply kd_value_RegisterInScope].
Qed.

(** ** References *)
Lemma kd_new_object f {E} o d :
  well_formed d ->
  keeps_d f (E:=E) (fun d => (set_objects (objects d ++ [o]) d, Ok (length (objects d)))) d.
Proof.
  intros Hw. set (d1 := set_objects (objects d ++ [o]) d).
  assert (forall p, is_Some (objects d !! p) -> is_Some (objects d1 !! p)) as Ho.
  { intros p [x Hx]. exists x. by apply lookup_app_l_Some. }
  assert (grows f d d1) as Hg by (apply same_files_grows; eauto; done).
  destruct (valid_refs_grow f d d1 Hg eq_refl eq_refl eq_refl eq_refl Hw) as (? & ? & ? & ?).
  split; [|done]. split; try done; [apply (same_shape_tree d d1); [done|done|apply Hw]| |apply Hw].
  intros q n x Hx. apply Ho. by apply (wf_objects d Hw q n).
Qed.
Lemma kd_type_refs f {E A} (refs : list UserTypeRef) (a : A) d :
  well_formed d ->
  (forall p r, typeRefs d !! p = Some r -> exists r', refs !! p = Some r' /\ ref_scope r' = ref_scope r) ->
  keeps_d f (E:=E) (fun d => (set_type_refs refs d, Ok a)) d.
Proof.
  intros Hw Hr. split; [|by apply same_files_grows; eauto]. split; try apply Hw.
  - apply (same_shape_tree d); [done|done|apply Hw].
  - intros p Hp. destruct (wf_types d Hw p Hp) as (r & s & Hp' & Hs & Hsc).
    destruct (Hr p r Hp') as (r' & Hr' & Hs'). exists r', s. split_and!; [done|congruence|done].
Qed.
Lemma kd_value_refs f {E A} (refs : list (UserValueRef nat)) (a : A) d :
  well_formed d ->
  (forall p r, valueRefs d !! p = Some r -> exists r', refs !! p = Some r' /\ uv_scope r' = uv_scope r) ->
  keeps_d f (E:=E) (fun d => (set_value_refs refs d, Ok a)) d.
Proof.
  intros Hw Hr. split; [|by apply same_files_grows; eauto]. split; try apply Hw.
  - apply (same_shape_tree d); [done|done|apply Hw].
  - intros p Hp. destruct (wf_values d Hw p Hp) as (r & s & Hp' & Hs & Hsc).
    destruct (Hr p r Hp') as (r' & Hr' & Hs'). exists r', s. split_and!; [done|congruence|done].
Qed.
(** Recording a reference just created. *)
Lemma kd_register_type_ref f {E} p r s d :
  well_formed d -> typeRefs d !! p = Some r -> ref_scope r = Some s -> is_Some (scopes d !! s) ->
  Some p ∉ unresolvedTypeReferences d ->
  keeps_d f (E:=E) (modify (RegisterUnresolvedTypeReference p)) d.
Proof.
  intros Hw Hr Hs Hsc Hp. apply kd_modify; [|by apply same_files_grows; eauto]. split; try apply Hw.
  - apply (same_shape_tree d); [done|done|apply Hw].
  - cbn. apply NoDup_app. split_and!; [apply Hw| |apply NoDup_singleton].
    intros q Hq ->%list_elem_of_singleton. done.
  - intros q. cbn. intros [Hq|[= ->]%list_elem_of_singleton]%elem_of_app; [by apply (wf_types d Hw)|].
    by exists r, s.
Qed.
Lemma kd_register_value_ref f {E} p r s d :
  well_formed d -> valueRefs d !! p = Some r -> uv_scope r = Some s -> is_Some (scopes d !! s) ->
  Some p ∉ unresolvedValueReferences d ->
  keeps_d f (E:=E) (modify (RegisterUnresolvedValueReference p)) d.
Proof.
  intros Hw Hr Hs Hsc Hp. apply kd_modify; [|by apply same_files_grows; eauto]. split; try apply Hw.
  - apply (same_shape_tree d); [done|done|apply Hw].
  - cbn. apply NoDup_app. split_and!; [apply Hw| |apply NoDup_singleton].
    intros q Hq ->%list_elem_of_singleton. done.
  - intros q. cbn. intros [Hq|[= ->]%list_elem_of_singleton]%elem_of_app; [by apply (wf_values d Hw)|].
    by exists r, s.
Qed.

(** ** Methods of an object and the descriptor *)
(** [m] keeps the descriptor, and of the object what [same] compares. *)
Definition keeps_pair (f : nat) {T E A} (same : T -> T -> Prop) (m : M (MojomDescriptor * T) E A)
    (ds : MojomDescriptor * T) : Prop :=
  match m ds with
  | (_, Panic) => True
  | (ds', _) => well_formed ds'.1 /\ grows f ds.1 ds'.1 /\ same ds.2 ds'.2
  end.
Definition same_struct_name (s s' : MojomStruct nat) : Prop :=
  dd_simpleName (s_decl s') = dd_simpleName (s_decl s).
Definition same_interface_name (i i' : MojomInterface nat) : Prop :=
  dd_simpleName (i_decl i') = dd_simpleName (i_decl i).
Definition same_enum_name (e e' : MojomEnum) : Prop := dd_simpleName (e_decl e') = dd_simpleName (e_decl e).

Lemma kd_AddField f field obj ds :
  well_formed ds.1 -> keeps_pair f same_struct_name (AddField field obj) ds.
Proof.
  intros Hw. unfold keeps_pair, AddField, same_struct_name. rewrite bind_get.
  destruct (_ !! _); [by destruct (structType ds.2); cbn|].
  case_bool_decide as Hst; [|done]. unfold bind, in_descriptor, field_RegisterInScope.
  pose proof (kd_member_RegisterInScope f ScopeStruct obj (containedScope (s_nested ds.2)) ds.1 Hw) as H.
  unfold keeps_d in H. destruct (member_RegisterInScope _ _ _ ds.1) as [d' [[]|e|]]; by try destruct H.
Qed.
Lemma kd_AddMethod f method obj di :
  well_formed di.1 -> keeps_pair f same_interface_name (AddMethod method obj) di.
Proof.
  intros Hw. unfold keeps_pair, AddMethod, same_interface_name. rewrite bind_get. unfold bind, in_descriptor, method_RegisterInScope.
  pose proof (kd_member_RegisterInScope f ScopeInterface obj (containedScope (i_nested di.2)) di.1 Hw) as H.
  unfold keeps_d in H. destruct (member_RegisterInScope _ _ _ di.1) as [d' [[]|e|]]; by try destruct H.
Qed.
Lemma kd_AddEnumValue f declData valueRef obj de :
  well_formed de.1 -> keeps_pair f same_enum_name (AddEnumValue declData valueRef obj) de.
Proof.
  intros Hw. unfold keeps_pair, AddEnumValue, same_enum_name. cbn [scopeForValues]. cbv zeta. destruct (scopeForValues de.2) as [s|]; [|done].
  pose proof (kd_value_RegisterInScope f obj (Some s) de.1 Hw) as H. unfold keeps_d in H.
  destruct (value_RegisterInScope _ _ de.1) as [d' [[]|e|]]; by try destruct H.
Qed.
Lemma kd_Nested_AddEnum f obj dc :
  well_formed dc.1 -> keeps_pair f (fun _ _ => True) (Nested_AddEnum obj) dc.
Proof.
  intros Hw. unfold keeps_pair, Nested_AddEnum. cbv zeta.
  pose proof (kd_type_RegisterInScope f obj (containedScope (add_nested_enum obj dc.2)) dc.1 Hw) as H. unfold keeps_d in H.
  destruct (type_RegisterInScope _ _ dc.1) as [d' [[]|e|]]; by try destruct H.
Qed.
Lemma kd_Nested_AddConstant f obj dc :
  well_formed dc.1 -> keeps_pair f (fun _ _ => True) (Nested_AddConstant obj) dc.
Proof.
  intros Hw. unfold keeps_pair, Nested_AddConstant. cbv zeta.
  pose proof (kd_value_RegisterInScope f obj (containedScope (add_nested_constant obj dc.2)) dc.1 Hw) as H. unfold keeps_d in H.
  destruct (value_RegisterInScope _ _ dc.1) as [d' [[]|e|]]; by try destruct H.
Qed.
End Grows.

(** ** Methods of one object *)
(** [P] holds of the receiver after [m], whatever the outcome. *)
Definition maintains {S E A} (P : S -> Prop) (m : M S E A) : Prop := forall s, P s -> P (m s).1.
Section Maintains.
Context {S E : Type} (P : S -> Prop).
Lemma maintains_bind {A B} (m : M S E A) (k : A -> M S E B) :
  maintains P m -> (forall a, maintains P (k a)) -> maintains P (bind m k).
Proof.
  intros Hm Hk s Hs. specialize (Hm s Hs). unfold bind.
  destruct (m s) as [s' [a|e|]]; cbn in *; [by apply Hk|done|done].
Qed.
Lemma maintains_modify (f : S -> S) : (forall s, P s -> P (f s)) -> maintains (E:=E) P (modify f).
Proof. done. Qed.
Lemma maintains_must {A} (o : option A) : maintains (E:=E) P (must o).
Proof. intros s. by destruct o. Qed.
Lemma maintains_pure {A} (m : M S E A) : (forall s, (m s).1 = s) -> maintains P m.
Proof. intros H s. by rewrite H. Qed.
End Maintains.
Ltac maintains :=
  repeat first
    [ progress intros
    | apply maintains_bind; [|intros ?]
    | apply maintains_modify; intros ?; done
    | apply maintains_must
    | apply maintains_pure; done
    | progress cbv zeta
    | case_match ].
Lemma field_ordinals_maintain fields x : forall i n o,
  maintains (fun s : MojomStruct nat => dd_simpleName (s_decl s) = x) (field_ordinals_loop fields i n o).
Proof. induction fields as [|f fields IH]; intros i n o; cbn [field_ordinals_loop]; [maintains|]. maintains; apply IH. Qed.
Lemma ComputeFieldOrdinals_name s : dd_simpleName (s_decl (ComputeFieldOrdinals s).1) = dd_simpleName (s_decl (R:=nat) s).
Proof.
  assert (maintains (fun s' : MojomStruct nat => dd_simpleName (s_decl s') = dd_simpleName (s_decl s)) ComputeFieldOrdinals) as H;
    [|by apply H].
  unfold ComputeFieldOrdinals. maintains. by apply field_ordinals_maintain.
Qed.
Lemma method_ordinals_maintain methods x : forall i o,
  maintains (fun s : MojomInterface nat => dd_simpleName (i_decl s) = x) (method_ordinals_loop methods i o).
Proof. induction methods as [|m methods IH]; intros i o; cbn [method_ordinals_loop]; [maintains|]. unfold update_method. maintains; apply IH. Qed.
Lemma ComputeMethodOrdinals_name i :
  dd_simpleName (i_decl (ComputeMethodOrdinals i).1) = dd_simpleName (i_decl (R:=nat) i).
Proof.
  assert (maintains (fun i' : MojomInterface nat => dd_simpleName (i_decl i') = dd_simpleName (i_decl i)) ComputeMethodOrdinals) as H;
    [|by apply H].
  unfold ComputeMethodOrdinals. maintains. by apply method_ordinals_maintain.
Qed.
