(* ===== verification/TypeGraph.v ===== *)
(** * The graph of user-defined types: compiler/core/user_defined_types.go and
      DetectIllFoundedTypes of compiler/core/mojom_descriptor.go

    [OutEdges] makes the types of a descriptor the nodes of a two-sorted graph,
    on which the check of wellfounded_graphs.go runs for one type after the
    other.  [has_instance] says what the check is for: a type has an instance
    that can be serialized, a finite one.

    The methods are called after resolution, so references are records with
    their resolved type; the address in it is the key of the type here. *)
From S2P Require Import Prelude Lexer Types Scopes UserDefined WellFounded.

(** The dynamic type of [thisType]. *)
Inductive decl :=
| DStruct (s : @MojomStruct UserTypeRef)
| DUnion (u : @MojomUnion UserTypeRef)
| DEnum
| DInterface.

Definition decl_kind (d : decl) : UserDefinedTypeKind :=
  match d with
  | DStruct _ => UserDefinedTypeKindStruct
  | DUnion _ => UserDefinedTypeKindUnion
  | DEnum => UserDefinedTypeKindEnum
  | DInterface => UserDefinedTypeKindInterface
  end.

(** A [*UserDefinedTypeBase], or the leaf [OutEdges] makes for a union: every
    call makes a new one, but a leaf has no state and is nobody's parent. *)
Inductive type_node := TypeBase (address : nat) | LeafNode (union : nat).
#[export] Instance type_node_eq_dec : EqDecision type_node.
Proof. solve_decision. Defined.
#[export] Instance type_node_countable : Countable type_node.
Proof.
  apply (inj_countable' (fun n => match n with TypeBase a => inl a | LeafNode a => inr a end)
    (fun s => match s with inl a => TypeBase a | inr a => LeafNode a end)).
  by intros [].
Defined.

Abbreviation edge := (OutEdge type_node Token).

Section graph.
Variable types : gmap nat decl.

Definition IsSquare (n : type_node) : bool :=
  match n with
  | TypeBase a => bool_decide (decl_kind <$> types !! a = Some UserDefinedTypeKindUnion)
  | LeafNode _ => false
  end.

(** [None] is the panic of [NonAvoidableUserType] on an unresolved reference. *)
Fixpoint struct_edges (fields : list (@StructField UserTypeRef)) : option (list edge) :=
  match fields with
  | [] => Some []
  | f :: fields =>
      childType ← NonAvoidableUserType (FieldType f);
      rest ← struct_edges fields;
      Some (match childType with
            | Some t => mkEdge (dd_nameToken (f_decl f)) (TypeBase (address t)) :: rest
            | None => rest
            end)
  end.

(** The edges of a union, and the name token of its first leaf field (the type
    name of a leaf field, by which the source tells that it has one, is not
    empty). *)
Fixpoint union_edges (fields : list (@UnionField UserTypeRef)) (leaf : option Token)
    : option (list edge * option Token) :=
  match fields with
  | [] => Some ([], leaf)
  | f :: fields =>
      childType ← NonAvoidableUserType (u_FieldType f);
      match childType with
      | Some t =>
          '(rest, leaf) ← union_edges fields leaf;
          Some (mkEdge (dd_nameToken (u_decl f)) (TypeBase (address t)) :: rest, leaf)
      | None =>
          union_edges fields (match leaf with Some _ => leaf | None => Some (dd_nameToken (u_decl f)) end)
      end
  end.

Definition OutEdges (n : type_node) : option (list edge) :=
  match n with
  | LeafNode _ => Some []
  | TypeBase a =>
      match types !! a with
      | Some (DStruct s) => struct_edges (FieldsInLexicalOrder s)
      | Some (DUnion u) =>
          '(outEdges, leaf) ← union_edges (un_FieldsInLexicalOrder u) None;
          match leaf with
          | Some token =>
              if negb (bool_decide (outEdges = []))
              then Some (outEdges ++ [mkEdge token (LeafNode a)]) else Some outEdges
          | None => Some outEdges
          end
      | Some DEnum | Some DInterface => Some []
      | None => None
      end
  end.

Definition edges (n : type_node) : list edge := default [] (OutEdges n).

(** [nodeToUserDefinedType] panics on a leaf. *)
Definition nodeToUserDefinedType (n : type_node) : option nat :=
  match n with TypeBase a => Some a | LeafNode _ => None end.

(** The types of the error that [CheckWellFounded] of a type formats: the first
    one and the steps of the cycle; the last sentence is about the first step. *)
Record IllFounded := mkIllFounded { firstIllFoundedType : nat; steps : list (Token * nat); breakField : Token }.

Definition describe (c : CycleDescription type_node Token) : option IllFounded :=
  first ← nodeToUserDefinedType (First c);
  steps ← mapM (fun e => t ← nodeToUserDefinedType (Target e); Some (Label e, t)) (Path c);
  e ← head (Path c);
  Some (mkIllFounded first steps (Label e)).

Variable iter : nat -> gset type_node -> list type_node.

Definition type_CheckWellFounded (fuel : nat) (known : gset type_node) (a : nat)
    : outcome (gset type_node * option IllFounded) :=
  let? (known, cycle) := CheckWellFounded edges IsSquare iter fuel known (Some (TypeBase a)) in
  match cycle with
  | None => Ok (known, None)
  | Some c => match describe c with Some e => Ok (known, Some e) | None => Panic end
  end.

(** The loop of [DetectIllFoundedTypes] over the keys, in some order.  A leaf
    node is always known to be well-founded. *)
Fixpoint detect_loop (fuel : nat) (known : gset type_node) (keyList : list nat)
    : outcome (option IllFounded) :=
  match keyList with
  | [] => Ok None
  | a :: keyList =>
      let? (known, err) := type_CheckWellFounded fuel known a in
      match err with Some e => Ok (Some e) | None => detect_loop fuel known keyList end
  end.

Definition leaves : gset type_node := set_map LeafNode (dom types).
Definition DetectIllFoundedTypes (fuel : nat) (keyList : list nat) : outcome (option IllFounded) :=
  detect_loop fuel leaves keyList.

(** ** Instances *)

(** A type of a field has a value, a user-defined type has an instance, without
    a cycle: a null reference, an empty array or map ends the search.  A union
    without fields is let pass. *)
Inductive has_value : TypeRef -> Prop :=
| hv_simple t : has_value (TRSimple t)
| hv_string s : has_value (TRString s)
| hv_handle h : has_value (TRHandle h)
| hv_array_null n t : has_value (TRArray true n t)
| hv_array_empty b n t : n <= 0 -> has_value (TRArray b n t)
| hv_array b n t : has_value t -> has_value (TRArray b n t)
| hv_map b k v : has_value (TRMap b k v)
| hv_null r : nullable r = true -> has_value (TRUser r)
| hv_request r : interfaceRequest r = true -> has_value (TRUser r)
| hv_user r t : resolvedType r = Some t -> has_instance (address t) -> has_value (TRUser r)
with has_instance : nat -> Prop :=
| hi_struct a s : types !! a = Some (DStruct s) ->
    (forall f, f ∈ FieldsInLexicalOrder s -> has_value (FieldType f)) -> has_instance a
| hi_union a u f : types !! a = Some (DUnion u) ->
    f ∈ un_FieldsInLexicalOrder u -> has_value (u_FieldType f) -> has_instance a
| hi_union_empty a u : types !! a = Some (DUnion u) -> un_FieldsInLexicalOrder u = [] -> has_instance a
| hi_enum a : types !! a = Some DEnum -> has_instance a
| hi_interface a : types !! a = Some DInterface -> has_instance a.

(** What resolution establishes: references are resolved, to a type of the
    descriptor and of the kind it has. *)
Fixpoint resolved (t : TypeRef) : Prop :=
  match t with
  | TRSimple _ | TRString _ | TRHandle _ => True
  | TRArray _ _ e => resolved e
  | TRMap _ k v => resolved k /\ resolved v
  | TRUser r => exists t, resolvedType r = Some t /\ decl_kind <$> types !! address t = Some (udt_Kind t)
  end.
Definition field_types (d : decl) : list TypeRef :=
  match d with
  | DStruct s => FieldType <$> FieldsInLexicalOrder s
  | DUnion u => u_FieldType <$> un_FieldsInLexicalOrder u
  | _ => []
  end.
Definition all_resolved : Prop :=
  forall a d t, types !! a = Some d -> t ∈ field_types d -> resolved t.

(** No struct has a field that must hold an instance of that same struct. *)
Definition no_direct_loop : Prop :=
  forall a s f t, types !! a = Some (DStruct s) -> f ∈ FieldsInLexicalOrder s ->
    NonAvoidableUserType (FieldType f) = Some (Some t) -> address t <> a.
End graph.
