(* ===== verification/TypeGraphSpec.v ===== *)
(** * The detection of ill-founded types is exact

    The graph of [TypeGraph] is well-founded at a type, in the sense of
    wellfounded_graphs.go, exactly if the type has an instance; with the
    correctness of the check on graphs, [DetectIllFoundedTypes] reports an error
    exactly if some type has none. *)
From stdpp Require Import gmap.
From S2P Require Import Prelude Lexer Types Scopes UserDefined WellFounded WellFoundedSpec TypeGraph.
#[local] Set Warnings "-clear-no-such-hyp".

Scheme has_value_mind := Minimality for has_value Sort Prop
  with has_instance_mind := Minimality for has_instance Sort Prop.

(** The nodes reachable from a root, when they are among finitely many. *)
Lemma reachable_set {node} `{Countable node} {label} (E : node -> list (OutEdge node label))
    (N : gset node) (root : node) :
  root ∈ N -> (forall n c, n ∈ N -> child E n c -> c ∈ N) ->
  exists U : gset node, U ⊆ N /\ forall n, n ∈ U <-> reachable E root n.
Proof.
  intros Hroot HN.
  set (open S := Exists (fun n => Exists (fun e => Target e ∉ S) (E n)) (elements (S : gset node))).
  assert (forall S, root ∈ S -> (forall n, n ∈ S -> reachable E root n) -> ~ open S ->
    forall n, n ∈ S <-> reachable E root n) as Hdone.
  { intros S Hr Hre Hno n. split; [apply Hre|]. induction 1 as [|n c _ IHn (e&He&<-)]; [done|].
    destruct (decide (Target e ∈ S)) as [|Hnew]; [done|]. exfalso. apply Hno.
    apply Exists_exists. exists n. split; [by apply elem_of_elements|]. apply Exists_exists. by exists e. }
  assert (forall k (S : gset node), (size (N ∖ S) <= k)%nat -> root ∈ S -> S ⊆ N ->
    (forall n, n ∈ S -> reachable E root n) ->
    exists U : gset node, U ⊆ N /\ forall n, n ∈ U <-> reachable E root n) as Hgrow.
  { induction k as [|k IH]; intros S Hk Hr HS Hre;
      (destruct (decide (open S)) as [Hex|Hex]; [|by exists S; auto]);
      apply Exists_exists in Hex as (n&Hn%elem_of_elements&(e&He&Hnew)%Exists_exists);
      assert (Target e ∈ N) as HeN by (apply (HN n); [by apply HS|by exists e]).
    - exfalso. assert (size (N ∖ S) = 0%nat) as Hz by lia. apply size_empty_inv in Hz.
      apply (not_elem_of_empty (C := gset node) (Target e)), Hz. by apply elem_of_difference.
    - apply (IH ({[Target e]} ∪ S)).
      + assert (N ∖ ({[Target e]} ∪ S) ⊂ N ∖ S) as Hlt; [|apply subset_size in Hlt; lia].
        split; [set_solver +|]. intros Hsub. specialize (Hsub (Target e)). set_solver.
      + by apply elem_of_union_r.
      + apply union_subseteq. split; [by apply singleton_subseteq_l|done].
      + intros m [->%elem_of_singleton|Hm]%elem_of_union; [|by apply Hre].
        apply (reach_child _ _ n); [by apply Hre|by exists e]. }
  apply (Hgrow _ {[root]} (le_n _)); [by apply elem_of_singleton|by apply singleton_subseteq_l|].
  intros n ->%elem_of_singleton. constructor.
Qed.

Section graph.
Variable types : gmap nat decl.
Hypothesis Hres : all_resolved types.

(** The type a field cannot avoid is one that every value of it has to have. *)
Definition demands (t : TypeRef) (o : option UserDefinedType) : Prop :=
  match o with
  | None => has_value types t
  | Some u => (has_value types t <-> has_instance types (address u)) /\ address u ∈ dom types
  end.

Lemma NonAvoidable_demands t :
  resolved types t -> exists o, NonAvoidableUserType t = Some o /\ demands t o.
Proof.
  induction t as [t|s|h|b n e IH|b k _ v _|r]; intros Hr; simpl in *.
  - exists None. split; [done|constructor].
  - exists None. split; [done|constructor].
  - exists None. split; [done|constructor].
  - destruct b; simpl; [exists None; split; [done|constructor]|].
    destruct (Z.leb_spec n 0); [exists None; split; [done|by constructor]|].
    destruct (IH Hr) as ([u|]&->&Hd).
    + exists (Some u). split; [done|]. destruct Hd as [Hd Hin]. split; [|done]. rewrite <- Hd.
      split; [intros Hv; inversion Hv; [lia|done]|by apply hv_array].
    + exists None. split; [done|by apply hv_array].
  - exists None. split; [done|constructor].
  - destruct Hr as (u&Hu&Hk). unfold UserTypeRef_NonAvoidableUserType. rewrite Hu.
    destruct (nullable r) eqn:Hn; [exists None; split; [done|by constructor]|].
    destruct (interfaceRequest r) eqn:Hi; [exists None; split; [done|by apply hv_request]|]. simpl.
    destruct (types !! address u) as [d|] eqn:Hd; [|done]. simpl in Hk. simplify_eq/=.
    assert (demands (TRUser r) (Some u)) as Hdem.
    { split; [|by apply elem_of_dom]. split; [|by apply hv_user].
      intros Hv. inversion Hv; congruence. }
    destruct d; simpl in Hk; rewrite <- Hk.
    + by exists (Some u).
    + by exists (Some u).
    + exists None. split; [done|]. apply (hv_user _ _ u); [done|by apply hi_enum].
    + exists None. split; [done|]. apply (hv_user _ _ u); [done|by apply hi_interface].
Qed.

Lemma struct_fields_resolved a s f :
  types !! a = Some (DStruct s) -> f ∈ FieldsInLexicalOrder s -> resolved types (FieldType f).
Proof. intros Ha Hf. apply (Hres _ _ _ Ha). simpl. by apply list_elem_of_fmap_2. Qed.
Lemma union_fields_resolved a u f :
  types !! a = Some (DUnion u) -> f ∈ un_FieldsInLexicalOrder u -> resolved types (u_FieldType f).
Proof. intros Ha Hf. apply (Hres _ _ _ Ha). simpl. by apply list_elem_of_fmap_2. Qed.

Lemma struct_edges_spec fields :
  (forall f, f ∈ fields -> resolved types (FieldType f)) ->
  exists es, struct_edges fields = Some es /\
    forall e, e ∈ es <-> exists f u, f ∈ fields /\ NonAvoidableUserType (FieldType f) = Some (Some u) /\
      e = mkEdge (dd_nameToken (f_decl f)) (TypeBase (address u)).
Proof.
  induction fields as [|f fields IH]; intros Hf; simpl.
  - exists []. split; [done|]. intros e. split; [by intros ?%elem_of_nil|by intros (f&u&?%elem_of_nil&_)].
  - destruct (NonAvoidable_demands (FieldType f)) as (o&Ho&_); [apply Hf; by left|].
    destruct IH as (es&->&Hes); [intros; apply Hf; by right|]. rewrite Ho. simpl.
    destruct o as [u|]; eexists; (split; [done|]); intros e; rewrite ?elem_of_cons, Hes.
    + split.
      * intros [->|(f'&u'&Hf'&Hrest)]; [exists f, u|exists f', u']; rewrite elem_of_cons; auto.
      * intros (f'&u'&[->|Hf']%elem_of_cons&Hu'&->); [left; by rewrite Ho in Hu'; simplify_eq|right; eauto].
    + split.
      * intros (f'&u'&Hf'&Hrest). exists f', u'. rewrite elem_of_cons; auto.
      * intros (f'&u'&[->|Hf']%elem_of_cons&Hu'&->); [congruence|eauto].
Qed.

Lemma union_edges_spec fields leaf :
  (forall f, f ∈ fields -> resolved types (u_FieldType f)) ->
  exists es leaf', union_edges fields leaf = Some (es, leaf') /\
    (forall e, e ∈ es <-> exists f u, f ∈ fields /\ NonAvoidableUserType (u_FieldType f) = Some (Some u) /\
      e = mkEdge (dd_nameToken (u_decl f)) (TypeBase (address u))) /\
    (is_Some leaf' <-> is_Some leaf \/ exists f, f ∈ fields /\ NonAvoidableUserType (u_FieldType f) = Some None).
Proof.
  revert leaf. induction fields as [|f fields IH]; intros leaf Hf; simpl.
  - exists [], leaf. split; [done|]. split.
    + intros e. split; [by intros ?%elem_of_nil|by intros (f&u&?%elem_of_nil&_)].
    + split; [by left|]. intros [?|(f&?%elem_of_nil&_)]; done.
  - destruct (NonAvoidable_demands (u_FieldType f)) as (o&Ho&_); [apply Hf; by left|]. rewrite Ho. simpl.
    destruct o as [u|].
    + destruct (IH leaf) as (es&l&->&Hes&Hl); [intros; apply Hf; by right|]. simpl.
      eexists _, l. split; [done|]. split.
      * intros e. rewrite elem_of_cons, Hes. split.
        -- intros [->|(f'&u'&Hf'&Hrest)]; [exists f, u|exists f', u']; rewrite elem_of_cons; auto.
        -- intros (f'&u'&[->|Hf']%elem_of_cons&Hu'&->); [left; by rewrite Ho in Hu'; simplify_eq|right; eauto].
      * rewrite Hl. split; (intros [?|(f'&Hf'&Hn)]; [by left|right]).
        -- exists f'. rewrite elem_of_cons. auto.
        -- apply elem_of_cons in Hf' as [->|]; [congruence|eauto].
    + destruct (IH (match leaf with Some _ => leaf | None => Some (dd_nameToken (u_decl f)) end))
        as (es&l&->&Hes&Hl); [intros; apply Hf; by right|].
      exists es, l. split; [done|]. split.
      * intros e. rewrite Hes. split; intros (f'&u'&Hf'&Hu'&->); exists f', u'; rewrite elem_of_cons in *; [by auto|].
        destruct Hf' as [->|]; [congruence|auto].
      * rewrite Hl. split; [intros _|].
        -- right. exists f. rewrite elem_of_cons. auto.
        -- intros _. left. by destruct leaf.
Qed.

Abbreviation tchild := (child (edges types)).
Abbreviation tWF := (WF (edges types) (IsSquare types)).

Lemma struct_child a s n :
  types !! a = Some (DStruct s) ->
  tchild (TypeBase a) n <-> exists f u, f ∈ FieldsInLexicalOrder s /\
    NonAvoidableUserType (FieldType f) = Some (Some u) /\ n = TypeBase (address u).
Proof.
  intros Ha. destruct (struct_edges_spec (FieldsInLexicalOrder s)) as (es&Hes&Hin);
    [by eauto using struct_fields_resolved|].
  unfold child, edges, OutEdges. rewrite Ha, Hes. simpl. split.
  - intros (e&(f&u&Hf&Hu&->)%Hin&<-). by exists f, u.
  - intros (f&u&Hf&Hu&->). exists (mkEdge (dd_nameToken (f_decl f)) (TypeBase (address u))).
    split; [|done]. rewrite Hin. by exists f, u.
Qed.

(** A union has an edge for each field that demands a type and, when it has
    such a field, one to a leaf if another field demands none. *)
Lemma union_child a u :
  types !! a = Some (DUnion u) ->
  (forall n, tchild (TypeBase a) n <->
    (exists f t, f ∈ un_FieldsInLexicalOrder u /\ NonAvoidableUserType (u_FieldType f) = Some (Some t) /\
       n = TypeBase (address t)) \/
    n = LeafNode a /\ (exists f t, f ∈ un_FieldsInLexicalOrder u /\
       NonAvoidableUserType (u_FieldType f) = Some (Some t)) /\
      exists f, f ∈ un_FieldsInLexicalOrder u /\ NonAvoidableUserType (u_FieldType f) = Some None).
Proof.
  intros Ha n. destruct (union_edges_spec (un_FieldsInLexicalOrder u) None) as (es&l&Hes&Hin&Hl);
    [by eauto using union_fields_resolved|].
  assert (es <> [] <-> exists f t, f ∈ un_FieldsInLexicalOrder u /\
    NonAvoidableUserType (u_FieldType f) = Some (Some t)) as Hne.
  { split.
    - destruct es as [|e es]; [done|]. intros _.
      destruct (proj1 (Hin e)) as (f&t&Hf&Ht&_); [by left|by exists f, t].
    - intros (f&t&Hf&Ht) ->. eapply not_elem_of_nil, Hin. by exists f, t. }
  assert (exists e0, edges types (TypeBase a) = es ++ e0 /\
    ((e0 = [] /\ ~ (es <> [] /\ is_Some l)) \/ exists token, e0 = [mkEdge token (LeafNode a)] /\ es <> [] /\ is_Some l))
    as (e0&He&He0).
  { unfold edges, OutEdges. rewrite Ha, Hes. simpl. destruct l as [token|].
    - case_bool_decide as Hnil; simpl; [exists []; rewrite app_nil_r; split; [done|left; split; [done|by intros [? _]]]|].
      eexists. split; [done|]. right. exists token. split_and!; [done|done|by exists token].
    - exists []. rewrite app_nil_r. split; [done|]. left. split; [done|]. by intros [_ [??]]. }
  assert (is_Some l <-> exists f, f ∈ un_FieldsInLexicalOrder u /\ NonAvoidableUserType (u_FieldType f) = Some None)
    as Hl'.
  { rewrite Hl. split; [intros [[??]|?]; done|by right]. }
  unfold child. rewrite He, <- Hl', <- Hne. split.
  - intros (e&[Hee|Hee]%elem_of_app&<-).
    + left. apply Hin in Hee as (f&t&Hf&Ht&->). by exists f, t.
    + right. destruct He0 as [[-> _]|(token&->&Hn&Hs)]; [by apply not_elem_of_nil in Hee|].
      apply list_elem_of_singleton in Hee as ->. done.
  - intros [(f&t&Hf&Ht&->)|(->&Hn&Hs)].
    + exists (mkEdge (dd_nameToken (u_decl f)) (TypeBase (address t))). rewrite elem_of_app.
      split; [left; apply Hin; by exists f, t|done].
    + destruct He0 as [[-> Hno]|(token&->&_)]; [by destruct Hno|].
      exists (mkEdge token (LeafNode a)). rewrite elem_of_app. split; [right; apply list_elem_of_here|done].
Qed.

Lemma leaf_WF a : tWF (LeafNode a).
Proof. by apply wf_leaf. Qed.

Lemma WF_instance n : tWF n -> forall a, n = TypeBase a -> a ∈ dom types -> has_instance types a.
Proof.
  induction 1 as [n Hl|n Hs Hall IH|n c Hs Hc Hwf IH]; intros a -> Ha.
  - apply elem_of_dom in Ha as [[s|u| |] Ha]; [| |by apply hi_enum|by apply hi_interface].
    + apply (hi_struct _ _ s Ha). intros f Hf.
      destruct (NonAvoidable_demands (FieldType f)) as ([t|]&Ht&Hd); [by eauto using struct_fields_resolved| |done].
      destruct (proj2 (struct_child a s (TypeBase (address t)) Ha)) as (e&He&_); [by exists f, t|].
      rewrite Hl in He. by apply not_elem_of_nil in He.
    + destruct (un_FieldsInLexicalOrder u) as [|f fs] eqn:Hfs; [by apply (hi_union_empty _ _ u)|].
      assert (f ∈ un_FieldsInLexicalOrder u) as Hf by (rewrite Hfs; apply list_elem_of_here).
      destruct (NonAvoidable_demands (u_FieldType f)) as ([t|]&Ht&Hd);
        [by eauto using union_fields_resolved| |by apply (hi_union _ _ u f)].
      destruct (proj2 (union_child a u Ha (TypeBase (address t)))) as (e&He&_); [left; by exists f, t|].
      rewrite Hl in He. by apply not_elem_of_nil in He.
  - apply elem_of_dom in Ha as [[s|u| |] Ha]; [| |by apply hi_enum|by apply hi_interface].
    + apply (hi_struct _ _ s Ha). intros f Hf.
      destruct (NonAvoidable_demands (FieldType f)) as ([t|]&Ht&Hd); [by eauto using struct_fields_resolved| |done].
      destruct Hd as [Hd Hin]. apply Hd. apply (IH (TypeBase (address t))); [|done|done].
      apply (struct_child a s _ Ha). by exists f, t.
    + simpl in Hs. by rewrite Ha in Hs.
  - simpl in Hs. apply bool_decide_eq_true in Hs. apply elem_of_dom in Ha as [d Ha'].
    rewrite Ha' in Hs. destruct d as [s|u| |]; try done.
    pose proof (proj1 (union_child a u Ha' c) Hc) as [(f&t&Hf&Ht&Hct)|(_&_&f&Hf&Ht)].
    + destruct (NonAvoidable_demands (u_FieldType f)) as (o&Ho&Hd); [by eauto using union_fields_resolved|].
      rewrite Ho in Ht. simplify_eq/=. destruct Hd as [Hd Hin].
      apply (hi_union _ _ u f); [done|done|]. apply Hd. by apply (IH _ eq_refl).
    + destruct (NonAvoidable_demands (u_FieldType f)) as (o&Ho&Hd); [by eauto using union_fields_resolved|].
      rewrite Ho in Ht. simplify_eq/=. by apply (hi_union _ _ u f).
Qed.

Lemma instance_WF a : has_instance types a -> tWF (TypeBase a).
Proof.
  revert a. apply (has_instance_mind types
    (fun t => forall u, resolved types t -> NonAvoidableUserType t = Some (Some u) -> tWF (TypeBase (address u)))
    (fun a => tWF (TypeBase a))); simpl; try done.
  - intros b n t Hn u _ H. rewrite (proj2 (Z.leb_le n 0) Hn), orb_true_r in H. done.
  - intros b n t _ IH u Hr H. destruct (b || (n <=? 0)); [done|]. by apply IH.
  - intros r Hn u _ H. unfold UserTypeRef_NonAvoidableUserType in H. by rewrite Hn in H.
  - intros r Hn u _ H. unfold UserTypeRef_NonAvoidableUserType in H. by rewrite Hn, orb_true_r in H.
  - intros r t Ht _ IH u _ H. unfold UserTypeRef_NonAvoidableUserType in H. rewrite Ht in H.
    destruct (nullable r || interfaceRequest r); [done|]. simpl in H. by destruct (udt_Kind t); simplify_eq.
  - intros a s Ha _ IH. apply wf_circle; [simpl; by rewrite Ha|].
    intros c (f&u&Hf&Hu&->)%(struct_child a s c Ha). apply (IH f Hf); [|done].
    by eapply struct_fields_resolved.
  - intros a u f Ha Hf _ IH.
    destruct (NonAvoidable_demands (u_FieldType f)) as (o&Ho&Hd); [by eauto using union_fields_resolved|].
    assert (IsSquare types (TypeBase a) = true) as Hsq by (simpl; by rewrite Ha).
    destruct o as [t|].
    + apply (wf_square _ _ _ (TypeBase (address t))); [done| |].
      * apply (union_child a u Ha). left. by exists f, t.
      * apply (IH t); [by eapply union_fields_resolved|done].
    + destruct (edges types (TypeBase a)) as [|e es] eqn:He; [by apply wf_leaf|].
      assert (tchild (TypeBase a) (Target e)) as Hch by (exists e; rewrite He; split; [apply list_elem_of_here|done]).
      apply (union_child a u Ha) in Hch as [Hex|Hex].
      * apply (wf_square _ _ _ (LeafNode a)); [done| |apply leaf_WF].
        apply (union_child a u Ha). right. destruct Hex as (f'&t&Hf'&Ht&_). split_and!; [done|by exists f', t|by exists f].
      * apply (wf_square _ _ _ (LeafNode a)); [done| |apply leaf_WF].
        apply (union_child a u Ha). by right; destruct Hex as (_&?&?).
  - intros a u Ha Hu. apply wf_leaf. unfold edges, OutEdges. rewrite Ha, Hu. done.
  - intros a Ha. apply wf_leaf. unfold edges, OutEdges. by rewrite Ha.
  - intros a Ha. apply wf_leaf. unfold edges, OutEdges. by rewrite Ha.
Qed.

(** ** The reachable nodes *)

Definition nodes : gset type_node := set_map TypeBase (dom types) ∪ set_map LeafNode (dom types).

Lemma nodes_base a : TypeBase a ∈ nodes <-> a ∈ dom types.
Proof. unfold nodes. rewrite elem_of_union, !elem_of_map. naive_solver. Qed.
Lemma nodes_leaf a : LeafNode a ∈ nodes <-> a ∈ dom types.
Proof. unfold nodes. rewrite elem_of_union, !elem_of_map. naive_solver. Qed.

Lemma nodes_size : (size nodes <= 2 * size types)%nat.
Proof.
  assert (forall f : nat -> type_node, Inj eq eq f ->
    size (set_map (D := gset type_node) f (dom types)) = size types) as Hm.
  { intros f Hf. rewrite <- (size_dom types). unfold set_map.
    rewrite size_list_to_set, length_fmap; [done|]. apply NoDup_fmap_2; [done|apply NoDup_elements]. }
  unfold nodes. rewrite size_union_alt.
  assert (size (set_map (D := gset type_node) LeafNode (dom types) ∖ set_map TypeBase (dom types)) <=
    size (set_map (D := gset type_node) LeafNode (dom types)))%nat as Hle
    by (apply subseteq_size; set_solver +).
  rewrite (Hm TypeBase) by (by intros ?? [=]). rewrite (Hm LeafNode) in Hle by (by intros ?? [=]). lia.
Qed.

Lemma nodes_closed n c : n ∈ nodes -> tchild n c -> c ∈ nodes.
Proof.
  destruct n as [a|a]; [|by intros _ (e&?%not_elem_of_nil&_)].
  intros [d Ha]%nodes_base%elem_of_dom. destruct d as [s|u| |].
  - intros (f&t&Hf&Ht&->)%(struct_child a s c Ha). apply nodes_base.
    destruct (NonAvoidable_demands (FieldType f)) as (o&Ho&Hd); [by eauto using struct_fields_resolved|].
    rewrite Ht in Ho. simplify_eq. apply Hd.
  - intros [(f&t&Hf&Ht&->)|(->&_)]%(union_child a u Ha).
    + apply nodes_base.
      destruct (NonAvoidable_demands (u_FieldType f)) as (o&Ho&Hd); [by eauto using union_fields_resolved|].
      rewrite Ht in Ho. simplify_eq. apply Hd.
    + apply nodes_leaf. by apply elem_of_dom.
  - intros (e&He&_). unfold edges, OutEdges in He. rewrite Ha in He. by apply not_elem_of_nil in He.
  - intros (e&He&_). unfold edges, OutEdges in He. rewrite Ha in He. by apply not_elem_of_nil in He.
Qed.

(** ** The loop over the types *)

Hypothesis Hloop : no_direct_loop types.
Variable iter : nat -> gset type_node -> list type_node.
Hypothesis Hiter : forall k X, iter k X ≡ₚ elements X.

Lemma no_circle_loop n : IsSquare types n = false -> ~ tchild n n.
Proof.
  destruct n as [a|a]; [|by intros _ (e&?%not_elem_of_nil&_)]. intros Hs Hch.
  destruct (types !! a) as [[s|u| |]|] eqn:Ha; simpl in Hs; try (by rewrite Ha in Hs).
  - destruct (proj1 (struct_child a s _ Ha) Hch) as (f&t&Hf&Ht&Heq). injection Heq as Heq.
    by apply (Hloop a s f t).
  - destruct Hch as (e&He&_). unfold edges, OutEdges in He. rewrite Ha in He. by apply not_elem_of_nil in He.
  - destruct Hch as (e&He&_). unfold edges, OutEdges in He. rewrite Ha in He. by apply not_elem_of_nil in He.
  - destruct Hch as (e&He&_). unfold edges, OutEdges in He. rewrite Ha in He. by apply not_elem_of_nil in He.
Qed.

(** The nodes known to be well-founded between the checks of two types. *)
Record known_ok (K : gset type_node) : Prop := mkKnownOk {
  ko_leaves : leaves types ⊆ K;
  ko_wf n : n ∈ K -> tWF n;
  ko_closed n c : n ∈ K -> tchild n c -> c ∈ K
}.

Lemma leaves_ok : known_ok (leaves types).
Proof.
  unfold leaves. split; [done|..].
  - intros n (a&->&_)%elem_of_map. apply leaf_WF.
  - intros n c (a&->&_)%elem_of_map (e&He&_). by apply not_elem_of_nil in He.
Qed.

Lemma ill_type n : n ∈ nodes -> ~ tWF n -> exists a, n = TypeBase a /\ ~ has_instance types a.
Proof.
  intros Hn Hwf. destruct n as [a|a]; [|by destruct Hwf; apply leaf_WF].
  exists a. split; [done|]. intros Hi. by apply Hwf, instance_WF.
Qed.

Lemma describe_ok c :
  Path c <> [] ->
  (forall n, n = First c \/ (exists e, e ∈ Path c /\ Target e = n) -> n ∈ nodes /\ ~ tWF n) ->
  exists e, describe c = Some e /\ ~ has_instance types (firstIllFoundedType e) /\
    forall t a, (t, a) ∈ steps e -> ~ has_instance types a.
Proof.
  intros Hne Hall. unfold describe.
  destruct (ill_type (First c)) as (a&Ha&Hia); [by apply Hall; left..|]. rewrite Ha. simpl.
  assert (forall l : list edge, (forall e, e ∈ l -> e ∈ Path c) ->
    exists st, mapM (fun e => t ← nodeToUserDefinedType (Target e); Some (Label e, t)) l = Some st /\
      forall t b, (t, b) ∈ st -> ~ has_instance types b) as Hmap.
  { induction l as [|e l IH]; intros Hl.
    - exists []. split; [done|]. by intros t b ?%not_elem_of_nil.
    - destruct IH as (st&Hst&Hok); [intros; apply Hl; by right|].
      destruct (ill_type (Target e)) as (b&Hb&Hib);
        [by (apply Hall; right; exists e; split; [apply Hl; left|])..|].
      exists ((Label e, b) :: st). split; [simpl; rewrite Hb; simpl; by rewrite Hst|].
      intros t b' [[= -> ->]|Hin]%elem_of_cons; [done|by eapply Hok]. }
  destruct (Hmap (Path c)) as (st&->&Hok); [done|]. simpl.
  destruct (Path c) as [|e l]; [done|]. simpl. eexists. split; [done|]. split; [done|apply Hok].
Qed.

Lemma type_check_ok fuel K a :
  known_ok K -> a ∈ dom types -> (2 * size types <= fuel)%nat ->
  exists K' r, type_CheckWellFounded types iter fuel K a = Ok (K', r) /\
    match r with
    | None => known_ok K' /\ has_instance types a
    | Some e => ~ has_instance types (firstIllFoundedType e) /\ firstIllFoundedType e ∈ dom types /\
        forall t b, (t, b) ∈ steps e -> ~ has_instance types b
    end.
Proof.
  intros HK Ha Hfuel. pose proof (proj2 (nodes_base a) Ha) as Hin.
  destruct (reachable_set (edges types) nodes (TypeBase a)) as (U&HU&HUr); [done|exact nodes_closed|].
  destruct (CheckWellFounded_ok (edges types) (IsSquare types) iter Hiter U K (TypeBase a) HUr)
    with (fuel := fuel) as (K'&r&Hr&H1&H2&H3&H4); [apply (ko_wf _ HK)|by apply (ko_closed _ HK)| | |].
  - intros n _. apply no_circle_loop.
  - etrans; [by apply subseteq_size|]. etrans; [apply nodes_size|done].
  - unfold type_CheckWellFounded. rewrite Hr. simpl. destruct r as [c|].
    + destruct H4 as [Hcy Hill]. destruct (describe_ok c) as (e&He&Hfi&Hst).
      * apply Hcy.
      * intros n Hn. destruct (Hill n Hn) as [Hre Hwf]. split; [|done]. by apply HU, HUr.
      * rewrite He. exists K', (Some e). split_and!; [done|done| |done].
        unfold describe in He. destruct (First c) as [b|b] eqn:Hb; simpl in He; [|done].
        destruct (mapM _ _); simpl in He; [|done]. destruct (head _); simpl in He; simplify_eq. simpl.
        apply nodes_base, HU, HUr. destruct (Hill (First c)) as [Hre _]; [by left|]. by rewrite Hb in Hre.
    + exists K', None. split; [done|]. split.
      * split; [intros n Hn; by apply H1, (ko_leaves _ HK)|done|].
        intros n c Hn Hc. destruct (H3 n Hn) as [Hn0|HnU]; [by apply H1, (ko_closed _ HK n)|].
        apply H4, HUr, (HUr c). eapply reach_child; [by apply HUr|done].
      * apply (WF_instance (TypeBase a)); [|done|done]. apply H2, H4. constructor.
Qed.

Lemma detect_loop_ok fuel K keyList :
  known_ok K -> (forall a, a ∈ keyList -> a ∈ dom types) -> (2 * size types <= fuel)%nat ->
  exists r, detect_loop types iter fuel K keyList = Ok r /\
    match r with
    | None => forall a, a ∈ keyList -> has_instance types a
    | Some e => ~ has_instance types (firstIllFoundedType e) /\ firstIllFoundedType e ∈ dom types /\
        forall t b, (t, b) ∈ steps e -> ~ has_instance types b
    end.
Proof.
  intros HK Hkeys Hfuel. revert K HK. induction keyList as [|a keyList IH]; intros K HK; simpl.
  - exists None. split; [done|]. by intros a ?%not_elem_of_nil.
  - destruct (type_check_ok fuel K a HK) as (K'&r&->&Hr); [apply Hkeys; by left|done|]. simpl.
    destruct r as [e|]; [by exists (Some e)|]. destruct Hr as [HK' Hi].
    destruct (IH ltac:(intros; apply Hkeys; by right) K' HK') as (r&->&Hr). exists r. split; [done|].
    destruct r as [e|]; [done|]. intros b [->|Hb]%elem_of_cons; [done|by apply Hr].
Qed.
End graph.

(** C34: on the types of a descriptor after resolution, if no struct directly
    contains itself, [DetectIllFoundedTypes] ends without a panic; it returns nil
    exactly if every type has a finite instance, and otherwise names a type
    that has none and a cycle through such types only; whatever the order of the
    iterations over maps. *)
Theorem DetectIllFoundedTypes_exact types iter keyList fuel :
  all_resolved types -> no_direct_loop types -> (forall k X, iter k X ≡ₚ elements X) ->
  (forall a, a ∈ keyList <-> a ∈ dom types) -> (2 * size types <= fuel)%nat ->
  exists r, DetectIllFoundedTypes types iter fuel keyList = Ok r /\
    (r = None <-> forall a, a ∈ dom types -> has_instance types a) /\
    (forall e, r = Some e -> ~ has_instance types (firstIllFoundedType e) /\
       forall t b, (t, b) ∈ steps e -> ~ has_instance types b).
Proof.
  intros Hres Hloop Hiter Hkeys Hfuel.
  destruct (detect_loop_ok types Hres Hloop iter Hiter fuel (leaves types) keyList) as (r&Hr&Hok);
    [by apply leaves_ok|by intros a ?%Hkeys|done|].
  exists r. split; [done|]. destruct r as [e|]; split.
  - split; [done|]. intros Hall. destruct Hok as (Hn&Hin&_). by destruct Hn; apply Hall.
  - intros ? [= <-]. by destruct Hok as (?&_&?).
  - split; [|done]. intros _ a Ha. by apply Hok, Hkeys.
  - done.
Qed.

(** ** An example: a struct and a union that contain each other *)

Definition demo_ref (a : nat) (k : UserDefinedTypeKind) : TypeRef :=
  TRUser (NewResolvedUserTypeRef "T" (mkUserDefinedType a k "TYPE_KEY:T" "T")).
Definition demo_struct : @MojomStruct UserTypeRef :=
  set_fields ∅ [NewStructField (DeclData "u" zeroToken None) (demo_ref 1 UserDefinedTypeKindUnion) None]
    (NewMojomStruct (DeclData "S" zeroToken None)).
Definition demo_union : @MojomUnion UserTypeRef :=
  set_union_fields ∅ [mkUnionField (DeclData "s" zeroToken None) (demo_ref 0 UserDefinedTypeKindStruct) 0;
    mkUnionField (DeclData "x" zeroToken None) (TRSimple SimpleTypeInt32) 1]
    (NewMojomUnion (DeclData "U" zeroToken None)).
Definition demo_types : gmap nat decl := {[0%nat := DStruct demo_struct; 1%nat := DUnion demo_union]}.

Lemma demo_lookup a d : demo_types !! a = Some d ->
  a = 0%nat /\ d = DStruct demo_struct \/ a = 1%nat /\ d = DUnion demo_union.
Proof.
  unfold demo_types. intros [[<- <-]|[_ H]]%lookup_insert_Some; [by left|right].
  by apply lookup_singleton_Some in H as [<- <-].
Qed.

Lemma demo_resolved : all_resolved demo_types.
Proof.
  intros a d t [[_ ->]|[_ ->]]%demo_lookup Ht; simpl in Ht;
    repeat (apply elem_of_cons in Ht as [->|Ht]; [by try (eexists; split; [reflexivity|])|]);
    by apply not_elem_of_nil in Ht.
Qed.
Lemma demo_no_loop : no_direct_loop demo_types.
Proof.
  intros a s f t [[-> Hs]|[_ Hs]]%demo_lookup Hf Ht; [|done]. injection Hs as ->.
  simpl in Hf. apply list_elem_of_singleton in Hf as ->. simpl in Ht. by injection Ht as <-.
Qed.

Lemma DetectIllFoundedTypes_exact_witness :
  exists r, DetectIllFoundedTypes demo_types (fun _ X => elements X) 4 [1; 0]%nat = Ok r /\
    (r = None <-> forall a, a ∈ dom demo_types -> has_instance demo_types a) /\
    (forall e, r = Some e -> ~ has_instance demo_types (firstIllFoundedType e) /\
       forall t b, (t, b) ∈ steps e -> ~ has_instance demo_types b).
Proof.
  apply DetectIllFoundedTypes_exact; [exact demo_resolved|exact demo_no_loop|done| |by vm_compute; lia].
  intros a. rewrite elem_of_dom. split.
  - intros [->|[->|Ha%not_elem_of_nil]%elem_of_cons]%elem_of_cons; [by eexists|by eexists|done].
  - intros [d [[-> _]|[-> _]]%demo_lookup]; [right; left|left].
Defined.
