(* ===== verification/ComputedData.v ===== *)
(** * Computed data: compiler/core/computed_data.go

    Packing of struct fields, version tables of structs, versions of
    interfaces and the integer values of enums.  The linked list
    [fieldsInPackingOrder] is the list of its pointers. *)
From S2P Require Export UserDefined.

(** After resolution the types are read through their pointers. *)
Abbreviation StructField := (UserDefined.StructField UserTypeRef).
Abbreviation MojomStruct := (UserDefined.MojomStruct UserTypeRef).
Abbreviation MojomMethod := (UserDefined.MojomMethod UserTypeRef).
Abbreviation MojomInterface := (UserDefined.MojomInterface UserTypeRef).

(** ** Packing *)
Definition computePadding (offset alignment : Z) : Z :=
  u32 (alignment - offset mod alignment) mod alignment.

Definition isBoolField (field : StructField) : bool :=
  match FieldType field with
  | TRSimple simpleType => bool_decide (simpleType = SimpleTypeBool)
  | _ => false
  end.

(** [StructField.Offset] and [StructField.Bit] panic on an unset value. *)
Definition Offset (f : StructField) : option Z :=
  if offset f <? 0 then None else Some (u32 (offset f)).
Definition Bit (f : StructField) : option Z :=
  if bit f <? 0 then None else Some (u8 (bit f)).

Definition set_packing (o b : Z) (f : StructField) : StructField :=
  mkStructField (f_decl f) (FieldType f) (DefaultValue f) (f_minVersion f) o b.
Definition set_minVersion (v : Z) (f : StructField) : StructField :=
  mkStructField (f_decl f) (FieldType f) (DefaultValue f) v (offset f) (bit f).

(** The new value of [field]. *)
Definition computeTentativeFieldOffset (field previousField : StructField) : option StructField :=
  if isBoolField field && isBoolField previousField && (bit previousField <? 7) then
    o ← Offset previousField;
    Some (set_packing o (bit previousField + 1) field)
  else
    o ← Offset previousField;
    size ← SerializationSize (FieldType previousField);
    let offset := u32 (o + size) in
    alignment ← SerializationAlignment (FieldType field);
    Some (set_packing (u32 (offset + computePadding offset alignment)) 0 field).

Definition field_at {E} (p : nat) : M MojomStruct E StructField := deref FieldsInLexicalOrder p.
Definition put_field {E} (p : nat) (f : StructField) : M MojomStruct E unit :=
  update_field p (fun _ => f).

(** Places [field] somewhere after [before], which [rest] follows in packing
    order; returns the list from [before] on. *)
Fixpoint insert_field {E} (field before : nat) (rest : list nat) : M MojomStruct E (list nat) :=
  let! f := field_at field in
  let! b := field_at before in
  let! f := must (computeTentativeFieldOffset f b) in
  put_field field f ;;;
  match rest with
  | [] => ret [before; field]
  | after :: rest =>
    let! a := field_at after in
    let! o := must (Offset f) in
    let! size := must (SerializationSize (FieldType f)) in
    let! afterOffset := must (Offset a) in
    if u32 (o + size) <=? afterOffset then ret (before :: field :: after :: rest)
    else
      let! l := insert_field field after rest in
      ret (before :: l)
  end.

(** The loop over the fields in ordinal order; [first] is [i == 0]. *)
Fixpoint pack_fields {E} (fields : list (option nat)) (first : bool) (fieldsInPackingOrder : list nat)
    : M MojomStruct E (list nat) :=
  match fields with
  | [] => ret fieldsInPackingOrder
  | None :: _ => panic
  | Some field :: fields =>
    let! packing :=
      if first then
        let! f := field_at field in
        put_field field (set_packing 0 0 f) ;;;
        ret (fieldsInPackingOrder ++ [field])
      else
        match fieldsInPackingOrder with
        | [] => panic
        | before :: rest => insert_field field before rest
        end in
    pack_fields fields false packing
  end.
Definition computeFieldOffsets {E} : M MojomStruct E unit :=
  let! s := get in
  let! _ := pack_fields (default [] (fieldsInOrdinalOrder s)) true [] in
  ret tt.

(** ** Versions of a struct *)
Inductive MinVersionErrorKind : Type :=
| ErrMinVersionIllformed | ErrMinVersionOutOfOrder | ErrMinVersionNotNullable.
(** StructFieldMinVersionError and MethodMinVersionError. *)
Record MinVersionError := mkMinVersionError {
  mv_member : nat;
  previousValue : Z;
  mv_literalValue : option LiteralValue;
  mv_err : MinVersionErrorKind
}.

Definition structHeaderSize : Z := 8.
Definition MaximumUint32 (a b : Z) : Z := if b <? a then a else b.
Definition computePayloadSizeSoFar (field : StructField) : option Z :=
  o ← Offset field;
  size ← SerializationSize (FieldType field);
  let fieldEndOffset := u32 (o + size) in
  Some (u32 (u32 (structHeaderSize + fieldEndOffset) + computePadding fieldEndOffset 8)).

(** The MinVersion of a member, given that of the previous one: [Err] is the
    error's previous value, literal and kind. *)
Definition checkMinVersion (member : nat) (decl : DeclarationData) (previousMinVersion : Z)
    : res MinVersionError (Z * LiteralValue) :=
  match minVersionAttribute decl with
  | None => Panic
  | Some (value, literalValue, found, ok) =>
    if negb found then
      if negb (previousMinVersion =? 0)
      then Err (mkMinVersionError member previousMinVersion None ErrMinVersionOutOfOrder)
      else Ok (value, literalValue)
    else if negb ok
    then Err (mkMinVersionError member 0 (Some literalValue) ErrMinVersionIllformed)
    else if value <? previousMinVersion
    then Err (mkMinVersionError member previousMinVersion (Some literalValue) ErrMinVersionOutOfOrder)
    else Ok (value, literalValue)
  end.

Definition append_version (v : StructVersion) : M MojomStruct MinVersionError unit :=
  modify (fun s => set_versionInfo (default [] (versionInfo s) ++ [v]) s).

(** The loop from the field number [i] on. *)
Fixpoint version_loop (fields : list (option nat)) (i : Z) (previousMinVersion payloadSizeSoFar : Z)
    : M MojomStruct MinVersionError (Z * Z) :=
  match fields with
  | [] => ret (previousMinVersion, payloadSizeSoFar)
  | None :: _ => panic
  | Some p :: fields =>
    let! field := field_at p in
    let! checked := lift (checkMinVersion p (f_decl field) previousMinVersion) in
    let value := checked.1 in
    let! allowed :=
      if negb (value =? 0) then must (AllowedInNonZeroStructVersion (FieldType field)) else ret true in
    if negb allowed
    then throw (mkMinVersionError p 0 (Some checked.2) ErrMinVersionNotNullable)
    else
      put_field p (set_minVersion value field) ;;;
      let newVersion := previousMinVersion <? value in
      (if newVersion
       then append_version (mkStructVersion previousMinVersion (u32 i) payloadSizeSoFar)
       else ret tt) ;;;
      let previousMinVersion := if newVersion then value else previousMinVersion in
      let! size := must (computePayloadSizeSoFar field) in
      version_loop fields (i + 1) previousMinVersion (MaximumUint32 payloadSizeSoFar size)
  end.
Definition computeVersionInfo : M MojomStruct MinVersionError unit :=
  modify (set_versionInfo []) ;;;
  let! s := get in
  let fields := default [] (fieldsInOrdinalOrder s) in
  let! r := version_loop fields 0 0 structHeaderSize in
  append_version (mkStructVersion r.1 (u32 (len fields)) r.2).

(** [MojomStruct.ComputeFinalData]. *)
Definition Struct_ComputeFinalData : M MojomStruct MinVersionError unit :=
  computeFieldOffsets ;;; computeVersionInfo.

(** ** Versions of an interface *)
Definition set_version (v : Z) (i : MojomInterface) : MojomInterface :=
  mkMojomInterface (i_decl i) (MethodsByOrdinal i) (methodsByName i) (methodsByLexicalOrder i)
    (ServiceName i) v (methodsInOrdinalOrder i) (i_nested i).
Definition set_method_minVersion (v : Z) (m : MojomMethod) : MojomMethod :=
  mkMojomMethod (m_decl m) (Ordinal m) (Parameters m) (ResponseParameters m) v.

(** [versions[len(versions)-1].VersionNumber] of a parameter struct. *)
Definition params_max_version (s : MojomStruct) : option Z :=
  versions ← VersionInfo s;
  v ← List.last (map Some versions) None;
  Some (VersionNumber v).
Definition raise_version (params : option MojomStruct) : M MojomInterface MinVersionError unit :=
  match params with
  | None => ret tt
  | Some s =>
    let! v := must (params_max_version s) in
    modify (fun i => if versionNumber i <? v then set_version v i else i)
  end.

Fixpoint interface_version_loop (methods : list (option nat)) (previousMinVersion : Z)
    : M MojomInterface MinVersionError unit :=
  match methods with
  | [] => ret tt
  | None :: _ => panic
  | Some p :: methods =>
    let! method := deref methodsByLexicalOrder p in
    let! checked := lift (checkMinVersion p (m_decl method) previousMinVersion) in
    let value := checked.1 in
    update_method p (set_method_minVersion value) ;;;
    modify (fun i => if versionNumber i <? value then set_version value i else i) ;;;
    raise_version (Parameters method) ;;;
    raise_version (ResponseParameters method) ;;;
    interface_version_loop methods value
  end.
Definition computeInterfaceVersion : M MojomInterface MinVersionError unit :=
  modify (set_version 0) ;;;
  let! i := get in
  let! methods := must (methodsInOrdinalOrder i) in
  interface_version_loop methods 0.

(** [MojomInterface.ComputeFinalData] for the methods in the order in which
    Go happens to iterate over [MethodsByOrdinal]. *)
Definition final_params (params : option MojomStruct) (put : MojomStruct -> MojomMethod -> MojomMethod)
    (p : nat) : M MojomInterface MinVersionError unit :=
  match params with
  | None => ret tt
  | Some s =>
    let (s', r) := Struct_ComputeFinalData s in
    update_method p (put s') ;;;
    lift r
  end.
Definition set_Parameters (s : MojomStruct) (m : MojomMethod) : MojomMethod :=
  mkMojomMethod (m_decl m) (Ordinal m) (Some s) (ResponseParameters m) (m_minVersion m).
Definition set_ResponseParameters (s : MojomStruct) (m : MojomMethod) : MojomMethod :=
  mkMojomMethod (m_decl m) (Ordinal m) (Parameters m) (Some s) (m_minVersion m).
Fixpoint Interface_ComputeFinalData (order : list nat) : M MojomInterface MinVersionError unit :=
  match order with
  | [] => computeInterfaceVersion
  | p :: order =>
    let! method := deref methodsByLexicalOrder p in
    final_params (Parameters method) set_Parameters p ;;;
    final_params (ResponseParameters method) set_ResponseParameters p ;;;
    Interface_ComputeFinalData order
  end.

(** ** Enums *)
(** What a reference used as an initializer has resolved to: a literal, an
    enum value (the integer computed for it so far) or a built-in constant. *)
Inductive InitializerValue : Type :=
| InitLiteral (v : LiteralValue)
| InitEnumValue (computed : option Z)
| InitBuiltIn.
Inductive EnumValueError : Type := UncomputedEnumValue (ref : nat).

Section Enums.
(** The resolved concrete value of a [UserValueRef], read when it is needed:
    an enum value of the same enum is given by its index. *)
Context (resolved : nat -> option (InitializerValue + nat)).

Definition read_initializer (e : MojomEnum) (ref : nat) : option InitializerValue :=
  r ← resolved ref;
  match r with
  | inl v => Some v
  | inr i => v ← Values e !! i; Some (InitEnumValue (ComputedIntValue v))
  end.

Definition int32EnumValueFromValue (e : MojomEnum) (valueRef : ValueRef) : res EnumValueError Z :=
  let literal lv :=
    match int32Value lv with
    | Some (v, true) => Ok v
    | _ => Panic
    end in
  match valueRef with
  | VRLiteral lv => literal lv
  | VRUser ref =>
    match read_initializer e ref with
    | Some (InitLiteral lv) => literal lv
    | Some (InitEnumValue (Some v)) => Ok v
    | Some (InitEnumValue None) => Err (UncomputedEnumValue ref)
    | Some InitBuiltIn | None => Panic
    end
  end.

Definition set_int (z : Z) (v : MojomEnumValue) : MojomEnumValue :=
  mkMojomEnumValue (ev_decl v) (initializer v) (valueIndex v) (Some z).
Fixpoint enum_values_loop (values : list MojomEnumValue) (i : nat) (previousValue : Z)
    : M MojomEnum EnumValueError unit :=
  match values with
  | [] => ret tt
  | v :: values =>
    let! e := get in
    let! value :=
      match initializer v with
      | None => ret (i32 (previousValue + 1))
      | Some valueRef => lift (int32EnumValueFromValue e valueRef)
      end in
    modify (fun e => set_values (alter (set_int value) i (Values e)) e) ;;;
    enum_values_loop values (S i) value
  end.
Definition ComputeEnumValueIntegers : M MojomEnum EnumValueError unit :=
  let! e := get in
  enum_values_loop (Values e) 0 (-1).
End Enums.
