(* ===== verification/ComputedDataSpec.v ===== *)
(** * Correctness of the computed data

    Struct packing (no two fields overlap, every field is aligned, no
    overflow), version tables, interface versions and enum values. *)
From S2P Require Export UserDefinedSpec TypesSpec ComputedData.

#[local] Set Warnings "-clear-no-such-hyp".

(** ** Padding *)
Lemma computePadding_spec o a :
  a ∈ [1; 2; 4; 8] -> 0 <= o < 2 ^ 32 ->
  0 <= computePadding o a < a /\ (a | o + computePadding o a).
Proof.
  intros Ha Ho. assert (0 < a <= 8) as Ha' by (set_unfold in Ha; lia). unfold computePadding.
  pose proof (Z.mod_pos_bound o a) as Hm. rewrite u32_small by lia.
  pose proof (Z.mod_pos_bound (a - o mod a) a) as Hm'. split; [lia|].
  apply Z.mod_divide; [lia|]. rewrite Zplus_mod_idemp_r.
  replace (o + (a - o mod a)) with (o - o mod a + 1 * a) by lia.
  rewrite Z_mod_plus_full, Zminus_mod_idemp_r, Z.sub_diag. apply Zmod_0_l.
Qed.

(** ** The geometry of a packed struct *)
Definition size_of (f : StructField) : Z := default 0 (SerializationSize (FieldType f)).
Definition alignment_of (f : StructField) : Z := default 1 (SerializationAlignment (FieldType f)).
Definition end_of (f : StructField) : Z := offset f + size_of f.
(** The type of the field has a layout. *)
Definition laid_out (f : StructField) : Prop :=
  SerializationSize (FieldType f) = Some (size_of f) /\
  SerializationAlignment (FieldType f) = Some (alignment_of f) /\
  0 < size_of f <= 16 /\ alignment_of f ∈ [1; 2; 4; 8].
(** The bits of the struct a field occupies. *)
Definition first_bit (f : StructField) : Z := 8 * offset f + bit f.
Definition last_bit (f : StructField) : Z :=
  if isBoolField f then first_bit f else 8 * end_of f - 1.
Definition well_placed (f : StructField) : Prop :=
  0 <= offset f /\ (alignment_of f | offset f) /\ 0 <= bit f <= 7 /\
  (isBoolField f = false -> bit f = 0).
(** [y] comes after [x]: it starts at or after its end, or both are bits of one byte. *)
Definition follows (x y : StructField) : Prop :=
  end_of x <= offset y \/
  isBoolField x = true /\ isBoolField y = true /\ offset x = offset y /\ bit x < bit y.
(** [y] is the next field in packing order after [x]: the bits of one byte are
    dense, and a bool starts a byte only after a full one and without a gap. *)
Definition adjacent (x y : StructField) : Prop :=
  end_of x <= offset y /\ bit y = 0 /\
    (isBoolField y = true -> offset y = end_of x /\ (isBoolField x = true -> bit x = 7)) \/
  isBoolField x = true /\ isBoolField y = true /\ offset x = offset y /\ bit y = bit x + 1.
Lemma adjacent_follows x y : adjacent x y -> follows x y.
Proof. intros [[? _]|(? & ? & ? & ?)]; [by left|right]. split_and!; try done. lia. Qed.

Lemma laid_out_valid f : validated (FieldType f) -> laid_out f.
Proof.
  intros Hv. destruct (layout_of (FieldType f) Hv) as (s & a & Hs & Ha & Hin & _ & Hsz).
  unfold laid_out, size_of, alignment_of. rewrite Hs, Ha. done.
Qed.
Lemma bool_size f : isBoolField f = true -> size_of f = 1 /\ alignment_of f = 1.
Proof.
  unfold isBoolField, size_of, alignment_of. destruct (FieldType f) as [t| | | | |]; try done.
  by intros ->%bool_decide_eq_true.
Qed.
Lemma follows_chain x y z : laid_out y -> follows x y -> follows y z -> follows x z.
Proof.
  unfold follows, end_of. intros (_ & _ & Hy & _) [Hxy|(Hx & Hy' & Ho & Hb)] [Hyz|(_ & Hz & Ho' & Hb')].
  - left. lia.
  - left. lia.
  - left. destruct (bool_size x Hx), (bool_size y Hy'). lia.
  - right. split_and!; try done; lia.
Qed.
Lemma follows_disjoint x y :
  laid_out x -> laid_out y -> well_placed x -> well_placed y -> follows x y -> last_bit x < first_bit y.
Proof.
  unfold follows, last_bit, first_bit, end_of.
  intros (_ & _ & Hx & _) _ (? & _ & Hbx & Hx0) (? & _ & Hby & _) [H1|(Hx' & Hy' & Ho & Hb)].
  - destruct (isBoolField x) eqn:E; [destruct (bool_size x E); lia|]. lia.
  - rewrite Hx'. lia.
Qed.

(** ** One tentative placement *)
Definition same_field (f f' : StructField) : Prop := exists o b, f' = set_packing o b f.
Lemma same_field_size f f' : same_field f f' ->
  size_of f' = size_of f /\ alignment_of f' = alignment_of f /\ isBoolField f' = isBoolField f.
Proof. by intros (o & b & ->). Qed.
Lemma same_field_laid f f' : same_field f f' -> laid_out f -> laid_out f'.
Proof. by intros (o & b & ->). Qed.
Lemma same_field_trans f g h : same_field f g -> same_field g h -> same_field f h.
Proof. intros (o & b & ->) (o' & b' & ->). by exists o', b'. Qed.

Lemma tentative_spec f p bound :
  laid_out f -> laid_out p -> well_placed p -> end_of p <= bound -> bound + 24 < 2 ^ 32 ->
  exists f', computeTentativeFieldOffset f p = Some f' /\ same_field f f' /\
    well_placed f' /\ adjacent p f' /\ end_of f' <= bound + 23.
Proof.
  intros (Hfs & Hfa & Hfsz & Hfal) (Hps & Hpa & Hpsz & Hpal) (Ho & Hdiv & Hb & Hb0) Hend Hbound.
  unfold end_of in Hend.
  assert (Offset p = Some (offset p)) as HO.
  { unfold Offset. rewrite (proj2 (Z.ltb_ge _ _)), u32_small by lia. done. }
  unfold computeTentativeFieldOffset. rewrite HO. cbn [mbind option_bind].
  destruct (isBoolField f && isBoolField p && (bit p <? 7)) eqn:Hbool.
  - apply andb_prop in Hbool as [[Hf Hp]%andb_prop Hlt%Z.ltb_lt].
    eexists. split; [reflexivity|]. split; [by eexists _, _|].
    destruct (bool_size f Hf) as [Hs Ha], (bool_size p Hp) as [Hs' Ha'].
    unfold well_placed, adjacent, end_of.
    change (size_of (set_packing _ _ f)) with (size_of f).
    change (alignment_of (set_packing _ _ f)) with (alignment_of f).
    change (isBoolField (set_packing _ _ f)) with (isBoolField f).
    cbn [set_packing offset bit]. rewrite Ha. split_and!; try done; try lia.
    + apply Z.divide_1_l.
    + congruence.
    + right. by split_and!.
  - rewrite Hps, Hfa. cbn [mbind option_bind].
    destruct (computePadding_spec (offset p + size_of p) (alignment_of f) Hfal) as [Hpad Hd]; [lia|].
    assert (alignment_of f <= 8) by (set_unfold in Hfal; lia).
    rewrite (u32_small (offset p + size_of p)) by lia. rewrite u32_small by lia.
    set (o := offset p + size_of p + computePadding (offset p + size_of p) (alignment_of f)) in *.
    exists (set_packing o 0 f). split; [done|]. split; [by eexists _, _|].
    unfold well_placed, adjacent, end_of.
    change (size_of (set_packing o 0 f)) with (size_of f).
    change (alignment_of (set_packing o 0 f)) with (alignment_of f).
    cbn [set_packing offset bit]. split_and!; try done; try lia. left. split_and!; [lia|done|].
    change (isBoolField (set_packing o 0 f)) with (isBoolField f). intros Hf.
    destruct (bool_size f Hf) as [_ Ha]. split.
    + unfold o. rewrite Ha. unfold computePadding. rewrite Z.mod_1_r. lia.
    + intros Hp. rewrite Hf, Hp in Hbool. apply Z.ltb_ge in Hbool. lia.
Qed.

(** ** The packing list *)
(** The pointers [l] read in [s] as the fields [fs]. *)
Definition points_to (s : MojomStruct) (l : list nat) (fs : list StructField) : Prop :=
  Forall2 (fun p f => FieldsInLexicalOrder s !! p = Some f) l fs.
Definition write_field (p : nat) (f : StructField) (s : MojomStruct) : MojomStruct :=
  set_fields (fieldsByName s) (alter (fun _ => f) p (FieldsInLexicalOrder s)) s.
(** Placed without overlap, ending at or before [bound]. *)
Definition packed (bound : Z) (fs : list StructField) : Prop :=
  Sorted adjacent fs /\ Forall (fun f => laid_out f /\ well_placed f /\ end_of f <= bound) fs.

Lemma put_field_run {E B} p f (k : unit -> M MojomStruct E B) s :
  bind (put_field p f) k s = k tt (write_field p f s).
Proof. done. Qed.
Lemma write_field_eq p f g s :
  FieldsInLexicalOrder s !! p = Some g -> FieldsInLexicalOrder (write_field p f s) !! p = Some f.
Proof. intros H. cbn. by rewrite list_lookup_alter_eq, H. Qed.
Lemma write_field_ne p q f s :
  q <> p -> FieldsInLexicalOrder (write_field p f s) !! q = FieldsInLexicalOrder s !! q.
Proof. intros H. cbn. by apply list_lookup_alter_ne. Qed.
Lemma write_field_twice p f g s : write_field p f (write_field p g s) = write_field p f s.
Proof.
  unfold write_field, set_fields. cbn. f_equal. apply list_eq. intros i.
  destruct (decide (i = p)) as [->|Hne].
  - rewrite !list_lookup_alter_eq. by destruct (FieldsInLexicalOrder s !! p).
  - by rewrite !list_lookup_alter_ne.
Qed.
Lemma points_to_write s p f l fs : (p ∉ l) -> points_to s l fs -> points_to (write_field p f s) l fs.
Proof.
  intros Hp. induction 1 as [|q g l fs Hq _ IH]; constructor.
  - rewrite write_field_ne by set_solver. done.
  - apply IH. set_solver.
Qed.

Lemma insert_field_spec {E} rest : forall before s field f fb fs bound,
  points_to s (before :: rest) (fb :: fs) -> FieldsInLexicalOrder s !! field = Some f ->
  (field ∉ before :: rest) -> packed bound (fb :: fs) -> bound + 24 < 2 ^ 32 -> laid_out f ->
  exists f' l fs', insert_field (E:=E) field before rest s = (write_field field f' s, Ok (before :: l)) /\
    same_field f f' /\ points_to (write_field field f' s) (before :: l) (fb :: fs') /\
    packed (bound + 23) (fb :: fs') /\ l ≡ₚ field :: rest.
Proof.
  induction rest as [|after rest IH]; intros before s field f fb fs bound Hat Hf Hfresh [Hsort Hall] Hbound Hlaid;
    cbn [insert_field]; apply Forall2_cons_1 in Hat as [Hb Hat];
    unfold field_at; rewrite (bind_deref FieldsInLexicalOrder _ _ _ _ Hf),
      (bind_deref FieldsInLexicalOrder _ _ _ _ Hb);
    apply Forall_cons in Hall as [(Hbl & Hbw & Hbe) Hall];
    destruct (tentative_spec f fb bound) as (f1 & Hrun & Hsame & Hwell & Hfol & Hend); try done;
    rewrite Hrun; unfold bind at 1, must at 1; rewrite put_field_run.
  - apply Forall2_nil_inv_l in Hat as ->. exists f1, [field], [f1].
    split; [done|]. split; [done|]. split.
    { repeat constructor; [by rewrite write_field_ne by set_solver|by eapply write_field_eq]. }
    split; [|done]. split; [by apply Sorted_LocallySorted_iff; constructor; [constructor|]|].
    assert (laid_out f1) by by eapply same_field_laid.
    apply Forall_cons; split; [split_and!; try done; lia|]. by apply Forall_singleton.
  - apply Forall2_cons_inv_l in Hat as (fa & fs1 & Ha & Hat & ->).
    assert (FieldsInLexicalOrder (write_field field f1 s) !! after = Some fa) as Ha1.
    { by rewrite write_field_ne by set_solver. }
    assert (same_field_f1 : laid_out f1) by by eapply same_field_laid.
    rewrite (bind_deref FieldsInLexicalOrder _ _ _ _ Ha1).
    assert (Offset f1 = Some (offset f1)) as Ho1.
    { destruct Hwell. unfold Offset. unfold end_of in Hend. destruct same_field_f1 as (_ & _ & ? & _).
      rewrite (proj2 (Z.ltb_ge _ _)), u32_small by lia. done. }
    pose proof (Forall_inv Hall) as (Hal & Haw & Hae).
    assert (Offset fa = Some (offset fa)) as Hoa.
    { destruct Haw. unfold Offset. unfold end_of in Hae. destruct Hal as (_ & _ & ? & _).
      rewrite (proj2 (Z.ltb_ge _ _)), u32_small by lia. done. }
    rewrite Ho1. unfold bind at 1, must at 1.
    rewrite (proj1 same_field_f1). unfold bind at 1, must at 1.
    rewrite Hoa. unfold bind at 1, must at 1.
    assert (u32 (offset f1 + size_of f1) = end_of f1) as ->.
    { destruct Hwell, same_field_f1 as (_ & _ & ? & _). unfold end_of in *. apply u32_small. lia. }
    apply Sorted_inv in Hsort as [Hsort Hhd]. apply HdRel_inv in Hhd.
    destruct (Z.leb_spec (end_of f1) (offset fa)) as [Hfit|Hno].
    + assert (adjacent f1 fa) as Hadj.
      { destruct same_field_f1 as (_ & _ & ? & _), Hbl as (_ & _ & ? & _), Hwell as (_ & _ & ? & _).
        unfold adjacent, end_of in *. left. destruct Hhd as [(? & ? & Hgap)|(_ & _ & ? & _)]; [|lia].
        split_and!; [done|done|]. intros Hba. destruct (Hgap Hba) as [? Hfull]. exfalso.
        destruct Hfol as [(? & _)|(Hbb & _ & _ & ?)]; [lia|]. specialize (Hfull Hbb). lia. }
      exists f1, (field :: after :: rest), (f1 :: fa :: fs1).
      split; [done|]. split; [done|]. split.
      { constructor; [by rewrite write_field_ne by set_solver|]. constructor; [by eapply write_field_eq|].
        apply points_to_write; [set_solver|]. by constructor. }
      split; [|done]. split.
      { constructor; [constructor; [done|by constructor]|by constructor]. }
      constructor; [split_and!; try done; lia|]. constructor; [split_and!; try done; lia|].
      eapply Forall_impl; [exact Hall|]. cbn. intros g (? & ? & ?). split_and!; try done; lia.
    + destruct (IH after (write_field field f1 s) field f1 fa fs1 bound)
        as (f' & l & fs' & Hrun' & Hsame' & Hat' & Hpack & Hperm); try done.
      { apply points_to_write; [set_solver|]. by constructor. }
      { by eapply write_field_eq. }
      { set_solver. }
      rewrite (bind_run_ok _ _ _ _ _ Hrun'). rewrite write_field_twice in *.
      exists f', (after :: l), (fa :: fs'). split; [done|]. split; [by eapply same_field_trans|]. split.
      { constructor; [by rewrite write_field_ne by set_solver|done]. }
      split; [|rewrite Hperm; apply Permutation_swap].
      destruct Hpack as [Hs' Ha']. split; [constructor; [done|by constructor]|].
      constructor; [split_and!; try done; lia|done].
Qed.

Lemma sorted_follows bound x l : packed bound (x :: l) -> Forall (follows x) l.
Proof.
  intros [Hs Ha]. induction l as [|y l IH] in x, Hs, Ha |- *; [constructor|].
  apply Sorted_inv in Hs as [Hs Hxy%HdRel_inv%adjacent_follows]. apply Forall_cons in Ha as [Hx Ha].
  constructor; [done|]. specialize (IH y Hs Ha). apply Forall_cons in Ha as [(Hy & _) Ha].
  eapply Forall_impl; [exact IH|]. intros z Hz. by eapply follows_chain.
Qed.
Lemma packed_disjoint bound fs i j x y :
  packed bound fs -> fs !! i = Some x -> fs !! j = Some y -> (i < j)%nat -> last_bit x < first_bit y.
Proof.
  intros Hp. induction fs as [|f fs IH] in i, j, Hp |- *; intros Hi Hj Hlt; [done|].
  pose proof (sorted_follows bound f fs Hp) as Hf. destruct Hp as [Hs Ha].
  apply Sorted_inv in Hs as [Hs _]. apply Forall_cons in Ha as [(Hx & Hwx & _) Ha].
  destruct j as [|j]; [lia|]. cbn in Hj. destruct i as [|i]; cbn in Hi.
  - injection Hi as <-. pose proof (Forall_lookup_1 _ _ _ _ Ha Hj) as (Hy & Hwy & _).
    eapply Forall_lookup_1 in Hf; [|exact Hj]. by apply follows_disjoint.
  - apply (IH i j); [by split|done|done|lia].
Qed.

(** Same fields up to packing, and nothing else of the struct changed. *)
Definition repacked (s s' : MojomStruct) : Prop :=
  s' = set_fields (fieldsByName s) (FieldsInLexicalOrder s') s /\
  forall p f, FieldsInLexicalOrder s !! p = Some f ->
    exists f', FieldsInLexicalOrder s' !! p = Some f' /\ same_field f f'.
Lemma same_field_refl f : same_field f f.
Proof. exists (offset f), (bit f). by destruct f. Qed.
Lemma repacked_refl s : repacked s s.
Proof. split; [by destruct s|]. intros p f Hf. exists f. split; [done|apply same_field_refl]. Qed.
Lemma repacked_trans s1 s2 s3 : repacked s1 s2 -> repacked s2 s3 -> repacked s1 s3.
Proof.
  intros [H1 Hf1] [H2 Hf2]. split; [rewrite H2, H1; by destruct s1|].
  intros p f (g & Hg & Hfg)%Hf1. destruct (Hf2 p g Hg) as (h & Hh & Hgh).
  exists h. split; [done|]. by eapply same_field_trans.
Qed.
Lemma repacked_write s p f f' :
  FieldsInLexicalOrder s !! p = Some f -> same_field f f' -> repacked s (write_field p f' s).
Proof.
  intros Hf Hs. split; [by destruct s|]. intros q g Hg. destruct (decide (q = p)) as [->|Hne].
  - exists f'. split; [by eapply write_field_eq|]. congruence.
  - exists g. split; [by rewrite write_field_ne|apply same_field_refl].
Qed.

Definition fields_laid_out (s : MojomStruct) (ptrs : list nat) : Prop :=
  Forall (fun p => exists f, FieldsInLexicalOrder s !! p = Some f /\ laid_out f) ptrs.
Lemma repacked_laid_out s s' ptrs : repacked s s' -> fields_laid_out s ptrs -> fields_laid_out s' ptrs.
Proof.
  intros [_ Hr] H. eapply Forall_impl; [exact H|]. intros p (f & Hf & Hl).
  destruct (Hr p f Hf) as (f' & Hf' & Hs). exists f'. split; [done|]. by eapply same_field_laid.
Qed.

Lemma pack_fields_spec {E} ptrs : forall s before rest fb fs bound,
  points_to s (before :: rest) (fb :: fs) -> packed bound (fb :: fs) ->
  NoDup (ptrs ++ before :: rest) -> fields_laid_out s ptrs -> 0 <= bound ->
  bound + 24 * len ptrs < 2 ^ 32 ->
  exists s' l fs', pack_fields (E:=E) (map Some ptrs) false (before :: rest) s = (s', Ok (before :: l)) /\
    repacked s s' /\ points_to s' (before :: l) (fb :: fs') /\
    packed (bound + 23 * len ptrs) (fb :: fs') /\ l ≡ₚ ptrs ++ rest.
Proof.
  induction ptrs as [|p ptrs IH]; intros s before rest fb fs bound Hat Hp Hnd Hl Hb0 Hb; cbn [map pack_fields].
  { exists s, rest, fs. split; [done|]. split; [apply repacked_refl|]. split; [done|].
    split; [by rewrite Z.mul_0_r, Z.add_0_r|done]. }
  apply Forall_cons in Hl as [(f & Hf & Hfl) Hl]. rewrite length_cons in Hb.
  cbn [app] in Hnd. apply NoDup_cons in Hnd as [Hfresh Hnd].
  destruct (insert_field_spec (E:=E) rest before s p f fb fs bound Hat Hf) as (f' & l & fs' & Hrun & Hsame & Hat' & Hp' & Hperm);
    [set_solver|done|lia|done|].
  rewrite (bind_run_ok _ _ _ _ _ Hrun).
  pose proof (repacked_write s p f f' Hf Hsame) as Hrep.
  destruct (IH (write_field p f' s) before l fb fs' (bound + 23)) as (s' & l' & fs'' & Hrun' & Hrep' & Hat'' & Hp'' & Hperm');
    try done; try lia.
  - rewrite Hperm. rewrite (Permutation_swap p before rest), <- Permutation_middle.
    constructor; [set_solver|done].
  - by eapply repacked_laid_out.
  - exists s', l', fs''. split; [done|]. split; [by eapply repacked_trans|]. split; [done|].
    rewrite length_cons. split.
    + replace (bound + 23 * Z.of_nat (S (length ptrs))) with (bound + 23 + 23 * len ptrs) by lia. done.
    + rewrite Hperm', Hperm. by rewrite <- Permutation_middle.
Qed.

Lemma computeFieldOffsets_packed s ptrs :
  fieldsInOrdinalOrder s = Some (map Some ptrs) -> NoDup ptrs -> fields_laid_out s ptrs ->
  24 * len ptrs < 2 ^ 32 ->
  exists s' l fs, computeFieldOffsets (E:=MinVersionError) s = (s', Ok tt) /\ repacked s s' /\
    points_to s' l fs /\ packed (24 * len ptrs) fs /\ l ≡ₚ ptrs /\ head l = head ptrs /\
    (forall f, head fs = Some f -> offset f = 0 /\ bit f = 0).
Proof.
  intros Ho Hnd Hl Hb. unfold computeFieldOffsets. rewrite bind_get, Ho. cbn [default].
  destruct ptrs as [|p0 ptrs].
  { exists s, [], []. split_and!; [done|apply repacked_refl|constructor|by repeat constructor|done..]. }
  cbn [map pack_fields]. apply NoDup_cons in Hnd as [Hp0 Hnd].
  apply Forall_cons in Hl as [(f0 & Hf0 & Hl0) Hl]. rewrite length_cons in *.
  set (g0 := set_packing 0 0 f0). set (s0 := write_field p0 g0 s).
  assert (same_field f0 g0) as Hsame by by eexists _, _.
  assert (repacked s s0) as Hrep by by eapply repacked_write.
  destruct (pack_fields_spec (E:=MinVersionError) ptrs s0 p0 [] g0 [] 24) as (s' & l & fs & Hrun & Hrep' & Hat & Hp & Hperm).
  - constructor; [by eapply write_field_eq|constructor].
  - split; [by repeat constructor|]. apply Forall_singleton.
    pose proof (same_field_laid _ _ Hsame Hl0) as Hlg. split; [done|]. split.
    + split_and!; try (cbn; lia). change (offset g0) with 0. apply Z.divide_0_r.
    + unfold end_of. destruct Hlg as (_ & _ & ? & _). change (offset g0) with 0. lia.
  - rewrite <- Permutation_cons_append. by apply NoDup_cons.
  - by eapply repacked_laid_out.
  - lia.
  - lia.
  - assert (pack_fields (E:=MinVersionError) (Some p0 :: map Some ptrs) true [] s = (s', Ok (p0 :: l))) as Hall.
    { cbn [pack_fields]. unfold field_at. rewrite <- Hrun. unfold bind at 1.
      rewrite (bind_deref FieldsInLexicalOrder _ _ _ _ Hf0). rewrite put_field_run. reflexivity. }
    exists s', (p0 :: l), (g0 :: fs). split_and!; [|by eapply repacked_trans|done| |by rewrite Hperm, app_nil_r|done|by intros f [= <-]].
    + exact (eq_trans (bind_run_ok _ _ _ _ _ Hall) eq_refl).
    + destruct Hp as [Hs Ha]. split; [done|]. eapply Forall_impl; [exact Ha|]. cbn. intros f (? & ? & ?).
      split_and!; try done. lia.
Qed.
(** C8: computeFieldOffsets packs a struct soundly: for distinct fields with a layout and at most 2^32 / 24 of them it succeeds without panic and without overflow, gives every field a non-negative offset that is a multiple of its alignment (and a bit below 8, zero unless the field is a bool), puts field zero at offset 0, makes no two fields share a bit of the struct, ends within 24 bytes per field, and changes nothing but offset and bit. *)
Theorem computeFieldOffsets_sound s ptrs :
  fieldsInOrdinalOrder s = Some (map Some ptrs) -> NoDup ptrs -> fields_laid_out s ptrs ->
  24 * len ptrs < 2 ^ 32 ->
  exists s', computeFieldOffsets (E:=MinVersionError) s = (s', Ok tt) /\ repacked s s' /\
    (forall p, p ∈ ptrs -> exists f, FieldsInLexicalOrder s' !! p = Some f /\
       well_placed f /\ end_of f <= 24 * len ptrs) /\
    (forall p q f g, p ∈ ptrs -> q ∈ ptrs -> p <> q ->
       FieldsInLexicalOrder s' !! p = Some f -> FieldsInLexicalOrder s' !! q = Some g ->
       last_bit f < first_bit g \/ last_bit g < first_bit f) /\
    (forall p f, head ptrs = Some p -> FieldsInLexicalOrder s' !! p = Some f -> offset f = 0 /\ bit f = 0).
Proof.
  intros Ho Hnd Hl Hb.
  destruct (computeFieldOffsets_packed s ptrs Ho Hnd Hl Hb) as (s' & l & fs & Hrun & Hrep & Hat & Hp & Hperm & Hhead & Hfirst).
  exists s'. split; [done|]. split; [done|].
  assert (forall p, p ∈ ptrs -> exists i f, l !! i = Some p /\ fs !! i = Some f /\
            FieldsInLexicalOrder s' !! p = Some f) as Hin.
  { intros p Hp'. rewrite <- Hperm in Hp'. apply list_elem_of_lookup in Hp' as [i Hi].
    destruct (Forall2_lookup_l _ _ _ _ _ Hat Hi) as (f & Hf & Hpf). eauto. }
  split; [|split].
  - intros p (i & f & _ & Hi & Hf)%Hin. exists f. split; [done|].
    destruct Hp as [_ Ha]. by eapply Forall_lookup_1 in Ha as (_ & ? & ?).
  - intros p q f g (i & f' & Hi & Hfi & Hf)%Hin (j & g' & Hj & Hgj & Hg)%Hin Hne Hf' Hg'.
    assert (f' = f) as -> by congruence. assert (g' = g) as -> by congruence.
    destruct (Nat.lt_trichotomy i j) as [Hlt|[->|Hgt]].
    + left. by eapply packed_disjoint.
    + congruence.
    + right. by eapply packed_disjoint.
  - intros p f Hh Hf. rewrite <- Hhead in Hh. destruct Hat as [|q g l fs Hq _]; [done|]. injection Hh as ->.
    apply Hfirst. cbn. congruence.
Qed.

(** ** Versions *)
(** The MinVersion a declaration asks for: 0 without the attribute. *)
Definition attr_version (d : DeclarationData) : Z :=
  match minVersionAttribute d with Some (v, _, _, _) => v | None => 0 end.
Definition attr_found (d : DeclarationData) : bool :=
  match minVersionAttribute d with Some (_, _, found, _) => found | None => false end.
Definition attr_ok (d : DeclarationData) : bool :=
  match minVersionAttribute d with Some (_, _, _, ok) => ok | None => false end.

Lemma minVersionAttribute_spec d :
  is_Some (minVersionAttribute d) ->
  exists lv, minVersionAttribute d = Some (attr_version d, lv, attr_found d, attr_ok d) /\
    0 <= attr_version d < 2 ^ 32 /\ (attr_found d = false -> attr_version d = 0).
Proof.
  unfold attr_version, attr_found, attr_ok, minVersionAttribute.
  induction (attribute_list d) as [|a l IH]; cbn [find_minVersion].
  - intros _. eexists. split; [reflexivity|]. split; [lia|done].
  - case_bool_decide; [|exact IH]. unfold uint32Value.
    destruct (int64Value (attr_Value a)) as [[v ok]|]; cbn [mbind option_bind]; [|by intros []].
    intros _. eexists. split; [reflexivity|]. split; [apply u32_range|done].
Qed.

(** How a declaration can be refused after a member of version [prev]. *)
Definition version_error (d : DeclarationData) (allowed : option bool) (prev : Z) (k : MinVersionErrorKind)
    : Prop :=
  match k with
  | ErrMinVersionIllformed => attr_found d = true /\ attr_ok d = false
  | ErrMinVersionOutOfOrder => attr_version d < prev
  | ErrMinVersionNotNullable => attr_version d <> 0 /\ allowed = Some false
  end.

Lemma checkMinVersion_spec p d prev :
  is_Some (minVersionAttribute d) -> 0 <= prev ->
  match checkMinVersion p d prev with
  | Ok (v, _) => v = attr_version d /\ prev <= v < 2 ^ 32 /\ (attr_found d = true -> attr_ok d = true)
  | Err e => mv_member e = p /\ mv_err e <> ErrMinVersionNotNullable /\
             version_error d None prev (mv_err e)
  | Panic => False
  end.
Proof.
  intros Hs Hp. destruct (minVersionAttribute_spec d Hs) as (lv & Hm & Hr & H0).
  unfold checkMinVersion. rewrite Hm. destruct (attr_found d) eqn:Hf; cbn [negb].
  - destruct (attr_ok d) eqn:Hk; cbn [negb].
    + destruct (Z.ltb_spec (attr_version d) prev); [|split_and!; [done|lia|lia|done]].
      split; [done|]. split; [done|]. cbn. lia.
    + split; [done|]. split; [done|]. done.
  - specialize (H0 eq_refl). rewrite H0. destruct (Z.eqb_spec prev 0) as [->|]; cbn [negb].
    + split_and!; [done|lia|lia|done].
    + split; [done|]. split; [done|]. cbn. rewrite H0. lia.
Qed.

(** The fields the version loop can work on. *)
Definition versionable (f : StructField) : Prop :=
  is_Some (minVersionAttribute (f_decl f)) /\ is_Some (AllowedInNonZeroStructVersion (FieldType f)) /\
  laid_out f /\ 0 <= offset f /\ end_of f + 16 < 2 ^ 32.

Lemma computePayloadSizeSoFar_spec f :
  versionable f -> exists z, computePayloadSizeSoFar f = Some z /\ 8 + end_of f <= z /\ (8 | z).
Proof.
  intros (_ & _ & (Hs & _ & ? & _) & Ho & He). unfold computePayloadSizeSoFar, Offset.
  unfold end_of in *. rewrite (proj2 (Z.ltb_ge _ _)) by lia. rewrite u32_small by lia.
  cbn [mbind option_bind]. rewrite Hs. cbn [mbind option_bind]. cbv zeta.
  rewrite (u32_small (offset f + size_of f)) by lia.
  destruct (computePadding_spec (offset f + size_of f) 8) as [Hp Hd]; [set_solver|lia|].
  unfold structHeaderSize. rewrite (u32_small (8 + _)), u32_small by lia.
  eexists. split; [reflexivity|]. split; [lia|].
  rewrite <- Z.add_assoc. apply Z.divide_add_r; [apply Z.divide_refl|done].
Qed.
Lemma MaximumUint32_max a b : MaximumUint32 a b = Z.max a b.
Proof. unfold MaximumUint32. destruct (Z.ltb_spec b a); lia. Qed.

(** A row of the version table against the versions and the ends of the
    fields: it covers exactly the first [NumFields] fields. *)
Definition row_ok (mvs ends : list Z) (v : StructVersion) : Prop :=
  (8 | NumBytes v) /\
  (forall k m, mvs !! k = Some m -> m <= VersionNumber v <-> Z.of_nat k < NumFields v) /\
  (forall k e, ends !! k = Some e -> Z.of_nat k < NumFields v -> 8 + e <= NumBytes v).
(** The loop invariant after the fields of versions [mvs]: finished rows and
    the one being built. *)
Record table_ok (mvs ends : list Z) (vs : list StructVersion) (prev payload : Z) : Prop := mkTable {
  table_length : length ends = length mvs;
  table_rows : Forall (fun v => row_ok mvs ends v /\ VersionNumber v < prev /\
                         NumFields v <= len mvs /\ NumBytes v <= payload) vs;
  table_sorted : StronglySorted (fun v w => VersionNumber v < VersionNumber w /\
                    NumFields v <= NumFields w /\ NumBytes v <= NumBytes w) vs;
  table_prev : Forall (fun m => m <= prev) mvs;
  table_payload : Forall (fun e => 8 + e <= payload) ends;
  table_eight : (8 | payload);
  table_nonneg : 0 <= prev;
  table_first : vs = [] -> prev = 0;
  table_mvs : Sorted Z.le mvs;
  table_zero : forall v, head vs = Some v -> VersionNumber v = 0
}.

Lemma StronglySorted_snoc {A} (R : A -> A -> Prop) l x :
  StronglySorted R l -> Forall (fun y => R y x) l -> StronglySorted R (l ++ [x]).
Proof.
  induction 1 as [|y l Hs IH Hy]; cbn; intros Hf; [by repeat constructor|].
  apply Forall_cons in Hf as [? ?]. constructor; [by apply IH|]. apply Forall_app. by split; [|constructor].
Qed.
Lemma Sorted_snoc_le l x : Sorted Z.le l -> Forall (fun m => m <= x) l -> Sorted Z.le (l ++ [x]).
Proof.
  intros Hs Hf. apply StronglySorted_Sorted, StronglySorted_snoc; [|done].
  apply Sorted_StronglySorted; [intros ????; lia|done].
Qed.

(** One more field of version [v], which opens a new row if it is greater. *)
Lemma table_step mvs ends vs prev payload v e size :
  table_ok mvs ends vs prev payload -> prev <= v -> 8 + e <= size -> (8 | size) ->
  table_ok (mvs ++ [v]) (ends ++ [e])
    (if prev <? v then vs ++ [mkStructVersion prev (len mvs) payload] else vs)
    v (Z.max payload size).
Proof.
  intros [Hlen Hrows Hsort Hprev Hpay H8 H0 Hfirst Hmvs Hzero] Hv He Hsz.
  assert (8 | Z.max payload size) as H8' by (destruct (Z.max_spec payload size) as [[_ ->]|[_ ->]]; done).
  assert (forall w, row_ok mvs ends w -> VersionNumber w < v -> NumFields w <= len mvs ->
            row_ok (mvs ++ [v]) (ends ++ [e]) w) as Hrow.
  { intros w (Hd & Hm & Hen) Hlt Hn. split; [done|]. split.
    - intros k m [Hk|[-> <-]]%lookup_snoc_iff; [exact (Hm k m Hk)|]. lia.
    - intros k e' [Hk|[-> <-]]%lookup_snoc_iff Hkn; [by eapply Hen|]. lia. }
  assert (row_ok mvs ends (mkStructVersion prev (len mvs) payload)) as Hnew.
  { split; [done|]. cbn. split.
    - intros k m Hk. pose proof (lookup_lt_Some _ _ _ Hk). eapply Forall_lookup_1 in Hprev; [|exact Hk].
      cbn in Hprev. lia.
    - intros k e' Hk _. by eapply Forall_lookup_1 in Hpay. }
  assert (Forall (fun w => row_ok (mvs ++ [v]) (ends ++ [e]) w /\ VersionNumber w < v /\
            NumFields w <= len (mvs ++ [v]) /\ NumBytes w <= Z.max payload size) vs) as Hrows'.
  { eapply Forall_impl; [exact Hrows|]. cbn. intros w (Hr & ? & ? & ?). rewrite length_app. cbn.
    split; [apply Hrow; done || lia|]. lia. }
  split; try done.
  - rewrite !length_app. cbn. lia.
  - destruct (Z.ltb_spec prev v); [|done]. apply Forall_app. split; [done|].
    apply Forall_singleton. rewrite length_app. cbn. split; [apply Hrow; cbn; done || lia|]. lia.
  - destruct (Z.ltb_spec prev v); [|done]. apply StronglySorted_snoc; [done|].
    eapply Forall_impl; [exact Hrows|]. cbn. intros w (_ & ? & ? & ?). done.
  - apply Forall_app. split; [|by repeat constructor]. eapply Forall_impl; [exact Hprev|]. cbn. lia.
  - apply Forall_app. split; [|constructor; [lia|constructor]].
    eapply Forall_impl; [exact Hpay|]. cbn. lia.
  - lia.
  - destruct (Z.ltb_spec prev v); [by destruct vs|]. intros ->. specialize (Hfirst eq_refl). lia.
  - apply Sorted_snoc_le; [done|]. eapply Forall_impl; [exact Hprev|]. cbn. lia.
  - intros w. destruct (Z.ltb_spec prev v); [|auto]. destruct vs as [|w' vs]; cbn; [|by auto].
    intros [= <-]. cbn. auto.
Qed.

Lemma table_start : table_ok [] [] [] 0 structHeaderSize.
Proof.
  split; try done; try (constructor; fail).
Qed.

Definition with_version (f : StructField) : StructField := set_minVersion (attr_version (f_decl f)) f.
Definition field_versions (fs : list StructField) : list Z := map (fun f => attr_version (f_decl f)) fs.

(** Field [k] is refused, for reason [c], after the versions before it. *)
Definition refused (fs : list StructField) (prev : Z) (k : nat) (c : MinVersionErrorKind) : Prop :=
  exists f, fs !! k = Some f /\
    version_error (f_decl f) (AllowedInNonZeroStructVersion (FieldType f))
      (default prev (last (take k (field_versions fs)))) c.
(** The error names the first field, in ordinal order, that is refused. *)
Definition struct_version_error (ptrs : list nat) (fs : list StructField) (prev : Z) (e : MinVersionError)
    : Prop :=
  exists k, ptrs !! k = Some (mv_member e) /\ refused fs prev k (mv_err e) /\
    forall j c, (j < k)%nat -> ~ refused fs prev j c.

Lemma refused_head f fs prev c :
  refused (f :: fs) prev 0 c <-> version_error (f_decl f) (AllowedInNonZeroStructVersion (FieldType f)) prev c.
Proof. unfold refused. cbn. naive_solver. Qed.
Lemma refused_tail f fs prev k c : refused (f :: fs) prev (S k) c <-> refused fs (attr_version (f_decl f)) k c.
Proof.
  unfold refused. cbn. rewrite last_cons. change (map _ fs) with (field_versions fs).
  by destruct (last (take k (field_versions fs))).
Qed.

(** The loop writes only to the fields of its list. *)
Lemma version_loop_frame l : forall i prev payload s p,
  (Some p ∉ l) ->
  FieldsInLexicalOrder (version_loop l i prev payload s).1 !! p = FieldsInLexicalOrder s !! p.
Proof.
  induction l as [|[q|] l IH]; intros i prev payload s p Hp; cbn [version_loop]; [done| |done].
  unfold field_at, bind at 1, deref at 1, must at 1.
  destruct (FieldsInLexicalOrder s !! q) as [f|]; [|done].
  unfold bind at 1, lift at 1. destruct (checkMinVersion q (f_decl f) prev) as [[v lv]|e|]; [|done|done].
  cbn [fst]. unfold bind at 1.
  assert (forall (m : M MojomStruct MinVersionError bool) (k : bool -> M MojomStruct MinVersionError (Z * Z)),
    (m s).1 = s -> (forall b, FieldsInLexicalOrder (k b s).1 !! p = FieldsInLexicalOrder s !! p) ->
    FieldsInLexicalOrder (match m s with (s', Ok a) => k a s' | (s', Err e) => (s', Err e)
      | (s', Panic) => (s', Panic) end).1 !! p = FieldsInLexicalOrder s !! p) as Hskip.
  { intros m k Hm Hk. destruct (m s) as [s' [a|e|]]; cbn in *; subst; auto. }
  apply Hskip.
  { destruct (negb (v =? 0)); [|done]. by destruct (AllowedInNonZeroStructVersion (FieldType f)). }
  intros b. destruct (negb b); [done|]. rewrite put_field_run.
  assert (p <> q) as Hne by set_solver.
  assert (exists s2, (if prev <? v then append_version (mkStructVersion prev (u32 i) payload) else ret tt)
            (write_field q (set_minVersion v f) s) = (s2, Ok tt) /\
            FieldsInLexicalOrder s2 !! p = FieldsInLexicalOrder s !! p) as (s2 & Hrow & Hs2).
  { destruct (prev <? v); (eexists; split; [reflexivity|]); by apply (write_field_ne q p). }
  rewrite (bind_run_ok _ _ _ _ _ Hrow). unfold bind at 1, must at 1.
  destruct (computePayloadSizeSoFar f) as [size|]; [|done].
  rewrite IH by set_solver. done.
Qed.

Lemma version_loop_spec ptrs : forall s fs mvs ends vs prev payload,
  points_to s ptrs fs -> NoDup ptrs -> Forall versionable fs -> versionInfo s = Some vs ->
  table_ok mvs ends vs prev payload -> len mvs + len ptrs < 2 ^ 32 ->
  exists s' r, version_loop (map Some ptrs) (len mvs) prev payload s = (s', r) /\
    match r with
    | Ok (prev', payload') => exists vs',
        versionInfo s' = Some vs' /\ points_to s' ptrs (map with_version fs) /\
        fieldsInOrdinalOrder s' = fieldsInOrdinalOrder s /\
        table_ok (mvs ++ field_versions fs) (ends ++ map end_of fs) vs' prev' payload'
    | Err e => struct_version_error ptrs fs prev e
    | Panic => False
    end.
Proof.
  induction ptrs as [|p ptrs IH]; intros s fs mvs ends vs prev payload Hat Hnd Hvf Hvs Htab Hlen;
    cbn [map version_loop].
  { apply Forall2_nil_inv_l in Hat as ->. cbn [map field_versions]. rewrite !app_nil_r.
    eexists s, _. split; [reflexivity|]. exists vs. split_and!; try done. constructor. }
  apply Forall2_cons_inv_l in Hat as (f & fs' & Hf & Hat & ->). rename fs' into fs.
  apply NoDup_cons in Hnd as [Hp Hnd]. apply Forall_cons in Hvf as [Hfv Hvf].
  rewrite length_cons in Hlen.
  unfold field_at. rewrite (bind_deref FieldsInLexicalOrder _ _ _ _ Hf).
  pose proof Hfv as (Hattr & [allowed Hall] & _).
  pose proof (checkMinVersion_spec p (f_decl f) prev Hattr (table_nonneg _ _ _ _ _ Htab)) as Hchk.
  destruct (checkMinVersion p (f_decl f) prev) as [[v lv]|e|]; [| |done].
  2:{ destruct Hchk as (Hm & Hk & He). eexists s, _. split; [reflexivity|].
      exists 0%nat. split; [by rewrite Hm|]. split; [|lia]. apply refused_head.
      destruct (mv_err e); done. }
  destruct Hchk as (-> & Hrange & Hwell). set (v := attr_version (f_decl f)) in *.
  unfold bind at 1, lift at 1. cbn [fst].
  assert ((if negb (v =? 0) then must (AllowedInNonZeroStructVersion (FieldType f)) else ret true) s =
          (s, Ok (if v =? 0 then true else allowed) : res MinVersionError bool)) as Hallow.
  { rewrite Hall. by destruct (v =? 0). }
  rewrite (bind_run_ok _ _ _ _ _ Hallow).
  destruct (if v =? 0 then true else allowed) eqn:Hgo; cbn [negb].
  2:{ eexists s, _. split; [reflexivity|]. exists 0%nat. split; [done|]. split; [|lia]. apply refused_head. cbn.
      destruct (Z.eqb_spec v 0) as [|Hv0]; [done|]. subst allowed. done. }
  rewrite put_field_run. destruct (computePayloadSizeSoFar_spec f Hfv) as (size & Hsize & Hge & Hdiv).
  set (s1 := write_field p (set_minVersion v f) s).
  set (row := mkStructVersion prev (len mvs) payload).
  set (s2 := if prev <? v then set_versionInfo (vs ++ [row]) s1 else s1).
  assert ((if prev <? v then append_version (mkStructVersion prev (u32 (len mvs)) payload) else ret tt) s1 =
          (s2, Ok tt)) as Hrow.
  { unfold s2. destruct (prev <? v); [|done]. unfold append_version, modify.
    change (versionInfo s1) with (versionInfo s). rewrite Hvs, u32_small by lia. done. }
  rewrite (bind_run_ok _ _ _ _ _ Hrow). rewrite Hsize. unfold bind at 1, must at 1.
  rewrite MaximumUint32_max.
  assert ((if prev <? v then v else prev) = v) as -> by (destruct (Z.ltb_spec prev v); lia).
  assert (FieldsInLexicalOrder s2 = FieldsInLexicalOrder s1 /\
          fieldsInOrdinalOrder s2 = fieldsInOrdinalOrder s1 /\
          versionInfo s2 = Some (if prev <? v then vs ++ [row] else vs)) as (Hfs2 & Ho2 & Hv2).
  { unfold s2. destruct (prev <? v); [done|]. split; [done|]. split; [done|]. exact Hvs. }
  assert (points_to s2 ptrs fs) as Hat2.
  { unfold points_to. rewrite Hfs2. by apply points_to_write. }
  pose proof (table_step _ _ _ _ _ v (end_of f) size Htab (proj1 Hrange) Hge Hdiv) as Htab2.
  fold row in Htab2.
  destruct (IH s2 fs _ _ _ _ _ Hat2 Hnd Hvf Hv2 Htab2) as (s' & r & Hrun & Hr).
  { rewrite length_app. cbn. lia. }
  assert (len mvs + 1 = len (mvs ++ [v])) as Hi by (rewrite length_app; cbn; lia).
  rewrite Hi. exists s', r. split; [exact Hrun|].
  destruct r as [[prev' payload']|e|]; [| |done].
  - destruct Hr as (vs' & Hvs' & Hat' & Ho' & Htab'). exists vs'. split; [done|]. split; [|split].
    + constructor; [|done].
      assert (FieldsInLexicalOrder s2 !! p = Some (with_version f)) as Hp2.
      { rewrite Hfs2. by eapply write_field_eq. }
      pose proof (version_loop_frame (map Some ptrs) (len (mvs ++ [v])) v (Z.max payload size) s2 p) as Hfr.
      rewrite Hrun in Hfr. cbn [fst] in Hfr. rewrite Hfr; [done|]. set_solver.
    + rewrite Ho', Ho2. done.
    + cbn [field_versions map]. rewrite <- !app_assoc in Htab'. exact Htab'.
  - destruct Hr as (k & Hk & Herr & Hfirst). exists (S k). split; [done|]. split; [by apply refused_tail|].
    intros [|j] c Hj; [|rewrite refused_tail; apply Hfirst; lia]. rewrite refused_head. fold v.
    destruct c; cbn; fold v; [by intros [?%Hwell ?]; congruence|lia|].
    intros [Hv0 Hna]. destruct (Z.eqb_spec v 0); [done|]. congruence.
Qed.

(** C28: computeVersionInfo on packed fields never panics. On success the version table starts at version 0, its version numbers increase strictly, and a row's NumFields and NumBytes (a multiple of 8) are exactly what its version needs: the fields with a MinVersion at most the row's number are the first NumFields ones, and each of them ends within NumBytes; the last row covers every field, the MinVersions do not decrease and are stored in the fields. An error names the first field, by ordinal, whose MinVersion is malformed, smaller than the previous one, or non-zero on a type not allowed there. *)
Theorem computeVersionInfo_correct s ptrs fs :
  fieldsInOrdinalOrder s = Some (map Some ptrs) -> NoDup ptrs -> points_to s ptrs fs ->
  Forall versionable fs -> len ptrs < 2 ^ 32 ->
  exists s' r, computeVersionInfo s = (s', r) /\
    match r with
    | Ok _ => exists vs last_row,
        versionInfo s' = Some (vs ++ [last_row]) /\
        (forall v, head (vs ++ [last_row]) = Some v -> VersionNumber v = 0) /\
        StronglySorted (fun v w => VersionNumber v < VersionNumber w /\
          NumFields v <= NumFields w /\ NumBytes v <= NumBytes w) (vs ++ [last_row]) /\
        Forall (row_ok (field_versions fs) (map end_of fs)) (vs ++ [last_row]) /\
        NumFields last_row = len ptrs /\ Sorted Z.le (field_versions fs) /\
        points_to s' ptrs (map with_version fs)
    | Err e => struct_version_error ptrs fs 0 e
    | Panic => False
    end.
Proof.
  intros Ho Hnd Hat Hv Hn. unfold computeVersionInfo. rewrite bind_modify, bind_get.
  set (s0 := set_versionInfo [] s).
  change (fieldsInOrdinalOrder s0) with (fieldsInOrdinalOrder s). rewrite Ho. cbn [from_option id]. cbv zeta.
  destruct (version_loop_spec ptrs s0 fs [] [] [] 0 structHeaderSize Hat Hnd Hv eq_refl table_start)
    as (s1 & r & Hrun & Hr); [done|]. cbn [length Z.of_nat app] in Hrun, Hr.
  destruct r as [[prev payload]|e|]; [| |done].
  2:{ rewrite (bind_run_err _ _ _ _ _ Hrun). eexists s1, _. split; [reflexivity|]. exact Hr. }
  rewrite (bind_run_ok _ _ _ _ _ Hrun). destruct Hr as (vs & Hvs & Hat' & _ & Htab).
  pose proof (Forall2_length _ _ _ Hat) as Hlen.
  assert (len (map Some ptrs) = len (field_versions fs)) as Hl.
  { unfold field_versions. by rewrite !length_map, Hlen. }
  eexists _, (Ok tt). split.
  { unfold append_version, modify. cbn [fst snd]. rewrite Hvs. reflexivity. }
  rewrite Hl, u32_small by (rewrite <- Hl, length_map; lia).
  set (row := mkStructVersion _ _ _). destruct Htab as [? Hrows Hsort Hprev Hpay H8 H0 Hfirst Hmvs Hzero].
  exists vs, row. split; [done|]. split_and!; try done.
  - destruct vs as [|v vs]; cbn; [|auto]. intros w [= <-]. by apply Hfirst.
  - apply StronglySorted_snoc; [done|]. eapply Forall_impl; [exact Hrows|]. cbn.
    intros v (_ & ? & ? & ?). done.
  - apply Forall_app. split.
    + eapply Forall_impl; [exact Hrows|]. cbn. by intros v (? & _).
    + apply Forall_singleton. split; [done|]. split; cbn.
      * intros k m Hk. pose proof (lookup_lt_Some _ _ _ Hk). eapply Forall_lookup_1 in Hprev; [|exact Hk].
        cbn in Hprev. lia.
      * intros k e Hk _. by eapply Forall_lookup_1 in Hpay.
  - cbn. by rewrite <- Hl, length_map.
Qed.

(** ** Enums *)
Definition is_int32 (z : Z) : Prop := - 2 ^ 31 <= z <= 2 ^ 31 - 1.
Definition int32_literal (lv : LiteralValue) : Prop :=
  well_typed lv /\ exists z, int_value lv = Some z /\ is_int32 z.

Section EnumSpec.
Context (resolved : nat -> option (InitializerValue + nat)).

(** What validation guarantees of an initializer in an enum of [n] values. *)
Definition initializer_ok (n : nat) (init : option ValueRef) : Prop :=
  match init with
  | None => True
  | Some (VRLiteral lv) => int32_literal lv
  | Some (VRUser ref) =>
    match resolved ref with
    | Some (inl (InitLiteral lv)) => int32_literal lv
    | Some (inl (InitEnumValue (Some z))) => is_int32 z
    | Some (inl (InitEnumValue None)) => True
    | Some (inr j) => (j < n)%nat
    | _ => False
    end
  end.
(** The integer [z] of a value that comes after values with integers [before]. *)
Definition value_rule (before : list Z) (init : option ValueRef) (z : Z) : Prop :=
  match init with
  | None => z = i32 (default (-1) (last before) + 1)
  | Some (VRLiteral lv) => int_value lv = Some z
  | Some (VRUser ref) =>
    match resolved ref with
    | Some (inl (InitLiteral lv)) => int_value lv = Some z
    | Some (inl (InitEnumValue o)) => o = Some z
    | Some (inr j) => before !! j = Some z
    | _ => False
    end
  end.
Definition follows_rules (inits : list (option ValueRef)) (cs : list Z) : Prop :=
  forall i init z, inits !! i = Some init -> cs !! i = Some z ->
    value_rule (take i cs) init z /\ is_int32 z.
(** The reference names a value whose integer is not known when it is needed. *)
Definition too_early (inits : list (option ValueRef)) (cs : list Z) (e : EnumValueError) : Prop :=
  match e with
  | UncomputedEnumValue ref =>
    inits !! length cs = Some (Some (VRUser ref)) /\
    (resolved ref = Some (inl (InitEnumValue None)) \/
     exists j, resolved ref = Some (inr j) /\ (length cs <= j)%nat)
  end.

(** The values [vs] after the integers [cs] have been stored. *)
Fixpoint fill (cs : list Z) (vs : list MojomEnumValue) : list MojomEnumValue :=
  match vs, cs with
  | v :: vs, c :: cs => set_int c v :: fill cs vs
  | vs, _ => vs
  end.
Lemma fill_nil vs : fill [] vs = vs.
Proof. by destruct vs. Qed.
Lemma fill_lookup cs vs i :
  fill cs vs !! i = (fun v => match cs !! i with Some c => set_int c v | None => v end) <$> vs !! i.
Proof.
  induction vs as [|v vs IH] in cs, i |- *; [by destruct cs|].
  destruct cs as [|c cs], i as [|i]; cbn; try done. by destruct (vs !! i).
Qed.
Lemma fill_alter cs vs c : alter (set_int c) (length cs) (fill cs vs) = fill (cs ++ [c]) vs.
Proof.
  apply list_eq. intros i. rewrite fill_lookup. destruct (decide (i = length cs)) as [->|Hne].
  - rewrite list_lookup_alter_eq, fill_lookup, list_lookup_middle by done.
    rewrite lookup_ge_None_2 by lia. by destruct (vs !! length cs).
  - rewrite list_lookup_alter_ne, fill_lookup by done. destruct (vs !! i); cbn; [|done]. f_equal.
    destruct (decide (i < length cs)%nat).
    + by rewrite lookup_app_l.
    + rewrite !lookup_ge_None_2; [done|rewrite length_app; cbn; lia|lia].
Qed.
Lemma fill_initializers cs vs : map initializer (fill cs vs) = map initializer vs.
Proof.
  apply list_eq. intros i. rewrite !list_lookup_fmap, fill_lookup.
  destruct (vs !! i); cbn; [|done]. by destruct (cs !! i).
Qed.

Lemma i32_range z : is_int32 (i32 z).
Proof. unfold is_int32. pose proof (signed_range 32 z ltac:(lia)). unfold i32. lia. Qed.
Lemma int32Value_literal lv : int32_literal lv -> exists z, int32Value lv = Some (z, true) /\
  int_value lv = Some z /\ is_int32 z.
Proof.
  intros [Hw (z & Hz & Hr)]. destruct (int32Value_spec lv Hw) as (v & ok & Hv & Hok & Hval).
  assert (ok = true) as -> by (apply Hok; eauto). specialize (Hval eq_refl).
  exists v. split; [done|]. split; [done|]. congruence.
Qed.

(** One initializer after the integers [cs]. *)
Definition uncomputed (vs : list MojomEnumValue) : Prop := Forall (fun v => ComputedIntValue v = None) vs.
Lemma int32EnumValueFromValue_spec e vs cs ref :
  let inits := map initializer vs in
  uncomputed vs -> initializer_ok (length inits) (Some ref) -> Forall is_int32 cs ->
  (length cs < length inits)%nat -> inits !! length cs = Some (Some ref) ->
  match int32EnumValueFromValue resolved (set_values (fill cs vs) e) ref with
  | Ok z => value_rule cs (Some ref) z /\ is_int32 z
  | Err e => too_early inits cs e
  | Panic => False
  end.
Proof.
  intros inits Hun Hok Hcs Hlt Hin. unfold int32EnumValueFromValue, read_initializer.
  destruct ref as [lv|ref]; cbn [initializer_ok value_rule] in *.
  { by destruct (int32Value_literal lv Hok) as (z & -> & ? & ?). }
  destruct (resolved ref) as [[[lv|[z|]|]|j]|] eqn:Hr; cbn [mbind option_bind]; try done.
  - by destruct (int32Value_literal lv Hok) as (z & -> & ? & ?).
  - cbn. auto.
  - cbn [Values set_values]. rewrite fill_lookup. unfold inits in *. rewrite length_map in Hok.
    destruct (lookup_lt_is_Some_2 vs j Hok) as [v Hv]. rewrite Hv.
    eapply Forall_lookup_1 in Hun; [|exact Hv]. cbn. destruct (cs !! j) as [z|] eqn:Hz; cbn.
    + split; [done|]. by eapply Forall_lookup_1 in Hz.
    + rewrite Hun. split; [done|]. right. exists j. split; [done|]. by apply lookup_ge_None.
Qed.

Lemma enum_values_loop_spec e vs inits : inits = map initializer vs -> forall todo cs,
  uncomputed vs -> Forall (initializer_ok (length inits)) inits ->
  map initializer todo = drop (length cs) inits -> (length cs <= length inits)%nat ->
  follows_rules inits cs -> Forall is_int32 cs ->
  exists cs' r, enum_values_loop resolved todo (length cs) (default (-1) (last cs)) (set_values (fill cs vs) e)
                = (set_values (fill cs' vs) e, r) /\
    follows_rules inits cs' /\
    match r with
    | Ok _ => length cs' = length inits
    | Err e => too_early inits cs' e
    | Panic => False
    end.
Proof.
  intros Hinits. induction todo as [|v todo IH]; intros cs Hun Hok Htodo Hle Hrules Hcs; cbn [enum_values_loop].
  { exists cs, (Ok tt). split; [done|]. split; [done|]. symmetry in Htodo.
    apply (f_equal length) in Htodo. rewrite length_drop in Htodo. cbn in Htodo. lia. }
  assert (inits !! length cs = Some (initializer v)) as Hi.
  { rewrite <- (Nat.add_0_r (length cs)), <- lookup_drop, <- Htodo. done. }
  pose proof (lookup_lt_Some _ _ _ Hi) as Hlt.
  rewrite bind_get.
  assert (forall z, value_rule cs (initializer v) z -> is_int32 z ->
    exists cs' r,
      (modify (fun e => set_values (alter (set_int z) (length cs) (Values e)) e) ;;;
       enum_values_loop resolved todo (S (length cs)) z) (set_values (fill cs vs) e)
      = (set_values (fill cs' vs) e, r) /\ follows_rules inits cs' /\
      match r with
      | Ok _ => length cs' = length inits
      | Err e => too_early inits cs' e
      | Panic => False
      end) as Hgo.
  { intros z Hz Hr. rewrite bind_modify. cbn [Values set_values]. rewrite fill_alter.
    destruct (IH (cs ++ [z])) as (cs' & r & Hrun & Hrest); try done.
    - rewrite length_app, <- drop_drop, <- Htodo. done.
    - rewrite length_app. cbn [length]. lia.
    - intros i init z' Hinit Hz'. apply lookup_snoc_Some in Hz' as [[? Hz']|[-> <-]].
      + rewrite take_app_le by lia. by apply Hrules.
      + rewrite take_app_length. assert (init = initializer v) as -> by congruence. done.
    - apply Forall_app. split; [done|by constructor].
    - exists cs', r. split; [|done]. rewrite length_app, last_snoc, Nat.add_1_r in Hrun. exact Hrun. }
  destruct (initializer v) as [ref|] eqn:Hinit.
  - pose proof (Forall_lookup_1 _ _ _ _ Hok Hi) as Hok'.
    pose proof (int32EnumValueFromValue_spec e vs cs ref) as Hv. cbv zeta in Hv.
    rewrite <- Hinits in Hv. specialize (Hv Hun Hok' Hcs Hlt Hi).
    destruct (int32EnumValueFromValue resolved _ ref) as [z|e'|]; [| |done].
    + unfold bind at 1, lift. apply Hgo; apply Hv.
    + unfold bind at 1, lift. eexists cs, _. split; [reflexivity|]. done.
  - unfold bind at 1, ret. apply Hgo; [done|apply i32_range].
Qed.
End EnumSpec.

(** C29: ComputeEnumValueIntegers on validated initializers never panics. On success every value has a 32-bit integer that follows the rules: its literal, the integer of the enum value it refers to, or one more than the previous value's (with wrap-around; 0 for the first). It fails only at a reference to an enum value whose integer is not yet computed, after computing the values before it. *)
Theorem ComputeEnumValueIntegers_correct resolved e :
  let inits := map initializer (Values e) in
  uncomputed (Values e) -> Forall (initializer_ok resolved (length inits)) inits ->
  exists cs r, ComputeEnumValueIntegers resolved e = (set_values (fill cs (Values e)) e, r) /\
    follows_rules resolved inits cs /\
    match r with
    | Ok _ => length cs = length inits
    | Err e => too_early resolved inits cs e
    | Panic => False
    end.
Proof.
  intros inits Hun Hok. unfold ComputeEnumValueIntegers. rewrite bind_get.
  destruct (enum_values_loop_spec resolved e (Values e) inits eq_refl (Values e) [] Hun Hok eq_refl) as (cs & r & Hrun & H).
  - cbn. lia.
  - done.
  - constructor.
  - exists cs, r. split; [|exact H]. rewrite fill_nil in Hrun. by destruct e.
Qed.

Definition an_enum_of (inits : list (option ValueRef)) : MojomEnum :=
  set_values (map (fun i => mkMojomEnumValue (DeclData "V" zeroToken None) i 0 None) inits)
    (NewMojomEnum (DeclData "E" zeroToken None)).

(** An implicit enum value after 2147483647 is -2147483648: the increment wraps and no error is reported. *)
Theorem enum_value_wraps :
  let e := an_enum_of [Some (VRLiteral (MakeInt32LiteralValue 2147483647 None)); None] in
  ComputeEnumValueIntegers (fun _ => None) e = (set_values (fill [2147483647; -2147483648] (Values e)) e, Ok tt).
Proof. vm_compute. reflexivity. Qed.

(** ** Concrete declarations *)
Definition a_packed_struct (types : list TypeRef) (minVersions : list (option Z)) : MojomStruct :=
  let attr v := NewMojomAttribute minVersionAttributeName None (MakeUint32LiteralValue v None) in
  let decl v := DeclDataWithOrdinal "f" zeroToken (option_map (fun v => mkAttributes [attr v] zeroToken) v) (-1) in
  set_ordinal_order (map Some (seq 0 (length types)))
    (set_fields ∅ (zip_with (fun t v => NewStructField (decl v) t None) types minVersions)
       (NewMojomStruct (DeclData "S" zeroToken None))).

Lemma computeFieldOffsets_sound_witness :
  let types := map TRSimple [SimpleTypeBool; SimpleTypeInt32; SimpleTypeBool; SimpleTypeInt8; SimpleTypeInt64] in
  let s := a_packed_struct types (replicate 5 None) in
  exists s', computeFieldOffsets (E:=MinVersionError) s = (s', Ok tt) /\
    map (fun f => (offset f, bit f)) (FieldsInLexicalOrder s') = [(0, 0); (4, 0); (0, 1); (1, 0); (8, 0)] /\
    (forall f g, FieldsInLexicalOrder s' !! 0%nat = Some f -> FieldsInLexicalOrder s' !! 2%nat = Some g ->
       last_bit f < first_bit g \/ last_bit g < first_bit f).
Proof.
  intros types s. destruct (computeFieldOffsets_sound s (seq 0 5)) as (s' & Hrun & _ & _ & Hdis & _).
  - reflexivity.
  - by apply NoDup_seq.
  - repeat constructor; (eexists; split; [reflexivity|by apply laid_out_valid]).
  - reflexivity.
  - exists s'. split; [exact Hrun|]. split.
    + vm_compute in Hrun. injection Hrun as <-. reflexivity.
    + intros f g. apply Hdis; [set_solver|set_solver|done].
Defined.

Lemma computeVersionInfo_correct_witness :
  let s := set_fields ∅ (map (set_packing 0 0) (FieldsInLexicalOrder
             (a_packed_struct (map TRSimple [SimpleTypeInt32; SimpleTypeInt64; SimpleTypeInt8]) [None; Some 2; Some 5])))
             (a_packed_struct (map TRSimple [SimpleTypeInt32; SimpleTypeInt64; SimpleTypeInt8]) [None; Some 2; Some 5]) in
  exists s' vs last_row, computeVersionInfo s = (s', Ok tt) /\ versionInfo s' = Some (vs ++ [last_row]) /\
    map VersionNumber (vs ++ [last_row]) = [0; 2; 5] /\ map NumFields (vs ++ [last_row]) = [1; 2; 3] /\
    NumFields last_row = 3.
Proof.
  intros s. destruct (computeVersionInfo_correct s (seq 0 3) (FieldsInLexicalOrder s)) as (s' & r & Hrun & Hr).
  - reflexivity.
  - by apply NoDup_seq.
  - repeat constructor.
  - repeat constructor; try (by eexists); try (by vm_compute); try (apply laid_out_valid; done).
  - reflexivity.
  - assert (r = Ok tt /\ (VersionNumber <$> default [] (versionInfo s')) = [0; 2; 5] /\
            (NumFields <$> default [] (versionInfo s')) = [1; 2; 3]) as (-> & Hv & Hn).
    { vm_compute in Hrun. injection Hrun as <- <-. done. }
    destruct Hr as (vs & last_row & Hvs & _ & _ & _ & Hlast & _). exists s', vs, last_row.
    rewrite Hvs in Hv, Hn. done.
Defined.

Lemma ComputeEnumValueIntegers_correct_witness :
  let resolved := fun ref => match ref with 0%nat => Some (inr 0%nat) | _ => None end in
  let inits := [Some (VRLiteral (MakeInt8LiteralValue (-7) None)); None; Some (VRUser 0)] in
  exists e, ComputeEnumValueIntegers resolved (an_enum_of inits) = (e, Ok tt) /\
    map ComputedIntValue (Values e) = [Some (-7); Some (-6); Some (-7)].
Proof.
  intros resolved inits. destruct (ComputeEnumValueIntegers_correct resolved (an_enum_of inits)) as (cs & r & Hrun & _ & Hr).
  - by repeat constructor.
  - repeat constructor; cbn; try lia. exists (-7). split; [reflexivity|]. split; lia.
  - exists (set_values (fill cs (Values (an_enum_of inits))) (an_enum_of inits)).
    assert (r = Ok tt /\ ComputedIntValue <$> fill cs (Values (an_enum_of inits)) = [Some (-7); Some (-6); Some (-7)]) as [-> Hc].
    { pose proof (f_equal snd Hrun) as H1. vm_compute in H1. subst r. split; [reflexivity|].
      pose proof (f_equal (fun e => ComputedIntValue <$> Values e.1) Hrun) as H2. cbn [fst Values set_values] in H2.
      rewrite <- H2. vm_compute. reflexivity. }
    split; [exact Hrun|exact Hc].
Defined.
