(* ===== verification/Strconv.v ===== *)
(** * Numbers of source text: the functions of Go's strconv the parser uses

    [ParseInt], [ParseUint] and [ParseFloat] on the texts of number tokens,
    with the two errors strconv distinguishes, and lemmas that relate them to
    the decimal and hexadecimal digits of an integer. *)
From Stdlib Require Export SpecFloat.
From S2P Require Export Tokens.

Inductive NumError : Type := ErrSyntax | ErrRange.
Definition ParseResult (A : Type) := (A + NumError)%type.

Definition digit_value (b : Z) : option Z :=
  if between (chr "0") (chr "9") b then Some (b - chr "0")
  else if between (chr "a") (chr "z") b then Some (b - chr "a" + 10)
  else if between (chr "A") (chr "Z") b then Some (b - chr "A" + 10)
  else None.
(** The loop of [ParseUint]: it stops with a range error at the first digit
    that takes the value above [maxVal]. *)
Fixpoint digits_loop (base maxVal n : Z) (s : list Z) : ParseResult Z :=
  match s with
  | [] => inl n
  | b :: s =>
    match digit_value b with
    | Some d =>
      if base <=? d then inr ErrSyntax
      else if maxVal <? n * base + d then inr ErrRange
      else digits_loop base maxVal (n * base + d) s
    | None => inr ErrSyntax
    end
  end.
Definition ParseUint (s : list Z) (base bitSize : Z) : ParseResult Z :=
  match s with
  | [] => inr ErrSyntax
  | _ => digits_loop base (2 ^ bitSize - 1) 0 s
  end.
Definition ParseInt (s : list Z) (base bitSize : Z) : ParseResult Z :=
  match s with
  | [] => inr ErrSyntax
  | c :: r =>
    let neg := c =? chr "-" in
    let digits := if neg || (c =? chr "+") then r else s in
    match ParseUint digits base bitSize with
    | inr ErrSyntax => inr ErrSyntax
    | inr ErrRange => inr ErrRange
    | inl un =>
      let cutoff := 2 ^ (bitSize - 1) in
      if negb neg && (cutoff <=? un) then inr ErrRange
      else if neg && (cutoff <? un) then inr ErrRange
      else inl (if neg then - un else un)
    end
  end.

(** ** Floating point *)
(** Decimal digits from [n] on: the value, how many there were, the rest. *)
Fixpoint read_digits (n : Z) (count : nat) (s : list Z) : Z * nat * list Z :=
  match s with
  | b :: r => if between (chr "0") (chr "9") b then read_digits (n * 10 + (b - chr "0")) (S count) r
              else (n, count, s)
  | [] => (n, count, s)
  end.
(** The digits of an exponent; it stops growing once it has five. *)
Fixpoint read_exponent (e : Z) (count : nat) (s : list Z) : Z * nat * list Z :=
  match s with
  | b :: r => if between (chr "0") (chr "9") b
              then read_exponent (if e <? 10000 then e * 10 + (b - chr "0") else e) (S count) r
              else (e, count, s)
  | [] => (e, count, s)
  end.
(** Sign, mantissa and decimal exponent of [[+-] digits [. digits] [(e|E) [+-] digits]]. *)
Definition read_decimal (s : list Z) : option (bool * Z * Z) :=
  let neg := bool_decide (head s = Some (chr "-")) in
  let s := if neg || bool_decide (head s = Some (chr "+")) then tail s else s in
  let '(m, intDigits, s) := read_digits 0 0 s in
  let '(m, fracDigits, s) :=
    match s with
    | b :: r => if b =? chr "." then read_digits m 0 r else (m, 0%nat, s)
    | [] => (m, 0%nat, s)
    end in
  if (intDigits + fracDigits =? 0)%nat then None
  else
    match s with
    | [] => Some (neg, m, - Z.of_nat fracDigits)
    | b :: r =>
      if (b =? chr "e") || (b =? chr "E") then
        let eneg := bool_decide (head r = Some (chr "-")) in
        let r := if eneg || bool_decide (head r = Some (chr "+")) then tail r else r in
        let '(e, count, rest) := read_exponent 0 0 r in
        if (count =? 0)%nat then None
        else
          match rest with
          | [] => Some (neg, m, (if eneg then - e else e) - Z.of_nat fracDigits)
          | _ => None
          end
      else None
    end.
(** The binary64 number nearest to [m * 10 ^ e], ties to even. *)
Definition round64 (neg : bool) (m e : Z) : spec_float :=
  match m with
  | Zpos p =>
    let num := if 0 <=? e then (p * Z.to_pos (10 ^ e))%positive else p in
    let den := if 0 <=? e then xH else Z.to_pos (10 ^ (- e)) in
    SFdiv 53 1024 (S754_finite neg num 0) (S754_finite false den 0)
  | _ => S754_zero neg
  end.
Definition ParseFloat64 (s : list Z) : ParseResult spec_float :=
  match read_decimal s with
  | None => inr ErrSyntax
  | Some (neg, m, e) =>
    match round64 neg m e with
    | S754_infinity _ => inr ErrRange
    | f => inl f
    end
  end.

Example ParseFloat64_1 : ParseFloat64 (bytes_of "2.5") = inl (S754_finite false 5629499534213120 (-51)).
Proof. vm_compute. reflexivity. Qed.
Example ParseFloat64_2 : ParseFloat64 (bytes_of "-1e-400") = inl (S754_zero true).
Proof. vm_compute. reflexivity. Qed.
Example ParseFloat64_3 : ParseFloat64 (bytes_of "1e309") = inr ErrRange.
Proof. vm_compute. reflexivity. Qed.
Example ParseFloat64_4 : ParseFloat64 (bytes_of "0.1") = inl (S754_finite false 7205759403792794 (-56)).
Proof. vm_compute. reflexivity. Qed.

(** ** Digits of an integer *)
Lemma digits_loop_app base maxVal s1 : forall n s2,
  digits_loop base maxVal n (s1 ++ s2) =
  match digits_loop base maxVal n s1 with
  | inl n' => digits_loop base maxVal n' s2
  | inr e => inr e
  end.
Proof.
  induction s1 as [|b s1 IH]; intros n s2; [done|]. cbn [app digits_loop].
  destruct (digit_value b) as [d|]; [|done]. destruct (base <=? d); [done|].
  by destruct (maxVal <? n * base + d).
Qed.

(** [denotes base s n]: the digits [s] of the base denote [n]. *)
Fixpoint denotes (base : Z) (s : list Z) (n : Z) : option Z :=
  match s with
  | [] => Some n
  | b :: s =>
    match digit_value b with
    | Some d => if base <=? d then None else denotes base s (n * base + d)
    | None => None
    end
  end.
Definition numeral (base : Z) (s : list Z) (n : Z) : Prop := s <> [] /\ denotes base s 0 = Some n.
Lemma digit_value_nonneg b d : digit_value b = Some d -> 0 <= d.
Proof. unfold digit_value, between. repeat case_match; intros [= <-]; lia. Qed.
Lemma denotes_mono base s : 0 < base -> forall n m, 0 <= n -> denotes base s n = Some m -> n <= m.
Proof.
  intros Hb. induction s as [|b s IH]; intros n m Hn; cbn [denotes]; [intros [= ->]; lia|].
  destruct (digit_value b) as [d|] eqn:Hd; [|done]. pose proof (digit_value_nonneg b d Hd).
  destruct (Z.leb_spec base d) as [|Hlt]; [done|]. intros Hm.
  assert (0 <= n * base + d) by nia. specialize (IH (n * base + d) m ltac:(lia) Hm). nia.
Qed.
Lemma digits_loop_denotes base maxVal s : 0 < base -> forall n m,
  0 <= n -> denotes base s n = Some m ->
  digits_loop base maxVal n s = if decide (s = [] \/ m <= maxVal) then inl m else inr ErrRange.
Proof.
  intros Hb. induction s as [|b s IH]; intros n m Hn; cbn [denotes digits_loop].
  { intros [= ->]. by rewrite decide_True by auto. }
  destruct (digit_value b) as [d|] eqn:Hd; [|done]. pose proof (digit_value_nonneg b d Hd).
  destruct (Z.leb_spec base d) as [|Hlt]; [done|]. intros Hm.
  assert (0 <= n * base + d) as Hn' by nia.
  pose proof (denotes_mono base s Hb (n * base + d) m Hn' Hm) as Hle.
  destruct (Z.ltb_spec maxVal (n * base + d)).
  - rewrite decide_False; [done|]. intros [?|?]; [done|lia].
  - rewrite (IH _ _ Hn' Hm). destruct (decide (b :: s = [] \/ m <= maxVal)) as [[?|?]|Hno]; [done| |].
    + by rewrite decide_True by auto.
    + rewrite decide_False; [done|]. intros [->|?]; [|tauto]. injection Hm as <-. tauto.
Qed.
(** The two integer parsers on a numeral. *)
Lemma ParseUint_numeral base bits s n : 0 < base -> numeral base s n ->
  ParseUint s base bits = if n <=? 2 ^ bits - 1 then inl n else inr ErrRange.
Proof.
  intros Hb [Hne Hd]. unfold ParseUint. destruct s as [|b s]; [done|].
  rewrite (digits_loop_denotes base (2 ^ bits - 1) (b :: s) Hb 0 n ltac:(lia) Hd).
  destruct (Z.leb_spec n (2 ^ bits - 1)); [by rewrite decide_True by auto|].
  rewrite decide_False; [done|]. intros [?|?]; [done|lia].
Qed.
Lemma numeral_nonneg base s n : 0 < base -> numeral base s n -> 0 <= n.
Proof. intros Hb [_ Hd]. by apply (denotes_mono base s Hb 0 n). Qed.
Lemma numeral_head base s n b : numeral base (b :: s) n -> b <> chr "-" /\ b <> chr "+".
Proof.
  intros [_ Hd]. cbn [denotes] in Hd. destruct (digit_value b) as [d|] eqn:E; [|done].
  split; intros ->; by vm_compute in E.
Qed.
Lemma ParseInt_numeral base bits s n : 0 < base -> 0 < bits -> numeral base s n ->
  ParseInt s base bits = (if n <? 2 ^ (bits - 1) then inl n else inr ErrRange) /\
  ParseInt (chr "-" :: s) base bits = (if n <=? 2 ^ (bits - 1) then inl (- n) else inr ErrRange).
Proof.
  intros Hb Hbits Hn. pose proof (numeral_nonneg _ _ _ Hb Hn).
  assert (2 ^ bits = 2 * 2 ^ (bits - 1)) as Hpow by (rewrite <- Z.pow_succ_r by lia; f_equal; lia).
  assert (0 < 2 ^ (bits - 1)) by (apply Z.pow_pos_nonneg; lia).
  pose proof (ParseUint_numeral base bits s n Hb Hn) as HU. split.
  - destruct s as [|b s]; [by destruct Hn|]. destruct (numeral_head _ _ _ _ Hn) as [H1 H2].
    unfold ParseInt. rewrite (proj2 (Z.eqb_neq _ _) H1), (proj2 (Z.eqb_neq _ _) H2).
    cbn [orb negb andb]. rewrite HU. destruct (Z.leb_spec n (2 ^ bits - 1)); cbn; repeat case_match; try done; lia.
  - cbn [ParseInt]. rewrite Z.eqb_refl. cbn [orb negb andb]. rewrite HU.
    destruct (Z.leb_spec n (2 ^ bits - 1)); cbn; repeat case_match; try done; lia.
Qed.
