(* ===== verification/Parser.v ===== *)
(** * The parser's state and token access: compiler/parser/parser.go

    A parser reads a token stream and populates a descriptor.  It does not
    return errors: it records one in [err] and its methods test [OK].  The
    monad's own error is only the exhaustion of the fuel of a loop.  The parse
    tree of the debug mode is not built and the texts of messages are not
    formatted: an error is its code and its token. *)
From S2P Require Export UserDefined Resolution TokenStream Strconv.

Inductive ParseErrorCode : Type :=
| ParserErrorCodeBadAttributeLocation
| ParserErrorCodeEOF
| ParserErrorCodeExpectedSimpleName
| ParserErrorCodeExtraneousToken
| ParserErrorCodeIntegerOutOfRange
| ParserErrorCodeIntegerParseError
| ParserErrorCodeMissingSemi
| ParserErrorCodeNotAssignmentCompatible
| ParserErrorCodeBadOrdinal
| ParserErrorCodeUnexpectedToken.
#[export] Instance ParseErrorCode_eq_dec : EqDecision ParseErrorCode.
Proof. solve_decision. Defined.

(** What the field [err] may hold. *)
Inductive ParserError : Type :=
| ParseError (code : ParseErrorCode) (token : Token)
| MemberError (e : AddError)
| NameError (e : DuplicateNameError)
| OrdinalsError (e : OrdinalError).

(** ** The objects a parse creates *)
(** User-defined types by the address of their declared object; types of
    members are pointers into the descriptor's type references. *)
Record Heap := mkHeap {
  mojomDescriptor : MojomDescriptor;
  structTable : gmap nat (MojomStruct nat);
  interfaceTable : gmap nat (MojomInterface nat);
  unionTable : gmap nat (MojomUnion nat);
  enumTable : gmap nat MojomEnum
}.
Definition set_descriptor (d : MojomDescriptor) (h : Heap) : Heap :=
  mkHeap d (structTable h) (interfaceTable h) (unionTable h) (enumTable h).
Definition put_struct (p : nat) (s : MojomStruct nat) (h : Heap) : Heap :=
  mkHeap (mojomDescriptor h) (<[p := s]> (structTable h)) (interfaceTable h) (unionTable h) (enumTable h).
Definition put_interface (p : nat) (i : MojomInterface nat) (h : Heap) : Heap :=
  mkHeap (mojomDescriptor h) (structTable h) (<[p := i]> (interfaceTable h)) (unionTable h) (enumTable h).
Definition put_union (p : nat) (u : MojomUnion nat) (h : Heap) : Heap :=
  mkHeap (mojomDescriptor h) (structTable h) (interfaceTable h) (<[p := u]> (unionTable h)) (enumTable h).
Definition put_enum (p : nat) (e : MojomEnum) (h : Heap) : Heap :=
  mkHeap (mojomDescriptor h) (structTable h) (interfaceTable h) (unionTable h) (<[p := e]> (enumTable h)).

Inductive OutOfFuel : Type := NoFuel.

Section Parser.
Context {S : Type} `{TokenStream S}.

Record Parser := mkParser {
  inputStream : S;
  err : option ParserError;
  lastSeen : Token;
  lastConsumed : Token;
  heap : Heap;
  mojomFile : nat;
  currentScope : option nat;
  used : bool;
  metaDataOnlyMode : bool;
  discardRemaining : bool
}.
Definition PM (A : Type) := M Parser OutOfFuel A.

Definition set_stream (s : S) (p : Parser) : Parser :=
  mkParser s (err p) (lastSeen p) (lastConsumed p) (heap p) (mojomFile p) (currentScope p) (used p)
    (metaDataOnlyMode p) (discardRemaining p).
Definition set_err (e : ParserError) (p : Parser) : Parser :=
  mkParser (inputStream p) (Some e) (lastSeen p) (lastConsumed p) (heap p) (mojomFile p)
    (currentScope p) (used p) (metaDataOnlyMode p) (discardRemaining p).
Definition set_lastSeen (t : Token) (p : Parser) : Parser :=
  mkParser (inputStream p) (err p) t (lastConsumed p) (heap p) (mojomFile p) (currentScope p) (used p)
    (metaDataOnlyMode p) (discardRemaining p).
Definition set_lastConsumed (t : Token) (p : Parser) : Parser :=
  mkParser (inputStream p) (err p) (lastSeen p) t (heap p) (mojomFile p) (currentScope p) (used p)
    (metaDataOnlyMode p) (discardRemaining p).
Definition set_heap (h : Heap) (p : Parser) : Parser :=
  mkParser (inputStream p) (err p) (lastSeen p) (lastConsumed p) h (mojomFile p) (currentScope p)
    (used p) (metaDataOnlyMode p) (discardRemaining p).
Definition set_currentScope (s : option nat) (p : Parser) : Parser :=
  mkParser (inputStream p) (err p) (lastSeen p) (lastConsumed p) (heap p) (mojomFile p) s (used p)
    (metaDataOnlyMode p) (discardRemaining p).
Definition set_used (p : Parser) : Parser :=
  mkParser (inputStream p) (err p) (lastSeen p) (lastConsumed p) (heap p) (mojomFile p)
    (currentScope p) true (metaDataOnlyMode p) (discardRemaining p).
Definition set_discardRemaining (p : Parser) : Parser :=
  mkParser (inputStream p) (err p) (lastSeen p) (lastConsumed p) (heap p) (mojomFile p)
    (currentScope p) (used p) (metaDataOnlyMode p) true.

Definition SetMetaDataOnlyMode (metaDataOnly : bool) (p : Parser) : Parser :=
  mkParser (inputStream p) (err p) (lastSeen p) (lastConsumed p) (heap p) (mojomFile p)
    (currentScope p) (used p) metaDataOnly (discardRemaining p).

(** ** Errors *)
Definition is_ok (p : Parser) : bool := match err p with None => true | Some _ => false end.
Definition OK : PM bool := fun p => (p, Ok (is_ok p)).
Definition fail (e : ParserError) : PM unit := modify (set_err e).
Definition parseErrorT (code : ParseErrorCode) (token : Token) : PM unit := fail (ParseError code token).
Definition parseError (code : ParseErrorCode) : PM unit :=
  let! p := get in parseErrorT code (lastSeen p).
Definition unexpectedTokenError (token : Token) : PM unit :=
  parseErrorT ParserErrorCodeUnexpectedToken token.
(** [if !p.OK() { return d }]. *)
Definition unless_err {A} (d : A) (k : PM A) : PM A :=
  let! ok := OK in if ok then k else ret d.

(** ** Tokens *)
Definition stream_peek : PM Token :=
  fun p => let (s, t) := PeekNext (inputStream p) in (set_stream s p, Ok t).
Definition next_available : PM Token :=
  let! p := get in if discardRemaining p then ret eofToken else stream_peek.

Definition peekNextToken : PM Token :=
  let! nextToken := next_available in
  (if Token_EOF nextToken then parseError ParserErrorCodeEOF else ret tt) ;;;
  modify (set_lastSeen nextToken) ;;;
  ret nextToken.
Definition checkEOF : PM bool :=
  let! nextToken := next_available in
  modify (set_lastSeen nextToken) ;;;
  ret (Token_EOF nextToken).
Definition consumeNextToken : PM unit :=
  let! p := get in
  if discardRemaining p then
    modify (set_lastSeen eofToken) ;;; modify (set_lastConsumed eofToken)
  else
    let! t := stream_peek in
    modify (set_lastConsumed t) ;;;
    modify (fun p => set_stream (ConsumeNext (inputStream p)) p).
Definition last_consumed : PM Token := fun p => (p, Ok (lastConsumed p)).

(** ** Reading terminals: the helpers at the end of parsing.go *)
Definition match_ (expectedKind : TokenKind) : PM bool :=
  unless_err false (
    let! nextToken := peekNextToken in
    unless_err false (
      if negb (bool_decide (Kind nextToken = expectedKind))
      then unexpectedTokenError nextToken ;;; ret false
      else consumeNextToken ;;; ret true)).
Definition tryMatch (expectedKind : TokenKind) : PM bool :=
  let! eof := checkEOF in
  if eof then ret false
  else
    unless_err false (
      let! nextToken := peekNextToken in
      if negb (bool_decide (Kind nextToken = expectedKind)) then ret false
      else consumeNextToken ;;; ret true).
Definition matchSemicolonToken (previousToken : Token) : PM bool :=
  unless_err false (
    let! ok := match_ Semi in
    if ok then ret true
    else parseErrorT ParserErrorCodeUnexpectedToken previousToken ;;; ret false).
Definition matchSemicolon : PM bool :=
  let! t := last_consumed in matchSemicolonToken t.

(** Text as a Go string; the model keeps token texts as bytes. *)
Definition string_of_bytes (l : list Z) : string :=
  String.string_of_list_ascii (map (fun b => ascii_of_N (Z.to_N b)) l).
Definition readText (kind : TokenKind) : PM string :=
  unless_err "" (
    let! ok := match_ kind in
    if negb ok then ret ""
    else let! t := last_consumed in ret (string_of_bytes (Text t))).
Definition readStringLiteral : PM string :=
  unless_err "" (
    let! ok := match_ StringLiteral in
    if negb ok then ret ""
    else
      let! t := last_consumed in
      let! text := must (StringLiteralTokenToText t) in
      ret (string_of_bytes text)).
Definition readName : PM string := unless_err "" (readText Name).

(** The error of an ordinal that is not a decimal integer between 0 and
    [MaxUint32 - 1] is [None]. *)
Definition readOrdinal : PM (option Z) :=
  unless_err (Some (-1)) (
    let! found := tryMatch Tokens.Ordinal in
    if found then
      let! t := last_consumed in
      match Text t with
      | [] => panic
      | _ :: intTextToParse =>
        match ParseInt intTextToParse 10 64 with
        | inl v => if (v <? 0) || (MaxUint32 <=? v) then ret None else ret (Some v)
        | inr _ => ret None
        end
      end
    else ret (Some (-1))).
Definition invalidOrdinalError (nameToken : Token) : PM unit :=
  parseErrorT ParserErrorCodeBadOrdinal nameToken.

(** ** The descriptor *)
Definition with_descriptor {A} (m : M MojomDescriptor OutOfFuel A) : PM A :=
  fun p => let (d, r) := m (mojomDescriptor (heap p)) in
           (set_heap (set_descriptor d (heap p)) p, r).
(** Runs a method of an object of the heap; its error is a result. *)
Definition attempt {T E} (read : Heap -> option T) (write : T -> Heap -> Heap) (m : M T E unit)
    : PM (option E) :=
  fun p =>
    match read (heap p) with
    | None => (p, Panic)
    | Some s =>
      let (s', r) := m s in
      (set_heap (write s' (heap p)) p,
       match r with Ok _ => Ok None | Err e => Ok (Some e) | Panic => Panic end)
    end.
Definition with_pair {T} (table : Heap -> option T) (put : T -> Heap -> Heap) :
    (Heap -> option (MojomDescriptor * T)) * (MojomDescriptor * T -> Heap -> Heap) :=
  (fun h => s ← table h; Some (mojomDescriptor h, s),
   fun ds h => put ds.2 (set_descriptor ds.1 h)).

(** Allocates a declared object that is in no scope yet. *)
Definition new_object (c : ObjectClass) (d : DeclarationData) : PM nat :=
  with_descriptor (fun ds =>
    (set_objects (objects ds ++ [mkDeclaredObject c (dd_simpleName d) (dd_nameToken d) "" "" None]) ds,
     Ok (length (objects ds)))).

(** ** Scope stack *)
Definition pushScope (scope : nat) : PM unit :=
  let! p := get in
  match currentScope p with
  | None => modify (set_currentScope (Some scope))
  | Some current =>
    let! s := must (scopes (mojomDescriptor (heap p)) !! scope) in
    if bool_decide (parentScope s = Some current)
    then modify (set_currentScope (Some scope))
    else panic
  end.
Definition popScope : PM unit :=
  let! p := get in
  match currentScope p with
  | None => ret tt
  | Some current =>
    let! s := must (scopes (mojomDescriptor (heap p)) !! current) in
    modify (set_currentScope (parentScope s))
  end.
(** [p.pushScope(scope); defer p.popScope()]. *)
Definition in_scope {A} (scope : nat) (body : PM A) : PM A :=
  pushScope scope ;;;
  let! r := body in
  popScope ;;;
  ret r.
End Parser.
Arguments Parser S : clear implicits.
Arguments PM S A : clear implicits.
