(* ===== verification/Grammar.v ===== *)
(** * The grammar of .mojom files

    Languages of token lists: the productions listed at the top of
    compiler/parser/parsing.go, over the tokens of the lexer.  They say what a
    parse may accept; [ParserSpec] shows that it accepts nothing else.  Not
    part of the grammar are the conditions in double braces, on what a name
    resolves to, except that the initializer of an enum value is an integer or
    an identifier.

    Where the code and its comment differ, the grammar is that of the code:
    - ATTRIBUTES ends in a right bracket and IMPORT_STMNT in a semicolon, both
      of which the comment forgets;
    - no attributes precede an import statement, which the third production of
      the comment allows and compiler/fidl.ebnf does not;
    - the empty file is accepted, as by compiler/fidl.ebnf;
    - [handle] may stand without a kind and in angle brackets it has one; the
      comment has the brackets always and the kind optional.  The kinds job,
      socket and eventpair are not in the comment;
    - the type of a key or of a constant may be a nullable string.  A
      reference in these places may be followed by an ampersand or a question
      mark; [validateAfterResolution] refuses these later.

    compiler/fidl.ebnf differs from both: it wants a value in an enum, allows an
    attribute section with nothing in it but none before a constant, has
    [default] among all literals and any type for a constant. *)
From S2P Require Export Parser.

Definition lang : Type := list Token -> Prop.
Definition tok (k : TokenKind) : lang := fun ts => exists t, ts = [t] /\ Kind t = k.
Definition word (s : string) : lang :=
  fun ts => exists t, ts = [t] /\ Kind t = Name /\ string_of_bytes (Text t) = s.
Definition nothing : lang := fun ts => ts = [].
Definition none : lang := fun _ => False.
Definition any : lang := fun _ => True.
Definition cat (L1 L2 : lang) : lang := fun ts => exists u v, ts = u ++ v /\ L1 u /\ L2 v.
Definition alt (L1 L2 : lang) : lang := fun ts => L1 ts \/ L2 ts.
Definition opt (L : lang) : lang := alt nothing L.
Inductive star (L : lang) : lang :=
| star_nil : star L []
| star_cons u v : L u -> star L v -> star L (u ++ v).
Definition sep_by (sep L : lang) : lang := cat L (star (cat sep L)).

Declare Scope lang_scope.
Delimit Scope lang_scope with lang.
Infix "⋅" := cat (at level 38, right associativity) : lang_scope.
Infix "∣" := alt (at level 39, right associativity) : lang_scope.
Local Open Scope lang_scope.

Definition IDENTIFIER : lang := sep_by (tok Dot) (tok Name).

Definition POS_INT_LITERAL : lang := tok IntConstDec ∣ tok IntConstHex.
Definition NUMBER_LITERAL : lang :=
  opt (tok Minus ∣ tok Plus) ⋅ (POS_INT_LITERAL ∣ tok FloatConst).
Definition LITERAL_VALUE : lang :=
  tok StringLiteral ∣ tok True_ ∣ tok False_ ∣ NUMBER_LITERAL.
Definition INTEGER_LITERAL : lang := opt (tok Minus ∣ tok Plus) ⋅ POS_INT_LITERAL.
Definition VALUE_REF : lang := IDENTIFIER ∣ LITERAL_VALUE.

(** The names with a meaning of their own in a type, which are [Name] tokens. *)
Definition simple_types : list string :=
  ["bool"; "float"; "double"; "int8"; "int16"; "int32"; "int64"; "uint8"; "uint16"; "uint32"; "uint64"].
Definition handle_kinds : list string :=
  ["channel"; "vmo"; "process"; "thread"; "event"; "port"; "job"; "socket"; "eventpair"].
Definition reserved_types : list string := simple_types ++ ["string"; "handle"; "array"; "map"].
Definition one_of (names : list string) : lang :=
  fun ts => exists t, ts = [t] /\ Kind t = Name /\ string_of_bytes (Text t) ∈ names.

Definition ATTR_ASSIGNMENT : lang := tok Name ⋅ tok Equals ⋅ (tok Name ∣ LITERAL_VALUE).
Definition ATTRIBUTES : lang :=
  tok LBracket ⋅ sep_by (tok Comma) ATTR_ASSIGNMENT ⋅ tok RBracket.
Definition attributed (L : lang) : lang := opt ATTRIBUTES ⋅ L.
Definition ORDINAL : lang := opt (tok Tokens.Ordinal).

Definition SIMPLE_TYPE : lang := one_of simple_types.
Definition HANDLE_KIND : lang := one_of handle_kinds.
(** An identifier that does not begin with a reserved name. *)
Definition USER_TYPE_REF : lang := fun ts =>
  (IDENTIFIER ⋅ opt (tok Amp) ⋅ opt (tok Qstn)) ts /\ ~ (one_of reserved_types ⋅ any) ts.

Definition ENUM_VAL_INITIALIZER : lang := IDENTIFIER ∣ INTEGER_LITERAL.
Definition ENUM_VALUE : lang := attributed (tok Name ⋅ opt (tok Equals ⋅ ENUM_VAL_INITIALIZER)).
Definition ENUM_BODY : lang := opt (sep_by (tok Comma) ENUM_VALUE ⋅ opt (tok Comma)).
Definition ENUM_DECL : lang :=
  tok Enum ⋅ tok Name ⋅ tok LBrace ⋅ ENUM_BODY ⋅ tok RBrace ⋅ tok Semi.

Definition MODULE_DECL : lang := tok Module_ ⋅ IDENTIFIER ⋅ tok Semi.
Definition IMPORT_STMNT : lang := tok Import ⋅ tok StringLiteral ⋅ tok Semi.

(** The parser compares the text of a token with names such as [string?], so
    the tokens it takes for a type include some that no lexer makes, a [Name]
    with such a text.  They are the parameter [odd]; in [MOJOM_FILE] there are none. *)
Section Productions.
Context {odd : lang}.
Definition ODD_TYPE : lang := odd ⋅ opt (tok Qstn).
Definition STRING_TYPE : lang := word "string" ⋅ opt (tok Qstn).
Definition HANDLE_TYPE : lang :=
  word "handle" ⋅ opt (tok LAngle ⋅ HANDLE_KIND ⋅ tok RAngle) ⋅ opt (tok Qstn).
Definition MAP_KEY_TYPE : lang := SIMPLE_TYPE ∣ STRING_TYPE ∣ USER_TYPE_REF ∣ ODD_TYPE.
Definition CONST_OK_TYPE : lang := MAP_KEY_TYPE.
#[warnings="-register-all"]
Inductive TYPE : lang :=
| TYPE_key u : MAP_KEY_TYPE u -> TYPE u
| TYPE_handle u : HANDLE_TYPE u -> TYPE u
| TYPE_array u :
    (word "array" ⋅ tok LAngle ⋅ TYPE ⋅ opt (tok Comma ⋅ tok IntConstDec) ⋅ tok RAngle ⋅ opt (tok Qstn)) u ->
    TYPE u
| TYPE_map u :
    (word "map" ⋅ tok LAngle ⋅ MAP_KEY_TYPE ⋅ tok Comma ⋅ TYPE ⋅ tok RAngle ⋅ opt (tok Qstn)) u ->
    TYPE u.

Definition CONSTANT_DECL : lang :=
  tok Const ⋅ CONST_OK_TYPE ⋅ tok Name ⋅ tok Equals ⋅ VALUE_REF ⋅ tok Semi.

Definition STRUCT_FIELD : lang :=
  TYPE ⋅ tok Name ⋅ ORDINAL ⋅ opt (tok Equals ⋅ (tok Default ∣ VALUE_REF)) ⋅ tok Semi.
Definition STRUCT_BODY : lang := star (attributed (STRUCT_FIELD ∣ ENUM_DECL ∣ CONSTANT_DECL)).
Definition STRUCT_DECL : lang :=
  tok Struct ⋅ tok Name ⋅ tok LBrace ⋅ STRUCT_BODY ⋅ tok RBrace ⋅ tok Semi.

Definition UNION_FIELD_DECL : lang := attributed (TYPE ⋅ tok Name ⋅ ORDINAL ⋅ tok Semi).
Definition UNION_DECL : lang :=
  tok Union ⋅ tok Name ⋅ tok LBrace ⋅ star UNION_FIELD_DECL ⋅ tok RBrace ⋅ tok Semi.

Definition PARAM_DECL : lang := attributed (TYPE ⋅ tok Name ⋅ ORDINAL).
Definition PARAM_LIST : lang := opt (sep_by (tok Comma) PARAM_DECL).
Definition METHOD_DECL : lang :=
  tok Name ⋅ ORDINAL ⋅ tok LParen ⋅ PARAM_LIST ⋅ tok RParen
  ⋅ opt (tok Response ⋅ tok LParen ⋅ PARAM_LIST ⋅ tok RParen) ⋅ tok Semi.
Definition INTRFC_BODY : lang := star (attributed (METHOD_DECL ∣ ENUM_DECL ∣ CONSTANT_DECL)).
Definition INTRFC_DECL : lang :=
  tok Interface ⋅ tok Name ⋅ tok LBrace ⋅ INTRFC_BODY ⋅ tok RBrace ⋅ tok Semi.

Definition MOJOM_DECL : lang :=
  INTRFC_DECL ∣ STRUCT_DECL ∣ UNION_DECL ∣ ENUM_DECL ∣ CONSTANT_DECL.
Definition ATTR_MOJOM_DECL : lang := attributed MOJOM_DECL.
Definition ATTR_MOJOM_FILE : lang :=
  (attributed MODULE_DECL ⋅ star IMPORT_STMNT ⋅ star ATTR_MOJOM_DECL)
  ∣ (IMPORT_STMNT ⋅ star IMPORT_STMNT ⋅ star ATTR_MOJOM_DECL)
  ∣ (ATTR_MOJOM_DECL ⋅ star ATTR_MOJOM_DECL)
  ∣ nothing.
End Productions.
Definition MOJOM_FILE : lang := @ATTR_MOJOM_FILE none.

(** ** Membership *)
Lemma cat_app (L1 L2 : lang) u v : L1 u -> L2 v -> (L1 ⋅ L2) (u ++ v).
Proof. intros Hu Hv. by exists u, v. Qed.
Lemma cat_nil_l (L1 L2 : lang) v : L1 [] -> L2 v -> (L1 ⋅ L2) v.
Proof. intros Hu Hv. by exists [], v. Qed.
Lemma cat_nil_r (L1 L2 : lang) u : L1 u -> L2 [] -> (L1 ⋅ L2) u.
Proof. intros Hu Hv. exists u, []. by rewrite app_nil_r. Qed.
Lemma opt_nil (L : lang) : opt L [].
Proof. by left. Qed.
Lemma opt_some (L : lang) u : L u -> opt L u.
Proof. by right. Qed.
Lemma star_snoc (L : lang) u v : star L u -> L v -> star L (u ++ v).
Proof.
  intros Hu Hv. induction Hu as [|u w Hu Hw IH].
  - rewrite <- (app_nil_r v). cbn. apply star_cons; [done|constructor].
  - rewrite <- app_assoc. by constructor.
Qed.
Lemma tok_nonempty k u : tok k u -> u <> [].
Proof. by intros (t & -> & _). Qed.
Lemma tok_one k t : Kind t = k -> tok k [t].
Proof. intros Hk. by exists t. Qed.
Lemma cat_cons (L1 L2 : lang) t v : L1 [t] -> L2 v -> (L1 ⋅ L2) (t :: v).
Proof. apply (cat_app L1 L2 [t]). Qed.
Lemma cat_one (L1 L2 : lang) t : L1 [t] -> L2 [] -> (L1 ⋅ L2) [t].
Proof. apply (cat_app L1 L2 [t] []). Qed.
Lemma cat_assoc (L1 L2 L3 : lang) u : (L1 ⋅ L2 ⋅ L3) u -> ((L1 ⋅ L2) ⋅ L3) u.
Proof.
  intros (a & b & -> & Ha & c & d & -> & Hc & Hd). rewrite app_assoc.
  apply cat_app; [by apply cat_app|done].
Qed.
Lemma cat_skip (L1 L2 : lang) u : L2 u -> (opt L1 ⋅ L2) u.
Proof. apply cat_nil_l, opt_nil. Qed.
Lemma cat_take (L1 L2 : lang) u : (L1 ⋅ L2) u -> (opt L1 ⋅ L2) u.
Proof. intros (a & b & -> & Ha & Hb). apply cat_app; [by right|done]. Qed.
Lemma opt_nothing (L : lang) u : nothing u -> opt L u.
Proof. by left. Qed.
Lemma alt_l (L1 L2 : lang) u : L1 u -> (L1 ∣ L2) u.
Proof. by left. Qed.
Lemma alt_r (L1 L2 : lang) u : L2 u -> (L1 ∣ L2) u.
Proof. by right. Qed.
Lemma sep_by_one (sep L : lang) u : L u -> sep_by sep L u.
Proof. intros Hu. apply cat_nil_r; [done|constructor]. Qed.
Lemma sep_by_cons (sep L : lang) a s u : L a -> sep s -> sep_by sep L u -> sep_by sep L (a ++ s ++ u).
Proof.
  intros Ha Hs (b & c & -> & Hb & Hc). apply cat_app; [done|]. rewrite app_assoc.
  apply star_cons; [by apply cat_app|done].
Qed.

(** ** Languages without the empty sentence *)
Definition proper (L : lang) : Prop := ~ L [].
Lemma proper_tok k : proper (tok k).
Proof. intros (t & Ht & _). discriminate Ht. Qed.
Lemma proper_word s : proper (word s).
Proof. intros (t & Ht & _). discriminate Ht. Qed.
Lemma proper_one_of l : proper (one_of l).
Proof. intros (t & Ht & _). discriminate Ht. Qed.
Lemma proper_cat_l (L1 L2 : lang) : proper L1 -> proper (L1 ⋅ L2).
Proof. by intros H (u & v & [-> ->]%eq_sym%app_eq_nil & Hu & _). Qed.
Lemma proper_cat_r (L1 L2 : lang) : proper L2 -> proper (L1 ⋅ L2).
Proof. by intros H (u & v & [-> ->]%eq_sym%app_eq_nil & _ & Hv). Qed.
Lemma proper_alt (L1 L2 : lang) : proper L1 -> proper L2 -> proper (L1 ∣ L2).
Proof. by intros H1 H2 [H|H]. Qed.
Create HintDb proper.
#[export] Hint Resolve proper_tok proper_word proper_one_of proper_cat_l proper_alt : proper.
#[export] Hint Resolve proper_cat_r | 3 : proper.
Lemma proper_USER_TYPE_REF : proper USER_TYPE_REF.
Proof. intros [H _]. revert H. change (proper (IDENTIFIER ⋅ opt (tok Amp) ⋅ opt (tok Qstn))). unfold IDENTIFIER, sep_by. auto with proper. Qed.
#[export] Hint Resolve proper_USER_TYPE_REF : proper.
Lemma proper_MAP_KEY_TYPE odd : proper odd -> proper (@MAP_KEY_TYPE odd).
Proof. unfold MAP_KEY_TYPE, SIMPLE_TYPE, STRING_TYPE, ODD_TYPE. auto with proper. Qed.
#[export] Hint Resolve proper_MAP_KEY_TYPE : proper.
Lemma proper_TYPE odd : proper odd -> proper (@TYPE odd).
Proof.
  intros Hodd H. remember [] as u eqn:E. destruct H as [u H|u H|u H|u H]; subst u; revert H;
    match goal with |- ?L [] -> False => change (proper L) end; unfold HANDLE_TYPE; auto with proper.
Qed.
#[export] Hint Resolve proper_TYPE : proper.

(** ** Proof search for membership

    [lang] splits a goal [(L1 ⋅ L2) (u ++ v)] along the appends, and decides
    for each [opt] and [∣] by what the context says of the parts. *)
Ltac split_app := first [apply cat_app | apply cat_cons | apply cat_one | apply cat_nil_r].
Ltac unfold_lang L := lazymatch L with ?f _ => unfold f | _ => unfold L end.
Ltac lang_go :=
  first
  [ assumption
  | lazymatch goal with
    | |- tok _ [_] => apply tok_one; first [assumption | reflexivity]
    | |- opt _ [] => apply opt_nil
    | |- star _ [] => apply star_nil
    | |- cat (cat _ _) _ _ => apply cat_assoc; lang_go
    | |- cat (opt _) _ [] => apply cat_skip; lang_go
    | |- cat (opt _) _ _ =>
      first [ apply cat_skip; solve [lang_go] | apply cat_take; solve [lang_go] | split_app; lang_go ]
    | |- cat _ _ [] => apply (cat_app _ _ [] []); lang_go
    | |- cat _ _ _ => split_app; lang_go
    | |- opt _ _ => first [ apply opt_nothing; assumption | apply opt_some; lang_go ]
    | |- alt _ _ _ => first [ apply alt_l; solve [lang_go] | apply alt_r; lang_go ]
    | |- attributed _ _ => unfold attributed; lang_go
    | |- ?L _ => unfold_lang L; lang_go
    end ].
Ltac no_tokens :=
  repeat match goal with H : nothing ?u |- _ => unfold nothing in H; subst u end.
Ltac lang := no_tokens; rewrite ?app_nil_r in *; cbn [app] in *; solve [lang_go].
