(* ===== verification/ParseTypes.v ===== *)
(** * Parsing literals, types and values: compiler/parser/parsing.go

    The methods that read an identifier, a literal, a type or a value.  A
    method that loops or recurses takes fuel; [ParserSpec] shows that the
    number of tokens left is enough.  A nil result is [None]. *)
From S2P Require Export Parser.

Section ParseTypes.
Context {S : Type} `{TokenStream S}.
#[local] Abbreviation PM := (PM S).

(** ** Identifiers *)
Fixpoint identifier_loop (fuel : nat) (identifier : string) (firstToken : Token) : PM string :=
  match fuel with
  | O => throw NoFuel
  | Datatypes.S fuel =>
    let! found := tryMatch Name in
    if found then
      let! t := last_consumed in
      let identifier := identifier +:+ string_of_bytes (Text t) in
      let! dot := tryMatch Dot in
      if dot then identifier_loop fuel (identifier +:+ ".") firstToken else ret identifier
    else parseErrorT ParserErrorCodeUnexpectedToken firstToken ;;; ret identifier
  end.
Definition parseIdentifier (fuel : nat) : PM (string * Token) :=
  unless_err ("", zeroToken) (
    let! firstToken := peekNextToken in
    unless_err ("", firstToken) (
      if negb (bool_decide (Kind firstToken = Name))
      then unexpectedTokenError firstToken ;;; ret ("", firstToken)
      else let! identifier := identifier_loop fuel "" firstToken in ret (identifier, firstToken))).

(** ** Number literals *)
(** The loop over the sizes: absolute value, number of bits, signed; or the
    last error of strconv. *)
Fixpoint int_sizes_loop (sizes : list Z) (intText : list Z) (base : Z) (allowUnsigned : bool)
    (maxNumBits : Z) (parseError : option NumError) : (Z * Z * bool) + option NumError :=
  match sizes with
  | [] => inr parseError
  | numBits :: sizes =>
    if maxNumBits <? numBits then inr parseError
    else
      match ParseInt intText base numBits with
      | inl intVal =>
        let intVal := if intVal <? 0 then i64 (- intVal) else intVal in
        inl (u64 intVal, numBits, true)
      | inr e =>
        if allowUnsigned then
          match ParseUint intText base numBits with
          | inl intVal => inl (intVal, numBits, false)
          | inr e => int_sizes_loop sizes intText base allowUnsigned maxNumBits (Some e)
          end
        else int_sizes_loop sizes intText base allowUnsigned maxNumBits (Some e)
      end
  end.
Definition parsePositiveIntegerLiteral (initialMinus acceptHex allowUnsigned : bool) (maxNumBits : Z)
    : PM (option (Z * Z * bool)) :=
  if negb (bool_decide (maxNumBits ∈ [8; 16; 32; 64])) then panic
  else if initialMinus && allowUnsigned then panic
  else
    let! nextToken := peekNextToken in
    consumeNextToken ;;;
    let! consumed := last_consumed in
    let parse intText base :=
      let intText := if initialMinus then chr "-" :: intText else intText in
      match int_sizes_loop [8; 16; 32; 64] intText base allowUnsigned maxNumBits None with
      | inl r => ret (Some r)
      | inr (Some ErrRange) => parseErrorT ParserErrorCodeIntegerOutOfRange nextToken ;;; ret None
      | inr _ => panic
      end in
    match Kind nextToken with
    | IntConstDec => parse (Text consumed) 10
    | IntConstHex =>
      if negb acceptHex
      then parseErrorT ParserErrorCodeUnexpectedToken nextToken ;;; ret None
      else if (length (Text consumed) <? 3)%nat
      then parseErrorT ParserErrorCodeIntegerParseError nextToken ;;; ret None
      else parse (drop 2 (Text consumed)) 16
    | _ => unexpectedTokenError nextToken ;;; ret None
    end.
Definition parsePositiveFloatLiteral (initialMinus : bool) : PM (spec_float * bool) :=
  let! nextToken := peekNextToken in
  let! _ := match_ FloatConst in
  let! consumed := last_consumed in
  let floatText := if initialMinus then chr "-" :: Text consumed else Text consumed in
  match ParseFloat64 floatText with
  | inl floatVal => ret (floatVal, true)
  | inr ErrRange =>
    parseErrorT ParserErrorCodeIntegerOutOfRange nextToken ;;; ret (S754_zero false, false)
  | inr ErrSyntax => panic
  end.

(** [None] is the zero [LiteralValue]. *)
Definition parseNumberLiteral : PM (option LiteralValue) :=
  unless_err None (
    let! initialMinus := tryMatch Minus in
    let! initialPlus := tryMatch Plus in
    if initialMinus && initialPlus then
      let! t := last_consumed in unexpectedTokenError t ;;; ret None
    else
      let! nextToken := peekNextToken in
      match Kind nextToken with
      | IntConstDec | IntConstHex =>
        let! parsed := parsePositiveIntegerLiteral initialMinus true (negb initialMinus) 64 in
        let! valueToken := last_consumed in
        match parsed with
        | None => ret None
        | Some (absoluteValue, numBits, signed) =>
          let value :=
            if signed then
              let value := i64 absoluteValue in
              if initialMinus then i64 (-1 * value) else value
            else 0 in
          let t := Some valueToken in
          if numBits =? 8 then
            ret (Some (if signed then MakeInt8LiteralValue (i8 value) t
                       else MakeUint8LiteralValue (u8 absoluteValue) t))
          else if numBits =? 16 then
            ret (Some (if signed then MakeInt16LiteralValue (i16 value) t
                       else MakeUint16LiteralValue (u16 absoluteValue) t))
          else if numBits =? 32 then
            ret (Some (if signed then MakeInt32LiteralValue (i32 value) t
                       else MakeUint32LiteralValue (u32 absoluteValue) t))
          else if numBits =? 64 then
            ret (Some (if signed then MakeInt64LiteralValue value t
                       else MakeUint64LiteralValue absoluteValue t))
          else panic
        end
      | FloatConst =>
        let! value := parsePositiveFloatLiteral initialMinus in
        let! valueToken := last_consumed in
        ret (Some (MakeDoubleLiteralValue value.1 (Some valueToken)))
      | _ => unexpectedTokenError nextToken ;;; ret None
      end).

Definition parseLiteral : PM (option LiteralValue) :=
  unless_err None (
    let! nextToken := peekNextToken in
    match Kind nextToken with
    | StringLiteral =>
      let! literal := readStringLiteral in
      let! valueToken := last_consumed in
      ret (Some (MakeStringLiteralValue literal (Some valueToken)))
    | True_ =>
      consumeNextToken ;;;
      let! valueToken := last_consumed in
      ret (Some (MakeBoolLiteralValue true (Some valueToken)))
    | False_ =>
      consumeNextToken ;;;
      let! valueToken := last_consumed in
      ret (Some (MakeBoolLiteralValue false (Some valueToken)))
    | Plus | Minus | FloatConst | IntConstDec | IntConstHex => parseNumberLiteral
    | _ => unexpectedTokenError nextToken ;;; ret None
    end).

(** ** Types *)
(** The built-in types have no reference to a user-defined type. *)
Definition of_builtin (t : TypeRef) : option (TypeRefOf nat) :=
  match t with
  | TRSimple s => Some (TRSimple s)
  | TRString s => Some (TRString s)
  | TRHandle h => Some (TRHandle h)
  | _ => None
  end.
Definition BuiltInType_named (name : string) : option (TypeRefOf nat) := BuiltInType name ≫= of_builtin.

(** The marking methods on a type whose references are pointers. *)
Definition mark (m : UserTypeRef -> UserTypeRef * bool) (r : nat) : PM bool :=
  with_descriptor (
    let! t := deref typeRefs r in
    modify (fun d => set_type_refs (alter (fun t => (m t).1) r (typeRefs d)) d) ;;;
    ret (m t).2).
Definition TypeRef_MarkUsedAsMapKey (t : TypeRefOf nat) : PM bool :=
  match t with
  | TRSimple _ | TRString _ => ret true
  | TRHandle _ | TRArray _ _ _ | TRMap _ _ _ => ret false
  | TRUser r => mark UserTypeRef_MarkUsedAsMapKey r
  end.
Definition TypeRef_MarkUsedAsConstantType (t : TypeRefOf nat) : PM bool :=
  match t with
  | TRSimple _ | TRString _ => ret true
  | TRHandle _ | TRArray _ _ _ | TRMap _ _ _ => ret false
  | TRUser r => mark UserTypeRef_MarkUsedAsConstantType r
  end.
Definition TypeRef_MarkTypeCompatible (t : TypeRefOf nat) (assignment : LiteralAssignment) : PM bool :=
  match t with
  | TRSimple s => must (SimpleType_MarkTypeCompatible s assignment)
  | TRString _ => ret (StringType_MarkTypeCompatible assignment)
  | TRHandle _ | TRArray _ _ _ | TRMap _ _ _ => ret false
  | TRUser r => mark (fun t => UserTypeRef_MarkTypeCompatible t assignment) r
  end.

Definition tryParseBuiltInType : PM (option (TypeRefOf nat)) :=
  unless_err None (
    let! typeNameToken := peekNextToken in
    if negb (bool_decide (Kind typeNameToken = Name)) then ret None
    else
      let typeName := string_of_bytes (Text typeNameToken) in
      match BuiltInType_named typeName with
      | None => ret None
      | Some builtInType =>
        consumeNextToken ;;;
        let nullable typeName builtInType :=
          let! qstn := tryMatch Qstn in
          if qstn then
            match BuiltInType_named (typeName +:+ "?") with
            | None => parseErrorT ParserErrorCodeUnexpectedToken typeNameToken ;;; ret None
            | t => ret t
            end
          else ret (Some builtInType) in
        if bool_decide (typeName = "handle") then
          let! langle := tryMatch LAngle in
          if langle then
            let! handleType := readText Name in
            let! ok := OK in
            if negb ok then
              let! p := get in unexpectedTokenError (lastSeen p) ;;; ret None
            else
              let! rangle := match_ RAngle in
              if rangle then
                let typeName := typeName +:+ "<" +:+ handleType +:+ ">" in
                match BuiltInType_named typeName with
                | None => parseErrorT ParserErrorCodeUnexpectedToken typeNameToken ;;; ret None
                | Some t => unless_err None (nullable typeName t)
                end
              else unless_err None (nullable typeName builtInType)
          else unless_err None (nullable typeName builtInType)
        else nullable typeName builtInType
      end).

Definition tryParseArrayType (parseType : PM (option (TypeRefOf nat))) : PM (option (TypeRefOf nat)) :=
  unless_err None (
    let! nextToken := peekNextToken in
    if negb (bool_decide (Kind nextToken = Name))
       || negb (bool_decide (string_of_bytes (Text nextToken) = "array"))
    then ret None
    else
      consumeNextToken ;;;
      let! langle := match_ LAngle in
      if negb langle then ret None
      else
        let! elementType := parseType in
        unless_err None (
          let! isFixedSize := tryMatch Comma in
          let rest fixedSize :=
            let! rangle := match_ RAngle in
            if negb rangle then ret None
            else
              let! nullable := tryMatch Qstn in
              let! elementType := must elementType in
              ret (Some (NewArrayTypeRef elementType fixedSize nullable)) in
          if isFixedSize then
            let! size := parsePositiveIntegerLiteral false false false 32 in
            match size with
            | Some (size, _, _) => rest (i32 size)
            | None => ret None
            end
          else rest (-1))).

Definition tryParseMapType (parseType : PM (option (TypeRefOf nat))) : PM (option (TypeRefOf nat)) :=
  unless_err None (
    let! nextToken := peekNextToken in
    if negb (bool_decide (Kind nextToken = Name))
       || negb (bool_decide (string_of_bytes (Text nextToken) = "map"))
    then ret None
    else
      consumeNextToken ;;;
      let! langle := match_ LAngle in
      if negb langle then ret None
      else
        let! keyToken := peekNextToken in
        let! keyType := parseType in
        let! _ := match_ Comma in
        let! valueType := parseType in
        let! rangle := match_ RAngle in
        if negb rangle then ret None
        else
          let! nullable := tryMatch Qstn in
          let! keyType := must keyType in
          let! isKey := TypeRef_MarkUsedAsMapKey keyType in
          if negb isKey
          then parseErrorT ParserErrorCodeUnexpectedToken keyToken ;;; ret None
          else
            let! valueType := must valueType in
            ret (Some (NewMapTypeRef keyType valueType nullable))).

Definition new_type_ref (r : UserTypeRef) : PM nat :=
  with_descriptor (fun d => (set_type_refs (typeRefs d ++ [r]) d, Ok (length (typeRefs d)))).
Definition parseTypeReference (fuel : nat) : PM (option (TypeRefOf nat)) :=
  unless_err None (
    let! identifier := parseIdentifier fuel in
    unless_err None (
      let! interfaceRequest := tryMatch Amp in
      let! nullable := tryMatch Qstn in
      unless_err None (
        let! p := get in
        let! typeReference :=
          new_type_ref (NewUserTypeRef identifier.1 nullable interfaceRequest (currentScope p) identifier.2) in
        with_descriptor (modify (RegisterUnresolvedTypeReference typeReference)) ;;;
        ret (Some (TRUser typeReference))))).

(** The fuel bounds the nesting of arrays and maps and the length of an
    identifier. *)
Fixpoint parseType (fuel : nat) : PM (option (TypeRefOf nat)) :=
  match fuel with
  | O => throw NoFuel
  | Datatypes.S n =>
    unless_err None (
      let! mojomType := tryParseBuiltInType in
      match mojomType with
      | Some _ => ret mojomType
      | None =>
        let! mojomType := tryParseArrayType (parseType n) in
        match mojomType with
        | Some _ => ret mojomType
        | None =>
          let! mojomType := tryParseMapType (parseType n) in
          match mojomType with
          | Some _ => ret mojomType
          | None => parseTypeReference fuel
          end
        end
      end)
  end.

(** ** Values *)
(** The interface value a [core.ValueRef] result holds: a nil [*UserValueRef]
    inside an interface is not the nil interface. *)
Inductive ValueResult : Type :=
| NilValue
| NilUserValueRef
| AValue (v : ValueRef).

Definition new_value_ref (r : UserValueRef nat) : PM nat :=
  with_descriptor (fun d => (set_value_refs (valueRefs d ++ [r]) d, Ok (length (valueRefs d)))).
Definition parseUserValueRef (fuel : nat) (assigneeSpec : AssigneeSpec nat) : PM (option nat) :=
  unless_err None (
    let! identifier := parseIdentifier fuel in
    unless_err None (
      let! p := get in
      let! valueReference :=
        new_value_ref (NewUserValueRef assigneeSpec identifier.1 (currentScope p) identifier.2) in
      with_descriptor (modify (RegisterUnresolvedValueReference valueReference)) ;;;
      ret (Some valueReference))).
Definition parseValue (fuel : nat) (assigneeSpec : AssigneeSpec nat) : PM ValueResult :=
  unless_err NilValue (
    let! nextToken := peekNextToken in
    if bool_decide (Kind nextToken = Name) then
      let! ref := parseUserValueRef fuel assigneeSpec in
      ret (match ref with Some r => AValue (VRUser r) | None => NilUserValueRef end)
    else
      let! literalValue := parseLiteral in
      unless_err NilValue (
        ret (match literalValue with Some v => AValue (VRLiteral v) | None => NilValue end))).
End ParseTypes.
