(* ===== verification/ParseDecls.v ===== *)
(** * Parsing declarations and files: compiler/parser/parsing.go

    The methods that read attributes, declarations and a whole file.  A body
    loop has the fuel of the parse; the fuel runs out on the comma that
    [parseEnumBody] looks at without consuming it (theorem
    [enum_body_comma_hangs]) and, as [ParserSpec] shows, nowhere else. *)
From S2P Require Export ParseTypes.

Section ParseDecls.
Context {S : Type} `{TokenStream S}.
#[local] Abbreviation PM := (PM S).

(** ** Attributes *)
Definition append_attribute (a : MojomAttribute) (l : Attributes) : Attributes :=
  mkAttributes (List l ++ [a]) (LeftBracketToken l).
Fixpoint attributes_loop (fuel : nat) (attributes : Attributes) (nextToken : Token) : PM Attributes :=
  if bool_decide (Kind nextToken = RBracket) then ret attributes
  else
    match fuel with
    | O => throw NoFuel
    | Datatypes.S fuel =>
      let! key := readName in
      let! keyToken := last_consumed in
      unless_err attributes (
        let! equals := match_ Equals in
        if negb equals then ret attributes
        else
          let! valueStart := peekNextToken in
          let! value :=
            if bool_decide (Kind valueStart = Name) then
              let! text := readName in
              let! valueToken := last_consumed in
              ret (Some (MakeStringLiteralValue text (Some valueToken)))
            else parseLiteral in
          unless_err attributes (
            let! value := must value in
            let attributes :=
              append_attribute (NewMojomAttribute key (Some keyToken) value) attributes in
            let! nextToken := peekNextToken in
            unless_err attributes (
              consumeNextToken ;;;
              match Kind nextToken with
              | RBracket | Comma => attributes_loop fuel attributes nextToken
              | Module_ | Interface | Struct | Union | Enum =>
                parseErrorT ParserErrorCodeUnexpectedToken nextToken ;;; ret attributes
              | _ => unexpectedTokenError nextToken ;;; ret attributes
              end)))
    end.
Definition parseAttributes (fuel : nat) : PM (option Attributes) :=
  unless_err None (
    let! lbracket := tryMatch LBracket in
    if negb lbracket then ret None
    else
      let! nextToken := last_consumed in
      let! attributes := attributes_loop fuel (NewAttributes nextToken) nextToken in
      ret (Some attributes)).

(** ** The objects of the heap *)
Definition on_struct {E} (obj : nat) (m : M (MojomDescriptor * MojomStruct nat) E unit)
    : PM (option E) :=
  attempt (fun h => s ← structTable h !! obj; Some (mojomDescriptor h, s))
    (fun ds h => put_struct obj ds.2 (set_descriptor ds.1 h)) m.
Definition on_interface {E} (obj : nat) (m : M (MojomDescriptor * MojomInterface nat) E unit)
    : PM (option E) :=
  attempt (fun h => i ← interfaceTable h !! obj; Some (mojomDescriptor h, i))
    (fun di h => put_interface obj di.2 (set_descriptor di.1 h)) m.
Definition on_enum {E} (obj : nat) (m : M (MojomDescriptor * MojomEnum) E unit) : PM (option E) :=
  attempt (fun h => e ← enumTable h !! obj; Some (mojomDescriptor h, e))
    (fun de h => put_enum obj de.2 (set_descriptor de.1 h)) m.
Definition on_union {E} (obj : nat) (m : M (MojomUnion nat) E unit) : PM (option E) :=
  attempt (fun h => unionTable h !! obj) (put_union obj) m.
Definition in_file {E} (m : M MojomDescriptor E unit) : PM (option E) :=
  attempt (fun h => Some (mojomDescriptor h)) set_descriptor m.
Definition alone {D T E} (m : M T E unit) : M (D * T) E unit :=
  fun ds => let (s, r) := m ds.2 in ((ds.1, s), r).
Definition struct_nested {E} (m : M (MojomDescriptor * NestedDeclarations) E unit)
    : M (MojomDescriptor * MojomStruct nat) E unit :=
  fun ds => let (dc, r) := m (ds.1, s_nested ds.2) in ((dc.1, set_struct_nested dc.2 ds.2), r).
Definition interface_nested {E} (m : M (MojomDescriptor * NestedDeclarations) E unit)
    : M (MojomDescriptor * MojomInterface nat) E unit :=
  fun di => let (dc, r) := m (di.1, i_nested di.2) in ((dc.1, set_interface_nested dc.2 di.2), r).
Definition set_braces_struct (t : Token) (s : MojomStruct nat) : MojomStruct nat :=
  set_struct_nested (SetClosingBraceToken (Some t) (s_nested s)) s.
Definition set_braces_interface (t : Token) (i : MojomInterface nat) : MojomInterface nat :=
  set_interface_nested (SetClosingBraceToken (Some t) (i_nested i)) i.
Definition update_heap (f : Heap -> Heap) : PM unit := modify (fun p => set_heap (f (heap p)) p).

(** The scope of an object under the current scope, in the same file. *)
Definition new_lexical_scope (kind : ScopeKind) (obj : nat) (name : string) : PM nat :=
  let! p := get in
  with_descriptor (
    let! parent := deref_nil scopes (currentScope p) in
    NewLexicalScope kind (currentScope p) name (file parent) (Some obj)).
Definition Struct_InitAsScope (obj : nat) : PM nat :=
  let! p := get in
  let! s := must (structTable (heap p) !! obj) in
  let! scope := new_lexical_scope ScopeStruct obj (dd_simpleName (s_decl s)) in
  update_heap (put_struct obj (set_struct_nested (set_containedScope scope (s_nested s)) s)) ;;;
  ret scope.
Definition Interface_InitAsScope (obj : nat) : PM nat :=
  let! p := get in
  let! i := must (interfaceTable (heap p) !! obj) in
  let! scope := new_lexical_scope ScopeInterface obj (dd_simpleName (i_decl i)) in
  update_heap (put_interface obj (set_interface_nested (set_containedScope scope (i_nested i)) i)) ;;;
  ret scope.
Definition Enum_InitAsScope (obj : nat) : PM nat :=
  let! p := get in
  let! e := must (enumTable (heap p) !! obj) in
  let! scope := new_lexical_scope ScopeEnum obj (dd_simpleName (e_decl e)) in
  update_heap (put_enum obj (set_scopeForValues scope e)) ;;;
  ret scope.

(** One turn of a body loop: [None] is [return false], otherwise whether the
    right brace was found.  [dup] is [duplicateNameError]. *)
Definition end_of_turn (dup : option ParserError) (rbraceFound : bool) : PM (option bool) :=
  let! ok := OK in
  match dup with
  | Some e => if ok then fail e ;;; ret None else ret (Some rbraceFound)
  | None => ret (Some rbraceFound)
  end.
Definition brace_found (attributes : option Attributes) : PM (option bool) :=
  (match attributes with
   | Some _ => parseError ParserErrorCodeBadAttributeLocation
   | None => ret tt
   end) ;;;
  end_of_turn None true.
(** [for attributes := p.parseAttributes(); !rbraceFound; attributes =
    p.parseAttributes()] around [turn]; false is [return false]. *)
Fixpoint body_loop (n fuel : nat) (turn : option Attributes -> PM (option bool))
    (attributes : option Attributes) : PM bool :=
  match n with
  | O => throw NoFuel
  | Datatypes.S n =>
    unless_err false (
      let! step := turn attributes in
      match step with
      | None => ret false
      | Some rbraceFound =>
        let! attributes := parseAttributes fuel in
        if rbraceFound then ret true else body_loop n fuel turn attributes
      end)
  end.

(** ** Constants *)
Definition ValidateValue (name : string) (declaredType : TypeRefOf nat) (value : ValueRef) : PM bool :=
  match value with
  | VRLiteral lv =>
    TypeRef_MarkTypeCompatible declaredType
      (mkLiteralAssignment lv name LiteralAssignmentKindConstantDeclaration)
  | VRUser _ => ret true
  end.
Definition parseConstDecl (fuel : nat) (attributes : option Attributes) : PM (option nat) :=
  unless_err None (
    let! _ := match_ Const in
    let! declaredTypeToken := peekNextToken in
    let! declaredType := parseType fuel in
    let! name := readName in
    unless_err None (
      let! nameToken := last_consumed in
      let! declaredType := must declaredType in
      let! _ := match_ Equals in
      let! valueToken := peekNextToken in
      let! value := parseValue fuel (mkAssigneeSpec name declaredType) in
      unless_err None (
        let! allowed := TypeRef_MarkUsedAsConstantType declaredType in
        if negb allowed
        then parseErrorT ParserErrorCodeUnexpectedToken declaredTypeToken ;;; ret None
        else
          match value with
          | AValue value =>
            let! constant :=
              new_object (OConstant declaredType value) (DeclData name nameToken attributes) in
            let! _ := matchSemicolon in
            let! valid := ValidateValue name declaredType value in
            (if valid then ret tt
             else parseErrorT ParserErrorCodeNotAssignmentCompatible valueToken) ;;;
            ret (Some constant)
          | _ => panic
          end))).

(** ** Enums *)
Definition parseEnumValueInitializer (fuel : nat) (mojoEnum : nat) (valueName : string)
    : PM (option ValueRef) :=
  unless_err None (
    let! p := get in
    let! resolved := must (as_type (mojomDescriptor (heap p)) mojoEnum) in
    let! enumType :=
      new_type_ref (NewResolvedUserTypeRef (udt_FullyQualifiedName resolved) resolved) in
    let! valueToken := peekNextToken in
    let! valueRef := parseValue fuel (mkAssigneeSpec valueName (TRUser enumType)) in
    match valueRef with
    | NilValue => ret None
    | NilUserValueRef => panic
    | AValue v =>
      let! allowed :=
        match v with
        | VRLiteral lv => must (MarkUsedAsEnumValueInitializer lv)
        | VRUser r =>
          with_descriptor (
            let! ref := deref valueRefs r in
            modify (fun d => set_value_refs
              (alter (fun v => (UserValueRef_MarkUsedAsEnumValueInitializer v).1) r (valueRefs d)) d) ;;;
            ret (UserValueRef_MarkUsedAsEnumValueInitializer ref).2)
        end in
      if negb allowed
      then parseErrorT ParserErrorCodeUnexpectedToken valueToken ;;; ret None
      else ret (Some v)
    end).

(** The loop of [parseEnumBody] with its two flags. *)
Fixpoint enum_loop (n fuel : nat) (mojomEnum : nat) (trailingCommaFound firstValue : bool)
    (attributes : option Attributes) : PM bool :=
  match n with
  | O => throw NoFuel
  | Datatypes.S n =>
    unless_err false (
      let! nextToken := peekNextToken in
      let continue step trailingCommaFound firstValue :=
        match step with
        | None => ret false
        | Some rbraceFound =>
          let! attributes := parseAttributes fuel in
          if rbraceFound : bool then ret true
          else enum_loop n fuel mojomEnum trailingCommaFound firstValue attributes
        end in
      match Kind nextToken with
      | Name =>
        if negb firstValue && negb trailingCommaFound then
          let! t := last_consumed in
          parseErrorT ParserErrorCodeUnexpectedToken t ;;; ret false
        else
          let! name := readName in
          let! nameToken := last_consumed in
          let! equals := tryMatch Equals in
          let! valueRef :=
            if equals then parseEnumValueInitializer fuel mojomEnum name else ret None in
          let declData := DeclData name nameToken attributes in
          let! p := get in
          let! e := must (enumTable (heap p) !! mojomEnum) in
          let! obj := new_object (OEnumValue mojomEnum (u32 (len (Values e)))) declData in
          let! dup := on_enum mojomEnum (AddEnumValue declData valueRef obj) in
          let! comma := tryMatch Comma in
          let! step := end_of_turn (NameError <$> dup) false in
          continue step comma false
      | RBrace =>
        let! step := brace_found attributes in
        continue step trailingCommaFound firstValue
      | Comma =>
        let! step := end_of_turn None false in
        continue step trailingCommaFound firstValue
      | _ => unexpectedTokenError nextToken ;;; ret false
      end)
  end.
Definition parseEnumBody (fuel : nat) (mojomEnum : nat) : PM bool :=
  unless_err false (
    let! scope := Enum_InitAsScope mojomEnum in
    in_scope scope (
      let! attributes := parseAttributes fuel in
      let! finished := enum_loop fuel fuel mojomEnum false true attributes in
      if finished then OK else ret false)).
Definition parseEnumDecl (fuel : nat) (attributes : option Attributes) : PM (option nat) :=
  unless_err None (
    let! ok := match_ Enum in
    if negb ok then ret None
    else
      let! simpleName := readName in
      unless_err None (
        let! nameToken := last_consumed in
        let declData := DeclData simpleName nameToken attributes in
        let! enum := new_object (OType UserDefinedTypeKindEnum StructTypeRegular) declData in
        update_heap (put_enum enum (NewMojomEnum declData)) ;;;
        let! ok := match_ LBrace in
        if negb ok then ret (Some enum)
        else
          let! ok := parseEnumBody fuel enum in
          if negb ok then ret (Some enum)
          else
            let! ok := match_ RBrace in
            if negb ok then ret (Some enum)
            else
              let! closingBraceToken := last_consumed in
              let! _ := on_enum (E:=OutOfFuel) enum (alone (modify (set_enum_closingBrace (Some closingBraceToken)))) in
              let! _ := matchSemicolon in
              ret (Some enum))).

(** ** Structs *)
Definition ValidateDefaultValue (name : string) (fieldType : TypeRefOf nat) (defaultValue : option ValueRef)
    : PM bool :=
  match defaultValue with
  | Some (VRLiteral lv) =>
    TypeRef_MarkTypeCompatible fieldType
      (mkLiteralAssignment lv name LiteralAssignmentKindDefaultStructField)
  | _ => ret true
  end.
(** The new field and its address among the declared objects. *)
Definition parseStructField (fuel : nat) (attributes : option Attributes)
    : PM (option (StructField nat * nat)) :=
  unless_err None (
    let! fieldType := parseType fuel in
    let! fieldName := readName in
    let! nameToken := last_consumed in
    let! ordinal := readOrdinal in
    match ordinal with
    | None => invalidOrdinalError nameToken ;;; ret None
    | Some ordinalValue =>
      let! equals := tryMatch Equals in
      let! default :=
        if equals then
          let! defaultValueToken := peekNextToken in
          if bool_decide (Kind defaultValueToken = Default) then
            consumeNextToken ;;;
            let! defaultToken := last_consumed in
            ret (AValue (VRLiteral (MakeDefaultLiteral (Some defaultToken))), defaultValueToken)
          else
            let! fieldType := must fieldType in
            let! v := parseValue fuel (mkAssigneeSpec fieldName fieldType) in
            ret (v, defaultValueToken)
        else ret (NilValue, zeroToken) in
      let! ok := matchSemicolon in
      if negb ok then ret None
      else
        let! fieldType := must fieldType in
        let! defaultValue :=
          match default.1 with
          | AValue v => ret (Some v)
          | NilValue => ret None
          | NilUserValueRef => panic
          end in
        let declData := DeclDataWithOrdinal fieldName nameToken attributes ordinalValue in
        let field := NewStructField declData fieldType defaultValue in
        let! obj := new_object OField declData in
        let! valid := ValidateDefaultValue fieldName fieldType defaultValue in
        if negb valid
        then parseErrorT ParserErrorCodeNotAssignmentCompatible default.2 ;;; ret None
        else ret (Some (field, obj))
    end).

Definition nested_enum (fuel : nat) (attributes : option Attributes)
    (add : nat -> PM (option DuplicateNameError)) : PM (option bool) :=
  let! enum := parseEnumDecl fuel attributes in
  let! dup := match enum with Some e => add e | None => ret None end in
  end_of_turn (NameError <$> dup) false.
Definition nested_constant (fuel : nat) (attributes : option Attributes)
    (add : nat -> PM (option DuplicateNameError)) : PM (option bool) :=
  let! constant := parseConstDecl fuel attributes in
  let! dup := match constant with Some c => add c | None => ret None end in
  end_of_turn (NameError <$> dup) false.

Definition struct_turn (fuel : nat) (mojomStruct : nat) (attributes : option Attributes)
    : PM (option bool) :=
  let! nextToken := peekNextToken in
  match Kind nextToken with
  | Name =>
    let! field := parseStructField fuel attributes in
    let! dup :=
      match field with
      | Some (f, obj) => on_struct mojomStruct (AddField f obj)
      | None => ret None
      end in
    end_of_turn (MemberError <$> dup) false
  | Enum => nested_enum fuel attributes (fun e => on_struct mojomStruct (struct_nested (Nested_AddEnum e)))
  | Const =>
    nested_constant fuel attributes (fun c => on_struct mojomStruct (struct_nested (Nested_AddConstant c)))
  | RBrace => brace_found attributes
  | _ => unexpectedTokenError nextToken ;;; ret None
  end.
(** [if p.OK() { if err := ...; err != nil {...} }; return p.OK()]. *)
Definition then_ordinals (compute : PM (option OrdinalError)) : PM bool :=
  unless_err false (
    let! e := compute in
    match e with
    | Some e => fail (OrdinalsError e) ;;; ret false
    | None => OK
    end).
Definition parseStructBody (fuel : nat) (mojomStruct : nat) : PM bool :=
  unless_err false (
    let! scope := Struct_InitAsScope mojomStruct in
    in_scope scope (
      let! attributes := parseAttributes fuel in
      let! finished := body_loop fuel fuel (struct_turn fuel mojomStruct) attributes in
      if finished then then_ordinals (on_struct mojomStruct (alone ComputeFieldOrdinals)) else ret false)).
Definition parseStructDecl (fuel : nat) (attributes : option Attributes) : PM (option nat) :=
  unless_err None (
    let! ok := match_ Struct in
    if negb ok then ret None
    else
      let! simpleName := readName in
      unless_err None (
        let! nameToken := last_consumed in
        let declData := DeclData simpleName nameToken attributes in
        let! mojomStruct := new_object (OType UserDefinedTypeKindStruct StructTypeRegular) declData in
        update_heap (put_struct mojomStruct (NewMojomStruct declData)) ;;;
        let! ok := match_ LBrace in
        if negb ok then ret (Some mojomStruct)
        else
          let! ok := parseStructBody fuel mojomStruct in
          if negb ok then ret (Some mojomStruct)
          else
            let! ok := match_ RBrace in
            if negb ok then ret (Some mojomStruct)
            else
              let! closingBraceToken := last_consumed in
              let! _ := on_struct (E:=OutOfFuel) mojomStruct (alone (modify (set_braces_struct closingBraceToken))) in
              let! _ := matchSemicolon in
              ret (Some mojomStruct))).

(** ** Interfaces *)
(** Runs a method of a parameter struct, which only the parser holds yet. *)
Definition on_params {E} (s : MojomStruct nat) (m : M (MojomDescriptor * MojomStruct nat) E unit)
    : PM (MojomStruct nat * option E) :=
  fun p =>
    let '((d, s'), r) := m (mojomDescriptor (heap p), s) in
    (set_heap (set_descriptor d (heap p)) p,
     match r with Ok _ => Ok (s', None) | Err e => Ok (s', Some e) | Panic => Panic end).
(** [None] is a nil result. *)
Fixpoint params_loop (n fuel : nat) (paramStruct : MojomStruct nat) (nextToken : Token)
    : PM (option (MojomStruct nat) * bool) :=
  if bool_decide (Kind nextToken = RParen) then ret (Some paramStruct, true)
  else
    match n with
    | O => throw NoFuel
    | Datatypes.S n =>
      let! attributes := parseAttributes fuel in
      let! fieldType := parseType fuel in
      unless_err (Some paramStruct, false) (
        let! name := readName in
        let! nameToken := last_consumed in
        unless_err (Some paramStruct, false) (
          let! ordinal := readOrdinal in
          match ordinal with
          | None => invalidOrdinalError nameToken ;;; ret (Some paramStruct, false)
          | Some ordinalValue =>
            let declData := DeclDataWithOrdinal name nameToken attributes ordinalValue in
            let! fieldType := must fieldType in
            let! obj := new_object OField declData in
            let! added := on_params paramStruct (AddField (NewStructField declData fieldType None) obj) in
            match added with
            | (_, Some e) => fail (MemberError e) ;;; ret (None, false)
            | (paramStruct, None) =>
              let! nextToken := peekNextToken in
              match Kind nextToken with
              | Comma => consumeNextToken ;;; params_loop n fuel paramStruct nextToken
              | RParen => params_loop n fuel paramStruct nextToken
              | _ => unexpectedTokenError nextToken ;;; ret (None, false)
              end
            end
          end))
    end.
Definition parseParamList (fuel : nat) (methodName : string) (isRequest : bool)
    : PM (option (MojomStruct nat)) :=
  unless_err None (
    let paramStruct :=
      if isRequest then NewSyntheticRequestStruct methodName zeroToken
      else NewSyntheticResponseStruct methodName zeroToken in
    let! nextToken := peekNextToken in
    let! params := params_loop fuel fuel paramStruct nextToken in
    match params with
    | (Some paramStruct, true) =>
      unless_err (Some paramStruct) (
        let! r := on_params paramStruct (alone ComputeFieldOrdinals) in
        match r with
        | (_, Some e) => fail (OrdinalsError e) ;;; ret None
        | (paramStruct, None) => ret (Some paramStruct)
        end)
    | (params, _) => ret params
    end).

Definition parseMethodDecl (fuel : nat) (attributes : option Attributes)
    : PM (option (MojomMethod nat * nat)) :=
  unless_err None (
    let! methodName := readName in
    let! nameToken := last_consumed in
    unless_err None (
      let! ordinal := readOrdinal in
      match ordinal with
      | None => invalidOrdinalError nameToken ;;; ret None
      | Some ordinalValue =>
        let! ok := match_ LParen in
        if negb ok then ret None
        else
          let! params := parseParamList fuel methodName true in
          unless_err None (
            let! ok := match_ RParen in
            if negb ok then ret None
            else
              let! parenBeforeSemicolon := last_consumed in
              let finish responseParams parenBeforeSemicolon :=
                let! ok := matchSemicolonToken parenBeforeSemicolon in
                if negb ok then ret None
                else
                  let declData := DeclDataWithOrdinal methodName nameToken attributes ordinalValue in
                  let! obj := new_object OMethod declData in
                  ret (Some (NewMojomMethod declData params responseParams, obj)) in
              let! response := tryMatch Response in
              if response then
                let! ok := match_ LParen in
                if negb ok then ret None
                else
                  let! responseParams := parseParamList fuel methodName false in
                  unless_err None (
                    let! ok := match_ RParen in
                    if negb ok then ret None
                    else
                      let! parenBeforeSemicolon := last_consumed in
                      finish responseParams parenBeforeSemicolon)
              else finish None parenBeforeSemicolon)
      end)).

Definition interface_turn (fuel : nat) (mojomInterface : nat) (attributes : option Attributes)
    : PM (option bool) :=
  let! nextToken := peekNextToken in
  match Kind nextToken with
  | Name =>
    let! method := parseMethodDecl fuel attributes in
    let! ok := OK in
    if ok then
      let! method := must method in
      let! dup := on_interface mojomInterface (AddMethod method.1 method.2) in
      end_of_turn (MemberError <$> dup) false
    else ret None
  | Enum =>
    nested_enum fuel attributes (fun e => on_interface mojomInterface (interface_nested (Nested_AddEnum e)))
  | Const =>
    nested_constant fuel attributes
      (fun c => on_interface mojomInterface (interface_nested (Nested_AddConstant c)))
  | RBrace => brace_found attributes
  | _ => unexpectedTokenError nextToken ;;; ret None
  end.
Definition parseInterfaceBody (fuel : nat) (mojomInterface : nat) : PM bool :=
  unless_err false (
    let! scope := Interface_InitAsScope mojomInterface in
    in_scope scope (
      let! attributes := parseAttributes fuel in
      let! finished := body_loop fuel fuel (interface_turn fuel mojomInterface) attributes in
      if finished then then_ordinals (on_interface mojomInterface (alone ComputeMethodOrdinals))
      else ret false)).
Definition parseInterfaceDecl (fuel : nat) (attributes : option Attributes) : PM (option nat) :=
  unless_err None (
    let! ok := match_ Interface in
    if negb ok then ret None
    else
      let! simpleName := readName in
      unless_err None (
        let! nameToken := last_consumed in
        let declData := DeclData simpleName nameToken attributes in
        let! mojomInterface := new_object (OType UserDefinedTypeKindInterface StructTypeRegular) declData in
        update_heap (put_interface mojomInterface (NewMojomInterface declData)) ;;;
        let! ok := match_ LBrace in
        if negb ok then ret (Some mojomInterface)
        else
          let! ok := parseInterfaceBody fuel mojomInterface in
          if negb ok then ret (Some mojomInterface)
          else
            let! ok := match_ RBrace in
            if negb ok then ret (Some mojomInterface)
            else
              let! closingBraceToken := last_consumed in
              let! _ := on_interface (E:=OutOfFuel) mojomInterface (alone (modify (set_braces_interface closingBraceToken))) in
              let! _ := matchSemicolon in
              ret (Some mojomInterface))).

(** ** Unions *)
Definition union_turn (fuel : nat) (union : nat) (attributes : option Attributes) : PM (option bool) :=
  let! nextToken := peekNextToken in
  match Kind nextToken with
  | Name =>
    let! fieldType := parseType fuel in
    let! fieldName := readName in
    let! nameToken := last_consumed in
    let! ordinal := readOrdinal in
    match ordinal with
    | None => invalidOrdinalError nameToken ;;; ret None
    | Some tag =>
      let! ok := matchSemicolon in
      if negb ok then ret None
      else
        let! fieldType := must fieldType in
        let! dup :=
          on_union union (Union_AddField (DeclDataWithOrdinal fieldName nameToken attributes tag) fieldType) in
        match dup with
        | Some e => fail (MemberError e) ;;; ret None
        | None => ret (Some false)
        end
    end
  | RBrace => brace_found attributes
  | _ => unexpectedTokenError nextToken ;;; ret None
  end.
Definition parseUnionBody (fuel : nat) (union : nat) : PM bool :=
  unless_err false (
    let! attributes := parseAttributes fuel in
    let! finished := body_loop fuel fuel (union_turn fuel union) attributes in
    if finished then OK else ret false).
Definition parseUnionDecl (fuel : nat) (attributes : option Attributes) : PM (option nat) :=
  unless_err None (
    let! ok := match_ Union in
    if negb ok then ret None
    else
      let! simpleName := readName in
      unless_err None (
        let! nameToken := last_consumed in
        let declData := DeclData simpleName nameToken attributes in
        let! union := new_object (OType UserDefinedTypeKindUnion StructTypeRegular) declData in
        update_heap (put_union union (NewMojomUnion declData)) ;;;
        let! ok := match_ LBrace in
        if negb ok then ret (Some union)
        else
          let! ok := parseUnionBody fuel union in
          if negb ok then ret (Some union)
          else
            let! ok := match_ RBrace in
            if negb ok then ret (Some union)
            else
              let! closingBraceToken := last_consumed in
              let! _ := on_union (E:=OutOfFuel) union (modify (set_union_closingBrace (Some closingBraceToken))) in
              let! semi := matchSemicolon in
              if semi then
                let! e := on_union union ComputeFieldTags in
                match e with
                | Some e => fail (OrdinalsError e) ;;; ret (Some union)
                | None => ret (Some union)
                end
              else ret (Some union))).

(** ** Files *)
Definition parseModuleDecl (fuel : nat) : PM string :=
  unless_err "" (
    let! eof := checkEOF in
    if eof then ret ""
    else
      let! nextToken := peekNextToken in
      unless_err "" (
        match Kind nextToken with
        | Module_ =>
          consumeNextToken ;;;
          let! identifier := parseIdentifier fuel in
          let! _ := matchSemicolon in
          ret identifier.1
        | Import | Interface | Struct | Union | Enum | Const => ret ""
        | _ => unexpectedTokenError nextToken ;;; ret ""
        end)).

(** After the loop, at a token that starts no import statement. *)
Definition after_imports (nextToken : Token) (imports : list ImportedFile) : PM (list ImportedFile) :=
  match Kind nextToken with
  | Module_ => parseError ParserErrorCodeUnexpectedToken ;;; ret imports
  | Interface | Struct | Union | Enum | Const | LBracket => ret imports
  | _ => unexpectedTokenError nextToken ;;; ret imports
  end.
Fixpoint imports_loop (fuel : nat) (nextToken : Token) (imports : list ImportedFile)
    : PM (list ImportedFile) :=
  if negb (bool_decide (Kind nextToken = Import)) then after_imports nextToken imports
  else
    match fuel with
    | O => throw NoFuel
    | Datatypes.S fuel =>
      consumeNextToken ;;;
      let! fileName := readStringLiteral in
      let! fileNameToken := last_consumed in
      unless_err imports (
        let! ok := matchSemicolon in
        if negb ok then ret imports
        else
          let imports := imports ++ [NewImportedFile fileName (Some fileNameToken)] in
          let! eof := checkEOF in
          if eof then ret imports
          else
            let! nextToken := peekNextToken in
            unless_err imports (imports_loop fuel nextToken imports))
    end.
Definition parseImportStatements (fuel : nat) : PM (list ImportedFile) :=
  unless_err [] (
    let! nextToken := peekNextToken in
    unless_err [] (imports_loop fuel nextToken [])).

Definition file_decl (parse : PM (option nat)) : PM (option ParserError) :=
  let! obj := parse in
  match obj with
  | None => ret None
  | Some obj =>
    let! p := get in
    let! dup := in_file (file_add (mojomFile p) obj) in
    ret (NameError <$> dup)
  end.
Definition parse_decl (fuel : nat) (attributes : option Attributes) (nextToken : Token)
    : option (PM (option nat)) :=
  match Kind nextToken with
  | Interface => Some (parseInterfaceDecl fuel attributes)
  | Struct => Some (parseStructDecl fuel attributes)
  | Union => Some (parseUnionDecl fuel attributes)
  | Enum => Some (parseEnumDecl fuel attributes)
  | Const => Some (parseConstDecl fuel attributes)
  | _ => None
  end.
Fixpoint decls_loop (n fuel : nat) (attributes : option Attributes) : PM bool :=
  match n with
  | O => throw NoFuel
  | Datatypes.S n =>
    unless_err false (
      let! eof := checkEOF in
      if eof then
        (match attributes with
         | Some _ => parseError ParserErrorCodeBadAttributeLocation
         | None => ret tt
         end) ;;;
        ret false
      else
        let! nextToken := peekNextToken in
        match parse_decl fuel attributes nextToken with
        | None => unexpectedTokenError nextToken ;;; ret false
        | Some parse =>
          let! dup := file_decl parse in
          let! step := end_of_turn dup false in
          match step with
          | None => ret false
          | Some _ =>
            let! attributes := parseAttributes fuel in
            decls_loop n fuel attributes
          end
        end)
  end.

Definition update_file_at (f : MojomFile -> MojomFile) : PM unit :=
  let! p := get in with_descriptor (update_file (mojomFile p) f).
Definition parse_after_module (fuel : nat) (initialAttributes : option Attributes)
    (moduleNamespace : string) : PM bool :=
  let! eof := checkEOF in
  if eof then
    match initialAttributes with
    | Some _ =>
      if bool_decide (moduleNamespace = "")
      then parseError ParserErrorCodeBadAttributeLocation ;;; ret false
      else ret true
    | None => ret true
    end
  else
    let! importedFiles := parseImportStatements fuel in
    unless_err false (
      update_file_at (fun f => foldl (fun f i => AddImport i f) f importedFiles) ;;;
      if bool_decide (moduleNamespace = "") && (0 <? len importedFiles)
         && bool_decide (is_Some initialAttributes)
      then parseError ParserErrorCodeBadAttributeLocation ;;; ret false
      else
        let! attributes := parseAttributes fuel in
        unless_err false (
          let! attributes :=
            match initialAttributes, attributes with
            | Some _, Some _ => panic
            | Some a, None => ret (Some a)
            | None, a => ret a
            end in
          let! p := get in
          if metaDataOnlyMode p then modify set_discardRemaining ;;; ret true
          else decls_loop fuel fuel attributes)).
Definition parseMojomFile (fuel : nat) : PM bool :=
  let! initialAttributes := parseAttributes fuel in
  let! moduleNamespace := parseModuleDecl fuel in
  unless_err false (
    let! initialAttributes :=
      if negb (bool_decide (moduleNamespace = "")) then
        update_file_at (set_file_attributes initialAttributes) ;;; ret None
      else ret initialAttributes in
    let! p := get in
    let! scope := with_descriptor (InitializeFileScope (mojomFile p) moduleNamespace) in
    in_scope scope (parse_after_module fuel initialAttributes moduleNamespace)).

(** [MakeParser] on the stream of the file's contents. *)
Definition MakeParser {E} (canonicalFileName specifiedName : string) (stream : S)
    (importedFrom : option nat) : M Heap E (Parser S) :=
  fun h =>
    let (d, r) := AddMojomFile canonicalFileName specifiedName importedFrom (mojomDescriptor h) in
    let h := set_descriptor d h in
    (h, match r with
        | Ok f => Ok (mkParser stream None zeroToken zeroToken h f None false false false)
        | Err e => Err e
        | Panic => Panic
        end).
(** [Parse]. *)
Definition Parse (fuel : nat) : PM unit :=
  let! p := get in
  if used p then panic
  else
    modify set_used ;;;
    let! _ := parseMojomFile fuel in
    unless_err tt (
      let! eof := checkEOF in
      if eof then ret tt
      else
        let! token := peekNextToken in
        parseErrorT ParserErrorCodeExtraneousToken token).
End ParseDecls.
