(* ===== verification/TypeGrammar.v ===== *)
(** * How the names of types are read

    The names of the built-in types against the productions of [Grammar], and
    the tokens of the lexer, on which the productions have no odd types. *)
From S2P Require Import Lexer LexerSpec TypesSpec.
From S2P Require Export Grammar ParseTypes.

Local Open Scope lang_scope.

(** ** Odd names *)
(** The text of a name has no question mark and no bracket. *)
Definition marked (s : string) : bool :=
  existsb (fun c => Ascii.eqb c "?" || Ascii.eqb c "<") (String.list_ascii_of_string s).
Definition misspelt : lang := fun ts => exists t, ts = [t] /\ Kind t = Name /\ marked (string_of_bytes (Text t)).
Lemma proper_misspelt : proper misspelt.
Proof. intros (t & Ht & _). discriminate Ht. Qed.
#[export] Hint Resolve proper_misspelt : proper.

(** The names are names of the lexer. *)
Definition named_tokens (ts : list Token) : Prop :=
  Forall (fun t => Kind t = Name -> all isNameRune (Text t)) ts.
Lemma lexed_names src toks : tokenizeUnfiltered src = Some toks -> named_tokens toks.
Proof.
  intros Htok. apply Forall_forall. intros t Ht Hk. apply list_elem_of_In in Ht. by eapply lexer_names.
Qed.
Lemma isNameRune_unmarked c : isNameRune c = true ->
  (Ascii.eqb (ascii_of_N (Z.to_N c)) "?" || Ascii.eqb (ascii_of_N (Z.to_N c)) "<")%bool = false.
Proof.
  intros Hc. pose proof (isNameRune_ascii c Hc). assert (0 <= c /\ c <> 63 /\ c <> 60) as (? & ? & ?).
  { unfold isNameRune, isAlpha, isDigit in Hc.
    change (chr "a") with 97 in Hc. change (chr "z") with 122 in Hc. change (chr "A") with 65 in Hc.
    change (chr "Z") with 90 in Hc. change (chr "0") with 48 in Hc. change (chr "9") with 57 in Hc.
    change (chr "_") with 95 in Hc. lia. }
  apply orb_false_intro; apply Ascii.eqb_neq; intros He; apply (f_equal N_of_ascii) in He;
    rewrite N_ascii_embedding in He by lia; cbn in He; lia.
Qed.
Lemma named_unmarked l : all isNameRune l -> marked (string_of_bytes l) = false.
Proof.
  induction 1 as [|c l Hc Hl IH]; [done|].
  change (string_of_bytes (c :: l)) with (String (ascii_of_N (Z.to_N c)) (string_of_bytes l)).
  unfold marked. cbn [String.list_ascii_of_string existsb]. by rewrite isNameRune_unmarked.
Qed.

(** ** Without odd types *)
(** [L] is within [L'] on the tokens of the lexer. *)
Definition within (L L' : lang) : Prop := forall ts, named_tokens ts -> L ts -> L' ts.
Lemma within_refl L : within L L.
Proof. by intros ts. Qed.
Lemma within_cat L1 L2 L1' L2' : within L1 L1' -> within L2 L2' -> within (L1 ⋅ L2) (L1' ⋅ L2').
Proof. intros H1 H2 ts Hts (u & v & -> & Hu & Hv). apply Forall_app in Hts as [? ?]. apply cat_app; auto. Qed.
Lemma within_alt L1 L2 L1' L2' : within L1 L1' -> within L2 L2' -> within (L1 ∣ L2) (L1' ∣ L2').
Proof. intros H1 H2 ts Hts [H|H]; [left|right]; auto. Qed.
Lemma within_star L L' : within L L' -> within (star L) (star L').
Proof.
  intros H ts Hts Hs. induction Hs as [|u v Hu Hv IH]; [constructor|].
  apply Forall_app in Hts as [? ?]. constructor; auto.
Qed.
Lemma within_opt L L' : within L L' -> within (opt L) (opt L').
Proof. apply within_alt, within_refl. Qed.
Lemma within_odd (L : lang) : within (@ODD_TYPE misspelt) L.
Proof.
  intros ts Hts (u & v & -> & (t & -> & Hk & Hm) & _). inversion Hts as [|? ? Ht]; subst.
  by rewrite (named_unmarked _ (Ht Hk)) in Hm.
Qed.
Create HintDb within.
#[local] Hint Resolve within_cat within_alt within_star within_opt within_odd : within.
#[local] Hint Resolve within_refl | 0 : within.
Lemma within_MAP_KEY_TYPE : within (@MAP_KEY_TYPE misspelt) (@MAP_KEY_TYPE none).
Proof. unfold MAP_KEY_TYPE. auto with within. Qed.
#[local] Hint Resolve within_MAP_KEY_TYPE : within.
Lemma within_TYPE : within (@TYPE misspelt) (@TYPE none).
Proof.
  assert (forall n ts, (length ts < n)%nat -> named_tokens ts -> @TYPE misspelt ts -> @TYPE none ts) as Hall;
    [|intros ts; by apply (Hall (S (length ts))), Nat.lt_succ_diag_r].
  induction n as [|n IH]; intros ts Hn Hts Ht; [lia|].
  destruct Ht as [u H|u H|u H|u H].
  - apply TYPE_key. by apply within_MAP_KEY_TYPE.
  - by apply TYPE_handle.
  - apply TYPE_array. destruct H as (a & ? & -> & Ha & b & ? & -> & Hb & v & r & -> & Hv & Hr).
    apply cat_app, cat_app, cat_app; try done. apply Forall_app in Hts as [_ [_ [Hts _]%Forall_app]%Forall_app].
    apply IH; [|done..]. rewrite !length_app in Hn. destruct Ha as (t & -> & _). cbn in Hn. lia.
  - apply TYPE_map. destruct H as (a & ? & -> & Ha & b & ? & -> & Hb & k & ? & -> & Hk & c & ? & -> & Hc & v & r & -> & Hv & Hr).
    apply Forall_app in Hts as [_ [_ [Hks [_ [Hts _]%Forall_app]%Forall_app]%Forall_app]%Forall_app].
    apply cat_app, cat_app, cat_app, cat_app, cat_app; try done; [by apply within_MAP_KEY_TYPE|].
    apply IH; [|done..]. rewrite !length_app in Hn. destruct Ha as (t & -> & _). cbn in Hn. lia.
Qed.
#[local] Hint Resolve within_TYPE : within.
Lemma within_MOJOM_FILE : within (@ATTR_MOJOM_FILE misspelt) MOJOM_FILE.
Proof.
  unfold MOJOM_FILE, ATTR_MOJOM_FILE, ATTR_MOJOM_DECL, attributed, MOJOM_DECL.
  unfold INTRFC_DECL, INTRFC_BODY, METHOD_DECL, PARAM_LIST, sep_by, PARAM_DECL, STRUCT_DECL, STRUCT_BODY, STRUCT_FIELD,
    UNION_DECL, UNION_FIELD_DECL, CONSTANT_DECL, CONST_OK_TYPE, attributed.
  auto 40 with within.
Qed.

(** ** The built-in types *)
Lemma BuiltInType_named_iff name t :
  BuiltInType_named name = Some t <-> exists b, of_builtin b = Some t /\ TypeRef_String b = name.
Proof.
  unfold BuiltInType_named. rewrite bind_Some. split.
  - intros (b & [_ Hb]%BuiltInType_iff & Ht). eauto.
  - intros (b & Ht & Hb). exists b. split; [|done]. apply BuiltInType_iff. by destruct b.
Qed.
Lemma built_in_name name t :
  BuiltInType_named name = Some t ->
  match t with
  | TRSimple _ => name ∈ simple_types
  | TRString s => name = if StringType_nullable s then "string?" else "string"
  | TRHandle h => name = HandleTypeRef_String h
  | _ => False
  end.
Proof.
  rewrite BuiltInType_named_iff. intros (b & Ht & <-). destruct b as [[]|[[]]|h| | |]; simplify_eq/=; try done;
    apply (bool_decide_unpack _); by vm_compute.
Qed.
Lemma not_built_in name : BuiltInType_named name = None -> name <> "array" -> name <> "map" -> name ∉ reserved_types.
Proof.
  intros Hn Ha Hm Hin. cbn in Hin. repeat apply elem_of_cons in Hin as [->|Hin]; try done; by apply elem_of_nil in Hin.
Qed.

(** ** The tokens of a built-in type *)
Lemma list_ascii_app s s' :
  String.list_ascii_of_string (s +:+ s') = String.list_ascii_of_string s ++ String.list_ascii_of_string s'.
Proof. induction s as [|c s IH]; [done|]. cbn. by rewrite <- IH. Qed.
(** A string without its last character. *)
Definition unlast (s : string) : string := String.string_of_list_ascii (removelast (String.list_ascii_of_string s)).
Lemma strip s c r : s +:+ String c "" = r -> last (String.list_ascii_of_string r) = Some c /\ s = unlast r.
Proof.
  intros <-. unfold unlast. rewrite list_ascii_app. cbn [String.list_ascii_of_string]. rewrite last_snoc, removelast_last.
  by rewrite String.string_of_list_ascii_of_string.
Qed.
Lemma only_handle s b : BuiltInType_named (String "h" s) = Some b -> exists h, b = TRHandle h.
Proof.
  intros Hb%built_in_name. destruct b as [t|[[]]|h| | |]; try done; [|by eexists].
  cbn in Hb. by repeat apply elem_of_cons in Hb as [Hb|Hb]; try discriminate Hb; apply elem_of_nil in Hb.
Qed.
Lemma handle_kind_name k b :
  BuiltInType_named ("handle" +:+ "<" +:+ k +:+ ">") = Some b -> k ∈ handle_kinds.
Proof.
  intros Hb. destruct (only_handle _ _ Hb) as [h ->]. apply built_in_name in Hb. cbn -[String.append] in Hb.
  change (String "h" (String "a" (String "n" (String "d" (String "l" (String "e" (String "<" (k +:+ ">"))))))) =
    HandleTypeRef_String h) in Hb.
  set (r := HandleTypeRef_String h) in Hb.
  destruct h as [[] []]; vm_compute in r; subst r; simplify_eq; match goal with H : k +:+ _ = _ |- _ => apply strip in H as [? ->] end;
    first [discriminate | apply (bool_decide_unpack _); by vm_compute].
Qed.

#[local] Abbreviation TYPE := (@TYPE misspelt).
#[local] Abbreviation ODD_TYPE := (@ODD_TYPE misspelt).
(** What the tokens of a type say of the type. *)
Definition type_read (t : TypeRefOf nat) : lang :=
  match t with
  | TRSimple _ => SIMPLE_TYPE ∣ ODD_TYPE
  | TRString _ => STRING_TYPE ∣ ODD_TYPE
  | TRUser _ => USER_TYPE_REF
  | _ => TYPE
  end.
Definition key_type (t : TypeRefOf nat) : bool :=
  match t with TRSimple _ | TRString _ | TRUser _ => true | _ => false end.
Lemma type_read_key t u : type_read t u -> key_type t = true -> @MAP_KEY_TYPE misspelt u.
Proof. destruct t; cbn; try done; intros Hu _; unfold MAP_KEY_TYPE; [destruct Hu..|]; lang. Qed.
Lemma type_read_TYPE t u : type_read t u -> TYPE u.
Proof. destruct t; try done; intros Hu; by eapply TYPE_key, type_read_key. Qed.
Lemma word_one s t : Kind t = Name -> string_of_bytes (Text t) = s -> word s [t].
Proof. intros Hk Hs. by exists t. Qed.
Lemma one_of_one l t : Kind t = Name -> string_of_bytes (Text t) ∈ l -> one_of l [t].
Proof. intros Hk Hs. by exists t. Qed.
Lemma odd_one t : Kind t = Name -> marked (string_of_bytes (Text t)) = true -> misspelt [t].
Proof. intros Hk Hs. exists t. by rewrite Hs. Qed.
Lemma built_in_read t b :
  Kind t = Name -> BuiltInType_named (string_of_bytes (Text t)) = Some b -> type_read b [t].
Proof.
  intros Hk Hb%built_in_name. destruct b as [s|s|h| | |]; try done; cbn [type_read].
  - left. by apply one_of_one.
  - destruct s as [[]]; [right|left].
    + apply cat_nil_r, opt_nil. by apply odd_one; [|rewrite Hb].
    + apply cat_nil_r, opt_nil. by apply word_one.
  - assert (string_of_bytes (Text t) = "handle" \/ marked (string_of_bytes (Text t)) = true) as [Hh|Hm].
    { rewrite Hb. destruct h as [[] []]; by auto. }
    + apply TYPE_handle. assert (word "handle" [t]) by (by apply word_one). unfold HANDLE_TYPE. lang.
    + apply TYPE_key. assert (misspelt [t]) by (by apply odd_one). unfold MAP_KEY_TYPE. apply alt_r, alt_r, alt_r. unfold Grammar.ODD_TYPE. lang.
Qed.
Lemma built_in_nullable t q b :
  Kind t = Name -> Kind q = Qstn -> BuiltInType_named (string_of_bytes (Text t) +:+ "?") = Some b ->
  type_read b [t; q].
Proof.
  intros Hk Hq Hb%built_in_name. destruct b as [s|s|h| | |]; try done; cbn [type_read].
  - exfalso. remember (_ +:+ _) as r eqn:Hr. symmetry in Hr. apply strip in Hr as [Hl _].
    cbn in Hb. by repeat apply elem_of_cons in Hb as [->|Hb]; try discriminate Hl; apply elem_of_nil in Hb.
  - left. apply strip in Hb as [Hl Hb]. destruct s as [[]]; [|discriminate Hl].
    assert (word "string" [t]) by (by apply word_one). unfold STRING_TYPE. lang.
  - apply strip in Hb as [Hl Hb].
    assert (string_of_bytes (Text t) = "handle" \/ marked (string_of_bytes (Text t)) = true) as [Hh|Hm].
    { rewrite Hb. destruct h as [[] []]; try discriminate Hl; by auto. }
    + apply TYPE_handle. assert (word "handle" [t]) by (by apply word_one). unfold HANDLE_TYPE. lang.
    + apply TYPE_key. assert (misspelt [t]) by (by apply odd_one). unfold MAP_KEY_TYPE. apply alt_r, alt_r, alt_r. unfold Grammar.ODD_TYPE. lang.
Qed.
(** A handle with its kind, and perhaps a question mark. *)
Section HandleKind.
Context (t l r : Token) (a : string) (u : list Token) (b : TypeRefOf nat).
Context (Hk : Kind t = Name) (Ht : string_of_bytes (Text t) = "handle") (Hl : Kind l = LAngle)
  (Hu : word a u) (Hr : Kind r = RAngle).
Context (Hb : BuiltInType_named (string_of_bytes (Text t) +:+ "<" +:+ a +:+ ">") = Some b).
Lemma handle_kind_read q : opt (tok Qstn) q -> HANDLE_TYPE (t :: l :: u ++ r :: q).
Proof.
  intros Hq. rewrite Ht in Hb. apply handle_kind_name in Hb. destruct Hu as (k & -> & Hkk & <-).
  apply (cat_app _ _ [t]); [by apply word_one|]. apply (cat_app _ _ (l :: [k] ++ [r]) q); [|done].
  right. assert (HANDLE_KIND [k]) by (by apply one_of_one). lang.
Qed.
Lemma handle_read : type_read b (t :: l :: u ++ [r]).
Proof.
  assert (HANDLE_TYPE (t :: l :: u ++ [r])) by (by apply handle_kind_read; left).
  rewrite Ht in Hb. apply only_handle in Hb as [h ->]. by apply TYPE_handle.
Qed.
Lemma handle_nullable_read q b' :
  Kind q = Qstn ->
  BuiltInType_named ((string_of_bytes (Text t) +:+ "<" +:+ a +:+ ">") +:+ "?") = Some b' ->
  type_read b' (t :: l :: u ++ [r; q]).
Proof.
  intros Hq Hb'. assert (HANDLE_TYPE (t :: l :: u ++ [r; q])) by (apply handle_kind_read; right; by apply tok_one).
  rewrite Ht in Hb'. apply only_handle in Hb' as [h ->]. by apply TYPE_handle.
Qed.
End HandleKind.
