(* ===== verification/ParserLogic.v ===== *)
(** * A logic for the parser's methods

    [wpp m Q p ts]: from a parser [p] whose tokens to come are [ts], the
    method [m] reads a part [used] of them, or runs out of fuel in front of a
    comma that [parseEnumBody] does not consume ([stuck]).  The stream is only
    known through the interface [StreamOf].  A [quiet] method reads no token.
    The rules step through a method as the weakest-precondition rules of the
    prelude do; the tactic [pstep] applies them. *)
From S2P Require Export TypeGrammar ParseDecls.

Section Logic.
Context {S : Type} {TS : TokenStream S} {R : S -> list Token -> Prop} {HR : StreamOf S R} {md : bool}.
#[local] Abbreviation PM := (PM S).
#[local] Abbreviation Parser := (Parser S).

(** No end-of-file token precedes the end of the stream. *)
Definition no_eof (ts : list Token) : Prop := Forall (fun t => Kind t <> EOF) ts.
(** [ts] is to come, for a parse that is ([md]) or is not restricted to the
    metadata of the file. *)
Definition at_tokens (p : Parser) (ts : list Token) : Prop :=
  metaDataOnlyMode p = md /\ discardRemaining p = false /\ R (inputStream p) ts /\ no_eof ts.
(** [used] was read between [p] and [p']; no error is ever cleared. *)
Definition follows (p p' : Parser) (used : list Token) : Prop :=
  err p' = None -> err p = None /\ lastConsumed p' = default (lastConsumed p) (last used).
(** The tokens after which the body of an enum hangs on a comma. *)
Definition before_comma : list TokenKind := [LBrace; Comma; RBracket].
Definition stuck (p : Parser) (ts : list Token) (p' : Parser) : Prop :=
  exists used t rest, ts = used ++ t :: rest /\ Kind t = Comma /\ err p' = None /\
    follows p p' used /\ Kind (lastConsumed p') ∈ before_comma.

Definition wpp {A} (m : PM A) (Q : A -> Parser -> list Token -> list Token -> Prop)
    (p : Parser) (ts : list Token) : Prop :=
  match m p with
  | (p', Ok a) =>
    exists used rest, ts = used ++ rest /\ at_tokens p' rest /\ follows p p' used /\ Q a p' used rest
  | (p', Err _) => stuck p ts p'
  | (_, Panic) => True
  end.

(** What is learnt of a call: without an error the tokens read are in the
    language of the result. *)
Definition sound {A} (L : A -> lang) : A -> Parser -> list Token -> list Token -> Prop :=
  fun a p' used _ => err p' = None -> L a used.

Lemma follows_trans p p1 p2 u1 u2 :
  follows p p1 u1 -> follows p1 p2 u2 -> follows p p2 (u1 ++ u2).
Proof.
  intros H1 H2 Hok. destruct (H2 Hok) as [Hok1 ->]. destruct (H1 Hok1) as [Hok0 ->].
  split; [done|]. rewrite last_app. by destruct (last u2).
Qed.
Lemma follows_refl p : follows p p [].
Proof. done. Qed.
Lemma stuck_trans p p1 p2 u1 ts : follows p p1 u1 -> stuck p1 ts p2 -> stuck p (u1 ++ ts) p2.
Proof.
  intros H1 (u2 & t & rest & -> & Ht & Hok & H2 & Hk). exists (u1 ++ u2), t, rest.
  rewrite <- app_assoc. split_and!; try done. by eapply follows_trans.
Qed.

Lemma wpp_mono {A} (m : PM A) Q Q' p ts :
  wpp m Q p ts ->
  (forall a p' used rest, ts = used ++ rest -> at_tokens p' rest -> follows p p' used ->
     Q a p' used rest -> Q' a p' used rest) ->
  wpp m Q' p ts.
Proof.
  unfold wpp. destruct (m p) as [p' [a|e|]]; [|done|done].
  intros (used & rest & -> & Hat & Hf & HQ) H. exists used, rest. split_and!; try done. by apply H.
Qed.
Lemma wpp_bind {A B} (m : PM A) (k : A -> PM B) Q Q1 p ts :
  wpp m Q1 p ts ->
  (forall a p1 used rest, ts = used ++ rest -> at_tokens p1 rest -> follows p p1 used ->
     Q1 a p1 used rest ->
     wpp (k a) (fun b p2 u2 rest2 => Q b p2 (used ++ u2) rest2) p1 rest) ->
  wpp (bind m k) Q p ts.
Proof.
  unfold wpp, bind. destruct (m p) as [p1 [a|e|]]; [|done|done].
  intros (used & rest & -> & Hat & Hf & HQ) H. specialize (H a p1 used rest eq_refl Hat Hf HQ).
  destruct (k a p1) as [p2 [b|e|]]; [|by eapply stuck_trans|done].
  destruct H as (u2 & rest2 & -> & Hat2 & Hf2 & HQ2). exists (used ++ u2), rest2.
  rewrite <- app_assoc. split_and!; try done. by eapply follows_trans.
Qed.
Lemma wpp_ext {A} (m m' : PM A) Q p ts : m p = m' p -> wpp m' Q p ts -> wpp m Q p ts.
Proof. unfold wpp. by intros ->. Qed.
Lemma wpp_assoc {A B C} (m : PM A) (k : A -> PM B) (k' : B -> PM C) Q p ts :
  wpp (bind m (fun x => bind (k x) k')) Q p ts -> wpp (bind (bind m k) k') Q p ts.
Proof. apply wpp_ext. unfold bind. by destruct (m p) as [p1 [a|e|]]. Qed.
Lemma wpp_assoc_in {A B C D} (m : PM A) (k : A -> PM B) (f : B -> PM C) (g : C -> PM D) Q p ts :
  wpp (bind m (fun x => bind (k x) (fun y => bind (f y) g))) Q p ts ->
  wpp (bind m (fun x => bind (bind (k x) f) g)) Q p ts.
Proof.
  apply wpp_ext. unfold bind. destruct (m p) as [p1 [a|e|]]; [|done..].
  by destruct (k a p1) as [p2 [b|e|]].
Qed.
Lemma wpp_regroup {A B C} (m : PM A) (k : A -> PM B) (k' : B -> PM C) Q p ts :
  wpp (bind (bind m k) k') Q p ts -> wpp (bind m (fun x => bind (k x) k')) Q p ts.
Proof. apply wpp_ext. unfold bind. by destruct (m p) as [p1 [a|e|]]. Qed.
Lemma wpp_ret {A} (a : A) Q p ts : at_tokens p ts -> Q a p [] ts -> wpp (ret a) Q p ts.
Proof. intros Hat HQ. by exists [], ts. Qed.
Lemma wpp_panic {A} (Q : A -> Parser -> list Token -> list Token -> Prop) p ts : wpp panic Q p ts.
Proof. exact I. Qed.

(** ** Methods that read no token *)
Definition same_view (p p' : Parser) : Prop :=
  inputStream p' = inputStream p /\ err p' = err p /\ discardRemaining p' = discardRemaining p /\
  metaDataOnlyMode p' = metaDataOnlyMode p /\ lastConsumed p' = lastConsumed p.
Definition quiet {A} (m : PM A) : Prop :=
  forall p, same_view p (m p).1 /\ match (m p).2 with Err _ => False | _ => True end.
Lemma same_view_at p p' ts : same_view p p' -> at_tokens p ts -> at_tokens p' ts.
Proof. intros (Hs & _ & Hd & Hm & _). unfold at_tokens. by rewrite Hs, Hd, Hm. Qed.
Lemma same_view_follows p p' : same_view p p' -> follows p p' [].
Proof. intros (_ & He & _ & _ & Hl) Hok. cbn. split; congruence. Qed.
Lemma wpp_quiet {A} (m : PM A) (Q : A -> Parser -> list Token -> list Token -> Prop) p ts :
  quiet m -> at_tokens p ts ->
  (forall a p', m p = (p', Ok a) -> same_view p p' -> Q a p' [] ts) -> wpp m Q p ts.
Proof.
  intros Hq Hat HQ. specialize (Hq p). unfold wpp. destruct (m p) as [p' [a|e|]]; cbn [fst snd] in Hq; [|by destruct Hq|done].
  destruct Hq as [Hv _]. exists [], ts. split_and!; [done|by eapply same_view_at|by apply same_view_follows|].
  by apply HQ.
Qed.
Lemma quiet_ret {A} (a : A) : quiet (ret a : PM A).
Proof. intros p. by repeat split. Qed.
Lemma quiet_panic {A} : quiet (panic : PM A).
Proof. intros p. by repeat split. Qed.
Lemma quiet_get : quiet (get : PM Parser).
Proof. intros p. by repeat split. Qed.
Lemma quiet_must {A} (o : option A) : quiet (must o : PM A).
Proof. intros p. destruct o; by repeat split. Qed.
Lemma quiet_modify f : (forall p, same_view p (f p)) -> quiet (modify f : PM unit).
Proof. intros H p. split; [apply H|done]. Qed.
Lemma quiet_bind {A B} (m : PM A) (k : A -> PM B) :
  quiet m -> (forall a, quiet (k a)) -> quiet (bind m k).
Proof.
  intros Hm Hk p. specialize (Hm p). unfold bind. destruct (m p) as [p1 [a|e|]]; cbn [fst snd] in *; [|done|done].
  destruct (Hk a p1) as [Hv He]. destruct Hm as [(? & ? & ? & ? & ?) _]. destruct Hv as (? & ? & ? & ? & ?).
  split; [|done]. unfold same_view. intuition congruence.
Qed.
Lemma quiet_OK : quiet (OK : PM bool).
Proof. intros p. by repeat split. Qed.
Lemma quiet_last_consumed : quiet (last_consumed : PM Token).
Proof. intros p. by repeat split. Qed.
Lemma quiet_attempt {T E} (read : Heap -> option T) write (m : M T E unit) :
  quiet (attempt read write m : PM (option E)).
Proof.
  intros p. unfold attempt. destruct (read (heap p)); [|by repeat split].
  destruct (m t) as [s' [[]|e|]]; by repeat split.
Qed.
Lemma quiet_heap f : quiet (update_heap f : PM unit).
Proof. by apply quiet_modify. Qed.
Lemma quiet_params {E} s (m : M (MojomDescriptor * MojomStruct nat) E unit) :
  quiet (on_params s m : PM (MojomStruct nat * option E)).
Proof.
  intros p. unfold on_params. destruct (m (mojomDescriptor (heap p), s)) as [[d s'] [[]|e|]]; by repeat split.
Qed.

(** [with_descriptor] of a method that does not run out of fuel. *)
Definition no_err {A} (m : M MojomDescriptor OutOfFuel A) : Prop := forall d e, (m d).2 <> Err e.
Lemma quiet_with_descriptor {A} (m : M MojomDescriptor OutOfFuel A) :
  no_err m -> quiet (with_descriptor m : PM A).
Proof.
  intros Hm p. unfold with_descriptor. specialize (Hm (mojomDescriptor (heap p))).
  destruct (m (mojomDescriptor (heap p))) as [d [a|e|]]; [by repeat split| |by repeat split].
  by destruct (Hm e).
Qed.
Lemma no_err_bind {A B} (m : M MojomDescriptor OutOfFuel A) (k : A -> M MojomDescriptor OutOfFuel B) :
  no_err m -> (forall a, no_err (k a)) -> no_err (bind m k).
Proof.
  intros Hm Hk d e. unfold bind. specialize (Hm d). destruct (m d) as [d1 [a|e'|]]; [apply Hk| |done].
  by destruct (Hm e').
Qed.
Lemma no_err_ret {A} (a : A) : no_err (ret a).
Proof. done. Qed.
Lemma no_err_panic {A} : no_err (panic : M MojomDescriptor OutOfFuel A).
Proof. done. Qed.
Lemma no_err_get : no_err get.
Proof. done. Qed.
Lemma no_err_modify f : no_err (modify f).
Proof. done. Qed.
Lemma no_err_must {A} (o : option A) : no_err (must o).
Proof. intros d e. by destruct o. Qed.
Lemma no_err_deref {A} (t : MojomDescriptor -> list A) q : no_err (deref t q).
Proof. intros d e. unfold deref, must. by destruct (t d !! q). Qed.
Lemma no_err_new_scope k s f p fl c : no_err (new_scope k s f p fl c).
Proof. done. Qed.
End Logic.
Create HintDb quiet.
#[export] Hint Resolve quiet_ret quiet_panic quiet_get quiet_must quiet_OK quiet_last_consumed
  quiet_attempt quiet_heap quiet_params : quiet.
#[export] Hint Resolve no_err_ret no_err_panic no_err_get no_err_modify no_err_must no_err_deref
  no_err_new_scope : quiet.
Ltac quiet :=
  repeat first
    [ progress intros
    | solve [auto with quiet nocore]
    | apply quiet_modify; intros ?; by repeat split
    | apply quiet_with_descriptor
    | apply quiet_bind; [|intros ?]
    | apply no_err_bind; [|intros ?]
    | case_match ].

(** ** The quiet methods of the parser *)
Section Quiet.
Context {S : Type} {TS : TokenStream S}.
Lemma no_err_getAbstractModuleScope_fuel fuel : forall name, no_err (getAbstractModuleScope_fuel fuel name).
Proof.
  induction fuel as [|fuel IH]; intros name; cbn [getAbstractModuleScope_fuel]; [quiet|].
  unfold NewAbstractModuleScope. quiet.
Qed.
Lemma no_err_getAbstractModuleScope name : no_err (getAbstractModuleScope name).
Proof. apply no_err_getAbstractModuleScope_fuel. Qed.
#[local] Hint Resolve no_err_getAbstractModuleScope : quiet.
Lemma no_err_NewLexicalScope k p n f c : no_err (NewLexicalScope k p n f c).
Proof. unfold NewLexicalScope, deref_nil. quiet. Qed.
Lemma quiet_new_object c d : quiet (new_object c d : PM S nat).
Proof. unfold new_object. quiet. Qed.
Lemma quiet_new_type_ref r : quiet (new_type_ref r : PM S nat).
Proof. unfold new_type_ref. quiet. Qed.
Lemma quiet_new_value_ref r : quiet (new_value_ref r : PM S nat).
Proof. unfold new_value_ref. quiet. Qed.
Lemma quiet_mark m r : quiet (mark m r : PM S bool).
Proof. unfold mark. quiet. Qed.
#[local] Hint Resolve quiet_mark no_err_NewLexicalScope : quiet.
Lemma quiet_new_lexical_scope k o n : quiet (new_lexical_scope k o n : PM S nat).
Proof. unfold new_lexical_scope, deref_nil. quiet. Qed.
Lemma quiet_MarkUsedAsMapKey t : quiet (TypeRef_MarkUsedAsMapKey t : PM S bool).
Proof. unfold TypeRef_MarkUsedAsMapKey. quiet. Qed.
Lemma quiet_MarkUsedAsConstantType t : quiet (TypeRef_MarkUsedAsConstantType t : PM S bool).
Proof. unfold TypeRef_MarkUsedAsConstantType. quiet. Qed.
Lemma quiet_MarkTypeCompatible t a : quiet (TypeRef_MarkTypeCompatible t a : PM S bool).
Proof. unfold TypeRef_MarkTypeCompatible. quiet. Qed.
Lemma quiet_push_scope s : quiet (pushScope s : PM S unit).
Proof. unfold pushScope. quiet. Qed.
Lemma quiet_pop_scope : quiet (popScope : PM S unit).
Proof. unfold popScope. quiet. Qed.
Lemma quiet_ValidateValue name t v : quiet (ValidateValue name t v : PM S bool).
Proof. unfold ValidateValue. destruct v; [apply quiet_MarkTypeCompatible|quiet]. Qed.
Lemma quiet_ValidateDefaultValue name t v : quiet (ValidateDefaultValue name t v : PM S bool).
Proof. unfold ValidateDefaultValue. destruct v as [[]|]; [apply quiet_MarkTypeCompatible|quiet..]. Qed.
Lemma quiet_on_struct {E} o m : quiet (on_struct (E:=E) o m : PM S (option E)).
Proof. apply quiet_attempt. Qed.
Lemma quiet_on_interface {E} o m : quiet (on_interface (E:=E) o m : PM S (option E)).
Proof. apply quiet_attempt. Qed.
Lemma quiet_on_enum {E} o m : quiet (on_enum (E:=E) o m : PM S (option E)).
Proof. apply quiet_attempt. Qed.
Lemma quiet_on_union {E} o m : quiet (on_union (E:=E) o m : PM S (option E)).
Proof. apply quiet_attempt. Qed.
Lemma quiet_update_file_at f : quiet (update_file_at f : PM S unit).
Proof. unfold update_file_at, update_file. quiet. Qed.
Lemma no_err_InitializeFileScope f n : no_err (InitializeFileScope f n).
Proof. unfold InitializeFileScope, update_file. quiet. Qed.
Lemma quiet_in_file {E} m : quiet (in_file (E:=E) m : PM S (option E)).
Proof. apply quiet_attempt. Qed.
#[local] Hint Resolve quiet_new_lexical_scope : quiet.
Lemma quiet_update_heap f : quiet (update_heap f : PM S unit).
Proof. unfold update_heap. quiet. Qed.
#[local] Hint Resolve quiet_update_heap : quiet.
Lemma quiet_Struct_InitAsScope o : quiet (Struct_InitAsScope o : PM S nat).
Proof. unfold Struct_InitAsScope. quiet. Qed.
Lemma quiet_Interface_InitAsScope o : quiet (Interface_InitAsScope o : PM S nat).
Proof. unfold Interface_InitAsScope. quiet. Qed.
Lemma quiet_Enum_InitAsScope o : quiet (Enum_InitAsScope o : PM S nat).
Proof. unfold Enum_InitAsScope. quiet. Qed.
End Quiet.
#[export] Hint Resolve quiet_new_object quiet_new_type_ref quiet_new_value_ref quiet_mark
  quiet_new_lexical_scope quiet_MarkUsedAsMapKey quiet_MarkUsedAsConstantType quiet_MarkTypeCompatible
  quiet_push_scope quiet_pop_scope quiet_ValidateValue quiet_ValidateDefaultValue quiet_on_struct
  quiet_on_interface quiet_on_enum quiet_on_union quiet_in_file quiet_update_heap quiet_update_file_at
  no_err_InitializeFileScope quiet_Struct_InitAsScope
  quiet_Interface_InitAsScope quiet_Enum_InitAsScope no_err_NewLexicalScope : quiet.

(** ** Rules for the primitives *)
Section Primitives.
Context {S : Type} {TS : TokenStream S} {R : S -> list Token -> Prop} {HR : StreamOf S R} {md : bool}.
#[local] Abbreviation PM := (PM S).
#[local] Abbreviation Parser := (Parser S).
#[local] Abbreviation wpp := (@wpp S R md _).
#[local] Abbreviation at_tokens := (@at_tokens S R md).
Implicit Types (p : Parser) (ts : list Token).

Lemma wpp_unless {A} (d : A) (k : PM A) Q p ts :
  at_tokens p ts -> (err p = None -> wpp k Q p ts) -> (err p <> None -> Q d p [] ts) ->
  wpp (unless_err d k) Q p ts.
Proof.
  intros Hat Hk Hd. unfold unless_err, ParserLogic.wpp, bind, OK, is_ok.
  destruct (err p) as [e|] eqn:E; [|by apply Hk].
  exists [], ts. split_and!; try done. by apply Hd.
Qed.
Lemma wpp_unless_bind {A B} (d : A) (k : PM A) (k' : A -> PM B) Q p ts :
  at_tokens p ts -> (err p = None -> wpp (bind k k') Q p ts) -> (err p <> None -> wpp (k' d) Q p ts) ->
  wpp (bind (unless_err d k) k') Q p ts.
Proof.
  intros Hat Hk Hd. unfold unless_err, ParserLogic.wpp, bind, OK, is_ok in *.
  destruct (err p) as [e|] eqn:E; [by apply Hd|by apply Hk].
Qed.
Lemma wpp_fail_bind {B} (e : ParserError) (k : unit -> PM B) Q p ts :
  at_tokens p ts ->
  (forall p', at_tokens p' ts -> err p' <> None -> wpp (k tt) Q p' ts) ->
  wpp (bind (fail e) k) Q p ts.
Proof.
  intros Hat Hk. eapply (wpp_bind _ _ _ (fun _ p' u r => u = [] /\ r = ts /\ err p' <> None)).
  - exists [], ts. by split_and!.
  - intros [] p' u r _ Hat' _ (-> & -> & Hne). by apply Hk.
Qed.
Lemma wpp_fail (e : ParserError) (Q : unit -> Parser -> list Token -> list Token -> Prop) p ts :
  at_tokens p ts -> (forall p', err p' <> None -> Q tt p' [] ts) -> wpp (fail e) Q p ts.
Proof. intros Hat HQ. exists [], ts. split_and!; try done. by apply HQ. Qed.
Lemma wpp_parseError_bind {B} code (k : unit -> PM B) Q p ts :
  at_tokens p ts ->
  (forall p', at_tokens p' ts -> err p' <> None -> wpp (k tt) Q p' ts) ->
  wpp (bind (parseError code) k) Q p ts.
Proof.
  intros Hat Hk. eapply wpp_ext; [|exact (wpp_fail_bind (ParseError code (lastSeen p)) k Q p ts Hat Hk)].
  done.
Qed.

Lemma wpp_quiet_run {A B} (m : PM A) (k : A -> PM B) Q p ts :
  quiet m -> at_tokens p ts ->
  (forall a p', m p = (p', Ok a) -> at_tokens p' ts -> err p' = err p -> lastConsumed p' = lastConsumed p ->
     wpp (k a) Q p' ts) ->
  wpp (bind m k) Q p ts.
Proof.
  intros Hq Hat Hk. specialize (Hq p). unfold ParserLogic.wpp, bind in *.
  destruct (m p) as [p1 [a|e|]]; cbn [fst snd] in Hq; destruct Hq as [Hv He]; [|done..].
  pose proof (same_view_follows _ _ Hv) as Hf.
  specialize (Hk a p1 eq_refl (same_view_at _ _ _ Hv Hat) (proj1 (proj2 Hv)) (proj2 (proj2 (proj2 (proj2 Hv))))).
  destruct (k a p1) as [p2 [b|e|]]; [|by apply (stuck_trans _ _ _ [] _ Hf Hk)|done].
  destruct Hk as (u & r & -> & Hat2 & Hf2 & HQ). exists u, r. split_and!; try done.
  by apply (follows_trans _ _ _ [] _ Hf Hf2).
Qed.
Lemma wpp_quiet_bind {A B} (m : PM A) (k : A -> PM B) Q p ts :
  quiet m -> at_tokens p ts ->
  (forall a p', at_tokens p' ts -> err p' = err p -> lastConsumed p' = lastConsumed p -> wpp (k a) Q p' ts) ->
  wpp (bind m k) Q p ts.
Proof. intros Hq Hat Hk. apply wpp_quiet_run; auto. Qed.
(** A type that may be the type of a key or of a constant. *)
Lemma wpp_mark_bind {B} (mark : TypeRefOf nat -> PM bool) t (k : bool -> PM B) Q p ts :
  quiet (mark t) -> (key_type t = false -> mark t = ret false) -> at_tokens p ts ->
  (forall p', at_tokens p' ts -> err p' = err p -> lastConsumed p' = lastConsumed p -> key_type t = true ->
     wpp (k true) Q p' ts) ->
  (forall p', at_tokens p' ts -> err p' = err p -> lastConsumed p' = lastConsumed p -> wpp (k false) Q p' ts) ->
  wpp (bind (mark t) k) Q p ts.
Proof.
  intros Hq Hf Hat Ht Hn. apply wpp_quiet_run; [done..|]. intros [] p' Hrun ? ? ?; [|by apply Hn].
  apply Ht; [done..|]. destruct (key_type t); [done|]. by rewrite Hf in Hrun.
Qed.
Lemma wpp_MarkUsedAsMapKey_bind {B} t (k : bool -> PM B) Q p ts :
  at_tokens p ts ->
  (forall p', at_tokens p' ts -> err p' = err p -> lastConsumed p' = lastConsumed p -> key_type t = true ->
     wpp (k true) Q p' ts) ->
  (forall p', at_tokens p' ts -> err p' = err p -> lastConsumed p' = lastConsumed p -> wpp (k false) Q p' ts) ->
  wpp (bind (TypeRef_MarkUsedAsMapKey t) k) Q p ts.
Proof. apply wpp_mark_bind; [apply quiet_MarkUsedAsMapKey|by destruct t]. Qed.
Lemma wpp_MarkUsedAsConstantType_bind {B} t (k : bool -> PM B) Q p ts :
  at_tokens p ts ->
  (forall p', at_tokens p' ts -> err p' = err p -> lastConsumed p' = lastConsumed p -> key_type t = true ->
     wpp (k true) Q p' ts) ->
  (forall p', at_tokens p' ts -> err p' = err p -> lastConsumed p' = lastConsumed p -> wpp (k false) Q p' ts) ->
  wpp (bind (TypeRef_MarkUsedAsConstantType t) k) Q p ts.
Proof. apply wpp_mark_bind; [apply quiet_MarkUsedAsConstantType|by destruct t]. Qed.

Lemma no_eof_head t ts : no_eof (t :: ts) -> Token_EOF t = false.
Proof. intros H. apply bool_decide_eq_false. by inversion H. Qed.
Lemma at_cons p t ts : at_tokens p (t :: ts) -> Token_EOF t = false /\ Kind t <> EOF.
Proof.
  intros (_ & _ & _ & H).
  split; [by eapply no_eof_head|by inversion H].
Qed.
Lemma wpp_next_bind {B} (k : Token -> PM B) Q p ts :
  at_tokens p ts ->
  (forall p', at_tokens p' ts -> err p' = err p -> lastConsumed p' = lastConsumed p ->
     wpp (k (default eofToken (head ts))) Q p' ts) ->
  wpp (bind next_available k) Q p ts.
Proof.
  intros (Hm & Hd & Hs & Hne) Hk.
  unfold ParserLogic.wpp, next_available, bind, get, stream_peek in *. rewrite Hd.
  destruct (PeekNext_of _ _ Hs) as [Hs' Ht].
  destruct (PeekNext (inputStream p)) as [s t]. cbn [fst snd] in *. subst t.
  by apply (Hk (set_stream s p)).
Qed.
(** A peek finds the next token, or the end of the stream and an error. *)
Lemma wpp_peek_bind {B} (k : Token -> PM B) Q p ts :
  at_tokens p ts ->
  (forall p', ts = [] -> at_tokens p' [] -> err p' <> None -> wpp (k eofToken) Q p' []) ->
  (forall t r p', ts = t :: r -> at_tokens p' (t :: r) -> err p' = err p ->
     lastConsumed p' = lastConsumed p -> wpp (k t) Q p' (t :: r)) ->
  wpp (bind peekNextToken k) Q p ts.
Proof.
  intros Hat Hnil Hcons. unfold peekNextToken. apply wpp_assoc, wpp_next_bind; [done|].
  intros p1 Hat1 He1 Hl1. destruct ts as [|t r]; cbn [head default] in *.
  - cbn. apply wpp_assoc, wpp_parseError_bind; [done|]. intros p2 Hat2 He2.
    apply wpp_assoc, wpp_quiet_bind; [quiet|done|]. intros [] p3 Hat3 He3 _.
    cbn. apply Hnil; congruence || done.
  - destruct (at_cons _ _ _ Hat) as [He _]. unfold id. rewrite He. apply wpp_assoc, wpp_quiet_bind; [quiet|done|].
    intros [] p2 Hat2 He2 Hl2. apply wpp_assoc, wpp_quiet_bind; [quiet|done|]. intros [] p3 Hat3 He3 Hl3.
    apply (Hcons t r p3); congruence || done.
Qed.
Lemma wpp_checkEOF_bind {B} (k : bool -> PM B) Q p ts :
  at_tokens p ts ->
  (forall p', ts = [] -> at_tokens p' [] -> err p' = err p -> lastConsumed p' = lastConsumed p ->
     wpp (k true) Q p' []) ->
  (forall t r p', ts = t :: r -> at_tokens p' (t :: r) -> err p' = err p ->
     lastConsumed p' = lastConsumed p -> wpp (k false) Q p' (t :: r)) ->
  wpp (bind checkEOF k) Q p ts.
Proof.
  intros Hat Hnil Hcons. unfold checkEOF. apply wpp_assoc, wpp_next_bind; [done|].
  intros p1 Hat1 He1 Hl1. destruct ts as [|t r]; cbn [head default] in *.
  - apply wpp_assoc, wpp_quiet_bind; [quiet|done|]. intros [] p3 Hat3 He3 Hl3.
    apply (Hnil p3); congruence || done.
  - apply wpp_assoc, wpp_quiet_bind; [quiet|done|]. intros [] p3 Hat3 He3 Hl3.
    eapply wpp_ext; [unfold bind, ret, id; by rewrite (proj1 (at_cons _ _ _ Hat))|].
    apply (Hcons t r p3); congruence || done.
Qed.
(** The same when it is known whether the stream is at its end. *)
Lemma wpp_peek_nil {B} (k : Token -> PM B) Q p :
  at_tokens p [] -> (forall p', at_tokens p' [] -> err p' <> None -> wpp (k eofToken) Q p' []) ->
  wpp (bind peekNextToken k) Q p [].
Proof. intros Hat Hk. apply wpp_peek_bind; [done|auto|done]. Qed.
Lemma wpp_peek_cons {B} (k : Token -> PM B) Q p t r :
  at_tokens p (t :: r) ->
  (forall p', at_tokens p' (t :: r) -> err p' = err p -> lastConsumed p' = lastConsumed p ->
     wpp (k t) Q p' (t :: r)) ->
  wpp (bind peekNextToken k) Q p (t :: r).
Proof. intros Hat Hk. apply wpp_peek_bind; [done..|]. intros ? ? p' [= <- <-]. apply Hk. Qed.
Lemma wpp_checkEOF_nil {B} (k : bool -> PM B) Q p :
  at_tokens p [] ->
  (forall p', at_tokens p' [] -> err p' = err p -> lastConsumed p' = lastConsumed p -> wpp (k true) Q p' []) ->
  wpp (bind checkEOF k) Q p [].
Proof. intros Hat Hk. apply wpp_checkEOF_bind; [done|auto|done]. Qed.
Lemma wpp_checkEOF_cons {B} (k : bool -> PM B) Q p t r :
  at_tokens p (t :: r) ->
  (forall p', at_tokens p' (t :: r) -> err p' = err p -> lastConsumed p' = lastConsumed p ->
     wpp (k false) Q p' (t :: r)) ->
  wpp (bind checkEOF k) Q p (t :: r).
Proof. intros Hat Hk. apply wpp_checkEOF_bind; [done..|]. intros ? ? p' [= <- <-]. apply Hk. Qed.
(** Consuming past the end of the stream. *)
Lemma wpp_consume_nil {B} (k : unit -> PM B) Q p :
  at_tokens p [] -> err p <> None ->
  (forall p', at_tokens p' [] -> err p' <> None -> wpp (k tt) Q p' []) ->
  wpp (bind consumeNextToken k) Q p [].
Proof.
  intros (Hm & Hd & Hs & Hno) He Hk. unfold consumeNextToken.
  apply (wpp_bind _ _ _ (fun _ p' u r => u = [] /\ r = [] /\ err p' <> None)).
  - unfold ParserLogic.wpp, bind, get, stream_peek, modify in *. rewrite Hd.
    destruct (PeekNext_of _ _ Hs) as [Hs' Ht].
    destruct (PeekNext (inputStream p)) as [s t]. cbn [fst snd] in *. subst t.
    exists [], []. split_and!; try done. split_and!; try done. apply (ConsumeNext_of _ _ Hs').
  - intros [] p' u r _ Hat' _ (-> & -> & Hne). by apply Hk.
Qed.
Lemma wpp_consume_bind {B} (k : unit -> PM B) Q p t r :
  at_tokens p (t :: r) ->
  (forall p', at_tokens p' r -> err p' = err p -> lastConsumed p' = t ->
     wpp (k tt) (fun b p2 u r2 => Q b p2 (t :: u) r2) p' r) ->
  wpp (bind consumeNextToken k) Q p (t :: r).
Proof.
  intros (Hm & Hd & Hs & Hne) Hk. unfold consumeNextToken.
  apply (wpp_bind _ _ _ (fun _ p' u r' => u = [t] /\ r' = r /\ err p' = err p /\ lastConsumed p' = t)).
  - unfold ParserLogic.wpp, bind, get, stream_peek, modify in *. rewrite Hd.
    destruct (PeekNext_of _ _ Hs) as [Hs' Ht].
    destruct (PeekNext (inputStream p)) as [s t']. cbn [fst snd] in *. subst t'.
    exists [t], r. split_and!; try done. split_and!; try done; [apply (ConsumeNext_of _ _ Hs')|by inversion Hne].
  - intros [] p' u r' _ Hat' _ (-> & -> & He & Hl). by apply Hk.
Qed.
End Primitives.

(** A last call, as a sequence. *)
Lemma wpp_tail {S R md A} (m : PM S A) Q p ts : wpp (R:=R) (md:=md) (bind m ret) Q p ts -> wpp (R:=R) (md:=md) m Q p ts.
Proof. apply wpp_ext. unfold bind, ret. by destruct (m p) as [p1 [a|e|]]. Qed.
Lemma wpp_untail {S R md A} (m : PM S A) Q p ts : wpp (R:=R) (md:=md) m Q p ts -> wpp (R:=R) (md:=md) (bind m ret) Q p ts.
Proof. apply wpp_ext. unfold bind, ret. by destruct (m p) as [p1 [a|e|]]. Qed.
Lemma wpp_ret_bind {S R md A B} (a : A) (k : A -> PM S B) Q p ts :
  wpp (R:=R) (md:=md) (k a) Q p ts -> wpp (R:=R) (md:=md) (bind (ret a) k) Q p ts.
Proof. by apply wpp_ext. Qed.
Lemma wpp_panic_bind {S R md A B} (k : A -> PM S B) Q p ts : wpp (R:=R) (md:=md) (bind panic k) Q p ts.
Proof. exact I. Qed.
Lemma wpp_get_bind {S R md B} (k : Parser S -> PM S B) Q p ts :
  wpp (R:=R) (md:=md) (k p) Q p ts -> wpp (R:=R) (md:=md) (bind get k) Q p ts.
Proof. by apply wpp_ext. Qed.
Lemma wpp_OK_bind {S R md B} (k : bool -> PM S B) Q p ts :
  (err p = None -> wpp (R:=R) (md:=md) (k true) Q p ts) -> (err p <> None -> wpp (R:=R) (md:=md) (k false) Q p ts) ->
  wpp (R:=R) (md:=md) (bind OK k) Q p ts.
Proof.
  intros Ht Hf. destruct (err p) as [e|] eqn:He.
  - eapply wpp_ext; [|by apply Hf]. unfold bind, OK, is_ok. by rewrite He.
  - eapply wpp_ext; [|by apply Ht]. unfold bind, OK, is_ok. by rewrite He.
Qed.
Lemma wpp_must_bind {S R md A B} (o : option A) (k : A -> PM S B) Q p ts :
  (forall a, o = Some a -> wpp (R:=R) (md:=md) (k a) Q p ts) -> wpp (R:=R) (md:=md) (bind (must o) k) Q p ts.
Proof. intros Hk. destruct o as [a|]; [|exact I]. eapply wpp_ext; [|by apply (Hk a)]. done. Qed.
Lemma wpp_last_bind {S R md B} (k : Token -> PM S B) Q p ts :
  wpp (R:=R) (md:=md) (k (lastConsumed p)) Q p ts -> wpp (R:=R) (md:=md) (bind last_consumed k) Q p ts.
Proof. by apply wpp_ext. Qed.

(** [m] reads its result's language when it has more fuel than tokens. *)
Definition reads {S A} {R : S -> list Token -> Prop} {md} (n : nat) (L : A -> lang) (m : PM S A) : Prop :=
  forall p ts, at_tokens (R:=R) (md:=md) p ts -> (length ts < n)%nat -> wpp (R:=R) (md:=md) m (sound L) p ts.
Lemma wpp_reads_bind {S R md A B} n L (m : PM S A) (k : A -> PM S B) Q p ts :
  reads (R:=R) (md:=md) n L m -> at_tokens (R:=R) (md:=md) p ts -> (length ts < n)%nat ->
  (forall a p1 used rest, ts = used ++ rest -> at_tokens (R:=R) (md:=md) p1 rest -> follows p p1 used ->
     sound L a p1 used rest ->
     wpp (R:=R) (md:=md) (k a) (fun b p2 u2 rest2 => Q b p2 (used ++ u2) rest2) p1 rest) ->
  wpp (R:=R) (md:=md) (bind m k) Q p ts.
Proof. intros Hm Hat Hn Hk. eapply wpp_bind; [by apply Hm|exact Hk]. Qed.
(** What a method that tests for a token has read. *)
Definition found (k : TokenKind) (b : bool) : lang := if b then tok k else none.
Definition maybe (k : TokenKind) (b : bool) : lang := if b then tok k else nothing.
(** What a method whose nil result stands for an error, or for no match, has read. *)
Definition some {A} (L : lang) (o : option A) : lang := match o with Some _ => L | None => none end.
Definition tried {A} (L : lang) (o : option A) : lang := match o with Some _ => L | None => nothing end.
Lemma tried_opt {A} L (o : option A) u : tried L o u -> opt L u.
Proof. by destruct o; [right|left]. Qed.
Definition ok_reads (L : lang) (b : bool) : lang := if b then L else none.
Ltac results :=
  repeat match goal with
  | H : ok_reads _ false _ |- _ => destruct H
  | H : ok_reads _ true _ |- _ => cbn [ok_reads] in H
  | H : ok_reads _ ?b _ |- _ => destruct b
  | H : found _ false _ |- _ => destruct H
  | H : found _ true _ |- _ => cbn [found] in H
  | H : found _ ?b _ |- _ => destruct b
  | H : ?a = Some _ |- _ => is_var a; subst a
  | H : some _ (Some _) _ |- _ => cbn [some] in H
  | H : some _ None _ |- _ => destruct H
  | H : tried _ ?o _ |- _ => is_var o; apply tried_opt in H
  | H : some _ ?o _ |- _ => is_var o; destruct o; cbn [some] in H; [|destruct H]
  end.
Ltac reading := results; lang.
Create HintDb reads.
(** ** Testing for a token *)
Section Tests.
Context {S : Type} {TS : TokenStream S} {R : S -> list Token -> Prop} {HR : StreamOf S R} {md : bool}.
#[local] Abbreviation PM := (PM S).
#[local] Abbreviation Parser := (Parser S).
#[local] Abbreviation wpp := (@wpp S R md _).
#[local] Abbreviation at_tokens := (@at_tokens S R md).
Implicit Types (p : Parser) (ts : list Token).

Definition one_token (k : TokenKind) p p' (u : list Token) : Prop :=
  exists t, u = [t] /\ Kind t = k /\ err p = None /\ err p' = None /\ lastConsumed p' = t.
Lemma wpp_one_token {B} k (m : PM B) p p' Q ts u r :
  one_token k p p' u -> ts = u ++ r ->
  (forall t r, ts = t :: r -> Kind t = k -> at_tokens p' r -> err p = None -> err p' = None ->
     lastConsumed p' = t -> wpp m (fun b p2 u2 r2 => Q b p2 (t :: u2) r2) p' r) ->
  at_tokens p' r -> wpp m (fun b p2 u2 r2 => Q b p2 (u ++ u2) r2) p' r.
Proof. intros (t & -> & ? & ? & ? & ?) -> Hm Hat. by apply Hm. Qed.

Lemma wpp_tryMatch k p ts :
  at_tokens p ts ->
  wpp (tryMatch k) (fun b p' u r =>
    if b then one_token k p p' u
    else u = [] /\ r = ts /\ err p' = err p /\ lastConsumed p' = lastConsumed p /\
         (err p = None -> forall t r, ts = t :: r -> Kind t <> k)) p ts.
Proof.
  intros Hat. unfold tryMatch. apply wpp_checkEOF_bind; [done|..].
  - intros p' -> Hat' He Hl. apply wpp_ret; [done|]. split_and!; congruence || done.
  - intros t r p' -> Hat' He Hl. apply wpp_unless; [done|..]; intros Hok.
    + apply wpp_tail, wpp_assoc, wpp_peek_cons; [done|]. intros p2 Hat2 He2 Hl2. cbv beta.
      destruct (bool_decide_reflect (Kind t = k)) as [Hk|Hk]; cbn [negb].
      * apply wpp_assoc, wpp_consume_bind; [done|]. intros p3 Hat3 He3 Hl3.
        apply wpp_ret; [done|]. exists t. split_and!; congruence || done.
      * apply wpp_ret; [done|]. split_and!; [congruence..|]. by intros _ ? ? [= <- _].
    + split_and!; congruence || done.
Qed.
Lemma wpp_match k p ts :
  at_tokens p ts ->
  wpp (match_ k) (fun b p' u r =>
    if b then one_token k p p' u else u = [] /\ r = ts /\ err p' <> None) p ts.
Proof.
  intros Hat. unfold match_. apply wpp_unless; [done| |]; intros Hok; [|done].
  apply wpp_tail, wpp_assoc, wpp_peek_bind; [done|..].
  - intros p' -> Hat' He. apply wpp_unless_bind; [done|done|]. intros _. by apply wpp_ret.
  - intros t r p' -> Hat' He Hl. apply wpp_unless_bind; [done| |congruence]. intros _.
    destruct (bool_decide_reflect (Kind t = k)) as [Hk|Hk]; cbn [negb].
    + apply wpp_assoc, wpp_consume_bind; [done|]. intros p3 Hat3 He3 Hl3.
      apply wpp_ret; [done|]. exists t. split_and!; congruence || done.
    + apply wpp_assoc, wpp_fail_bind; [done|]. intros p2 Hat2 He2. by apply wpp_ret.
Qed.
Lemma wpp_tryMatch_bind {B} k (m : bool -> PM B) Q p ts :
  at_tokens p ts ->
  (forall t r p', ts = t :: r -> Kind t = k -> at_tokens p' r -> err p = None -> err p' = None ->
     lastConsumed p' = t -> wpp (m true) (fun b p2 u r2 => Q b p2 (t :: u) r2) p' r) ->
  (forall p', at_tokens p' ts -> err p' = err p -> lastConsumed p' = lastConsumed p ->
     (err p = None -> forall t r, ts = t :: r -> Kind t <> k) -> wpp (m false) Q p' ts) ->
  wpp (bind (tryMatch k) m) Q p ts.
Proof.
  intros Hat Ht Hf. eapply wpp_bind; [by apply wpp_tryMatch|]. intros [] p' u r Hts Hat' _; cbv beta iota.
  - intros H1. eapply wpp_one_token; eauto.
  - intros (-> & -> & He & Hl & Hk). by apply Hf.
Qed.
Lemma wpp_match_bind {B} k (m : bool -> PM B) Q p ts :
  at_tokens p ts ->
  (forall t r p', ts = t :: r -> Kind t = k -> at_tokens p' r -> err p = None -> err p' = None ->
     lastConsumed p' = t -> wpp (m true) (fun b p2 u r2 => Q b p2 (t :: u) r2) p' r) ->
  (forall p', at_tokens p' ts -> err p' <> None -> wpp (m false) Q p' ts) ->
  wpp (bind (match_ k) m) Q p ts.
Proof.
  intros Hat Ht Hf. eapply wpp_bind; [by apply wpp_match|]. intros [] p' u r Hts Hat' _; cbv beta iota.
  - intros H1. eapply wpp_one_token; eauto.
  - intros (-> & -> & He). by apply Hf.
Qed.
Lemma wpp_end_of_turn_bind {B} dup b (m : option bool -> PM B) Q p ts :
  at_tokens p ts ->
  (forall p', at_tokens p' ts -> err p' <> None -> wpp (m None) Q p' ts) ->
  ((err p = None -> dup = None) -> wpp (m (Some b)) Q p ts) ->
  wpp (bind (end_of_turn dup b) m) Q p ts.
Proof.
  intros Hat Hn Hs. unfold end_of_turn. apply wpp_assoc. destruct (err p) as [x|] eqn:He.
  - eapply wpp_ext; [|apply Hs; congruence]. unfold bind, OK, is_ok. rewrite He. by destruct dup.
  - destruct dup as [e|].
    + eapply wpp_ext; [|exact (wpp_assoc _ _ _ _ _ _ (wpp_fail_bind e (fun _ => bind (ret None) m) Q p ts Hat Hn))].
      unfold bind, OK, is_ok. by rewrite He.
    + eapply wpp_ext; [|by apply Hs]. done.
Qed.
End Tests.

(** Tests as propositions. *)
Ltac norm_bool :=
  repeat match goal with
  | H : (_ || _)%bool = false |- _ => apply orb_false_elim in H as [? ?]
  | H : (_ && _)%bool = true |- _ => apply andb_prop in H as [? ?]
  | H : negb _ = true |- _ => apply negb_true_iff in H
  | H : negb _ = false |- _ => apply negb_false_iff in H
  | H : bool_decide _ = true |- _ => apply bool_decide_eq_true in H
  | H : bool_decide _ = false |- _ => apply bool_decide_eq_false in H
  | H : ?b = true |- _ => is_var b; subst b
  | H : ?b = false |- _ => is_var b; subst b
  end.
(** Keeps an equation whose sides are expensive to evaluate from the search tactics. *)
Inductive known (P : Prop) : Prop := known_intro : P -> known P.
Ltac cases x :=
  lazymatch x with
  | BuiltInType_named _ => let H := fresh "Hknown" in destruct x eqn:H; apply known_intro in H
  | fst (_, _) => cbn [fst]; cbv iota
  | snd (_, _) => cbn [snd]; cbv iota
  | true => cbv iota
  | false => cbv iota
  | negb true => cbn [negb]; cbv iota
  | negb false => cbn [negb]; cbv iota
  | Kind eofToken => change (Kind eofToken) with EOF; cbv iota
  | Kind ?t =>
    tryif (match goal with H : Kind t = _ |- _ => rewrite H end) then cbv iota else destruct (Kind t) eqn:?
  | _ => tryif is_var x then destruct x else destruct x eqn:?
  end.
(** What an absence of error tells of the calls before. *)
Ltac no_error :=
  repeat match goal with
  | H : err ?p = err ?q, E : err ?p = None |- _ => rewrite E in H; symmetry in H
  | F : follows ?p ?p' ?u, E : err ?p' = None |- _ => destruct (F E) as [? ?]; clear F
  | H : sound _ _ ?p' _ _, E : err ?p' = None |- _ => specialize (H E); cbv beta iota in H
  | H : err ?p <> None, E : err ?p = None |- _ => destruct (H E)
  | H : err ?p = None -> _, E : err ?p = None |- _ => specialize (H E); cbv beta iota in H
  end.
Ltac pleaf :=
  cbn beta;
  lazymatch goal with
  | |- sound _ _ _ _ _ =>
    unfold sound at 1; intros ?Hok; no_error; norm_bool; try done;
    cbn [found maybe some tried] in *; try done
  | _ => try done
  end.
Ltac more_fuel :=
  first [apply Nat.lt_succ_diag_r |
    repeat match goal with H : _ :: _ = _ ++ _ |- _ => apply (f_equal length) in H end; 
    repeat first [rewrite length_app in * | progress cbn [length] in *]; lia].
Ltac kinds_conflict :=
  try match goal with
  | H : Kind ?t = _, H' : Kind ?t = _ |- _ => solve [exfalso; rewrite H in H'; discriminate H']
  end.
(** [Hts] says what the stream begins with. *)
Ltac next_token Hts :=
  first [discriminate Hts | injection Hts as <- <-; kinds_conflict | match type of Hts with ?ts = _ => subst ts end; kinds_conflict ].
Ltac read_tokens Hts :=
  lazymatch type of Hts with
  | [] = _ => symmetry in Hts; apply app_eq_nil in Hts as [-> ->]
  | _ :: _ = _ => idtac
  | ?ts = _ => subst ts
  end.
Ltac pstep :=
  lazymatch goal with
  | |- wpp (unless_err _ _) _ _ _ =>
      apply wpp_unless; [assumption|intros ?; try contradiction|intros ?; pleaf]
  | |- wpp (bind (unless_err _ _) _) _ _ _ =>
      apply wpp_unless_bind; [assumption|intros ?; try contradiction|intros ?; try congruence]
  | |- wpp (bind (ret _) _) _ _ _ => apply wpp_ret_bind; cbv beta
  | |- wpp (bind (bind _ _) _) _ _ _ => apply wpp_assoc
  | |- wpp (bind panic _) _ _ _ => apply wpp_panic_bind
  | |- wpp (bind get _) _ _ _ => apply wpp_get_bind; cbv beta
  | |- wpp (bind last_consumed _) _ _ _ => apply wpp_last_bind; cbv beta
  | |- wpp (bind OK _) _ _ _ => apply wpp_OK_bind; intros ?
  | |- wpp (bind (must _) _) _ _ _ => apply wpp_must_bind; intros ? ?
  | |- wpp (bind peekNextToken _) _ _ [] => apply wpp_peek_nil; [assumption|intros ? ? ?; cbv beta iota]
  | |- wpp (bind peekNextToken _) _ _ (_ :: _) => apply wpp_peek_cons; [assumption|intros ? ? ? ?; cbv beta iota]
  | |- wpp (bind peekNextToken _) _ _ _ =>
      apply wpp_peek_bind; [assumption|intros ? -> ? ?|intros ? ? ? -> ? ? ?]
  | |- wpp (bind checkEOF _) _ _ [] => apply wpp_checkEOF_nil; [assumption|intros ? ? ? ?; cbv beta iota]
  | |- wpp (bind checkEOF _) _ _ (_ :: _) => apply wpp_checkEOF_cons; [assumption|intros ? ? ? ?; cbv beta iota]
  | |- wpp (bind checkEOF _) _ _ _ =>
      apply wpp_checkEOF_bind; [assumption|intros ? -> ? ? ?|intros ? ? ? -> ? ? ?]
  | |- wpp (bind consumeNextToken _) _ _ [] => apply wpp_consume_nil; [assumption..|intros ? ? ?]
  | |- wpp (bind consumeNextToken _) _ _ _ => apply wpp_consume_bind; [assumption|intros ? ? ? ?]
  | |- wpp (bind (tryMatch _) _) _ _ _ =>
      let Hts := fresh "Hts" in apply wpp_tryMatch_bind; [assumption|intros ? ? ? Hts ? ? ? ? ?; next_token Hts|intros ? ? ? ? ?]
  | |- wpp (bind (match_ _) _) _ _ _ =>
      let Hts := fresh "Hts" in apply wpp_match_bind; [assumption|intros ? ? ? Hts ? ? ? ? ?; next_token Hts|intros ? ? ?]
  | |- wpp (bind (end_of_turn _ _) _) _ _ _ => apply wpp_end_of_turn_bind; [assumption|intros ? ? ?|intros ?]
  | |- wpp (bind (in_scope _ _) _) _ _ _ => unfold in_scope at 1; apply wpp_assoc
  | |- wpp (bind (fail _) _) _ _ _ => apply wpp_fail_bind; [assumption|intros ? ? ?]
  | |- wpp (bind (parseErrorT _ _) _) _ _ _ => apply wpp_fail_bind; [assumption|intros ? ? ?]
  | |- wpp (bind (unexpectedTokenError _) _) _ _ _ => apply wpp_fail_bind; [assumption|intros ? ? ?]
  | |- wpp (bind (invalidOrdinalError _) _) _ _ _ => apply wpp_fail_bind; [assumption|intros ? ? ?]
  | |- wpp (bind (parseError _) _) _ _ _ => apply wpp_parseError_bind; [assumption|intros ? ? ?]
  | |- wpp (bind (TypeRef_MarkUsedAsMapKey _) _) _ _ _ =>
      apply wpp_MarkUsedAsMapKey_bind; [assumption|intros ? ? ? ? ?|intros ? ? ? ?]
  | |- wpp (bind (TypeRef_MarkUsedAsConstantType _) _) _ _ _ =>
      apply wpp_MarkUsedAsConstantType_bind; [assumption|intros ? ? ? ? ?|intros ? ? ? ?]
  | |- wpp (bind (if ?b then _ else _) _) _ _ _ => cases b
  | |- wpp (bind (match ?x with _ => _ end) _) _ _ _ => cases x
  | |- wpp (bind _ _) _ _ _ =>
      first
      [ let Hts := fresh "Hts" in eapply wpp_reads_bind;
          [solve [eauto 2 with reads nocore]|assumption|more_fuel|intros ? ? ? ? Hts ? ? ?; read_tokens Hts]
      | apply wpp_quiet_bind; [solve [quiet]|assumption|intros ? ? ? ? ?] ]
  | |- wpp (ret _) _ _ _ => apply wpp_ret; [assumption|pleaf]
  | |- wpp panic _ _ _ => apply wpp_panic
  | Hat : at_tokens ?p _ |- wpp (if metaDataOnlyMode ?p then _ else _) _ _ _ =>
      rewrite (proj1 Hat); cbv iota
  | |- wpp (if ?b then _ else _) _ _ _ => cases b
  | |- wpp (match ?x with _ => _ end) _ _ _ => cases x
  | |- wpp _ _ _ _ => apply wpp_tail
  end.
