(* ===== verification/ParserSpec.v ===== *)
(** * What the parser accepts, and when it stops

    Every method reads a sentence of its production or records an error, and
    runs out of fuel only in front of a comma in the body of an enum.  The
    methods up to the declarations are treated for a parse of everything and
    for one of the metadata alone ([md]); that a sentence was read is stated
    of the first only, since the second discards what it does not parse. *)
From S2P Require Import Lexer.
From S2P Require Export ParserLogic.

Local Open Scope lang_scope.

(** The productions, with types of odd names. *)
#[local] Abbreviation TYPE := (@TYPE misspelt).
#[local] Abbreviation MAP_KEY_TYPE := (@MAP_KEY_TYPE misspelt).
#[local] Abbreviation CONSTANT_DECL := (@CONSTANT_DECL misspelt).
#[local] Abbreviation STRUCT_FIELD := (@STRUCT_FIELD misspelt).
#[local] Abbreviation STRUCT_BODY := (@STRUCT_BODY misspelt).
#[local] Abbreviation STRUCT_DECL := (@STRUCT_DECL misspelt).
#[local] Abbreviation UNION_FIELD_DECL := (@UNION_FIELD_DECL misspelt).
#[local] Abbreviation UNION_DECL := (@UNION_DECL misspelt).
#[local] Abbreviation PARAM_DECL := (@PARAM_DECL misspelt).
#[local] Abbreviation PARAM_LIST := (@PARAM_LIST misspelt).
#[local] Abbreviation METHOD_DECL := (@METHOD_DECL misspelt).
#[local] Abbreviation INTRFC_BODY := (@INTRFC_BODY misspelt).
#[local] Abbreviation INTRFC_DECL := (@INTRFC_DECL misspelt).
#[local] Abbreviation MOJOM_DECL := (@MOJOM_DECL misspelt).
#[local] Abbreviation ATTR_MOJOM_DECL := (@ATTR_MOJOM_DECL misspelt).
#[local] Abbreviation ATTR_MOJOM_FILE := (@ATTR_MOJOM_FILE misspelt).

Section Methods.
Context {S : Type} {TS : TokenStream S} {R : S -> list Token -> Prop} {HR : StreamOf S R} {md : bool}.
#[local] Abbreviation PM := (PM S).
#[local] Abbreviation Parser := (Parser S).
#[local] Abbreviation wpp := (@wpp S R md _).
#[local] Abbreviation at_tokens := (@at_tokens S R md).
#[local] Abbreviation reads := (@reads S _ R md).
Implicit Types (p : Parser) (ts : list Token).

Lemma match_reads n k : reads n (found k) (match_ k).
Proof. intros p ts Hat _. unfold match_. repeat pstep. all: lang. Qed.
Lemma tryMatch_reads n k : reads n (maybe k) (tryMatch k).
Proof. intros p ts Hat _. unfold tryMatch. repeat pstep. all: lang. Qed.
#[local] Hint Resolve match_reads tryMatch_reads : reads.
Lemma matchSemicolonToken_reads n t : reads n (found Semi) (matchSemicolonToken t).
Proof. intros p ts Hat _. unfold matchSemicolonToken. repeat pstep. all: lang. Qed.
Lemma matchSemicolon_reads n : reads n (found Semi) matchSemicolon.
Proof. intros p ts Hat Hn. unfold matchSemicolon. pstep. by apply (matchSemicolonToken_reads n). Qed.
(** A token of a kind with its text. *)
Definition text_of (k : TokenKind) (s : string) : lang :=
  fun u => exists t, u = [t] /\ Kind t = k /\ string_of_bytes (Text t) = s.
Lemma readText_reads n k : reads n (text_of k) (readText k).
Proof.
  intros p ts Hat _. unfold readText. repeat pstep. eexists. split_and!; [done|done|congruence].
Qed.
Lemma text_of_tok k s u : text_of k s u -> tok k u.
Proof. intros (t & -> & Hk & _). by exists t. Qed.
Lemma readName_reads n : reads n (fun _ => tok Name) readName.
Proof.
  intros p ts Hat Hn. unfold readName. pstep. eapply wpp_mono; [by apply (readText_reads n)|].
  intros s p' u r _ _ _ HL Hok. by eapply text_of_tok, HL.
Qed.
#[local] Hint Resolve readText_reads : reads.
Lemma readStringLiteral_reads n : reads n (fun _ => tok StringLiteral) readStringLiteral.
Proof. intros p ts Hat _. unfold readStringLiteral. repeat pstep. all: lang. Qed.
Lemma readOrdinal_reads n : reads n (fun o : option Z => match o with Some _ => ORDINAL | None => any end) readOrdinal.
Proof. intros p ts Hat _. unfold readOrdinal. repeat pstep. all: lang. Qed.
#[local] Hint Resolve readName_reads readStringLiteral_reads readOrdinal_reads matchSemicolonToken_reads
  matchSemicolon_reads : reads.

(** ** Identifiers and literals *)
Lemma identifier_loop_reads n : forall identifier t,
  reads n (fun _ => IDENTIFIER) (identifier_loop n identifier t).
Proof.
  induction n as [|n IH]; intros identifier t p ts Hat Hn; [lia|].
  cbn [identifier_loop]. repeat pstep.
  - apply (sep_by_cons _ _ [_] [_]); lang.
  - apply sep_by_one. lang.
Qed.
#[local] Hint Resolve identifier_loop_reads : reads.
Lemma parseIdentifier_reads n : reads n (fun _ => IDENTIFIER) (parseIdentifier n).
Proof. intros p ts Hat Hn. unfold parseIdentifier. repeat pstep. lang. Qed.

Lemma parsePositiveIntegerLiteral_reads n minus (hex : bool) unsigned bits :
  reads n (some (if hex then POS_INT_LITERAL else tok IntConstDec))
    (parsePositiveIntegerLiteral minus hex unsigned bits).
Proof. intros p ts Hat Hn. unfold parsePositiveIntegerLiteral. repeat pstep. all: try destruct hex; lang. Qed.
Lemma parsePositiveFloatLiteral_reads n minus :
  reads n (fun _ => tok FloatConst) (parsePositiveFloatLiteral minus).
Proof. intros p ts Hat Hn. unfold parsePositiveFloatLiteral. repeat pstep. all: lang. Qed.
#[local] Hint Resolve parseIdentifier_reads parsePositiveIntegerLiteral_reads
  parsePositiveFloatLiteral_reads : reads.
(** What the tokens of a literal say of its type. *)
Definition literal_read (v : LiteralValue) : lang :=
  match valueType v with
  | LitString _ => tok StringLiteral
  | LitSimple SimpleTypeBool => tok True_ ∣ tok False_
  | LitSimple (SimpleTypeFloat | SimpleTypeDouble) => opt (tok Minus ∣ tok Plus) ⋅ tok FloatConst
  | LitSimple _ => INTEGER_LITERAL
  end.
Definition some_literal (o : option LiteralValue) : lang :=
  match o with Some v => literal_read v | None => none end.
Lemma literal_read_LITERAL v u : literal_read v u -> LITERAL_VALUE u.
Proof.
  unfold literal_read, LITERAL_VALUE, NUMBER_LITERAL, INTEGER_LITERAL. destruct (valueType v) as [[]|]; intros Hu; try solve [lang].
  all: try solve [by right; destruct Hu; [left|right; left]].
  all: destruct Hu as (a & b & -> & Ha & Hb); assert ((POS_INT_LITERAL ∣ tok FloatConst) b) by lang; by right; right; right; apply cat_app.
Qed.
Lemma parseNumberLiteral_reads n : reads n some_literal parseNumberLiteral.
Proof.
  intros p ts Hat Hn. unfold parseNumberLiteral. repeat pstep.
  all: cbn [some_literal];
    try match goal with |- literal_read (if ?b then _ else _) _ => destruct b end; unfold literal_read; cbn; lang.
Qed.
#[local] Hint Resolve parseNumberLiteral_reads : reads.
Lemma parseLiteral_reads n : reads n some_literal parseLiteral.
Proof. intros p ts Hat Hn. unfold parseLiteral. repeat pstep. all: try destruct a; cbn in *; lang. Qed.
#[local] Hint Resolve parseLiteral_reads : reads.

(** ** Types *)
(** A method that may find no type says why the next token begins none. *)
Definition type_tried (P : string -> Prop) (o : option (TypeRefOf nat)) (p' : Parser) (used rest : list Token) : Prop :=
  err p' = None ->
  match o with
  | Some t => type_read t used
  | None => used = [] /\ forall t r, rest = t :: r -> Kind t = Name -> P (string_of_bytes (Text t))
  end.
Definition some_type (o : option (TypeRefOf nat)) : lang :=
  match o with Some t => type_read t | None => none end.
Lemma known_iff P : known P -> P.
Proof. by intros []. Qed.
Ltac unknown := repeat match goal with H : known _ |- _ => apply known_iff in H end.
(** The next token is none of the names that a type begins with. *)
Ltac no_type := split; [done|]; intros ? ? [= <- <-] ?; unknown;
  first [congruence | intros ?; match goal with H : (_ || _)%bool = true |- _ => apply orb_prop in H as [H|H]; apply negb_true_iff, bool_decide_eq_false in H; by apply H end].
Lemma tryParseBuiltInType_reads p ts :
  at_tokens p ts -> wpp tryParseBuiltInType (type_tried (fun s => BuiltInType_named s = None)) p ts.
Proof.
  intros Hat. assert (length ts < Datatypes.S (length ts))%nat as Hn by lia.
  unfold tryParseBuiltInType. repeat pstep.
  all: intros Hok; no_error; norm_bool; try done; try no_type.
  all: unknown; eauto using built_in_read, built_in_nullable, handle_read, handle_nullable_read.
Qed.
Lemma tryParseArrayType_reads n (parse : PM (option (TypeRefOf nat))) p ts :
  reads n some_type parse -> at_tokens p ts -> (length ts < Datatypes.S n)%nat ->
  wpp (tryParseArrayType parse) (type_tried (fun s => s <> "array")) p ts.
Proof.
  intros Hparse Hat Hn. unfold tryParseArrayType. repeat pstep.
  all: intros Hok; no_error; norm_bool; try done; try no_type.
  all: assert (word "array" [t]) by (by apply word_one); subst; cbn [some_type some] in *; assert (TYPE used) by (by eapply type_read_TYPE).
  all: apply TYPE_array; lang.
Qed.
Lemma tryParseMapType_reads n (parse : PM (option (TypeRefOf nat))) p ts :
  reads n some_type parse -> at_tokens p ts -> (length ts < Datatypes.S n)%nat ->
  wpp (tryParseMapType parse) (type_tried (fun s => s <> "map")) p ts.
Proof.
  intros Hparse Hat Hn. unfold tryParseMapType. repeat pstep.
  all: intros Hok; no_error; norm_bool; try done; try no_type.
  all: assert (word "map" [t]) by (by apply word_one); subst; cbn [some_type some] in *;
    assert (TYPE used0) by (by eapply type_read_TYPE); assert (MAP_KEY_TYPE used) by (by eapply type_read_key).
  all: apply TYPE_map; lang.
Qed.
Lemma IDENTIFIER_cons u : IDENTIFIER u -> exists t v, u = t :: v.
Proof. intros (a & v & -> & (t & -> & _) & _). by eexists _, _. Qed.
Lemma user_type_read u v r :
  IDENTIFIER u -> (opt (tok Amp) ⋅ opt (tok Qstn)) v ->
  (forall t r', u ++ r = t :: r' -> Kind t = Name -> string_of_bytes (Text t) ∉ reserved_types) ->
  USER_TYPE_REF (u ++ v).
Proof.
  intros Hu Hv Hres. split; [by apply cat_app|]. destruct (IDENTIFIER_cons u Hu) as (t & u' & ->).
  intros (a & b & Heq & (t' & -> & Hk & Hin) & _). injection Heq as -> _. by apply (Hres t' _ eq_refl Hk).
Qed.
Lemma parseTypeReference_reads n p ts :
  at_tokens p ts -> (length ts < n)%nat ->
  (err p = None -> forall t r, ts = t :: r -> Kind t = Name -> string_of_bytes (Text t) ∉ reserved_types) ->
  wpp (parseTypeReference n) (sound some_type) p ts.
Proof.
  intros Hat Hn Hres. unfold parseTypeReference. repeat pstep.
  all: eapply user_type_read; [done|lang|eassumption].
Qed.
(** One of the attempts of [parseType]; the next ones run when it finds no type. *)
Lemma wpp_attempt P (m k : PM (option (TypeRefOf nat))) p ts :
  wpp m (type_tried P) p ts ->
  (forall p', at_tokens p' ts -> (err p' = None -> err p = None) ->
     (err p' = None -> forall t r, ts = t :: r -> Kind t = Name -> P (string_of_bytes (Text t))) ->
     wpp k (sound some_type) p' ts) ->
  (forall p' u r, ts = u ++ r -> at_tokens p' r -> follows p p' u -> err p' <> None -> 
     wpp k (fun _ p2 _ _ => err p2 <> None) p' r) ->
  wpp (bind m (fun t => match t with Some _ => ret t | None => k end)) (sound some_type) p ts.
Proof.
  intros Hm Hk He. eapply wpp_bind; [done|]. intros [t|] p1 u r -> Hat Hf H1.
  - apply wpp_ret; [done|]. by rewrite app_nil_r.
  - destruct (err p1) as [e|] eqn:E.
    + eapply wpp_mono; [apply (He p1 u r); congruence || done|]. cbn beta. by intros a p2 u2 r2 _ _ _ H2 Hok.
    + destruct (H1 E) as [-> HP]. apply Hk; [done| |]; intros Hok; [by destruct (Hf Hok)|done].
Qed.
Lemma parseType_reads n : reads n some_type (parseType n).
Proof.
  induction n as [|n IH]; intros p ts Hat Hn; [lia|]. cbn [parseType]. pstep.
  apply (wpp_attempt _ _ _ _ _ (tryParseBuiltInType_reads _ _ Hat)); [intros p1 Hat1 _ HP1|];
    [|intros; unfold tryParseArrayType, tryParseMapType, parseTypeReference; by repeat pstep].
  apply (wpp_attempt _ _ _ _ _ (tryParseArrayType_reads _ _ _ _ IH Hat1 Hn)); [intros p2 Hat2 He2 HP2|];
    [|intros; unfold tryParseMapType, parseTypeReference; by repeat pstep].
  apply (wpp_attempt _ _ _ _ _ (tryParseMapType_reads _ _ _ _ IH Hat2 Hn)); [intros p3 Hat3 He3 HP3|];
    [|intros; unfold parseTypeReference; by repeat pstep].
  apply parseTypeReference_reads; [done..|]. intros Hok t r -> Hk.
  apply not_built_in; [eapply HP1|eapply HP2|eapply HP3]; eauto.
Qed.
#[local] Hint Resolve parseType_reads : reads.
Lemma some_type_TYPE o u : some_type o u -> some TYPE o u.
Proof. destruct o; [apply type_read_TYPE|done]. Qed.

(** ** Values *)
Lemma parseUserValueRef_reads n spec : reads n (some IDENTIFIER) (parseUserValueRef n spec).
Proof. intros p ts Hat Hn. unfold parseUserValueRef. repeat pstep. all: lang. Qed.
#[local] Hint Resolve parseUserValueRef_reads : reads.
(** What the tokens of a value say of it. *)
Definition value_read (v : ValueRef) : lang :=
  match v with VRUser _ => IDENTIFIER | VRLiteral v => literal_read v end.
Lemma value_read_VALUE_REF v u : value_read v u -> VALUE_REF u.
Proof. destruct v; intros Hu; [apply literal_read_LITERAL in Hu|]; unfold VALUE_REF; lang. Qed.
Lemma parseValue_reads n spec :
  reads n (fun r => match r with AValue v => value_read v | _ => none end) (parseValue n spec).
Proof. intros p ts Hat Hn. unfold parseValue. repeat pstep. all: destruct a; first [done|lang]. Qed.
#[local] Hint Resolve parseValue_reads : reads.
(** Forgets which type, value or literal was read. *)
Lemma some_literal_LITERAL o u : some_literal o u -> some LITERAL_VALUE o u.
Proof. destruct o; [apply literal_read_LITERAL|done]. Qed.
Ltac forget :=
  repeat match goal with
  | H : some_type _ _ |- _ => apply some_type_TYPE in H
  | H : some_literal _ _ |- _ => apply some_literal_LITERAL in H
  | H : type_read _ _ |- _ => apply type_read_TYPE in H
  | H : value_read _ _ |- _ => apply value_read_VALUE_REF in H
  end.
Ltac reading := forget; results; lang.

(** ** Attributes *)
Definition attributes_rest (nextToken : Token) : lang :=
  if bool_decide (Kind nextToken = RBracket) then nothing
  else sep_by (tok Comma) ATTR_ASSIGNMENT ⋅ tok RBracket.
Lemma attributes_step u e v c w :
  tok Name u -> Kind e = Equals -> (tok Name ∣ LITERAL_VALUE) v ->
  Kind c = Comma \/ Kind c = RBracket -> attributes_rest c w ->
  (sep_by (tok Comma) ATTR_ASSIGNMENT ⋅ tok RBracket) (u ++ e :: v ++ c :: w).
Proof.
  intros Hu He Hv Hc Hw. assert (ATTR_ASSIGNMENT (u ++ e :: v)) as Ha by lang.
  change (e :: v ++ c :: w) with ((e :: v) ++ c :: w). rewrite app_assoc.
  unfold attributes_rest in Hw. destruct Hc as [Hc|Hc]; rewrite Hc in Hw; cbn in Hw.
  - destruct Hw as (x & y & -> & Hx & Hy). change (c :: x ++ y) with ([c] ++ x ++ y).
    rewrite (app_assoc [c]), app_assoc. apply cat_app; [|done]. apply sep_by_cons; [done|lang|done].
  - rewrite Hw. apply cat_app; [by apply sep_by_one|lang].
Qed.
Lemma attributes_loop_reads n : forall attributes t,
  reads n (fun _ => attributes_rest t) (attributes_loop n attributes t).
Proof.
  induction n as [|n IH]; intros attributes t p ts Hat Hn; [lia|].
  unfold attributes_rest. cbn [attributes_loop]. repeat pstep.
  all: rewrite app_nil_r; subst; forget; cbn [some] in *; apply attributes_step; eauto; lang.
Qed.
#[local] Hint Resolve attributes_loop_reads : reads.
Lemma attributes_open t u : Kind t = LBracket -> attributes_rest t u -> ATTRIBUTES (t :: u).
Proof. intros Ht. unfold attributes_rest. rewrite Ht. intros Hu. apply (cat_app _ _ [t]); [lang|exact Hu]. Qed.
Lemma parseAttributes_reads n : reads n (tried ATTRIBUTES) (parseAttributes n).
Proof.
  intros p ts Hat Hn. unfold parseAttributes. repeat pstep.
  rewrite app_nil_r. apply attributes_open; congruence.
Qed.
#[local] Hint Resolve parseAttributes_reads : reads.

(** ** Bodies *)
(** What is left to read once the attributes of the next item are read. *)
Definition after_attributes (attributes : option Attributes) (L : lang) : lang :=
  fun u => forall a, tried ATTRIBUTES attributes a -> L (a ++ u).
Definition turn_reads (item : lang) (attributes : option Attributes) (r : option bool)
    (p' : Parser) (used rest : list Token) : Prop :=
  match r with
  | None => err p' <> None
  | Some true =>
    err p' = None -> attributes = None /\ used = [] /\ exists t r, rest = t :: r /\ Kind t = RBrace
  | Some false => used ++ rest <> [] /\ (err p' = None -> item used)
  end.
Lemma ATTRIBUTES_cons u : ATTRIBUTES u -> exists t v, u = t :: v /\ Kind t = LBracket.
Proof. intros (x & y & -> & (t & -> & Ht) & _). by exists t, y. Qed.
Lemma no_attributes (a : option Attributes) t r u v :
  tried ATTRIBUTES a u -> t :: r = u ++ v -> Kind t <> LBracket -> u = [].
Proof.
  destruct a as [a|]; [|done]. intros (t' & w & -> & Hk)%ATTRIBUTES_cons [= -> _] Ht. done.
Qed.
(** Solves what a turn has to show. *)
Ltac turn_leaf :=
  cbn [turn_reads];
  first
  [ intros; split; [done|]; split; [done|]; by eexists _, _
  | split;
    [ intros Hnil; apply (f_equal length) in Hnil; more_fuel
    | intros ?Hok; no_error; norm_bool; reading ]
  | intros ?Hok; exfalso; no_error; norm_bool; by results ].
Lemma body_loop_reads fuel item turn :
  proper item ->
  (forall attributes p ts, at_tokens p ts -> (length ts < fuel)%nat ->
     wpp (turn attributes) (turn_reads item attributes) p ts) ->
  forall n attributes p ts, at_tokens p ts -> (length ts < fuel)%nat ->
    (1 <= n)%nat -> (err p = None -> (length ts < n)%nat) ->
    wpp (body_loop n fuel turn attributes)
      (fun r p' used rest =>
         if r then err p' = None -> after_attributes attributes (star (attributed item)) used
         else err p' <> None) p ts.
Proof.
  intros Hne Hturn. induction n as [|n IH]; intros attributes p ts Hat Hfuel Hn Hlen; [lia|].
  cbn [body_loop]. pstep. eapply wpp_bind; [by apply Hturn|].
  intros [[]|] p1 used rest -> Hat1 Hf1 Hstep; cbn [turn_reads] in Hstep; [| |by pstep].
  - repeat pstep. cbn beta. intros Hok. no_error. destruct Hstep as (-> & -> & t & r & Hr & Ht).
    rewrite (no_attributes a t r used0 rest0) by (done || by rewrite Ht).
    intros b ->. constructor.
  - pstep. destruct Hstep as [Hne1 Hstep]. eapply wpp_mono.
    + apply IH; [done|rewrite !length_app in *; lia|..].
      * destruct (used ++ used0 ++ rest0) eqn:E; [done|]. cbn [length] in *. specialize (Hlen H). lia.
      * intros Hok. no_error. assert (used <> []) as Hu by (intros ->; by apply Hne, Hstep).
        destruct used; [done|]. cbn [length app] in *. rewrite !length_app in *. lia.
    + cbn beta. intros [] p2 u r Hts2 _ Hf2 HQ; [|done]. intros Hok. no_error.
      intros b Hb. rewrite app_assoc. apply star_cons; [|by apply HQ].
      destruct attributes; [by apply cat_take, cat_app; auto|rewrite Hb; by apply cat_skip; auto].
Qed.

Lemma wpp_body {B} n item turn (k : bool -> PM B) Q p ts :
  proper item ->
  (forall attributes p ts, at_tokens p ts -> (length ts < n)%nat ->
     wpp (turn attributes) (turn_reads item attributes) p ts) ->
  at_tokens p ts -> (length ts < n)%nat ->
  (forall p' used rest, ts = used ++ rest -> at_tokens p' rest -> follows p p' used ->
     (err p' = None -> star (attributed item) used) ->
     wpp (k true) (fun b p2 u2 r2 => Q b p2 (used ++ u2) r2) p' rest) ->
  (forall p' used rest, ts = used ++ rest -> at_tokens p' rest -> err p' <> None ->
     wpp (k false) (fun b p2 u2 r2 => Q b p2 (used ++ u2) r2) p' rest) ->
  wpp (bind (parseAttributes n) (fun a => bind (body_loop n n turn a) k)) Q p ts.
Proof.
  intros Hne Hturn Hat Hn Ht Hf. apply wpp_regroup.
  eapply (wpp_bind _ _ _ (fun (r : bool) p' used rest =>
    if r then err p' = None -> star (attributed item) used else err p' <> None)).
  - pstep. eapply wpp_mono; [eapply body_loop_reads; eauto; more_fuel|].
    cbn beta. intros [] p' u r _ _ Hf' HQ; [|done]. intros Hok. no_error. by apply HQ.
  - intros [] p' u r Hts Hat' Hf' HQ; [by apply Ht|by apply Hf].
Qed.

(** ** Constants *)
Lemma parseConstDecl_reads n attributes : reads n (some CONSTANT_DECL) (parseConstDecl n attributes).
Proof.
  intros p ts Hat Hn. unfold parseConstDecl. repeat pstep. subst; cbn [some_type] in *.
  match goal with H : type_read _ _, K : key_type _ = true |- _ => apply (type_read_key _ _ H) in K end. reading.
Qed.
#[local] Hint Resolve parseConstDecl_reads : reads.

(** ** Enums *)
Lemma tok_length k u : tok k u -> length u = 1%nat.
Proof. by intros (t & -> & _). Qed.
Ltac lengths := repeat match goal with H : tok _ ?u |- _ => apply tok_length in H end.
(** A loop that sees a comma sees it again. *)
Definition same_place p p' : Prop := err p' = None /\ lastConsumed p' = lastConsumed p.
Lemma next_available_runs p t r :
  at_tokens p (t :: r) ->
  exists p', next_available p = (p', Ok t) /\ at_tokens p' (t :: r) /\ err p' = err p /\
    lastConsumed p' = lastConsumed p.
Proof.
  intros (Hm & Hd & Hs & Hne). unfold next_available, bind, get, stream_peek. rewrite Hd.
  destruct (PeekNext_of _ _ Hs) as [Hs' Ht].
  destruct (PeekNext (inputStream p)) as [s t']. cbn [fst snd head] in *. subst t'.
  by eexists.
Qed.
Lemma peek_runs p t r :
  at_tokens p (t :: r) -> err p = None ->
  exists p', peekNextToken p = (p', Ok t) /\ at_tokens p' (t :: r) /\ same_place p p'.
Proof.
  intros Hat He. destruct (next_available_runs _ _ _ Hat) as (p1 & Hp1 & Hat1 & He1 & Hl1).
  exists (set_lastSeen t p1). split; [|split; [done|split; cbn; congruence]].
  unfold peekNextToken. rewrite (bind_run_ok _ _ _ _ _ Hp1). by rewrite (proj1 (at_cons _ _ _ Hat)).
Qed.
Lemma checkEOF_runs p t r :
  at_tokens p (t :: r) -> err p = None ->
  exists p', checkEOF p = (p', Ok false) /\ at_tokens p' (t :: r) /\ same_place p p'.
Proof.
  intros Hat He. destruct (next_available_runs _ _ _ Hat) as (p1 & Hp1 & Hat1 & He1 & Hl1).
  exists (set_lastSeen t p1). split; [|split; [done|split; cbn; congruence]].
  unfold checkEOF. rewrite (bind_run_ok _ _ _ _ _ Hp1). unfold bind, modify, ret.
  by rewrite (proj1 (at_cons _ _ _ Hat)).
Qed.
Lemma unless_runs {A} (d : A) (k : PM A) p : err p = None -> unless_err d k p = k p.
Proof. intros He. unfold unless_err, bind, OK, is_ok. by rewrite He. Qed.
Lemma parseAttributes_runs n p t r :
  at_tokens p (t :: r) -> err p = None -> Kind t <> LBracket ->
  exists p', parseAttributes n p = (p', Ok None) /\ at_tokens p' (t :: r) /\ same_place p p'.
Proof.
  intros Hat He Ht. destruct (checkEOF_runs _ _ _ Hat He) as (p1 & Hp1 & Hat1 & He1 & Hl1).
  destruct (peek_runs _ _ _ Hat1 He1) as (p2 & Hp2 & Hat2 & He2 & Hl2).
  exists p2. split; [|split; [done|split; congruence]].
  unfold parseAttributes, tryMatch. rewrite unless_runs by done. unfold bind at 1.
  rewrite (bind_run_ok _ _ _ _ _ Hp1). cbv beta iota. rewrite unless_runs by done.
  rewrite (bind_run_ok _ _ _ _ _ Hp2). by rewrite bool_decide_eq_false_2.
Qed.
Lemma enum_comma_stuck n fuel e : forall trailing first attributes p t r,
  at_tokens p (t :: r) -> err p = None -> Kind t = Comma ->
  exists p', enum_loop n fuel e trailing first attributes p = (p', Err NoFuel) /\
    at_tokens p' (t :: r) /\ same_place p p'.
Proof.
  induction n as [|n IH]; intros trailing first attributes p t r Hat He Ht; [by exists p|].
  destruct (peek_runs _ _ _ Hat He) as (p1 & Hp1 & Hat1 & He1 & Hl1).
  destruct (parseAttributes_runs fuel _ _ _ Hat1 He1) as (p2 & Hp2 & Hat2 & He2 & Hl2); [by rewrite Ht|].
  destruct (IH trailing first None _ _ _ Hat2 He2 Ht) as (p3 & Hp3 & Hat3 & He3 & Hl3).
  exists p3. split; [|split; [done|split; congruence]].
  cbn [enum_loop]. rewrite unless_runs by done.
  rewrite (bind_run_ok _ _ _ _ _ Hp1), Ht.
  rewrite (bind_run_ok _ _ p1 p1 (Some false)) by done.
  by rewrite (bind_run_ok _ _ _ _ _ Hp2).
Qed.
Lemma initializer_integer v u :
  MarkUsedAsEnumValueInitializer v = Some true -> literal_read v u -> INTEGER_LITERAL u.
Proof.
  unfold MarkUsedAsEnumValueInitializer, int32Value, int64Value, literal_read.
  by destruct (valueType v) as [[]|].
Qed.
Lemma parseEnumValueInitializer_reads n e name :
  reads n (some ENUM_VAL_INITIALIZER) (parseEnumValueInitializer n e name).
Proof.
  intros p ts Hat Hn. unfold parseEnumValueInitializer. repeat pstep.
  all: cbn [value_read] in *; try match goal with
    H : literal_read _ _, K : MarkUsedAsEnumValueInitializer _ = _ |- _ => apply (initializer_integer _ _ K) in H end.
  all: lang.
Qed.
#[local] Hint Resolve parseEnumValueInitializer_reads : reads.
(** What may follow the values of an enum read so far. *)
Definition enum_rest (trailingCommaFound firstValue : bool) : lang :=
  if trailingCommaFound || firstValue then ENUM_BODY else nothing.
Lemma enum_rest_nil trailing first : enum_rest trailing first [].
Proof. unfold enum_rest. destruct (trailing || first); [apply opt_nil|done]. Qed.
Lemma enum_loop_comma n fuel e trailing first attributes Q p t r :
  at_tokens p (t :: r) -> err p = None -> Kind t = Comma -> Kind (lastConsumed p) ∈ before_comma ->
  wpp (enum_loop n fuel e trailing first attributes) Q p (t :: r).
Proof.
  intros Hat He Ht Hl.
  destruct (enum_comma_stuck n fuel e trailing first attributes p t r Hat He Ht) as (p' & Hp' & Hat' & He' & Hl').
  unfold ParserLogic.wpp. rewrite Hp'. exists [], t, r. split_and!; try done. by rewrite Hl'.
Qed.
Definition enum_reads (fuel e n : nat) : Prop := forall trailing first attributes p ts,
  at_tokens p ts -> (length ts < fuel)%nat ->
  (1 <= n)%nat -> (err p = None -> (length ts < n)%nat) ->
  (err p = None -> forall t r, ts = t :: r -> Kind t = Comma -> Kind (lastConsumed p) ∈ before_comma) ->
  wpp (enum_loop n fuel e trailing first attributes)
    (fun r p' used rest =>
       if r then err p' = None -> after_attributes attributes (enum_rest trailing first) used
       else err p' <> None) p ts.
Lemma ATTRIBUTES_last u : ATTRIBUTES u -> exists t, last u = Some t /\ Kind t = RBracket.
Proof.
  intros (x & y & -> & _ & z & w & -> & _ & (t & -> & Ht)). exists t. by rewrite !last_app.
Qed.
Lemma before_comma_in k : k = LBrace \/ k = Comma \/ k = RBracket -> k ∈ before_comma.
Proof. unfold before_comma. rewrite !elem_of_cons. tauto. Qed.
(** The turns that are left. *)
Lemma enum_next fuel e n trailing first p ts :
  enum_reads fuel e n ->
  at_tokens p ts -> (length ts < fuel)%nat -> (1 <= n)%nat -> (err p = None -> (length ts < n)%nat) ->
  (err p = None ->
     Kind (lastConsumed p) ∈ before_comma \/ forall t r, ts = t :: r -> Kind t <> Comma) ->
  wpp (bind (parseAttributes fuel) (enum_loop n fuel e trailing first))
    (fun r p' used rest =>
       if r then err p' = None -> enum_rest trailing first used else err p' <> None) p ts.
Proof.
  intros IH Hat Hfuel Hn Hlen Hcomma. pstep. eapply wpp_mono.
  - apply IH; [done|rewrite length_app in *; lia|done|..].
    + intros Hok. no_error. rewrite length_app in *. lia.
    + intros Hok t r -> Ht. no_error.
      match goal with H : lastConsumed _ = _ |- _ => rewrite H end.
      destruct a as [l|]; cbn [tried] in *.
      * match goal with H : ATTRIBUTES _ |- _ => destruct (ATTRIBUTES_last _ H) as (t' & -> & Ht') end.
        cbn. apply before_comma_in. auto.
      * match goal with H : nothing _ |- _ => rewrite H in * end. cbn. destruct Hcomma as [Hl|Hne]; [done|].
        by destruct (Hne t r).
  - cbn beta. intros [] p2 u r Hts _ Hf2 HQ; [|done]. intros Hok. no_error. by apply HQ.
Qed.
Lemma enum_value_step attributes trailing first s v w :
  s = v ++ w ->
  negb first && negb trailing = false -> (tok Name ⋅ opt (tok Equals ⋅ ENUM_VAL_INITIALIZER)) v ->
  w = [] \/ (exists c w', w = c :: w' /\ Kind c = Comma /\ ENUM_BODY w') ->
  after_attributes attributes (enum_rest trailing first) s.
Proof.
  intros -> Hflags Hv Hw a Ha. unfold enum_rest. replace (trailing || first) with true by (by destruct trailing, first).
  rewrite app_assoc. assert (ENUM_VALUE (a ++ v)) as Hav.
  { destruct attributes; [by apply cat_app; [right|]|rewrite Ha; by apply cat_skip]. }
  right. destruct Hw as [->|(c & w' & -> & Hc & [->|(x & y & -> & Hx & Hy)])].
  - apply cat_app; [by apply sep_by_one|lang].
  - apply cat_app; [by apply sep_by_one|lang].
  - change (c :: x ++ y) with ([c] ++ x ++ y). rewrite (app_assoc [c]), app_assoc.
    apply cat_app; [|done]. apply sep_by_cons; [done|lang|done].
Qed.
Lemma enum_loop_reads fuel e n : enum_reads fuel e n.
Proof.
  induction n as [|n IH]; intros trailing first attributes p ts Hat Hfuel Hn Hlen Hk; [lia|].
  destruct (err p) as [x|] eqn:He.
  { cbn [enum_loop]. apply wpp_unless; congruence || done. }
  specialize (Hlen eq_refl). specialize (Hk eq_refl). destruct ts as [|t r].
  { cbn [enum_loop]. repeat pstep. }
  specialize (Hk t r eq_refl). destruct (decide (Kind t = Comma)) as [Ht|Ht].
  { apply enum_loop_comma; auto. }
  cbn [enum_loop]. pstep. pstep. cbv zeta. cases (Kind t); try done; try solve [repeat pstep].
  - unfold brace_found. repeat pstep; intros Hok; no_error; try done.
    rewrite (no_attributes _ _ _ _ _ H6 Hts) by (by rewrite Heqt0). intros ? ->. apply enum_rest_nil.
  - repeat lazymatch goal with |- wpp (bind (parseAttributes _) _) _ _ _ => fail | _ => pstep end.
    all: eapply wpp_mono; [apply enum_next; [done|done|more_fuel|..]|].
    all: try solve [more_fuel | intros _; left; apply before_comma_in; right; left; congruence | by intros; subst | intros ?; right; no_error; eauto
                   | intros ?Hok; no_error; lengths; more_fuel].
    all: cbn beta; intros [] p4 u r4 Hts4 _ Hf4 HQ; [|done]; intros Hok; no_error; results.
    all: lazymatch goal with
         | _ : Kind ?c = Comma |- after_attributes _ _ (?x ++ ?e :: ?y ++ ?c :: ?z) =>
             apply (enum_value_step _ _ _ _ (x ++ e :: y) (c :: z))
         | _ : Kind ?c = Comma |- after_attributes _ _ (?x ++ ?c :: ?z) =>
             apply (enum_value_step _ _ _ _ x (c :: z))
         | |- after_attributes _ _ (?x ++ ?e :: ?y ++ ?z) =>
             apply (enum_value_step _ _ _ _ (x ++ e :: y) z)
         | |- after_attributes _ _ (?x ++ ?z) => apply (enum_value_step _ _ _ _ x z)
         end; first [done | by rewrite <- app_assoc | lang | by left | right; by eexists _, _ ].
Qed.
#[local] Hint Resolve enum_loop_reads : reads.
Lemma parseEnumBody_reads n e p ts :
  at_tokens p ts -> (length ts < n)%nat -> Kind (lastConsumed p) = LBrace ->
  wpp (parseEnumBody n e) (sound (ok_reads ENUM_BODY)) p ts.
Proof.
  intros Hat Hn Hl. unfold parseEnumBody. do 6 pstep. apply wpp_assoc.
  eapply (wpp_ext _ (bind (bind (parseAttributes n) (enum_loop n n e false true))
    (fun finished => bind (if finished then OK else ret false)
       (fun r => bind (bind popScope (fun _ => ret r)) ret)))).
  { unfold bind. destruct (parseAttributes n p'0) as [p1 [a1|?|]]; [|done..].
    by destruct (enum_loop n n e false true a1 p1) as [? [|?|]]. }
  eapply wpp_bind.
  - apply enum_next; [apply enum_loop_reads|done|done|lia|done|].
    intros _. left. apply before_comma_in. left. congruence.
  - intros [] p1 used rest -> Hat1 Hf1 HQ; cbv beta iota; [|repeat pstep].
    repeat pstep. cbn [ok_reads]. rewrite app_nil_r. by apply HQ.
Qed.
Lemma parseEnumDecl_reads n attributes : reads n (some ENUM_DECL) (parseEnumDecl n attributes).
Proof.
  intros p ts Hat Hn. unfold parseEnumDecl. repeat pstep.
  eapply wpp_bind; [apply parseEnumBody_reads; [done|more_fuel|congruence]|].
  intros ok p4 u r4 -> Hat4 Hf4 Hbody. repeat pstep. reading.
Qed.
#[local] Hint Resolve parseEnumDecl_reads : reads.

(** ** Structs *)
Lemma parseStructField_reads n attributes : reads n (some STRUCT_FIELD) (parseStructField n attributes).
Proof. intros p ts Hat Hn. unfold parseStructField. repeat pstep. all: reading. Qed.
#[local] Hint Resolve parseStructField_reads : reads.
Lemma struct_turn_reads n s attributes p ts :
  at_tokens p ts -> (length ts < n)%nat ->
  wpp (struct_turn n s attributes) (turn_reads (STRUCT_FIELD ∣ ENUM_DECL ∣ CONSTANT_DECL) attributes) p ts.
Proof.
  intros Hat Hn. unfold struct_turn, nested_enum, nested_constant, brace_found. repeat pstep.
  all: turn_leaf.
Qed.
Lemma struct_item_proper : proper (STRUCT_FIELD ∣ ENUM_DECL ∣ CONSTANT_DECL).
Proof. unfold STRUCT_FIELD, ENUM_DECL, CONSTANT_DECL. auto with proper. Qed.
Lemma parseStructBody_reads n s : reads n (ok_reads STRUCT_BODY) (parseStructBody n s).
Proof.
  intros p ts Hat Hn. unfold parseStructBody. do 6 pstep. apply wpp_assoc, wpp_assoc_in.
  eapply wpp_body; [apply struct_item_proper|intros; by apply struct_turn_reads|done|done|..];
    intros; unfold then_ordinals; repeat pstep.
  cbn [ok_reads]. lang.
Qed.
#[local] Hint Resolve parseStructBody_reads : reads.
Lemma parseStructDecl_reads n attributes : reads n (some STRUCT_DECL) (parseStructDecl n attributes).
Proof. intros p ts Hat Hn. unfold parseStructDecl. repeat pstep. reading. Qed.
#[local] Hint Resolve parseStructDecl_reads : reads.

(** ** Interfaces *)
Definition params_rest (nextToken : Token) : lang :=
  if bool_decide (Kind nextToken = RParen) then nothing else sep_by (tok Comma) PARAM_DECL.
Lemma params_step a b c d t u :
  PARAM_DECL (a ++ b ++ c ++ d) -> params_rest t u ->
  (Kind t = RParen -> sep_by (tok Comma) PARAM_DECL (a ++ b ++ c ++ d ++ u ++ [])) /\
  (Kind t = Comma -> sep_by (tok Comma) PARAM_DECL (a ++ b ++ c ++ d ++ t :: u ++ [])).
Proof.
  intros Ha Hu. unfold params_rest in Hu. rewrite app_nil_r. split; intros Ht; rewrite Ht in Hu; cbn in Hu.
  - rewrite Hu, app_nil_r. by apply sep_by_one.
  - assert (a ++ b ++ c ++ d ++ t :: u = (a ++ b ++ c ++ d) ++ [t] ++ u) as -> by (by rewrite <- !app_assoc).
    apply sep_by_cons; [done|lang|done].
Qed.
Definition params_lang (L : lang) (r : option (MojomStruct nat) * bool) : lang :=
  match r with (Some _, true) => L | _ => none end.
Lemma params_loop_reads fuel n : forall s t,
  (n <= fuel)%nat -> reads n (params_lang (params_rest t)) (params_loop n fuel s t).
Proof.
  induction n as [|n IH]; intros s t Hfuel p ts Hat Hn; [lia|].
  unfold params_rest. cbn [params_loop]. repeat pstep.
  all: eapply wpp_reads_bind; [apply IH; lia|done|no_error; lengths; more_fuel|];
    intros [[m1|] []] p4 u r4 Hts Hat4 Hf4 HL; repeat pstep.
  all: cbn [params_lang] in *; subst; cbn [some_type] in *; forget; results; assert (PARAM_DECL (used ++ used0 ++ used1 ++ used2)) by lang;
    eapply params_step; done.
Qed.
Definition params_reads n s t := params_loop_reads n n s t (le_n n).
#[local] Hint Resolve params_reads : reads.
Lemma params_rest_list t u : params_rest t u -> PARAM_LIST u.
Proof. unfold params_rest. case_bool_decide; intros Hu; [by left|by right]. Qed.
Lemma parseParamList_reads n name isRequest : reads n (some PARAM_LIST) (parseParamList n name isRequest).
Proof.
  intros p ts Hat Hn. unfold parseParamList. repeat pstep.
  all: rewrite app_nil_r; by eapply params_rest_list.
Qed.
#[local] Hint Resolve parseParamList_reads : reads.
Lemma parseMethodDecl_reads n attributes : reads n (some METHOD_DECL) (parseMethodDecl n attributes).
Proof. intros p ts Hat Hn. unfold parseMethodDecl. repeat pstep. all: reading. Qed.
#[local] Hint Resolve parseMethodDecl_reads : reads.
Lemma interface_turn_reads n i attributes p ts :
  at_tokens p ts -> (length ts < n)%nat ->
  wpp (interface_turn n i attributes) (turn_reads (METHOD_DECL ∣ ENUM_DECL ∣ CONSTANT_DECL) attributes) p ts.
Proof.
  intros Hat Hn. unfold interface_turn, nested_enum, nested_constant, brace_found. repeat pstep.
  all: turn_leaf.
Qed.
Lemma interface_item_proper : proper (METHOD_DECL ∣ ENUM_DECL ∣ CONSTANT_DECL).
Proof. unfold METHOD_DECL, ENUM_DECL, CONSTANT_DECL. auto with proper. Qed.
Lemma parseInterfaceBody_reads n i : reads n (ok_reads INTRFC_BODY) (parseInterfaceBody n i).
Proof.
  intros p ts Hat Hn. unfold parseInterfaceBody. do 6 pstep. apply wpp_assoc, wpp_assoc_in.
  eapply wpp_body; [apply interface_item_proper|intros; by apply interface_turn_reads|done|done|..];
    intros; unfold then_ordinals; repeat pstep.
  cbn [ok_reads]. lang.
Qed.
#[local] Hint Resolve parseInterfaceBody_reads : reads.
Lemma parseInterfaceDecl_reads n attributes : reads n (some INTRFC_DECL) (parseInterfaceDecl n attributes).
Proof. intros p ts Hat Hn. unfold parseInterfaceDecl. repeat pstep. reading. Qed.

(** ** Unions *)
Lemma union_turn_reads n u attributes p ts :
  at_tokens p ts -> (length ts < n)%nat ->
  wpp (union_turn n u attributes) (turn_reads (TYPE ⋅ tok Name ⋅ ORDINAL ⋅ tok Semi) attributes) p ts.
Proof.
  intros Hat Hn. unfold union_turn, brace_found. repeat pstep.
  all: turn_leaf.
Qed.
Lemma parseUnionBody_reads n u : reads n (ok_reads (star UNION_FIELD_DECL)) (parseUnionBody n u).
Proof.
  intros p ts Hat Hn. unfold parseUnionBody. pstep.
  eapply (wpp_body n (TYPE ⋅ tok Name ⋅ ORDINAL ⋅ tok Semi)); [auto with proper|intros; by apply union_turn_reads|done|done|..];
    intros; repeat pstep.
  cbn [ok_reads]. lang.
Qed.
#[local] Hint Resolve parseUnionBody_reads : reads.
Lemma parseUnionDecl_reads n attributes : reads n (some UNION_DECL) (parseUnionDecl n attributes).
Proof. intros p ts Hat Hn. unfold parseUnionDecl. repeat pstep. reading. Qed.
#[local] Hint Resolve parseInterfaceDecl_reads parseUnionDecl_reads : reads.

(** ** Files *)
(** An identifier of no characters is none, also when it was read. *)
Definition module_read (moduleNamespace : string) : lang :=
  if bool_decide (moduleNamespace = "") then opt MODULE_DECL else MODULE_DECL.
Lemma module_read_some ns u : MODULE_DECL u -> module_read ns u.
Proof. intros Hu. unfold module_read. case_bool_decide; [by right|done]. Qed.
Lemma parseModuleDecl_reads n : reads n module_read (parseModuleDecl n).
Proof. intros p ts Hat Hn. unfold parseModuleDecl. repeat pstep. all: try by left. apply module_read_some. reading. Qed.
#[local] Hint Resolve parseModuleDecl_reads : reads.
Lemma import_step t u v w :
  Kind t = Import -> tok StringLiteral u -> tok Semi v -> star IMPORT_STMNT w ->
  star IMPORT_STMNT (t :: u ++ v ++ w).
Proof.
  intros Ht Hu Hv Hw. replace (t :: u ++ v ++ w) with ((t :: u ++ v) ++ w) by (cbn; by rewrite <- app_assoc).
  apply star_cons; [lang|done].
Qed.
(** The statements read after [before] when there are [imports]. *)
Definition imports_read (before imports : list ImportedFile) : lang :=
  fun u => star IMPORT_STMNT u /\ (imports = [] -> before = [] /\ u = []).
Lemma imports_loop_reads n : forall t imports p r,
  at_tokens p (t :: r) -> (length (t :: r) < n)%nat ->
  wpp (imports_loop n t imports) (sound (imports_read imports)) p (t :: r).
Proof.
  induction n as [|n IH]; intros t imports p r Hat Hn; [lia|].
  cbn [imports_loop]. unfold after_imports. repeat pstep.
  all: try (split; [first [apply star_nil | results; rewrite <- app_assoc || idtac; apply import_step; first [done|constructor]]|]).
  all: try by (intros Hnil; first [done | by apply app_eq_nil in Hnil as [_ ?]]).
  eapply wpp_bind; [apply IH; [done|more_fuel]|]. intros imports' p4 u r4 Hts4 Hat4 Hf4 HL.
  apply wpp_ret; [done|]. pleaf. results. rewrite app_nil_r. destruct HL as [HL1 HL2].
  split; [by apply import_step|]. intros Hnil. by destruct (HL2 Hnil) as [[_ ?]%app_eq_nil _].
Qed.
Lemma parseImportStatements_reads n : reads n (imports_read []) (parseImportStatements n).
Proof.
  intros p ts Hat Hn. unfold parseImportStatements. repeat pstep.
  eapply wpp_bind; [by apply imports_loop_reads|]. intros imports p4 u r4 Hts4 Hat4 Hf4 HL.
  apply wpp_ret; [done|]. pleaf. by rewrite app_nil_r.
Qed.
#[local] Hint Resolve parseImportStatements_reads : reads.
Lemma MOJOM_DECL_proper : proper MOJOM_DECL.
Proof.
  unfold MOJOM_DECL, INTRFC_DECL, STRUCT_DECL, UNION_DECL, ENUM_DECL, CONSTANT_DECL. auto 8 with proper.
Qed.
Lemma decl_progress t r u v w n :
  MOJOM_DECL u -> t :: r = u ++ v ++ w -> (length (t :: r) < Datatypes.S n)%nat -> (length w < n)%nat.
Proof.
  intros Hu Hts Hn. destruct u; [by destruct (MOJOM_DECL_proper Hu)|].
  rewrite Hts in Hn. cbn in Hn. rewrite !length_app in Hn. lia.
Qed.
(** The declarations left to read once the attributes of the next are read. *)
Definition decls_rest (attributes : option Attributes) : lang :=
  match attributes with
  | Some _ => MOJOM_DECL ⋅ star ATTR_MOJOM_DECL
  | None => star ATTR_MOJOM_DECL
  end.
Lemma decls_rest_star a v w : tried ATTRIBUTES a v -> decls_rest a w -> star ATTR_MOJOM_DECL (v ++ w).
Proof.
  destruct a as [a|]; cbn; [|by intros ->]. intros Hv (x & y & -> & Hx & Hy). rewrite app_assoc.
  apply star_cons; [|done]. apply cat_app; [by right|done].
Qed.
Lemma decls_rest_weaken a w : decls_rest a w -> star ATTR_MOJOM_DECL w.
Proof.
  destruct a as [a|]; [|done]. intros (x & y & -> & Hx & Hy). apply star_cons; [by apply cat_skip|done].
Qed.
Lemma decl_step (attributes a : option Attributes) u v w :
  MOJOM_DECL u -> tried ATTRIBUTES a v -> decls_rest a w -> decls_rest attributes (u ++ v ++ w).
Proof.
  intros Hu Hv Hw. pose proof (decls_rest_star _ _ _ Hv Hw) as Hs.
  destruct attributes; cbn; [by apply cat_app|]. apply star_cons; [by apply cat_skip|done].
Qed.
Lemma decls_loop_reads fuel n : forall attributes p ts,
  at_tokens p ts -> (length ts < fuel)%nat -> (1 <= n)%nat -> (err p = None -> (length ts < n)%nat) ->
  wpp (decls_loop n fuel attributes)
    (sound (fun _ => decls_rest attributes)) p ts.
Proof.
  induction n as [|n IH]; intros attributes p ts Hat Hfuel Hn Hlen; [lia|].
  cbn [decls_loop]. pstep. pstep.
  - repeat pstep. constructor.
  - pstep. specialize (Hlen ltac:(done)). unfold parse_decl, file_decl. cases (Kind t); repeat pstep.
    all: eapply wpp_bind;
      [ apply IH; [done|more_fuel|cbn [length] in Hlen; lia|];
        intros Hok; no_error; cbn [some] in *;
        match goal with H : _ = ?u ++ ?v ++ ?w |- _ => apply (decl_progress t r u v w) end;
        first [done|by unfold MOJOM_DECL; lang]
      |].
    all: intros b p4 u r4 Hts4 Hat4 Hf4 HL; apply wpp_ret; [done|]; pleaf; rewrite app_nil_r;
      eapply decl_step; try done; unfold MOJOM_DECL; lang.
Qed.
End Methods.

(** ** Files with declarations *)
Section Files.
Context {S : Type} {TS : TokenStream S} {R : S -> list Token -> Prop} {HR : StreamOf S R}.
#[local] Abbreviation PM := (PM S).
#[local] Abbreviation Parser := (Parser S).
#[local] Abbreviation wpp := (@wpp S R false _).
#[local] Abbreviation at_tokens := (@at_tokens S R false).
#[local] Abbreviation reads := (@reads S _ R false).
#[local] Hint Resolve parseAttributes_reads parseModuleDecl_reads parseImportStatements_reads : reads.

(** What follows the module declaration, or the attributes when there is none. *)
Definition after_module (initialAttributes : option Attributes) : lang :=
  match initialAttributes with
  | Some _ => MOJOM_DECL ⋅ star ATTR_MOJOM_DECL
  | None => star IMPORT_STMNT ⋅ star ATTR_MOJOM_DECL
  end.
Lemma parse_after_module_reads n init ns :
  (is_Some init -> ns = "") -> reads n (fun _ => after_module init) (parse_after_module n init ns).
Proof.
  intros Hns p ts Hat Hn. unfold parse_after_module. repeat pstep.
  - by destruct (Heqb (Hns ltac:(eauto))).
  - apply (cat_app _ _ [] []); constructor.
  - eapply wpp_bind; [apply decls_loop_reads; [done|more_fuel|lia|intros _; more_fuel]|].
    intros b p4 u r4 Hts4 Hat4 Hf4 HL; apply wpp_ret; [done|]. pleaf. rewrite app_nil_r.
    rewrite !bool_decide_eq_true_2, andb_true_r in Heqb by eauto. destruct a as [|x l]; [|done].
    match goal with H : imports_read _ [] _ |- _ => destruct H as [_ [_ ->]]; [done|] end. no_tokens. exact HL.
  - eapply wpp_bind; [apply decls_loop_reads; [done|more_fuel|lia|intros _; more_fuel]|].
    intros b p4 u r4 Hts4 Hat4 Hf4 HL; apply wpp_ret; [done|]; pleaf; rewrite app_nil_r; apply cat_app; [|by eapply decls_rest_star].
    match goal with H : imports_read _ _ _ |- _ => apply H end.
Qed.
#[local] Hint Resolve parse_after_module_reads : reads.
(** The three productions of a file, and the empty one. *)
Lemma after_module_star init u : after_module init u -> (star IMPORT_STMNT ⋅ star ATTR_MOJOM_DECL) u.
Proof.
  destruct init as [i|]; [|done]. intros (a & b & -> & Ha & Hb). apply (cat_app _ _ []); [constructor|].
  apply star_cons; [by apply cat_skip|done].
Qed.
Lemma file_read init ns u v w :
  tried ATTRIBUTES init u -> module_read ns v ->
  after_module (if bool_decide (ns = "") then init else None) w -> ATTR_MOJOM_FILE (u ++ v ++ w).
Proof.
  intros Hu Hv Hw. pose proof (after_module_star _ _ Hw) as Hs.
  assert (MODULE_DECL v \/ ns = "" /\ v = []) as [Hm|[-> ->]].
  { unfold module_read in Hv. case_bool_decide; [destruct Hv; auto|auto]. }
  - left. rewrite app_assoc. apply cat_app; [|done]. apply cat_app; [by eapply tried_opt|done].
  - cbn in Hw |- *. destruct init as [i|]; cbn [tried after_module] in *.
    + destruct Hw as (x & y & -> & Hx & Hy). right; right; left. rewrite app_assoc. apply cat_app; [|done].
      apply cat_app; [by right|done].
    + rewrite Hu. cbn. destruct Hs as (x & y & -> & [|x1 x2 Hx1 Hx2] & Hy); [right; right|right; left].
      * destruct Hy as [|y1 y2 Hy1 Hy2]; [by right|left]. cbn. by apply cat_app.
      * rewrite <- app_assoc. by apply cat_app, cat_app.
Qed.
Lemma parseMojomFile_reads n : reads n (fun _ => ATTR_MOJOM_FILE) (parseMojomFile n).
Proof.
  intros p ts Hat Hn. unfold parseMojomFile. repeat pstep; norm_bool.
  all: eapply wpp_reads_bind; [apply parse_after_module_reads|done|more_fuel|].
  all: try done; try by intros [? [=]].
  all: intros b p3 u3 r3 Hts3 Hat3 Hf3 HL; repeat pstep; rewrite app_nil_r; apply (file_read a a0); try done.
  all: by case_bool_decide.
Qed.
#[local] Hint Resolve parseMojomFile_reads : reads.


End Files.

(** ** The end of a parse *)
Section Ends.
Context {S : Type} {TS : TokenStream S} {R : S -> list Token -> Prop} {HR : StreamOf S R} {md : bool}.
#[local] Abbreviation PM := (PM S).
#[local] Abbreviation Parser := (Parser S).
#[local] Abbreviation wpp := (@wpp S R md _).
#[local] Abbreviation at_tokens := (@at_tokens S R md).
Implicit Types (p : Parser) (ts : list Token).

(** In front of [ts] the method runs out of fuel only where an enum hangs. *)
Definition ends {A} (m : PM A) p ts : Prop := match m p with (p', Err _) => stuck p ts p' | _ => True end.
Definition never_err {A} (m : PM A) : Prop := forall p, match m p with (_, Err _) => False | _ => True end.
Lemma wpp_ends {A} (m : PM A) Q p ts : wpp m Q p ts -> ends m p ts.
Proof. unfold ends, ParserLogic.wpp. by destruct (m p) as [p' [|?|]]. Qed.
Lemma never_err_ends {A} (m : PM A) p ts : never_err m -> ends m p ts.
Proof. intros H. specialize (H p). unfold ends. by destruct (m p) as [p' [|?|]]. Qed.
Lemma ends_bind {A B} (m : PM A) (k : A -> PM B) Q p ts :
  wpp m Q p ts ->
  (forall a p1 used rest, ts = used ++ rest -> at_tokens p1 rest -> Q a p1 used rest -> ends (k a) p1 rest) ->
  ends (bind m k) p ts.
Proof.
  unfold ends, ParserLogic.wpp, bind. destruct (m p) as [p1 [a|e|]]; [|done|done].
  intros (used & rest & -> & Hat & Hf & HQ) H. specialize (H a p1 used rest eq_refl Hat HQ).
  destruct (k a p1) as [p2 [b|e|]]; [done| |done]. by eapply stuck_trans.
Qed.
Lemma ends_bind_tail {A B} (m : PM A) (k : A -> PM B) p ts :
  ends m p ts -> (forall a, never_err (k a)) -> ends (bind m k) p ts.
Proof.
  unfold ends, bind. intros Hm Hk. destruct (m p) as [p1 [a|e|]]; [|done|done].
  specialize (Hk a p1). by destruct (k a p1) as [p2 [b|e|]].
Qed.
Lemma ends_unless {A} (d : A) (k : PM A) p ts : ends k p ts -> ends (unless_err d k) p ts.
Proof. unfold ends, unless_err, bind, OK, is_ok. by destruct (err p). Qed.
Lemma ends_quiet {A B} (m : PM A) (k : A -> PM B) p ts :
  quiet m -> at_tokens p ts -> (forall a p1, at_tokens p1 ts -> ends (k a) p1 ts) -> ends (bind m k) p ts.
Proof.
  intros Hm Hat Hk. eapply (ends_bind _ _ (fun _ _ used _ => used = [])).
  - by apply wpp_quiet.
  - intros a p1 used rest -> Hat1 ->. by apply Hk.
Qed.
Lemma ends_reads {A B} n L (m : PM A) (k : A -> PM B) p ts :
  reads (R:=R) (md:=md) n L m -> at_tokens p ts -> (length ts < n)%nat ->
  (forall a p1 rest, at_tokens p1 rest -> (length rest < n)%nat -> ends (k a) p1 rest) -> ends (bind m k) p ts.
Proof.
  intros Hm Hat Hn Hk. eapply ends_bind; [by apply Hm|]. intros a p1 used rest -> Hat1 _. apply Hk; [done|].
  rewrite length_app in Hn. lia.
Qed.
Lemma checkEOF_reads n : reads (R:=R) (md:=md) n (fun _ => nothing) checkEOF.
Proof. intros p ts Hat _. repeat pstep. Qed.
Lemma never_err_bind {A B} (m : PM A) (k : A -> PM B) : never_err m -> (forall a, never_err (k a)) -> never_err (bind m k).
Proof.
  intros Hm Hk p. specialize (Hm p). unfold bind. destruct (m p) as [p1 [a|e|]]; [apply Hk|done|done].
Qed.
Lemma never_err_quiet {A} (m : PM A) : quiet m -> never_err m.
Proof. intros Hm p. specialize (Hm p) as [_ Hm]. by destruct (m p) as [p' [|?|]]. Qed.
Lemma never_err_report e b : never_err (fail e ;;; ret b : PM bool).
Proof. done. Qed.
Lemma parse_after_module_ends n init ns p ts :
  at_tokens p ts -> (length ts < n)%nat -> ends (parse_after_module n init ns) p ts.
Proof.
  intros Hat Hn. unfold parse_after_module. eapply ends_reads; [apply checkEOF_reads|done..|]. clear p ts Hat Hn.
  intros [] p ts Hat Hn; [apply never_err_ends; by repeat case_match|].
  eapply ends_reads; [apply parseImportStatements_reads|done..|]. clear p ts Hat Hn. intros imports p ts Hat Hn.
  apply ends_unless, ends_quiet; [quiet|done|]. clear p Hat. intros _ p Hat.
  case_match; [by apply never_err_ends|].
  eapply ends_reads; [apply parseAttributes_reads|done..|]. clear p ts Hat Hn. intros attributes p ts Hat Hn.
  apply ends_unless, ends_quiet; [quiet|done|]. clear p Hat. intros a p Hat. apply ends_quiet; [quiet|done|]. clear p Hat.
  intros p0 p Hat. destruct (metaDataOnlyMode p0); [by apply never_err_ends|].
  eapply wpp_ends, decls_loop_reads; [done|done|lia|by intros _].
Qed.
Lemma parseMojomFile_ends n p ts : at_tokens p ts -> (length ts < n)%nat -> ends (parseMojomFile n) p ts.
Proof.
  intros Hat Hn. unfold parseMojomFile.
  eapply ends_reads; [apply parseAttributes_reads|done..|]. clear p ts Hat Hn. intros attributes p ts Hat Hn.
  eapply ends_reads; [apply parseModuleDecl_reads|done..|]. clear p ts Hat Hn. intros ns p ts Hat Hn.
  apply ends_unless, ends_quiet; [quiet|done|]. clear p Hat. intros init p Hat.
  apply ends_quiet; [quiet|done|]. clear p Hat. intros p0 p Hat.
  apply ends_quiet; [quiet|done|]. clear p Hat. intros scope p Hat. unfold in_scope.
  apply ends_quiet; [quiet|done|]. clear p Hat. intros _ p Hat.
  apply ends_bind_tail; [by apply parse_after_module_ends|]. intros b. apply never_err_quiet. quiet.
Qed.
Lemma Parse_ends n p ts : at_tokens p ts -> (length ts < n)%nat -> ends (Parse n) p ts.
Proof.
  intros Hat Hn. unfold Parse. apply ends_quiet; [quiet|done|]. clear p Hat. intros p0 p Hat.
  case_match; [done|]. apply ends_quiet; [quiet|done|]. clear p Hat. intros _ p Hat.
  apply ends_bind_tail; [by apply parseMojomFile_ends|]. clear. intros _ p.
  unfold unless_err, bind, OK, is_ok. destruct (err p); [done|].
  unfold checkEOF, peekNextToken, next_available, stream_peek, bind, get, modify, ret, parseError, parseErrorT, fail.
  by repeat case_match; simplify_eq.
Qed.

(** A comma that directly follows a left brace, a comma or a right bracket. *)
Fixpoint bare_comma (ts : list Token) : bool :=
  match ts with
  | t :: ((c :: _) as r) => bool_decide (Kind c = Comma) && bool_decide (Kind t ∈ before_comma) || bare_comma r
  | _ => false
  end.
Lemma bare_comma_at pre t c post :
  Kind c = Comma -> Kind t ∈ before_comma -> bare_comma (pre ++ t :: c :: post) = true.
Proof.
  intros Hc Ht. induction pre as [|x pre IH]; cbn [app].
  - cbn. by rewrite (bool_decide_eq_true_2 _ Hc), (bool_decide_eq_true_2 _ Ht).
  - destruct pre as [|y pre]; cbn [app bare_comma] in *; rewrite IH; apply orb_true_r.
Qed.

Lemma Parse_stops n p ts :
  at_tokens p ts -> (length ts < n)%nat -> Kind (lastConsumed p) ∉ before_comma ->
  bare_comma ts = false -> (Parse n p).2 <> Err NoFuel.
Proof.
  intros Hat Hn Hl Hcomma HP. pose proof (Parse_ends n p ts Hat Hn) as Hw. unfold ends in Hw.
  destruct (Parse n p) as [p' [a|e|]]; cbn in HP; try done.
  destruct Hw as (u & t & r & -> & Ht & Hok & Hf & Hk). destruct (Hf Hok) as [_ Hlast].
  destruct (last u) as [x|] eqn:Hu; cbn in Hlast.
  - apply last_Some in Hu as [v ->]. rewrite <- app_assoc in Hcomma. cbn [app] in Hcomma.
    by rewrite bare_comma_at in Hcomma by congruence.
  - congruence.
Qed.
(** C30: a parse stops, also when it is restricted to the metadata: fuel above
    the number of tokens is enough, unless a comma directly follows a left
    brace, a comma or a right bracket. *)
Theorem Parse_terminates n p ts :
  at_tokens p ts -> (length ts < n)%nat -> Kind (lastConsumed p) ∉ before_comma ->
  bare_comma ts = false ->
  (Parse n p).2 <> Err NoFuel.
Proof. apply Parse_stops. Qed.
End Ends.

(** ** A list as a stream, for examples *)
#[export] Instance list_stream : TokenStream (list Token) := {
  PeekNext s := (s, default eofToken (head s));
  ConsumeNext s := tail s
}.
#[export] Instance list_stream_of : StreamOf (list Token) eq.
Proof. split; intros s ts ->; [by split|done]. Qed.
(** The tokens the parser sees of a source text. *)
Definition source (text : string) : list Token :=
  filter (fun t => Kind t ∉ comment_kinds)
    (default [] (tokenizeUnfiltered (bytes_of text))).
Definition parser_of (ts : list Token) : Parser (list Token) :=
  match MakeParser (E:=unit) "a.mojom" "a.mojom" ts None (mkHeap NewMojomDescriptor ∅ ∅ ∅ ∅) with
  | (_, Ok p) => p
  | (h, _) => mkParser ts None zeroToken zeroToken h 0 None false false false
  end.
Definition sample : list Token := source "struct S { array<int32>? a; int8 b = -5; }; enum E { A, B = 3, };".
Lemma sample_at : at_tokens (R:=eq) (md:=false) (parser_of sample) sample.
Proof.
  split; [by vm_compute|]. split; [by vm_compute|]. split; [by vm_compute|].
  unfold no_eof. apply (bool_decide_unpack _). by vm_compute.
Qed.
Theorem Parse_terminates_witness : (Parse 100 (parser_of sample)).2 <> Err NoFuel.
Proof. apply (Parse_terminates 100 _ sample sample_at); [apply (bool_decide_unpack _)..|]; by vm_compute. Defined.
