(* ===== verification/ParserExact.v ===== *)
(** * The parser on given tokens: literals, and where it goes wrong

    Exact runs of the parser: the value of an integer literal, the body of an
    enum that is never read to its end, and the initializer whose nil pointer
    is dereferenced. *)
From S2P Require Import Lexer.
From S2P Require Export ParserSpec.

Section Exact.
Context {S : Type} {TS : TokenStream S} {R : S -> list Token -> Prop} {HR : StreamOf S R}.
#[local] Abbreviation PM := (PM S).
#[local] Abbreviation Parser := (Parser S).
#[local] Abbreviation at_tokens := (@at_tokens S R false).
Implicit Types (p : Parser) (ts : list Token).

(** [m] runs from [p] to [p'] with the result [a]; [ts] is left to read. *)
Definition runs {A} (m : PM A) p (a : A) p' ts : Prop :=
  m p = (p', Ok a) /\ at_tokens p' ts /\ err p' = None.
Lemma runs_bind {A B} (m : PM A) (k : A -> PM B) p a p' ts :
  runs m p a p' ts -> bind m k p = k a p'.
Proof. intros [Hm _]. by apply bind_run_ok. Qed.
Lemma consume_runs p t r :
  at_tokens p (t :: r) -> err p = None ->
  exists p', runs consumeNextToken p tt p' r /\ lastConsumed p' = t.
Proof.
  intros (Hm & Hd & Hs & Hne) He. unfold consumeNextToken, runs, bind, get, stream_peek, modify. rewrite Hd.
  destruct (PeekNext_of _ _ Hs) as [Hs' Ht].
  destruct (PeekNext (inputStream p)) as [s t']. cbn [fst snd head] in *. subst t'.
  eexists. split; [split; [done|split; [|done]]|done].
  split_and!; try done; [apply (ConsumeNext_of _ _ Hs')|by inversion Hne].
Qed.
Lemma peek_runs' p t r :
  at_tokens p (t :: r) -> err p = None ->
  exists p', runs peekNextToken p t p' (t :: r) /\ lastConsumed p' = lastConsumed p.
Proof. intros Hat He. destruct (peek_runs _ _ _ Hat He) as (p' & Hp & Hat' & He' & Hl). by exists p'. Qed.
Lemma tryMatch_runs k p t r :
  at_tokens p (t :: r) -> err p = None ->
  exists p', if bool_decide (Kind t = k) then runs (tryMatch k) p true p' r /\ lastConsumed p' = t
             else runs (tryMatch k) p false p' (t :: r) /\ lastConsumed p' = lastConsumed p.
Proof.
  intros Hat He. destruct (checkEOF_runs _ _ _ Hat He) as (p1 & Hp1 & Hat1 & He1 & Hl1).
  destruct (peek_runs _ _ _ Hat1 He1) as (p2 & Hp2 & Hat2 & He2 & Hl2).
  destruct (consume_runs _ _ _ Hat2 He2) as (p3 & [Hp3 [Hat3 He3]] & Hl3).
  exists (if bool_decide (Kind t = k) then p3 else p2).
  assert (tryMatch k p = if bool_decide (Kind t = k) then (p3, Ok true) else (p2, Ok false)) as Hrun.
  { unfold tryMatch. rewrite (bind_run_ok _ _ _ _ _ Hp1). cbv iota. rewrite unless_runs by done.
    rewrite (bind_run_ok _ _ _ _ _ Hp2). destruct (bool_decide (Kind t = k)); [|done]. cbn [negb].
    by rewrite (bind_run_ok _ _ _ _ _ Hp3). }
  destruct (bool_decide (Kind t = k)); split; try split; try split; congruence || done.
Qed.

(** ** Integer literals *)
(** The smallest of the widths 8 to 64 that holds the value, signed first. *)
Definition holds (minus : bool) (v bits : Z) : option bool :=
  if minus then (if v <=? 2 ^ (bits - 1) then Some true else None)
  else if v <? 2 ^ (bits - 1) then Some true
  else if v <? 2 ^ bits then Some false else None.
Fixpoint smallest (minus : bool) (v : Z) (sizes : list Z) : option (Z * bool) :=
  match sizes with
  | [] => None
  | bits :: sizes =>
    match holds minus v bits with Some s => Some (bits, s) | None => smallest minus v sizes end
  end.
Definition integer_value (minus : bool) (v : Z) : option GoValue :=
  let z := if minus then - v else v in
  match smallest minus v [8; 16; 32; 64] with
  | Some (8, true) => Some (VInt8 z)
  | Some (16, true) => Some (VInt16 z)
  | Some (32, true) => Some (VInt32 z)
  | Some (64, true) => Some (VInt64 z)
  | Some (8, false) => Some (VUint8 z)
  | Some (16, false) => Some (VUint16 z)
  | Some (32, false) => Some (VUint32 z)
  | Some (64, false) => Some (VUint64 z)
  | _ => None
  end.
(** [t] is the token of an integer of value [v]. *)
Inductive integer_token (t : Token) (v : Z) : Prop :=
| decimal_token : Kind t = IntConstDec -> numeral 10 (Text t) v -> integer_token t v
| hex_token : Kind t = IntConstHex -> (3 <= length (Text t))%nat -> numeral 16 (drop 2 (Text t)) v ->
    integer_token t v.
Inductive sign : list Token -> bool -> Prop :=
| no_sign : sign [] false
| plus_sign t : Kind t = Plus -> sign [t] false
| minus_sign t : Kind t = Minus -> sign [t] true.

Lemma u64_i64 z : u64 (i64 z) = u64 z.
Proof. unfold u64, i64, signed. rewrite Zminus_mod_idemp_l. f_equal. lia. Qed.
Lemma int_sizes_loop_exact (minus : bool) base text v : forall sizes e,
  0 < base -> numeral base text v -> Forall (fun bits => 1 < bits <= 64) sizes -> e <> Some ErrSyntax ->
  int_sizes_loop sizes (if minus then chr "-" :: text else text) base (negb minus) 64 e =
  match smallest minus v sizes with
  | Some (bits, s) => inl (v, bits, s)
  | None => inr (match sizes with [] => e | _ => Some ErrRange end)
  end.
Proof.
  intros sizes. induction sizes as [|bits sizes IH]; intros e Hb Hn Hsizes He; [done|].
  apply Forall_cons in Hsizes as [Hbits Hsizes]. pose proof (numeral_nonneg _ _ _ Hb Hn) as Hv.
  assert (2 ^ bits = 2 * 2 ^ (bits - 1)) as Hpow by (rewrite <- Z.pow_succ_r by lia; f_equal; lia).
  assert (2 ^ (bits - 1) <= 2 ^ 63) as H63 by (apply Z.pow_le_mono_r; lia).
  destruct (ParseInt_numeral base bits text v Hb ltac:(lia) Hn) as [Hplus Hminus].
  pose proof (ParseUint_numeral base bits text v Hb Hn) as Huint.
  cbn [int_sizes_loop smallest]. rewrite (proj2 (Z.ltb_ge 64 bits)) by lia. unfold holds.
  specialize (IH (Some ErrRange) Hb Hn Hsizes ltac:(done)).
  destruct minus; cbn [negb] in *.
  - rewrite Hminus. destruct (Z.leb_spec v (2 ^ (bits - 1))).
    + assert (u64 (if - v <? 0 then i64 (- - v) else - v) = v) as ->; [|done].
      destruct (Z.ltb_spec (- v) 0) as [Hneg|]; [rewrite Z.opp_involutive, u64_i64|]; apply u64_small || replace (- v) with v by lia; try apply u64_small; lia.
    + rewrite IH. destruct (smallest true v sizes) as [[]|]; [done|]. by destruct sizes.
  - rewrite Hplus, Huint. destruct (Z.ltb_spec v (2 ^ (bits - 1))).
    + rewrite (proj2 (Z.ltb_ge v 0)) by lia. rewrite u64_small by lia. done.
    + replace (v <=? 2 ^ bits - 1) with (v <? 2 ^ bits) by lia.
      destruct (Z.ltb_spec v (2 ^ bits)); [done|]. rewrite IH.
      destruct (smallest false v sizes) as [[]|]; [done|]. by destruct sizes.
Qed.

Abbreviation all_sizes := [8; 16; 32; 64].
Lemma int_sizes_exact (minus : bool) base text v :
  0 < base -> numeral base text v ->
  int_sizes_loop all_sizes (if minus then chr "-" :: text else text) base (negb minus) 64 None =
  match smallest minus v all_sizes with Some (bits, s) => inl (v, bits, s) | None => inr (Some ErrRange) end.
Proof.
  intros Hb Hn. rewrite (int_sizes_loop_exact minus base text v all_sizes None Hb Hn); [done| |done].
  repeat constructor; lia.
Qed.
Definition range_error (t : Token) : option ParserError :=
  Some (ParseError ParserErrorCodeIntegerOutOfRange t).
Lemma parsePositiveIntegerLiteral_runs minus p t r v :
  integer_token t v -> at_tokens p (t :: r) -> err p = None ->
  exists p', at_tokens p' r /\ lastConsumed p' = t /\
    match smallest minus v all_sizes with
    | Some (bits, s) =>
      parsePositiveIntegerLiteral minus true (negb minus) 64 p = (p', Ok (Some (v, bits, s))) /\ err p' = None
    | None => parsePositiveIntegerLiteral minus true (negb minus) 64 p = (p', Ok None) /\ err p' = range_error t
    end.
Proof.
  intros Ht Hat He. destruct (peek_runs' _ _ _ Hat He) as (p1 & Hp1 & Hl1).
  destruct Hp1 as [Hp1 [Hat1 He1]]. destruct (consume_runs _ _ _ Hat1 He1) as (p2 & [Hp2 [Hat2 He2]] & Hl2).
  unfold parsePositiveIntegerLiteral. change (negb (bool_decide (64 ∈ [8; 16; 32; 64]))) with false.
  cbv iota. rewrite andb_negb_r. rewrite (bind_run_ok _ _ _ _ _ Hp1), (bind_run_ok _ _ _ _ _ Hp2).
  rewrite (bind_run_ok _ _ p2 p2 t) by (unfold last_consumed; by rewrite Hl2).
  destruct Ht as [Hk Hn|Hk Hlen Hn]; rewrite Hk; cbv zeta; [|cbn [negb];
    rewrite (proj2 (Nat.ltb_ge (length (Text t)) 3) Hlen); cbv iota];
    rewrite (fun H => int_sizes_exact minus _ _ _ H Hn) by done;
    (destruct (smallest minus v all_sizes) as [[bits s]|];
     [by exists p2 | by exists (set_err (ParseError ParserErrorCodeIntegerOutOfRange t) p2)]).
Qed.
Lemma signs_runs s minus p t r v :
  sign s minus -> integer_token t v -> at_tokens p (s ++ t :: r) -> err p = None ->
  exists plus p', minus && plus = false /\ at_tokens p' (t :: r) /\ err p' = None /\
    forall A (k : bool -> bool -> PM A),
      (let! initialMinus := tryMatch Minus in let! initialPlus := tryMatch Plus in k initialMinus initialPlus) p =
      k minus plus p'.
Proof.
  intros Hs Ht Hat He.
  assert (Kind t <> Minus /\ Kind t <> Plus) as [Hm Hp] by (by destruct Ht as [Hk _|Hk _ _]; rewrite Hk).
  destruct Hs as [|x Hx|x Hx]; cbn [app] in Hat.
  - destruct (tryMatch_runs Minus _ _ _ Hat He) as (p1 & H1). rewrite bool_decide_eq_false_2 in H1 by done.
    destruct H1 as [[H1 [Hat1 He1]] _].
    destruct (tryMatch_runs Plus _ _ _ Hat1 He1) as (p2 & H2). rewrite bool_decide_eq_false_2 in H2 by done.
    destruct H2 as [[H2 [Hat2 He2]] _]. exists false, p2.
    split_and!; try done. intros A k. by rewrite (bind_run_ok _ _ _ _ _ H1), (bind_run_ok _ _ _ _ _ H2).
  - destruct (tryMatch_runs Minus _ _ _ Hat He) as (p1 & H1). rewrite Hx in H1.
    destruct H1 as [[H1 [Hat1 He1]] _].
    destruct (tryMatch_runs Plus _ _ _ Hat1 He1) as (p2 & H2). rewrite Hx in H2.
    destruct H2 as [[H2 [Hat2 He2]] _]. exists true, p2.
    split_and!; try done. intros A k. by rewrite (bind_run_ok _ _ _ _ _ H1), (bind_run_ok _ _ _ _ _ H2).
  - destruct (tryMatch_runs Minus _ _ _ Hat He) as (p1 & H1). rewrite Hx in H1.
    destruct H1 as [[H1 [Hat1 He1]] _].
    destruct (tryMatch_runs Plus _ _ _ Hat1 He1) as (p2 & H2). rewrite bool_decide_eq_false_2 in H2 by done.
    destruct H2 as [[H2 [Hat2 He2]] _]. exists false, p2.
    split_and!; try done. intros A k. by rewrite (bind_run_ok _ _ _ _ _ H1), (bind_run_ok _ _ _ _ _ H2).
Qed.

(** The conversions of [parseNumberLiteral] keep a value that its type holds. *)
Lemma signed_id w z : 0 < w -> - 2 ^ (w - 1) <= z < 2 ^ (w - 1) -> signed w z = z.
Proof.
  intros Hw Hz. unfold signed.
  assert (2 ^ w = 2 * 2 ^ (w - 1)) as E by (rewrite <- Z.pow_succ_r by lia; f_equal; lia).
  rewrite Z.mod_small; lia.
Qed.
Lemma neg64 v : 0 <= v <= 2 ^ 63 -> i64 (-1 * i64 v) = - v.
Proof.
  intros Hv. destruct (decide (v = 2 ^ 63)) as [->|Hne]; [by vm_compute|]. unfold i64.
  rewrite (signed_id 64 v) by lia. rewrite signed_id by lia. lia.
Qed.
Lemma literal_conversion (minus : bool) v bits (s : bool) t :
  0 <= v -> smallest minus v all_sizes = Some (bits, s) ->
  let x := if s then (if minus then i64 (-1 * i64 v) else i64 v) else 0 in
  exists lv,
    (if bits =? 8 then Ok (Some (if s then MakeInt8LiteralValue (i8 x) t else MakeUint8LiteralValue (u8 v) t))
     else if bits =? 16 then Ok (Some (if s then MakeInt16LiteralValue (i16 x) t else MakeUint16LiteralValue (u16 v) t))
     else if bits =? 32 then Ok (Some (if s then MakeInt32LiteralValue (i32 x) t else MakeUint32LiteralValue (u32 v) t))
     else if bits =? 64 then Ok (Some (if s then MakeInt64LiteralValue x t else MakeUint64LiteralValue v t))
     else Panic) = Ok (E:=OutOfFuel) (Some lv) /\ Some (value lv) = integer_value minus v.
Proof.
  intros Hv Hsm x. unfold integer_value. rewrite Hsm. revert Hsm. subst x. cbn [smallest]. unfold holds.
  destruct minus.
  - repeat match goal with |- context [Z.leb v ?b] => destruct (Z.leb_spec v b) end; intros [= <- <-]; cbn [Z.eqb Pos.eqb].
    all: eexists; split; [reflexivity|]. all: cbn [value]; rewrite neg64 by lia; unfold i8, i16, i32; rewrite ?signed_id by lia; done.
  - repeat match goal with |- context [Z.ltb v ?b] => destruct (Z.ltb_spec v b) end; intros [= <- <-]; cbn [Z.eqb Pos.eqb].
    all: eexists; split; [reflexivity|].
    all: unfold i8, i16, i32, i64, u8, u16, u32; rewrite ?(signed_id 64 v) by lia; rewrite ?signed_id, ?Z.mod_small by lia; done.
Qed.

(** C31: (functional) an integer literal with an optional sign has exactly the
    value its digits denote, in the smallest of the types int8, uint8, ...,
    int64, uint64 that holds it (signed ones only, behind a minus); a value that
    none holds is a range error at the literal. *)
Theorem parseNumberLiteral_exact p s minus t r v :
  sign s minus -> integer_token t v -> at_tokens p (s ++ t :: r) -> err p = None ->
  exists p', at_tokens p' r /\
    match integer_value minus v with
    | Some z => exists lv, parseNumberLiteral p = (p', Ok (Some lv)) /\ value lv = z /\ err p' = None
    | None => parseNumberLiteral p = (p', Ok None) /\ err p' = range_error t
    end.
Proof.
  intros Hs Ht Hat He. unfold parseNumberLiteral. rewrite unless_runs by done.
  destruct (signs_runs s minus p t r v Hs Ht Hat He) as (plus & p1 & Hflags & Hat1 & He1 & Hrun).
  rewrite Hrun, Hflags. clear Hrun Hat He.
  destruct (peek_runs' _ _ _ Hat1 He1) as (p2 & Hp2 & Hl2). rewrite (runs_bind _ _ _ _ _ _ Hp2).
  destruct Hp2 as [_ [Hat2 He2]].
  destruct (parsePositiveIntegerLiteral_runs minus p2 t r v Ht Hat2 He2) as (p3 & Hat3 & Hl3 & Hrun).
  exists p3. split; [done|].
  assert (0 <= v) as Hv by (destruct Ht as [_ Hn|_ _ Hn]; eapply numeral_nonneg; eauto; lia).
  assert (Kind t = IntConstDec \/ Kind t = IntConstHex) as Hk by (destruct Ht; auto).
  destruct (smallest minus v all_sizes) as [[bits signed]|] eqn:Hsm; destruct Hrun as [Hrun He3].
  - destruct (literal_conversion minus v bits signed (Some t) Hv Hsm) as (lv & Hlv & <-).
    exists lv. split; [|done]. destruct Hk as [-> | ->]; rewrite (bind_run_ok _ _ _ _ _ Hrun);
      rewrite (bind_run_ok _ _ p3 p3 t) by (unfold last_consumed; by rewrite Hl3);
      revert Hlv; repeat case_match; by intros [= <-].
  - unfold integer_value. rewrite Hsm. split; [|done].
    destruct Hk as [-> | ->]; rewrite (bind_run_ok _ _ _ _ _ Hrun);
      by rewrite (bind_run_ok _ _ p3 p3 t) by (unfold last_consumed; by rewrite Hl3).
Qed.

(** ** The body of an enum *)
(** [parseEnumBody]'s loop does not consume a comma that is not behind a
    value: in front of one no number of turns ends it, with or without an error. *)
Theorem enum_body_comma_hangs n fuel e trailing first attributes p t r :
  at_tokens p (t :: r) -> err p = None -> Kind t = Comma ->
  (enum_loop n fuel e trailing first attributes p).2 = Err NoFuel.
Proof.
  intros Hat He Ht. destruct (enum_comma_stuck n fuel e trailing first attributes _ _ _ Hat He Ht) as (p' & -> & _).
  done.
Qed.

(** ** The initializer of an enum value *)
Definition panics {A} (m : PM A) p : Prop := (m p).2 = Panic.
Lemma panics_bind {A B} (m : PM A) (k : A -> PM B) p a p' : m p = (p', Ok a) -> panics (k a) p' -> panics (bind m k) p.
Proof. unfold panics. intros Hm. by rewrite (bind_run_ok _ _ _ _ _ Hm). Qed.
Lemma panics_quiet {A B} (m : PM A) (k : A -> PM B) p :
  quiet m -> (forall a p', same_view p p' -> panics (k a) p') -> panics (bind m k) p.
Proof.
  intros Hq Hk. specialize (Hq p). unfold panics, bind. destruct (m p) as [p' [a|e|]]; cbn in *; [|by destruct Hq|done].
  destruct Hq as [Hv _]. exact (Hk a p' Hv).
Qed.
Lemma tryMatch_hit k p t r :
  at_tokens p (t :: r) -> err p = None -> Kind t = k -> exists p', runs (tryMatch k) p true p' r /\ lastConsumed p' = t.
Proof.
  intros Hat He <-. destruct (tryMatch_runs (Kind t) _ _ _ Hat He) as (p' & H).
  rewrite bool_decide_eq_true_2 in H by done. by exists p'.
Qed.
Lemma tryMatch_miss k p t r :
  at_tokens p (t :: r) -> err p = None -> Kind t <> k ->
  exists p', runs (tryMatch k) p false p' (t :: r) /\ lastConsumed p' = lastConsumed p.
Proof.
  intros Hat He Ht. destruct (tryMatch_runs k _ _ _ Hat He) as (p' & H).
  rewrite bool_decide_eq_false_2 in H by done. by exists p'.
Qed.
(** An identifier that ends in a dot. *)
Lemma parseIdentifier_dangling n p t1 t2 t3 r :
  at_tokens p (t1 :: t2 :: t3 :: r) -> err p = None ->
  Kind t1 = Name -> Kind t2 = Dot -> Kind t3 <> Name ->
  exists p' i, parseIdentifier (2 + n) p = (p', Ok i) /\ err p' <> None.
Proof.
  intros Hat He H1 H2 H3. destruct (peek_runs' _ _ _ Hat He) as (p1 & [Hp1 [Hat1 He1]] & _).
  destruct (tryMatch_hit Name _ _ _ Hat1 He1 H1) as (p2 & [Hp2 [Hat2 He2]] & Hl2).
  destruct (tryMatch_hit Dot _ _ _ Hat2 He2 H2) as (p3 & [Hp3 [Hat3 He3]] & Hl3).
  destruct (tryMatch_miss Name _ _ _ Hat3 He3 H3) as (p4 & [Hp4 [Hat4 He4]] & Hl4).
  eexists (set_err (ParseError ParserErrorCodeUnexpectedToken t1) p4), _. split; [|done].
  unfold parseIdentifier. rewrite unless_runs, (bind_run_ok _ _ _ _ _ Hp1), unless_runs by done.
  rewrite (bool_decide_eq_true_2 _ H1). cbn [negb Nat.add identifier_loop].
  unfold bind at 1. rewrite (bind_run_ok _ _ _ _ _ Hp2). cbv iota.
  rewrite (bind_run_ok _ _ p2 p2 (lastConsumed p2)) by done. rewrite (bind_run_ok _ _ _ _ _ Hp3). cbv iota.
  by rewrite (bind_run_ok _ _ _ _ _ Hp4).
Qed.
(** an initializer that is an identifier ending in a dot makes the parser
    panic instead of reporting the error: [parseEnumValueInitializer] calls a
    method of the nil [*UserValueRef] that [parseValue] returns inside a non-nil
    interface value. *)
Theorem enum_initializer_panics n e name p t1 t2 t3 r :
  at_tokens p (t1 :: t2 :: t3 :: r) -> err p = None ->
  Kind t1 = Name -> Kind t2 = Dot -> Kind t3 <> Name ->
  (parseEnumValueInitializer (2 + n) e name p).2 = Panic.
Proof.
  intros Hat He H1 H2 H3. change (panics (parseEnumValueInitializer (2 + n) e name) p).
  unfold parseEnumValueInitializer, panics. rewrite unless_runs by done.
  apply (panics_bind _ _ _ p p); [done|]. apply panics_quiet; [quiet|]. intros resolved p1 Hv1.
  apply panics_quiet; [quiet|]. intros enumType p2 Hv2.
  assert (at_tokens p2 (t1 :: t2 :: t3 :: r)) as Hat2 by (eapply same_view_at, same_view_at; eauto).
  assert (err p2 = None) as He2 by (destruct Hv1 as (_ & ? & _), Hv2 as (_ & ? & _); congruence).
  destruct (peek_runs' _ _ _ Hat2 He2) as (p3 & [Hp3 [Hat3 He3]] & _). apply (panics_bind _ _ _ _ _ Hp3).
  destruct (peek_runs' _ _ _ Hat3 He3) as (p4 & [Hp4 [Hat4 He4]] & _).
  destruct (parseIdentifier_dangling n _ _ _ _ _ Hat4 He4 H1 H2 H3) as (p5 & i & Hp5 & He5).
  apply (panics_bind _ _ _ NilUserValueRef p5); [|done].
  unfold parseValue. rewrite unless_runs, (bind_run_ok _ _ _ _ _ Hp4) by done.
  rewrite (bool_decide_eq_true_2 _ H1). unfold bind at 1, parseUserValueRef. rewrite unless_runs by done.
  rewrite (bind_run_ok _ _ _ _ _ Hp5). unfold unless_err, bind, OK, is_ok. by destruct (err p5).
Qed.
End Exact.

(** ** Examples *)
Definition only_comma : list Token := Eval vm_compute in source ", }".
Definition dangling : list Token := Eval vm_compute in source "foo. }".
Definition minus_128 : list Token := Eval vm_compute in source "-0x80;".
Lemma parser_of_at ts : Forall (fun t => Kind t <> EOF) ts -> at_tokens (R:=eq) (md:=false) (parser_of ts) ts.
Proof. by intros H. Qed.
Theorem enum_body_comma_hangs_witness :
  (enum_loop 1000 1000 0 false true None (parser_of only_comma)).2 = Err NoFuel.
Proof. eapply enum_body_comma_hangs; [apply parser_of_at; by repeat constructor|done..]. Defined.
Theorem enum_initializer_panics_witness :
  (parseEnumValueInitializer 100 0 "A" (parser_of dangling)).2 = Panic.
Proof. eapply (enum_initializer_panics 98); [apply parser_of_at; by repeat constructor|done..]. Defined.
Theorem parseNumberLiteral_exact_witness :
  exists p', at_tokens (R:=eq) (md:=false) p' (drop 2 minus_128) /\
    exists lv, parseNumberLiteral (parser_of minus_128) = (p', Ok (Some lv)) /\ value lv = VInt8 (-128) /\ err p' = None.
Proof.
  apply (parseNumberLiteral_exact _ (take 1 minus_128) true (default zeroToken (minus_128 !! 1%nat))
           (drop 2 minus_128) 128).
  - by constructor.
  - apply hex_token; [done|cbn; lia|by split; vm_compute].
  - apply parser_of_at. by repeat constructor.
  - done.
Defined.
