(* ===== verification/ParserHeap.v ===== *)
(** * What a parse does to the heap

    [inv] is the invariant of a parser: a well-formed descriptor, tokens to
    come that satisfy [ok], a valid current scope and named declarations;
    [step] says that the descriptor only grows.  [keeps b m] states that the
    method [m] keeps both when it returns, with [b] for a method that must run
    inside a scope.  The token-level content of a parse is in [ParserSpec]. *)
From S2P Require Import Lexer.
From S2P Require Export ParserLogic DescriptorSpec.

Section Heap.
Context {S : Type} {TS : TokenStream S} {R : S -> list Token -> Prop} {HR : StreamOf S R}.
#[local] Abbreviation PM := (PM S).
#[local] Abbreviation Parser := (Parser S).
(** What is known of the tokens of the file. *)
Context (ok : Token -> Prop) (ok_eof : ok eofToken).
Definition segment (n : string) : Prop := n <> "" /\ no_dot n.
Context (ok_name : forall t, ok t -> Kind t = Name -> segment (string_of_bytes (Text t))).
Definition named (n : string) : Prop :=
  exists t text, ok t /\ Kind t = StringLiteral /\ StringLiteralTokenToText t = Some text /\
    n = string_of_bytes text.
Implicit Types p : Parser.

#[local] Abbreviation descr p := (mojomDescriptor (heap p)).
Record inv p : Prop := mkInv {
  inv_descriptor : well_formed (descr p);
  inv_stream : exists ts, R (inputStream p) ts /\ Forall ok ts;
  inv_last : ok (lastConsumed p);
  inv_scope s : currentScope p = Some s -> is_Some (scopes (descr p) !! s);
  inv_structs q s : structTable (heap p) !! q = Some s -> dd_simpleName (s_decl s) <> "";
  inv_interfaces q i : interfaceTable (heap p) !! q = Some i -> dd_simpleName (i_decl i) <> "";
  inv_enums q e : enumTable (heap p) !! q = Some e -> dd_simpleName (e_decl e) <> ""
}.
Definition step p p' : Prop :=
  currentScope p' = currentScope p /\ mojomFile p' = mojomFile p /\
  grows named (mojomFile p) (descr p) (descr p').
#[export] Instance step_preorder : PreOrder step.
Proof.
  split.
  - intros p. split_and!; [done|done|reflexivity].
  - intros p1 p2 p3 (S1 & F1 & G1) (S2 & F2 & G2). split_and!; [congruence..|].
    etrans; [exact G1|]. by rewrite F1 in G2.
Qed.

Definition kp {A} (m : PM A) (Q : A -> Parser -> Prop) p : Prop :=
  match m p with
  | (p', Ok a) => inv p' /\ step p p' /\ Q a p'
  | _ => True
  end.
Definition keeps (b : bool) {A} (m : PM A) : Prop :=
  forall p, inv p -> (b = true -> is_Some (currentScope p)) -> kp m (fun _ _ => True) p.

Lemma kp_bind {A B} (m : PM A) (k : A -> PM B) Q1 Q p :
  kp m Q1 p ->
  (forall a p1, inv p1 -> step p p1 -> Q1 a p1 -> kp (k a) Q p1) ->
  kp (bind m k) Q p.
Proof.
  unfold kp, bind. destruct (m p) as [p1 [a|e|]]; [|done|done]. intros (Hi & Hs & HQ) Hk.
  specialize (Hk a p1 Hi Hs HQ). destruct (k a p1) as [p2 [c|e|]]; [|done|done].
  destruct Hk as (? & ? & ?). split_and!; [done| |done]. by etrans.
Qed.
Lemma kp_ret {A} (a : A) (Q : A -> Parser -> Prop) p : inv p -> Q a p -> kp (ret a) Q p.
Proof. intros Hi HQ. split; [done|]. split; [reflexivity|done]. Qed.
Lemma kp_mono {A} (m : PM A) Q Q' p :
  kp m Q p -> (forall a p', inv p' -> step p p' -> Q a p' -> Q' a p') -> kp m Q' p.
Proof. unfold kp. destruct (m p) as [p1 [a|e|]]; [|done|done]. intros (? & ? & ?) HQ. auto. Qed.
Lemma step_scoped b p p' :
  step p p' -> (b = true -> is_Some (currentScope p)) -> b = true -> is_Some (currentScope p').
Proof. intros (-> & _). done. Qed.
Lemma keeps_bind b {A B} (m : PM A) (k : A -> PM B) :
  keeps b m -> (forall a, keeps b (k a)) -> keeps b (bind m k).
Proof.
  intros Hm Hk p Hi Hb. eapply kp_bind; [by apply Hm|]. intros a p1 Hi1 Hs _. apply Hk; [done|].
  by eapply step_scoped.
Qed.
(** A call whose result is used under a condition on the state. *)
Lemma keeps_use b {A B} (m : PM A) (k : A -> PM B) Q1 :
  (forall p, inv p -> kp m Q1 p) ->
  (forall a p, inv p -> (b = true -> is_Some (currentScope p)) -> Q1 a p -> kp (k a) (fun _ _ => True) p) ->
  keeps b (bind m k).
Proof.
  intros Hm Hk p Hi Hb. eapply kp_bind; [by apply Hm|]. intros a p1 Hi1 Hs HQ. apply Hk; [done| |done].
  by eapply step_scoped.
Qed.
Lemma keeps_same_state b {A} (m : PM A) : (forall p, (m p).1 = p) -> keeps b m.
Proof.
  intros H p Hi _. specialize (H p). unfold kp. destruct (m p) as [p' [a|e|]]; cbn in H; [|done|done].
  subst p'. by split_and!.
Qed.
Lemma keeps_modify b (f : Parser -> Parser) :
  (forall p, inv p -> inv (f p) /\ step p (f p)) -> keeps b (modify f : PM unit).
Proof. intros H p Hi _. destruct (H p Hi). by split_and!. Qed.
Lemma keeps_ret b {A} (a : A) : keeps b (ret a : PM A).
Proof. by apply keeps_same_state. Qed.
Lemma keeps_throw b {A} e : keeps b (throw e : PM A).
Proof. by intros p. Qed.
Lemma keeps_panic b {A} : keeps b (panic : PM A).
Proof. by intros p. Qed.
Lemma keeps_get b : keeps b (get : PM Parser).
Proof. by apply keeps_same_state. Qed.
Lemma keeps_must b {A} (o : option A) : keeps b (must o : PM A).
Proof. apply keeps_same_state. intros p. by destruct o. Qed.
Lemma keeps_OK b : keeps b (OK : PM bool).
Proof. by apply keeps_same_state. Qed.
Lemma keeps_last_consumed b : keeps b (last_consumed : PM Token).
Proof. by apply keeps_same_state. Qed.
Lemma keeps_unless b {A} (d : A) (k : PM A) : keeps b k -> keeps b (unless_err d k).
Proof.
  intros Hk. apply keeps_bind; [apply keeps_OK|]. intros [|]; [done|apply keeps_ret].
Qed.
(** Fields that the invariant does not mention. *)
Definition same_state p p' : Prop :=
  heap p' = heap p /\ inputStream p' = inputStream p /\ lastConsumed p' = lastConsumed p /\
  currentScope p' = currentScope p /\ mojomFile p' = mojomFile p.
Lemma kp_unmentioned f (Q : unit -> Parser -> Prop) p :
  inv p -> same_state p (f p) -> Q tt (f p) -> kp (modify f : PM unit) Q p.
Proof.
  intros Hi (Hh & Hs & Hl & Hc & Hf) HQ. split_and!; [| |done].
  - destruct Hi as [? ? ? ? ? ? ?]. split; rewrite ?Hh, ?Hs, ?Hl, ?Hc; done.
  - unfold step. rewrite Hc, Hf, Hh. by split_and!.
Qed.
Lemma keeps_unmentioned b f : (forall p, same_state p (f p)) -> keeps b (modify f : PM unit).
Proof. intros H p Hi _. by apply kp_unmentioned. Qed.
Lemma keeps_fail b e : keeps b (fail e : PM unit).
Proof. by apply keeps_unmentioned. Qed.

(** ** Tokens *)
(** [t] is the token to be read next. *)
Definition next_is p (t : Token) : Prop :=
  exists ts, R (inputStream p) ts /\ t = if discardRemaining p then eofToken else default eofToken (head ts).
Lemma next_ok p t : inv p -> next_is p t -> forall ts, R (inputStream p) ts ->
  t = if discardRemaining p then eofToken else default eofToken (head ts).
Proof.
  intros Hi (ts & Hts & ->) ts' Hts'. destruct (discardRemaining p); [done|].
  by rewrite <- (proj2 (PeekNext_of _ _ Hts)), <- (proj2 (PeekNext_of _ _ Hts')).
Qed.
Lemma kp_next_available p : inv p -> kp next_available (fun t p' => ok t /\ next_is p' t) p.
Proof.
  intros Hi. destruct (inv_stream p Hi) as (ts & Hts & Hok). destruct (PeekNext_of _ _ Hts) as [Hs Ht].
  unfold kp, next_available, bind, get, stream_peek. destruct (discardRemaining p) eqn:Hd.
  - split_and!; try done. exists ts. by rewrite Hd.
  - destruct (PeekNext (inputStream p)) as [s t] eqn:Hp. cbn [fst snd] in *. split_and!.
    + destruct Hi as [? ? ? ? ? ? ?]. split; try done. by exists ts.
    + by split_and!.
    + rewrite Ht. by destruct Hok.
    + exists ts. cbn. by rewrite Hd.
Qed.
Lemma kp_peekNextToken p : inv p -> kp peekNextToken (fun t p' => ok t /\ next_is p' t) p.
Proof.
  intros Hi. unfold peekNextToken. eapply kp_bind; [by apply kp_next_available|].
  intros t p1 Hi1 _ [Ht Hn]. eapply (kp_bind _ _ (fun _ p' => next_is p' t)).
  { destruct (Token_EOF t); [|by apply kp_ret].
    by apply (kp_unmentioned (set_err (ParseError ParserErrorCodeEOF (lastSeen p1)))). }
  intros _ p2 Hi2 _ Hn2. eapply (kp_bind _ _ (fun _ p' => next_is p' t)); [|by intros; apply kp_ret].
  by apply kp_unmentioned.
Qed.
Lemma keeps_peekNextToken b : keeps b peekNextToken.
Proof. intros p Hi _. eapply kp_mono; [by apply kp_peekNextToken|done]. Qed.
Lemma keeps_checkEOF b : keeps b checkEOF.
Proof.
  intros p Hi _. unfold checkEOF. eapply kp_bind; [by apply kp_next_available|].
  intros t p1 Hi1 _ _. eapply (kp_bind _ _ (fun _ _ => True)); [|by intros; apply kp_ret].
  by apply kp_unmentioned.
Qed.
Lemma kp_consumeNextToken p t : inv p -> next_is p t ->
  kp consumeNextToken (fun _ p' => lastConsumed p' = t) p.
Proof.
  intros Hi Hn. destruct (inv_stream p Hi) as (ts & Hts & Hok). destruct (PeekNext_of _ _ Hts) as [Hs Ht].
  rewrite (next_ok p t Hi Hn ts Hts). unfold kp, consumeNextToken, bind, get, stream_peek, modify.
  destruct (discardRemaining p).
  - split_and!; [|by split_and!|done]. destruct Hi as [? ? ? ? ? ? ?]. by split.
  - pose proof (ConsumeNext_of _ _ Hs) as Hc.
    destruct (PeekNext (inputStream p)) as [s t'] eqn:Hp. cbn [fst snd] in *.
    split_and!; [|by split_and!|done]. destruct Hi as [? ? ? ? ? ? ?]. split; try done; cbn.
    + exists (tail ts). split; [done|]. by destruct Hok.
    + rewrite Ht. by destruct Hok.
Qed.
Lemma keeps_consumeNextToken b : keeps b consumeNextToken.
Proof.
  intros p Hi _. destruct (inv_stream p Hi) as (ts & Hts & _).
  eapply kp_mono; [eapply kp_consumeNextToken; [done|by eexists]|done].
Qed.

Create HintDb keeps.
#[local] Hint Resolve keeps_ret keeps_throw keeps_panic keeps_get keeps_must keeps_OK keeps_last_consumed
  keeps_fail keeps_peekNextToken keeps_checkEOF keeps_consumeNextToken : keeps.
#[local] Ltac keeps :=
  repeat lazymatch goal with
    | |- forall _, _ => intros ?
    | |- keeps _ (match ?x with _ => _ end) => destruct x
    | |- keeps _ (unless_err _ _) => apply keeps_unless
    | |- keeps _ (modify _) => apply keeps_unmentioned; intros ?; by split_and!
    | |- keeps _ (parseErrorT _ _) => apply keeps_fail
    | |- keeps _ (invalidOrdinalError _) => apply keeps_fail
    | |- keeps _ (unexpectedTokenError _) => apply keeps_fail
    | |- keeps _ (bind _ _) => apply keeps_bind
    | |- keeps _ _ => first [solve [auto with keeps nocore] | progress cbv zeta]
    end.
Lemma keeps_parseError b code : keeps b (parseError code).
Proof. unfold parseError. keeps. Qed.
#[local] Hint Resolve keeps_parseError : keeps.
Lemma keeps_match b k : keeps b (match_ k).
Proof. unfold match_. keeps. Qed.
Lemma keeps_tryMatch b k : keeps b (tryMatch k).
Proof. unfold tryMatch. keeps. Qed.
#[local] Hint Resolve keeps_match keeps_tryMatch : keeps.
Lemma keeps_matchSemicolonToken b t : keeps b (matchSemicolonToken t).
Proof. unfold matchSemicolonToken. keeps. Qed.
#[local] Hint Resolve keeps_matchSemicolonToken : keeps.
Lemma keeps_matchSemicolon b : keeps b matchSemicolon.
Proof. unfold matchSemicolon. keeps. Qed.
Lemma keeps_readText b k : keeps b (readText k).
Proof. unfold readText. keeps. Qed.
Lemma keeps_readStringLiteral b : keeps b readStringLiteral.
Proof. unfold readStringLiteral. keeps. Qed.
#[local] Hint Resolve keeps_matchSemicolon keeps_readText keeps_readStringLiteral : keeps.
Lemma keeps_readName b : keeps b readName.
Proof. unfold readName. keeps. Qed.
Lemma keeps_readOrdinal b : keeps b readOrdinal.
Proof. unfold readOrdinal. keeps. Qed.
#[local] Hint Resolve keeps_readName keeps_readOrdinal : keeps.

(** What a successful match leaves as the token last consumed. *)
Lemma kp_unless {A} (d : A) (k : PM A) Q p :
  inv p -> (err p = None -> kp k Q p) -> (err p <> None -> Q d p) -> kp (unless_err d k) Q p.
Proof.
  intros Hi Hk Hd. unfold unless_err, kp, bind, OK, is_ok in *. destruct (err p) eqn:He; [|by apply Hk].
  split; [done|]. split; [reflexivity|]. by apply Hd.
Qed.
Lemma kp_fail e (Q : unit -> Parser -> Prop) p :
  inv p -> (forall p', err p' <> None -> Q tt p') -> kp (fail e : PM unit) Q p.
Proof. intros Hi HQ. apply kp_unmentioned; [done|by split_and!|]. by apply HQ. Qed.
Lemma kp_match k p : inv p ->
  kp (match_ k) (fun r p' => if r then ok (lastConsumed p') /\ Kind (lastConsumed p') = k
                             else err p' <> None) p.
Proof.
  intros Hi. unfold match_. apply kp_unless; [done| |done]. intros _.
  eapply kp_bind; [by apply kp_peekNextToken|]. intros t p1 Hi1 _ [Ht Hn]. apply kp_unless; [done| |done].
  intros _. case_bool_decide as Hk; cbn [negb].
  - eapply kp_bind; [by eapply kp_consumeNextToken|]. intros [] p2 Hi2 _ Hl. apply kp_ret; [done|]. by rewrite Hl.
  - eapply (kp_bind _ _ (fun _ p' => err p' <> None)); [by apply kp_fail|]. intros. by apply kp_ret.
Qed.
Lemma kp_last_consumed p : inv p -> kp last_consumed (fun t p' => t = lastConsumed p' /\ p' = p) p.
Proof. intros Hi. split; [done|]. split; [reflexivity|done]. Qed.
Lemma kp_readText p : inv p ->
  kp (readText Name) (fun s p' => err p' = None -> segment s) p.
Proof.
  intros Hi. unfold readText. apply kp_unless; [done| |done]. intros _.
  eapply kp_bind; [by apply kp_match|]. intros r p1 Hi1 _ Hr. destruct r; cbn [negb]; [|by apply kp_ret].
  eapply kp_bind; [by apply kp_last_consumed|]. intros t p2 Hi2 _ [-> ->]. apply kp_ret; [done|].
  intros _. destruct Hr. by apply ok_name.
Qed.
Lemma kp_readName p : inv p -> kp readName (fun s p' => err p' = None -> segment s) p.
Proof. intros Hi. unfold readName. apply kp_unless; [done| |done]. intros _. by apply kp_readText. Qed.
Lemma kp_readStringLiteral p : inv p -> kp readStringLiteral (fun s p' => err p' = None -> named s) p.
Proof.
  intros Hi. unfold readStringLiteral. apply kp_unless; [done| |done]. intros _.
  eapply kp_bind; [by apply kp_match|]. intros r p1 Hi1 _ Hr. destruct r; cbn [negb]; [|by apply kp_ret].
  eapply kp_bind; [by apply kp_last_consumed|]. intros t p2 Hi2 _ [-> ->]. destruct Hr as [Ht Hk].
  unfold bind, must. destruct (StringLiteralTokenToText (lastConsumed p1)) as [text|] eqn:Htext; [|done].
  apply kp_ret; [done|]. intros _. by exists (lastConsumed p1), text.
Qed.
(** A name that is only used without error. *)
Lemma keeps_named b {B} (d : B) (k : string -> PM B) :
  (forall name, segment name -> keeps b (k name)) ->
  keeps b (bind readName (fun name => unless_err d (k name))).
Proof.
  intros Hk. eapply keeps_use; [apply kp_readName|]. intros name p Hi Hb Hn.
  apply kp_unless; [done| |done]. intros He. by apply Hk; [apply Hn| |].
Qed.

(** ** Literals *)
Lemma keeps_identifier_loop b n : forall identifier t, keeps b (identifier_loop n identifier t).
Proof. induction n as [|n IH]; intros identifier t; cbn [identifier_loop]; keeps. Qed.
#[local] Hint Resolve keeps_identifier_loop : keeps.
Lemma keeps_parseIdentifier b n : keeps b (parseIdentifier n).
Proof. unfold parseIdentifier. keeps. Qed.
Lemma keeps_parsePositiveIntegerLiteral b minus hex unsigned bits :
  keeps b (parsePositiveIntegerLiteral minus hex unsigned bits).
Proof. unfold parsePositiveIntegerLiteral. keeps. Qed.
Lemma keeps_parsePositiveFloatLiteral b minus : keeps b (parsePositiveFloatLiteral minus).
Proof. unfold parsePositiveFloatLiteral. keeps. Qed.
#[local] Hint Resolve keeps_parseIdentifier keeps_parsePositiveIntegerLiteral keeps_parsePositiveFloatLiteral : keeps.
Lemma keeps_parseNumberLiteral b : keeps b parseNumberLiteral.
Proof. unfold parseNumberLiteral. keeps. Qed.
#[local] Hint Resolve keeps_parseNumberLiteral : keeps.
Lemma keeps_parseLiteral b : keeps b parseLiteral.
Proof. unfold parseLiteral. keeps. Qed.
#[local] Hint Resolve keeps_parseLiteral : keeps.
Lemma keeps_attributes_loop b n : forall attributes t, keeps b (attributes_loop n attributes t).
Proof. induction n as [|n IH]; intros attributes t; cbn [attributes_loop]; keeps. Qed.
#[local] Hint Resolve keeps_attributes_loop : keeps.
Lemma keeps_parseAttributes b n : keeps b (parseAttributes n).
Proof. unfold parseAttributes. keeps. Qed.
#[local] Hint Resolve keeps_parseAttributes : keeps.
Lemma keeps_parseModuleDecl b n : keeps b (parseModuleDecl n).
Proof. unfold parseModuleDecl. keeps. Qed.

(** ** The heap *)
(** A new descriptor under the same tables. *)
Lemma inv_descriptor_change p d :
  inv p -> well_formed d -> grows named (mojomFile p) (descr p) d ->
  inv (set_heap (set_descriptor d (heap p)) p) /\ step p (set_heap (set_descriptor d (heap p)) p).
Proof.
  intros [? ? ? Hsc ? ? ?] Hw Hg. split; [|by split_and!]. split; try done. cbn.
  intros s Hs. eapply grows_scope; [done|]. by apply Hsc.
Qed.
Lemma kp_with_descriptor {A} (m : M MojomDescriptor OutOfFuel A) (Q : A -> Parser -> Prop) p :
  inv p -> keeps_d named (mojomFile p) m (descr p) ->
  (forall d a, m (descr p) = (d, Ok a) -> Q a (set_heap (set_descriptor d (heap p)) p)) ->
  kp (with_descriptor m) Q p.
Proof.
  intros Hi Hm HQ. unfold kp, with_descriptor, keeps_d in *.
  destruct (m (descr p)) as [d [a|e|]]; [|done|done]. destruct Hm as [Hw Hg].
  destruct (inv_descriptor_change p d Hi Hw Hg). split_and!; [done|done|]. by apply HQ.
Qed.
Lemma keeps_with_descriptor b {A} (m : M MojomDescriptor OutOfFuel A) :
  (forall f d, well_formed d -> keeps_d named f m d) -> keeps b (with_descriptor m).
Proof. intros Hm p Hi _. apply kp_with_descriptor; [done| |done]. by apply Hm, Hi. Qed.
Lemma keeps_attempt b {T E} (read : Heap -> option T) write (m : M T E unit) :
  (forall p s, inv p -> read (heap p) = Some s ->
     match m s with
     | (_, Panic) => True
     | (s', _) => inv (set_heap (write s' (heap p)) p) /\ step p (set_heap (write s' (heap p)) p)
     end) ->
  keeps b (attempt read write m : PM (option E)).
Proof.
  intros H p Hi _. unfold kp, attempt. destruct (read (heap p)) as [s|] eqn:Hs; [|done].
  specialize (H p s Hi Hs). destruct (m s) as [s' [[]|e|]]; [| |done]; destruct H; by split_and!.
Qed.
Lemma keeps_on_struct b {E} obj (m : M (MojomDescriptor * MojomStruct nat) E unit) :
  (forall f ds, well_formed ds.1 -> keeps_pair named f same_struct_name m ds) -> keeps b (on_struct obj m).
Proof.
  intros Hm. apply keeps_attempt. intros p ds Hi. destruct (structTable (heap p) !! obj) as [s|] eqn:Hs; [|done].
  intros [= <-]. specialize (Hm (mojomFile p) (descr p, s) (inv_descriptor p Hi)). unfold keeps_pair in Hm.
  destruct (m (descr p, s)) as [[d' s'] r]. cbn [fst snd] in *.
  assert (r = Panic \/ (well_formed d' /\ grows named (mojomFile p) (descr p) d' /\ same_struct_name s s'))
    as [->|(Hw & Hg & Hn)] by (destruct r; auto); [done|].
  destruct (inv_descriptor_change p d' Hi Hw Hg) as [[? ? ? ? Hst ? ?] Hstep].
  assert (inv (set_heap (put_struct obj s' (set_descriptor d' (heap p))) p)).
  { split; try done. cbn. intros q s1 [[<- <-]|[_ Hq]]%lookup_insert_Some; [|by apply (Hst q)].
    rewrite Hn. by apply (inv_structs p Hi obj). }
  destruct r; done.
Qed.
Lemma keeps_on_interface b {E} obj (m : M (MojomDescriptor * MojomInterface nat) E unit) :
  (forall f di, well_formed di.1 -> keeps_pair named f same_interface_name m di) -> keeps b (on_interface obj m).
Proof.
  intros Hm. apply keeps_attempt. intros p di Hi. destruct (interfaceTable (heap p) !! obj) as [i|] eqn:Hs; [|done].
  intros [= <-]. specialize (Hm (mojomFile p) (descr p, i) (inv_descriptor p Hi)). unfold keeps_pair in Hm.
  destruct (m (descr p, i)) as [[d' i'] r]. cbn [fst snd] in *.
  assert (r = Panic \/ (well_formed d' /\ grows named (mojomFile p) (descr p) d' /\ same_interface_name i i'))
    as [->|(Hw & Hg & Hn)] by (destruct r; auto); [done|].
  destruct (inv_descriptor_change p d' Hi Hw Hg) as [[? ? ? ? ? Hst ?] Hstep].
  assert (inv (set_heap (put_interface obj i' (set_descriptor d' (heap p))) p)).
  { split; try done. cbn. intros q s1 [[<- <-]|[_ Hq]]%lookup_insert_Some; [|by apply (Hst q)].
    rewrite Hn. by apply (inv_interfaces p Hi obj). }
  destruct r; done.
Qed.
Lemma keeps_on_enum b {E} obj (m : M (MojomDescriptor * MojomEnum) E unit) :
  (forall f de, well_formed de.1 -> keeps_pair named f same_enum_name m de) -> keeps b (on_enum obj m).
Proof.
  intros Hm. apply keeps_attempt. intros p de Hi. destruct (enumTable (heap p) !! obj) as [e|] eqn:Hs; [|done].
  intros [= <-]. specialize (Hm (mojomFile p) (descr p, e) (inv_descriptor p Hi)). unfold keeps_pair in Hm.
  destruct (m (descr p, e)) as [[d' e'] r]. cbn [fst snd] in *.
  assert (r = Panic \/ (well_formed d' /\ grows named (mojomFile p) (descr p) d' /\ same_enum_name e e'))
    as [->|(Hw & Hg & Hn)] by (destruct r; auto); [done|].
  destruct (inv_descriptor_change p d' Hi Hw Hg) as [[? ? ? ? ? ? Hst] Hstep].
  assert (inv (set_heap (put_enum obj e' (set_descriptor d' (heap p))) p)).
  { split; try done. cbn. intros q s1 [[<- <-]|[_ Hq]]%lookup_insert_Some; [|by apply (Hst q)].
    rewrite Hn. by apply (inv_enums p Hi obj). }
  destruct r; done.
Qed.
Lemma keeps_on_union b {E} obj (m : M (MojomUnion nat) E unit) : keeps b (on_union obj m).
Proof.
  apply keeps_attempt. intros p u [? ? ? ? ? ? ?] _. destruct (m u) as [u' [[]|e|]]; [| |done].
  all: split; [by split|by split_and!].
Qed.
(** Parameter structs are only in the parser's hands. *)
Lemma keeps_on_params b {E} s (m : M (MojomDescriptor * MojomStruct nat) E unit) :
  (forall f ds, well_formed ds.1 -> keeps_pair named f same_struct_name m ds) -> keeps b (on_params s m).
Proof.
  intros Hm p Hi _. specialize (Hm (mojomFile p) (descr p, s) (inv_descriptor p Hi)).
  unfold kp, on_params, keeps_pair in *. destruct (m (descr p, s)) as [[d' s'] [[]|e|]]; cbn [fst snd] in *; [| |done].
  all: destruct Hm as (Hw & Hg & _); destruct (inv_descriptor_change p d' Hi Hw Hg); by split_and!.
Qed.
Lemma keeps_put_struct b q s : dd_simpleName (s_decl s) <> "" -> keeps b (update_heap (put_struct q s)).
Proof.
  intros Hn. apply keeps_modify. intros p [? ? ? ? Hst ? ?]. split; [|by split_and!].
  split; try done. cbn. intros q' s' [[<- <-]|[_ Hq]]%lookup_insert_Some; [done|by apply (Hst q')].
Qed.
Lemma keeps_put_interface b q s : dd_simpleName (i_decl s) <> "" -> keeps b (update_heap (put_interface q s)).
Proof.
  intros Hn. apply keeps_modify. intros p [? ? ? ? ? Hst ?]. split; [|by split_and!].
  split; try done. cbn. intros q' s' [[<- <-]|[_ Hq]]%lookup_insert_Some; [done|by apply (Hst q')].
Qed.
Lemma keeps_put_enum b q s : dd_simpleName (e_decl s) <> "" -> keeps b (update_heap (put_enum q s)).
Proof.
  intros Hn. apply keeps_modify. intros p [? ? ? ? ? ? Hst]. split; [|by split_and!].
  split; try done. cbn. intros q' s' [[<- <-]|[_ Hq]]%lookup_insert_Some; [done|by apply (Hst q')].
Qed.
Lemma keeps_put_union b q s : keeps b (update_heap (put_union q s)).
Proof. apply keeps_modify. intros p [? ? ? ? ? ? ?]. split; [by split|by split_and!]. Qed.
Lemma keeps_new_object b c d : keeps b (new_object c d).
Proof. apply keeps_with_descriptor. intros f ds Hw. by apply kd_new_object. Qed.

(** ** Scopes *)
Lemma keeps_new_lexical_scope b kind obj name : name <> "" -> keeps b (new_lexical_scope kind obj name).
Proof.
  intros Hn. unfold new_lexical_scope. apply keeps_bind; [apply keeps_get|]. intros q.
  apply keeps_with_descriptor. intros f d Hw. apply kd_deref_nil. intros _ x _ _.
  by apply kd_NewLexicalScope.
Qed.
Lemma keeps_Struct_InitAsScope b obj : keeps b (Struct_InitAsScope obj).
Proof.
  unfold Struct_InitAsScope. eapply (keeps_use _ _ _ (fun q p => q = p /\ inv q)); [intros p Hi; by split_and!|].
  intros q p Hi Hb [-> _]. unfold kp, bind, must. destruct (structTable (heap p) !! obj) as [s|] eqn:Hs; [|done].
  pose proof (inv_structs p Hi obj s Hs) as Hn.
  apply (keeps_bind b (new_lexical_scope ScopeStruct obj (dd_simpleName (s_decl s)))
    (fun scope => bind (update_heap (put_struct obj (set_struct_nested (set_containedScope scope (s_nested s)) s))) (fun _ => ret scope)));
    [by apply keeps_new_lexical_scope| |done|done].
  intros scope. apply keeps_bind; [by apply keeps_put_struct|]. intros _. apply keeps_ret.
Qed.
Lemma keeps_Interface_InitAsScope b obj : keeps b (Interface_InitAsScope obj).
Proof.
  unfold Interface_InitAsScope. eapply (keeps_use _ _ _ (fun q p => q = p /\ inv q)); [intros p Hi; by split_and!|].
  intros q p Hi Hb [-> _]. unfold kp, bind, must. destruct (interfaceTable (heap p) !! obj) as [s|] eqn:Hs; [|done].
  pose proof (inv_interfaces p Hi obj s Hs) as Hn.
  apply (keeps_bind b (new_lexical_scope ScopeInterface obj (dd_simpleName (i_decl s)))
    (fun scope => bind (update_heap (put_interface obj (set_interface_nested (set_containedScope scope (i_nested s)) s))) (fun _ => ret scope)));
    [by apply keeps_new_lexical_scope| |done|done].
  intros scope. apply keeps_bind; [by apply keeps_put_interface|]. intros _. apply keeps_ret.
Qed.
Lemma keeps_Enum_InitAsScope b obj : keeps b (Enum_InitAsScope obj).
Proof.
  unfold Enum_InitAsScope. eapply (keeps_use _ _ _ (fun q p => q = p /\ inv q)); [intros p Hi; by split_and!|].
  intros q p Hi Hb [-> _]. unfold kp, bind, must. destruct (enumTable (heap p) !! obj) as [s|] eqn:Hs; [|done].
  pose proof (inv_enums p Hi obj s Hs) as Hn.
  apply (keeps_bind b (new_lexical_scope ScopeEnum obj (dd_simpleName (e_decl s)))
    (fun scope => bind (update_heap (put_enum obj (set_scopeForValues scope s))) (fun _ => ret scope)));
    [by apply keeps_new_lexical_scope| |done|done].
  intros scope. apply keeps_bind; [by apply keeps_put_enum|]. intros _. apply keeps_ret.
Qed.
(** Entering a scope: its parent is the current one, which the exit restores. *)
Lemma keeps_in_scope {A} scope (body : PM A) : keeps true body -> keeps true (in_scope scope body).
Proof.
  intros Hbody p Hi Hb. destruct (Hb eq_refl) as [c Hc]. unfold kp, in_scope, pushScope, bind, get. rewrite Hc.
  unfold must. destruct (scopes (descr p) !! scope) as [s|] eqn:Hs; [|done].
  case_bool_decide as Hp; [|done]. unfold modify.
  assert (inv (set_currentScope (Some scope) p)) as Hi1.
  { destruct Hi as [? ? ? ? ? ? ?]. split; try done. intros q [= <-]. eauto. }
  specialize (Hbody _ Hi1 (fun _ => mk_is_Some _ scope eq_refl)). unfold kp in Hbody.
  destruct (body (set_currentScope (Some scope) p)) as [p1 [a|e|]]; [|done|done].
  destruct Hbody as (Hi2 & (Hcur & Hfile & Hg) & _). unfold popScope, bind, get. rewrite Hcur. cbn [currentScope set_currentScope].
  destruct (grows_scopes _ _ _ _ Hg scope s Hs) as (s' & Hs' & (_ & _ & _ & Hp' & _)%shape_inv).
  unfold must. rewrite Hs'. unfold modify, ret. rewrite Hp', Hp. split_and!; [| |done].
  - destruct Hi2 as [? ? ? ? ? ? ?]. split; try done. intros q [= <-]. cbn.
    eapply grows_scope; [exact Hg|]. by apply (inv_scope p Hi).
  - split_and!; [by cbn|done|done].
Qed.

(** ** References *)
Lemma keeps_mark b m r : (forall t, ref_scope (m t).1 = ref_scope t) -> keeps b (mark m r).
Proof.
  intros Hm. apply keeps_with_descriptor. intros f d Hw. apply kd_deref. intros t _.
  apply kd_bind; [|intros; by apply kd_same].
  apply (kd_type_refs named f (E:=OutOfFuel) (alter (fun t => (m t).1) r (typeRefs d)) tt d Hw).
  intros q x Hx. rewrite list_lookup_alter. case_decide; [subst q; rewrite Hx; by eexists|by eexists].
Qed.
Lemma keeps_MarkUsedAsMapKey b t : keeps b (TypeRef_MarkUsedAsMapKey t).
Proof. destruct t; try apply keeps_ret. by apply keeps_mark. Qed.
Lemma keeps_MarkUsedAsConstantType b t : keeps b (TypeRef_MarkUsedAsConstantType t).
Proof. destruct t; try apply keeps_ret. by apply keeps_mark. Qed.
Lemma keeps_MarkTypeCompatible b t a : keeps b (TypeRef_MarkTypeCompatible t a).
Proof. destruct t; try apply keeps_ret; try apply keeps_must. by apply keeps_mark. Qed.
Lemma kd_new_type_ref f {E} r d :
  well_formed d ->
  keeps_d named f (E:=E) (fun d => (set_type_refs (typeRefs d ++ [r]) d, Ok (length (typeRefs d)))) d.
Proof.
  intros Hw. apply (kd_type_refs named f (E:=E) (typeRefs d ++ [r]) (length (typeRefs d)) d Hw).
  intros p x Hx. exists x. split; [by apply lookup_app_l_Some|done].
Qed.
Lemma kd_new_value_ref f {E} r d :
  well_formed d ->
  keeps_d named f (E:=E) (fun d => (set_value_refs (valueRefs d ++ [r]) d, Ok (length (valueRefs d)))) d.
Proof.
  intros Hw. apply (kd_value_refs named f (E:=E) (valueRefs d ++ [r]) (length (valueRefs d)) d Hw).
  intros p x Hx. exists x. split; [by apply lookup_app_l_Some|done].
Qed.
Lemma keeps_new_type_ref b r : keeps b (new_type_ref r).
Proof. apply keeps_with_descriptor. intros f d Hw. by apply kd_new_type_ref. Qed.
(** A new reference, made in the current scope and recorded as unresolved. *)
Lemma kp_refer_type p identifier nullable request t :
  inv p -> is_Some (currentScope p) ->
  kp (let! r := new_type_ref (NewUserTypeRef identifier nullable request (currentScope p) t) in
      with_descriptor (modify (RegisterUnresolvedTypeReference r)) ;;;
      ret (Some (TRUser r))) (fun _ _ => True) p.
Proof.
  intros Hi [c Hc]. set (r := NewUserTypeRef _ _ _ _ _).
  eapply (kp_bind _ _ (fun q p1 => q = length (typeRefs (descr p)) /\
    descr p1 = set_type_refs (typeRefs (descr p) ++ [r]) (descr p))).
  { apply kp_with_descriptor; [done|by apply kd_new_type_ref, Hi|]. by intros d a [= <- <-]. }
  intros q p1 Hi1 Hs1 [-> Hd1]. eapply (kp_bind _ _ (fun _ _ => True)); [|intros; by apply kp_ret].
  apply kp_with_descriptor; [done| |done].
  apply (kd_register_type_ref _ _ _ r c); [apply Hi1| | | |].
  - rewrite Hd1. by apply list_lookup_middle.
  - by rewrite <- Hc.
  - rewrite Hd1. by apply (inv_scope p Hi).
  - rewrite Hd1. cbn. intros Hin. destruct (wf_types _ (inv_descriptor p Hi) _ Hin) as (x & _ & Hx & _).
    apply lookup_lt_Some in Hx. lia.
Qed.
Lemma kp_refer_value p spec identifier t :
  inv p -> is_Some (currentScope p) ->
  kp (let! r := new_value_ref (NewUserValueRef spec identifier (currentScope p) t) in
      with_descriptor (modify (RegisterUnresolvedValueReference r)) ;;;
      ret (Some r)) (fun _ _ => True) p.
Proof.
  intros Hi [c Hc]. set (r := NewUserValueRef _ _ _ _).
  eapply (kp_bind _ _ (fun q p1 => q = length (valueRefs (descr p)) /\
    descr p1 = set_value_refs (valueRefs (descr p) ++ [r]) (descr p))).
  { apply kp_with_descriptor; [done|by apply kd_new_value_ref, Hi|]. by intros d a [= <- <-]. }
  intros q p1 Hi1 Hs1 [-> Hd1]. eapply (kp_bind _ _ (fun _ _ => True)); [|intros; by apply kp_ret].
  apply kp_with_descriptor; [done| |done].
  apply (kd_register_value_ref _ _ _ r c); [apply Hi1| | | |].
  - rewrite Hd1. by apply list_lookup_middle.
  - by rewrite <- Hc.
  - rewrite Hd1. by apply (inv_scope p Hi).
  - rewrite Hd1. cbn. intros Hin. destruct (wf_values _ (inv_descriptor p Hi) _ Hin) as (x & _ & Hx & _).
    apply lookup_lt_Some in Hx. lia.
Qed.

(** ** Types and values *)
Lemma keeps_parseTypeReference n : keeps true (parseTypeReference n).
Proof.
  unfold parseTypeReference. apply keeps_unless, keeps_bind; [apply keeps_parseIdentifier|].
  intros identifier. apply keeps_unless, keeps_bind; [apply keeps_tryMatch|]. intros request.
  apply keeps_bind; [apply keeps_tryMatch|]. intros nullable. apply keeps_unless.
  eapply (keeps_use _ _ _ (fun q p => q = p)); [intros p Hi; by split_and!|]. intros q p Hi Hb ->.
  apply kp_refer_type; [done|by apply Hb].
Qed.
#[local] Hint Resolve keeps_MarkUsedAsMapKey keeps_MarkUsedAsConstantType keeps_MarkTypeCompatible
  keeps_new_object keeps_new_type_ref keeps_put_union : keeps.
Lemma keeps_tryParseBuiltInType b : keeps b tryParseBuiltInType.
Proof. unfold tryParseBuiltInType. keeps. Qed.
Lemma keeps_tryParseArrayType b parse : keeps b parse -> keeps b (tryParseArrayType parse).
Proof. intros Hp. unfold tryParseArrayType. keeps. Qed.
Lemma keeps_tryParseMapType b parse : keeps b parse -> keeps b (tryParseMapType parse).
Proof. intros Hp. unfold tryParseMapType. keeps. Qed.
#[local] Hint Resolve keeps_tryParseBuiltInType keeps_tryParseArrayType keeps_tryParseMapType keeps_parseTypeReference : keeps.
Lemma keeps_parseType n : keeps true (parseType n).
Proof. induction n as [|n IH]; cbn [parseType]; keeps. Qed.
#[local] Hint Resolve keeps_parseType : keeps.
Lemma keeps_parseUserValueRef n spec : keeps true (parseUserValueRef n spec).
Proof.
  unfold parseUserValueRef. apply keeps_unless, keeps_bind; [apply keeps_parseIdentifier|].
  intros identifier. apply keeps_unless.
  eapply (keeps_use _ _ _ (fun q p => q = p)); [intros p Hi; by split_and!|]. intros q p Hi Hb ->.
  apply kp_refer_value; [done|by apply Hb].
Qed.
#[local] Hint Resolve keeps_parseUserValueRef : keeps.
Lemma keeps_parseValue n spec : keeps true (parseValue n spec).
Proof. unfold parseValue. keeps. Qed.
#[local] Hint Resolve keeps_parseValue : keeps.

(** ** Declarations *)
Lemma keeps_ValidateValue b name t v : keeps b (ValidateValue name t v).
Proof. unfold ValidateValue. keeps. Qed.
Lemma keeps_ValidateDefaultValue b name t v : keeps b (ValidateDefaultValue name t v).
Proof. unfold ValidateDefaultValue. keeps. Qed.
Lemma keeps_end_of_turn b dup r : keeps b (end_of_turn dup r).
Proof. unfold end_of_turn. keeps. Qed.
#[local] Hint Resolve keeps_ValidateValue keeps_ValidateDefaultValue keeps_end_of_turn : keeps.
Lemma keeps_brace_found b a : keeps b (brace_found a).
Proof. unfold brace_found. keeps. Qed.
#[local] Hint Resolve keeps_brace_found : keeps.
Lemma keeps_body_loop b n fuel turn : (forall a, keeps b (turn a)) -> forall a, keeps b (body_loop n fuel turn a).
Proof. intros Ht. induction n as [|n IH]; intros a; cbn [body_loop]; keeps. Qed.

Lemma kd_alone f {T E} (same : T -> T -> Prop) (m : M T E unit) dt :
  (forall s, same s (m s).1) -> well_formed dt.1 -> keeps_pair named f same (alone m) dt.
Proof.
  intros Hm Hw. specialize (Hm dt.2). unfold keeps_pair, alone. destruct (m dt.2) as [s [a|e|]]; by cbn.
Qed.
Lemma kd_struct_nested f {E} (m : M (MojomDescriptor * NestedDeclarations) E unit) ds :
  (forall dc, well_formed dc.1 -> keeps_pair named f (fun _ _ => True) m dc) ->
  well_formed ds.1 -> keeps_pair named f same_struct_name (struct_nested m) ds.
Proof.
  intros Hm Hw. specialize (Hm (ds.1, s_nested ds.2) Hw). unfold keeps_pair, struct_nested in *.
  destruct (m (ds.1, s_nested ds.2)) as [dc [a|e|]]; cbn in *; [| |done]; by destruct Hm as (? & ? & _).
Qed.
Lemma kd_interface_nested f {E} (m : M (MojomDescriptor * NestedDeclarations) E unit) ds :
  (forall dc, well_formed dc.1 -> keeps_pair named f (fun _ _ => True) m dc) ->
  well_formed ds.1 -> keeps_pair named f same_interface_name (interface_nested m) ds.
Proof.
  intros Hm Hw. specialize (Hm (ds.1, i_nested ds.2) Hw). unfold keeps_pair, interface_nested in *.
  destruct (m (ds.1, i_nested ds.2)) as [dc [a|e|]]; cbn in *; [| |done]; by destruct Hm as (? & ? & _).
Qed.
Create HintDb pairs.
#[local] Hint Resolve kd_AddField kd_AddMethod kd_AddEnumValue kd_Nested_AddEnum kd_Nested_AddConstant
  kd_struct_nested kd_interface_nested kd_alone ComputeFieldOrdinals_name ComputeMethodOrdinals_name : pairs.
#[local] Hint Extern 1 (same_struct_name _ _) => first [apply ComputeFieldOrdinals_name|reflexivity] : pairs.
#[local] Hint Extern 1 (same_interface_name _ _) => first [apply ComputeMethodOrdinals_name|reflexivity] : pairs.
#[local] Hint Extern 1 (same_enum_name _ _) => reflexivity : pairs.
#[local] Ltac on_object :=
  lazymatch goal with
  | |- keeps _ (on_struct _ _) => apply keeps_on_struct; auto with pairs
  | |- keeps _ (on_interface _ _) => apply keeps_on_interface; auto with pairs
  | |- keeps _ (on_enum _ _) => apply keeps_on_enum; auto with pairs
  | |- keeps _ (on_union _ _) => apply keeps_on_union
  | |- keeps _ (on_params _ _) => apply keeps_on_params; auto with pairs
  end.
#[local] Hint Extern 1 (keeps _ (_ _ _)) => on_object : keeps.

Lemma keeps_parseConstDecl n a : keeps true (parseConstDecl n a).
Proof. unfold parseConstDecl. keeps. Qed.
#[local] Hint Resolve keeps_parseConstDecl : keeps.
Lemma keeps_parseEnumValueInitializer n e name : keeps true (parseEnumValueInitializer n e name).
Proof.
  unfold parseEnumValueInitializer. keeps. apply keeps_with_descriptor. intros f d Hw. apply kd_deref. intros r _.
  apply kd_bind; [|intros; by apply kd_same].
  apply (kd_value_refs named f (E:=OutOfFuel)
    (alter (fun v => (UserValueRef_MarkUsedAsEnumValueInitializer v).1) ref (valueRefs d)) tt d Hw).
  intros q x Hx. rewrite list_lookup_alter. case_decide; [subst q; rewrite Hx; by eexists|by eexists].
Qed.
#[local] Hint Resolve keeps_parseEnumValueInitializer : keeps.
Lemma keeps_enum_loop n fuel e : forall trailing first a, keeps true (enum_loop n fuel e trailing first a).
Proof. induction n as [|n IH]; intros trailing first a; cbn [enum_loop]; keeps. Qed.
#[local] Hint Resolve keeps_enum_loop keeps_Enum_InitAsScope keeps_Struct_InitAsScope keeps_Interface_InitAsScope : keeps.
Lemma keeps_parseEnumBody n e : keeps true (parseEnumBody n e).
Proof. unfold parseEnumBody. keeps. apply keeps_in_scope. keeps. Qed.
#[local] Hint Resolve keeps_parseEnumBody : keeps.

(** A named declaration: the name is the first use of [readName]. *)
#[local] Ltac decl_name :=
  apply keeps_unless, keeps_bind; [apply keeps_match|intros ?];
  lazymatch goal with |- keeps _ (if negb ?ok then _ else _) => destruct ok; [|apply keeps_ret] end; cbn [negb];
  apply keeps_named; intros ? [? _].
#[local] Hint Extern 1 (keeps _ (update_heap (put_struct _ _))) => apply keeps_put_struct; assumption : keeps.
#[local] Hint Extern 1 (keeps _ (update_heap (put_interface _ _))) => apply keeps_put_interface; assumption : keeps.
#[local] Hint Extern 1 (keeps _ (update_heap (put_enum _ _))) => apply keeps_put_enum; assumption : keeps.
Lemma keeps_parseEnumDecl n a : keeps true (parseEnumDecl n a).
Proof. unfold parseEnumDecl. decl_name. keeps. Qed.
#[local] Hint Resolve keeps_parseEnumDecl : keeps.
Lemma keeps_parseStructField n a : keeps true (parseStructField n a).
Proof. unfold parseStructField. keeps. Qed.
#[local] Hint Resolve keeps_parseStructField : keeps.
Lemma keeps_struct_turn n s a : keeps true (struct_turn n s a).
Proof. unfold struct_turn, nested_enum, nested_constant. keeps. Qed.
#[local] Hint Resolve keeps_struct_turn keeps_body_loop : keeps.
Lemma keeps_then_ordinals b c : keeps b c -> keeps b (then_ordinals c).
Proof. intros Hc. unfold then_ordinals. keeps. Qed.
#[local] Hint Resolve keeps_then_ordinals : keeps.
Lemma keeps_parseStructBody n s : keeps true (parseStructBody n s).
Proof. unfold parseStructBody. keeps. apply keeps_in_scope. keeps. Qed.
#[local] Hint Resolve keeps_parseStructBody : keeps.
Lemma keeps_parseStructDecl n a : keeps true (parseStructDecl n a).
Proof. unfold parseStructDecl. decl_name. keeps. Qed.
#[local] Hint Resolve keeps_parseStructDecl : keeps.
Lemma keeps_params_loop n fuel : forall s t, keeps true (params_loop n fuel s t).
Proof. induction n as [|n IH]; intros s t; cbn [params_loop]; keeps. Qed.
#[local] Hint Resolve keeps_params_loop : keeps.
Lemma keeps_parseParamList n name r : keeps true (parseParamList n name r).
Proof. unfold parseParamList. keeps. Qed.
#[local] Hint Resolve keeps_parseParamList : keeps.
Lemma keeps_parseMethodDecl n a : keeps true (parseMethodDecl n a).
Proof. unfold parseMethodDecl. keeps. Qed.
#[local] Hint Resolve keeps_parseMethodDecl : keeps.
Lemma keeps_interface_turn n s a : keeps true (interface_turn n s a).
Proof. unfold interface_turn, nested_enum, nested_constant. keeps. Qed.
#[local] Hint Resolve keeps_interface_turn : keeps.
Lemma keeps_parseInterfaceBody n s : keeps true (parseInterfaceBody n s).
Proof. unfold parseInterfaceBody. keeps. apply keeps_in_scope. keeps. Qed.
#[local] Hint Resolve keeps_parseInterfaceBody : keeps.
Lemma keeps_parseInterfaceDecl n a : keeps true (parseInterfaceDecl n a).
Proof. unfold parseInterfaceDecl. decl_name. keeps. Qed.
#[local] Hint Resolve keeps_parseInterfaceDecl : keeps.
Lemma keeps_union_turn n s a : keeps true (union_turn n s a).
Proof. unfold union_turn. keeps. Qed.
#[local] Hint Resolve keeps_union_turn : keeps.
Lemma keeps_parseUnionBody n s : keeps true (parseUnionBody n s).
Proof. unfold parseUnionBody. keeps. Qed.
#[local] Hint Resolve keeps_parseUnionBody : keeps.
Lemma keeps_parseUnionDecl n a : keeps true (parseUnionDecl n a).
Proof. unfold parseUnionDecl. keeps. Qed.
#[local] Hint Resolve keeps_parseUnionDecl : keeps.

(** ** Files *)
Lemma keeps_get_bind b {B} (k : Parser -> PM B) :
  (forall p, inv p -> (b = true -> is_Some (currentScope p)) -> kp (k p) (fun _ _ => True) p) ->
  keeps b (bind get k).
Proof. intros Hk p Hi Hb. by apply Hk. Qed.
Lemma keeps_file_decl parse : keeps true parse -> keeps true (file_decl parse).
Proof.
  intros Hp. unfold file_decl. apply keeps_bind; [done|]. intros [obj|]; [|apply keeps_ret].
  apply keeps_get_bind. intros p Hi Hb.
  eapply (kp_bind _ _ (fun _ _ => True)); [|intros; by apply kp_ret].
  pose proof (kd_file_add named (mojomFile p) obj (descr p) (inv_descriptor p Hi)) as H. unfold keeps_d in H.
  unfold kp, in_file, attempt. destruct (file_add (mojomFile p) obj (descr p)) as [d [[]|e|]]; [| |done].
  all: destruct H as [Hw Hg]; destruct (inv_descriptor_change p d Hi Hw Hg); by split_and!.
Qed.
Lemma keeps_parse_decl n a t parse : parse_decl n a t = Some parse -> keeps true parse.
Proof. unfold parse_decl. destruct (Kind t); try done; intros [= <-]; keeps. Qed.
Lemma keeps_decls_loop n fuel : forall a, keeps true (decls_loop n fuel a).
Proof.
  induction n as [|n IH]; intros a; cbn [decls_loop]; [apply keeps_throw|].
  apply keeps_unless, keeps_bind; [apply keeps_checkEOF|]. intros []; [keeps|].
  apply keeps_bind; [apply keeps_peekNextToken|]. intros t.
  destruct (parse_decl fuel a t) as [parse|] eqn:Hd; [|keeps].
  apply keeps_bind; [by apply keeps_file_decl, (keeps_parse_decl fuel a t)|]. keeps.
Qed.
(** The imports read, which are new. *)
Definition fresh_import (imp : ImportedFile) : Prop :=
  named (SpecifiedName imp) /\ imp_CanonicalFileName imp = "".
Lemma kp_keeps {A} (m : PM A) p : keeps false m -> inv p -> kp m (fun _ _ => True) p.
Proof. intros H Hi. by apply H. Qed.
Lemma kp_imports_loop n : forall t imports p, inv p -> Forall fresh_import imports ->
  kp (imports_loop n t imports) (fun l _ => Forall fresh_import l) p.
Proof.
  induction n as [|n IH]; intros t imports p Hi Hf; cbn [imports_loop].
  all: destruct (negb _) eqn:Hk.
  1,3: eapply (kp_mono _ (fun l _ => l = imports)); [|by intros l p' _ _ ->];
    unfold after_imports; assert (forall m : PM unit, keeps false m -> kp (bind m (fun _ => ret imports)) (fun l _ => l = imports) p)
      as H by (intros m Hm; eapply kp_bind; [by apply kp_keeps|]; intros; by apply kp_ret);
    destruct (Kind t); first [by apply kp_ret|apply H; keeps].
  - done.
  - eapply kp_bind; [apply kp_keeps; [apply keeps_consumeNextToken|done]|]. intros _ p1 Hi1 _ _.
    eapply kp_bind; [by apply kp_readStringLiteral|]. intros fileName p2 Hi2 _ Hn.
    eapply kp_bind; [by apply kp_last_consumed|]. intros ft p3 Hi3 _ [_ ->].
    apply kp_unless; [done| |done]. intros He.
    eapply kp_bind; [apply kp_keeps; [apply keeps_matchSemicolon|done]|]. intros r p4 Hi4 _ _.
    destruct r; cbn [negb]; [|by apply kp_ret].
    assert (Forall fresh_import (imports ++ [NewImportedFile fileName (Some ft)])) as Hf'.
    { apply Forall_app. split; [done|]. repeat constructor. by apply Hn. }
    eapply kp_bind; [apply kp_keeps; [apply keeps_checkEOF|done]|]. intros eof p5 Hi5 _ _.
    destruct eof; [by apply kp_ret|].
    eapply kp_bind; [apply kp_keeps; [apply keeps_peekNextToken|done]|]. intros nt p6 Hi6 _ _.
    apply kp_unless; [done| |done]. intros _. by apply IH.
Qed.
Lemma kp_parseImportStatements n p : inv p ->
  kp (parseImportStatements n) (fun l _ => Forall fresh_import l) p.
Proof.
  intros Hi. unfold parseImportStatements. apply kp_unless; [done| |done]. intros _.
  eapply kp_bind; [apply kp_keeps; [apply keeps_peekNextToken|done]|]. intros t p1 Hi1 _ _.
  apply kp_unless; [done| |done]. intros _. by apply kp_imports_loop.
Qed.
Lemma AddImports_ok imports : forall fl, file_ok fl ->
  file_ok (foldl (fun f i => AddImport i f) fl imports) /\
  CanonicalFileName (foldl (fun f i => AddImport i f) fl imports) = CanonicalFileName fl /\
  Imports (foldl (fun f i => AddImport i f) fl imports) = Imports fl ++ imports.
Proof.
  induction imports as [|i imports IH]; intros fl Hok; cbn [foldl]; [by rewrite app_nil_r|].
  destruct (IH (AddImport i fl)) as (H1 & Hc & H2).
  - destruct Hok as [Hn Hi]. split; [exact Hn|]. by apply AddImport_indexed.
  - split; [done|]. split; [by rewrite Hc|]. rewrite H2. cbn. by rewrite <- app_assoc.
Qed.
Lemma keeps_update_file_at b g :
  (forall fl, file_ok fl -> file_ok (g fl) /\ CanonicalFileName (g fl) = CanonicalFileName fl /\
     forall imp, imp ∈ Imports (g fl) -> imp ∈ Imports fl \/ fresh_import imp) ->
  keeps b (update_file_at g).
Proof.
  intros Hg. apply keeps_get_bind. intros p Hi Hb. apply kp_with_descriptor; [done| |done].
  apply kd_update_file; [apply Hi|]. intros fl Hfl. apply Hg. by apply (wf_files _ (inv_descriptor p Hi) (mojomFile p)).
Qed.
Lemma keeps_parse_after_module n a ns : keeps true (parse_after_module n a ns).
Proof.
  unfold parse_after_module. apply keeps_bind; [apply keeps_checkEOF|]. intros []; [keeps|].
  eapply keeps_use; [apply kp_parseImportStatements|]. intros imports p Hi Hb Hf.
  apply (keeps_unless true false); [|done|done].
  apply keeps_bind.
  - apply keeps_update_file_at. intros fl Hok. destruct (AddImports_ok imports fl Hok) as (? & ? & ->).
    split; [done|]. split; [done|]. intros imp [?|Himp]%elem_of_app; [by left|right]. rewrite Forall_forall in Hf. by apply Hf.
  - keeps. apply keeps_decls_loop.
Qed.

(** ** Module names *)
Lemma split_dots_snoc g t : no_dot t -> split_dots (g +:+ String "." t) = split_dots g ++ [t].
Proof.
  intros Ht. induction g as [|c g IH].
  - change ("" +:+ String "." t) with (String "." t). rewrite split_dots_cons. cbn. by rewrite Ht.
  - rewrite append_cons, !split_dots_cons, IH. destruct (Ascii.eqb c "."); [done|].
    by destruct (split_dots_nonempty g) as (x & r & ->).
Qed.
Definition full_name (n : string) : Prop := n <> "" /\ Forall (.≠ "") (split_dots n).
Lemma full_name_segment n : segment n -> full_name n.
Proof. intros [Hn Hd]. split; [done|]. rewrite Hd. by repeat constructor. Qed.
Lemma full_name_snoc g t : full_name g -> segment t -> full_name (g +:+ String "." t).
Proof.
  intros [Hg Hf] [Ht Hd]. split; [by intros [? _]%append_nil_inv|].
  rewrite split_dots_snoc by done. apply Forall_app. split; [done|]. by repeat constructor.
Qed.
Lemma kp_tryMatch k p : inv p ->
  kp (tryMatch k) (fun r p' => r = true -> ok (lastConsumed p') /\ Kind (lastConsumed p') = k) p.
Proof.
  intros Hi. unfold tryMatch. eapply kp_bind; [apply kp_keeps; [apply keeps_checkEOF|done]|].
  intros eof p1 Hi1 _ _. destruct eof; [by apply kp_ret|]. apply kp_unless; [done| |done]. intros _.
  eapply kp_bind; [by apply kp_peekNextToken|]. intros t p2 Hi2 _ [Ht Hn]. case_bool_decide as Hk; cbn [negb].
  - eapply kp_bind; [by eapply kp_consumeNextToken|]. intros [] p3 Hi3 _ Hl. apply kp_ret; [done|]. by rewrite Hl.
  - by apply kp_ret.
Qed.
Lemma kp_identifier_loop n : forall acc t p, inv p -> (acc = "" \/ exists g, acc = g +:+ "." /\ full_name g) ->
  kp (identifier_loop n acc t) (fun id p' => err p' = None -> full_name id) p.
Proof.
  induction n as [|n IH]; intros acc t p Hi Hacc; cbn [identifier_loop]; [done|].
  eapply kp_bind; [by apply kp_tryMatch|]. intros found p1 Hi1 _ Hfound. destruct found.
  - destruct (Hfound eq_refl) as [Hok Hk].
    eapply kp_bind; [by apply kp_last_consumed|]. intros tok p2 Hi2 _ [-> ->].
    assert (full_name (acc +:+ string_of_bytes (Text (lastConsumed p1)))) as Hfull.
    { pose proof (ok_name _ Hok Hk) as Hseg. destruct Hacc as [->|(g & -> & Hg)].
      - by apply full_name_segment.
      - rewrite append_assoc. by apply full_name_snoc. }
    eapply kp_bind; [apply kp_keeps; [apply keeps_tryMatch|done]|]. intros dot p3 Hi3 _ _.
    destruct dot; [|by apply kp_ret]. apply IH; [done|]. right. eauto.
  - eapply (kp_bind _ _ (fun _ p' => err p' <> None)); [by apply kp_fail|]. intros [] p2 Hi2 _ He.
    apply kp_ret; [done|]. intros ?. by destruct He.
Qed.
Lemma kp_parseIdentifier n p : inv p ->
  kp (parseIdentifier n) (fun id p' => err p' = None -> full_name id.1) p.
Proof.
  intros Hi. unfold parseIdentifier. apply kp_unless; [done| |done]. intros _.
  eapply kp_bind; [by apply kp_peekNextToken|]. intros t p1 Hi1 _ _. apply kp_unless; [done| |done]. intros _.
  case_bool_decide; cbn [negb].
  - eapply kp_bind; [by apply kp_identifier_loop; [|left]|]. intros id p2 Hi2 _ Hid. by apply kp_ret.
  - eapply (kp_bind _ _ (fun _ p' => err p' <> None)); [by apply kp_fail|]. intros [] p2 Hi2 _ He.
    apply kp_ret; [done|]. intros ?. by destruct He.
Qed.
Lemma kp_err_kept {A} (m : PM A) p : keeps false m -> inv p ->
  (forall p' a, m p = (p', Ok a) -> err p' = None -> err p = None) ->
  kp m (fun _ p' => err p' = None -> err p = None) p.
Proof.
  intros Hm Hi He. specialize (Hm p Hi (fun H => ltac:(discriminate H))). unfold kp in *.
  destruct (m p) as [p' [a|e|]]; [|done|done]. destruct Hm as (? & ? & _). split_and!; eauto.
Qed.
Lemma kp_parseModuleDecl n p : inv p ->
  kp (parseModuleDecl n) (fun ns p' => err p' = None -> good_name ns) p.
Proof.
  intros Hi. unfold parseModuleDecl. apply kp_unless; [done| |done]. intros _.
  eapply kp_bind; [apply kp_keeps; [apply keeps_checkEOF|done]|]. intros eof p1 Hi1 _ _.
  destruct eof; [apply kp_ret; [done|by left]|].
  eapply kp_bind; [apply kp_keeps; [apply keeps_peekNextToken|done]|]. intros t p2 Hi2 _ _.
  apply kp_unless; [done| |by left]. intros _.
  assert (kp (bind (unexpectedTokenError t) (fun _ => ret "")) (fun ns p' => err p' = None -> good_name ns) p2) as Hbad.
  { eapply kp_bind; [by apply (kp_keeps (unexpectedTokenError t)); [apply keeps_fail|]|]. intros. apply kp_ret; [done|by left]. }
  destruct (Kind t); try done; try (apply kp_ret; [done|by left]).
  eapply kp_bind; [apply kp_keeps; [apply keeps_consumeNextToken|done]|]. intros _ p3 Hi3 _ _.
  eapply kp_bind; [by apply kp_parseIdentifier|]. intros id p4 Hi4 _ Hid.
  eapply kp_bind.
  - apply kp_err_kept; [apply keeps_matchSemicolon|done|].
    unfold matchSemicolon, matchSemicolonToken, bind, last_consumed. intros p' a.
    destruct (err p4) eqn:He; [|done]. unfold unless_err, bind, OK, is_ok. rewrite He. intros [= <- _]. by rewrite He.
  - intros r p5 Hi5 _ He. apply kp_ret; [done|]. intros He5. right. by apply Hid, He.
Qed.

(** ** The whole file *)
(** What holds after a parse that returns; the scope stack is not restored. *)
Definition parsed {A} (m : PM A) p : Prop :=
  match m p with
  | (p', Ok _) => inv p' /\ mojomFile p' = mojomFile p /\ grows named (mojomFile p) (descr p) (descr p')
  | _ => True
  end.
Lemma kp_parsed {A} (m : PM A) Q p : kp m Q p -> parsed m p.
Proof. unfold kp, parsed. destruct (m p) as [p' [a|e|]]; [|done|done]. by intros (? & (? & ? & ?) & _). Qed.
Lemma parsed_bind {A B} (m : PM A) (k : A -> PM B) Q1 p :
  kp m Q1 p -> (forall a p1, inv p1 -> step p p1 -> Q1 a p1 -> parsed (k a) p1) -> parsed (bind m k) p.
Proof.
  unfold kp, parsed, bind. destruct (m p) as [p1 [a|e|]]; [|done|done].
  intros (Hi & (Hc & Hf & Hg) & HQ) Hk. specialize (Hk a p1 Hi (conj Hc (conj Hf Hg)) HQ).
  destruct (k a p1) as [p2 [b|e|]]; [|done|done]. destruct Hk as (? & ? & Hg2).
  split_and!; [done|congruence|]. etrans; [exact Hg|]. by rewrite <- Hf.
Qed.
Lemma parsed_then {A B} (m : PM A) (k : A -> PM B) p :
  parsed m p -> (forall a, keeps false (k a)) -> parsed (bind m k) p.
Proof.
  unfold parsed, bind. destruct (m p) as [p1 [a|e|]]; [|done|done]. intros (Hi & Hf & Hg) Hk.
  pose proof (Hk a p1 Hi ltac:(done)) as H. unfold kp in H. destruct (k a p1) as [p2 [b|e|]]; [|done|done].
  destruct H as (? & (_ & ? & Hg2) & _). split_and!; [done|congruence|]. etrans; [exact Hg|]. by rewrite <- Hf.
Qed.
Lemma parsed_unless {A} (d : A) (k : PM A) p :
  inv p -> (err p = None -> parsed k p) -> parsed (unless_err d k) p.
Proof.
  intros Hi Hk. unfold unless_err, parsed, bind, OK, is_ok in *. destruct (err p); [|by apply Hk].
  by split_and!.
Qed.
(** The scope of the file is pushed on an empty stack. *)
Lemma parsed_in_scope {A} scope (body : PM A) p :
  inv p -> currentScope p = None -> is_Some (scopes (descr p) !! scope) -> keeps true body ->
  parsed (in_scope scope body) p.
Proof.
  intros Hi Hc Hs Hbody. unfold parsed, in_scope, pushScope, bind, get. rewrite Hc. unfold modify.
  assert (inv (set_currentScope (Some scope) p)) as Hi1.
  { destruct Hi as [? ? ? ? ? ? ?]. split; try done. by intros q [= <-]. }
  specialize (Hbody _ Hi1 (fun _ => mk_is_Some _ scope eq_refl)). unfold kp in Hbody.
  destruct (body (set_currentScope (Some scope) p)) as [p1 [a|e|]]; [|done|done].
  destruct Hbody as (Hi2 & (Hcur & Hfile & Hg) & _). unfold popScope, bind, get. rewrite Hcur. cbn [currentScope set_currentScope].
  unfold must. destruct (scopes (descr p1) !! scope) as [s|] eqn:Hs1; [|done]. unfold modify, ret.
  split_and!; [|done|done].
  pose proof (tree_scope _ (wf_tree _ (inv_descriptor _ Hi2)) scope s Hs1) as Hok. unfold scope_ok in Hok.
  destruct Hi2 as [? ? ? ? ? ? ?]. split; try done. cbn. intros q Hq. rewrite Hq in Hok.
  destruct Hok as (_ & ps & Hps & _). eauto.
Qed.
Lemma InitializeFileScope_scope {E} f ns d d' scope :
  well_formed d -> good_name ns -> InitializeFileScope (E:=E) f ns d = (d', Ok scope) ->
  is_Some (scopes d' !! scope).
Proof.
  intros Hw Hns. unfold InitializeFileScope, update_file. rewrite bind_modify.
  set (d1 := set_files _ d). intros (d2 & sc & Hrun & Hret)%bind_Ok. injection Hret as <- <-.
  assert (well_formed d1) as Hw1.
  { pose proof (kd_update_file named f (E:=E) (set_namespace ns) d Hw) as H. apply H.
    intros fl Hf. split; [|split; [done|by left]]. apply set_namespace_ok; [done|]. by apply (wf_files d Hw f). }
  destruct (NewLexicalScope_run (E:=E) d1 ScopeFileModule None ns (Some f) None d2 sc (wf_tree _ Hw1))
    as (_ & _ & s & q & ps & Hs & _); [done| |done|by eexists].
  intros i fl n [= <-] Hfl. by apply (wf_files d1 Hw1 f).
Qed.
Lemma parseMojomFile_parsed n p : inv p -> currentScope p = None -> parsed (parseMojomFile n) p.
Proof.
  intros Hi Hc. unfold parseMojomFile.
  eapply parsed_bind; [apply kp_keeps; [apply keeps_parseAttributes|done]|]. intros a p1 Hi1 Hs1 _.
  eapply parsed_bind; [by apply kp_parseModuleDecl|]. intros ns p2 Hi2 Hs2 Hns.
  apply parsed_unless; [done|]. intros He2. specialize (Hns He2).
  eapply (parsed_bind _ _ (fun _ _ => True)).
  { apply kp_keeps; [|done]. destruct (negb _); [|apply keeps_ret].
    apply keeps_bind; [|intros; apply keeps_ret]. apply keeps_update_file_at. intros fl Hok.
    split; [|split; [done|by left]]. destruct Hok as [? Hix]. split; [done|]. by apply (same_imports_ok fl). }
  intros a3 p3 Hi3 Hs3 _. eapply (parsed_bind _ _ (fun q p' => q = p3 /\ p' = p3)); [by split_and!|].
  intros q p4 _ _ [-> ->].
  eapply parsed_bind.
  { apply (kp_with_descriptor _ (fun scope p' => is_Some (scopes (descr p') !! scope))); [done| |].
    - by apply kd_InitializeFileScope; [apply Hi3|].
    - intros d scope Hrun. by eapply InitializeFileScope_scope; [apply Hi3| |]. }
  intros scope p5 Hi5 Hs5 Hscope. apply parsed_in_scope; [done| |done|apply keeps_parse_after_module].
  by destruct Hs5 as [-> _], Hs3 as [-> _], Hs2 as [-> _], Hs1 as [-> _].
Qed.
Lemma Parse_parsed n p : inv p -> currentScope p = None -> parsed (Parse n) p.
Proof.
  intros Hi Hc. unfold Parse. eapply (parsed_bind _ _ (fun q p' => q = p /\ p' = p)); [by split_and!|].
  intros q p1 _ _ [-> ->]. destruct (used p); [done|].
  eapply (parsed_bind _ _ (fun _ p' => currentScope p' = None)); [by apply kp_unmentioned|].
  intros [] p2 Hi2 _ Hc2. apply parsed_then; [by apply parseMojomFile_parsed|]. intros _. keeps.
Qed.
End Heap.
