(* ===== verification/Filepath.v ===== *)
(** * What the driver uses of Go's [path/filepath] on Unix, and of [os]

    Paths are strings.  [Clean] removes empty and "." elements and resolves
    ".." lexically; the other functions are documented by it.  The operating
    system is a parameter. *)
From Stdlib Require Export Ascii.
From S2P Require Export Prelude.

Definition IsAbs (path : string) : bool := String.prefix "/" path.

(** [strings.Split(path, "/")] and [strings.Join(elements, "/")]. *)
Fixpoint split_slash (s : string) : list string :=
  match s with
  | EmptyString => [""]
  | String c s =>
    if Ascii.eqb c "/"%char then "" :: split_slash s
    else match split_slash s with
         | x :: r => String c x :: r
         | [] => [String c ""]
         end
  end.
Fixpoint join_slash (l : list string) : string :=
  match l with
  | [] => ""
  | [x] => x
  | x :: r => x +:+ "/" +:+ join_slash r
  end.

(** One element; the elements kept so far are in reverse order. *)
Definition clean_step (rooted : bool) (out : list string) (element : string) : list string :=
  if bool_decide (element = "") || bool_decide (element = ".") then out
  else if bool_decide (element = "..") then
    match out with
    | [] => if rooted then [] else [".."]
    | x :: rest => if bool_decide (x = "..") then ".." :: out else rest
    end
  else element :: out.
Definition clean_elements (rooted : bool) (elements : list string) : list string :=
  rev (foldl (clean_step rooted) [] elements).
Definition Clean (path : string) : string :=
  let rooted := IsAbs path in
  let out := join_slash (clean_elements rooted (split_slash path)) in
  if rooted then "/" +:+ out else if bool_decide (out = "") then "." else out.

Definition Join2 (a b : string) : string :=
  if bool_decide (a = "") then (if bool_decide (b = "") then "" else Clean b)
  else Clean (a +:+ "/" +:+ b).
(** Everything up to the last slash. *)
Definition Dir (path : string) : string :=
  Clean (foldr (fun x r => x +:+ "/" +:+ r) "" (removelast (split_slash path))).

(** The last element, without trailing slashes. *)
Fixpoint last_nonempty (l : list string) : option string :=
  match l with
  | [] => None
  | x :: l => match last_nonempty l with
              | Some y => Some y
              | None => if bool_decide (x = "") then None else Some x
              end
  end.
Definition Base (path : string) : string :=
  if bool_decide (path = "") then "." else default "/" (last_nonempty (split_slash path)).
(** The suffix from the last dot of the last element, and what is before it. *)
Fixpoint from_last_dot (s : string) : option string :=
  match s with
  | EmptyString => None
  | String c s =>
    match from_last_dot s with
    | Some e => Some e
    | None => if Ascii.eqb c "."%char then Some (String c s) else None
    end
  end.
Definition Ext (path : string) : string := default "" (from_last_dot (List.last (split_slash path) "")).
Definition without_ext (path : string) : string :=
  String.substring 0 (String.length path - String.length (Ext path)) path.

(** [os.Stat] says whether there is something at a path and whether it is a
    directory; [os.Getwd] may fail. *)
Class OS := {
  Stat : string -> option bool;
  ReadFile : string -> option (list Z);
  Getwd : option string
}.
Definition Abs `{OS} (path : string) : option string :=
  if IsAbs path then Some (Clean path)
  else wd ← Getwd; Some (Join2 wd path).

Example Clean_1 : Clean "a//./b/../../../c/" = "../c". Proof. reflexivity. Qed.
Example Clean_2 : Clean "/../a/.." = "/". Proof. reflexivity. Qed.
Example Dir_1 : Dir "/a/b.fidl" = "/a" /\ Dir "b.fidl" = "." /\ Dir "/b" = "/". Proof. auto. Qed.
Example Base_1 : Base "a/b.fidl/" = "b.fidl" /\ Base "" = "." /\ Base "//" = "/". Proof. auto. Qed.
Example Ext_1 : Ext "a.b/c.d.e" = ".e" /\ Ext "a.b/c" = "" /\ without_ext "x/c.d" = "x/c". Proof. auto. Qed.
