(* ===== verification/ParseDriver.v ===== *)
(** * The parse driver: compiler/parser/parse_driver.go

    [ParseFiles] takes files from a queue, finds each one, parses it unless the
    descriptor already has it, and appends its imports.  The interfaces of the
    source, through which tests replace the file system and the parser, are
    the classes [FileProvider], [FileExtractor] and [ParseInvoker]. *)
From S2P Require Export Filepath ParseDecls.

#[local] Set Warnings "-register-all".
Abbreviation TokenSource := (FilteredTokenStream TokenChan).

(** A reference is complete when it becomes the importer of another one, so
    that [importedFrom] may be its value instead of a pointer. *)
Inductive FileReference := mkFileReference {
  ref_mojomFile : option nat;
  importedFrom : option FileReference;
  specifiedPath : string;
  absolutePath : string;
  directoryPath : string
}.
Definition set_mojomFile (f : nat) (r : FileReference) : FileReference :=
  mkFileReference (Some f) (importedFrom r) (specifiedPath r) (absolutePath r) (directoryPath r).
Definition top_level (fileName : string) : FileReference := mkFileReference None None fileName "" "".
Definition import_of (currentFile : FileReference) (name : string) : FileReference :=
  mkFileReference None (Some currentFile) name "" "".

Inductive FileError :=
| FileNotFound (specifiedPath : string)
| NoAbsolutePath (specifiedPath : string)
| FileReadError (specifiedPath : string).
Inductive DriverError :=
| FileFailed (e : FileError)
| ParserFailed (e : ParserError)
| DriverOutOfFuel
| ParserOutOfFuel.

Class FileProvider := {
  provideContents : FileReference -> res FileError (list Z);
  findFile : FileReference -> res FileError FileReference
}.
Class FileExtractor := extractMojomFile : Parser TokenSource -> nat.
Class ParseInvoker := invokeParse : PM TokenSource unit.

#[export] Instance DefaultFileExtractor : FileExtractor := mojomFile.
(** The fuel is that of [Parse]. *)
Definition DefaultParseInvoker (fuel : nat) : ParseInvoker := Parse fuel.

(** ** The file system *)
Section OSFileProvider.
Context `{OS} (importDirs : list string).

Definition isFile (path : string) : bool :=
  match Stat path with Some isDir => negb isDir | None => false end.
Definition located (fileRef : FileReference) (absolute : string) : FileReference :=
  mkFileReference (ref_mojomFile fileRef) (importedFrom fileRef) (specifiedPath fileRef) absolute (Dir absolute).
Definition at_path (fileRef : FileReference) (path : string) : res FileError FileReference :=
  match Abs path with
  | Some absolute => Ok (located fileRef absolute)
  | None => Err (NoAbsolutePath (specifiedPath fileRef))
  end.
Fixpoint search_dirs (fileRef : FileReference) (dirs : list string)
    (otherwise : res FileError FileReference) : res FileError FileReference :=
  match dirs with
  | [] => otherwise
  | dir :: dirs =>
    let attemptedName := Join2 dir (specifiedPath fileRef) in
    if isFile attemptedName then at_path fileRef attemptedName else search_dirs fileRef dirs otherwise
  end.
Definition OS_findFile (fileRef : FileReference) : res FileError FileReference :=
  if negb (bool_decide (absolutePath fileRef = "")) then Ok fileRef
  else if IsAbs (specifiedPath fileRef) then Ok (located fileRef (specifiedPath fileRef))
  else
    let finally :=
      if isFile (specifiedPath fileRef) then at_path fileRef (specifiedPath fileRef)
      else Err (FileNotFound (specifiedPath fileRef)) in
    match importedFrom fileRef with
    | Some importer =>
      let attemptedName := Join2 (directoryPath importer) (specifiedPath fileRef) in
      if isFile attemptedName then at_path fileRef attemptedName
      else search_dirs fileRef importDirs finally
    | None => finally
    end.
Definition OS_provideContents (fileRef : FileReference) : res FileError (list Z) :=
  match ReadFile (absolutePath fileRef) with
  | Some data => Ok data
  | None => Err (FileReadError (specifiedPath fileRef))
  end.
Definition OSFileProvider : FileProvider :=
  {| provideContents := OS_provideContents; findFile := OS_findFile |}.
End OSFileProvider.

(** ** The driver *)
Definition ContainsFile (d : MojomDescriptor) (fileName : string) : bool :=
  bool_decide (is_Some (MojomFilesByName d !! fileName)).

Section ParseDriver.
Context `{FileProvider} `{FileExtractor} `{ParseInvoker}.
Context (metaDataOnlyMode : bool).
#[local] Abbreviation DM := (M Heap DriverError).

Definition of_provider {A} (r : res FileError A) : DM A :=
  match r with Ok a => ret a | Err e => throw (FileFailed e) | Panic => panic end.

(** Tells the importing file about the absolute path of the imported one. *)
Definition tell_importer (currentFile : FileReference) : DM unit :=
  match importedFrom currentFile with
  | None => ret tt
  | Some importer =>
    let! f := must (ref_mojomFile importer) in
    let! h := get in
    let! file := must (mojomFiles (mojomDescriptor h) !! f) in
    let! file := must (SetCanonicalImportName (specifiedPath currentFile) (absolutePath currentFile) file) in
    modify (fun h => set_descriptor
      (set_files (<[f := file]> (mojomFiles (mojomDescriptor h))) (mojomDescriptor h)) h)
  end.
Definition importing_file (currentFile : FileReference) : option nat :=
  importedFrom currentFile ≫= ref_mojomFile.

(** Makes a parser for the contents, invokes it and extracts its file. *)
Definition run_parser (currentFile : FileReference) (contents : list Z) : DM nat :=
  let topLevelFileName :=
    match importing_file currentFile with None => specifiedPath currentFile | Some _ => "" end in
  let! stream := must (Tokenize contents) in
  let! parser := MakeParser (absolutePath currentFile) topLevelFileName stream (importing_file currentFile) in
  fun _ =>
    match invokeParse (SetMetaDataOnlyMode metaDataOnlyMode parser) with
    | (parser, Ok _) =>
      (heap parser,
       match err parser with
       | Some e => Err (ParserFailed e)
       | None => Ok (extractMojomFile parser)
       end)
    | (parser, Err NoFuel) => (heap parser, Err ParserOutOfFuel)
    | (parser, Panic) => (heap parser, Panic)
    end.

(** One turn of the loop, up to the references it appends to the queue. *)
Definition process_file (currentFile : FileReference) : DM (list FileReference) :=
  let! currentFile := of_provider (findFile currentFile) in
  tell_importer currentFile ;;;
  let! h := get in
  if ContainsFile (mojomDescriptor h) (absolutePath currentFile) then ret []
  else
    let! contents := of_provider (provideContents currentFile) in
    let! f := run_parser currentFile contents in
    if metaDataOnlyMode then ret []
    else
      let! h := get in
      let! file := must (mojomFiles (mojomDescriptor h) !! f) in
      let currentFile := set_mojomFile f currentFile in
      ret (map (fun importedFile => import_of currentFile (SpecifiedName importedFile)) (Imports file)).
Fixpoint parse_loop (fuel : nat) (filesToProcess : list FileReference) : DM unit :=
  match filesToProcess with
  | [] => ret tt
  | currentFile :: filesToProcess =>
    match fuel with
    | O => throw DriverOutOfFuel
    | S fuel =>
      let! imported := process_file currentFile in
      parse_loop fuel (filesToProcess ++ imported)
    end
  end.
End ParseDriver.

Definition empty_heap : Heap := mkHeap NewMojomDescriptor ∅ ∅ ∅ ∅.
