(* ===== verification/FilepathSpec.v ===== *)
(** * Clean paths, and the canonical names of the files the driver finds

    [Clean] is idempotent, so that a path it has returned is the only lexical
    name of its file; [OS_findFile] names a file by such a path unless the
    specified path is absolute, when it uses that path as it is. *)
From S2P Require Export ParseDriver.

(** ** Elements *)
Definition is_slash (c : ascii) : bool := Ascii.eqb c "/"%char.
Fixpoint no_slash (s : string) : bool :=
  match s with EmptyString => true | String c s => negb (is_slash c) && no_slash s end.
Definition plain (x : string) : Prop := no_slash x = true.

Lemma split_slash_nonempty s : split_slash s <> [].
Proof. destruct s as [|c s]; cbn; [done|]. destruct (Ascii.eqb _ _); [done|]. by destruct (split_slash s). Qed.
Lemma split_slash_plain s : Forall plain (split_slash s).
Proof.
  induction s as [|c s IH]; cbn; [by repeat constructor|]. destruct (Ascii.eqb c "/") eqn:Hc; [by constructor|].
  destruct (split_slash s) as [|x r]; [by constructor; [unfold plain; cbn; unfold is_slash; rewrite Hc|]|].
  apply Forall_cons in IH as [Hx Hr]. constructor; [|done]. unfold plain. cbn. unfold is_slash. by rewrite Hc.
Qed.
Lemma split_slash_app x s : plain x -> split_slash (x +:+ "/" +:+ s) = x :: split_slash s.
Proof.
  induction x as [|c x IH]; intros Hx; [done|]. unfold plain in Hx. cbn in Hx. apply andb_prop in Hx as [Hc Hx].
  change (split_slash (String c x +:+ "/" +:+ s)) with (split_slash (String c (x +:+ "/" +:+ s))). cbn.
  unfold is_slash in Hc. destruct (Ascii.eqb c "/"); [done|]. by rewrite IH.
Qed.
Lemma split_slash_one x : plain x -> split_slash x = [x].
Proof.
  induction x as [|c x IH]; intros Hx; [done|]. unfold plain in Hx. cbn in Hx. apply andb_prop in Hx as [Hc Hx].
  cbn. unfold is_slash in Hc. destruct (Ascii.eqb c "/"); [done|]. by rewrite IH.
Qed.
Lemma split_slash_join l : l <> [] -> Forall plain l -> split_slash (join_slash l) = l.
Proof.
  induction l as [|x [|y l] IH]; intros Hne Hl; [done|by apply split_slash_one; apply Forall_cons in Hl as [? _]|].
  apply Forall_cons in Hl as [Hx Hl]. change (join_slash (x :: y :: l)) with (x +:+ "/" +:+ join_slash (y :: l)).
  rewrite split_slash_app by done. by rewrite IH.
Qed.

(** ** Normal lists of elements *)
Definition kept (x : string) : Prop := plain x /\ x <> "" /\ x <> ".".
(** The reverse of what is kept: the elements ".." are the first ones, and none
    of a rooted path. *)
Inductive normal (rooted : bool) : list string -> Prop :=
| normal_up l : rooted = false -> Forall (eq "..") l -> normal rooted l
| normal_nil : normal rooted []
| normal_cons x l : kept x -> x <> ".." -> normal rooted l -> normal rooted (x :: l).

Lemma clean_step_keeps rooted out x : plain x -> normal rooted out -> normal rooted (clean_step rooted out x).
Proof.
  intros Hx Hout. unfold clean_step.
  destruct (bool_decide_reflect (x = "")), (bool_decide_reflect (x = ".")); try done. cbn [orb].
  case_bool_decide as Hup; [|by apply normal_cons].
  destruct Hout as [l -> Hl| |y l Hy Hne Hl].
  - apply normal_up; [done|]. destruct Hl as [|y l <- Hl]; [by repeat constructor|]. cbn. by repeat constructor.
  - destruct rooted; [by apply normal_nil|]. by apply normal_up; repeat constructor.
  - by rewrite bool_decide_false by done.
Qed.
Lemma foldl_normal rooted l : forall out, Forall plain l -> normal rooted out -> normal rooted (foldl (clean_step rooted) out l).
Proof.
  induction l as [|x l IH]; intros out Hl Hout; [done|]. apply Forall_cons in Hl as [Hx Hl]. cbn.
  by apply IH, clean_step_keeps.
Qed.
Lemma clean_step_normal rooted out x : normal rooted (x :: out) -> clean_step rooted out x = x :: out.
Proof.
  unfold clean_step. inversion 1 as [l Hr Hl| |y l [_ [? ?]] Hne Hl]; subst.
  - apply Forall_cons in Hl as [<- Hl]. cbn. destruct Hl as [|y l <- Hl]; done.
  - by rewrite !bool_decide_false by done.
Qed.
Lemma normal_tail rooted x out : normal rooted (x :: out) -> normal rooted out.
Proof. inversion 1 as [l Hr Hl| |]; subst; [|done]. apply Forall_cons in Hl as [_ Hl]. by apply normal_up. Qed.
Lemma clean_normal rooted out : normal rooted out -> clean_elements rooted (rev out) = rev out.
Proof.
  intros Hout. unfold clean_elements. f_equal. induction out as [|x out IH]; [done|].
  cbn [rev]. rewrite foldl_app. cbn. rewrite IH by by eapply normal_tail. by apply clean_step_normal.
Qed.
Lemma normal_kept rooted out : normal rooted out -> Forall kept out.
Proof.
  induction 1 as [l _ Hl| |x l Hx _ _ IH]; [|done|by constructor]. eapply Forall_impl; [done|]. by intros x <-.
Qed.
Lemma clean_elements_kept rooted l : Forall plain l -> Forall kept (clean_elements rooted l) /\
  clean_elements rooted (clean_elements rooted l) = clean_elements rooted l.
Proof.
  intros Hl. assert (normal rooted (foldl (clean_step rooted) [] l)) as Hn by by apply foldl_normal; [|apply normal_nil].
  split; [|by apply clean_normal]. apply Forall_rev. by eapply normal_kept.
Qed.

(** ** Clean *)
Lemma IsAbs_slash s : IsAbs ("/" +:+ s) = true.
Proof. by destruct s. Qed.
Lemma IsAbs_char c s : IsAbs (String c s) = Ascii.eqb c "/".
Proof. by destruct c as [[] [] [] [] [] [] [] []], s. Qed.
Lemma IsAbs_join l : Forall kept l -> IsAbs (join_slash l) = false.
Proof.
  destruct l as [|[|c x] l]; [done|by intros [(_ & ? & _) _]%Forall_cons|]. intros [[Hp _] _]%Forall_cons.
  assert (Ascii.eqb c "/" = false) as Hc by (unfold plain in Hp; cbn in Hp; unfold is_slash in Hp; by destruct (Ascii.eqb c "/")).
  destruct l; cbn [join_slash]; exact (eq_trans (IsAbs_char c _) Hc).
Qed.
Lemma join_empty l : Forall kept l -> join_slash l = "" -> l = [].
Proof.
  destruct l as [|[|c x] l]; [done|by intros [(_ & ? & _) _]%Forall_cons|]. by destruct l.
Qed.
Lemma IsAbs_Clean p : IsAbs (Clean p) = IsAbs p.
Proof.
  unfold Clean. destruct (IsAbs p) eqn:Hp; cbv zeta; [apply IsAbs_slash|]. case_bool_decide; [done|].
  apply IsAbs_join, clean_elements_kept, split_slash_plain.
Qed.
Lemma Clean_idempotent p : Clean (Clean p) = Clean p.
Proof.
  pose proof (IsAbs_Clean p) as Habs. unfold Clean at 1. rewrite Habs. unfold Clean. cbv zeta.
  destruct (clean_elements_kept (IsAbs p) (split_slash p) (split_slash_plain p)) as [Hk Hc].
  set (l := clean_elements (IsAbs p) (split_slash p)) in *.
  assert (Forall plain l) as Hpl by (eapply Forall_impl; [done|]; by intros x [? _]).
  destruct (IsAbs p).
  - f_equal. f_equal. change ("/" +:+ join_slash l) with ("" +:+ "/" +:+ join_slash l). rewrite split_slash_app by done.
    destruct (decide (l = [])) as [E|Hne]; [by rewrite E|]. rewrite split_slash_join by done. exact Hc.
  - destruct (bool_decide_reflect (join_slash l = "")) as [He|He]; [done|]. rewrite split_slash_join by (done || by intros E; rewrite E in He).
    rewrite Hc. by rewrite bool_decide_false.
Qed.
Lemma IsAbs_app a b : a <> "" -> IsAbs (a +:+ b) = IsAbs a.
Proof. destruct a as [|c a]; [done|]. intros _. exact (eq_trans (IsAbs_char c _) (eq_sym (IsAbs_char c a))). Qed.
Lemma Abs_clean `{OS} p r :
  (forall wd, Getwd = Some wd -> IsAbs wd = true) -> Abs p = Some r -> IsAbs r = true /\ Clean r = r.
Proof.
  intros Hwd. unfold Abs. destruct (IsAbs p) eqn:Hp; [intros [= <-]; by rewrite IsAbs_Clean, Clean_idempotent|].
  destruct Getwd as [wd|] eqn:Hg; [|done]. intros [= <-]. pose proof (Hwd wd eq_refl) as Habs.
  unfold Join2. rewrite bool_decide_false by by intros ->. rewrite IsAbs_Clean, Clean_idempotent.
  by rewrite IsAbs_app by by intros ->.
Qed.

(** ** The names of files *)
(** C38: The file provider of the operating system gives a file whose path was specified relative to something a canonical name that is absolute and clean, so that it is the only lexical name of the file, and the directory of that name; imports are looked up in the directory of the importing file before the import directories, and top-level files in the working directory only. *)
Theorem OS_findFile_canonical `{OS} importDirs r r' :
  (forall wd, Getwd = Some wd -> IsAbs wd = true) ->
  absolutePath r = "" -> IsAbs (specifiedPath r) = false -> OS_findFile importDirs r = Ok r' ->
  IsAbs (absolutePath r') = true /\ Clean (absolutePath r') = absolutePath r' /\
  directoryPath r' = Dir (absolutePath r') /\
  exists path, Abs path = Some (absolutePath r') /\ isFile path = true /\
    match importedFrom r with
    | None => path = specifiedPath r
    | Some from =>
      let beside := Join2 (directoryPath from) (specifiedPath r) in
      let inside dir := Join2 dir (specifiedPath r) in
      path = beside \/
      isFile beside = false /\
      ((exists before dir after, importDirs = before ++ dir :: after /\ path = inside dir /\
          forall d, d ∈ before -> isFile (inside d) = false) \/
       path = specifiedPath r /\ forall d, d ∈ importDirs -> isFile (inside d) = false)
    end.
Proof.
  intros Hwd Hnew Hrel. unfold OS_findFile. rewrite Hnew, Hrel. cbn [negb bool_decide]. cbv zeta.
  assert (forall path, isFile path = true -> at_path r path = Ok r' ->
    IsAbs (absolutePath r') = true /\ Clean (absolutePath r') = absolutePath r' /\
    directoryPath r' = Dir (absolutePath r') /\ Abs path = Some (absolutePath r') /\ isFile path = true) as Hat.
  { intros path Hf. unfold at_path. destruct (Abs path) as [a|] eqn:Ha; [|done]. intros [= <-].
    destruct (Abs_clean path a Hwd Ha). done. }
  assert (forall dirs other, search_dirs r dirs other = Ok r' ->
    (exists before dir after, dirs = before ++ dir :: after /\ isFile (Join2 dir (specifiedPath r)) = true /\
       at_path r (Join2 dir (specifiedPath r)) = Ok r' /\
       forall d, d ∈ before -> isFile (Join2 d (specifiedPath r)) = false) \/
    other = Ok r' /\ forall d, d ∈ dirs -> isFile (Join2 d (specifiedPath r)) = false) as Hsearch.
  { intros dirs other. induction dirs as [|d dirs IH]; cbn [search_dirs].
    - intros H1. right. split; [done|]. by intros d Hd%elem_of_nil.
    - cbv zeta. destruct (isFile (Join2 d _)) eqn:Hd.
      + intros H1. left. exists [], d, dirs. split_and!; try done. by intros ? ?%elem_of_nil.
      + intros [(b & x & a & -> & Hx & Hr & Hb)|[Ho Hb]]%IH; [left; exists (d :: b), x, a|right];
          (split_and!; try done); intros y [->|Hy]%elem_of_cons; auto. }
  destruct (importedFrom r) as [from|].
  - destruct (isFile (Join2 (directoryPath from) _)) eqn:Hb.
    + intros (? & ? & ? & ? & ?)%Hat; [|done]. split_and!; try done. eexists. split_and!; eauto.
    + intros [(b & x & a & Hd & Hx & Hr & Hbef)|[Ho Hbef]]%Hsearch.
      * destruct (Hat _ Hx Hr) as (? & ? & ? & ? & ?). split_and!; try done. eexists. split_and!; try done.
        right. split; [done|]. left. by exists b, x, a.
      * destruct (isFile (specifiedPath r)) eqn:Hf; [|done]. destruct (Hat _ Hf Ho) as (? & ? & ? & ? & ?).
        split_and!; try done. eexists. split_and!; try done. right. split; [done|]. by right.
  - destruct (isFile (specifiedPath r)) eqn:Hf; [|done]. intros (? & ? & ? & ? & ?)%Hat; [|done].
    split_and!; try done. eexists. split_and!; eauto.
Qed.
(** An import that is found in the second import directory. *)
Definition one_file_os : OS :=
  {| Stat p := if bool_decide (p = "inc/b.fidl") then Some false else None; ReadFile _ := None; Getwd := Some "/w" |}.
Definition an_import : FileReference :=
  mkFileReference None (Some (mkFileReference (Some 0%nat) None "a.fidl" "/w/a.fidl" "/w")) "b.fidl" "" "".
Definition found_import : FileReference :=
  mkFileReference None (importedFrom an_import) "b.fidl" "/w/inc/b.fidl" "/w/inc".
Theorem OS_findFile_canonical_witness :
  OS_findFile (H := one_file_os) ["lib"; "inc/"] an_import = Ok found_import /\
  Clean (absolutePath found_import) = absolutePath found_import.
Proof.
  assert (OS_findFile (H := one_file_os) ["lib"; "inc/"] an_import = Ok found_import) as H by by vm_compute.
  split; [exact H|].
  apply (OS_findFile_canonical (H := one_file_os) ["lib"; "inc/"] an_import found_import); [|reflexivity|reflexivity|exact H].
  by intros wd [= <-].
Defined.
(** A path that is specified as absolute is not cleaned: the same file has two
    canonical names. *)
Example absolute_path_as_is : OS_findFile (H := one_file_os) [] (top_level "/w/../w/a.fidl") =
  Ok (mkFileReference None None "/w/../w/a.fidl" "/w/../w/a.fidl" "/w").
Proof. reflexivity. Qed.
