(* ===== verification/ParseDriverSpec.v ===== *)
(** * What the parse driver promises

    The driver is verified against an interface: [LawfulProvider] for the file
    system and [LawfulInvoker] for the parser.  The parser of [ParseDecls] and
    the file provider of the operating system satisfy it. *)
From S2P Require Import Lexer LexerSpec ParserSpec.
From S2P Require Export ParseDriver ParserHeap.
#[local] Set Warnings "-clear-no-such-hyp".

(** ** Heaps between two parses *)
#[local] Abbreviation descr := mojomDescriptor.
Record heap_ok (h : Heap) : Prop := mkHeapOk {
  ok_descriptor : well_formed (descr h);
  ok_structs q s : structTable h !! q = Some s -> dd_simpleName (s_decl s) <> "";
  ok_interfaces q i : interfaceTable h !! q = Some i -> dd_simpleName (i_decl i) <> "";
  ok_enums q e : enumTable h !! q = Some e -> dd_simpleName (e_decl e) <> ""
}.
(** The text of a string literal of a file. *)
Definition literal_of (contents : list Z) (n : string) : Prop :=
  exists toks t text, tokenizeUnfiltered contents = Some toks /\ t ∈ toks /\ Kind t = StringLiteral /\
    StringLiteralTokenToText t = Some text /\ n = string_of_bytes text.

(** The file [name] with these contents was parsed in the heap [h]. *)
Record parsed_file (contents : list Z) (name : string) (h : Heap) (p : Parser TokenSource) : Prop := mkParsedFile {
  pf_heap : heap_ok (heap p);
  pf_file : mojomFile p = length (mojomFiles (descr h));
  pf_names : MojomFilesByName (descr (heap p)) = <[name := mojomFile p]> (MojomFilesByName (descr h));
  pf_others g : (g < mojomFile p)%nat -> mojomFiles (descr (heap p)) !! g = mojomFiles (descr h) !! g;
  pf_count : length (mojomFiles (descr (heap p))) = S (mojomFile p);
  pf_own : exists fl, mojomFiles (descr (heap p)) !! mojomFile p = Some fl /\ CanonicalFileName fl = name /\
    forall imp, imp ∈ Imports fl -> literal_of contents (SpecifiedName imp) /\ imp_CanonicalFileName imp = ""
}.

(** ** The interfaces *)
Class LawfulProvider (F : FileProvider) : Prop :=
  findFile_keeps r r' : findFile r = Ok r' ->
    ref_mojomFile r' = ref_mojomFile r /\ importedFrom r' = importedFrom r /\ specifiedPath r' = specifiedPath r.
Class LawfulInvoker (I : ParseInvoker) : Prop :=
  invokeParse_parses metaDataOnly contents stream name spec importer h h1 p p' :
    heap_ok h -> Tokenize contents = Some stream ->
    MakeParser (E:=DriverError) name spec stream importer h = (h1, Ok p) ->
    invokeParse (SetMetaDataOnlyMode metaDataOnly p) = (p', Ok tt) -> parsed_file contents name h p'.

#[export] Instance OSFileProvider_lawful `{OS} dirs : LawfulProvider (OSFileProvider dirs).
Proof.
  assert (forall r path r', at_path r path = Ok r' ->
    ref_mojomFile r' = ref_mojomFile r /\ importedFrom r' = importedFrom r /\ specifiedPath r' = specifiedPath r) as Hat.
  { intros r path r'. unfold at_path. destruct (Abs path); [|done]. by intros [= <-]. }
  assert (forall r dirs other r', search_dirs r dirs other = Ok r' ->
    other = Ok r' \/ exists path, at_path r path = Ok r') as Hsearch.
  { intros r ds other r'. induction ds as [|d ds IH]; cbn [search_dirs]; [by left|]. cbv zeta.
    destruct (isFile _); [by eauto|done]. }
  intros r r'. cbn. unfold OS_findFile. destruct (negb _); [by intros [= <-]|].
  destruct (IsAbs _); [by intros [= <-]|]. cbv zeta.
  assert (forall r', (if isFile (specifiedPath r) then at_path r (specifiedPath r) else Err (FileNotFound (specifiedPath r)))
    = Ok r' -> exists path, at_path r path = Ok r') as Hfinal by (intros r1; destruct (isFile _); [eauto|done]).
  intros Hrun. destruct (importedFrom r) in Hrun; [|destruct (Hfinal _ Hrun) as [path Hp]; by eapply Hat].
  destruct (isFile (Join2 _ _)) in Hrun; [by eapply Hat|]. apply Hsearch in Hrun as [[path Hp]%Hfinal|[path Hp]]; by eapply Hat.
Qed.

(** ** Adding a file *)
Lemma MakeParser_run {E} name spec stream importer h h1 p :
  MakeParser (S:=TokenSource) (E:=E) name spec stream importer h = (h1, Ok p) ->
  exists fl, CanonicalFileName fl = name /\ ModuleNamespace fl = None /\ Imports fl = [] /\
    importsBySpecifiedName fl = ∅ /\ MojomFilesByName (descr h) !! name = None /\
    let f := length (mojomFiles (descr h)) in
    let d := set_files_by_name (<[name := f]> (MojomFilesByName (descr h)))
               (set_files (mojomFiles (descr h) ++ [fl]) (descr h)) in
    p = mkParser stream None zeroToken zeroToken (set_descriptor d h) f None false false false.
Proof.
  unfold MakeParser, AddMojomFile, newMojomFile. destruct (negb _); [done|].
  unfold bind, ret, get, modify. cbn [MojomFilesByName set_files].
  case_bool_decide as Hname; [done|]. intros [= <- <-].
  eexists. split; [|split; [|split; [|split; [|split; [by apply eq_None_not_Some|reflexivity]]]]]; done.
Qed.
Lemma AddMojomFile_well_formed d name f fl :
  well_formed d -> file_ok fl ->
  well_formed (set_files_by_name (<[name := f]> (MojomFilesByName d)) (set_files (mojomFiles d ++ [fl]) d)).
Proof.
  intros [? ? Hf ? ? ? ?] Hfl. split; try done; [by apply (same_shape_tree d)|].
  intros g x. cbn. intros [Hg|[_ Hg]]%lookup_app_Some; [by eapply Hf|].
  apply list_lookup_singleton_Some in Hg as [_ <-]. done.
Qed.

(** ** The parser keeps the promise *)
Lemma name_segment l : l <> [] -> all isNameRune l -> segment (string_of_bytes l).
Proof.
  intros Hne Hall. split; [by destruct l|]. clear Hne. unfold no_dot.
  induction Hall as [|c l Hc Hl IH]; [done|].
  change (string_of_bytes (c :: l)) with (String (ascii_of_N (Z.to_N c)) (string_of_bytes l)).
  rewrite split_dots_cons, IH. destruct (Ascii.eqb_spec (ascii_of_N (Z.to_N c)) "."%char) as [Hdot|]; [|done].
  exfalso. pose proof (isNameRune_ascii c Hc). apply (f_equal N_of_ascii) in Hdot.
  assert (0 <= c) by (unfold isNameRune, isAlpha, isDigit in Hc;
    change (chr "a") with 97 in Hc; change (chr "A") with 65 in Hc; change (chr "0") with 48 in Hc;
    change (chr "_") with 95 in Hc; lia).
  rewrite N_ascii_embedding in Hdot by lia. assert (c = 46) as -> by (cbn in Hdot; lia). done.
Qed.
Definition ok_token (toks : list Token) (t : Token) : Prop := t = zeroToken \/ t = eofToken \/ t ∈ toks.
Lemma ok_token_name contents toks t :
  tokenizeUnfiltered contents = Some toks -> ok_token toks t -> Kind t = Name -> segment (string_of_bytes (Text t)).
Proof.
  intros Htok [->|[->|Ht]] Hk; [done..|]. apply list_elem_of_In in Ht.
  destruct (lexer_names contents toks t Htok Ht Hk). by apply name_segment.
Qed.
Lemma named_literal contents toks n :
  tokenizeUnfiltered contents = Some toks -> named (ok_token toks) n -> literal_of contents n.
Proof.
  intros Htok (t & text & [->|[->|Ht]] & Hk & Htext & ->); [done..|]. by exists toks, t, text.
Qed.
(** The state in which a parse of the contents starts. *)
Lemma new_parser_inv contents toks s h fl p name :
  tokenizeUnfiltered contents = Some toks -> Tokenize contents = Some s ->
  heap_ok h -> file_ok fl ->
  let f := length (mojomFiles (descr h)) in
  let d := set_files_by_name (<[name := f]> (MojomFilesByName (descr h)))
             (set_files (mojomFiles (descr h) ++ [fl]) (descr h)) in
  p = mkParser s None zeroToken zeroToken (set_descriptor d h) f None false false false ->
  forall meta, inv (R := tokens_of toks) (ok_token toks) (SetMetaDataOnlyMode meta p).
Proof.
  intros Htok Hs [Hw ? ? ?] Hfl f d -> meta. unfold Tokenize in Hs. rewrite Htok in Hs.
  unfold NewFilteredTokenStream in Hs. rewrite bool_decide_false in Hs by apply comment_kinds_EOF.
  injection Hs as <-. split; try done.
  - by apply AddMojomFile_well_formed.
  - eexists. split; [apply tokens_of_new|]. apply Forall_forall. intros t [_ Ht]%list_elem_of_filter. by right; right.
  - by left.
Qed.
#[export] Instance Parse_lawful fuel : LawfulInvoker (DefaultParseInvoker fuel).
Proof.
  intros meta contents s name spec imp h h1 p p' Hh Hs Hmake Hrun.
  destruct (MakeParser_run _ _ _ _ _ _ _ Hmake) as (fl & Hname & Hns & Himp & Hmap & Hnew & Hp).
  destruct (tokenizeUnfiltered contents) as [toks|] eqn:Htok; [|by unfold Tokenize in Hs; rewrite Htok in Hs].
  assert (file_ok fl) as Hfl.
  { split; [by rewrite Hns|]. split; rewrite Himp, Hmap; [done|by intros ? ?%elem_of_nil]. }
  pose proof (new_parser_inv contents toks s h fl p name Htok Hs Hh Hfl Hp meta) as Hi.
  assert (parsed (R := tokens_of toks) (ok_token toks) (Parse fuel) (SetMetaDataOnlyMode meta p)) as H.
  { apply Parse_parsed; [by right; left|intros t; by apply ok_token_name with contents|done|by rewrite Hp]. }
  unfold parsed in H. cbv beta iota delta [invokeParse DefaultParseInvoker] in Hrun. rewrite Hrun in H.
  destruct H as ([? ? ? ? ? ? ?] & Hfile & Hg). rewrite Hp in Hfile, Hg. cbn [mojomFile SetMetaDataOnlyMode heap] in Hfile, Hg.
  split; [done|done| | | |]; rewrite Hfile.
  - by rewrite (grows_names _ _ _ _ Hg).
  - intros g Hgf. rewrite (grows_others _ _ _ _ Hg) by lia. cbn. by apply lookup_app_l.
  - rewrite (grows_count _ _ _ _ Hg). cbn. rewrite length_app. cbn. lia.
  - assert (is_Some (mojomFiles (descr (heap p')) !! length (mojomFiles (descr h)))) as [fl' Hfl'].
    { apply lookup_lt_is_Some. rewrite (grows_count _ _ _ _ Hg). cbn. rewrite length_app. cbn. lia. }
    exists fl'. split; [done|].
    assert ((mojomFiles (descr h) ++ [fl]) !! length (mojomFiles (descr h)) = Some fl) as Hnth by by apply list_lookup_middle.
    split; [by rewrite (grows_canonical _ _ _ _ Hg fl fl' Hnth Hfl')|].
    intros i Hi'. destruct (grows_imports _ _ _ _ Hg fl fl' i Hnth Hfl' Hi') as [Hold|[Hn ?]].
    + by rewrite Himp in Hold; apply elem_of_nil in Hold.
    + split; [by eapply named_literal|done].
Qed.

(** ** The loop *)
Section Loop.
Context {FP : FileProvider} {FL : LawfulProvider FP} {PI : ParseInvoker} {PL : LawfulInvoker PI}.
Context (md : bool) (names : list string).

(** The names are those of the files, and no two files have the same. *)
Record driver_ok (h : Heap) : Prop := mkDriverOk {
  do_heap : heap_ok h;
  do_names name f : MojomFilesByName (descr h) !! name = Some f <->
    exists fl, mojomFiles (descr h) !! f = Some fl /\ CanonicalFileName fl = name
}.
(** The reference that was found and parsed as the file [f] of the descriptor. *)
Definition from_file (h : Heap) (from : FileReference) (f : nat) : Prop :=
  exists q r fl, findFile q = Ok r /\ from = set_mojomFile f r /\ mojomFiles (descr h) !! f = Some fl /\
    CanonicalFileName fl = absolutePath r.
(** A reference of the queue: one of the top-level files or, unless only meta-data
    is asked for, an import of a file of the descriptor that indexes it. *)
Definition ref_ok (h : Heap) (r : FileReference) : Prop :=
  (exists name, name ∈ names /\ r = top_level name) \/
  md = false /\ exists from n f fl, r = import_of from n /\ from_file h from f /\
    mojomFiles (descr h) !! f = Some fl /\ is_Some (importsBySpecifiedName fl !! n).
(** The import [n] of the file [f], at index [i], was found from that file and is a
    file of the descriptor. *)
Definition told (h : Heap) (f : nat) (n : string) (i : nat) : Prop :=
  exists fl imp from r, mojomFiles (descr h) !! f = Some fl /\ Imports fl !! i = Some imp /\
    from_file h from f /\ findFile (import_of from n) = Ok r /\
    imp_CanonicalFileName imp = absolutePath r /\ is_Some (MojomFilesByName (descr h) !! absolutePath r).
Definition untold (fl : MojomFile) (i : nat) : Prop :=
  exists imp, Imports fl !! i = Some imp /\ imp_CanonicalFileName imp = "".
Definition imports_known (h : Heap) (queue : list FileReference) : Prop :=
  forall f fl n i, mojomFiles (descr h) !! f = Some fl -> importsBySpecifiedName fl !! n = Some i ->
    if md then untold fl i
    else told h f n i \/ exists from, import_of from n ∈ queue /\ from_file h from f.
(** Nothing is loaded that nobody asks for. *)
Definition wanted (h : Heap) : Prop :=
  forall name, is_Some (MojomFilesByName (descr h) !! name) ->
    exists q r, ref_ok h q /\ findFile q = Ok r /\ absolutePath r = name.

Lemma SetCanonicalImportName_spec n c fl fl' :
  file_ok fl -> SetCanonicalImportName n c fl = Some fl' ->
  file_ok fl' /\ CanonicalFileName fl' = CanonicalFileName fl /\
  importsBySpecifiedName fl' = importsBySpecifiedName fl /\
  exists i, importsBySpecifiedName fl !! n = Some i /\
    Imports fl' = alter (fun imp => mkImportedFile (SpecifiedName imp) c (imp_NameToken imp)) i (Imports fl).
Proof.
  intros [Hns [H1 H2]]. unfold SetCanonicalImportName.
  destruct (importsBySpecifiedName fl !! n) as [i|] eqn:Hi; [|done]. intros [= <-].
  split_and!; [|done|done|by exists i]. split; [done|].
  assert (forall j imp, alter (fun imp => mkImportedFile (SpecifiedName imp) c (imp_NameToken imp)) i (Imports fl) !! j
    = Some imp -> exists imp', Imports fl !! j = Some imp' /\ SpecifiedName imp' = SpecifiedName imp) as Hsame.
  { intros j imp. rewrite list_lookup_alter. case_decide; [|eauto]. intros (x & Hx & ->)%fmap_Some. subst. eauto. }
  split; cbn.
  - intros m j Hm. destruct (H1 m j Hm) as (imp & Himp & <-). rewrite list_lookup_alter. case_decide; [|eauto].
    subst j. rewrite Himp. cbn. by eexists.
  - intros imp (j & Hj)%list_elem_of_lookup. destruct (Hsame j imp Hj) as (imp' & Himp' & <-).
    apply H2. by eapply list_elem_of_lookup_2.
Qed.
Lemma change_file_well_formed d f fl :
  well_formed d -> file_ok fl -> well_formed (set_files (<[f := fl]> (mojomFiles d)) d).
Proof.
  intros [? ? Hf ? ? ? ?] Hfl. split; try done; [by apply (same_shape_tree d)|].
  intros g x. cbn. intros Hg. destruct (decide (g = f)) as [->|Hne].
  - apply list_lookup_insert_Some in Hg as [(_ & <- & _)|(Hne & _)]; done.
  - rewrite list_lookup_insert_ne in Hg by done. by apply (Hf g).
Qed.

(** What [tell_importer] does. *)
Lemma tell_importer_run r h h' :
  driver_ok h -> tell_importer r h = (h', Ok tt) ->
  driver_ok h' /\ MojomFilesByName (descr h') = MojomFilesByName (descr h) /\
  (forall g fl', mojomFiles (descr h') !! g = Some fl' -> exists fl, mojomFiles (descr h) !! g = Some fl /\
     importsBySpecifiedName fl' = importsBySpecifiedName fl /\
     forall j imp', Imports fl' !! j = Some imp' ->
       Imports fl !! j = Some imp' \/
       exists from, importedFrom r = Some from /\ ref_mojomFile from = Some g /\
         importsBySpecifiedName fl !! specifiedPath r = Some j /\ imp_CanonicalFileName imp' = absolutePath r) /\
  (forall from g fl j, importedFrom r = Some from -> ref_mojomFile from = Some g ->
     mojomFiles (descr h) !! g = Some fl -> importsBySpecifiedName fl !! specifiedPath r = Some j ->
     exists fl' imp', mojomFiles (descr h') !! g = Some fl' /\ Imports fl' !! j = Some imp' /\
       imp_CanonicalFileName imp' = absolutePath r) /\
  (forall g fl, mojomFiles (descr h) !! g = Some fl -> exists fl', mojomFiles (descr h') !! g = Some fl' /\
     importsBySpecifiedName fl' = importsBySpecifiedName fl /\ CanonicalFileName fl' = CanonicalFileName fl).
Proof.
  intros [Hh Hn]. unfold tell_importer. destruct (importedFrom r) as [from|]; cycle 1.
  { intros [= <-]. split_and!; try done; eauto. }
  unfold bind, must, get. destruct (ref_mojomFile from) as [f|] eqn:Hf; [|done].
  destruct (mojomFiles (descr h) !! f) as [fl|] eqn:Hfl; [|done].
  destruct (SetCanonicalImportName _ _ fl) as [fl'|] eqn:Hset; [|done]. intros [= <-].
  pose proof (wf_files _ (ok_descriptor h Hh) f fl Hfl) as Hok.
  destruct (SetCanonicalImportName_spec _ _ _ _ Hok Hset) as (Hok' & Hcan & Hmap & i & Hi & Himp).
  assert (forall g x, <[f := fl']> (mojomFiles (descr h)) !! g = Some x ->
    g = f /\ x = fl' \/ g <> f /\ mojomFiles (descr h) !! g = Some x) as Hget.
  { intros g x Hg. apply list_lookup_insert_Some in Hg as [(-> & <- & _)|(? & ?)]; auto. }
  assert (<[f := fl']> (mojomFiles (descr h)) !! f = Some fl') as Hown.
  { apply list_lookup_insert_eq. by eapply lookup_lt_Some. }
  split_and!; [|done| | |]; cbn [descr set_descriptor mojomFiles set_files MojomFilesByName].
  - split.
    + destruct Hh as [Hw ? ? ?]. split; try done. by apply change_file_well_formed.
    + intros name g. cbn [descr set_descriptor mojomFiles set_files MojomFilesByName]. rewrite Hn. split.
      * intros (x & Hg & Hx). destruct (decide (g = f)) as [->|Hne].
        -- exists fl'. split; [done|]. congruence.
        -- exists x. by rewrite list_lookup_insert_ne.
      * intros (x & [[-> ->]|[Hne Hg]]%Hget & Hx); [exists fl; split; [done|congruence]|eauto].
  - intros g x [[-> ->]|[Hne Hg]]%Hget; [|by exists x; auto]. exists fl. split_and!; [done|done|].
    intros j imp' Hj. rewrite Himp, list_lookup_alter in Hj. case_decide; [|by left]. subst j. right.
    exists from. split_and!; [done|done|done|]. by apply fmap_Some in Hj as (x & _ & ->).
  - intros from' g x j [= <-] Hg Hx Hj. assert (g = f) as -> by congruence. assert (x = fl) as -> by congruence.
    assert (j = i) as -> by congruence. exists fl'.
    destruct (indexed_name fl (proj2 Hok) _ _ Hi) as (imp & Hx' & _). eexists. split; [done|].
    rewrite Himp, list_lookup_alter_eq, Hx'. done.
  - intros g x Hg. destruct (decide (g = f)) as [->|Hne]; [exists fl'; split_and!; [done|congruence..]|].
    exists x. by rewrite list_lookup_insert_ne.
Qed.

Lemma bind_provider {A B} (x : res FileError A) (k : A -> M Heap DriverError B) h h' b :
  bind (of_provider x) k h = (h', Ok b) -> exists a, x = Ok a /\ k a h = (h', Ok b).
Proof. destruct x; [eauto|done|done]. Qed.

(** The state in which the file of the reference is known. *)
Definition later (r : FileReference) (h1 h' : Heap) : Prop :=
  (forall name f, MojomFilesByName (descr h1) !! name = Some f -> MojomFilesByName (descr h') !! name = Some f) /\
  (forall g fl, mojomFiles (descr h1) !! g = Some fl -> mojomFiles (descr h') !! g = Some fl) /\
  is_Some (MojomFilesByName (descr h') !! absolutePath r).
Lemma same_index fl n m i :
  file_ok fl -> importsBySpecifiedName fl !! n = Some i -> importsBySpecifiedName fl !! m = Some i -> n = m.
Proof.
  intros [_ [H _]] Hn Hm. destruct (H n i Hn) as (x & Hx & <-). destruct (H m i Hm) as (y & Hy & <-). congruence.
Qed.
Lemma from_file_mojomFile h from f : from_file h from f -> ref_mojomFile from = Some f.
Proof. by intros (q & r & fl & _ & -> & _). Qed.
Lemma from_file_later r h h1 h' from f :
  driver_ok h -> tell_importer r h = (h1, Ok tt) -> later r h1 h' -> from_file h from f -> from_file h' from f.
Proof.
  intros Hok Htell (_ & Hfiles & _) (q & r0 & fl & Hq & -> & Hfl & Hc).
  destruct (tell_importer_run r h h1 Hok Htell) as (_ & _ & _ & _ & Hfwd).
  destruct (Hfwd f fl Hfl) as (fl' & Hfl' & _ & Hc'). exists q, r0, fl'. split_and!; try done; [by apply Hfiles|congruence].
Qed.
Lemma ref_ok_from h r from :
  ref_ok h r -> importedFrom r = Some from -> md = false /\ r = import_of from (specifiedPath r).
Proof. intros [(name & _ & ->)|(Hmd & from' & n & f & fl & -> & _)]; [done|]. by intros [= ->]. Qed.

(** The imports of the files there were. *)
Lemma old_imports_known r r1 h h1 h' queue g fl1 n i :
  driver_ok h -> ref_ok h r -> imports_known h (r :: queue) ->
  findFile r = Ok r1 -> tell_importer r1 h = (h1, Ok tt) -> later r1 h1 h' ->
  mojomFiles (descr h1) !! g = Some fl1 -> importsBySpecifiedName fl1 !! n = Some i ->
  if md then untold fl1 i
  else told h' g n i \/ exists from, import_of from n ∈ queue /\ from_file h' from g.
Proof.
  intros Hok Hr Hk Hfind Htell Hl Hfl1 Hi.
  destruct (findFile_keeps r r1 Hfind) as (_ & Hfrom & Hspec).
  pose proof (fun from f => from_file_later r1 h h1 h' from f Hok Htell Hl) as Hlater.
  destruct Hl as (Hnames & Hfiles & Hr1).
  destruct (tell_importer_run r1 h h1 Hok Htell) as (Hok1 & Hsame & Hback & Hset & _).
  destruct (Hback g fl1 Hfl1) as (fl & Hfl & Hmap & Himps). rewrite Hmap in Hi.
  pose proof (wf_files _ (ok_descriptor h (do_heap h Hok)) g fl Hfl) as Hflok.
  pose proof (wf_files _ (ok_descriptor h1 (do_heap h1 Hok1)) g fl1 Hfl1) as Hfl1ok.
  assert (forall from, importedFrom r1 = Some from -> md = false /\ r = import_of from (specifiedPath r1)) as Hrfrom.
  { intros from Hf. rewrite Hspec. apply (ref_ok_from h); [done|congruence]. }
  destruct (indexed_name fl1 (proj2 Hfl1ok) n i) as (imp1 & Himp1 & _); [by rewrite Hmap|].
  pose proof (Hk g fl n i Hfl Hi) as Hkn.
  destruct md eqn:Emd.
  { exists imp1. split; [done|]. destruct Hkn as (imp & Himp & Hc).
    destruct (Himps i imp1 Himp1) as [Hold|(from1 & Hf1 & _)]; [congruence|].
    by destruct (Hrfrom from1 Hf1). }
  destruct Hkn as [(fl0 & imp & from & rr & Hfl0 & Himp & Hg & Hff & Hc & Hn)|(from & [<-|Hin]%elem_of_cons & Hg)].
  - assert (fl0 = fl) as -> by congruence. left. destruct (Himps i imp1 Himp1) as [Hold|(from1 & Hf1 & Hg1 & Hj & Hc1)].
    + assert (imp1 = imp) as -> by congruence. exists fl1, imp, from, rr. split_and!; auto.
      rewrite <- Hsame in Hn. destruct Hn as [x Hx]. eauto.
    + pose proof (same_index fl _ _ i Hflok Hj Hi) as <-. exists fl1, imp1, from1, r1.
      destruct (Hrfrom from1 Hf1) as [_ Hr'].
      assert (from_file h from1 g) as Hg'.
      { destruct Hr as [(name & _ & ->)|(_ & from2 & n2 & f2 & fl2 & Hr2 & Hff2 & _)]; [by rewrite Hr' in *|].
        assert (from2 = from1) as -> by (rewrite Hr' in Hr2; by injection Hr2).
        pose proof (from_file_mojomFile _ _ _ Hff2). by assert (f2 = g) as -> by congruence. }
      rewrite <- Hr'. split_and!; auto.
  - left. cbn in Hfrom, Hspec. pose proof (from_file_mojomFile _ _ _ Hg) as Hg'.
    destruct (Hset from g fl i Hfrom Hg' Hfl) as (fl' & imp' & Hfl' & Himp' & Hc'); [by rewrite Hspec|].
    assert (fl' = fl1) as -> by congruence. exists fl1, imp', from, r1. split_and!; auto.
  - right. eauto.
Qed.
Lemma ref_ok_later r h h1 h' q :
  driver_ok h -> tell_importer r h = (h1, Ok tt) -> later r h1 h' -> ref_ok h q -> ref_ok h' q.
Proof.
  intros Hok Htell Hl [?|(Hmd & from & n & f & fl & -> & Hf & Hfl & Hn)]; [by left|]. right. split; [done|].
  pose proof (from_file_later r h h1 h' from f Hok Htell Hl Hf). destruct Hl as (_ & Hfiles & _).
  destruct (tell_importer_run r h h1 Hok Htell) as (_ & _ & _ & _ & Hfwd).
  destruct (Hfwd f fl Hfl) as (fl' & Hfl' & Hmap & _). exists from, n, f, fl'. rewrite Hmap. split_and!; auto.
Qed.
Lemma process_file_keeps r queue h h' imps :
  driver_ok h -> wanted h -> Forall (ref_ok h) (r :: queue) -> imports_known h (r :: queue) ->
  process_file md r h = (h', Ok imps) ->
  driver_ok h' /\ wanted h' /\ Forall (ref_ok h') (queue ++ imps) /\ imports_known h' (queue ++ imps) /\
  exists r1, findFile r = Ok r1 /\
    (forall name, is_Some (MojomFilesByName (descr h') !! name) <->
       name = absolutePath r1 \/ is_Some (MojomFilesByName (descr h) !! name)) /\
    (imps = [] \/ MojomFilesByName (descr h) !! absolutePath r1 = None /\
       exists contents f, provideContents r1 = Ok contents /\
         Forall (fun i => exists n, i = import_of (set_mojomFile f r1) n /\ literal_of contents n) imps).
Proof.
  intros Hok Hwant [Hr Hq]%Forall_cons Hk. unfold process_file. intros (r1 & Hfind & Hrun)%bind_provider. revert Hrun.
  unfold bind at 1. destruct (tell_importer r1 h) as [h1 [[]|e|]] eqn:Htell; [|done|done].
  unfold bind at 1, get at 1. destruct (tell_importer_run r1 h h1 Hok Htell) as (Hok1 & Hsame & _ & _ & _).
  unfold ContainsFile. case_bool_decide as Hin.
  { intros [= <- <-]. rewrite app_nil_r. assert (later r1 h1 h1) as Hl by (split_and!; [auto..|done]).
    split_and!; [done|..].
    - intros name Hname. rewrite Hsame in Hname. destruct (Hwant name Hname) as (q & rq & Hq' & ?).
      exists q, rq. split; [by apply (ref_ok_later r1 h h1)|done].
    - eapply Forall_impl; [done|]. intros q. by apply (ref_ok_later r1 h h1).
    - intros g fl1 n i Hfl1 Hi. by apply (old_imports_known r r1 h h1 h1 queue g fl1 n i).
    - exists r1. split_and!; [done| |by left]. intros name. rewrite Hsame in *. split; [by right|by intros [->|?]]. }
  intros (contents & Hcont & Hrun)%bind_provider. revert Hrun.
  unfold bind at 1, run_parser, must at 1. unfold bind at 1.
  destruct (Tokenize contents) as [s|] eqn:Htok; [|done]. unfold bind at 1.
  destruct (MakeParser _ _ _ _ h1) as [h2 [p|e|]] eqn:Hmake; [|done|done].
  destruct (invokeParse _) as [p' [[]|[]|]] eqn:Hparse; [|done|done].
  destruct (err p'); [done|]. unfold extractMojomFile, DefaultFileExtractor.
  destruct (invokeParse_parses _ _ _ _ _ _ _ _ _ _ (do_heap h1 Hok1) Htok Hmake Hparse)
    as [Hh' Hf Hnm Hoth Hcnt (fl & Hfl & Hcan & Himp)].
  intros Hend. assert (heap p' = h' /\ imps = if md then [] else
    map (fun imp => import_of (set_mojomFile (mojomFile p') r1) (SpecifiedName imp)) (Imports fl)) as [<- ->].
  { destruct md; [by injection Hend as <- <-|]. unfold bind, get, must in Hend. rewrite Hfl in Hend.
    by injection Hend as <- <-. }
  clear Hend. set (f := mojomFile p') in *.
  apply eq_None_not_Some in Hin.
  assert (forall g fl0, mojomFiles (descr h1) !! g = Some fl0 -> (g < f)%nat /\
    mojomFiles (descr (heap p')) !! g = Some fl0) as Hold.
  { intros g fl0 Hg. assert (g < f)%nat by (rewrite Hf; by eapply lookup_lt_Some). by rewrite Hoth. }
  assert (later r1 h1 (heap p')) as Hl.
  { unfold later. split_and!.
    - intros name g Hg. rewrite Hnm, lookup_insert_ne; [done|]. intros E. rewrite E in Hin. congruence.
    - intros g fl0 Hg. by apply Hold.
    - rewrite Hnm, lookup_insert_eq. eauto. }
  assert (from_file (heap p') (set_mojomFile f r1) f) as Hff by by exists r, r1, fl.
  split_and!.
  - split; [done|]. intros name g. rewrite Hnm. split.
    + intros [[<- <-]|[_ Hg]]%lookup_insert_Some; [eauto|].
      apply (do_names h1 Hok1) in Hg as (x & Hx & ?). exists x. split; [by apply Hold|done].
    + intros (x & Hx & <-). assert (g < S f)%nat by (rewrite <- Hcnt; by eapply lookup_lt_Some).
      destruct (decide (g = f)) as [->|Hne].
      * assert (x = fl) as -> by congruence. by rewrite Hcan, lookup_insert_eq.
      * rewrite Hoth in Hx by lia. assert (MojomFilesByName (descr h1) !! CanonicalFileName x = Some g) as Hg
          by (apply (do_names h1 Hok1); eauto).
        rewrite lookup_insert_ne; [done|]. intros E. rewrite <- E in Hg. congruence.
  - intros name. rewrite Hnm, lookup_insert_is_Some'. intros [<-|Hname].
    + exists r, r1. split; [by apply (ref_ok_later r1 h h1)|done].
    + rewrite Hsame in Hname. destruct (Hwant name Hname) as (q & rq & Hq' & ?).
      exists q, rq. split; [by apply (ref_ok_later r1 h h1)|done].
  - apply Forall_app. split; [eapply Forall_impl; [done|]; intros q; by apply (ref_ok_later r1 h h1)|].
    destruct md eqn:Emd; [done|]. apply Forall_forall. intros q (imp & -> & Hi)%list_elem_of_fmap. right.
    split; [done|]. exists (set_mojomFile f r1), (SpecifiedName imp), f, fl. split_and!; [done..|].
    by apply (indexed_import fl (proj2 (wf_files _ (ok_descriptor _ Hh') f fl Hfl))).
  - intros g x n i Hx Hi. assert (g < S f)%nat by (rewrite <- Hcnt; by eapply lookup_lt_Some).
    destruct (decide (g = f)) as [->|Hne].
    + assert (x = fl) as -> by congruence.
      destruct (indexed_name fl (proj2 (wf_files _ (ok_descriptor _ Hh') f fl Hfl)) n i Hi) as (imp & Himp' & <-).
      destruct md; [exists imp; split; [done|]; by apply Himp; eapply list_elem_of_lookup_2|].
      right. exists (set_mojomFile f r1). split; [|done]. apply elem_of_app. right. apply list_elem_of_fmap. exists imp. split; [done|]. by eapply list_elem_of_lookup_2.
    + rewrite Hoth in Hx by lia.
      pose proof (old_imports_known r r1 h h1 (heap p') queue g x n i Hok Hr Hk Hfind Htell Hl Hx Hi) as Hknown.
      destruct md; [done|]. destruct Hknown as [?|(from & ? & ?)]; [by left|]. right. exists from. split; [|done]. apply elem_of_app. by left.
  - exists r1. split_and!; [done| |].
    + intros name. rewrite Hnm, Hsame. rewrite lookup_insert_is_Some'. naive_solver.
    + right. rewrite <- Hsame. split; [done|]. exists contents, f. split; [done|].
      destruct md; [done|]. apply Forall_forall. intros q (imp & -> & Hi)%list_elem_of_fmap. exists (SpecifiedName imp). split; [done|].
      by apply Himp.
Qed.

Lemma parse_loop_keeps n : forall queue h h',
  driver_ok h -> wanted h -> Forall (ref_ok h) queue -> imports_known h queue ->
  parse_loop md n queue h = (h', Ok tt) ->
  driver_ok h' /\ wanted h' /\ imports_known h' [] /\
  (forall name, is_Some (MojomFilesByName (descr h) !! name) -> is_Some (MojomFilesByName (descr h') !! name)) /\
  (forall r, r ∈ queue -> exists r1, findFile r = Ok r1 /\ is_Some (MojomFilesByName (descr h') !! absolutePath r1)).
Proof.
  induction n as [|n IH]; intros [|r queue] h h' Hok Hwant Hq Hk; try done.
  1,2: intros [= <-]; split_and!; try done; intros ? Hin; by apply elem_of_nil in Hin.
  cbn [parse_loop]. unfold bind. destruct (process_file md r h) as [h1 [imps|e|]] eqn:Hrun; [|done|done].
  destruct (process_file_keeps r queue h h1 imps Hok Hwant Hq Hk Hrun)
    as (Hok1 & Hwant1 & Hq1 & Hk1 & r1 & Hfind & Hnames & _).
  intros (Hok' & Hwant' & Hk' & Hkeep & Hall)%IH; [|done..]. split_and!; try done.
  - intros name Hn. apply Hkeep, Hnames. by right.
  - intros q [->|Hin]%elem_of_cons.
    + exists r1. split; [done|]. apply Hkeep, Hnames. by left.
    + apply Hall, elem_of_app. by left.
Qed.

(** ** Termination *)
(** The files that can be reached from the top-level files: a link of the file
    system to a parent directory may make them infinitely many. *)
Record reachable_within (N : gset string) : Prop := mkReachable {
  rw_top name r : name ∈ names -> findFile (top_level name) = Ok r -> absolutePath r ∈ N;
  rw_import from f contents n r : absolutePath from ∈ N -> provideContents from = Ok contents ->
    literal_of contents n -> findFile (import_of (set_mojomFile f from) n) = Ok r -> absolutePath r ∈ N
}.
(** The parser comes to an end on each of the files. *)
Definition parser_ends (N : gset string) : Prop :=
  forall r contents stream name spec importer h h1 p,
    absolutePath r ∈ N -> provideContents r = Ok contents -> Tokenize contents = Some stream ->
    MakeParser (E:=DriverError) name spec stream importer h = (h1, Ok p) ->
    (invokeParse (SetMetaDataOnlyMode md p)).2 <> Err NoFuel.
Definition out_of_fuel {A} (r : res DriverError A) : Prop :=
  r = Err DriverOutOfFuel \/ r = Err ParserOutOfFuel.
Lemma MakeParser_no_err {E} name spec (s : TokenSource) imp h h' e :
  MakeParser (E:=E) name spec s imp h <> (h', Err e).
Proof.
  unfold MakeParser, AddMojomFile, newMojomFile. destruct (negb _); [done|].
  unfold bind, ret, get, modify. by case_bool_decide.
Qed.
Definition in_fuel {A} (m : M Heap DriverError A) : Prop := forall h, ~ out_of_fuel (m h).2.
Lemma in_fuel_ret {A} (a : A) : in_fuel (ret a).
Proof. by intros h [?|?]. Qed.
Lemma in_fuel_get : in_fuel get.
Proof. by intros h [?|?]. Qed.
Lemma in_fuel_modify f : in_fuel (modify f).
Proof. by intros h [?|?]. Qed.
Lemma in_fuel_must {A} (o : option A) : in_fuel (must o).
Proof. by destruct o; intros h [?|?]. Qed.
Lemma in_fuel_provider {A} (x : res FileError A) : in_fuel (of_provider x).
Proof. by destruct x; intros h [?|?]. Qed.
Lemma in_fuel_bind {A B} (m : M Heap DriverError A) (k : A -> M Heap DriverError B) :
  in_fuel m -> (forall a h h', m h = (h', Ok a) -> ~ out_of_fuel (k a h').2) -> in_fuel (bind m k).
Proof.
  intros Hm Hk h. specialize (Hm h). specialize (fun a h' => Hk a h h'). unfold bind.
  destruct (m h) as [h1 [a|e|]]; [by apply Hk| |by intros [?|?]].
  intros He. apply Hm. destruct He as [He|He]; [left|right]; cbn in *; congruence.
Qed.
Create HintDb in_fuel.
#[local] Hint Resolve in_fuel_ret in_fuel_get in_fuel_modify in_fuel_must in_fuel_provider : in_fuel.
Ltac in_fuel := apply in_fuel_bind; [solve [auto with in_fuel]|intros ? ? ? ?].
Lemma in_fuel_tell r : in_fuel (tell_importer r).
Proof.
  unfold tell_importer. destruct (importedFrom r); [|apply in_fuel_ret]. repeat in_fuel. apply in_fuel_modify.
Qed.
#[local] Hint Resolve in_fuel_tell : in_fuel.
Lemma of_provider_ok {A} (x : res FileError A) h h' a : of_provider x h = (h', Ok a) -> x = Ok a.
Proof. by destruct x; intros [= _ ->]. Qed.
Lemma in_fuel_parser N r contents :
  parser_ends N -> absolutePath r ∈ N -> provideContents r = Ok contents -> in_fuel (run_parser md r contents).
Proof.
  intros Hends Hr Hcont. unfold run_parser. apply in_fuel_bind; [apply in_fuel_must|intros s h1 h2 Hs].
  assert (Tokenize contents = Some s) as Htok by (unfold must in Hs; destruct (Tokenize contents); by simplify_eq).
  apply in_fuel_bind.
  - intros h [He|He]; destruct (MakeParser _ _ _ _ h) as [h' [p|e|]] eqn:Hp; simplify_eq/=; by apply MakeParser_no_err in Hp.
  - intros p h3 h4 Hp. specialize (Hends r contents s _ _ _ _ _ _ Hr Hcont Htok Hp).
    destruct (invokeParse _) as [p' [[]|[]|]]; [|by destruct Hends|by intros [?|?]]. by destruct (err p'); intros [?|?].
Qed.
Lemma process_file_fuel N r :
  parser_ends N -> (forall r1, findFile r = Ok r1 -> absolutePath r1 ∈ N) -> in_fuel (process_file md r).
Proof.
  intros Hends HN. unfold process_file. apply in_fuel_bind; [apply in_fuel_provider|intros r1 h1 h2 Hr].
  apply of_provider_ok in Hr.
  repeat in_fuel. case_match; [by intros [?|?]|]. apply in_fuel_bind; [apply in_fuel_provider|intros contents h6 h7 Hc].
  apply of_provider_ok in Hc.
  apply in_fuel_bind; [eapply in_fuel_parser; eauto|intros f h8 h9 _]. destruct md; [by intros [?|?]|].
  repeat in_fuel. by intros [?|?].
Qed.

Definition stays (N : gset string) (r : FileReference) : Prop := forall r1, findFile r = Ok r1 -> absolutePath r1 ∈ N.
Definition unread (N : gset string) (h : Heap) : nat := size (N ∖ dom (MojomFilesByName (descr h))).
Lemma parse_loop_enough N k : reachable_within N -> parser_ends N -> forall queue h,
  (unread N h <= k)%nat -> driver_ok h -> wanted h -> Forall (ref_ok h) queue -> imports_known h queue ->
  Forall (stays N) queue ->
  exists n, forall m, (n <= m)%nat -> ~ out_of_fuel (parse_loop md m queue h).2.
Proof.
  intros [_ Himport] Hends. induction k as [k IHk] using (well_founded_induction lt_wf).
  intros queue. induction queue as [|r queue IHq]; intros h Hu Hok Hw Hq Hk Hs; [exists 0%nat; intros [] _; by intros [?|?]|].
  apply Forall_cons in Hs as [Hr Hs].
  assert (exists n, forall m, (n <= m)%nat -> forall h' imps, process_file md r h = (h', Ok imps) ->
    ~ out_of_fuel (parse_loop md m (queue ++ imps) h').2) as [n Hn].
  { destruct (process_file md r h) as [h' [imps|e|]] eqn:Hrun; [|by exists 0%nat..].
    destruct (process_file_keeps r queue h h' imps Hok Hw Hq Hk Hrun)
      as (Hok' & Hw' & Hq' & Hk' & r1 & Hfind & Hnames & Himps). pose proof (Hr r1 Hfind) as HN.
    assert (dom (MojomFilesByName (descr h')) = {[absolutePath r1]} ∪ dom (MojomFilesByName (descr h))) as Hdom.
    { apply set_eq. intros name. rewrite elem_of_union, elem_of_singleton, !elem_of_dom. apply Hnames. }
    destruct Himps as [->|(Hnew & contents & f & Hcont & Himps)].
    - rewrite app_nil_r in *. destruct (IHq h') as [n Hn]; try done.
      + unfold unread in *. rewrite Hdom. etransitivity; [|done]. apply subseteq_size. set_solver.
      + exists n. intros m Hm ? ? [= <- <-]. rewrite app_nil_r. by apply Hn.
    - destruct (IHk (unread N h')) with (queue := queue ++ imps) (h := h') as [n Hn]; try done.
      + apply (Nat.lt_le_trans _ (unread N h)); [|done]. unfold unread. rewrite Hdom. apply subset_size.
        apply not_elem_of_dom in Hnew. set_solver.
      + apply Forall_app. split; [done|]. eapply Forall_impl; [done|]. intros q (m & -> & Hlit) r2 Hr2.
        by eapply Himport.
      + exists n. intros m Hm ? ? [= <- <-]. by apply Hn. }
  exists (S n). intros [|m] Hm; [lia|]. cbn [parse_loop]. unfold bind.
  pose proof (process_file_fuel N r Hends Hr h) as Hf.
  destruct (process_file md r h) as [h' [imps|e|]] eqn:Hrun; [by apply Hn; [lia|]| |by intros [?|?]].
  intros He. apply Hf. destruct He as [He|He]; [left|right]; cbn in *; congruence.
Qed.

(** ** From the empty descriptor *)
Lemma empty_heap_ok : driver_ok empty_heap.
Proof.
  split; [split; try done|].
  - split; try done; try apply NoDup_nil_2; [apply NewMojomDescriptor_tree| |intros p Hp..]; try by apply elem_of_nil in Hp.
    intros [|[|q]] n x; [unfold declared; cbn; by rewrite lookup_empty|done..].
  - intros name f. cbn. rewrite lookup_empty. split; [done|]. intros (fl & Hfl & _). by rewrite lookup_nil in Hfl.
Qed.
Lemma top_level_ok fileNames : fileNames ⊆ names -> Forall (ref_ok empty_heap) (map top_level fileNames).
Proof. intros Hsub. apply Forall_forall. intros r (name & -> & Hn)%list_elem_of_fmap. left. eauto. Qed.
Lemma no_imports_known queue : imports_known empty_heap queue.
Proof. by intros f fl n i Hfl. Qed.
Lemma nothing_unwanted : wanted empty_heap.
Proof. intros name. cbn. rewrite lookup_empty. by intros [? ?]. Qed.

Lemma parse_loop_run n h :
  parse_loop md n (map top_level names) empty_heap = (h, Ok tt) ->
  driver_ok h /\ wanted h /\ imports_known h [] /\
  (forall name, name ∈ names -> exists r, findFile (top_level name) = Ok r /\
     is_Some (MojomFilesByName (descr h) !! absolutePath r)).
Proof.
  intros Hrun. destruct (parse_loop_keeps _ _ _ _ empty_heap_ok nothing_unwanted (top_level_ok names ltac:(done)) (no_imports_known _) Hrun)
    as (? & ? & ? & _ & Hall). split_and!; try done. intros name Hn. apply Hall, list_elem_of_fmap. eauto.
Qed.
Lemma parse_loop_ends N :
  reachable_within N -> parser_ends N ->
  exists n, forall m, (n <= m)%nat -> ~ out_of_fuel (parse_loop md m (map top_level names) empty_heap).2.
Proof.
  intros HN Hends. apply (parse_loop_enough N (unread N empty_heap));
    auto using empty_heap_ok, top_level_ok, no_imports_known, nothing_unwanted.
  apply Forall_forall. intros r (name & -> & Hin)%list_elem_of_fmap r1 Hr1. by eapply rw_top.
Qed.
End Loop.

(** ** The driver *)
Section Driver.
Context {FP : FileProvider} {FL : LawfulProvider FP} {PI : ParseInvoker} {PL : LawfulInvoker PI}.

(** C35: When the driver returns without error, the descriptor is well-formed, no two files have the same canonical name, every top-level file was found and is a file of the descriptor, and every file of the descriptor was found for a top-level name or for an import of a file of the descriptor, from that file.  When everything is parsed, every import a file is indexed by was found from that file, is a file of the descriptor and has its canonical name recorded; when only the metadata is, no import is followed or has a canonical name. *)
Theorem parse_loop_loads metaDataOnly n fileNames h :
  parse_loop metaDataOnly n (map top_level fileNames) empty_heap = (h, Ok tt) ->
  well_formed (descr h) /\
  (forall name f, MojomFilesByName (descr h) !! name = Some f <->
     exists fl, mojomFiles (descr h) !! f = Some fl /\ CanonicalFileName fl = name) /\
  (forall name, name ∈ fileNames -> exists r, findFile (top_level name) = Ok r /\
     is_Some (MojomFilesByName (descr h) !! absolutePath r)) /\
  (forall name, is_Some (MojomFilesByName (descr h) !! name) ->
     exists q r, ref_ok metaDataOnly fileNames h q /\ findFile q = Ok r /\ absolutePath r = name) /\
  (forall f fl n i, mojomFiles (descr h) !! f = Some fl -> importsBySpecifiedName fl !! n = Some i ->
     if metaDataOnly then untold fl i else told h f n i).
Proof.
  intros Hrun. destruct (parse_loop_run _ _ _ _ Hrun) as (Hok & Hw & Hk & Hall).
  split_and!; [apply Hok|apply Hok|done|done|].
  intros f fl m i Hfl Hi. specialize (Hk f fl m i Hfl Hi). destruct metaDataOnly; [done|].
  destruct Hk as [?|(from & Hin & _)]; [done|]. by apply elem_of_nil in Hin.
Qed.

(** C37: On the descriptor the driver has filled the pass over the type references neither panics nor loses a reference. *)
Theorem type_pass_after_parsing metaDataOnly n fileNames h :
  parse_loop metaDataOnly n (map top_level fileNames) empty_heap = (h, Ok tt) ->
  exists d un e, resolveTypeReferences (descr h) = (d, Ok (un, e)) /\
    type_pass (descr h) (unresolvedTypeReferences (descr h)) d un e.
Proof.
  intros Hrun. destruct (parse_loop_run _ _ _ _ Hrun) as ([[Hw _ _ _] _] & _).
  destruct (resolveTypeReferences_run (descr h)) as (d & un & e & ? & _ & ?); try apply Hw. eauto.
Qed.
End Driver.

(** The tokens a parse of the contents sees. *)
Definition parser_tokens (contents : list Z) : list Token :=
  filter (fun t => Kind t ∉ comment_kinds) (default [] (tokenizeUnfiltered contents)).
Lemma lexer_no_eof src toks t : tokenizeUnfiltered src = Some toks -> In t toks -> Kind t <> EOF.
Proof.
  intros Htok Hin Hk. destruct (run_new src) as (l & Hrun & Hf). unfold tokenizeUnfiltered in Htok.
  rewrite Hrun in Htok. injection Htok as <-. destruct (final_tiling src l Hf) as (rs & Hr & Hle & Ht & _).
  destruct (tiling_In src _ rs t Ht Hr Hle Hin) as (rs0 & ts & k & -> & Hs & _). cbn in Hk. by subst k.
Qed.
(** A parse of contents without a bare comma ends, with fuel above the number of tokens. *)
Lemma Parse_ends_on fuel md contents stream name spec importer h h1 p :
  Tokenize contents = Some stream -> bare_comma (parser_tokens contents) = false ->
  (length (parser_tokens contents) < fuel)%nat ->
  MakeParser (E:=DriverError) name spec stream importer h = (h1, Ok p) ->
  (Parse fuel (SetMetaDataOnlyMode md p)).2 <> Err NoFuel.
Proof.
  intros Hs Hcomma Hfuel Hmake. destruct (MakeParser_run _ _ _ _ _ _ _ Hmake) as (fl & _ & _ & _ & _ & _ & ->).
  unfold Tokenize in Hs. destruct (tokenizeUnfiltered contents) as [toks|] eqn:Htok; [|done].
  unfold NewFilteredTokenStream in Hs. rewrite bool_decide_false in Hs by apply comment_kinds_EOF. injection Hs as <-.
  unfold parser_tokens in *. rewrite Htok in *. cbn [default] in *.
  eapply (Parse_stops (R := tokens_of toks) (md := md)); [|exact Hfuel| |exact Hcomma].
  - split; [done|split; [done|]]. split; [apply tokens_of_new|]. apply Forall_forall.
    intros t [_ Ht]%list_elem_of_filter. apply list_elem_of_In in Ht. by eapply lexer_no_eof.
  - unfold before_comma. cbn. by repeat (rewrite not_elem_of_cons; split; [done|]); apply not_elem_of_nil.
Qed.

Section OnDisk.
Context `{OS} (importDirs : list string).
#[local] Instance on_disk : FileProvider := OSFileProvider importDirs.
(** The fuel that the files of the set need. *)
Lemma parser_fuel (N : gset string) :
  exists fuel, forall name contents, name ∈ N -> ReadFile name = Some contents ->
    (length (parser_tokens contents) < fuel)%nat.
Proof.
  induction N as [|name N Hname [fuel IH]] using set_ind_L; [by exists 0%nat|].
  exists (fuel + S (length (parser_tokens (default [] (ReadFile name)))))%nat.
  intros n contents [->%elem_of_singleton|Hn]%elem_of_union Hc; [rewrite Hc; cbn; lia|]. specialize (IH n contents Hn Hc). lia.
Qed.
(** C36: The driver on the files of the operating system comes to an end, whether it parses everything or the metadata only and whatever imports are cyclic or repeated, when the files that can be reached are finitely many and none has a comma directly behind a left brace, a comma or a right bracket, where the parser hangs: with enough fuel for the parser and enough turns of the loop, neither runs out. *)
Theorem parse_loop_terminates metaDataOnly N fileNames :
  reachable_within fileNames N ->
  (forall name contents, name ∈ N -> ReadFile name = Some contents -> bare_comma (parser_tokens contents) = false) ->
  exists fuel, forall k, (fuel <= k)%nat -> exists n, forall m, (n <= m)%nat ->
    let outcome := (parse_loop (H1 := DefaultParseInvoker k) metaDataOnly m (map top_level fileNames) empty_heap).2 in
    outcome <> Err ParserOutOfFuel /\ outcome <> Err DriverOutOfFuel.
Proof.
  intros HN Hcomma. destruct (parser_fuel N) as [fuel Hfuel]. exists fuel. intros k Hk.
  destruct (parse_loop_ends (PI := DefaultParseInvoker k) metaDataOnly fileNames N HN) as [n Hn].
  - intros r contents stream name spec importer h h1 p Hr Hc Htok Hmake.
    assert (ReadFile (absolutePath r) = Some contents) as Hread.
    { cbn in Hc. unfold OS_provideContents in Hc. destruct (ReadFile _); [by injection Hc as ->|done]. }
    eapply Parse_ends_on; [done|by eapply Hcomma| |done]. pose proof (Hfuel _ _ Hr Hread). lia.
  - exists n. intros m Hm. specialize (Hn m Hm). split; intros He; apply Hn; [by right|by left].
Qed.
End OnDisk.

(** ** Two files that import each other *)
Definition source (s : string) : list Z :=
  map (fun c => if Ascii.eqb c "'" then 34 else Z.of_N (N_of_ascii c)) (String.list_ascii_of_string s).
Definition two_files (path : string) : option (list Z) :=
  if bool_decide (path = "/w/a.fidl") then Some (source "module m; import 'b.fidl'; struct A { B b; };")
  else if bool_decide (path = "/w/b.fidl") then Some (source "module m; import 'a.fidl'; struct B { int32 x; };")
  else None.
Definition two_files_os : OS :=
  {| Stat p := if bool_decide (p ∈ ["/w/a.fidl"; "/w/b.fidl"; "a.fidl"; "b.fidl"]) then Some false else None;
     ReadFile := two_files; Getwd := Some "/w" |}.
#[local] Instance two_files_provider : FileProvider := OSFileProvider (H:=two_files_os) [].
#[local] Instance two_files_parser : ParseInvoker := DefaultParseInvoker 100.
Definition two_files_run : Heap * res DriverError unit :=
  parse_loop false 5 (map top_level ["a.fidl"]) empty_heap.
Definition two_files_names : gset string := {["/w/a.fidl"; "/w/b.fidl"]}.

Lemma two_files_literals contents n from :
  provideContents from = Ok contents -> literal_of contents n -> n = "a.fidl" \/ n = "b.fidl".
Proof.
  cbn. unfold OS_provideContents. cbn. unfold two_files.
  intros H (toks & t & text & Htok & Hin & Hk & Htext & ->). revert H.
  repeat case_bool_decide; [| |done]; intros [= <-]; vm_compute in Htok; injection Htok as <-;
    repeat apply elem_of_cons in Hin as [->|Hin]; try done; try (by apply elem_of_nil in Hin);
    vm_compute in Htext; injection Htext as <-; vm_compute; auto.
Qed.
Lemma two_files_reachable : reachable_within (FP := two_files_provider) ["a.fidl"] two_files_names.
Proof.
  assert (forall r n, specifiedPath r = n -> n = "a.fidl" \/ n = "b.fidl" -> absolutePath r = "" ->
    forall r', findFile r = Ok r' -> absolutePath r' ∈ two_files_names) as Hfind.
  { intros r n Hn Hab Habs r'. cbn. unfold OS_findFile. rewrite Habs, Hn. cbn [negb bool_decide].
    assert (IsAbs n = false) as -> by by destruct Hab as [->| ->].
    assert (forall path r', at_path (H:=two_files_os) r path = Ok r' -> isFile (H:=two_files_os) path = true ->
      absolutePath r' ∈ two_files_names) as Hat.
    { intros path r1 Hr1. unfold isFile, at_path in *. cbn [Stat two_files_os]. case_bool_decide as Hp; [|done]. intros _.
      repeat apply elem_of_cons in Hp as [->|Hp]; try (by apply elem_of_nil in Hp);
        vm_compute in Hr1; injection Hr1 as <-; apply (bool_decide_unpack _); by vm_compute. }
    cbn [search_dirs]. destruct (importedFrom r); repeat (case_match; [by eauto|]); by eauto || done. }
  split.
  - intros name r ->%list_elem_of_singleton. by eapply Hfind; [|left|].
  - intros from f contents n r _ Hc Hl Hf. by eapply (Hfind (import_of _ n) n eq_refl (two_files_literals _ _ _ Hc Hl)).
Qed.
Theorem parse_loop_terminates_witness :
  exists fuel, forall k, (fuel <= k)%nat -> exists n, forall m, (n <= m)%nat ->
    let outcome := (parse_loop (H1 := DefaultParseInvoker k) false m (map top_level ["a.fidl"]) empty_heap).2 in
    outcome <> Err ParserOutOfFuel /\ outcome <> Err DriverOutOfFuel.
Proof.
  apply (parse_loop_terminates (H:=two_files_os) [] false two_files_names ["a.fidl"]); [apply two_files_reachable|].
  intros name contents Hname Hread. cbn in Hread. unfold two_files in Hread.
  repeat case_bool_decide; [| |done]; injection Hread as <-; by vm_compute.
Defined.
Theorem parse_loop_loads_witness :
  two_files_run.2 = Ok tt /\ told two_files_run.1 0 "b.fidl" 0 /\ told two_files_run.1 1 "a.fidl" 0.
Proof.
  split; [by vm_compute|].
  destruct (parse_loop_loads false 5 ["a.fidl"] two_files_run.1) as (_ & _ & _ & _ & H);
    [unfold two_files_run; by vm_compute|].
  assert (is_Some (mojomFiles (descr two_files_run.1) !! 0%nat) /\ is_Some (mojomFiles (descr two_files_run.1) !! 1%nat))
    as [[f0 H0] [f1 H1]] by by vm_compute; split; eexists.
  split; eapply H; [exact H0| |exact H1|]; vm_compute in H0, H1; injection H0 as <-; injection H1 as <-; by vm_compute.
Defined.
Theorem type_pass_after_parsing_witness :
  exists d un e, resolveTypeReferences (descr two_files_run.1) = (d, Ok (un, e)) /\
    type_pass (descr two_files_run.1) (unresolvedTypeReferences (descr two_files_run.1)) d un e.
Proof. apply (type_pass_after_parsing false 5 ["a.fidl"]). by vm_compute. Defined.
