(* ===== verification/Router.v ===== *)
(** * The message router: go/src/fidl/bindings/router.go

    A [Router] is shared by the goroutines that call [Accept],
    [AcceptWithResponse] and [Close], by the worker goroutine that [NewRouter]
    starts, and by the goroutine that answers what is left in the request
    channel once the worker has stopped.  The model is their interleaving: a
    state with a program counter for each goroutine, and [exec], which runs one
    atomic action (one Go channel, mutex or handle operation, together with the
    actions on the data of the acting goroutine alone that follow it).  An
    action that blocks in the given state is [None].

    The message channel of the system and the [AsyncWaiter] are not modelled
    here: what they answer is part of the action. *)
From S2P Require Import Prelude Wire Message.

(** ** Data *)

(** What [mxerror.Status] distinguishes, and the errors a caller can see. *)
Inductive status :=
| ErrPeerClosed | ErrCanceled | OtherStatus (code : Z).
Inductive rerror :=
| MxError (Status : status) (Text : string)
| Errorf (text : string)
| Malformed (e : Wire.error).

Record MessageReadResult := mkResult { rmessage : option Message; rerr : option rerror }.

Record WaitResponse := mkWaitResponse { werr : option rerror; Pending : Z }.

(** A response channel is named by the goroutine whose call made it; [None] is
    the nil channel, on which a send blocks for ever. *)
Record routeRequest := mkRequest { message : Message; responseChan : option nat }.

Inductive call :=
| Accept (message : Message)
| AcceptWithResponse (message : Message)
| Close.

(** Where a calling goroutine is: before the check of the request id, before
    [r.mu.Lock], before the check of the handle, before the send, before the
    deferred [r.mu.Unlock], returned. *)
Inductive client_pc :=
| CStart | CLock | CCheck | CSend
| CUnlock (r : option rerror) | CReturn (r : option rerror) | CPanic.

(** Where the worker goroutine is.  [runLoop]: at its [select]; at the call of
    [readAndDispatchOutstandingMessages], at the head of its loop, at [Read]
    with buffers of the given sizes, at the send of a response.  [runWorker]
    after [runLoop] returned: before [cancelIfWaiting], answering the pending
    responders, before [r.mu.Lock], [r.channel.Close], [close(r.requestChan)],
    [r.mu.Unlock], and at its end. *)
Inductive worker_pc :=
| WSelect | WDispatch | WLoop | WRead (bytes handles : Z) | WDeliver (m : Message)
| WStop (err : rerror) | WAnswer (err : rerror) (todo : gmap Z nat) | WLock
| WClose | WCloseChan | WUnlock | WExit | WPanic.

(** The goroutine that answers the requests left in [requestChan]. *)
Inductive drainer_pc :=
| DNone | DRange (err : rerror) | DSend (err : rerror) (c : option nat) | DEnd.

Inductive owner := Worker | Client (c : nat).
#[export] Instance owner_eq_dec : EqDecision owner.
Proof. solve_decision. Defined.

Record Router := mkRouter {
  mu : option owner;
  valid : bool;                         (* [r.channel.Handle.IsValid()] *)
  requestChan : list routeRequest;
  requestClosed : bool;
  done_ : bool;                         (* the [done] channel is closed *)
  worker : worker_pc;
  responders : gmap Z nat;
  waitId : Z;
  waitChan : list WaitResponse;
  waiting : bool;                       (* the waiter still owes a response *)
  written : list Message;               (* what [Write] put on the channel *)
  drainer : drainer_pc;
  clients : gmap nat client_pc;
  results : gmap nat MessageReadResult  (* the contents of the response channels *)
}.

Definition set_mu f r := mkRouter (f (mu r)) (valid r) (requestChan r) (requestClosed r) (done_ r) (worker r) (responders r) (waitId r) (waitChan r) (waiting r) (written r) (drainer r) (clients r) (results r).
Definition set_valid f r := mkRouter (mu r) (f (valid r)) (requestChan r) (requestClosed r) (done_ r) (worker r) (responders r) (waitId r) (waitChan r) (waiting r) (written r) (drainer r) (clients r) (results r).
Definition set_requestChan f r := mkRouter (mu r) (valid r) (f (requestChan r)) (requestClosed r) (done_ r) (worker r) (responders r) (waitId r) (waitChan r) (waiting r) (written r) (drainer r) (clients r) (results r).
Definition set_requestClosed f r := mkRouter (mu r) (valid r) (requestChan r) (f (requestClosed r)) (done_ r) (worker r) (responders r) (waitId r) (waitChan r) (waiting r) (written r) (drainer r) (clients r) (results r).
Definition set_done f r := mkRouter (mu r) (valid r) (requestChan r) (requestClosed r) (f (done_ r)) (worker r) (responders r) (waitId r) (waitChan r) (waiting r) (written r) (drainer r) (clients r) (results r).
Definition set_worker f r := mkRouter (mu r) (valid r) (requestChan r) (requestClosed r) (done_ r) (f (worker r)) (responders r) (waitId r) (waitChan r) (waiting r) (written r) (drainer r) (clients r) (results r).
Definition set_responders f r := mkRouter (mu r) (valid r) (requestChan r) (requestClosed r) (done_ r) (worker r) (f (responders r)) (waitId r) (waitChan r) (waiting r) (written r) (drainer r) (clients r) (results r).
Definition set_waitId f r := mkRouter (mu r) (valid r) (requestChan r) (requestClosed r) (done_ r) (worker r) (responders r) (f (waitId r)) (waitChan r) (waiting r) (written r) (drainer r) (clients r) (results r).
Definition set_waitChan f r := mkRouter (mu r) (valid r) (requestChan r) (requestClosed r) (done_ r) (worker r) (responders r) (waitId r) (f (waitChan r)) (waiting r) (written r) (drainer r) (clients r) (results r).
Definition set_waiting f r := mkRouter (mu r) (valid r) (requestChan r) (requestClosed r) (done_ r) (worker r) (responders r) (waitId r) (waitChan r) (f (waiting r)) (written r) (drainer r) (clients r) (results r).
Definition set_written f r := mkRouter (mu r) (valid r) (requestChan r) (requestClosed r) (done_ r) (worker r) (responders r) (waitId r) (waitChan r) (waiting r) (f (written r)) (drainer r) (clients r) (results r).
Definition set_drainer f r := mkRouter (mu r) (valid r) (requestChan r) (requestClosed r) (done_ r) (worker r) (responders r) (waitId r) (waitChan r) (waiting r) (written r) (f (drainer r)) (clients r) (results r).
Definition set_clients f r := mkRouter (mu r) (valid r) (requestChan r) (requestClosed r) (done_ r) (worker r) (responders r) (waitId r) (waitChan r) (waiting r) (written r) (drainer r) (f (clients r)) (results r).
Definition set_results f r := mkRouter (mu r) (valid r) (requestChan r) (requestClosed r) (done_ r) (worker r) (responders r) (waitId r) (waitChan r) (waiting r) (written r) (drainer r) (clients r) (f (results r)).

Definition goto_worker (pc : worker_pc) : Router -> Router := set_worker (fun _ => pc).
Definition goto_client (c : nat) (pc : client_pc) : Router -> Router :=
  set_clients (insert c pc).

(** A response channel has room for one result, and the model never takes one
    out: a receiver only makes more room. *)
Definition send (c : nat) (x : MessageReadResult) (r : Router) : option Router :=
  match results r !! c with
  | None => Some (set_results (insert c x) r)
  | Some _ => None
  end.

(** The capacity [NewRouter] gives [requestChan]. *)
Definition requestCapacity : Z := 10.

(** ** The actions *)

(** What [Read] answers, as the [switch] of the source tells the cases apart:
    a message, the sizes of a message the buffers have no room for, no message
    yet ([AsyncWait] is called and returns [id]), another error. *)
Inductive read_result :=
| ReadOk (bytes handles : list Z)
| ReadTooSmall (numBytes numHandles : Z)
| ReadShouldWait (id : Z)
| ReadError (err : rerror).

Inductive action :=
| AClient (c : nat)                       (* the next action of a caller *)
| AWait                                   (* select: [<-w.waitChan] *)
| ARequest (err : option rerror)          (* select: [<-w.requestChan]; what [Write] returns *)
| ADone                                   (* select: [<-w.done] *)
| ARead (x : read_result)                 (* what [Read] returns *)
| AAnswer (id : Z)                        (* the next entry of the range over the map *)
| AWorker                                 (* the worker, where it has no choice *)
| ADrain                                  (* the drainer *)
| AFire (x : WaitResponse).               (* the waiter responds *)

Section exec.
(** The calls that are made, each by a goroutine of its own. *)
Variable calls : gmap nat call.

(** *** [Accept], [AcceptWithResponse] and [Close] *)

Definition AcceptWithResponse_start (c : nat) (m : Message) (r : Router) : option Router :=
  if RequestId (Header m) =? 0
  then goto_client c (CReturn None) <$>
         send c (mkResult None (Some (Errorf "message header should have a request ID"))) r
  else Some (goto_client c CLock r).

Definition Accept_start (c : nat) (m : Message) (r : Router) : option Router :=
  if negb (RequestId (Header m) =? 0)
  then Some (goto_client c (CReturn (Some (Errorf "message header should have a zero request ID"))) r)
  else Some (goto_client c CLock r).

Definition Close_start (c : nat) (r : Router) : option Router :=
  Some (goto_client c (CReturn None) (set_done (fun _ => true) r)).

Definition lock (o : owner) (r : Router) : option Router :=
  match mu r with None => Some (set_mu (fun _ => Some o) r) | Some _ => None end.

(** [if !r.channel.Handle.IsValid()], under the lock. *)
Definition check_handle (c : nat) (cl : call) (r : Router) : option Router :=
  if valid r then Some (goto_client c CSend r)
  else match cl with
       | AcceptWithResponse _ =>
           goto_client c (CUnlock None) <$>
             send c (mkResult None (Some (MxError ErrPeerClosed "bindings.Router.AcceptWithResponse"))) r
       | _ => Some (goto_client c (CUnlock (Some (MxError ErrPeerClosed "bindings.Router.Accept"))) r)
       end.

(** [r.requestChan <- request]: a send on a closed channel panics. *)
Definition send_request (c : nat) (q : routeRequest) (r : Router) : option Router :=
  if requestClosed r then Some (goto_client c CPanic r)
  else if len (requestChan r) <? requestCapacity
  then Some (goto_client c (CUnlock None) (set_requestChan (fun l => l ++ [q]) r))
  else None.

Definition request_of (c : nat) (cl : call) : option routeRequest :=
  match cl with
  | Accept m => Some (mkRequest m None)
  | AcceptWithResponse m => Some (mkRequest m (Some c))
  | Close => None
  end.

Definition client_step (c : nat) (r : Router) : option Router :=
  cl ← calls !! c; pc ← clients r !! c;
  match pc with
  | CStart => match cl with
              | Accept m => Accept_start c m r
              | AcceptWithResponse m => AcceptWithResponse_start c m r
              | Close => Close_start c r
              end
  | CLock => goto_client c CCheck <$> lock (Client c) r
  | CCheck => check_handle c cl r
  | CSend => q ← request_of c cl; send_request c q r
  | CUnlock x => Some (goto_client c (CReturn x) (set_mu (fun _ => None) r))
  | CReturn _ | CPanic => None
  end.

(** *** [runLoop] *)

Definition select_wait (r : Router) : option Router :=
  match waitChan r with
  | x :: rest =>
      let r := set_waitId (fun _ => 0) (set_waitChan (fun _ => rest) r) in
      Some (goto_worker (match werr x with Some e => WStop e | None => WDispatch end) r)
  | [] => None
  end.

(** [if request.responseChan != nil { w.responders[id] = request.responseChan }]. *)
Definition register (q : routeRequest) (m : gmap Z nat) : gmap Z nat :=
  match responseChan q with
  | Some c => <[RequestId (Header (message q)) := c]> m
  | None => m
  end.

(** The zero request a closed channel yields has a nil message. *)
Definition select_request (err : option rerror) (r : Router) : option Router :=
  match requestChan r with
  | q :: rest =>
      let r := set_requestChan (fun _ => rest) r in
      let r := set_written (fun l => match err with Some _ => l | None => l ++ [message q] end) r in
      let r := set_responders (register q) r in
      Some (goto_worker (match err with Some e => WStop e | None => WDispatch end) r)
  | [] => if requestClosed r then Some (goto_worker WPanic r) else None
  end.

Definition select_done (r : Router) : option Router :=
  if done_ r then Some (goto_worker (WStop (MxError ErrPeerClosed "bindings.routerWoker.runLoop")) r)
  else None.

(** [readAndDispatchOutstandingMessages]. *)
Definition dispatch_start (r : Router) : option Router :=
  Some (goto_worker (if negb (waitId r =? 0) then WSelect else WLoop) r).

Definition dispatch_loop (r : Router) : option Router :=
  Some (goto_worker (if 0 <? Z.of_nat (size (responders r)) then WRead 128 3 else WSelect) r).

(** The system fills at most the buffers it is given; [AsyncWait] returns the
    id of the wait, which is not 0. *)
Definition read_message (bl hl : Z) (x : read_result) (r : Router) : option Router :=
  match x with
  | ReadOk bytes handles =>
      if (len bytes <=? bl) && (len handles <=? hl) && bool_decide (Forall is_byte bytes)
      then Some (goto_worker (match ParseMessage bytes handles with
                              | Ok m => WDeliver m
                              | Err e => WStop (Malformed e)
                              | Panic => WPanic
                              end) r)
      else None
  | ReadTooSmall nb nh => Some (goto_worker (WRead nb nh) r)
  | ReadShouldWait id =>
      if negb (id =? 0)
      then Some (goto_worker WSelect (set_waiting (fun _ => true) (set_waitId (fun _ => id) r)))
      else None
  | ReadError e => Some (goto_worker (WStop e) r)
  end.

(** [w.responders[id] <- result; delete(w.responders, id)]: an id that has no
    responder yields the nil channel. *)
Definition deliver (m : Message) (r : Router) : option Router :=
  let id := RequestId (Header m) in
  c ← responders r !! id;
  goto_worker WLoop ∘ set_responders (delete id) <$> send c (mkResult (Some m) None) r.

(** *** [runWorker] *)

(** [CancelWait] only asks the waiter, which still sends a response. *)
Definition cancelIfWaiting (r : Router) : Router :=
  set_waitId (fun id => if negb (id =? 0) then 0 else id) r.

Definition answer (err : rerror) (todo : gmap Z nat) (id : Z) (r : Router) : option Router :=
  c ← todo !! id;
  goto_worker (WAnswer err (delete id todo)) <$> send c (mkResult None (Some err)) r.

Definition start_drainer (err : rerror) (todo : gmap Z nat) (r : Router) : option Router :=
  if decide (todo = ∅) then Some (goto_worker WLock (set_drainer (fun _ => DRange err) r))
  else None.

Definition worker_step (r : Router) : option Router :=
  match worker r with
  | WDispatch => dispatch_start r
  | WLoop => dispatch_loop r
  | WDeliver m => deliver m r
  | WStop e => let r := cancelIfWaiting r in Some (goto_worker (WAnswer e (responders r)) r)
  | WAnswer e todo => start_drainer e todo r
  | WLock => goto_worker WClose <$> lock Worker r
  | WClose => Some (goto_worker WCloseChan (set_valid (fun _ => false) r))
  | WCloseChan => Some (goto_worker WUnlock (set_requestClosed (fun _ => true) r))
  | WUnlock => Some (goto_worker WExit (set_mu (fun _ => None) r))
  | WSelect | WRead _ _ | WExit | WPanic => None
  end.

(** [for responder := range worker.requestChan]. *)
Definition drain_step (r : Router) : option Router :=
  match drainer r with
  | DRange e =>
      match requestChan r with
      | q :: rest => Some (set_drainer (fun _ => DSend e (responseChan q)) (set_requestChan (fun _ => rest) r))
      | [] => if requestClosed r then Some (set_drainer (fun _ => DEnd) r) else None
      end
  | DSend e c =>
      c ← c; set_drainer (fun _ => DRange e) <$> send c (mkResult None (Some e)) r
  | DNone | DEnd => None
  end.

(** The waiter owes one response per [AsyncWait]; [waitChan] has room for one. *)
Definition fire (x : WaitResponse) (r : Router) : option Router :=
  match waiting r, waitChan r with
  | true, [] => Some (set_waiting (fun _ => false) (set_waitChan (fun _ => [x]) r))
  | _, _ => None
  end.

Definition exec (a : action) (r : Router) : option Router :=
  match a, worker r with
  | AClient c, _ => client_step c r
  | ADrain, _ => drain_step r
  | AFire x, _ => fire x r
  | AWorker, _ => worker_step r
  | AWait, WSelect => select_wait r
  | ARequest err, WSelect => select_request err r
  | ADone, WSelect => select_done r
  | ARead x, WRead bl hl => read_message bl hl x r
  | AAnswer id, WAnswer err todo => answer err todo id r
  | _, _ => None
  end.

Definition NewRouter : Router :=
  mkRouter None true [] false false WSelect ∅ 0 [] false [] DNone
    ((fun _ => CStart) <$> calls) ∅.

Inductive step : Router -> Router -> Prop :=
| step_exec a r r' : exec a r = Some r' -> step r r'.

Definition reachable : Router -> Prop := rtc step NewRouter.

Fixpoint run (l : list action) (r : Router) : option Router :=
  match l with [] => Some r | a :: l => r' ← exec a r; run l r' end.

Lemma run_steps l r r' : run l r = Some r' -> rtc step r r'.
Proof.
  revert r. induction l as [|a l IH]; intros r H; simpl in H; [simplify_eq; constructor|].
  destruct (exec a r) as [r1|] eqn:He; [|done]. econstructor; [econstructor; eauto|by apply IH].
Qed.
End exec.
