(* ===== verification/RouterSpec.v ===== *)
(** * What the router guarantees

    The properties of the interleavings of [Router]: nobody sends on or closes
    a closed channel, a response reaches the goroutine that asked for it and
    reaches it once, and once the worker has stopped every request that waits
    for a response gets one. *)
From stdpp Require Import sorting.
From S2P Require Import Prelude Wire Message.
From S2P Require Import Router.

(** ** The phases of the worker *)

(** In [runLoop]; in [readAndDispatchOutstandingMessages] past its first check. *)
Definition running (w : worker_pc) : bool :=
  match w with WSelect | WDispatch | WLoop | WRead _ _ | WDeliver _ => true | _ => false end.
Definition dispatching (w : worker_pc) : bool :=
  match w with WLoop | WRead _ _ | WDeliver _ => true | _ => false end.
(** Holding the mutex; past [r.channel.Close]; past [close(r.requestChan)];
    past the start of the drainer. *)
Definition worker_in_lock (w : worker_pc) : bool :=
  match w with WClose | WCloseChan | WUnlock => true | _ => false end.
Definition handle_closed (w : worker_pc) : bool :=
  match w with WCloseChan | WUnlock | WExit => true | _ => false end.
Definition chan_closed (w : worker_pc) : bool :=
  match w with WUnlock | WExit => true | _ => false end.
Definition drainer_started (w : worker_pc) : bool :=
  match w with WLock | WClose | WCloseChan | WUnlock | WExit => true | _ => false end.
Definition drainer_running (d : drainer_pc) : bool :=
  match d with DNone => false | _ => true end.
Definition in_lock (pc : client_pc) : bool :=
  match pc with CCheck | CSend | CUnlock _ => true | _ => false end.

(** Where the worker may go from [runLoop]. *)
Definition next_pc (r : Router) (pc : worker_pc) : Prop :=
  running pc /\ (dispatching pc -> dispatching (worker r) \/ waitId r = 0) \/ (exists e, pc = WStop e).

Lemma filter_ext_in {A} (P Q : A -> bool) (l : list A) :
  (forall x, x ∈ l -> P x = Q x) -> filter P l = filter Q l.
Proof.
  induction l as [|x l IH]; intros H; [done|]. rewrite !filter_cons, (H x) by set_solver.
  rewrite IH by set_solver. done.
Qed.

Lemma filter_all (P : nat -> bool) (l : list nat) : (forall x, x ∈ l -> P x) -> filter P l = l.
Proof.
  induction l as [|x l IH]; intros H; [done|]. rewrite filter_cons_True by (apply H, list_elem_of_here).
  rewrite IH; [done|]. intros y Hy. by apply H, list_elem_of_further.
Qed.

(** Taking an element out of what a filter keeps. *)
Lemma filter_remove (P Q : nat -> bool) x l :
  NoDup l -> x ∈ l -> P x -> ~ Q x -> (forall y, y <> x -> P y = Q y) ->
  filter P l ≡ₚ x :: filter Q l.
Proof.
  intros Hnd Hx HP HQ Heq. induction Hnd as [|y l Hy Hnd IH]; [by apply not_elem_of_nil in Hx|].
  apply elem_of_cons in Hx as [<-|Hx].
  - rewrite filter_cons_True, filter_cons_False by done. f_equiv.
    erewrite filter_ext_in; [done|]. intros z Hz. apply Heq. by intros ->.
  - assert (y <> x) as Hne by (by intros ->). specialize (IH Hx). pose proof (Heq _ Hne) as Heqy.
    rewrite !filter_cons. repeat case_decide; try (by rewrite IH; apply Permutation_swap); try done;
      exfalso; congruence.
Qed.

Section router.
Variable calls : gmap nat call.

(** ** The actions as transitions

    One rule for each kind of effect an action has: what the invariants below
    need to know about it. *)
Inductive transition (r : Router) : Router -> Prop :=
| t_reject c cl e :
    calls !! c = Some cl -> is_Some (request_of c cl) -> clients r !! c = Some CStart ->
    (forall m, cl <> AcceptWithResponse m) ->
    transition r (goto_client c (CReturn (Some e)) r)
| t_refuse c m e :
    calls !! c = Some (AcceptWithResponse m) -> clients r !! c = Some CStart -> results r !! c = None ->
    transition r (goto_client c (CReturn None) (set_results (insert c (mkResult None (Some e))) r))
| t_close c :
    calls !! c = Some Close -> clients r !! c = Some CStart ->
    transition r (goto_client c (CReturn None) (set_done (fun _ => true) r))
| t_start c cl :
    calls !! c = Some cl -> is_Some (request_of c cl) -> clients r !! c = Some CStart ->
    transition r (goto_client c CLock r)
| t_lock c cl :
    calls !! c = Some cl -> clients r !! c = Some CLock -> mu r = None ->
    transition r (goto_client c CCheck (set_mu (fun _ => Some (Client c)) r))
| t_check c cl :
    calls !! c = Some cl -> clients r !! c = Some CCheck -> valid r = true ->
    transition r (goto_client c CSend r)
| t_closed c cl e :
    calls !! c = Some cl -> clients r !! c = Some CCheck -> valid r = false ->
    (forall m, cl <> AcceptWithResponse m) ->
    transition r (goto_client c (CUnlock (Some e)) r)
| t_closed_response c m e :
    calls !! c = Some (AcceptWithResponse m) -> clients r !! c = Some CCheck -> valid r = false ->
    results r !! c = None ->
    transition r (goto_client c (CUnlock None) (set_results (insert c (mkResult None (Some e))) r))
| t_send c cl q :
    calls !! c = Some cl -> request_of c cl = Some q -> clients r !! c = Some CSend ->
    requestClosed r = false -> len (requestChan r) < requestCapacity ->
    transition r (goto_client c (CUnlock None) (set_requestChan (fun l => l ++ [q]) r))
| t_client_panic c :
    clients r !! c = Some CSend -> requestClosed r = true -> transition r (goto_client c CPanic r)
| t_unlock c cl x :
    calls !! c = Some cl -> clients r !! c = Some (CUnlock x) ->
    transition r (goto_client c (CReturn x) (set_mu (fun _ => None) r))
| t_run pc :
    running (worker r) -> next_pc r pc -> transition r (goto_worker pc r)
| t_worker_panic :
    running (worker r) -> requestClosed r = true -> transition r (goto_worker WPanic r)
| t_wait pc x rest :
    worker r = WSelect -> waitChan r = x :: rest -> pc = WDispatch \/ (exists e, pc = WStop e) ->
    transition r (goto_worker pc (set_waitId (fun _ => 0) (set_waitChan (fun _ => rest) r)))
| t_request pc q rest w :
    worker r = WSelect -> requestChan r = q :: rest -> pc = WDispatch \/ (exists e, pc = WStop e) ->
    transition r (goto_worker pc (set_responders (register q) (set_written w (set_requestChan (fun _ => rest) r))))
| t_should_wait id :
    dispatching (worker r) -> id <> 0 ->
    transition r (goto_worker WSelect (set_waiting (fun _ => true) (set_waitId (fun _ => id) r)))
| t_deliver m c :
    worker r = WDeliver m -> responders r !! RequestId (Header m) = Some c -> results r !! c = None ->
    transition r (goto_worker WLoop (set_responders (delete (RequestId (Header m)))
      (set_results (insert c (mkResult (Some m) None)) r)))
| t_stop e :
    worker r = WStop e -> transition r (goto_worker (WAnswer e (responders r)) (cancelIfWaiting r))
| t_answer e todo id c :
    worker r = WAnswer e todo -> todo !! id = Some c -> results r !! c = None ->
    transition r (goto_worker (WAnswer e (delete id todo)) (set_results (insert c (mkResult None (Some e))) r))
| t_start_drainer e :
    worker r = WAnswer e ∅ -> transition r (goto_worker WLock (set_drainer (fun _ => DRange e) r))
| t_worker_lock :
    worker r = WLock -> mu r = None ->
    transition r (goto_worker WClose (set_mu (fun _ => Some Worker) r))
| t_close_handle :
    worker r = WClose -> transition r (goto_worker WCloseChan (set_valid (fun _ => false) r))
| t_close_chan :
    worker r = WCloseChan -> transition r (goto_worker WUnlock (set_requestClosed (fun _ => true) r))
| t_worker_unlock :
    worker r = WUnlock -> transition r (goto_worker WExit (set_mu (fun _ => None) r))
| t_drain_end e :
    drainer r = DRange e -> requestChan r = [] -> requestClosed r = true ->
    transition r (set_drainer (fun _ => DEnd) r)
| t_drain e q rest :
    drainer r = DRange e -> requestChan r = q :: rest ->
    transition r (set_drainer (fun _ => DSend e (responseChan q)) (set_requestChan (fun _ => rest) r))
| t_drain_send e c :
    drainer r = DSend e (Some c) -> results r !! c = None ->
    transition r (set_drainer (fun _ => DRange e) (set_results (insert c (mkResult None (Some e))) r))
| t_fire x :
    waiting r = true -> waitChan r = [] ->
    transition r (set_waiting (fun _ => false) (set_waitChan (fun _ => [x]) r)).

Ltac exec_cases H :=
  unfold exec, worker_step, drain_step, client_step, Accept_start, AcceptWithResponse_start,
    Close_start, check_handle, send_request, lock, select_wait, select_request, select_done,
    dispatch_start, dispatch_loop, read_message, deliver, answer, start_drainer, fire, send in H;
  repeat (case_match; simplify_option_eq; try done).

Lemma exec_transition a r r' : exec calls a r = Some r' -> transition r r'.
Proof.
  intros H. destruct a; exec_cases H.
  all: try (econstructor; by eauto).
  all: try (eapply t_send; [eauto..|by apply Z.ltb_lt]).
  all: repeat match goal with
  | H : negb (_ =? _) = true |- _ => apply negb_true_iff, Z.eqb_neq in H
  | H : negb (_ =? _) = false |- _ => apply negb_false_iff, Z.eqb_eq in H
  | H : ParseMessage ?b ?h = Panic |- _ =>
      apply ParseMessage_no_panic in H; [done|];
      by repeat match goal with H : _ && _ = true |- _ => apply andb_prop in H as [? ?%bool_decide_eq_true_1] end
  end.
  all: try (apply t_worker_panic; [|done]); try (apply t_run; [|unfold next_pc]);
    try (apply t_should_wait; [|done]).
  all: repeat match goal with H : worker _ = _ |- _ => rewrite H; clear H end; simpl; naive_solver.
Qed.

(** ** The mutex, the handle and the channels *)

Lemma running_early w :
  running w -> worker_in_lock w = false /\ handle_closed w = false /\ chan_closed w = false /\
    drainer_started w = false.
Proof. by destruct w. Qed.
Lemma chan_closed_handle w : chan_closed w = true -> handle_closed w = true.
Proof. by destruct w. Qed.
Lemma dispatching_running w : dispatching w -> running w.
Proof. by destruct w. Qed.

Record control (r : Router) : Prop := mkControl {
  c_known t pc : clients r !! t = Some pc -> is_Some (calls !! t);
  c_lock t pc : clients r !! t = Some pc -> in_lock pc = bool_decide (mu r = Some (Client t));
  c_owner t : mu r = Some (Client t) -> is_Some (clients r !! t);
  c_worker_lock : worker_in_lock (worker r) = bool_decide (mu r = Some Worker);
  c_valid : handle_closed (worker r) = negb (valid r);
  c_closed : requestClosed r = chan_closed (worker r);
  c_send t : clients r !! t = Some CSend -> valid r = true;
  c_no_panic t pc : clients r !! t = Some pc -> pc <> CPanic;
  c_worker : worker r <> WPanic;
  c_drainer : drainer_started (worker r) = drainer_running (drainer r);
  c_end : drainer r = DEnd -> requestChan r = [] /\ requestClosed r = true;
  c_owed : (length (waitChan r) <= if waiting r then 0 else 1)%nat;
  c_waits : running (worker r) -> waitId r = 0 -> waitChan r = [] /\ waiting r = false;
  c_dispatching : dispatching (worker r) -> waitId r = 0
}.

Lemma control_init : control (NewRouter calls).
Proof.
  constructor; simpl; try done; try lia.
  all: intros t; rewrite lookup_fmap; destruct (calls !! t); naive_solver.
Qed.

(** Case analysis on the goroutine a lookup asks for. *)
Ltac lookup_cases :=
  repeat match goal with
  | H : <[?i := _]> _ !! ?j = _ |- _ =>
      apply lookup_insert_Some in H as [[<- ?]|[? ?]]; simplify_eq
  end.

Lemma control_step r r' : control r -> transition r r' -> control r'.
Proof.
  intros Hc Ht. destruct Ht.
  all: pose proof Hc as [Hkn Hlk How Hwl Hv Hcl Hs Hnp Hw Hd He Ho Hws Hdi].
  all: try match goal with H : clients _ !! _ = Some _ |- _ => pose proof (Hlk _ _ H); pose proof (Hkn _ _ H) end.
  all: repeat match goal with
  | H : worker _ = _ |- _ => rewrite H in *; clear H; simpl in *
  | H : ?pc = _ \/ _ |- _ => destruct H as [->|[? ->]]
  | H : next_pc _ _ |- _ => destruct H as [[H ?]|[? ->]]; [pose proof H as (?&?&?&?)%running_early|]
  | H : Is_true (dispatching _) |- _ => pose proof (Hdi H); apply dispatching_running in H
  | H : Is_true (running _) |- _ => specialize (Hws H); apply running_early in H as (?&?&?&?)
  | H : drainer _ = _ |- _ => rewrite H in *; clear H; simpl in *
  end.
  all: constructor; simpl; try done.
  all: intros; lookup_cases; simpl in *; simplify_eq; try done; try (by eauto);
    try (by apply lookup_insert_is_Some'; eauto); try congruence.
  all: try match goal with H : clients _ !! _ = Some _ |- in_lock _ = _ => rewrite (Hlk _ _ H) end.
  all: repeat case_bool_decide; simplify_eq; try done; try congruence.
  all: try match goal with H : drainer _ = DEnd |- _ => rewrite H in *; destruct (He eq_refl); simplify_eq/= end.
  all: try congruence.
  all: try match goal with H : requestClosed _ = true |- _ =>
    rewrite Hcl in H; apply chan_closed_handle in H end.
  all: try match goal with H : clients _ !! _ = Some CSend |- _ => rewrite (Hs _ H) in *; pose proof (Hlk _ _ H) end; simplify_eq/=.
  all: try match goal with H : waitChan _ = _ :: ?l |- _ => rewrite H in *; destruct l, (waiting _); simpl in *; try lia; try done end.
  all: try match goal with H : mu _ = Some Worker, H' : true = _ |- _ => by rewrite H in H' end.
  all: try (by intros ->).
  all: try congruence.
  - match goal with H : Is_true (dispatching pc), H' : Is_true (dispatching pc) -> _ |- _ => destruct (H' H); auto end.
  - destruct Hws as [-> _]; done.
  - destruct Hws; congruence.
  - destruct Hws; congruence.
Qed.

(** ** Who owes a result

    Every response channel has, at any time, exactly one holder that will put a
    result in it: the call before it sends its request, an entry of
    [requestChan], of the responders, of the map the stopped worker ranges over,
    or the drainer; or it has its result. *)
Definition is_request (cl : call) : bool :=
  match cl with AcceptWithResponse _ => true | _ => false end.

Definition requesters : list nat := (map_to_list (filter (fun p => is_request p.2) calls)).*1.

Lemma requesters_iff c : c ∈ requesters <-> exists m, calls !! c = Some (AcceptWithResponse m).
Proof.
  unfold requesters. rewrite list_elem_of_fmap. split.
  - intros ([c' cl]&->&[Hc Hr]%elem_of_map_to_list%map_lookup_filter_Some). destruct cl; naive_solver.
  - intros [m Hm]. exists (c, AcceptWithResponse m). split; [done|].
    by apply elem_of_map_to_list, map_lookup_filter_Some.
Qed.

Definition unsent (pc : option client_pc) : bool :=
  match pc with Some (CStart | CLock | CCheck | CSend) => true | _ => false end.

Definition pending (cs : gmap nat client_pc) : list nat :=
  filter (fun c => unsent (cs !! c)) requesters.

Lemma pending_same c pc cs :
  (c ∈ requesters -> unsent (cs !! c) = unsent (Some pc)) -> pending (<[c := pc]> cs) = pending cs.
Proof.
  intros H. unfold pending. apply filter_ext_in. intros c' Hc'.
  destruct (decide (c = c')) as [<-|]; [|by rewrite lookup_insert_ne].
  rewrite lookup_insert_eq, H by done; done.
Qed.

Lemma pending_gone c pc cs :
  c ∈ requesters -> unsent (cs !! c) -> unsent (Some pc) = false ->
  pending cs ≡ₚ c :: pending (<[c := pc]> cs).
Proof.
  intros Hc Hu Hpc. unfold pending. apply filter_remove; [apply NoDup_fst_map_to_list|done..| |].
  - intros H. cbv beta in H. by rewrite lookup_insert_eq, Hpc in H.
  - intros y Hy. by rewrite lookup_insert_ne.
Qed.

Definition vals (m : gmap Z nat) : list nat := (map_to_list m).*2.

Lemma vals_insert id c m : m !! id = None -> vals (<[id := c]> m) ≡ₚ c :: vals m.
Proof. intros H. unfold vals. by rewrite map_to_list_insert. Qed.
Lemma vals_delete id c m : m !! id = Some c -> vals m ≡ₚ c :: vals (delete id m).
Proof. intros H. unfold vals. by rewrite <- (map_to_list_delete m id c). Qed.

Definition answered (rs : gmap nat MessageReadResult) : list nat := (map_to_list rs).*1.

Lemma answered_insert c x rs : rs !! c = None -> answered (<[c := x]> rs) ≡ₚ c :: answered rs.
Proof. intros H. unfold answered. by rewrite map_to_list_insert. Qed.
Lemma answered_iff c rs : c ∈ answered rs <-> is_Some (rs !! c).
Proof.
  unfold answered. rewrite list_elem_of_fmap. split.
  - intros ([c' x]&->&H%elem_of_map_to_list). by exists x.
  - intros [x H]. exists (c, x). split; [done|]. by apply elem_of_map_to_list.
Qed.

Definition worker_holds (w : worker_pc) (m : gmap Z nat) : list nat :=
  match w with
  | WAnswer _ todo => vals todo
  | WLock | WClose | WCloseChan | WUnlock | WExit => []
  | _ => vals m
  end.
Definition drainer_holds (d : drainer_pc) : list nat :=
  match d with DSend _ (Some c) => [c] | _ => [] end.

Definition holders (r : Router) : list nat :=
  pending (clients r) ++ omap responseChan (requestChan r) ++
  worker_holds (worker r) (responders r) ++ drainer_holds (drainer r) ++ answered (results r).

(** A result for the request [m]: an error, or a message with its id. *)
Definition answers (m : Message) (x : MessageReadResult) : Prop :=
  match x with
  | mkResult (Some m') None => RequestId (Header m') = RequestId (Header m)
  | mkResult None (Some _) => True
  | _ => False
  end.

(** The entries of [requestChan] and of the responders belong to the calls
    that made them, and what a response channel received is for its call. *)
Record routed (r : Router) : Prop := mkRouted {
  rt_holders : holders r ≡ₚ requesters;
  rt_queue q : q ∈ requestChan r -> exists c cl, calls !! c = Some cl /\ request_of c cl = Some q;
  rt_responders id c : responders r !! id = Some c ->
    exists m, calls !! c = Some (AcceptWithResponse m) /\ RequestId (Header m) = id;
  rt_results c x : results r !! c = Some x ->
    exists m, calls !! c = Some (AcceptWithResponse m) /\ answers m x
}.

Definition unique_ids : Prop := forall c c' m m',
  calls !! c = Some (AcceptWithResponse m) -> calls !! c' = Some (AcceptWithResponse m') ->
  RequestId (Header m) = RequestId (Header m') -> c = c'.

Lemma holders_NoDup r : routed r -> NoDup (holders r).
Proof. intros Hr. rewrite (rt_holders _ Hr). apply NoDup_fst_map_to_list. Qed.

Lemma worker_holds_running w m : running w -> worker_holds w m = vals m.
Proof. by destruct w. Qed.

Lemma vals_elem id c m : m !! id = Some c -> c ∈ vals m.
Proof. intros H. rewrite (vals_delete _ _ _ H). apply list_elem_of_here. Qed.

(** A registration never replaces another one. *)
Lemma register_fresh r q rest c :
  unique_ids -> routed r -> running (worker r) -> requestChan r = q :: rest -> responseChan q = Some c ->
  responders r !! RequestId (Header (message q)) = None.
Proof.
  intros Hu Hr Hw Hq Hc. destruct (responders r !! _) as [c'|] eqn:Hl; [exfalso|done].
  destruct (rt_responders _ Hr _ _ Hl) as (m'&Hm'&Hid).
  destruct (rt_queue _ Hr q) as (c2&cl&Hcl&Hreq); [rewrite Hq; set_solver|].
  destruct cl; simplify_eq/=. pose proof (Hu _ _ _ _ Hm' Hcl Hid) as <-.
  pose proof (holders_NoDup _ Hr) as Hnd. unfold holders in Hnd.
  rewrite worker_holds_running, Hq in Hnd by done. simpl in Hnd.
  apply NoDup_app in Hnd as (_&_&Hnd). apply NoDup_cons in Hnd as [Hnd _]. apply Hnd.
  apply vals_elem in Hl. rewrite !elem_of_app. auto.
Qed.

Lemma register_vals r q rest :
  unique_ids -> routed r -> running (worker r) -> requestChan r = q :: rest ->
  omap responseChan (requestChan r) ++ vals (responders r) ≡ₚ
  omap responseChan rest ++ vals (register q (responders r)).
Proof.
  intros Hu Hr Hw Hq. rewrite Hq. unfold register. simpl.
  destruct (responseChan q) as [c|] eqn:Hc; [|done].
  rewrite (vals_insert _ _ _ (register_fresh _ _ _ _ Hu Hr Hw Hq Hc)). apply Permutation_middle.
Qed.

Lemma request_requester c cl q :
  calls !! c = Some cl -> request_of c cl = Some q ->
  match responseChan q with Some c' => c' = c /\ c ∈ requesters | None => c ∉ requesters end.
Proof.
  intros Hc Hq. destruct cl; simplify_eq/=; [|split; [done|]]; rewrite requesters_iff; [|by eauto].
  intros [m Hm]. simplify_eq.
Qed.

Lemma send_open r c : control r -> clients r !! c = Some CSend -> requestClosed r = false.
Proof.
  intros Hc Hs. pose proof (c_send _ Hc _ Hs) as Hv. rewrite (c_closed _ Hc).
  pose proof (c_valid _ Hc) as Hh. rewrite Hv in Hh. by destruct (worker r).
Qed.

Lemma running_open r : control r -> running (worker r) -> requestClosed r = false.
Proof. intros Hc Hw. rewrite (c_closed _ Hc). by destruct (worker r). Qed.

Lemma is_requester c m : calls !! c = Some (AcceptWithResponse m) -> c ∈ requesters.
Proof. rewrite requesters_iff. eauto. Qed.
Lemma not_requester c cl :
  calls !! c = Some cl -> (forall m, cl <> AcceptWithResponse m) -> c ∉ requesters.
Proof. rewrite requesters_iff. intros Hc Hn [m Hm]. rewrite Hc in Hm. simplify_eq. by destruct (Hn m). Qed.

Lemma pending_other c cl pc cs :
  calls !! c = Some cl -> (forall m, cl <> AcceptWithResponse m) -> pending (<[c := pc]> cs) = pending cs.
Proof. intros Hc Hn. apply pending_same. intros H. by destruct (not_requester _ _ Hc Hn). Qed.

Lemma holders_step r r' :
  unique_ids -> control r -> routed r -> transition r r' -> holders r' ≡ₚ holders r.
Proof.
  intros Hu Hc Hr Ht. destruct Ht as
    [c cl e Hcl _ Hpc Hn|c m e Hcl Hpc Hx|c Hcl Hpc|c cl Hcl _ Hpc|c cl Hcl Hpc _|c cl Hcl Hpc _
    |c cl e Hcl Hpc _ Hn|c m e Hcl Hpc _ Hx|c cl q Hcl Hq Hpc _ _|c Hpc Ho|c cl x Hcl Hpc
    |pc Hw Hp|Hw Ho|pc x rest Hw _ Hp|pc q rest w Hw Hq Hp|id Hw _|m c Hw Hm Hx|e Hw
    |e todo id c Hw Ht Hx|e Hw|Hw _|Hw|Hw|Hw|e Hd Hq Ho|e q rest Hd Hq|e c Hd Hx|x _ _];
    unfold holders; simpl.
  - by rewrite (pending_other _ _ _ _ Hcl).
  - rewrite (pending_gone c (CReturn None) (clients r)), answered_insert
      by first [by eauto using is_requester|done|by rewrite Hpc]. solve_Permutation.
  - by rewrite (pending_other _ _ _ _ Hcl).
  - by rewrite pending_same by (by rewrite Hpc).
  - by rewrite pending_same by (by rewrite Hpc).
  - by rewrite pending_same by (by rewrite Hpc).
  - by rewrite (pending_other _ _ _ _ Hcl).
  - rewrite (pending_gone c (CUnlock None) (clients r)), answered_insert
      by first [by eauto using is_requester|done|by rewrite Hpc]. solve_Permutation.
  - rewrite omap_app. simpl. pose proof (request_requester _ _ _ Hcl Hq) as Hreq.
    destruct (responseChan q) as [c'|].
    + destruct Hreq as [-> Hreq]. rewrite (pending_gone c (CUnlock None) (clients r))
        by first [done|by rewrite Hpc]. solve_Permutation.
    + rewrite pending_same by (by intros ?). by rewrite app_nil_r.
  - by rewrite (send_open _ _ Hc Hpc) in Ho.
  - by rewrite pending_same by (by rewrite Hpc).
  - rewrite (worker_holds_running (worker r)) by done.
    destruct Hp as [[Hp _]|[e ->]]; [by rewrite worker_holds_running|done].
  - by rewrite (running_open _ Hc Hw) in Ho.
  - rewrite Hw. by destruct Hp as [->|[e ->]].
  - pose proof (register_vals r q rest Hu Hr) as Hreg. rewrite Hw in *. specialize (Hreg I Hq).
    destruct Hp as [->|[e ->]]; simpl; apply Permutation_app_head;
      rewrite !app_assoc; by rewrite <- Hreg.
  - apply dispatching_running in Hw. by rewrite (worker_holds_running (worker r)).
  - rewrite Hw, answered_insert by done. simpl. rewrite (vals_delete _ _ _ Hm). solve_Permutation.
  - by rewrite Hw.
  - rewrite Hw, answered_insert by done. simpl. rewrite (vals_delete _ _ _ Ht). solve_Permutation.
  - pose proof (c_drainer _ Hc) as Hd. rewrite Hw in *. by destruct (drainer r).
  - by rewrite Hw.
  - by rewrite Hw.
  - by rewrite Hw.
  - by rewrite Hw.
  - by rewrite Hd.
  - rewrite Hd, Hq. simpl. destruct (responseChan q); solve_Permutation.
  - rewrite Hd, answered_insert by done. solve_Permutation.
  - done.
Qed.

Lemma routed_init : routed (NewRouter calls).
Proof.
  split; simpl; [|set_solver|done|done]. unfold holders, answered, vals. simpl.
  rewrite !map_to_list_empty. simpl. rewrite app_nil_r. unfold pending.
  rewrite filter_all; [done|]. intros c [m Hm]%requesters_iff. by rewrite lookup_fmap, Hm.
Qed.

Lemma holder_requester r c : routed r -> c ∈ holders r -> exists m, calls !! c = Some (AcceptWithResponse m).
Proof. intros Hr Hc. rewrite (rt_holders _ Hr) in Hc. by apply requesters_iff. Qed.

(** Giving a holder an error keeps [rt_results]. *)
Lemma results_error r c e c' x :
  routed r -> (exists m, calls !! c = Some (AcceptWithResponse m)) ->
  <[c := mkResult None (Some e)]> (results r) !! c' = Some x ->
  exists m, calls !! c' = Some (AcceptWithResponse m) /\ answers m x.
Proof.
  intros Hr [m Hm] [[<- <-]|[_ Hx]]%lookup_insert_Some; [by exists m|by apply (rt_results _ Hr)].
Qed.

Lemma routed_step r r' :
  unique_ids -> control r -> routed r -> transition r r' -> routed r'.
Proof.
  intros Hu Hc Hr Ht. pose proof (holders_step _ _ Hu Hc Hr Ht) as Hh.
  rewrite (rt_holders _ Hr) in Hh. pose proof Hr as [_ Hq Hresp Hres].
  destruct Ht as
    [c cl e Hcl _ Hpc Hn|c m e Hcl Hpc Hx|c Hcl Hpc|c cl Hcl _ Hpc|c cl Hcl Hpc _|c cl Hcl Hpc _
    |c cl e Hcl Hpc _ Hn|c m e Hcl Hpc _ Hx|c cl q Hcl Hrq Hpc _ _|c Hpc Ho|c cl x Hcl Hpc
    |pc Hw Hp|Hw Ho|pc x rest Hw _ Hp|pc q rest w Hw Hqs Hp|id Hw _|m c Hw Hm Hx|e Hw
    |e todo id c Hw Ht Hx|e Hw|Hw _|Hw|Hw|Hw|e Hd Hqs Ho|e q rest Hd Hqs|e c Hd Hx|x _ _];
    (split; [done|simpl; try done..]).
  - intros c' x. apply results_error; eauto.
  - intros c' x. apply results_error; eauto.
  - intros q' [Hq'|Hq']%elem_of_app; [by eauto|]. apply list_elem_of_singleton in Hq' as ->. eauto.
  - intros q' Hq'. apply Hq. rewrite Hqs. by apply list_elem_of_further.
  - intros id c. unfold register. destruct (responseChan q) as [c'|] eqn:Hc'; [|apply Hresp].
    intros [[<- <-]|[_ Hl]]%lookup_insert_Some; [|by apply Hresp].
    destruct (Hq q) as (c2&cl&Hcl&Hrq); [rewrite Hqs; apply list_elem_of_here|].
    destruct cl; simplify_eq/=. eauto.
  - intros id c' [_ Hl]%lookup_delete_Some. by apply Hresp.
  - destruct (Hresp _ _ Hm) as (m0&Hm0&Hid).
    intros c' x [[<- <-]|[_ Hl]]%lookup_insert_Some; [|by apply Hres]. by exists m0.
  - intros c' x. apply results_error; [done|]. apply (holder_requester r); [done|].
    unfold holders. rewrite Hw, !elem_of_app. right; right; left. by eapply vals_elem.
  - intros q' Hq'. apply Hq. rewrite Hqs. by apply list_elem_of_further.
  - intros c' x. apply results_error; [done|]. apply (holder_requester r); [done|].
    unfold holders. rewrite Hd, !elem_of_app. right; right; right; left. apply list_elem_of_here.
Qed.

Lemma step_inv r r' :
  unique_ids -> step calls r r' -> control r /\ routed r -> control r' /\ routed r'.
Proof.
  intros Hu [a ? ? Ha%exec_transition] [Hc Hr]. eauto using control_step, routed_step.
Qed.

Lemma steps_inv r r' :
  unique_ids -> rtc (step calls) r r' -> control r /\ routed r -> control r' /\ routed r'.
Proof. intros Hu. induction 1; eauto using step_inv. Qed.

Lemma reachable_inv r : unique_ids -> reachable calls r -> control r /\ routed r.
Proof. intros Hu Hr. eapply steps_inv; eauto using control_init, routed_init. Qed.

(** ** The steps that are left once the worker has stopped *)

Definition client_rank (pc : client_pc) : nat :=
  match pc with CStart => 8 | CLock => 7 | CCheck => 6 | CSend => 5 | CUnlock _ => 1 | _ => 0 end.
Definition worker_rank (w : worker_pc) (m : gmap Z nat) : nat :=
  match w with
  | WAnswer _ todo => 5 + size todo
  | WLock => 4 | WClose => 3 | WCloseChan => 2 | WUnlock => 1 | WExit => 0
  | _ => 6 + size m
  end.
Definition drainer_rank (d : drainer_pc) : nat :=
  match d with DNone => 3 | DSend _ _ => 2 | DRange _ => 1 | DEnd => 0 end.
Definition clients_rank (cs : gmap nat client_pc) : nat :=
  sum_list (client_rank <$> (map_to_list cs).*2).

Definition steps_left (r : Router) : nat :=
  clients_rank (clients r) + worker_rank (worker r) (responders r) + drainer_rank (drainer r) +
  2 * length (requestChan r) + (if waiting r then 1 else 0).

Lemma clients_rank_insert c pc pc' cs :
  cs !! c = Some pc -> (clients_rank (<[c := pc']> cs) + client_rank pc = clients_rank cs + client_rank pc')%nat.
Proof.
  intros Hc. unfold clients_rank.
  rewrite <- (insert_delete_eq cs), (map_to_list_insert (delete c cs) c pc') by apply lookup_delete_eq.
  rewrite <- (map_to_list_delete cs c pc Hc). simpl. lia.
Qed.

(** No action of [runLoop] is possible any more. *)
Ltac still_running Hs :=
  exfalso; apply Hs;
  first [done|by match goal with H : worker _ = _ |- _ => rewrite H end|by apply dispatching_running].

Lemma stopped_step r r' : ~ running (worker r) -> transition r r' -> ~ running (worker r').
Proof.
  intros Hs Ht. destruct Ht; simpl; try done; try (by auto); try (by intros []).
  all: still_running Hs.
Qed.

Lemma stopped_decrease r r' :
  control r -> ~ running (worker r) -> transition r r' -> (steps_left r' < steps_left r)%nat.
Proof.
  intros Hc Hs Ht. unfold steps_left. pose proof (c_drainer _ Hc) as Hd.
  destruct Ht; simpl; try done.
  all: try match goal with H : clients _ !! _ = Some _ |- context [<[?c := ?pc']> _] =>
    pose proof (clients_rank_insert c _ pc' _ H); simpl in * end.
  all: try lia.
  all: try still_running Hs.
  all: repeat match goal with
  | H : worker _ = _ |- _ => rewrite H in *; clear H
  | H : waiting _ = _ |- _ => rewrite H in *; clear H
  | H : drainer _ = _ |- _ => rewrite H in *; clear H
  | H : requestChan _ = _ :: _ |- _ => rewrite H in *; clear H
  end; simpl in *; try lia.
  - rewrite length_app. simpl. lia.
  - match goal with H : todo !! id = Some c |- _ =>
      pose proof (map_size_insert_None id c (delete id todo) (lookup_delete_eq _ _)) as Hsz;
      rewrite insert_delete_eq, (insert_id _ _ _ H) in Hsz end. lia.
  - destruct (drainer r); simpl in *; [lia|done..].
Qed.

(** A run of a stopped router has no more than [steps_left] steps. *)
Lemma stopped_run n r r' :
  unique_ids -> control r /\ routed r -> ~ running (worker r) -> nsteps (step calls) n r r' ->
  (n <= steps_left r)%nat.
Proof.
  intros Hu Hi Hs Hn. induction Hn as [|n r r1 r' H1 Hn IH]; [lia|].
  pose proof (step_inv _ _ Hu H1 Hi) as Hi'. destruct H1 as [a ? ? Ha%exec_transition].
  pose proof (stopped_decrease _ _ (proj1 Hi) Hs Ha).
  pose proof (IH Hi' (stopped_step _ _ Hs Ha)). lia.
Qed.

(** ** Where a stopped router comes to rest *)

(** [Close] takes no lock, and only a request of [Accept] has no response
    channel. *)
Record answerable (r : Router) : Prop := mkAnswerable {
  an_close t pc : calls !! t = Some Close -> clients r !! t = Some pc ->
    pc = CStart \/ exists x, pc = CReturn x;
  an_drainer e : drainer r = DSend e None -> exists c m, calls !! c = Some (Accept m)
}.

Lemma answerable_init : answerable (NewRouter calls).
Proof.
  split; simpl; [|done]. intros t pc Ht. rewrite lookup_fmap, Ht. intros [= <-]. by left.
Qed.

Lemma answerable_step r r' :
  routed r -> answerable r -> transition r r' -> answerable r'.
Proof.
  intros Hr [Hcl Hd] Ht. destruct Ht; split; simpl; try done.
  all: try (intros t pc' Hclose Hl; apply lookup_insert_Some in Hl as [[<- <-]|[_ Hl]];
    [simplify_eq/=; try (by eauto)|by eauto]).
  all: try match goal with
  | H : is_Some None |- _ => by destruct H
  | Hclose : calls !! ?t = Some Close, H : clients _ !! ?t = Some _ |- _ =>
      destruct (Hcl _ _ Hclose H) as [?|[? ?]]; simplify_eq
  end.
  intros e' [= -> Hc]. destruct (rt_queue _ Hr q) as (c&cl&Hcall&Hq);
    [by match goal with H : requestChan r = _ |- _ => rewrite H end; apply list_elem_of_here|].
  destruct cl; simplify_eq/=. eauto.
Qed.

(** The channel of whoever still owes a result is empty, so the send that gives
    it does not block. *)
Lemma unanswered r c :
  routed r ->
  c ∈ pending (clients r) ++ omap responseChan (requestChan r) ++
    worker_holds (worker r) (responders r) ++ drainer_holds (drainer r) ->
  results r !! c = None.
Proof.
  intros Hr Hc. pose proof (holders_NoDup _ Hr) as Hnd. unfold holders in Hnd.
  rewrite !app_assoc in Hnd. rewrite !app_assoc in Hc. apply NoDup_app in Hnd as (_&Hd&_).
  destruct (results r !! c) eqn:Hx; [|done]. destruct (Hd c Hc). apply answered_iff. eauto.
Qed.

Lemma send_unanswered r c x : results r !! c = None -> send c x r = Some (set_results (insert c x) r).
Proof. intros H. unfold send. by rewrite H. Qed.

Definition stuck (r : Router) : Prop := forall r', ~ step calls r r'.

Lemma stuck_exec r a : stuck r -> exec calls a r = None.
Proof.
  intros Hs. destruct (exec calls a r) as [r'|] eqn:He; [|done].
  destruct (Hs r'). by econstructor.
Qed.

Section stuck.
Variable r : Router.
Hypotheses (Hc : control r) (Hr : routed r) (Ha : answerable r) (Hs : stuck r).
Hypothesis Hresp : forall e, drainer r <> DSend e None.

Lemma stuck_drainer e :
  drainer r = DRange e \/ (exists e' c, drainer r = DSend e' c) ->
  drainer r = DRange e /\ requestChan r = [] /\ requestClosed r = false.
Proof.
  pose proof (stuck_exec r ADrain Hs) as Hd. simpl in Hd. unfold drain_step in Hd.
  intros [Hdr|(e'&[c|]&Hdr)]; [rewrite Hdr in Hd|exfalso; rewrite Hdr in Hd..].
  - destruct (requestChan r); [|done]. by destruct (requestClosed r).
  - simpl in Hd. rewrite send_unanswered in Hd; [done|]. apply unanswered; [done|].
    rewrite Hdr, !elem_of_app. right; right; right. apply list_elem_of_here.
  - by destruct (Hresp e').
Qed.

Lemma stuck_worker : ~ running (worker r) -> worker r = WExit \/ worker r = WLock /\ mu r <> None.
Proof.
  intros Hrun. pose proof (stuck_exec r AWorker Hs) as Hw. simpl in Hw. unfold worker_step in Hw.
  destruct (worker r) as [| | | | |e|e todo| | | | | |] eqn:Hwr; try done; auto.
  - destruct (decide (todo = ∅)) as [->|Hne].
    + unfold start_drainer in Hw. by case_decide.
    + apply map_choose in Hne as (id&c&Hid). exfalso.
      pose proof (stuck_exec r (AAnswer id) Hs) as Hx. simpl in Hx. rewrite Hwr in Hx.
      unfold answer in Hx. rewrite Hid in Hx. simpl in Hx. rewrite send_unanswered in Hx; [done|].
      apply unanswered; [done|]. rewrite Hwr, !elem_of_app. right; right; left. by eapply vals_elem.
  - right. split; [done|]. unfold lock in Hw. by destruct (mu r).
  - by destruct (c_worker _ Hc).
Qed.

Lemma stuck_client c pc :
  clients r !! c = Some pc -> requestChan r = [] ->
  (exists x, pc = CReturn x) \/ pc = CLock /\ mu r <> None.
Proof.
  intros Hpc Hq. destruct (c_known _ Hc _ _ Hpc) as [cl Hcl].
  assert (unsent (Some pc) -> forall m, cl = AcceptWithResponse m -> results r !! c = None) as Hfree.
  { intros Hu m ->. apply unanswered; [done|]. rewrite elem_of_app. left.
    apply list_elem_of_filter. rewrite Hpc. eauto using is_requester. }
  pose proof (an_close _ Ha c pc) as Hclose. rewrite Hcl in Hclose.
  pose proof (stuck_exec r (AClient c) Hs) as He. simpl in He. unfold client_step in He.
  rewrite Hcl, Hpc in He. simpl in He. destruct pc as [| | | |x|x|].
  - destruct cl as [m|m|]; unfold Accept_start, AcceptWithResponse_start in He; [by case_match| |done].
    case_match; [|done]. by rewrite send_unanswered in He by eauto.
  - right. split; [done|]. unfold lock in He. by destruct (mu r).
  - unfold check_handle in He. destruct (valid r); [done|].
    destruct cl as [m|m|]; try done. by rewrite send_unanswered in He by eauto.
  - unfold send_request in He. rewrite (send_open _ _ Hc Hpc), Hq in He.
    destruct cl as [m|m|]; try done. destruct (Hclose eq_refl Hpc) as [|[? ?]]; done.
  - done.
  - eauto.
  - by destruct (c_no_panic _ Hc _ _ Hpc).
Qed.

Lemma stuck_end :
  ~ running (worker r) ->
  worker r = WExit /\ drainer r = DEnd /\ requestChan r = [] /\
  (forall c pc, clients r !! c = Some pc -> exists x, pc = CReturn x) /\
  (forall c m, calls !! c = Some (AcceptWithResponse m) -> exists x, results r !! c = Some x /\ answers m x).
Proof.
  intros Hrun. pose proof (stuck_worker Hrun) as Hw.
  assert (drainer_started (worker r) = true) as Hds by (by destruct Hw as [->|[-> _]]).
  pose proof (c_drainer _ Hc) as Hd. rewrite Hds in Hd.
  assert (requestChan r = []) as Hq.
  { pose proof stuck_drainer as Hsd. destruct (drainer r) as [|e|e c|] eqn:Hdr; [done|..].
    - by destruct (Hsd e) as (_&?&_); auto.
    - by destruct (Hsd e) as (_&?&_); eauto.
    - by apply (c_end _ Hc). }
  assert (mu r = None) as Hmu.
  { destruct (mu r) as [[|t]|] eqn:Hmu; [exfalso..|done].
    - pose proof (c_worker_lock _ Hc) as Hl. rewrite Hmu, bool_decide_true in Hl by done.
      by destruct Hw as [Hw|[Hw _]]; rewrite Hw in Hl.
    - destruct (c_owner _ Hc t Hmu) as [pc Hpc]. pose proof (c_lock _ Hc _ _ Hpc) as Hl.
      rewrite bool_decide_true in Hl by done.
      by destruct (stuck_client t pc Hpc Hq) as [[x ->]|[-> _]]. }
  destruct Hw as [Hw|[_ Hw]]; [|done].
  assert (drainer r = DEnd) as Hend.
  { pose proof (c_closed _ Hc) as Hcl. rewrite Hw in Hcl. simpl in Hcl. pose proof stuck_drainer as Hsd.
    destruct (drainer r) as [|e|e c|] eqn:Hdr; try done.
    - destruct (Hsd e) as (_&_&?); [by auto|congruence].
    - destruct (Hsd e) as (_&_&?); [by eauto|congruence]. }
  assert (forall c pc, clients r !! c = Some pc -> exists x, pc = CReturn x) as Hret.
  { intros c pc Hpc. by destruct (stuck_client c pc Hpc Hq) as [?|[_ ?]]. }
  do 4 (split; [done|]). intros c m Hcm. pose proof (is_requester _ _ Hcm) as Hreq.
  rewrite <- (rt_holders _ Hr) in Hreq. unfold holders in Hreq.
  rewrite Hq, Hw, Hend in Hreq. simpl in Hreq. apply elem_of_app in Hreq as [Hp|Hp].
  - apply list_elem_of_filter in Hp as [Hu _]. destruct (clients r !! c) eqn:Hpc; [|done].
    by destruct (Hret _ _ Hpc) as [x ->].
  - apply answered_iff in Hp as [x Hx]. exists x. split; [done|].
    destruct (rt_results _ Hr _ _ Hx) as (m'&Hm'&Hx'). by simplify_eq.
Qed.
End stuck.

Lemma answerable_reachable r : unique_ids -> reachable calls r -> answerable r.
Proof.
  intros Hu Hr. assert (forall r1, rtc (step calls) r1 r -> control r1 /\ routed r1 ->
    answerable r1 -> answerable r) as H; [|by eauto using control_init, routed_init, answerable_init].
  clear Hr. intros r1 H1. induction H1 as [|r1 r2 r3 H1 H2 IH]; intros Hi Ha; [done|].
  apply IH; [by eauto using step_inv|]. destruct H1 as [a ? ? Hx%exec_transition].
  eapply answerable_step; [apply Hi|done..].
Qed.

(** A worker that is in [runLoop] and has been asked to stop can go on, unless
    it is delivering a response to nobody. *)
Lemma stuck_running r :
  control r -> routed r -> stuck r -> running (worker r) -> done_ r = true ->
  exists m, worker r = WDeliver m /\ responders r !! RequestId (Header m) = None.
Proof.
  intros Hc Hr Hs Hw Hd. pose proof (fun a => stuck_exec r a Hs) as He. simpl in He.
  destruct (worker r) as [| | |bl hl|m| | | | | | | |] eqn:Hwr; try done.
  - specialize (He ADone). simpl in He. rewrite Hwr in He. unfold select_done in He. by rewrite Hd in He.
  - specialize (He AWorker). simpl in He. unfold worker_step in He. by rewrite Hwr in He.
  - specialize (He AWorker). simpl in He. unfold worker_step in He. by rewrite Hwr in He.
  - specialize (He (ARead (ReadTooSmall 0 0))). simpl in He. by rewrite Hwr in He.
  - specialize (He AWorker). simpl in He. unfold worker_step in He. rewrite Hwr in He.
    exists m. split; [done|]. unfold deliver in He.
    destruct (responders r !! _) as [c|] eqn:Hl; [|done]. simpl in He.
    rewrite send_unanswered in He; [done|]. apply unanswered; [done|].
    rewrite Hwr, !elem_of_app. right; right; left. by eapply vals_elem.
Qed.

(** *** States that nothing leaves *)

Lemma deliver_blocked r r' m :
  worker r = WDeliver m -> responders r !! RequestId (Header m) = None -> step calls r r' ->
  worker r' = WDeliver m /\ responders r' = responders r.
Proof.
  intros Hw Hn Hs. inversion_clear Hs as [a ? ? H]. destruct a; simpl in H; unfold worker_step in H; try rewrite Hw in H; exec_cases H; try done.
  by rewrite Hn in H.
Qed.

Lemma drainer_blocked r r' e :
  control r -> drainer r = DSend e None -> step calls r r' ->
  drainer r' = DSend e None /\ exists l, requestChan r' = requestChan r ++ l.
Proof.
  intros Hc Hd Hst. inversion_clear Hst as [a ? ? H%exec_transition]. pose proof (c_drainer _ Hc) as Hs. rewrite Hd in Hs. simpl in Hs.
  destruct H; simpl; try (split; [done|exists []; by rewrite app_nil_r]); try congruence.
  - split; [done|]. by eexists.
  - by match goal with H : worker r = _ |- _ => rewrite H in Hs end.
  - by match goal with H : worker r = _ |- _ => rewrite H in Hs end.
Qed.

(** ** Properties *)

(** C10: the router's goroutines never send on a closed channel, never dereference
    the request of a closed channel and never parse a message into a panic; a
    response channel only gets an error or a message with the id of the request
    it was made for; and the sends of the worker, the drainer and the waiter
    find room: whoever still owes a result finds the channel empty. *)
Theorem router_safe r :
  unique_ids -> reachable calls r ->
  worker r <> WPanic /\ (forall c pc, clients r !! c = Some pc -> pc <> CPanic) /\
  (forall c x, results r !! c = Some x ->
     exists m, calls !! c = Some (AcceptWithResponse m) /\ answers m x) /\
  (forall id c, running (worker r) -> responders r !! id = Some c -> results r !! c = None) /\
  (forall e todo id c, worker r = WAnswer e todo -> todo !! id = Some c -> results r !! c = None) /\
  (forall e c, drainer r = DSend e (Some c) -> results r !! c = None) /\
  (waiting r = true -> waitChan r = []).
Proof.
  intros Hu Hreach. destruct (reachable_inv _ Hu Hreach) as [Hc Hr].
  split_and!; [apply (c_worker _ Hc)|apply (c_no_panic _ Hc)|apply (rt_results _ Hr)|..].
  - intros id c Hw Hl. apply unanswered; [done|]. rewrite worker_holds_running, !elem_of_app by done.
    right; right; left. by eapply vals_elem.
  - intros e todo id c Hw Hl. apply unanswered; [done|]. rewrite Hw, !elem_of_app.
    right; right; left. by eapply vals_elem.
  - intros e c Hd. apply unanswered; [done|]. rewrite Hd, !elem_of_app.
    right; right; right. apply list_elem_of_here.
  - intros Hw. pose proof (c_owed _ Hc) as Ho. rewrite Hw in Ho. destruct (waitChan r); [done|simpl in Ho; lia].
Qed.

(** C32: once the worker has left [runLoop] every run comes to an end, within
    [steps_left] steps; and a state where nothing can happen any more, after [Close]
    or after the worker stopped for an error, is one where the worker and the
    drainer have terminated, every call has returned and every [AcceptWithResponse]
    has its result, with two exceptions: the worker is caught in the delivery of a
    response whose id no request has, or the drainer is caught answering a one-way
    message, which somebody has sent with [Accept]. *)
Theorem router_shutdown_answers r :
  unique_ids -> reachable calls r ->
  (~ running (worker r) -> forall n r', nsteps (step calls) n r r' -> (n <= steps_left r)%nat) /\
  (stuck r -> done_ r = true \/ ~ running (worker r) ->
     (exists m, worker r = WDeliver m /\ responders r !! RequestId (Header m) = None) \/
     (exists e c m, drainer r = DSend e None /\ calls !! c = Some (Accept m)) \/
     worker r = WExit /\ drainer r = DEnd /\ requestChan r = [] /\
     (forall c pc, clients r !! c = Some pc -> exists x, pc = CReturn x) /\
     (forall c m, calls !! c = Some (AcceptWithResponse m) ->
        exists x, results r !! c = Some x /\ answers m x)).
Proof.
  intros Hu Hreach. pose proof (reachable_inv _ Hu Hreach) as Hi. split.
  - intros Hw n r'. by apply stopped_run.
  - intros Hs Hd. destruct Hi as [Hc Hr]. pose proof (answerable_reachable _ Hu Hreach) as Ha.
    destruct (running (worker r)) eqn:Hw.
    { left. apply stuck_running; try done; [by rewrite Hw|by destruct Hd]. }
    right. assert ((exists e, drainer r = DSend e None) \/ forall e, drainer r <> DSend e None) as [[e He]|Hresp].
    { destruct (drainer r) as [| |e [c|]|]; eauto. }
    { left. destruct (an_drainer _ Ha e He) as (c&m&Hm). by exists e, c, m. }
    right. apply stuck_end; [done..|by rewrite Hw; intros []].
Qed.

(** a response with an id no request has blocks the worker for ever: in every
    later state it is still at that send, and no request that was registered has
    got a result. *)
Theorem unknown_response_id_blocks r r' m :
  unique_ids -> reachable calls r ->
  worker r = WDeliver m -> responders r !! RequestId (Header m) = None -> rtc (step calls) r r' ->
  worker r' = WDeliver m /\
  forall id c, responders r !! id = Some c -> results r' !! c = None.
Proof.
  intros Hu Hreach Hw Hn Hrun.
  assert (worker r' = WDeliver m /\ responders r' = responders r) as [Hw' Hr'].
  { clear Hreach. induction Hrun as [|r r1 r2 H1 H2 IH]; [done|].
    destruct (deliver_blocked _ _ _ Hw Hn H1) as [Hw1 Hr1]. rewrite <- Hr1. apply IH; [done|by rewrite Hr1]. }
  split; [done|]. intros id c Hl. destruct (reachable_inv r' Hu) as [_ Hr]; [by eapply rtc_trans|].
  apply unanswered; [done|]. rewrite Hw', Hr', !elem_of_app. right; right; left. by eapply vals_elem.
Qed.

(** the drainer that meets a one-way message sends to a nil channel: it stays
    there for ever, and no request queued behind it gets a result. *)
Theorem oneway_request_blocks_drainer r r' e :
  unique_ids -> reachable calls r -> drainer r = DSend e None -> rtc (step calls) r r' ->
  drainer r' = DSend e None /\
  forall q c, q ∈ requestChan r -> responseChan q = Some c -> results r' !! c = None.
Proof.
  intros Hu Hreach Hd Hrun. pose proof (reachable_inv _ Hu Hreach) as Hi.
  assert (drainer r' = DSend e None /\ exists l, requestChan r' = requestChan r ++ l) as [Hd' [l Hq']].
  { clear Hreach. induction Hrun as [|r r1 r2 H1 H2 IH]; [split; [done|]; exists []; by rewrite app_nil_r|].
    destruct (drainer_blocked _ _ _ (proj1 Hi) Hd H1) as [Hd1 [l1 Hq1]].
    destruct (IH Hd1 (step_inv _ _ Hu H1 Hi)) as [Hd2 [l2 Hq2]]. split; [done|].
    exists (l1 ++ l2). by rewrite Hq2, Hq1, app_assoc. }
  split; [done|]. intros q c Hq Hqc. destruct (reachable_inv r' Hu) as [_ Hr]; [by eapply rtc_trans|].
  apply unanswered; [done|]. rewrite Hq', omap_app, !elem_of_app. right; left; left.
  apply list_elem_of_omap. eauto.
Qed.
End router.

(** ** Runs *)

Definition demo_request (id : Z) : Message :=
  mkMessage (mkHeader 4 MessageExpectsResponseFlag id) [] [] [].
Definition demo_oneway : Message := mkMessage (mkHeader 4 MessageNoFlag 0) [] [] [].

(** A response with id 8, as it arrives. *)
Definition demo_response : list Z :=
  [24; 0; 0; 0; 1; 0; 0; 0; 4; 0; 0; 0; 2; 0; 0; 0; 8; 0; 0; 0; 0; 0; 0; 0].

Definition demo_calls : gmap nat call :=
  {[0%nat := AcceptWithResponse (demo_request 7); 1%nat := AcceptWithResponse (demo_request 8); 2%nat := Close]}.
Definition demo_oneway_calls : gmap nat call :=
  {[0%nat := AcceptWithResponse (demo_request 7); 1%nat := Accept demo_oneway; 2%nat := Close]}.

(** A goroutine runs its call to its end. *)
Definition whole_call (c : nat) : list action := replicate 5 (AClient c).

Definition demo_run (calls : gmap nat call) (l : list action) : Router :=
  default (NewRouter calls) (run calls l (NewRouter calls)).

Definition demo_stopped : Router :=
  demo_run demo_calls (whole_call 0 ++ [ARequest None; AWorker; AClient 2; AWorker; ARead (ReadError (MxError ErrPeerClosed ""))]).
Definition demo_unknown : Router :=
  demo_run demo_calls (whole_call 0 ++ [ARequest None; AWorker; AWorker; ARead (ReadOk demo_response [])]).
Definition demo_drained : Router :=
  demo_run demo_oneway_calls (whole_call 1 ++ whole_call 0 ++ [AClient 2; ADone; AWorker; AWorker; ADrain]).

Lemma demo_run_reachable calls l : is_Some (run calls l (NewRouter calls)) -> reachable calls (demo_run calls l).
Proof. intros [r Hr]. unfold demo_run. rewrite Hr. by eapply run_steps. Qed.

Lemma demo_unique : unique_ids demo_calls.
Proof.
  intros c c' m m'. unfold demo_calls. rewrite !lookup_insert, !lookup_singleton.
  repeat case_decide; intros; simplify_eq/=; done.
Qed.
Lemma demo_oneway_unique : unique_ids demo_oneway_calls.
Proof.
  intros c c' m m'. unfold demo_oneway_calls. rewrite !lookup_insert, !lookup_singleton.
  repeat case_decide; intros; simplify_eq/=; done.
Qed.
Lemma demo_stopped_reachable : reachable demo_calls demo_stopped.
Proof. apply demo_run_reachable, (bool_decide_unpack _). by vm_compute. Qed.
Lemma demo_unknown_reachable : reachable demo_calls demo_unknown.
Proof. apply demo_run_reachable, (bool_decide_unpack _). by vm_compute. Qed.
Lemma demo_drained_reachable : reachable demo_oneway_calls demo_drained.
Proof. apply demo_run_reachable, (bool_decide_unpack _). by vm_compute. Qed.

Lemma router_safe_witness :
  worker demo_unknown <> WPanic /\ (forall c pc, clients demo_unknown !! c = Some pc -> pc <> CPanic) /\
  (forall c x, results demo_unknown !! c = Some x ->
     exists m, demo_calls !! c = Some (AcceptWithResponse m) /\ answers m x) /\
  (forall id c, running (worker demo_unknown) -> responders demo_unknown !! id = Some c ->
     results demo_unknown !! c = None) /\
  (forall e todo id c, worker demo_unknown = WAnswer e todo -> todo !! id = Some c ->
     results demo_unknown !! c = None) /\
  (forall e c, drainer demo_unknown = DSend e (Some c) -> results demo_unknown !! c = None) /\
  (waiting demo_unknown = true -> waitChan demo_unknown = []).
Proof. apply (router_safe demo_calls); [exact demo_unique|exact demo_unknown_reachable]. Defined.

Lemma router_shutdown_answers_witness :
  (forall n r', nsteps (step demo_calls) n demo_stopped r' -> (n <= 18)%nat) /\
  (stuck demo_calls demo_stopped -> done_ demo_stopped = true \/ ~ running (worker demo_stopped) ->
     (exists m, worker demo_stopped = WDeliver m /\ responders demo_stopped !! RequestId (Header m) = None) \/
     (exists e c m, drainer demo_stopped = DSend e None /\ demo_calls !! c = Some (Accept m)) \/
     worker demo_stopped = WExit /\ drainer demo_stopped = DEnd /\ requestChan demo_stopped = [] /\
     (forall c pc, clients demo_stopped !! c = Some pc -> exists x, pc = CReturn x) /\
     (forall c m, demo_calls !! c = Some (AcceptWithResponse m) ->
        exists x, results demo_stopped !! c = Some x /\ answers m x)).
Proof.
  destruct (router_shutdown_answers demo_calls demo_stopped demo_unique demo_stopped_reachable) as [H1 H2].
  split; [|exact H2]. assert (steps_left demo_stopped = 18%nat) as <- by (by vm_compute).
  intros n r' Hn. exact (H1 ltac:(by intros []) n r' Hn).
Defined.

Lemma unknown_response_id_blocks_witness :
  exists m, worker demo_unknown = WDeliver m /\
    responders demo_unknown !! 7 = Some 0%nat /\
    forall r', rtc (step demo_calls) demo_unknown r' ->
      worker r' = WDeliver m /\
      forall id c, responders demo_unknown !! id = Some c -> results r' !! c = None.
Proof.
  eexists. split; [vm_compute; reflexivity|]. split; [vm_compute; reflexivity|]. intros r' Hr.
  apply (unknown_response_id_blocks demo_calls demo_unknown r');
    [exact demo_unique|exact demo_unknown_reachable|vm_compute; reflexivity|vm_compute; reflexivity|exact Hr].
Defined.

Lemma oneway_request_blocks_drainer_witness :
  exists e, drainer demo_drained = DSend e None /\
    omap responseChan (requestChan demo_drained) = [0%nat] /\
    forall r', rtc (step demo_oneway_calls) demo_drained r' ->
      drainer r' = DSend e None /\
      forall q c, q ∈ requestChan demo_drained -> responseChan q = Some c -> results r' !! c = None.
Proof.
  eexists. split; [vm_compute; reflexivity|]. split; [vm_compute; reflexivity|]. intros r' Hr.
  apply (oneway_request_blocks_drainer demo_oneway_calls demo_drained r');
    [exact demo_oneway_unique|exact demo_drained_reachable|vm_compute; reflexivity|exact Hr].
Defined.
