(* ===== verification/AsyncWaiter.v ===== *)
(** * The asynchronous waiter: go/src/fidl/bindings/async_waiter.go

    The worker keeps the handles it waits on in three parallel slices, whose
    index 0 is reserved for the event that wakes it.  Goroutines that call
    [AsyncWait] and [CancelWait] put a request in a channel and then signal the
    event; the worker is interleaved with them.  What [WaitMany] reports of the
    handles is an argument. *)
From stdpp Require Import relations.
From S2P Require Import Prelude.

(** [mx.SignalUser0], whose bit the waker sets: any non-empty set of signals. *)
Section waiter.
Variable SignalUser0 : Z.

Record WaitItem := mkWaitItem { Handle : Z; WaitFor : Z; Pending : Z }.
Inductive wait_error := ErrCanceled.
Record WaitResponse := mkWaitResponse { Error : option wait_error; PendingSignals : Z }.

(** [idChan] of a request is private to the call that waits on it, so the id
    that is sent to it is kept in [issued] instead. *)
Record waitRequest := mkWaitRequest { handle : Z; signals : Z; responseChan : nat }.

Record asyncWaiterWorker := mkWorker {
  items : list WaitItem;
  asyncWaitIds : list Z;
  responses : list nat;
  ids : Z;
  sent : list (nat * WaitResponse);   (* the sends on response channels, in order *)
  issued : list Z                     (* the ids sent on id channels, in order *)
}.

Definition set_items l w := mkWorker l (asyncWaitIds w) (responses w) (ids w) (sent w) (issued w).
Definition set_asyncWaitIds l w := mkWorker (items w) l (responses w) (ids w) (sent w) (issued w).
Definition set_responses l w := mkWorker (items w) (asyncWaitIds w) l (ids w) (sent w) (issued w).
Definition set_ids i w := mkWorker (items w) (asyncWaitIds w) (responses w) i (sent w) (issued w).
Definition set_sent l w := mkWorker (items w) (asyncWaitIds w) (responses w) (ids w) l (issued w).
Definition set_issued l w := mkWorker (items w) (asyncWaitIds w) (responses w) (ids w) (sent w) l.

Abbreviation MW := (M asyncWaiterWorker wait_error).

(** [l[index] = l[last]; l = l[0:last]]. *)
Definition swap_remove {A} (l : list A) (index last : Z) : option (list A) :=
  x ← Prelude.index l last; l ← store l index x; slice l 0 last.

Definition removeHandle (index : Z) : MW unit :=
  let! w := get in
  let l := len (items w) - 1 in
  let! items := must (swap_remove (items w) index l) in
  modify (set_items items) ;;;
  let! asyncWaitIds := must (swap_remove (asyncWaitIds w) index l) in
  modify (set_asyncWaitIds asyncWaitIds) ;;;
  let! responses := must (swap_remove (responses w) index l) in
  modify (set_responses responses).

Definition sendWaitResponseAndRemove (index : Z) (err : option wait_error) (pending : Z) : MW unit :=
  let! w := get in
  let! c := must (Prelude.index (responses w) index) in
  modify (fun w => set_sent (sent w ++ [(c, mkWaitResponse err pending)]) w) ;;;
  removeHandle index.

Definition satisfied (x : WaitItem) : bool := negb (Z.land (Pending x) (WaitFor x) =? 0).

(** [for i := 1; i < len(w.items); ]: a turn either removes an item or moves on,
    so as many turns as there are items are enough. *)
Fixpoint respond_loop (fuel : nat) (i : Z) : MW unit :=
  match fuel with
  | O => ret tt
  | S fuel =>
      let! w := get in
      if i <? len (items w) then
        let! x := must (index (items w) i) in
        if satisfied x
        then sendWaitResponseAndRemove i None (Pending x) ;;; respond_loop fuel i
        else respond_loop fuel (i + 1)
      else ret tt
  end.

Definition respondToSatisfiedWaits : MW unit :=
  let! w := get in respond_loop (length (items w)) 1.

(** The two cases of the [select] of [processIncomingRequests]. *)
Definition process_wait (request : waitRequest) : MW unit :=
  modify (fun w => set_items (items w ++ [mkWaitItem (handle request) (signals request) 0]) w) ;;;
  modify (fun w => set_responses (responses w ++ [responseChan request]) w) ;;;
  modify (fun w => set_ids (u64 (ids w + 1)) w) ;;;
  let! w := get in
  let id := ids w in
  modify (fun w => set_asyncWaitIds (asyncWaitIds w ++ [id]) w) ;;;
  modify (fun w => set_issued (issued w ++ [id]) w).

(** [index := 0; for i := 1; i < len(w.asyncWaitIds); i++ { ... }]. *)
Fixpoint find_id (l : list Z) (i : Z) (id : Z) : Z :=
  match l with
  | [] => 0
  | x :: l => if x =? id then i else find_id l (i + 1) id
  end.

Definition process_cancel (id : Z) : MW unit :=
  let! w := get in
  let index := find_id (drop 1 (asyncWaitIds w)) 1 id in
  if 0 <? index then sendWaitResponseAndRemove index (Some ErrCanceled) 0 else ret tt.

(** ** The worker and its callers *)

(** At [WaitMany]; in [processIncomingRequests]; panicked. *)
Inductive worker_pc := WWaitMany | WProcess | WPanic.

Record asyncWaiterImpl := mkWaiter {
  worker : asyncWaiterWorker;
  pc : worker_pc;
  waitChan : list waitRequest;
  cancelChan : list Z;
  signaled : bool;       (* [SignalUser0] is set on the waking event *)
  wakers : nat;          (* callers between their send and [wakeWorker] *)
  accepted : list nat    (* the response channels of the requests taken so far *)
}.

Definition chanCapacity : Z := 10.

Definition newAsyncWaiter (event : Z) : asyncWaiterImpl :=
  mkWaiter (mkWorker [mkWaitItem event SignalUser0 0] [0] [0%nat] 0 [] []) WWaitMany [] [] false 0 [].

Inductive action :=
| AAsyncWait (r : waitRequest)        (* [w.waitChan <- waitRequest{...}] *)
| ACancelWait (id : Z)                (* [w.cancelChan <- id] *)
| AWake                               (* [wakeWorker] *)
| AWaitMany (pending : list Z)        (* [WaitMany] returns with these signals *)
| ATakeWait | ATakeCancel | ADefault. (* the cases of the select *)

Definition run_worker (m : MW unit) (next : worker_pc) (s : asyncWaiterImpl) : asyncWaiterImpl :=
  let '(w, r) := m (worker s) in
  mkWaiter w (match r with Ok _ => next | _ => WPanic end) (waitChan s) (cancelChan s)
    (signaled s) (wakers s) (accepted s).

(** The signals [WaitMany] stores in [Pending]. *)
Definition report (pending : list Z) (l : list WaitItem) : list WaitItem :=
  zip_with (fun x p => mkWaitItem (Handle x) (WaitFor x) p) l pending.

(** One turn of [runLoop], up to [processIncomingRequests].  The system reports
    the waking event as pending exactly when it is signaled. *)
Definition wait_many (pending : list Z) (s : asyncWaiterImpl) : option asyncWaiterImpl :=
  if decide (length pending = length (items (worker s))) then
    let w := set_items (report pending (items (worker s))) (worker s) in
    match items w with
    | x :: _ =>
        if bool_decide (satisfied x = signaled s) then
          if satisfied x
          then Some (mkWaiter w WProcess (waitChan s) (cancelChan s) false (wakers s) (accepted s))
          else Some (run_worker respondToSatisfiedWaits WWaitMany
                 (mkWaiter w WWaitMany (waitChan s) (cancelChan s) (signaled s) (wakers s) (accepted s)))
        else None
    | [] => Some (mkWaiter w WPanic (waitChan s) (cancelChan s) (signaled s) (wakers s) (accepted s))
    end
  else None.

Definition exec (a : action) (s : asyncWaiterImpl) : option asyncWaiterImpl :=
  match a, pc s with
  | AAsyncWait r, _ =>
      if len (waitChan s) <? chanCapacity
      then Some (mkWaiter (worker s) (pc s) (waitChan s ++ [r]) (cancelChan s) (signaled s) (S (wakers s)) (accepted s))
      else None
  | ACancelWait id, _ =>
      if len (cancelChan s) <? chanCapacity
      then Some (mkWaiter (worker s) (pc s) (waitChan s) (cancelChan s ++ [id]) (signaled s) (S (wakers s)) (accepted s))
      else None
  | AWake, _ =>
      match wakers s with
      | O => None
      | S n => Some (mkWaiter (worker s) (pc s) (waitChan s) (cancelChan s) true n (accepted s))
      end
  | AWaitMany pending, WWaitMany => wait_many pending s
  | ATakeWait, WProcess =>
      match waitChan s with
      | r :: rest =>
          Some (run_worker (process_wait r) WProcess
            (mkWaiter (worker s) (pc s) rest (cancelChan s) (signaled s) (wakers s) (accepted s ++ [responseChan r])))
      | [] => None
      end
  | ATakeCancel, WProcess =>
      match cancelChan s with
      | id :: rest =>
          Some (run_worker (process_cancel id) WProcess
            (mkWaiter (worker s) (pc s) (waitChan s) rest (signaled s) (wakers s) (accepted s)))
      | [] => None
      end
  | ADefault, WProcess =>
      match waitChan s, cancelChan s with
      | [], [] => Some (mkWaiter (worker s) WWaitMany [] [] (signaled s) (wakers s) (accepted s))
      | _, _ => None
      end
  | _, _ => None
  end.

Inductive step : asyncWaiterImpl -> asyncWaiterImpl -> Prop :=
| step_exec a s s' : exec a s = Some s' -> step s s'.

Definition reachable (event : Z) : asyncWaiterImpl -> Prop := rtc step (newAsyncWaiter event).
End waiter.
