(* ===== verification/AsyncWaiterSpec.v ===== *)
(** * What the asynchronous waiter guarantees

    The three slices of the worker stay parallel, so they are read as one list
    of entries; every operation on them takes entries out, whole, and answers
    them.  From that: every accepted wait is answered once or still waited for,
    ids are not reused, and no request is left in a channel by a sleeping
    worker. *)
From stdpp Require Import relations.
From S2P Require Import Prelude AsyncWaiter.

(** ** Swapping with the last *)

Lemma swap_remove_snoc {A} (l : list A) x i :
  0 <= i <= len l -> swap_remove (l ++ [x]) i (len l) = Some (<[Z.to_nat i := x]> l).
Proof.
  intros Hi. unfold swap_remove, index. rewrite (proj2 (Z.leb_le 0 (len l))) by lia.
  rewrite Nat2Z.id, list_lookup_middle by done. simpl.
  rewrite store_Some by (rewrite length_app; simpl; lia). simpl.
  rewrite slice_Some by (rewrite ?length_insert, ?length_app; simpl; lia).
  rewrite Z.sub_0_r, Nat2Z.id. simpl. f_equal. rewrite drop_0.
  destruct (decide (Z.to_nat i < length l)%nat) as [Hlt|Hge].
  - rewrite insert_app_l by done. rewrite take_app_le by (rewrite length_insert; lia).
    apply take_ge. rewrite length_insert. lia.
  - rewrite (list_insert_ge l) by lia. replace (Z.to_nat i) with (length l + 0)%nat by lia.
    rewrite insert_app_r. by rewrite take_app_length.
Qed.

Lemma insert_Permutation {A} (l : list A) i x y :
  l !! i = Some y -> x :: l ≡ₚ y :: <[i := x]> l.
Proof.
  revert i. induction l as [|z l IH]; intros [|i] H; simplify_eq/=; [apply Permutation_swap|].
  etrans; [apply Permutation_swap|]. rewrite (IH _ H). apply Permutation_swap.
Qed.

Lemma swap_remove_Permutation {A} (l : list A) x i y :
  (l ++ [x]) !! i = Some y -> l ++ [x] ≡ₚ y :: <[i := x]> l.
Proof.
  intros [H|[Hi H]]%lookup_app_Some.
  - rewrite (Permutation_app_comm l). simpl. by apply insert_Permutation.
  - rewrite list_insert_ge by done. apply list_lookup_singleton_Some in H as [? <-].
    by rewrite (Permutation_app_comm l).
Qed.

(** ** Entries *)

Record entry := mkEntry { e_item : WaitItem; e_id : Z; e_chan : nat }.

(** The slices of the worker show the entries [es], the waking event first. *)
Record shows (w : asyncWaiterWorker) (e0 : entry) (es : list entry) : Prop := mkShows {
  sh_items : items w = e_item <$> e0 :: es;
  sh_ids : asyncWaitIds w = e_id <$> e0 :: es;
  sh_chans : responses w = e_chan <$> e0 :: es
}.

(** What removing the entry at [i > 0] leaves: the last one in its place. *)
Definition without (i : Z) (es : list entry) : list entry :=
  match reverse es with
  | [] => []
  | e :: l => <[Z.to_nat (i - 1) := e]> (reverse l)
  end.

Lemma without_snoc i es e : without i (es ++ [e]) = <[Z.to_nat (i - 1) := e]> es.
Proof. unfold without. by rewrite reverse_snoc, reverse_involutive. Qed.

Lemma swap_remove_entries {A} (f : entry -> A) e0 es i :
  0 < i <= len es ->
  swap_remove (f <$> e0 :: es) i (len (e0 :: es) - 1) = Some (f <$> e0 :: without i es).
Proof.
  intros Hi. destruct es as [|e es _] using rev_ind; [simpl in Hi; lia|].
  rewrite length_app in Hi. simpl in Hi.
  rewrite without_snoc. replace (f <$> e0 :: es ++ [e]) with ((f <$> e0 :: es) ++ [f e])
    by (simpl; by rewrite fmap_app).
  replace (len (e0 :: es ++ [e]) - 1) with (len (f <$> e0 :: es))
    by (simpl; rewrite length_app, length_fmap; simpl; lia).
  rewrite swap_remove_snoc by (simpl; rewrite length_fmap; lia). f_equal.
  replace (Z.to_nat i) with (S (Z.to_nat (i - 1))) by lia. simpl. by rewrite list_fmap_insert.
Qed.

Lemma without_Permutation i es e :
  0 < i -> es !! Z.to_nat (i - 1) = Some e -> es ≡ₚ e :: without i es.
Proof.
  intros Hi He. destruct es as [|x es _] using rev_ind; [done|].
  rewrite without_snoc. by apply swap_remove_Permutation.
Qed.

Lemma without_before i es j : (j < Z.to_nat (i - 1))%nat -> (Z.to_nat (i - 1) < length es)%nat ->
  without i es !! j = es !! j.
Proof.
  intros Hj Hi. destruct es as [|x es _] using rev_ind; [done|].
  rewrite length_app in Hi. simpl in Hi. rewrite without_snoc, list_lookup_insert_ne by lia.
  rewrite lookup_app_l; [done|lia].
Qed.

Lemma send_remove_run w e0 es i e err p :
  shows w e0 es -> 0 < i -> es !! Z.to_nat (i - 1) = Some e ->
  exists w', sendWaitResponseAndRemove i err p w = (w', Ok tt) /\ shows w' e0 (without i es) /\
    sent w' = sent w ++ [(e_chan e, mkWaitResponse err p)] /\ ids w' = ids w /\ issued w' = issued w.
Proof.
  intros [Hi Hd Hc] Hpos He. pose proof (lookup_lt_Some _ _ _ He) as Hlt.
  unfold sendWaitResponseAndRemove, removeHandle, bind, get, must, modify.
  assert (index (responses w) i = Some (e_chan e)) as ->.
  { unfold index. rewrite (proj2 (Z.leb_le 0 i)), Hc by lia. rewrite list_lookup_fmap.
    replace (Z.to_nat i) with (S (Z.to_nat (i - 1))) by lia. simpl. by rewrite He. }
  simpl. rewrite Hi, Hd, Hc. rewrite !length_fmap.
  rewrite !swap_remove_entries by lia. simpl.
  eexists. split; [reflexivity|]. by repeat split.
Qed.

(** ** Responding to the satisfied waits *)

Definition is_satisfied (e : entry) : bool := satisfied (e_item e).
Definition response_to (e : entry) : nat * WaitResponse :=
  (e_chan e, mkWaitResponse None (Pending (e_item e))).

Lemma length_without i es e :
  0 < i -> es !! Z.to_nat (i - 1) = Some e -> length es = S (length (without i es)).
Proof. intros Hi He. by rewrite (without_Permutation i es e) at 1. Qed.

Lemma take_without i es e :
  0 < i -> es !! Z.to_nat (i - 1) = Some e ->
  take (Z.to_nat (i - 1)) (without i es) = take (Z.to_nat (i - 1)) es.
Proof.
  intros Hi He. apply list_eq. intros j. pose proof (lookup_lt_Some _ _ _ He).
  destruct (decide (j < Z.to_nat (i - 1))%nat).
  - rewrite !lookup_take_lt by done. by apply without_before.
  - by rewrite !lookup_take_ge by lia.
Qed.

Lemma respond_loop_run fuel w e0 es i :
  shows w e0 es -> 1 <= i -> Forall (fun e => is_satisfied e = false) (take (Z.to_nat (i - 1)) es) ->
  (length es < fuel + Z.to_nat i)%nat ->
  exists w' out es', respond_loop fuel i w = (w', Ok tt) /\ shows w' e0 es' /\
    es ≡ₚ out ++ es' /\ Forall is_satisfied out /\ Forall (fun e => is_satisfied e = false) es' /\
    sent w' = sent w ++ (response_to <$> out) /\ ids w' = ids w /\ issued w' = issued w.
Proof.
  revert w es i. induction fuel as [|fuel IH]; intros w es i Hw Hi Hall Hf.
  - exists w, [], es. rewrite take_ge in Hall by lia. simpl. by rewrite app_nil_r.
  - simpl. unfold bind, get. rewrite (sh_items _ _ _ Hw), length_fmap.
    destruct (Z.ltb_spec i (len (e0 :: es))) as [Hlt|Hge].
    2:{ exists w, [], es. rewrite take_ge in Hall by (simpl in Hge; lia). simpl. by rewrite app_nil_r. }
    simpl in Hlt. destruct (lookup_lt_is_Some_2 es (Z.to_nat (i - 1))) as [e He]; [lia|].
    assert (index (e_item <$> e0 :: es) i = Some (e_item e)) as ->.
    { unfold index. rewrite (proj2 (Z.leb_le 0 i)), list_lookup_fmap by lia.
      replace (Z.to_nat i) with (S (Z.to_nat (i - 1))) by lia. simpl. by rewrite He. }
    unfold must. destruct (satisfied (e_item e)) eqn:Hsat.
    + destruct (send_remove_run w e0 es i e None (Pending (e_item e)) Hw) as (w1&->&Hw1&Hs1&Hd1&Hg1); [lia|done|].
      destruct (IH w1 (without i es) i Hw1) as (w'&out&es'&Hrun&Hw'&Hp&Ho&He'&Hs'&Hd'&Hg'); [done| | |].
      * rewrite (take_without i es e) by (done || lia). done.
      * pose proof (length_without i es e ltac:(lia) He). lia.
      * exists w', (e :: out), es'. rewrite (without_Permutation i es e) by (done || lia).
        split_and!; [done|done|by rewrite Hp|by constructor; [unfold is_satisfied; rewrite Hsat|]|done|..]; try congruence.
        rewrite Hs', Hs1, <- app_assoc. done.
    + destruct (IH w es (i + 1) Hw) as (w'&out&es'&Hrun&Hrest); [lia| |lia|].
      * replace (Z.to_nat (i + 1 - 1)) with (S (Z.to_nat (i - 1))) by lia.
        rewrite (take_S_r _ _ e He). apply Forall_app. split; [done|]. by constructor.
      * by exists w', out, es'.
Qed.

(** ** Requests and cancellations *)

Lemma find_id_spec l i id :
  0 < i ->
  (find_id l i id = 0 /\ id ∉ l) \/ (exists n, find_id l i id = i + Z.of_nat n /\ l !! n = Some id).
Proof.
  revert i. induction l as [|x l IH]; intros i Hi; simpl; [left; split; [done|apply not_elem_of_nil]|].
  destruct (Z.eqb_spec x id) as [->|Hne].
  - right. exists 0%nat. split; [lia|done].
  - destruct (IH (i + 1)) as [[-> Hl]|(n&->&Hl)]; [lia|left|right].
    + split; [done|]. by apply not_elem_of_cons.
    + exists (S n). split; [lia|done].
Qed.

Definition canceled (e : entry) : nat * WaitResponse := (e_chan e, mkWaitResponse (Some ErrCanceled) 0).

Lemma process_cancel_run w e0 es id :
  shows w e0 es ->
  (process_cancel id w = (w, Ok tt) /\ id ∉ e_id <$> es) \/
  exists w' e es', process_cancel id w = (w', Ok tt) /\ e_id e = id /\ es ≡ₚ e :: es' /\
    shows w' e0 es' /\ sent w' = sent w ++ [canceled e] /\ ids w' = ids w /\ issued w' = issued w.
Proof.
  intros Hw. unfold process_cancel, bind, get. rewrite (sh_ids _ _ _ Hw), fmap_cons, skipn_cons, drop_0.
  destruct (find_id_spec (e_id <$> es) 1 id) as [[Hf Hn]|(n&Hf&Hl)]; [lia|left|right].
  - by rewrite Hf.
  - rewrite Hf, (proj2 (Z.ltb_lt 0 (1 + Z.of_nat n))) by lia.
    apply list_lookup_fmap_Some in Hl as (e&->&He).
    assert (es !! Z.to_nat (1 + Z.of_nat n - 1) = Some e) as He'
      by (by replace (Z.to_nat (1 + Z.of_nat n - 1)) with n by lia).
    destruct (send_remove_run w e0 es (1 + Z.of_nat n) e (Some ErrCanceled) 0 Hw)
      as (w'&Hrun&Hw'&Hs&Hi&Hg); [lia|done|].
    exists w', e, (without (1 + Z.of_nat n) es).
    split_and!; [done|done|by apply without_Permutation; [lia|]|done..].
Qed.

Lemma process_wait_run w e0 es r :
  shows w e0 es ->
  exists w', process_wait r w = (w', Ok tt) /\
    shows w' e0 (es ++ [mkEntry (mkWaitItem (handle r) (signals r) 0) (u64 (ids w + 1)) (responseChan r)]) /\
    sent w' = sent w /\ ids w' = u64 (ids w + 1) /\ issued w' = issued w ++ [u64 (ids w + 1)].
Proof.
  intros [Hi Hd Hc]. eexists. split; [unfold process_wait, bind, modify, get; reflexivity|]. split; [|done].
  constructor; simpl; rewrite ?Hi, ?Hd, ?Hc, fmap_app; done.
Qed.

(** What [WaitMany] reports changes no id and no channel. *)
Lemma shows_report w e0 es pending :
  shows w e0 es -> length pending = length (items w) ->
  exists e0' es', shows (set_items (report pending (items w)) w) e0' es' /\
    e_id <$> es' = e_id <$> es /\ e_chan <$> es' = e_chan <$> es.
Proof.
  intros [Hi Hd Hc] Hl. rewrite Hi, length_fmap in Hl. destruct pending as [|p0 ps]; [done|].
  simpl in Hl. apply Nat.succ_inj in Hl.
  set (upd e p := mkEntry (mkWaitItem (Handle (e_item e)) (WaitFor (e_item e)) p) (e_id e) (e_chan e)).
  assert (forall {A} (f : entry -> A), (forall e p, f (upd e p) = f e) ->
    f <$> zip_with upd es ps = f <$> es) as Hsame.
  { intros A f Hf. clear -Hl Hf. revert ps Hl. induction es as [|e es IH]; intros [|p ps] Hl; simpl in *; try done.
    rewrite Hf. f_equal. apply IH. lia. }
  exists (upd e0 p0), (zip_with upd es ps). split; [|by split; apply Hsame].
  constructor; simpl; [|rewrite Hd; simpl; by rewrite Hsame|rewrite Hc; simpl; by rewrite Hsame].
  rewrite Hi. simpl. f_equal. clear. revert ps. induction es as [|e es IH]; intros [|p ps]; simpl; [done..|].
  by rewrite IH.
Qed.

(** ** The worker and its callers *)

(** What the slices, the log of sends and the ids say together. *)
Definition conserves (w : asyncWaiterWorker) (accepted : list nat) : Prop :=
  exists e0 es gone, shows w e0 es /\
    accepted ≡ₚ (e_chan <$> es) ++ (sent w).*1 /\
    issued w ≡ₚ (e_id <$> es) ++ gone /\
    issued w = u64 <$> seqZ 1 (len (issued w)) /\ ids w = u64 (len (issued w)).

Lemma conserves_respond w l :
  conserves w l -> exists w', respondToSatisfiedWaits w = (w', Ok tt) /\ conserves w' l.
Proof.
  intros (e0&es&gone&Hw&Hl&Hg&Hi&Hd).
  destruct (respond_loop_run (length (items w)) w e0 es 1 Hw)
    as (w'&out&es'&Hrun&Hw'&Hp&_&_&Hs&Hd'&Hg'); [lia|constructor| |].
  { rewrite (sh_items _ _ _ Hw), length_fmap. simpl. lia. }
  exists w'. split; [done|]. exists e0, es', ((e_id <$> out) ++ gone). rewrite Hs, Hd', Hg'.
  split_and!; [done| | |done|done].
  - rewrite Hl, Hp, !fmap_app. rewrite <- list_fmap_compose.
    replace (fst ∘ response_to) with e_chan by done. solve_Permutation.
  - rewrite Hg, Hp, fmap_app. solve_Permutation.
Qed.

Lemma conserves_cancel w l id :
  conserves w l -> exists w', process_cancel id w = (w', Ok tt) /\ conserves w' l.
Proof.
  intros (e0&es&gone&Hw&Hl&Hg&Hi&Hd).
  destruct (process_cancel_run w e0 es id Hw) as [[Hrun _]|(w'&e&es'&Hrun&_&Hp&Hw'&Hs&Hd'&Hg')].
  - exists w. split; [done|]. by exists e0, es, gone.
  - exists w'. split; [done|]. exists e0, es', (e_id e :: gone). rewrite Hs, Hd', Hg'.
    split_and!; [done| | |done|done].
    + rewrite Hl, Hp, fmap_app. simpl. solve_Permutation.
    + rewrite Hg, Hp. simpl. solve_Permutation.
Qed.

Lemma u64_succ z : u64 (u64 z + 1) = u64 (z + 1).
Proof. unfold u64. by rewrite Zplus_mod_idemp_l. Qed.

Lemma conserves_wait w l r :
  conserves w l -> exists w', process_wait r w = (w', Ok tt) /\ conserves w' (l ++ [responseChan r]).
Proof.
  intros (e0&es&gone&Hw&Hl&Hg&Hi&Hd). destruct (process_wait_run w e0 es r Hw) as (w'&Hrun&Hw'&Hs&Hd'&Hg').
  exists w'. split; [done|]. eexists e0, _, gone. split; [exact Hw'|].
  rewrite Hs, Hd', Hg', !fmap_app, Hd, u64_succ, length_app. simpl.
  replace (Z.of_nat (length (issued w) + 1)) with (len (issued w) + 1) by lia.
  split_and!; [rewrite Hl; solve_Permutation|rewrite Hg; solve_Permutation| |done].
  rewrite seqZ_app by lia. rewrite fmap_app, <- Hi. simpl. do 3 f_equal. lia.
Qed.

Lemma conserves_report w l pending :
  conserves w l -> length pending = length (items w) ->
  conserves (set_items (report pending (items w)) w) l.
Proof.
  intros (e0&es&gone&Hw&Hl&Hg&Hi&Hd) Hlen.
  destruct (shows_report w e0 es pending Hw Hlen) as (e0'&es'&Hw'&Hid&Hch).
  exists e0', es', gone. by rewrite Hid, Hch.
Qed.

Record waiter_inv (s : asyncWaiterImpl) : Prop := mkWaiterInv {
  wi_pc : pc s <> WPanic;
  wi_worker : conserves (worker s) (accepted s);
  wi_wake : pc s = WWaitMany -> waitChan s = [] /\ cancelChan s = [] \/ signaled s = true \/ (0 < wakers s)%nat
}.

Lemma run_worker_inv m next w w' p wc cc sg n l :
  m w = (w', Ok tt) -> conserves w' l -> next <> WPanic ->
  (next = WWaitMany -> wc = [] /\ cc = [] \/ sg = true \/ (0 < n)%nat) ->
  waiter_inv (run_worker m next (mkWaiter w p wc cc sg n l)).
Proof. intros Hm Hc Hn Hk. unfold run_worker. simpl. rewrite Hm. by constructor. Qed.

Section waiter.
Variables SignalUser0 event : Z.

Lemma waiter_inv_init : waiter_inv (newAsyncWaiter SignalUser0 event).
Proof.
  constructor; [done| |by left]. exists (mkEntry (mkWaitItem event SignalUser0 0) 0 0%nat), [], [].
  by split_and!.
Qed.

Lemma waiter_inv_step s s' : step s s' -> waiter_inv s -> waiter_inv s'.
Proof.
  intros Hst [Hp Hc Hk]. inversion_clear Hst as [a ? ? H]. destruct a as [r|id| |pending| | |]; simpl in H.
  - case_match; simplify_eq. constructor; [done|done|]. simpl. intros. right; right. lia.
  - case_match; simplify_eq. constructor; [done|done|]. simpl. intros. right; right. lia.
  - destruct (wakers s); simplify_eq. constructor; [done|done|]. simpl. auto.
  - destruct (pc s) eqn:Hpc; [|done..]. unfold wait_many in H. case_decide as Hlen; [|done].
    pose proof (conserves_report _ _ _ Hc Hlen) as Hc'.
    destruct (items (set_items _ _)) as [|x l] eqn:Hi.
    { destruct Hc' as (e0&es&gone&Hw&_). by rewrite (sh_items _ _ _ Hw) in Hi. }
    case_bool_decide as Hsig; [|done]. destruct (satisfied x) eqn:Hx; simplify_eq; [by constructor|].
    destruct (conserves_respond _ _ Hc') as (w'&Hrun&Hw').
    apply (run_worker_inv _ _ _ w'); [done..|]. intros _. by apply Hk.
  - destruct (pc s) eqn:Hpc; [done| |done]. destruct (waitChan s) as [|r rest]; simplify_eq.
    destruct (conserves_wait _ _ r Hc) as (w'&Hrun&Hw').
    by apply (run_worker_inv _ _ _ w').
  - destruct (pc s) eqn:Hpc; [done| |done]. destruct (cancelChan s) as [|id rest]; simplify_eq.
    destruct (conserves_cancel _ _ id Hc) as (w'&Hrun&Hw').
    by apply (run_worker_inv _ _ _ w').
  - destruct (pc s) eqn:Hpc; [done| |done]. destruct (waitChan s), (cancelChan s); simplify_eq.
    constructor; [done|done|]. by left.
Qed.

Lemma issued_NoDup n : 0 <= n < 2 ^ 64 -> NoDup (u64 <$> seqZ 1 n) /\ 0 ∉ u64 <$> seqZ 1 n.
Proof.
  intros Hn. assert (u64 <$> seqZ 1 n = seqZ 1 n) as ->.
  { rewrite <- (list_fmap_id (seqZ 1 n)) at 2. apply list_fmap_ext. intros i z Hz.
    apply lookup_seqZ in Hz as [-> Hi]. apply u64_small. unfold id. lia. }
  split; [apply NoDup_seqZ|]. rewrite elem_of_seqZ. lia.
Qed.

(** C11: in every state of the waiter and its callers, with fewer than 2^64 calls
    of [AsyncWait]: the worker has not panicked; its slices are parallel, with
    the waking event first; the ids it issued are distinct and not 0, and so
    are those it waits for; each accepted request has its response sent or its
    entry still there, never both; and a worker asleep with requests in its
    channels has been signaled or is about to be. *)
Theorem waiter_conserves s :
  reachable SignalUser0 event s -> len (issued (worker s)) < 2 ^ 64 ->
  pc s <> WPanic /\ NoDup (issued (worker s)) /\ (0 ∉ issued (worker s)) /\
  (exists e0 es, shows (worker s) e0 es /\ NoDup (e_id <$> es) /\
     accepted s ≡ₚ (e_chan <$> es) ++ (sent (worker s)).*1) /\
  (pc s = WWaitMany -> waitChan s <> [] \/ cancelChan s <> [] -> signaled s = true \/ (0 < wakers s)%nat).
Proof.
  intros Hr Hlt. assert (waiter_inv s) as [Hp Hc Hk].
  { unfold reachable in Hr. pose proof waiter_inv_init as Hi. induction Hr; eauto using waiter_inv_step. }
  destruct Hc as (e0&es&gone&Hw&Hl&Hg&Hi&_).
  destruct (issued_NoDup (len (issued (worker s)))) as [Hn H0]; [lia|]. rewrite <- Hi in Hn, H0.
  split_and!; [done|done|done| |].
  2:{ intros Hpc Hne. destruct (Hk Hpc) as [[??]|?]; [|done]. by destruct Hne. }
  exists e0, es. split_and!; [done| |done]. rewrite Hg in Hn. by apply NoDup_app in Hn as [? _].
Qed.
End waiter.

(** C33: [respondToSatisfiedWaits] takes out exactly the entries with a satisfied
    signal, sends each its pending signals, and leaves the others; and
    [process_cancel] answers [ErrCanceled] to the wait with the given id, or does
    nothing if there is none. *)
Theorem waiter_answers w e0 es id :
  shows w e0 es ->
  (exists w' out es', respondToSatisfiedWaits w = (w', Ok tt) /\ shows w' e0 es' /\
     es ≡ₚ out ++ es' /\ Forall is_satisfied out /\ Forall (fun e => is_satisfied e = false) es' /\
     sent w' = sent w ++ (response_to <$> out)) /\
  ((process_cancel id w = (w, Ok tt) /\ id ∉ e_id <$> es) \/
   exists w' e es', process_cancel id w = (w', Ok tt) /\ e_id e = id /\ es ≡ₚ e :: es' /\
     shows w' e0 es' /\ sent w' = sent w ++ [canceled e]).
Proof.
  intros Hw. split.
  - destruct (respond_loop_run (length (items w)) w e0 es 1 Hw)
      as (w'&out&es'&Hrun&Hw'&Hp&Ho&He&Hs&_); [lia|constructor| |by exists w', out, es'].
    rewrite (sh_items _ _ _ Hw), length_fmap. simpl. lia.
  - destruct (process_cancel_run w e0 es id Hw) as [?|(w'&e&es'&Hrun&Hid&Hp&Hw'&Hs&_)]; [by left|right].
    by exists w', e, es'.
Qed.

(** ** Runs *)

Definition demo_actions : list action :=
  [AAsyncWait (mkWaitRequest 5 3 7); AAsyncWait (mkWaitRequest 6 3 8); AWake; AWake; AWaitMany [1];
   ATakeWait; ATakeWait; ADefault; AWaitMany [0; 2; 0]].

Definition demo_waiter : asyncWaiterImpl :=
  fold_left (fun s a => default s (exec a s)) demo_actions (newAsyncWaiter 1 9).

Lemma actions_steps l s : rtc step s (fold_left (fun s a => default s (exec a s)) l s).
Proof.
  revert s. induction l as [|a l IH]; intros s; simpl; [done|].
  destruct (exec a s) as [s1|] eqn:Ha; simpl; [|apply IH]. eapply rtc_l; [by econstructor|apply IH].
Qed.

Lemma waiter_conserves_witness :
  pc demo_waiter = WWaitMany /\ sent (worker demo_waiter) = [(7%nat, mkWaitResponse None 2)] /\
  NoDup (issued (worker demo_waiter)) /\
  (exists e0 es, shows (worker demo_waiter) e0 es /\ NoDup (e_id <$> es) /\
     accepted demo_waiter ≡ₚ (e_chan <$> es) ++ (sent (worker demo_waiter)).*1).
Proof.
  destruct (waiter_conserves 1 9 demo_waiter (actions_steps _ _)) as (_&Hn&_&He&_); [by vm_compute|].
  split_and!; [by vm_compute|by vm_compute|exact Hn|exact He].
Defined.

Lemma waiter_answers_witness :
  exists w e0 es, shows w e0 es /\ len es = 2 /\
  (exists w' out es', respondToSatisfiedWaits w = (w', Ok tt) /\ shows w' e0 es' /\
     es ≡ₚ out ++ es' /\ Forall is_satisfied out /\ Forall (fun e => is_satisfied e = false) es' /\
     sent w' = sent w ++ (response_to <$> out)) /\
  ((process_cancel 4 w = (w, Ok tt) /\ 4 ∉ e_id <$> es) \/
   exists w' e es', process_cancel 4 w = (w', Ok tt) /\ e_id e = 4 /\ es ≡ₚ e :: es' /\
     shows w' e0 es' /\ sent w' = sent w ++ [canceled e]).
Proof.
  exists (mkWorker [mkWaitItem 9 1 0; mkWaitItem 5 3 2; mkWaitItem 6 3 0] [0; 3; 4] [0; 7; 8]%nat 4 [] [3; 4]),
    (mkEntry (mkWaitItem 9 1 0) 0 0), [mkEntry (mkWaitItem 5 3 2) 3 7; mkEntry (mkWaitItem 6 3 0) 4 8].
  assert (shows (mkWorker [mkWaitItem 9 1 0; mkWaitItem 5 3 2; mkWaitItem 6 3 0] [0; 3; 4] [0; 7; 8]%nat 4 [] [3; 4])
    (mkEntry (mkWaitItem 9 1 0) 0 0) [mkEntry (mkWaitItem 5 3 2) 3 7; mkEntry (mkWaitItem 6 3 0) 4 8]) as Hs by done.
  split; [exact Hs|]. split; [reflexivity|]. exact (waiter_answers _ _ _ 4 Hs).
Defined.
