(* ===== verification/FidlTypes.v ===== *)
(** * The intermediate representation of the compiler: the data types of
      generated/fidl_types and generated/fidl_files

    The frontend hands a [FidlFileGraph] to the code generators.  These are the
    Go types that the compiler generates from its own fidl files; their Encode and
    Decode methods are in FidlEncode and FidlDecode.  The pointers to optional
    fields are options, a nil interface is [None].  Nothing sets the comments. *)
From Stdlib Require Export SpecFloat.
From S2P Require Export Prelude.

Inductive FidlSimpleType : Type :=
| SimpleType_Bool | SimpleType_Double | SimpleType_Float
| SimpleType_Int8 | SimpleType_Int16 | SimpleType_Int32 | SimpleType_Int64
| SimpleType_Uint8 | SimpleType_Uint16 | SimpleType_Uint32 | SimpleType_Uint64
| SimpleType_Other (value : Z).
#[export] Instance FidlSimpleType_eq_dec : EqDecision FidlSimpleType.
Proof. solve_decision. Defined.

Inductive HandleType_Kind : Type :=
| HandleType_Kind_Unspecified | HandleType_Kind_Channel | HandleType_Kind_Vmo
| HandleType_Kind_Process | HandleType_Kind_Thread | HandleType_Kind_Event
| HandleType_Kind_Port | HandleType_Kind_Job | HandleType_Kind_Socket
| HandleType_Kind_EventPair | HandleType_Kind_Other (value : Z).

Record TypeReference := mkTypeReference {
  tr_Nullable : bool;
  IsInterfaceRequest : bool;
  tr_Identifier : option string;
  TypeKey : option string
}.
(** The structs StringType, ArrayType, MapType and HandleType are the arguments
    of their constructors. *)
Inductive FidlType : Type :=
| TypeSimpleType (t : FidlSimpleType)
| TypeStringType (nullable : bool)
| TypeArrayType (nullable : bool) (fixedLength : Z) (elementType : FidlType)
| TypeMapType (nullable : bool) (keyType valueType : FidlType)
| TypeHandleType (nullable : bool) (kind : HandleType_Kind)
| TypeTypeReference (r : TypeReference)
| TypeUnknown (tag : Z).

(** ** Values *)
Inductive FidlLiteralValue : Type :=
| LiteralValueBoolValue (b : bool)
| LiteralValueDoubleValue (f : spec_float)
| LiteralValueFloatValue (f : spec_float)
| LiteralValueInt8Value (z : Z)
| LiteralValueInt16Value (z : Z)
| LiteralValueInt32Value (z : Z)
| LiteralValueInt64Value (z : Z)
| LiteralValueStringValue (s : string)
| LiteralValueUint8Value (z : Z)
| LiteralValueUint16Value (z : Z)
| LiteralValueUint32Value (z : Z)
| LiteralValueUint64Value (z : Z)
| LiteralValueUnknown (tag : Z).

Inductive BuiltinConstantValue : Type :=
| BuiltinConstantValue_DoubleInfinity | BuiltinConstantValue_DoubleNegativeInfinity
| BuiltinConstantValue_DoubleNan | BuiltinConstantValue_FloatInfinity
| BuiltinConstantValue_FloatNegativeInfinity | BuiltinConstantValue_FloatNan
| BuiltinConstantValue_Other (value : Z).

Record ConstantReference := mkConstantReference { cr_Identifier : string; ConstantKey : string }.
Record EnumValueReference := mkEnumValueReference {
  er_Identifier : string;
  EnumTypeKey : string;
  EnumValueIndex : Z
}.
Inductive FidlValue : Type :=
| ValueLiteralValue (v : FidlLiteralValue)
| ValueConstantReference (r : ConstantReference)
| ValueEnumValueReference (r : EnumValueReference)
| ValueBuiltinValue (v : BuiltinConstantValue)
| ValueUnknown (tag : Z).
Inductive DefaultFieldValue : Type :=
| DefaultFieldValueValue (v : FidlValue)
| DefaultFieldValueDefaultKeyword
| DefaultFieldValueUnknown (tag : Z).

(** ** Declarations *)
Record FidlAttribute := mkFidlAttribute { at_Key : string; at_Value : FidlLiteralValue }.
Record SourceFileInfo := mkSourceFileInfo { FileName : string; LineNumber : Z; ColumnNumber : Z }.
Record ContainedDeclarations := mkContainedDeclarations {
  cd_Enums : option (list string);
  cd_Constants : option (list string)
}.
#[warnings="-register-all"] Inductive FidlComments : Type :=
| mkFidlComments (ForAttributes : option FidlComments) (Above Left Right AtBottom : list string).
Record FidlDeclarationData := mkFidlDeclarationData {
  dd_Attributes : option (list FidlAttribute);
  ShortName : option string;
  FullIdentifier : option string;
  DeclaredOrdinal : Z;
  DeclarationOrder : Z;
  dd_SourceFileInfo : option SourceFileInfo;
  dd_ContainedDeclarations : option ContainedDeclarations;
  ContainerTypeKey : option string;
  dd_Comments : option FidlComments
}.

Record FidlStructField := mkFidlStructField {
  sf_DeclData : option FidlDeclarationData;
  sf_Type : FidlType;
  sf_DefaultValue : option DefaultFieldValue;
  sf_Offset : Z;
  sf_Bit : Z;
  sf_MinVersion : Z
}.
Record FidlStructVersion := mkFidlStructVersion {
  sv_VersionNumber : Z;
  sv_NumFields : Z;
  sv_NumBytes : Z
}.
Record FidlStruct := mkFidlStruct {
  st_DeclData : option FidlDeclarationData;
  Fields : list FidlStructField;
  st_VersionInfo : option (list FidlStructVersion)
}.
Record FidlUnionField := mkFidlUnionField {
  uf_DeclData : option FidlDeclarationData;
  uf_Type : FidlType;
  uf_Tag : Z
}.
Record FidlUnion := mkFidlUnion { fu_DeclData : option FidlDeclarationData; fu_Fields : list FidlUnionField }.
Record FidlEnumValue := mkFidlEnumValue {
  fv_DeclData : option FidlDeclarationData;
  InitializerValue_ : option FidlValue;
  IntValue : Z
}.
Record FidlEnum := mkFidlEnum { fe_DeclData : option FidlDeclarationData; fe_Values : list FidlEnumValue }.
Record FidlMethod := mkFidlMethod {
  fm_DeclData : option FidlDeclarationData;
  fm_Parameters : FidlStruct;
  fm_ResponseParams : option FidlStruct;
  fm_Ordinal : Z;
  fm_MinVersion : Z
}.
Record FidlInterface := mkFidlInterface {
  fi_DeclData : option FidlDeclarationData;
  fi_ServiceName : option string;
  fi_Methods : gmap Z FidlMethod;
  CurrentVersion : Z
}.
Inductive FidlUserDefinedType : Type :=
| UserDefinedTypeEnumType (e : FidlEnum)
| UserDefinedTypeStructType (s : FidlStruct)
| UserDefinedTypeUnionType (u : FidlUnion)
| UserDefinedTypeInterfaceType (i : FidlInterface)
| UserDefinedTypeUnknown (tag : Z).
Record DeclaredConstant := mkDeclaredConstant {
  dc_DeclData : FidlDeclarationData;
  dc_Type : FidlType;
  dc_Value : FidlValue;
  dc_ResolvedConcreteValue : option FidlValue
}.
Record RuntimeTypeInfo := mkRuntimeTypeInfo {
  Services : gmap string string;
  TypeMap : gmap string FidlUserDefinedType
}.

(** ** Files *)
Record KeysByType := mkKeysByType {
  kt_Interfaces : option (list string);
  kt_Structs : option (list string);
  kt_Unions : option (list string);
  TopLevelEnums : option (list string);
  EmbeddedEnums : option (list string);
  TopLevelConstants : option (list string);
  EmbeddedConstants : option (list string)
}.
Record FidlFile := mkFidlFile {
  ff_FileName : string;
  ff_SpecifiedFileName : option string;
  ff_ModuleNamespace : option string;
  ff_Attributes : option (list FidlAttribute);
  ff_Imports : option (list string);
  DeclaredFidlObjects : KeysByType;
  SerializedRuntimeTypeInfo : option string;
  ff_Comments : option FidlComments
}.
Record FidlFileGraph := mkFidlFileGraph {
  Files : gmap string FidlFile;
  ResolvedTypes : gmap string FidlUserDefinedType;
  ResolvedConstants : gmap string DeclaredConstant
}.

(** The [DeclData] of a user-defined type. *)
Definition declData_of (t : FidlUserDefinedType) : option FidlDeclarationData :=
  match t with
  | UserDefinedTypeEnumType e => fe_DeclData e
  | UserDefinedTypeStructType s => st_DeclData s
  | UserDefinedTypeUnionType u => fu_DeclData u
  | UserDefinedTypeInterfaceType i => fi_DeclData i
  | UserDefinedTypeUnknown _ => None
  end.
