(* ===== verification/FinalData.v ===== *)
(** * From the parsed files to the final data: compiler/core/computed_data.go,
      and the end of ParseFiles in compiler/parser/parse_driver.go

    After resolution the types of members are read through their pointers, and
    a [Program] is the descriptor with the user-defined types in that form; a
    type with a dangling pointer has no entry, so that reading it panics.  The
    maps that Go iterates over are given with the order of the iteration. *)
From S2P Require Export ParseDriver TypeGraph ComputedData.
#[local] Set Warnings "-register-all".

Record Program := mkProgram {
  descriptor : MojomDescriptor;
  finalStructs : gmap nat MojomStruct;
  finalInterfaces : gmap nat MojomInterface;
  finalUnions : gmap nat (MojomUnion UserTypeRef);
  finalEnums : gmap nat MojomEnum
}.

(** ** Reading the types through the pointers *)
Section Read.
Context (d : MojomDescriptor).

Definition read_field (f : UserDefined.StructField nat) : option StructField :=
  t ← deref_type d (FieldType f);
  Some (mkStructField (f_decl f) t (DefaultValue f) (f_minVersion f) (offset f) (bit f)).
Definition read_struct (s : UserDefined.MojomStruct nat) : option MojomStruct :=
  fields ← mapM read_field (FieldsInLexicalOrder s);
  Some (mkMojomStruct (s_decl s) (structType s) (fieldsByName s) fields (fieldsInOrdinalOrder s)
          (versionInfo s) (userFacingName s) (s_nested s)).
Definition read_params (s : option (UserDefined.MojomStruct nat)) : option (option MojomStruct) :=
  match s with None => Some None | Some s => Some <$> read_struct s end.
Definition read_method (m : UserDefined.MojomMethod nat) : option MojomMethod :=
  params ← read_params (Parameters m);
  responseParams ← read_params (ResponseParameters m);
  Some (mkMojomMethod (m_decl m) (Ordinal m) params responseParams (m_minVersion m)).
Definition read_interface (i : UserDefined.MojomInterface nat) : option MojomInterface :=
  methods ← mapM read_method (methodsByLexicalOrder i);
  Some (mkMojomInterface (i_decl i) (MethodsByOrdinal i) (methodsByName i) methods (ServiceName i)
          (versionNumber i) (methodsInOrdinalOrder i) (i_nested i)).
Definition read_union_field (f : UnionField nat) : option (UnionField UserTypeRef) :=
  t ← deref_type d (u_FieldType f); Some (mkUnionField (u_decl f) t (Tag f)).
Definition read_union (u : MojomUnion nat) : option (MojomUnion UserTypeRef) :=
  fields ← mapM read_union_field (un_FieldsInLexicalOrder u);
  Some (mkMojomUnion (un_decl u) (un_fieldsByName u) fields (fieldsInTagOrder u) (union_closingBrace u)).
End Read.
Definition read_program (h : Heap) : Program :=
  let d := mojomDescriptor h in
  mkProgram d (omap (read_struct d) (structTable h)) (omap (read_interface d) (interfaceTable h))
    (omap (read_union d) (unionTable h)) (enumTable h).

(** ** ComputeFinalData *)
Inductive FinalError :=
| VersionError (e : MinVersionError)
| EnumIntegerError (e : EnumValueError).

(** What the reference used as an initializer in the enum [self] has resolved
    to, with the integers computed so far. *)
Definition resolved_initializer (g : Program) (self ref : nat) : option (InitializerValue + nat) :=
  r ← valueRefs (descriptor g) !! ref;
  concrete ← resolvedConcreteValue r;
  Some (match concrete with
        | CVLiteral lv => inl (InitLiteral lv)
        | CVBuiltIn _ => inl InitBuiltIn
        | CVEnum ev =>
          let index := Z.to_nat (Types.valueIndex ev) in
          if bool_decide (address (EnumType ev) = self) then inr index
          else inl (InitEnumValue
            (e ← finalEnums g !! address (EnumType ev); v ← Values e !! index; ComputedIntValue v))
        end).

(** Runs the method of one object of a table. *)
Definition run_on {T E} (read : Program -> option T) (write : T -> Program -> Program)
    (wrap : E -> FinalError) (m : M T E unit) : M Program FinalError unit :=
  fun g =>
    match read g with
    | None => (g, Panic)
    | Some x =>
      let (x', r) := m x in
      (write x' g, match r with Ok a => Ok a | Err e => Err (wrap e) | Panic => Panic end)
    end.
Definition set_struct (p : nat) (s : MojomStruct) (g : Program) : Program :=
  mkProgram (descriptor g) (<[p := s]> (finalStructs g)) (finalInterfaces g) (finalUnions g) (finalEnums g).
Definition set_interface (p : nat) (i : MojomInterface) (g : Program) : Program :=
  mkProgram (descriptor g) (finalStructs g) (<[p := i]> (finalInterfaces g)) (finalUnions g) (finalEnums g).
Definition set_enum (p : nat) (e : MojomEnum) (g : Program) : Program :=
  mkProgram (descriptor g) (finalStructs g) (finalInterfaces g) (finalUnions g) (<[p := e]> (finalEnums g)).

Section ComputeFinalData.
(** The order in which the methods of an interface are iterated over. *)
Context (methodOrder : nat -> list nat).

(** The method call on the interface value: by the dynamic type. *)
Definition type_ComputeFinalData (p : nat) : M Program FinalError unit :=
  let! g := get in
  let! o := must (objects (descriptor g) !! p) in
  match class o with
  | OType UserDefinedTypeKindStruct _ =>
    run_on (fun g => finalStructs g !! p) (set_struct p) VersionError Struct_ComputeFinalData
  | OType UserDefinedTypeKindInterface _ =>
    run_on (fun g => finalInterfaces g !! p) (set_interface p) VersionError
      (Interface_ComputeFinalData (methodOrder p))
  | OType UserDefinedTypeKindEnum _ =>
    run_on (fun g => finalEnums g !! p) (set_enum p) EnumIntegerError
      (ComputeEnumValueIntegers (resolved_initializer g p))
  | OType UserDefinedTypeKindUnion _ => ret tt
  | _ => panic
  end.
Fixpoint ComputeFinalData (types : list nat) : M Program FinalError unit :=
  match types with
  | [] => ret tt
  | p :: types => type_ComputeFinalData p ;;; ComputeFinalData types
  end.
End ComputeFinalData.

(** ** The graph of the types *)
(** The entry of a type in the table of its class. *)
Definition program_decl (g : Program) (p : nat) : option decl :=
  o ← objects (descriptor g) !! p;
  match class o with
  | OType UserDefinedTypeKindStruct _ => s ← finalStructs g !! p; Some (DStruct s)
  | OType UserDefinedTypeKindUnion _ => u ← finalUnions g !! p; Some (DUnion u)
  | OType UserDefinedTypeKindEnum _ => Some DEnum
  | OType UserDefinedTypeKindInterface _ => Some DInterface
  | _ => None
  end.
Definition program_types (g : Program) : gmap nat decl :=
  list_to_map (omap (fun p => pair p <$> program_decl g p) (seq 0 (length (objects (descriptor g))))).
Definition type_addresses (g : Program) : list nat := (map_to_list (TypesByKey (descriptor g))).*2.

(** ** ParseFiles *)
Inductive CompileError :=
| DriverFailed (e : DriverError)
| ResolveFailed (e : ResolveError)
| FinalDataFailed (e : FinalError)
| IllFoundedType (e : IllFounded)
| CompileOutOfFuel.

Section ParseFiles.
Context `{FileProvider} `{FileExtractor} `{ParseInvoker} (metaDataOnlyMode : bool).
(** The orders of iteration over the types, for the two loops, over the methods
    and over the sets of graph nodes; fuel for the queue and for the graph. *)
Context (finalOrder graphOrder : Program -> list nat) (methodOrder : nat -> list nat).
Context (iter : nat -> gset type_node -> list type_node) (fuel graphFuel : nat).

Definition check_program (h : Heap) : res CompileError Program :=
  let g := read_program h in
  match ComputeFinalData methodOrder (finalOrder g) g with
  | (g, Ok _) =>
    match DetectIllFoundedTypes (program_types g) iter graphFuel (graphOrder g) with
    | Ok None => Ok g
    | Ok (Some e) => Err (IllFoundedType e)
    | Err tt => Err CompileOutOfFuel
    | Panic => Panic
    end
  | (_, Err e) => Err (FinalDataFailed e)
  | (_, Panic) => Panic
  end.
Definition ParseFiles (fileNames : list string) : res CompileError Program :=
  match parse_loop metaDataOnlyMode fuel (map top_level fileNames) empty_heap with
  | (h, Ok _) =>
    match Resolve (mojomDescriptor h) with
    | (d, Ok _) => check_program (set_descriptor d h)
    | (_, Err e) => Err (ResolveFailed e)
    | (_, Panic) => Panic
    end
  | (_, Err e) => Err (DriverFailed e)
  | (_, Panic) => Panic
  end.
End ParseFiles.
