(* ===== verification/Serialization.v ===== *)
(** * From the frontend to the generators: cmd/fidl/serialization/serialization.go

    [translateDescriptor] makes the [FidlFileGraph] that the code generators
    read of a descriptor with its final data.  [None] is a panic.  The encoding
    of the graph is in Serialize; so is what [runtime_type_info] stands for, the
    encoded and compressed type information of a file.  A member has the owning file of its container, since the parser
    gives all declarations the file it parses. *)
From S2P Require Export FidlTypes FinalData.

(** ** Types *)
Definition translateSimpleType (simpleType : SimpleType) : FidlType :=
  TypeSimpleType
    match simpleType with
    | SimpleTypeBool => SimpleType_Bool
    | SimpleTypeDouble => SimpleType_Double
    | SimpleTypeFloat => SimpleType_Float
    | SimpleTypeInt8 => SimpleType_Int8
    | SimpleTypeInt16 => SimpleType_Int16
    | SimpleTypeInt32 => SimpleType_Int32
    | SimpleTypeInt64 => SimpleType_Int64
    | SimpleTypeUInt8 => SimpleType_Uint8
    | SimpleTypeUInt16 => SimpleType_Uint16
    | SimpleTypeUInt32 => SimpleType_Uint32
    | SimpleTypeUInt64 => SimpleType_Uint64
    end.
Definition translateStringType (stringType : StringType) : FidlType :=
  TypeStringType (StringType_nullable stringType).
Definition translateHandleType (handleType : HandleTypeRef) : FidlType :=
  TypeHandleType (HandleTypeRef_nullable handleType)
    match kind handleType with
    | HandleKindUnspecified => HandleType_Kind_Unspecified
    | HandleKindChannel => HandleType_Kind_Channel
    | HandleKindVmo => HandleType_Kind_Vmo
    | HandleKindProcess => HandleType_Kind_Process
    | HandleKindThread => HandleType_Kind_Thread
    | HandleKindEvent => HandleType_Kind_Event
    | HandleKindPort => HandleType_Kind_Port
    | HandleKindJob => HandleType_Kind_Job
    | HandleKindSocket => HandleType_Kind_Socket
    | HandleKindEventPair => HandleType_Kind_EventPair
    end.
Definition translateUserTypeRef (userType : UserTypeRef) : option FidlType :=
  t ← resolvedType userType;
  Some (TypeTypeReference
    (mkTypeReference (nullable userType) (interfaceRequest userType) (Some (identifier userType))
       (Some (udt_TypeKey t)))).
(** Given the translation of the element, of the key and of the value. *)
Definition translateArrayType (n : bool) (fixedLength : Z) (element : option FidlType) : option FidlType :=
  e ← element; Some (TypeArrayType n (i32 fixedLength) e).
Definition translateMapType (n : bool) (key value : option FidlType) : option FidlType :=
  k ← key; v ← value; Some (TypeMapType n k v).
Fixpoint translateTypeRef (typeRef : TypeRef) : option FidlType :=
  match typeRef with
  | TRSimple t => Some (translateSimpleType t)
  | TRString t => Some (translateStringType t)
  | TRHandle t => Some (translateHandleType t)
  | TRArray n l e => translateArrayType n l (translateTypeRef e)
  | TRMap n k v => translateMapType n (translateTypeRef k) (translateTypeRef v)
  | TRUser r => translateUserTypeRef r
  end.

(** ** Values *)
(** The type assertion on the value may fail. *)
Definition translateLiteralValue (v : LiteralValue) : option FidlLiteralValue :=
  match valueType v, value v with
  | LitSimple SimpleTypeBool, VBool x => Some (LiteralValueBoolValue x)
  | LitSimple SimpleTypeDouble, VFloat64 x => Some (LiteralValueDoubleValue x)
  | LitSimple SimpleTypeFloat, VFloat32 x => Some (LiteralValueFloatValue x)
  | LitSimple SimpleTypeInt8, VInt8 x => Some (LiteralValueInt8Value x)
  | LitSimple SimpleTypeInt16, VInt16 x => Some (LiteralValueInt16Value x)
  | LitSimple SimpleTypeInt32, VInt32 x => Some (LiteralValueInt32Value x)
  | LitSimple SimpleTypeInt64, VInt64 x => Some (LiteralValueInt64Value x)
  | LitSimple SimpleTypeUInt8, VUint8 x => Some (LiteralValueUint8Value x)
  | LitSimple SimpleTypeUInt16, VUint16 x => Some (LiteralValueUint16Value x)
  | LitSimple SimpleTypeUInt32, VUint32 x => Some (LiteralValueUint32Value x)
  | LitSimple SimpleTypeUInt64, VUint64 x => Some (LiteralValueUint64Value x)
  | LitString (mkStringType false), VString x => Some (LiteralValueStringValue x)
  | _, _ => None
  end.
Definition translateBuiltInConstantValue (t : BuiltInConstantValue) : BuiltinConstantValue :=
  match t with
  | FloatInfinity => BuiltinConstantValue_FloatInfinity
  | FloatNegativeInfinity => BuiltinConstantValue_FloatNegativeInfinity
  | FloatNAN => BuiltinConstantValue_FloatNan
  | DoubleInfinity => BuiltinConstantValue_DoubleInfinity
  | DoubleNegativeInfinity => BuiltinConstantValue_DoubleNegativeInfinity
  | DoubleNAN => BuiltinConstantValue_DoubleNan
  end.
Definition translateConcreteValue (cv : ConcreteValue) : option FidlValue :=
  match cv with
  | CVLiteral v => ValueLiteralValue <$> translateLiteralValue v
  | CVEnum v => Some (ValueEnumValueReference
      (mkEnumValueReference "" (udt_TypeKey (EnumType v)) (Types.valueIndex v)))
  | CVBuiltIn v => Some (ValueBuiltinValue (translateBuiltInConstantValue v))
  end.
Definition translateFidlAttribute (a : MojomAttribute) : option FidlAttribute :=
  v ← translateLiteralValue (attr_Value a); Some (mkFidlAttribute (Key a) v).

Section Descriptor.
Context (g : Program).
#[local] Abbreviation d := (descriptor g).
Context (emitLineAndColumnNumbers emitComputedPackingData emitSerializedRuntimeTypeInfo : bool).
Context (runtime_type_info : RuntimeTypeInfo -> option string).
(** The attributes of the constants, which the descriptor's objects omit. *)
Context (constantAttributes : nat -> option Attributes).

Definition type_key (p : nat) : option string := object_key <$> objects d !! p.
Definition translateUserValueRef (r : UserValueRef nat) : option FidlValue :=
  match resolvedDeclaredValue r with
  | Some (UDVBuiltIn t) => Some (ValueBuiltinValue (translateBuiltInConstantValue t))
  | Some (UDVConstant t) =>
    key ← type_key t; Some (ValueConstantReference (mkConstantReference (uv_identifier r) key))
  | Some (UDVEnumValue t) =>
    Some (ValueEnumValueReference (mkEnumValueReference (uv_identifier r)
      (udt_TypeKey (EnumType t)) (Types.valueIndex t)))
  | None => None
  end.
Definition translateValueRef (v : ValueRef) : option FidlValue :=
  match v with
  | VRLiteral v => ValueLiteralValue <$> translateLiteralValue v
  | VRUser p => r ← valueRefs d !! p; translateUserValueRef r
  end.
Definition translateDefaultFieldValue (v : ValueRef) : option DefaultFieldValue :=
  match v with
  | VRLiteral lv =>
    if isDefault lv then Some DefaultFieldValueDefaultKeyword
    else v ← translateLiteralValue lv; Some (DefaultFieldValueValue (ValueLiteralValue v))
  | VRUser p => r ← valueRefs d !! p; v ← translateUserValueRef r; Some (DefaultFieldValueValue v)
  end.

(** ** Declarations *)
Definition translate_attributes (a : option Attributes) : option (option (list FidlAttribute)) :=
  match a with
  | None => Some None
  | Some a => Some <$> mapM translateFidlAttribute (List a)
  end.
(** What the declared object is to its declaration: its class, its fully
    qualified name and the key of the type that contains it. *)
Definition has_identifier (c : ObjectClass) : bool :=
  match c with
  | OField | OMethod => false
  | OType UserDefinedTypeKindStruct t => bool_decide (t = StructTypeRegular)
  | _ => true
  end.
Definition has_container (c : ObjectClass) : bool :=
  match c with OField | OMethod | OEnumValue _ _ => false | _ => true end.
Definition translateDeclarationData (c : ObjectClass) (fullyQualifiedName : string)
    (containingType : option string) (owningFile : string) (decl : DeclarationData)
    : option FidlDeclarationData :=
  attributes ← translate_attributes (attributes decl);
  Some (mkFidlDeclarationData attributes (Some (dd_simpleName decl))
    (if has_identifier c then Some fullyQualifiedName else None)
    (if declaredOrdinal decl <? 0 then -1 else i32 (declaredOrdinal decl))
    (if lexicalPosition decl <? 0 then -1 else lexicalPosition decl)
    (Some (mkSourceFileInfo owningFile
      (if emitLineAndColumnNumbers then u32 (Z.of_nat (LineNo (dd_nameToken decl))) else 0)
      (if emitLineAndColumnNumbers then u32 (Z.of_nat (LinePos (dd_nameToken decl))) else 0)))
    None
    (if has_container c then containingType else None) None).
Definition set_contained (c : option ContainedDeclarations) (decl : FidlDeclarationData)
    : FidlDeclarationData :=
  mkFidlDeclarationData (dd_Attributes decl) (ShortName decl) (FullIdentifier decl) (DeclaredOrdinal decl)
    (DeclarationOrder decl) (dd_SourceFileInfo decl) c (ContainerTypeKey decl) (dd_Comments decl).
Definition keys_of (l : list nat) : option (option (list string)) :=
  match l with [] => Some None | _ => Some <$> mapM type_key l end.
Definition translateContainedDeclarations (container : NestedDeclarations)
    : option (option ContainedDeclarations) :=
  enums ← keys_of (nested_Enums container);
  constants ← keys_of (nested_Constants container);
  Some (match enums, constants with
        | None, None => None
        | _, _ => Some (mkContainedDeclarations enums constants)
        end).

(** ** Structs *)
(** [MinVersion] and [Version] panic before they are computed. *)
Definition MinVersion (v : Z) : option Z := if v <? 0 then None else Some (u32 v).
Definition translateStructVersion (v : StructVersion) : FidlStructVersion :=
  mkFidlStructVersion (VersionNumber v) (NumFields v) (NumBytes v).
Definition translateStructField (owningFile : string) (f : StructField) : option FidlStructField :=
  decl ← translateDeclarationData OField "" None owningFile (f_decl f);
  type ← translateTypeRef (FieldType f);
  default ← match DefaultValue f with
            | None => Some None
            | Some v => Some <$> translateDefaultFieldValue v
            end;
  if emitComputedPackingData then
    offset ← Offset f; bit ← Bit f; version ← MinVersion (f_minVersion f);
    Some (mkFidlStructField (Some decl) type default offset (i8 bit) version)
  else Some (mkFidlStructField (Some decl) type default 0 0 0).
Definition field_in_order (s : MojomStruct) (p : option nat) : option StructField :=
  i ← p; FieldsInLexicalOrder s !! i.
(** A parameter struct is in no scope: no name and no containing type. *)
Definition translateFidlStruct (fullyQualifiedName : string) (containingType : option string)
    (owningFile : string) (s : MojomStruct) : option FidlStruct :=
  decl ← translateDeclarationData (OType UserDefinedTypeKindStruct (structType s)) fullyQualifiedName
           containingType owningFile (s_decl s);
  contained ← translateContainedDeclarations (s_nested s);
  order ← FieldsInOrdinalOrder s;
  fields ← mapM (fun p => f ← field_in_order s p; translateStructField owningFile f) order;
  versions ← (if emitComputedPackingData then
                versionInfo ← VersionInfo s; Some (Some (map translateStructVersion versionInfo))
              else Some None);
  Some (mkFidlStruct (Some (set_contained contained decl)) fields versions).

(** ** Interfaces *)
Definition translateFidlMethod (owningFile : string) (method : MojomMethod) : option FidlMethod :=
  decl ← translateDeclarationData OMethod "" None owningFile (m_decl method);
  params ← Parameters method;
  parameters ← translateFidlStruct "" None owningFile params;
  responseParams ← match ResponseParameters method with
                   | None => Some None
                   | Some s => Some <$> translateFidlStruct "" None owningFile s
                   end;
  version ← (if emitComputedPackingData then MinVersion (m_minVersion method) else Some 0);
  Some (mkFidlMethod (Some decl) parameters responseParams (Ordinal method) version).
Definition translate_methods (owningFile : string) (i : MojomInterface) : option (gmap Z FidlMethod) :=
  methods ← mapM (fun '(ordinal, p) =>
      m ← methodsByLexicalOrder i !! p; m' ← translateFidlMethod owningFile m; Some (ordinal, m'))
    (map_to_list (MethodsByOrdinal i));
  Some (list_to_map methods).
Definition translateFidlInterface (fullyQualifiedName : string) (containingType : option string)
    (owningFile : string) (i : MojomInterface) : option FidlInterface :=
  decl ← translateDeclarationData (OType UserDefinedTypeKindInterface StructTypeRegular)
           fullyQualifiedName containingType owningFile (i_decl i);
  contained ← translateContainedDeclarations (i_nested i);
  methods ← translate_methods owningFile i;
  version ← (if emitComputedPackingData then MinVersion (versionNumber i) else Some 0);
  Some (mkFidlInterface (Some (set_contained contained decl)) (ServiceName i) methods version).

(** ** Enums and unions *)
Definition translateEnumValue (enum : nat) (owningFile : string) (v : MojomEnumValue) (obj : nat)
    : option FidlEnumValue :=
  o ← objects d !! obj;
  decl ← translateDeclarationData (OEnumValue enum (UserDefined.valueIndex v)) (FullyQualifiedName o) None
           owningFile (ev_decl v);
  initializer ← match initializer v with
                | None => Some None
                | Some v => Some <$> translateValueRef v
                end;
  int ← ComputedIntValue v;
  Some (mkFidlEnumValue (Some decl) initializer int).
Definition translateFidlEnum (enum : nat) (fullyQualifiedName : string) (containingType : option string)
    (owningFile : string) (e : MojomEnum) : option FidlEnum :=
  decl ← translateDeclarationData (OType UserDefinedTypeKindEnum StructTypeRegular)
           fullyQualifiedName containingType owningFile (e_decl e);
  values ← mapM (fun '(v, obj) => translateEnumValue enum owningFile v obj) (zip (Values e) (enum_objects e));
  Some (mkFidlEnum (Some decl) values).
Definition translateUnionField (owningFile : string) (f : UnionField UserTypeRef) : option FidlUnionField :=
  decl ← translateDeclarationData OField "" None owningFile (u_decl f);
  type ← translateTypeRef (u_FieldType f);
  Some (mkFidlUnionField (Some decl) type (Tag f)).
Definition translateFidlUnion (fullyQualifiedName : string) (containingType : option string)
    (owningFile : string) (u : MojomUnion UserTypeRef) : option FidlUnion :=
  decl ← translateDeclarationData (OType UserDefinedTypeKindUnion StructTypeRegular)
           fullyQualifiedName containingType owningFile (un_decl u);
  order ← fieldsInTagOrder u;
  fields ← mapM (fun p => i ← p; f ← un_FieldsInLexicalOrder u !! i; translateUnionField owningFile f) order;
  Some (mkFidlUnion (Some decl) fields).

(** ** The objects of the descriptor *)
Definition object_scope_of (o : DeclaredObject) : option Scope := p ← object_scope o; scopes d !! p.
Definition OwningFile (o : DeclaredObject) : option string :=
  s ← object_scope_of o; f ← file s; fl ← mojomFiles d !! f; Some (CanonicalFileName fl).
Definition ContainingType (o : DeclaredObject) : option string :=
  s ← object_scope_of o; t ← containingType s; type_key t.
Definition translateUserDefinedType (p : nat) : option FidlUserDefinedType :=
  o ← objects d !! p;
  owningFile ← OwningFile o;
  let name := FullyQualifiedName o in
  let containingType := ContainingType o in
  match class o with
  | OType UserDefinedTypeKindStruct _ =>
    s ← finalStructs g !! p; UserDefinedTypeStructType <$> translateFidlStruct name containingType owningFile s
  | OType UserDefinedTypeKindInterface _ =>
    i ← finalInterfaces g !! p; UserDefinedTypeInterfaceType <$> translateFidlInterface name containingType owningFile i
  | OType UserDefinedTypeKindEnum _ =>
    e ← finalEnums g !! p; UserDefinedTypeEnumType <$> translateFidlEnum p name containingType owningFile e
  | OType UserDefinedTypeKindUnion _ =>
    u ← finalUnions g !! p; UserDefinedTypeUnionType <$> translateFidlUnion name containingType owningFile u
  | _ => None
  end.
Definition is_constant_reference (v : FidlValue) : bool :=
  match v with ValueConstantReference _ => true | _ => false end.
Definition translateUserDefinedConstant (p : nat) : option DeclaredConstant :=
  o ← objects d !! p;
  owningFile ← OwningFile o;
  match class o with
  | OConstant declaredType valueRef =>
    t ← deref_type d declaredType;
    type ← translateTypeRef t;
    decl ← translateDeclarationData (class o) (FullyQualifiedName o) (ContainingType o) owningFile
             (DeclData (SimpleName o) (NameToken o) (constantAttributes p));
    value ← translateValueRef valueRef;
    resolved ← (if is_constant_reference value then
                  concrete ← ValueRef_ResolvedConcreteValue d valueRef;
                  cv ← concrete;
                  Some <$> translateConcreteValue cv
                else Some None);
    Some (mkDeclaredConstant decl type value resolved)
  | _ => None
  end.
Definition is_constant (p : nat) : bool :=
  match class <$> objects d !! p with Some (OConstant _ _) => true | _ => false end.

(** ** Files *)
(** An entry for a type that was not translated is nil, which does not encode. *)
Fixpoint add_types (types m : gmap string FidlUserDefinedType) (l : list nat)
    : option (gmap string FidlUserDefinedType) :=
  match l with
  | [] => Some m
  | p :: l => key ← type_key p; t ← types !! key; add_types types (<[key := t]> m) l
  end.
(** A type and the enums it contains. *)
Definition with_enums (nested : nat -> option NestedDeclarations) (l : list nat) : option (list nat) :=
  @concat nat <$> mapM (fun p => c ← nested p; Some (p :: nested_Enums c)) l.
Definition addServiceName (services : gmap string string) (p : nat) : option (gmap string string) :=
  i ← finalInterfaces g !! p;
  match ServiceName i with
  | None => Some services
  | Some name => key ← type_key p; Some (<[name := key]> services)
  end.
Fixpoint add_services (services : gmap string string) (l : list nat) : option (gmap string string) :=
  match l with
  | [] => Some services
  | p :: l => services' ← addServiceName services p; add_services services' l
  end.
Definition imported_names (f : MojomFile) : option (list string) :=
  match filter (fun n => n <> "") (map imp_CanonicalFileName (Imports f)) with
  | [] => None
  | l => Some l
  end.
Definition file_type_info (types : gmap string FidlUserDefinedType) (f : MojomFile) : option RuntimeTypeInfo :=
  services ← add_services ∅ (Interfaces f);
  interfaces ← with_enums (fun p => i_nested <$> finalInterfaces g !! p) (Interfaces f);
  structs ← with_enums (fun p => s_nested <$> finalStructs g !! p) (Structs f);
  m ← add_types types ∅ (interfaces ++ structs ++ Unions f ++ Enums f);
  Some (mkRuntimeTypeInfo services m).
Definition translateFidlFile (types : gmap string FidlUserDefinedType) (f : MojomFile) : option FidlFile :=
  namespace ← ModuleNamespace f;
  attributes ← translate_attributes (file_Attributes f);
  interfaces ← keys_of (Interfaces f);
  structs ← keys_of (Structs f);
  unions ← keys_of (Unions f);
  enums ← keys_of (Enums f);
  constants ← keys_of (Constants f);
  serialized ← (if emitSerializedRuntimeTypeInfo
    then info ← file_type_info types f; encoded ← runtime_type_info info; Some (Some encoded)
    else Some None);
  Some (mkFidlFile (CanonicalFileName f) (Some (SpecifiedFileName f)) (Some namespace) attributes
    (imported_names f) (mkKeysByType interfaces structs unions enums None constants None)
    serialized None).

(** A Go map made from another one, entry by entry. *)
Definition translate_map {A B} (f : A -> option B) (m : gmap string A) : option (gmap string B) :=
  l ← mapM (fun '(k, a) => b ← f a; Some (k, b)) (map_to_list m); Some (list_to_map l).
Definition translateDescriptor : option FidlFileGraph :=
  types ← translate_map translateUserDefinedType (TypesByKey d);
  constants ← translate_map translateUserDefinedConstant (filter (fun '(_, p) => is_constant p = true) (ValuesByKey d));
  files ← translate_map (fun f => fl ← mojomFiles d !! f; translateFidlFile types fl) (MojomFilesByName d);
  Some (mkFidlFileGraph files types constants).
End Descriptor.
