(* ===== verification/CGen.v ===== *)
(** * The C generator: generators/c/cgen

    The translation of types, names and values (type_translation.go), the
    templates of a header (header.go) and the type descriptors (type_table.go).
    [None] is a call of log.Fatal or a panic.  Printing of floats, upper case
    and relative paths are functions of the Go library. *)
From Stdlib Require Export Ascii.
From stdpp Require Export pretty sorting.
From S2P Require Export FidlTypes.

(** ** Strings *)
(** [strings.Replace(s, old, new, 1)]. *)
Fixpoint replace_first (old new s : string) : string :=
  if String.prefix old s then new +:+ String.substring (String.length old) (String.length s - String.length old) s
  else match s with EmptyString => "" | String c s => String c (replace_first old new s) end.
(** [strings.Replace(s, c, new, -1)] for one character. *)
Fixpoint replace_char (c : Ascii.ascii) (new : string) (s : string) : string :=
  match s with
  | EmptyString => ""
  | String x s => (if Ascii.eqb x c then new else String x "") +:+ replace_char c new s
  end.
(** The double quote. *)
Definition quote : Ascii.ascii := Ascii.ascii_of_nat 34.
(** [strconv.FormatInt] and [FormatUint] in base 10, and [%d]. *)
Definition FormatInt (z : Z) : string := pretty z.

(** Stable sort by a key that is compared with [<]; the keys are distinct where
    the result matters, so that it does not depend on the algorithm. *)
Definition packing_key (f : FidlStructField) : Z * Z := (sf_Offset f, sf_Bit f).
Definition packing_le (f f' : FidlStructField) : Prop :=
  sf_Offset f < sf_Offset f' \/ sf_Offset f = sf_Offset f' /\ sf_Bit f <= sf_Bit f'.
#[export] Instance packing_le_dec : RelDecision packing_le.
Proof. intros f f'. unfold packing_le. solve_decision. Defined.
Definition sort_fields (l : list FidlStructField) : list FidlStructField := merge_sort packing_le l.

Section CGen.
Context (FormatFloat : spec_float -> Z -> string) (ToUpper : string -> string).
Context (filepath_Rel : string -> string -> option string).
Context (fileGraph : FidlFileGraph).

(** ** type_translation.go *)
Definition toHeaderGuard (path : string) : string :=
  replace_char "."%char "_" (replace_char "-"%char "_" (replace_char "/"%char "_" (ToUpper path))) +:+ "_C_H_".
Definition reservedCKeywords : list string :=
  ["_Alignas"; "_Alignof"; "_Atomic"; "_Bool"; "_Complex"; "_Generic"; "_Imaginary"; "_Noreturn";
   "_Static_assert"; "_Thread_local"; "alignas"; "alignof"; "auto"; "bool"; "break"; "case"; "char";
   "complex"; "const"; "continue"; "default"; "do"; "double"; "else"; "enum"; "extern"; "float"; "for";
   "goto"; "if"; "imaginary"; "inline"; "int"; "long"; "noreturn"; "register"; "restrict"; "return";
   "short"; "signed"; "sizeof"; "static"; "static_assert"; "struct"; "switch"; "typedef"; "union";
   "unsigned"; "void"; "volatile"; "while"].
Definition isReservedKeyword (keyword : string) : bool := bool_decide (keyword ∈ reservedCKeywords).
Definition mojomToCFilePath (srcRootPath mojomImport : string) : option string :=
  rel ← filepath_Rel srcRootPath mojomImport; Some (rel +:+ "-c.h").
Definition mojomToCName (name : string) : string := replace_char "."%char "_" name.
Definition decl_name (f : FidlDeclarationData -> option string) (d : option FidlDeclarationData) : option string :=
  d ≫= f.
Definition requestMethodToCName (i : FidlInterface) (s : FidlStruct) : option string :=
  name ← decl_name FullIdentifier (fi_DeclData i);
  short ← decl_name ShortName (st_DeclData s);
  Some (mojomToCName name +:+ "_" +:+ replace_first "-request" "_Request" short).
Definition responseMethodToCName (i : FidlInterface) (s : FidlStruct) : option string :=
  name ← decl_name FullIdentifier (fi_DeclData i);
  short ← decl_name ShortName (st_DeclData s);
  Some (mojomToCName name +:+ "_" +:+ replace_first "-response" "_Response" short).
Definition mojomToCBuiltinValue (val : BuiltinConstantValue) : option string :=
  match val with
  | BuiltinConstantValue_DoubleNegativeInfinity | BuiltinConstantValue_FloatNegativeInfinity => Some "-INFINITY"
  | BuiltinConstantValue_DoubleInfinity | BuiltinConstantValue_FloatInfinity => Some "INFINITY"
  | BuiltinConstantValue_DoubleNan | BuiltinConstantValue_FloatNan => Some "NAN"
  | BuiltinConstantValue_Other _ => None
  end.
Definition simpleTypeToCType (st : FidlSimpleType) : option string :=
  match st with
  | SimpleType_Int8 => Some "int8_t"
  | SimpleType_Int16 => Some "int16_t"
  | SimpleType_Int32 => Some "int32_t"
  | SimpleType_Int64 => Some "int64_t"
  | SimpleType_Uint8 => Some "uint8_t"
  | SimpleType_Uint16 => Some "uint16_t"
  | SimpleType_Uint32 => Some "uint32_t"
  | SimpleType_Uint64 => Some "uint64_t"
  | SimpleType_Float => Some "float"
  | SimpleType_Double => Some "double"
  | SimpleType_Bool => Some "bool"
  | SimpleType_Other _ => None
  end.
(** An absent key of [ResolvedTypes] reads as a nil interface. *)
Definition userDefinedTypeToCType (t : option FidlUserDefinedType) : option string :=
  t ← t;
  match t with
  | UserDefinedTypeStructType s =>
    name ← decl_name FullIdentifier (st_DeclData s); Some ("union " +:+ mojomToCName name +:+ "Ptr")
  | UserDefinedTypeEnumType e => name ← decl_name FullIdentifier (fe_DeclData e); Some (mojomToCName name)
  | UserDefinedTypeUnionType u =>
    name ← decl_name FullIdentifier (fu_DeclData u); Some ("struct " +:+ mojomToCName name)
  | UserDefinedTypeInterfaceType _ => Some "struct MojomInterfaceData"
  | UserDefinedTypeUnknown _ => None
  end.
Definition resolved_reference (r : TypeReference) : option (option FidlUserDefinedType) :=
  key ← TypeKey r; Some (ResolvedTypes fileGraph !! key).
Definition mojomToCType (t : FidlType) : option string :=
  match t with
  | TypeSimpleType t => simpleTypeToCType t
  | TypeArrayType _ _ _ => Some "union MojomArrayHeaderPtr"
  | TypeMapType _ _ _ => Some "union MojomMapHeaderPtr"
  | TypeStringType _ => Some "union MojomStringHeaderPtr"
  | TypeHandleType _ _ => Some "MojoHandle"
  | TypeTypeReference r =>
    if IsInterfaceRequest r then Some "MojoHandle"
    else t ← resolved_reference r; userDefinedTypeToCType t
  | TypeUnknown _ => None
  end.
(** A float32 value is asserted to be a float64. *)
Definition mojomToCLiteral (v : FidlLiteralValue) : option string :=
  match v with
  | LiteralValueBoolValue b => Some (if b then "true" else "false")
  | LiteralValueDoubleValue f => Some (FormatFloat f 64)
  | LiteralValueFloatValue _ => None
  | LiteralValueInt8Value z | LiteralValueInt16Value z => Some (FormatInt z)
  | LiteralValueInt32Value z => Some (FormatInt z +:+ "l")
  | LiteralValueInt64Value z => Some (FormatInt z +:+ "ll")
  | LiteralValueUint8Value z | LiteralValueUint16Value z => Some (FormatInt z)
  | LiteralValueUint32Value z => Some (FormatInt z +:+ "ul")
  | LiteralValueUint64Value z => Some (FormatInt z +:+ "ull")
  | LiteralValueStringValue s => Some (String quote s +:+ String quote "")
  | LiteralValueUnknown _ => None
  end.
Definition mojomUnionToCType (u : FidlUnion) : option string :=
  name ← decl_name FullIdentifier (fu_DeclData u); Some ("union " +:+ mojomToCName name +:+ "Ptr").
Definition mojomTypeIsBool (t : FidlType) : bool :=
  match t with TypeSimpleType SimpleType_Bool => true | _ => false end.
Definition mojomTypeIsUnion (t : FidlType) : option bool :=
  match t with
  | TypeTypeReference r =>
    t ← resolved_reference r;
    Some (match t with Some (UserDefinedTypeUnionType _) => true | _ => false end)
  | _ => Some false
  end.
Definition simpleTypeByteSize (t : FidlSimpleType) : option Z :=
  match t with
  | SimpleType_Bool => Some 1
  | SimpleType_Double => Some 8
  | SimpleType_Float => Some 4
  | SimpleType_Int8 => Some 1
  | SimpleType_Int16 => Some 2
  | SimpleType_Int32 => Some 4
  | SimpleType_Int64 => Some 8
  | SimpleType_Uint8 => Some 1
  | SimpleType_Uint16 => Some 2
  | SimpleType_Uint32 => Some 4
  | SimpleType_Uint64 => Some 8
  | SimpleType_Other _ => None
  end.
Definition referenceTypeSize (r : TypeReference) : option Z :=
  if IsInterfaceRequest r then Some 4
  else
    t ← resolved_reference r;
    match t with
    | Some (UserDefinedTypeEnumType _) => Some 4
    | Some (UserDefinedTypeStructType _) => Some 8
    | Some (UserDefinedTypeUnionType _) => Some 16
    | Some (UserDefinedTypeInterfaceType _) => Some 8
    | Some (UserDefinedTypeUnknown _) | None => None
    end.
Definition mojomTypeByteSize (t : FidlType) : option Z :=
  match t with
  | TypeSimpleType t => simpleTypeByteSize t
  | TypeStringType _ | TypeArrayType _ _ _ | TypeMapType _ _ _ => Some 8
  | TypeHandleType _ _ => Some 4
  | TypeTypeReference r => referenceTypeSize r
  | TypeUnknown _ => None
  end.
Definition mojomTypeBitSize (t : FidlType) : option Z :=
  if mojomTypeIsBool t then Some 1 else size ← mojomTypeByteSize t; Some (u32 (8 * size)).

(** ** header.go *)
Record FieldTemplate := mkFieldTemplate { Text : string; Comment : string }.
Record CEnumValueTemplate := mkCEnumValueTemplate { cev_Name : string; cev_Value : Z }.
Record CEnumTemplate := mkCEnumTemplate { ce_Name : string; ce_Values : list CEnumValueTemplate }.
Record CConstantTemplate := mkCConstantTemplate { cc_Type : string; cc_Name : string; cc_Value : string }.
Record CStructTemplate := mkCStructTemplate {
  cs_Name : string;
  cs_Fields : list FieldTemplate;
  cs_Constants : list CConstantTemplate;
  cs_Enums : list CEnumTemplate
}.
Record CUnionTemplate := mkCUnionTemplate {
  cu_Name : string;
  cu_Fields : list FieldTemplate;
  TagsEnum : CEnumTemplate
}.
Record InterfaceMessageTemplate := mkInterfaceMessageTemplate {
  im_Name : string;
  MessageOrdinal : Z;
  im_MinVersion : Z;
  RequestStruct : CStructTemplate;
  ResponseStruct : option CStructTemplate
}.
Record CInterfaceTemplate := mkCInterfaceTemplate {
  ci_Name : string;
  ci_ServiceName : string;
  ci_Version : Z;
  Messages : list InterfaceMessageTemplate;
  ci_Enums : list CEnumTemplate;
  ci_Constants : list CConstantTemplate
}.

Definition unreserved (name : string) : option string := if isReservedKeyword name then None else Some name.
Definition NewEnumTemplate (e : FidlEnum) : option CEnumTemplate :=
  full ← decl_name FullIdentifier (fe_DeclData e);
  name ← unreserved (mojomToCName full);
  values ← mapM (fun v => short ← decl_name ShortName (fv_DeclData v);
                          Some (mkCEnumValueTemplate short (IntValue v))) (fe_Values e);
  Some (mkCEnumTemplate name values).
(** Each step follows one reference; [fuel] bounds the chain of references. *)
Fixpoint resolveValue (fuel : nat) (v : FidlValue) : option string :=
  match fuel with
  | O => None
  | S fuel =>
    match v with
    | ValueLiteralValue v => mojomToCLiteral v
    | ValueConstantReference r =>
      c ← ResolvedConstants fileGraph !! ConstantKey r;
      resolveValue fuel (default (dc_Value c) (dc_ResolvedConcreteValue c))
    | ValueEnumValueReference r =>
      match ResolvedTypes fileGraph !! EnumTypeKey r with
      | Some (UserDefinedTypeEnumType e) =>
        v ← fe_Values e !! Z.to_nat (EnumValueIndex r);
        match InitializerValue_ v with
        | None => Some (FormatInt (IntValue v))
        | Some init => resolveValue fuel init
        end
      | Some _ => None
      | None => Some ""
      end
    | ValueBuiltinValue v => mojomToCBuiltinValue v
    | ValueUnknown _ => None
    end
  end.
Definition NewConstantTemplate (fuel : nat) (c : DeclaredConstant) : option CConstantTemplate :=
  type ← match dc_Type c with TypeStringType _ => Some "char*" | t => mojomToCType t end;
  full ← FullIdentifier (dc_DeclData c);
  name ← unreserved (mojomToCName full);
  val ← resolveValue fuel (dc_Value c);
  Some (mkCConstantTemplate type name val).

Definition union_field_text (f : FidlUnionField) : option (string * string) :=
  name ← decl_name ShortName (uf_DeclData f);
  if mojomTypeIsBool (uf_Type f) then Some (name, "bool " +:+ name +:+ " : 1")
  else
    type ← mojomToCType (uf_Type f);
    is_union ← mojomTypeIsUnion (uf_Type f);
    let type := if is_union : bool then replace_first "struct " "union " type +:+ "Ptr" else type in
    Some (name, type +:+ " f_" +:+ name).
Definition NewUnionTemplate (u : FidlUnion) : option CUnionTemplate :=
  full ← decl_name FullIdentifier (fu_DeclData u);
  name ← unreserved (mojomToCName full);
  texts ← mapM union_field_text (fu_Fields u);
  Some (mkCUnionTemplate name (map (fun '(_, text) => mkFieldTemplate text "") texts)
    (mkCEnumTemplate (name +:+ "_Tag")
      (imap (fun i '(field, _) => mkCEnumValueTemplate field (Z.of_nat i)) texts))).

Definition generateContainedDeclarations (fuel : nat) (decls : ContainedDeclarations)
    : option (list CConstantTemplate * list CEnumTemplate) :=
  constants ← mapM (fun key => c ← ResolvedConstants fileGraph !! key; NewConstantTemplate fuel c)
                (default [] (cd_Constants decls));
  enums ← mapM (fun key => t ← ResolvedTypes fileGraph !! key;
                  match t with UserDefinedTypeEnumType e => NewEnumTemplate e | _ => None end)
            (default [] (cd_Enums decls));
  Some (constants, enums).
Definition contained_in (fuel : nat) (d : option FidlDeclarationData)
    : option (list CConstantTemplate * list CEnumTemplate) :=
  d ← d;
  match dd_ContainedDeclarations d with
  | None => Some ([], [])
  | Some decls => generateContainedDeclarations fuel decls
  end.

(** The padding between the field at index [i] and the next one. *)
Definition getPaddingAfter (fields : list FidlStructField) (i : nat) : option Z :=
  f ← fields !! i;
  size ← mojomTypeByteSize (sf_Type f);
  if (i =? length fields - 1)%nat then
    let m := Z.land (u32 (sf_Offset f + size)) 7 in
    Some (if m =? 0 then 0 else u32 (8 - m))
  else
    next ← fields !! S i;
    let diff := sf_Offset next - (sf_Offset f + size) in
    Some (if diff <=? 0 then 0 else u32 diff).
Definition field_text (f : FidlStructField) : option string :=
  short ← decl_name ShortName (sf_DeclData f);
  name ← unreserved short;
  if mojomTypeIsBool (sf_Type f) then Some ("bool " +:+ name +:+ " : 1")
  else type ← mojomToCType (sf_Type f); Some (type +:+ " " +:+ name).
Definition field_templates (fields : list FidlStructField) (i : nat) : option (list FieldTemplate) :=
  f ← fields !! i;
  text ← field_text f;
  padding ← getPaddingAfter fields i;
  Some (mkFieldTemplate text ("offset,bit = " +:+ FormatInt (sf_Offset f) +:+ "," +:+ FormatInt (sf_Bit f)) ::
        (if 0 <? padding
         then [mkFieldTemplate ("uint8_t pad" +:+ FormatInt (Z.of_nat i) +:+ "_[" +:+ FormatInt padding +:+ "]") "padding"]
         else [])).
Definition NewStructTemplate (fuel : nat) (s : FidlStruct) : option CStructTemplate :=
  let sortedFields := sort_fields (Fields s) in
  fields ← mapM (field_templates sortedFields) (seq 0 (length sortedFields));
  contained ← contained_in fuel (st_DeclData s);
  d ← st_DeclData s;
  full ← match FullIdentifier d with Some n => Some n | None => ShortName d end;
  name ← unreserved (mojomToCName full);
  Some (mkCStructTemplate name (concat fields) contained.1 contained.2).
Definition set_cs_Name (name : string) (s : CStructTemplate) : CStructTemplate :=
  mkCStructTemplate name (cs_Fields s) (cs_Constants s) (cs_Enums s).
Definition message_template (fuel : nat) (i : FidlInterface) (m : FidlMethod) : option InterfaceMessageTemplate :=
  req ← NewStructTemplate fuel (fm_Parameters m);
  req_name ← requestMethodToCName i (fm_Parameters m);
  resp ← match fm_ResponseParams m with
         | None => Some None
         | Some s =>
           resp ← NewStructTemplate fuel s;
           resp_name ← responseMethodToCName i s;
           Some (Some (set_cs_Name resp_name resp))
         end;
  name ← decl_name ShortName (fm_DeclData m);
  Some (mkInterfaceMessageTemplate name (fm_Ordinal m) (fm_MinVersion m) (set_cs_Name req_name req) resp).
(** The methods in the order in which the map is iterated over. *)
Definition NewInterfaceTemplate (fuel : nat) (i : FidlInterface) (methods : list FidlMethod)
    : option CInterfaceTemplate :=
  full ← decl_name FullIdentifier (fi_DeclData i);
  contained ← contained_in fuel (fi_DeclData i);
  msgs ← mapM (message_template fuel i) methods;
  Some (mkCInterfaceTemplate (mojomToCName full) (default "" (fi_ServiceName i)) (CurrentVersion i) msgs
    contained.2 contained.1).
End CGen.
