(* ===== verification/CLayout.v ===== *)
(** * What a C compiler makes of the generated structs

    The members of a generated struct are read from the texts that
    [NewStructTemplate] puts into its template (templates/struct.tmpl.go prints
    one per line, behind the struct header of 8 bytes) and placed one after the
    other: a bit-field in the next bit, any other member at the next multiple
    of the alignment of its type. *)
From S2P Require Export CGen.

(** ** Declarations *)
Fixpoint split_last (s : string) : option (string * string) :=
  match s with
  | "" => None
  | String c s =>
    match split_last s with
    | Some (a, b) => Some (String c a, b)
    | None => if Ascii.eqb c " " then Some ("", s) else None
    end
  end.
Definition digit_value (c : ascii) : option Z :=
  let n := Z.of_N (N_of_ascii c) - 48 in if (0 <=? n) && (n <=? 9) then Some n else None.
(** The number before the closing bracket. *)
Fixpoint array_bound (acc : Z) (s : string) : option Z :=
  match s with
  | "" => None
  | String c s =>
    if Ascii.eqb c "]" then if String.eqb s "" then Some acc else None
    else d ← digit_value c; array_bound (10 * acc + d) s
  end.
Fixpoint array_count (s : string) : option Z :=
  match s with
  | "" => None
  | String c s => if Ascii.eqb c "[" then array_bound 0 s else array_count s
  end.

Inductive CKind := BitField | Plain (size align : Z) | Array (count size align : Z).
Definition is_array (k : CKind) : bool := match k with Array _ _ _ => true | _ => false end.

Section Compiler.
(** The size and the alignment of a type, if it is declared. *)
Context (c_type : string -> option (Z * Z)).

(** The declarator and the kind of the member that a text declares. *)
Definition c_member (text : string) : option (string * CKind) :=
  '(type, declarator) ← split_last text;
  if String.eqb declarator "1" then
    '(type, colon) ← split_last type;
    '(type, name) ← split_last type;
    if String.eqb colon ":" && String.eqb type "bool" then Some (name, BitField) else None
  else
    '(size, align) ← c_type type;
    Some (declarator, match array_count declarator with
                      | Some count => Array count size align
                      | None => Plain size align
                      end).

Definition round_up (pos unit : Z) : Z := unit * ((pos + unit - 1) / unit).
(** The bits at which a member begins and ends. *)
Definition place (k : CKind) (pos : Z) : Z * Z :=
  match k with
  | BitField => (pos, pos + 1)
  | Plain size align => let start := round_up pos (8 * align) in (start, start + 8 * size)
  | Array count size align => let start := round_up pos (8 * align) in (start, start + 8 * (count * size))
  end.
Fixpoint c_layout (members : list (string * CKind)) (pos : Z) : list (string * CKind * Z) * Z :=
  match members with
  | [] => ([], pos)
  | (name, k) :: members =>
    let (start, stop) := place k pos in
    let (rest, stop) := c_layout members stop in
    ((name, k, start) :: rest, stop)
  end.
(** The struct of a template: its members with the bits at which they begin,
    counted from the end of the struct header, and the bit behind the last one. *)
Definition c_struct (t : CStructTemplate) : option (list (string * CKind * Z) * Z) :=
  members ← mapM c_member (map Text (cs_Fields t)); Some (c_layout members 0).
(** The members without the padding. *)
Definition c_fields (members : list (string * CKind * Z)) : list (string * Z) :=
  map (fun m => (m.1.1, m.2)) (filter (fun m => is_array m.1.2 = false) members).
End Compiler.

(** A name of a member, as names of fields are. *)
Definition name_char (c : ascii) : bool :=
  let n := N_of_ascii c in
  ((48 <=? n) && (n <=? 57) || (65 <=? n) && (n <=? 90) || (97 <=? n) && (n <=? 122) || (n =? 95))%N.
Definition c_identifier (s : string) : bool :=
  match s with
  | "" => false
  | String c _ => bool_decide (digit_value c = None) && forallb name_char (String.list_ascii_of_string s)
  end.

(** What the compiler must know: the types of stdint.h, stdbool.h and of the
    headers of mojo/bindings, which are not part of the repository, and the
    types that the header declares itself (enum.tmpl.go makes an enum a
    uint32_t, header.tmpl.go and union.tmpl.go assert the sizes of the others). *)
Record c_types (graph : FidlFileGraph) (c_type : string -> option (Z * Z)) : Prop := mkCTypes {
  ct_int n : n ∈ [8; 16; 32; 64] -> c_type ("int" +:+ pretty n +:+ "_t") = Some (n / 8, n / 8);
  ct_uint n : n ∈ [8; 16; 32; 64] -> c_type ("uint" +:+ pretty n +:+ "_t") = Some (n / 8, n / 8);
  ct_float : c_type "float" = Some (4, 4);
  ct_double : c_type "double" = Some (8, 8);
  ct_handle : c_type "MojoHandle" = Some (4, 4);
  ct_interface : c_type "struct MojomInterfaceData" = Some (8, 4);
  ct_array : c_type "union MojomArrayHeaderPtr" = Some (8, 8);
  ct_map : c_type "union MojomMapHeaderPtr" = Some (8, 8);
  ct_string : c_type "union MojomStringHeaderPtr" = Some (8, 8);
  ct_struct key s name : ResolvedTypes graph !! key = Some (UserDefinedTypeStructType s) ->
    decl_name FullIdentifier (st_DeclData s) = Some name -> c_type ("union " +:+ mojomToCName name +:+ "Ptr") = Some (8, 8);
  ct_union key u name : ResolvedTypes graph !! key = Some (UserDefinedTypeUnionType u) ->
    decl_name FullIdentifier (fu_DeclData u) = Some name -> c_type ("struct " +:+ mojomToCName name) = Some (16, 8);
  ct_enum key e name : ResolvedTypes graph !! key = Some (UserDefinedTypeEnumType e) ->
    decl_name FullIdentifier (fe_DeclData e) = Some name -> c_type (mojomToCName name) = Some (4, 4)
}.

(** ** Reading the texts *)
Definition chars (P : ascii -> bool) (s : string) : Prop := forallb P (String.list_ascii_of_string s) = true.
Lemma chars_cons P c s : chars P (String c s) <-> P c = true /\ chars P s.
Proof. unfold chars. cbn. by rewrite andb_true_iff. Qed.
Lemma chars_app P s s' : chars P (s +:+ s') <-> chars P s /\ chars P s'.
Proof.
  induction s as [|c s IH]; [by split; [intros ?; split|intros [_ ?]]|].
  change (String c s +:+ s') with (String c (s +:+ s')). rewrite !chars_cons, IH. tauto.
Qed.
Lemma chars_mono (P Q : ascii -> bool) s : (forall c, P c = true -> Q c = true) -> chars P s -> chars Q s.
Proof. intros H. induction s as [|c s IH]; [done|]. rewrite !chars_cons. intros [? ?]. auto. Qed.
Definition not_char (x c : ascii) : bool := negb (Ascii.eqb c x).

Lemma split_last_none s : chars (not_char " ") s -> split_last s = None.
Proof.
  induction s as [|c s IH]; [done|]. rewrite chars_cons. intros [Hc Hs]. cbn. rewrite (IH Hs).
  unfold not_char in Hc. by destruct (Ascii.eqb c " ").
Qed.
Lemma split_last_app ty s : chars (not_char " ") s -> split_last (ty +:+ " " +:+ s) = Some (ty, s).
Proof.
  intros Hs. induction ty as [|c ty IH].
  - change ("" +:+ " " +:+ s) with (String " " s). cbn. by rewrite (split_last_none _ Hs).
  - change (String c ty +:+ " " +:+ s) with (String c (ty +:+ " " +:+ s)). cbn. by rewrite IH.
Qed.
Lemma array_count_none s : chars (not_char "[") s -> array_count s = None.
Proof.
  induction s as [|c s IH]; [done|]. rewrite chars_cons. intros [Hc Hs]. cbn.
  unfold not_char in Hc. destruct (Ascii.eqb c "["); [done|by apply IH].
Qed.
Lemma array_count_app s s' : chars (not_char "[") s -> array_count (s +:+ s') = array_count s'.
Proof.
  induction s as [|c s IH]; [done|]. rewrite chars_cons. intros [Hc Hs].
  change (String c s +:+ s') with (String c (s +:+ s')). cbn. unfold not_char in Hc.
  destruct (Ascii.eqb c "["); [done|by apply IH].
Qed.

(** ** Decimal numbers *)
Definition is_digit (c : ascii) : bool := bool_decide (is_Some (digit_value c)).
Lemma pretty_char (x : N) : (x < 10)%N -> digit_value (pretty_N_char x) = Some (Z.of_N x).
Proof.
  intros Hx. assert (x = 0 \/ x = 1 \/ x = 2 \/ x = 3 \/ x = 4 \/ x = 5 \/ x = 6 \/ x = 7 \/ x = 8 \/ x = 9)%N by lia.
  by destruct_or!; subst.
Qed.
Lemma bracket_digit c : is_Some (digit_value c) -> Ascii.eqb c "]" = false.
Proof. intros [d Hd]. destruct (Ascii.eqb_spec c "]") as [->|]; [by vm_compute in Hd|done]. Qed.
Lemma pretty_go_bound (x : N) : forall s, array_bound 0 (pretty_N_go x s) = array_bound (Z.of_N x) s.
Proof.
  induction (N.lt_wf_0 x) as [x _ IH]; intros s. destruct (decide (x = 0)%N) as [->|Hx]; [by rewrite pretty_N_go_0|].
  rewrite pretty_N_go_step by lia. rewrite IH by (apply N.div_lt; lia). cbn [array_bound].
  assert (x mod 10 < 10)%N as Hm by (by apply N.mod_lt). pose proof (pretty_char _ Hm) as Hd.
  rewrite bracket_digit by (by rewrite Hd). rewrite Hd. cbn [mbind option_bind]. f_equal.
  pose proof (N.div_mod x 10 ltac:(lia)). lia.
Qed.
Lemma pretty_go_digits (x : N) : forall s, chars is_digit s -> chars is_digit (pretty_N_go x s).
Proof.
  induction (N.lt_wf_0 x) as [x _ IH]; intros s Hs. destruct (decide (x = 0)%N) as [->|Hx]; [by rewrite pretty_N_go_0|].
  rewrite pretty_N_go_step by lia. apply IH; [apply N.div_lt; lia|]. apply chars_cons. split; [|done].
  unfold is_digit. rewrite pretty_char by (by apply N.mod_lt). done.
Qed.
Lemma pretty_nonneg z : 0 <= z -> (pretty z : string) = pretty (Z.to_N z).
Proof. intros Hz. unfold pretty at 1, pretty_Z. by destruct z. Qed.
Lemma FormatInt_digits z : 0 <= z -> chars is_digit (FormatInt z).
Proof.
  intros Hz. unfold FormatInt. rewrite pretty_nonneg by done. unfold pretty, pretty_N.
  case_decide; [by vm_compute|by apply pretty_go_digits].
Qed.
Lemma array_bound_app z s : 0 < z -> array_bound 0 (FormatInt z +:+ s) = array_bound z s.
Proof.
  intros Hz. unfold FormatInt. rewrite pretty_nonneg by lia. unfold pretty, pretty_N. rewrite decide_False by lia.
  assert (forall x s1 s2, pretty_N_go x s1 +:+ s2 = pretty_N_go x (s1 +:+ s2)) as Happ.
  { intros x. induction (N.lt_wf_0 x) as [x _ IH]; intros s1 s2.
    destruct (decide (x = 0)%N) as [->|Hx]; [by rewrite !pretty_N_go_0|].
    rewrite !(pretty_N_go_step x) by lia. rewrite IH by (apply N.div_lt; lia). done. }
  rewrite Happ. change ("" +:+ s) with s. rewrite pretty_go_bound. by rewrite Z2N.id by lia.
Qed.

(** ** The texts of fields and of padding *)
Lemma string_assoc (a b c : string) : (a +:+ b) +:+ c = a +:+ b +:+ c.
Proof. induction a as [|x a IH]; [done|]. change (String x ((a +:+ b) +:+ c) = String x (a +:+ b +:+ c)). by rewrite IH. Qed.
Lemma name_char_not x c : name_char x = false -> name_char c = true -> not_char x c = true.
Proof. intros Hx Hc. unfold not_char. destruct (Ascii.eqb_spec c x) as [->|]; [congruence|done]. Qed.
Lemma c_identifier_spec n :
  c_identifier n = true -> chars (not_char " ") n /\ chars (not_char "[") n /\ String.eqb n "1" = false.
Proof.
  destruct n as [|c n]; [done|]. cbn [c_identifier]. intros [Hd Hn]%andb_true_iff. apply bool_decide_eq_true in Hd.
  split_and!; [eapply chars_mono, Hn; intros ?; by apply name_char_not..|].
  destruct (String.eqb_spec (String c n) "1") as [[= -> _]|]; [by vm_compute in Hd|done].
Qed.
Lemma digit_not x c : digit_value x = None -> is_digit c = true -> not_char x c = true.
Proof.
  unfold is_digit, not_char. intros Hx Hc. apply bool_decide_eq_true in Hc.
  destruct (Ascii.eqb_spec c x) as [->|]; [by rewrite Hx in Hc; destruct Hc|done].
Qed.
(** The alignment of a type in memory. *)
Definition c_align (graph : FidlFileGraph) (t : FidlType) : option Z :=
  match t with
  | TypeTypeReference r =>
    if IsInterfaceRequest r then Some 4
    else
      t ← resolved_reference graph r;
      match t with
      | Some (UserDefinedTypeEnumType _) | Some (UserDefinedTypeInterfaceType _) => Some 4
      | Some (UserDefinedTypeStructType _) | Some (UserDefinedTypeUnionType _) => Some 8
      | _ => None
      end
  | t => mojomTypeByteSize graph t
  end.
Section Texts.
Context (graph : FidlFileGraph) (c_type : string -> option (Z * Z)) (Hc : c_types graph c_type).

Lemma c_type_size t ty :
  mojomTypeIsBool t = false -> mojomToCType graph t = Some ty ->
  exists size align, c_type ty = Some (size, align) /\ mojomTypeByteSize graph t = Some size /\ c_align graph t = Some align.
Proof.
  destruct t as [s|n|n l e|n k v|n h|r|u]; cbn; intros Hb Hty; simplify_eq/=; try done.
  all: try solve [eexists _, _; (split; [|done]);
    first [apply (ct_array _ _ Hc)|apply (ct_map _ _ Hc)|apply (ct_string _ _ Hc)|apply (ct_handle _ _ Hc)]].
  - destruct s; simplify_eq/=; try done; eexists _, _; (split; [|done]);
      first [apply (ct_float _ _ Hc)|apply (ct_double _ _ Hc)
            |apply (ct_int _ _ Hc 8)|apply (ct_int _ _ Hc 16)|apply (ct_int _ _ Hc 32)|apply (ct_int _ _ Hc 64)
            |apply (ct_uint _ _ Hc 8)|apply (ct_uint _ _ Hc 16)|apply (ct_uint _ _ Hc 32)|apply (ct_uint _ _ Hc 64)];
      by apply (bool_decide_unpack _).
  - unfold referenceTypeSize, resolved_reference in *. destruct (IsInterfaceRequest r); simplify_eq/=.
    { eexists _, _. split; [apply (ct_handle _ _ Hc)|done]. }
    destruct (TypeKey r) as [key|]; cbn in *; [|done].
    destruct (ResolvedTypes graph !! key) as [[s|e|u|i|]|] eqn:Hkey; cbn in Hty |- *; try done.
    all: try (destruct (decl_name _ _) as [name|] eqn:Hname; [|done]); cbn in Hty; injection Hty as <-;
      eexists _, _; (split; [|done]).
    all: first [by eapply (ct_struct _ _ Hc)|by eapply (ct_enum _ _ Hc)|by eapply (ct_union _ _ Hc)|apply (ct_interface _ _ Hc)].
Qed.
Lemma field_member f text :
  (forall n, decl_name ShortName (sf_DeclData f) = Some n -> c_identifier n = true) ->
  field_text graph f = Some text ->
  exists n, decl_name ShortName (sf_DeclData f) = Some n /\
    if mojomTypeIsBool (sf_Type f) then c_member c_type text = Some (n, BitField)
    else exists size align, c_member c_type text = Some (n, Plain size align) /\
      mojomTypeByteSize graph (sf_Type f) = Some size /\ c_align graph (sf_Type f) = Some align.
Proof.
  intros Hid. unfold field_text. destruct (decl_name _ _) as [n|]; [|done]. cbn [mbind option_bind].
  unfold unreserved. destruct (isReservedKeyword n); [done|]. cbn [mbind option_bind].
  destruct (c_identifier_spec n (Hid n eq_refl)) as (Hblank & Hbracket & H1).
  destruct (mojomTypeIsBool (sf_Type f)) eqn:Hb.
  - intros [= <-]. exists n. split; [done|]. unfold c_member.
    assert ("bool " +:+ n +:+ " : 1" = (("bool" +:+ " " +:+ n) +:+ " " +:+ ":") +:+ " " +:+ "1") as ->
      by (by rewrite !string_assoc).
    rewrite split_last_app by done. cbn [mbind option_bind]. change (String.eqb "1" "1") with true. cbv iota.
    rewrite split_last_app by done. cbn [mbind option_bind]. rewrite split_last_app by done. done.
  - destruct (mojomToCType graph (sf_Type f)) as [ty|] eqn:Hty; [|done]. cbn [mbind option_bind]. intros [= <-].
    exists n. split; [done|]. destruct (c_type_size _ _ Hb Hty) as (size & align & Hct & Hsize & Halign).
    exists size, align. split; [|done]. unfold c_member. rewrite split_last_app by done. cbn [mbind option_bind].
    rewrite H1, Hct. cbn [mbind option_bind]. by rewrite array_count_none.
Qed.
Lemma padding_member i padding :
  0 <= i -> 0 < padding ->
  c_member c_type ("uint8_t pad" +:+ FormatInt i +:+ "_[" +:+ FormatInt padding +:+ "]") =
    Some ("pad" +:+ FormatInt i +:+ "_[" +:+ FormatInt padding +:+ "]", Array padding 1 1).
Proof.
  intros Hi Hp. pose proof (FormatInt_digits i Hi) as Hdi. pose proof (FormatInt_digits padding ltac:(lia)) as Hdp.
  set (d := "pad" +:+ FormatInt i +:+ "_[" +:+ FormatInt padding +:+ "]").
  assert ("uint8_t pad" +:+ FormatInt i +:+ "_[" +:+ FormatInt padding +:+ "]" = "uint8_t" +:+ " " +:+ d) as -> by done.
  assert (chars (not_char " ") d) as Hd.
  { unfold d. rewrite !chars_app. split_and!; try done; by eapply chars_mono; [|done]; intros ?; apply digit_not. }
  unfold c_member. rewrite split_last_app by done. cbn [mbind option_bind].
  assert (String.eqb d "1" = false) as -> by done.
  assert (c_type "uint8_t" = Some (1, 1)) as -> by (apply (ct_uint _ _ Hc 8); by apply (bool_decide_unpack _)). cbn [mbind option_bind].
  assert (array_count d = Some padding) as ->; [|done].
  unfold d. rewrite array_count_app by done. rewrite array_count_app by (eapply chars_mono; [|done]; intros ?; by apply digit_not).
  change (array_count ("_[" +:+ FormatInt padding +:+ "]")) with (array_bound 0 (FormatInt padding +:+ "]")).
  by rewrite array_bound_app.
Qed.
End Texts.
