(* ===== verification/CGenSpec.v ===== *)
(** * The layout of the generated C structs

    The C generator prints the fields of a struct in packing order with
    explicit padding; [c_struct] is where a C compiler puts what it prints.
    Every field gets the place that computeFieldOffsets has given it, which is
    where the encoders of the other languages write it. *)
From S2P Require Export ComputedDataSpec Serialization CLayout.
#[local] Set Warnings "-clear-no-such-hyp".

(** ** Sizes of types *)
Definition kind_of (t : FidlUserDefinedType) : option UserDefinedTypeKind :=
  match t with
  | UserDefinedTypeStructType _ => Some UserDefinedTypeKindStruct
  | UserDefinedTypeInterfaceType _ => Some UserDefinedTypeKindInterface
  | UserDefinedTypeEnumType _ => Some UserDefinedTypeKindEnum
  | UserDefinedTypeUnionType _ => Some UserDefinedTypeKindUnion
  | UserDefinedTypeUnknown _ => None
  end.
(** The graph has the types that a type refers to itself. *)
Definition in_graph (graph : FidlFileGraph) (rt : UserDefinedType) : Prop :=
  exists u, ResolvedTypes graph !! udt_TypeKey rt = Some u /\ kind_of u = Some (udt_Kind rt).
Definition refers_to_graph (graph : FidlFileGraph) (t : TypeRef) : Prop :=
  match t with TRUser r => forall rt, resolvedType r = Some rt -> in_graph graph rt | _ => True end.

Lemma translated_size graph t t' :
  translateTypeRef t = Some t' -> refers_to_graph graph t ->
  mojomTypeByteSize graph t' = SerializationSize t.
Proof.
  destruct t as [s|s|h|n l e|n k v|r]; cbn.
  - intros [= <-] _. by destruct s.
  - by intros [= <-].
  - by intros [= <-].
  - destruct (translateTypeRef e); [|done]. by intros [= <-].
  - destruct (translateTypeRef k), (translateTypeRef v); try done. by intros [= <-].
  - unfold translateUserTypeRef, UserTypeRef_SerializationSize. destruct (resolvedType r) as [rt|]; [|done].
    intros [= <-] H. cbn. unfold referenceTypeSize, resolved_reference. cbn.
    destruct (interfaceRequest r); [done|]. destruct (H rt eq_refl) as (u & -> & Hk). cbn.
    unfold udt_SerializationSize. destruct (udt_Kind rt), u; by cbn in Hk; simplify_eq/=.
Qed.
Lemma translated_bool t t' :
  translateTypeRef t = Some t' -> mojomTypeIsBool t' = match t with TRSimple SimpleTypeBool => true | _ => false end.
Proof.
  destruct t as [s|s|h|n l e|n k v|r]; cbn.
  - intros [= <-]. by destruct s.
  - by intros [= <-].
  - by intros [= <-].
  - destruct (translateTypeRef e); [|done]. by intros [= <-].
  - destruct (translateTypeRef k), (translateTypeRef v); try done. by intros [= <-].
  - unfold translateUserTypeRef. destruct (resolvedType r); [|done]. by intros [= <-].
Qed.

(** ** The layout of members *)
Section Layout.
Context (graph : FidlFileGraph).

Definition byte_up (pos : Z) : Z := 8 * ((pos + 7) / 8).
Definition ir_size (f : FidlStructField) : Z := default 0 (mojomTypeByteSize graph (sf_Type f)).
Definition ir_start (f : FidlStructField) : Z := 8 * sf_Offset f + sf_Bit f.
Definition ir_end (f : FidlStructField) : Z := sf_Offset f + ir_size f.
Definition ir_bool (f : FidlStructField) : bool := mojomTypeIsBool (sf_Type f).
Definition ir_placed (f : FidlStructField) : Prop :=
  mojomTypeByteSize graph (sf_Type f) = Some (ir_size f) /\ 0 < ir_size f /\ 0 <= sf_Offset f /\
  ir_end f < 2 ^ 32 /\ 0 <= sf_Bit f <= 7 /\ (ir_bool f = false -> sf_Bit f = 0) /\ (ir_bool f = true -> ir_size f = 1).
Definition ir_adjacent (x y : FidlStructField) : Prop :=
  ir_end x <= sf_Offset y /\ sf_Bit y = 0 /\
    (ir_bool y = true -> sf_Offset y = ir_end x /\ (ir_bool x = true -> sf_Bit x = 7)) \/
  ir_bool x = true /\ ir_bool y = true /\ sf_Offset x = sf_Offset y /\ sf_Bit y = sf_Bit x + 1.

Definition ir_aligned (f : FidlStructField) : Prop :=
  ir_bool f = false -> forall a, c_align graph (sf_Type f) = Some a -> 0 < a /\ (a | sf_Offset f).
Definition field_name (f : FidlStructField) : string := default "" (decl_name ShortName (sf_DeclData f)).
Definition well_named (f : FidlStructField) : Prop :=
  forall n, decl_name ShortName (sf_DeclData f) = Some n -> c_identifier n = true.
Lemma byte_up_bits o b : 0 <= b <= 7 -> byte_up (8 * o + b) = if b =? 0 then 8 * o else 8 * (o + 1).
Proof.
  intros Hb. unfold byte_up. destruct (Z.eqb_spec b 0); f_equal; symmetry;
    [apply Z.div_unique with 7|apply Z.div_unique with (b - 1)]; lia.
Qed.
Lemma byte_up_bytes o : byte_up (8 * o) = 8 * o.
Proof. pose proof (byte_up_bits o 0 ltac:(lia)) as H. by rewrite Z.add_0_r in H. Qed.
(** A position in the last byte that [f] takes. *)
Definition after_field (f : FidlStructField) : Z :=
  if ir_bool f then ir_start f + 1 else 8 * ir_end f.
Lemma byte_up_after f : ir_placed f -> byte_up (after_field f) = 8 * ir_end f.
Proof.
  intros (_ & _ & _ & _ & Hb & _ & Hs). unfold after_field, ir_start, ir_end in *.
  destruct (ir_bool f); [|apply byte_up_bytes]. rewrite (Hs eq_refl).
  destruct (decide (sf_Bit f = 7)) as [->|Hne].
  - replace (8 * sf_Offset f + 7 + 1) with (8 * (sf_Offset f + 1)) by lia. apply byte_up_bytes.
  - replace (8 * sf_Offset f + sf_Bit f + 1) with (8 * sf_Offset f + (sf_Bit f + 1)) by lia.
    rewrite byte_up_bits by lia. rewrite (proj2 (Z.eqb_neq _ _)) by lia. done.
Qed.

(** The next field starts at its place. *)
Lemma padding_between fields i x y :
  fields !! i = Some x -> fields !! S i = Some y -> ir_placed x -> ir_placed y -> ir_adjacent x y ->
  exists padding, getPaddingAfter graph fields i = Some padding /\
    let next := if 0 <? padding then byte_up (after_field x) + 8 * padding else after_field x in
    (if ir_bool y then next else byte_up next) = ir_start y.
Proof.
  intros Hx Hy Px Py Hadj. pose proof Px as (Hsize & Hpos & Ho & He & Hb & _ & Hs). unfold getPaddingAfter. rewrite Hx. cbn.
  rewrite Hsize. cbn. assert ((i =? length fields - 1)%nat = false) as ->.
  { apply Nat.eqb_neq. apply lookup_lt_Some in Hy. lia. }
  rewrite Hy. cbn. change (sf_Offset x + ir_size x) with (ir_end x). pose proof Py as (_ & Hpos' & Ho' & He' & Hb' & Hn' & _).
  rewrite byte_up_after by done. destruct Hadj as [(Hend & Hbit & Hgap)|(Bx & By & Hoff & Hbit)].
  - destruct (Z.leb_spec (sf_Offset y - ir_end x) 0) as [Hle|Hgt]; (eexists; split; [reflexivity|]); cbv zeta.
    + assert (sf_Offset y = ir_end x) as Heq by lia. cbn.
      assert (ir_start y = 8 * ir_end x) as -> by (unfold ir_start; lia).
      destruct (ir_bool y); [|by apply byte_up_after]. destruct (Hgap eq_refl) as [_ H7]. unfold after_field.
      destruct (ir_bool x); [|done]. unfold ir_start, ir_end. rewrite (H7 eq_refl), (Hs eq_refl). lia.
    + unfold ir_end in He' at 1. rewrite u32_small by (unfold ir_end in *; lia).
      rewrite (proj2 (Z.ltb_lt _ _)) by lia.
      replace (8 * ir_end x + 8 * (sf_Offset y - ir_end x)) with (8 * sf_Offset y) by lia.
      unfold ir_start. rewrite Hbit, Z.add_0_r. destruct (ir_bool y); [done|apply byte_up_bytes].
  - unfold ir_end. rewrite (Hs Bx), Hoff. rewrite (proj2 (Z.leb_le _ _)) by lia. eexists. split; [reflexivity|].
    cbv zeta. rewrite By. cbn. unfold after_field. rewrite Bx. unfold ir_start. rewrite Hoff, Hbit. lia.
Qed.
Lemma padding_last fields i x :
  fields !! i = Some x -> length fields = S i -> ir_placed x -> ir_end x + 8 < 2 ^ 32 ->
  exists padding, getPaddingAfter graph fields i = Some padding /\
    byte_up (if 0 <? padding then byte_up (after_field x) + 8 * padding else after_field x)
      = 8 * (8 * ((ir_end x + 7) / 8)).
Proof.
  intros Hx Hlen Px Hmax. pose proof Px as (Hsize & Hpos & Ho & He & Hb & _ & Hs). unfold getPaddingAfter.
  rewrite Hx. cbn. rewrite Hsize. cbn. assert ((i =? length fields - 1)%nat = true) as -> by (apply Nat.eqb_eq; lia).
  change (sf_Offset x + ir_size x) with (ir_end x). eexists. split; [reflexivity|]. rewrite u32_small by (unfold ir_end in *; lia).
  assert (Z.land (ir_end x) 7 = ir_end x mod 8) as -> by exact (Z.land_ones (ir_end x) 3 ltac:(lia)).
  rewrite byte_up_after by done. set (e := ir_end x) in *.
  assert (0 <= e) by (unfold e, ir_end; lia). pose proof (Z.div_mod e 8 ltac:(lia)) as Hdm.
  pose proof (Z.mod_pos_bound e 8 ltac:(lia)) as Hm.
  destruct (Z.eqb_spec (e mod 8) 0) as [H0|Hne].
  - cbn. rewrite byte_up_after by done. change (ir_end x) with e.
    replace ((e + 7) / 8) with (e / 8); [lia|]. apply Z.div_unique with 7; lia.
  - rewrite u32_small by lia. rewrite (proj2 (Z.ltb_lt _ _)) by lia.
    assert (8 * e + 8 * (8 - e mod 8) = 8 * (e + (8 - e mod 8))) as -> by lia. rewrite byte_up_bytes.
    replace ((e + 7) / 8) with (e / 8 + 1); [lia|]. apply Z.div_unique with (e mod 8 - 1); lia.
Qed.
(** The field is where rounding up to its alignment puts it. *)
Lemma round_up_start pos f a :
  byte_up pos = ir_start f -> sf_Bit f = 0 -> 0 < a -> (a | sf_Offset f) -> round_up pos (8 * a) = ir_start f.
Proof.
  unfold byte_up, ir_start, round_up. intros Hpos Hbit Ha [k Hk].
  assert ((pos + 7) / 8 = k * a) as Hq by lia. assert (8 * sf_Offset f + sf_Bit f = 8 * a * k) as -> by (rewrite Hk; lia).
  pose proof (Z.div_mod (pos + 7) 8 ltac:(lia)) as Hdm. pose proof (Z.mod_pos_bound (pos + 7) 8 ltac:(lia)).
  f_equal. symmetry. apply Z.div_unique_pos with (pos + 8 * a - 1 - 8 * (k * a)); [|ring]. rewrite Hq in Hdm. lia.
Qed.

Lemma mapM_step {A B} (g : A -> option B) x l : mapM g (x :: l) = y ← g x; k ← mapM g l; Some (y :: k).
Proof. done. Qed.
Section Compiled.
Context (c_type : string -> option (Z * Z)) (Hc : c_types graph c_type).
(** The member of a field begins at its place, and the padding fills the gap behind it. *)
Lemma field_templates_layout fields i x ts padding pos :
  fields !! i = Some x -> ir_placed x -> ir_aligned x -> well_named x ->
  field_templates graph fields i = Some ts -> getPaddingAfter graph fields i = Some padding ->
  (if ir_bool x then pos else byte_up pos) = ir_start x ->
  exists ms ps, mapM (c_member c_type) (map Text ts) = Some ms /\ c_fields ps = [(field_name x, ir_start x)] /\
    forall rest, c_layout (ms ++ rest) pos =
      let next := if 0 <? padding then byte_up (after_field x) + 8 * padding else after_field x in
      let (l, stop) := c_layout rest next in (ps ++ l, stop).
Proof.
  intros Hx Px Ax Nx Hts Hpad Hpos. unfold field_templates in Hts. rewrite Hx in Hts. cbn [mbind option_bind] in Hts.
  destruct (field_text graph x) as [text|] eqn:Htext; [|done]. rewrite Hpad in Hts. cbn [mbind option_bind] in Hts.
  injection Hts as <-. destruct (field_member graph c_type Hc x text Nx Htext) as (n & Hn & Hmember).
  assert (field_name x = n) as Hname by (unfold field_name; by rewrite Hn).
  assert (exists k, c_member c_type text = Some (n, k) /\ is_array k = false /\ place k pos = (ir_start x, after_field x))
    as (k & Hk & Ka & Hplace).
  { unfold after_field. destruct Px as (Hsize & _ & _ & _ & _ & Hbit & _).
    change (mojomTypeIsBool (sf_Type x)) with (ir_bool x) in Hmember. destruct (ir_bool x) eqn:Hb.
    - exists BitField. split_and!; [done..|]. cbn. by rewrite Hpos.
    - destruct Hmember as (size & align & Hm & Hs & Hal). exists (Plain size align). split_and!; [done..|].
      destruct (Ax Hb _ Hal) as [Ha Hdiv]. cbn. rewrite (round_up_start pos x align) by auto. f_equal.
      assert (size = ir_size x) as -> by congruence. unfold ir_start, ir_end. rewrite (Hbit eq_refl). lia. }
  destruct (0 <? padding) eqn:Hp0.
  - apply Z.ltb_lt in Hp0. pose proof (padding_member graph c_type Hc (Z.of_nat i) padding ltac:(lia) Hp0) as Hpm.
    set (pad := "pad" +:+ FormatInt (Z.of_nat i) +:+ "_[" +:+ FormatInt padding +:+ "]") in *.
    exists [(n, k); (pad, Array padding 1 1)], [(n, k, ir_start x); (pad, Array padding 1 1, byte_up (after_field x))].
    cbn [map Text]. rewrite mapM_step, Hk. cbn [mbind option_bind].
    rewrite mapM_step, Hpm. cbn [mbind option_bind mapM]. split; [reflexivity|]. split.
    + unfold c_fields. rewrite filter_cons_True by exact Ka. rewrite filter_cons_False by (cbn; discriminate). by rewrite Hname.
    + intros rest. cbn [app c_layout]. rewrite Hplace. cbn [place]. rewrite Z.mul_1_r.
      change (round_up (after_field x) 8) with (8 * ((after_field x + 8 - 1) / 8)).
      replace (after_field x + 8 - 1) with (after_field x + 7) by lia. fold (byte_up (after_field x)).
      rewrite Z.mul_1_r. cbv zeta. by destruct (c_layout rest _).
  - eexists [(n, k)], [(n, k, ir_start x)]. cbn [map Text]. rewrite mapM_step, Hk. cbn [mbind option_bind mapM].
    split; [reflexivity|]. split.
    + unfold c_fields. rewrite filter_cons_True by exact Ka. by rewrite Hname.
    + intros rest. cbn [app c_layout]. rewrite Hplace. by destruct (c_layout rest _).
Qed.
Lemma c_fields_app l l' : c_fields (l ++ l') = c_fields l ++ c_fields l'.
Proof. unfold c_fields. by rewrite filter_app, map_app. Qed.
Lemma mapM_app_Some {A B} (f : A -> option B) l l' k k' :
  mapM f l = Some k -> mapM f l' = Some k' -> mapM f (l ++ l') = Some (k ++ k').
Proof. rewrite !mapM_Some. by apply Forall2_app. Qed.
Lemma c_layout_from fields : forall rest i pos tss,
  drop i fields = rest -> rest <> [] -> Sorted ir_adjacent rest ->
  Forall (fun f => ir_placed f /\ ir_end f + 8 < 2 ^ 32) rest -> Forall (fun f => ir_aligned f /\ well_named f) rest ->
  (forall f, head rest = Some f -> (if ir_bool f then pos else byte_up pos) = ir_start f) ->
  mapM (field_templates graph fields) (seq i (length rest)) = Some tss ->
  exists ms ps stop last, mapM (c_member c_type) (map Text (concat tss)) = Some ms /\
    c_layout ms pos = (ps, stop) /\ c_fields ps = map (fun f => (field_name f, ir_start f)) rest /\
    List.last (map Some rest) None = Some last /\ byte_up stop = 8 * (8 * ((ir_end last + 7) / 8)).
Proof.
  induction rest as [|x rest IH]; intros i pos tss Hdrop Hne Hsort Hall Hnamed Hpos Htss; [done|].
  apply Forall_cons in Hall as [[Px Hx8] Hall]. apply Forall_cons in Hnamed as [[Ax Nx] Hnamed].
  assert (fields !! i = Some x) as Hx.
  { replace i with (i + 0)%nat by lia. by rewrite <- lookup_drop, Hdrop. }
  assert (drop (S i) fields = rest) as Hdrop'.
  { replace (S i) with (i + 1)%nat by lia. by rewrite <- drop_drop, Hdrop. }
  cbn [length seq] in Htss. rewrite mapM_step in Htss.
  destruct (field_templates graph fields i) as [ts|] eqn:Hts; [|done]. cbn [mbind option_bind] in Htss.
  destruct (mapM _ (seq (S i) (length rest))) as [tss'|] eqn:Htss'; [|done]. injection Htss as <-.
  cbn [concat]. rewrite map_app.
  destruct rest as [|y rest].
  - destruct (padding_last fields i x Hx) as (padding & Hpad & Hstop); [|done|done|].
    { apply (f_equal length) in Hdrop'. rewrite length_drop in Hdrop'. apply lookup_lt_Some in Hx. cbn in Hdrop'. lia. }
    destruct (field_templates_layout _ _ _ _ _ pos Hx Px Ax Nx Hts Hpad (Hpos x eq_refl)) as (ms & ps & Hms & Hps & Hlay).
    cbn in Htss'. injection Htss' as <-. cbn. specialize (Hlay []). rewrite !app_nil_r in *. cbn in Hlay.
    rewrite app_nil_r in Hlay. eauto 10.
  - apply Sorted_inv in Hsort as [Hsort Hxy%HdRel_inv]. pose proof Hall as [[Py _] _]%Forall_cons.
    assert (fields !! S i = Some y) as Hy.
    { replace (S i) with (S i + 0)%nat by lia. by rewrite <- lookup_drop, Hdrop'. }
    destruct (padding_between fields i x y Hx Hy Px Py Hxy) as (padding & Hpad & Hnext).
    destruct (field_templates_layout _ _ _ _ _ pos Hx Px Ax Nx Hts Hpad (Hpos x eq_refl)) as (ms & ps & Hms & Hps & Hlay).
    destruct (IH (S i) (if 0 <? padding then byte_up (after_field x) + 8 * padding else after_field x) tss')
      as (ms' & ps' & stop & last & Hms' & Hlay' & Hps' & Hlast & Hend); [done..|by intros f [= <-]|done|].
    exists (ms ++ ms'), (ps ++ ps'), stop, last. split; [by apply mapM_app_Some|]. split.
    { rewrite Hlay. cbv zeta. by rewrite Hlay'. }
    split; [by rewrite c_fields_app, Hps, Hps'|]. split; [exact Hlast|done].
Qed.
End Compiled.
End Layout.

(** ** From the packing list to the sorted fields of the graph *)
(** The versions only change the MinVersion of fields. *)
Definition reversioned (s s' : MojomStruct) : Prop :=
  fieldsInOrdinalOrder s' = fieldsInOrdinalOrder s /\
  forall p f, FieldsInLexicalOrder s !! p = Some f ->
    exists v, FieldsInLexicalOrder s' !! p = Some (set_minVersion v f).
Lemma reversioned_trans s1 s2 s3 : reversioned s1 s2 -> reversioned s2 s3 -> reversioned s1 s3.
Proof.
  intros [Ho1 H1] [Ho2 H2]. split; [congruence|]. intros p f (v & Hf)%H1. destruct (H2 _ _ Hf) as (v' & ->).
  by exists v'.
Qed.
Lemma reversioned_info s vs : reversioned s (set_versionInfo vs s).
Proof. split; [done|]. intros p f Hf. exists (f_minVersion f). cbn. rewrite Hf. by destruct f. Qed.
Lemma reversioned_write s q f v :
  FieldsInLexicalOrder s !! q = Some f -> reversioned s (write_field q (set_minVersion v f) s).
Proof.
  intros Hq. split; [done|]. intros p g Hp. destruct (decide (p = q)) as [->|Hne].
  - rewrite (write_field_eq _ _ _ _ Hq). exists v. congruence.
  - rewrite write_field_ne by done. exists (f_minVersion g). rewrite Hp. by destruct g.
Qed.
Lemma version_loop_reversioned l : forall i prev payload s,
  reversioned s (version_loop l i prev payload s).1.
Proof.
  assert (forall s, reversioned s s) as Hrefl.
  { intros s. split; [done|]. intros p f ->. exists (f_minVersion f). by destruct f. }
  induction l as [|[q|] l IH]; intros i prev payload s; cbn [version_loop]; [apply Hrefl| |apply Hrefl].
  unfold field_at, bind at 1, deref at 1, must at 1.
  destruct (FieldsInLexicalOrder s !! q) as [f|] eqn:Hq; [|apply Hrefl].
  unfold bind at 1, lift at 1. destruct (checkMinVersion q (f_decl f) prev) as [[v lv]|e|]; [|apply Hrefl..].
  cbn [fst]. unfold bind at 1.
  assert (forall b : bool, reversioned s ((if negb b
    then throw (mkMinVersionError q 0 (Some lv) ErrMinVersionNotNullable)
    else put_field q (set_minVersion v f) ;;;
      (if prev <? v then append_version (mkStructVersion prev (u32 i) payload) else ret tt) ;;;
      let! size := must (computePayloadSizeSoFar f) in
      version_loop l (i + 1) (if prev <? v then v else prev) (MaximumUint32 payload size)) s).1) as Hrest.
  { intros b. destruct (negb b); [apply Hrefl|]. rewrite put_field_run. unfold bind at 1.
    eapply reversioned_trans; [by apply (reversioned_write _ q f v)|].
    assert (exists vs, (if prev <? v then append_version (mkStructVersion prev (u32 i) payload) else ret tt)
              (write_field q (set_minVersion v f) s) = (vs, Ok tt) /\
              reversioned (write_field q (set_minVersion v f) s) vs) as (vs & -> & Hvs).
    { destruct (prev <? v); eexists; (split; [reflexivity|]); [apply reversioned_info|apply Hrefl]. }
    eapply reversioned_trans; [exact Hvs|]. unfold bind at 1, must at 1.
    destruct (computePayloadSizeSoFar f); [apply IH|apply Hrefl]. }
  destruct (negb (v =? 0)); [|apply (Hrest true)].
  destruct (AllowedInNonZeroStructVersion (FieldType f)) as [b|]; [apply (Hrest b)|apply Hrefl].
Qed.
Lemma computeVersionInfo_reversioned s : reversioned s (computeVersionInfo s).1.
Proof.
  unfold computeVersionInfo. rewrite bind_modify, bind_get. set (s0 := set_versionInfo [] s).
  apply (reversioned_trans _ s0); [apply reversioned_info|]. cbv zeta.
  pose proof (version_loop_reversioned (default [] (fieldsInOrdinalOrder s0)) 0 0 structHeaderSize s0) as H.
  unfold bind at 1. destruct (version_loop _ _ _ _ s0) as [s1 [r|e|]]; [|exact H..].
  eapply reversioned_trans; [exact H|]. apply reversioned_info.
Qed.

(** [f'] is what [f] is in the graph. *)
Definition translated (f : StructField) (f' : FidlStructField) : Prop :=
  translateTypeRef (FieldType f) = Some (sf_Type f') /\ sf_Offset f' = offset f /\ sf_Bit f' = bit f.
Lemma translateStructField_translated g line file f f' v :
  translateStructField g line true file (set_minVersion v f) = Some f' ->
  well_placed f -> offset f < 2 ^ 32 -> translated f f'.
Proof.
  unfold translateStructField. cbn [FieldType set_minVersion f_decl DefaultValue f_minVersion].
  destruct (translateDeclarationData _ _ _ _ _ _) as [decl|]; [|done].
  destruct (translateTypeRef (FieldType f)) as [t|] eqn:Ht; [|done]. cbn [mbind option_bind].
  destruct (match DefaultValue f with None => _ | Some v0 => _ end) as [dv|]; [|done].
  intros H (Ho & _ & Hb & _) Hmax. unfold Offset, Bit in H. cbn [offset bit set_minVersion] in H.
  rewrite !(proj2 (Z.ltb_ge _ _)) in H by lia. cbn [mbind option_bind] in H.
  destruct (MinVersion v); [|done]. cbn in H. injection H as <-.
  split; [exact Ht|]. cbn. rewrite u32_small by lia. split; [done|].
  unfold i8, u8. rewrite Z.mod_small by lia. apply signed_small; lia.
Qed.
Lemma translated_kind f f' : translated f f' -> ir_bool f' = isBoolField f.
Proof.
  intros [Ht _]. unfold ir_bool. rewrite (translated_bool _ _ Ht). unfold isBoolField.
  destruct (FieldType f) as [t| | | | |]; try done. by destruct t.
Qed.
Section Translated.
Context (graph : FidlFileGraph).

Lemma translated_placed f f' bound :
  translated f f' -> refers_to_graph graph (FieldType f) -> laid_out f -> well_placed f -> end_of f <= bound ->
  bound < 2 ^ 32 -> ir_placed graph f' /\ ir_end graph f' = end_of f.
Proof.
  intros Htr Hg (Hs & _ & Hpos & _) (Ho & _ & Hb & Hnb) He Hbound. pose proof (translated_kind _ _ Htr) as Hk.
  destruct Htr as (Ht & Hof & Hbf). pose proof (translated_size _ _ _ Ht Hg) as Hsz. rewrite Hs in Hsz.
  assert (ir_size graph f' = size_of f) as Hirs by (unfold ir_size; by rewrite Hsz).
  assert (ir_end graph f' = end_of f) as Hire by (unfold ir_end, end_of; by rewrite Hirs, Hof).
  split; [|done]. unfold ir_placed. rewrite Hire, Hk, Hirs, Hof, Hbf. split_and!; try done; try lia.
  intros Hbool. by apply bool_size.
Qed.
Lemma translated_align t t' al a :
  translateTypeRef t = Some t' -> refers_to_graph graph t -> SerializationAlignment t = Some al ->
  c_align graph t' = Some a -> 0 < a /\ (a | al).
Proof.
  assert (forall x, 0 < x -> 0 < x /\ (x | x)) as Hself by (intros x Hx; split; [done|apply Z.divide_refl]).
  destruct t as [s|s|h|n l e|n k v|r]; cbn.
  - intros [= <-] _ [= <-]. by destruct s; intros [= <-]; apply Hself.
  - intros [= <-] _ [= <-] [= <-]. by apply Hself.
  - intros [= <-] _ [= <-] [= <-]. by apply Hself.
  - destruct (translateTypeRef e); [|done]. intros [= <-] _ [= <-] [= <-]. by apply Hself.
  - destruct (translateTypeRef k), (translateTypeRef v); try done. intros [= <-] _ [= <-] [= <-]. by apply Hself.
  - unfold translateUserTypeRef, UserTypeRef_SerializationAlignment. destruct (resolvedType r) as [rt|]; [|done].
    intros [= <-] H [= <-]. cbn. unfold resolved_reference. cbn. destruct (interfaceRequest r).
    + intros [= <-]. split; [done|]. unfold udt_SerializationAlignment. by destruct (udt_Kind rt); apply (Z.mod_divide _ 4).
    + destruct (H rt eq_refl) as (u & -> & Hk). cbn. unfold udt_SerializationAlignment.
      by destruct (udt_Kind rt), u; cbn in Hk; simplify_eq/=; intros [= <-]; apply Hself.
Qed.
Lemma translated_aligned f f' :
  translated f f' -> refers_to_graph graph (FieldType f) -> laid_out f -> well_placed f -> ir_aligned graph f'.
Proof.
  intros (Ht & Ho & _) Hg (_ & Hal & _) (_ & Hdiv & _) _ a Ha. destruct (translated_align _ _ _ _ Ht Hg Hal Ha) as [Hpos Hd].
  split; [done|]. rewrite Ho. by etransitivity.
Qed.
Lemma translated_adjacent f g f' g' :
  translated f f' -> translated g g' -> ir_end graph f' = end_of f -> adjacent f g -> ir_adjacent graph f' g'.
Proof.
  intros Hf Hg He Ha. pose proof (translated_kind _ _ Hf) as Kf. pose proof (translated_kind _ _ Hg) as Kg.
  destruct Hf as (_ & Of & Bf), Hg as (_ & Og & Bg). unfold ir_adjacent. by rewrite He, Kf, Kg, Of, Og, Bf, Bg.
Qed.
End Translated.

(** The packing order is the order of the sorted fields. *)
#[export] Instance packing_le_trans : Transitive packing_le.
Proof. intros x y z. unfold packing_le. lia. Qed.
#[export] Instance packing_le_total : Total packing_le.
Proof. intros x y. unfold packing_le. lia. Qed.
Definition packing_lt (x y : FidlStructField) : Prop :=
  sf_Offset x < sf_Offset y \/ sf_Offset x = sf_Offset y /\ sf_Bit x < sf_Bit y.
#[export] Instance packing_lt_trans : Transitive packing_lt.
Proof. intros x y z. unfold packing_lt. lia. Qed.
Lemma StronglySorted_lookup {A} (R : A -> A -> Prop) l i j x y :
  StronglySorted R l -> l !! i = Some x -> l !! j = Some y -> (i < j)%nat -> R x y.
Proof.
  intros Hs. revert i j. induction Hs as [|z l _ IH Hz]; intros i j Hi Hj Hij; [done|].
  destruct j as [|j]; [lia|]. cbn in Hj. destruct i as [|i]; cbn in Hi.
  - injection Hi as ->. by eapply Forall_lookup_1.
  - apply (IH i j); [done|done|lia].
Qed.
Lemma sort_fields_unique l fs : l ≡ₚ fs -> Sorted packing_lt fs -> sort_fields l = fs.
Proof.
  intros Hp Hs. apply (Sorted_unique_strong packing_le).
  - intros x y Hx Hy Hxy Hyx. unfold sort_fields in Hx. rewrite merge_sort_Permutation, Hp in Hx.
    apply list_elem_of_lookup in Hx as [i Hi], Hy as [j Hj].
    assert (forall a b u v, fs !! a = Some u -> fs !! b = Some v -> (a < b)%nat -> packing_lt u v) as Hlt.
    { intros a b u v Ha Hb Hab. apply Sorted_StronglySorted in Hs; [|apply _].
      by apply (StronglySorted_lookup packing_lt fs a b). }
    destruct (Nat.lt_trichotomy i j) as [H|[->|H]]; [|congruence|].
    + pose proof (Hlt _ _ _ _ Hi Hj H). unfold packing_lt, packing_le in *. lia.
    + pose proof (Hlt _ _ _ _ Hj Hi H). unfold packing_lt, packing_le in *. lia.
  - unfold sort_fields. apply (Sorted_merge_sort packing_le).
  - clear Hp. induction Hs as [|x fs _ IH Hd]; constructor; [done|].
    destruct Hd as [|y fs H]; constructor. unfold packing_le, packing_lt in *. lia.
  - unfold sort_fields. by rewrite merge_sort_Permutation.
Qed.

(** ** The fields of a struct in the graph *)
Lemma mapM_omap {A B} (f : A -> option B) l k : mapM f l = Some k -> k = omap f l.
Proof. intros H%mapM_Some_1. induction H as [|x y l k Hx _ IH]; [done|]. cbn. rewrite Hx. by rewrite IH at 1. Qed.
Lemma omap_Forall2 {A B} (f : A -> option B) l k : Forall2 (fun x y => f x = Some y) l k -> omap f l = k.
Proof. induction 1 as [|x y l k Hx _ IH]; [done|]. cbn. by rewrite Hx, IH. Qed.

(** The translated fields in packing order. *)
Lemma sorted_fields g line name cont file s1 s2 st ptrs l fs bound :
  translateFidlStruct g line true name cont file s2 = Some st ->
  fieldsInOrdinalOrder s1 = Some (map Some ptrs) -> reversioned s1 s2 ->
  points_to s1 l fs -> packed bound fs -> l ≡ₚ ptrs -> bound < 2 ^ 32 ->
  exists fs', Fields st ≡ₚ fs' /\ Forall2 translated fs fs'.
Proof.
  unfold translateFidlStruct. intros Htr Ho [Ho2 Hrev] Hat [_ Hall] Hperm Hbound.
  destruct (translateDeclarationData _ _ _ _ _ _); [|done]. cbn [mbind option_bind] in Htr.
  destruct (translateContainedDeclarations _ _); [|done]. cbn [mbind option_bind] in Htr.
  unfold FieldsInOrdinalOrder in Htr. rewrite Ho2, Ho in Htr. cbn [mbind option_bind] in Htr.
  set (F := fun p => f ← field_in_order s2 p; translateStructField g line true file f) in Htr. destruct (mapM F (map Some ptrs)) as [out|] eqn:Hout; [|done]. cbn [mbind option_bind] in Htr.
  assert (Fields st = out) as ->.
  { destruct (VersionInfo s2); [|done]. cbn in Htr. by injection Htr as <-. }
  clear Htr. exists (omap F (map Some l)). pose proof (mapM_omap _ _ _ Hout) as ->. split.
  { apply omap_Permutation. by rewrite Hperm. }
  assert (forall p, p ∈ l -> is_Some (F (Some p))) as Hin.
  { intros p Hp. rewrite Hperm in Hp. apply mapM_Some_1 in Hout.
    apply (list_elem_of_fmap_2 Some) in Hp. apply list_elem_of_lookup in Hp as [i Hi].
    destruct (Forall2_lookup_l _ _ _ _ _ Hout Hi) as (y & _ & ->). eauto. }
  clear Hout Hperm Ho f. induction Hat as [|p f l fs Hp _ IH]; [constructor|].
  apply Forall_cons in Hall as [((_ & _ & Hsz & _) & Hw & He) Hall]. destruct (Hin p) as [f' Hf']; [set_solver|].
  cbn [map omap list_omap]. rewrite Hf'. constructor; [|apply IH; [done|set_solver]].
  destruct (Hrev _ _ Hp) as [v Hp2]. unfold F, field_in_order in Hf'. cbn [mbind option_bind] in Hf'.
  rewrite Hp2 in Hf'. cbn [mbind option_bind] in Hf'. eapply translateStructField_translated; [done|done|].
  unfold end_of in He. lia.
Qed.

Lemma translated_sorted graph fs fs' bound :
  Forall2 translated fs fs' -> Forall (fun f => refers_to_graph graph (FieldType f)) fs ->
  packed bound fs -> bound + 8 < 2 ^ 32 ->
  Sorted (ir_adjacent graph) fs' /\ Forall (fun f => ir_placed graph f /\ ir_end graph f + 8 < 2 ^ 32) fs'.
Proof.
  intros Htr Hg [Hs Hall] Hb. induction Htr as [|f f' fs fs' Hf Htr IH]; [by split|].
  apply Forall_cons in Hg as [Hgf Hg], Hall as [(Hl & Hw & He) Hall]. apply Sorted_inv in Hs as [Hs Hd].
  destruct (IH Hg Hs Hall) as [IHs IHa]. destruct (translated_placed graph f f' bound) as [Hp Hfe]; try done; [lia|].
  split; [|constructor; [split; [done|lia]|done]]. constructor; [done|].
  destruct Htr as [|g g' fs fs' Hgt Htr]; constructor. apply HdRel_inv in Hd.
  by apply (translated_adjacent graph f g).
Qed.
Lemma translated_all_aligned graph fs fs' bound :
  Forall2 translated fs fs' -> Forall (fun f => refers_to_graph graph (FieldType f)) fs -> packed bound fs ->
  Forall (ir_aligned graph) fs'.
Proof.
  intros Htr Hg [_ Hall]. induction Htr as [|f f' fs fs' Hf Htr IH]; [done|].
  apply Forall_cons in Hg as [Hgf Hg], Hall as [(Hl & Hw & _) Hall].
  constructor; [by eapply translated_aligned|by apply IH].
Qed.
Lemma ir_adjacent_lt graph x y : ir_placed graph x -> ir_adjacent graph x y -> packing_lt x y.
Proof. unfold ir_adjacent, ir_placed, packing_lt, ir_end. intros Hx Hxy. lia. Qed.
Lemma sorted_packing graph fs :
  Sorted (ir_adjacent graph) fs -> Forall (fun f => ir_placed graph f /\ ir_end graph f + 8 < 2 ^ 32) fs ->
  Sorted packing_lt fs.
Proof.
  induction 1 as [|x fs _ IH Hd]; intros [[Hx _] Hall]%Forall_cons || intros Hall; constructor; [by apply IH|].
  destruct Hd as [|y fs H]; constructor. by eapply ir_adjacent_lt.
Qed.

Lemma ir_end_last graph fs last :
  Sorted (ir_adjacent graph) fs -> Forall (fun f => ir_placed graph f /\ ir_end graph f + 8 < 2 ^ 32) fs ->
  List.last (map Some fs) None = Some last ->
  foldr Z.max 0 (map (ir_end graph) fs) = ir_end graph last.
Proof.
  induction 1 as [|x fs Hs IH Hd]; [done|]. intros [[Hx _] Hall]%Forall_cons Hlast.
  destruct Hd as [|y fs Hxy].
  - cbn in Hlast. injection Hlast as <-. cbn. unfold ir_end. destruct Hx as (_ & ? & ? & _). lia.
  - specialize (IH Hall Hlast). apply Forall_cons in Hall as [[Hy _] _].
    assert (ir_end graph x <= ir_end graph y) as Hle.
    { destruct Hx as (_ & ? & ? & _ & _ & _ & Bx), Hy as (_ & ? & ? & _ & _ & _ & By). unfold ir_end in *.
      destruct Hxy as [(? & _)|(Hbx & Hby & ? & _)]; [unfold ir_end in *; lia|]. rewrite (Bx Hbx), (By Hby). lia. }
    rewrite <- IH. cbn. lia.
Qed.
Lemma packed_refers graph s s1 ptrs l fs :
  repacked s s1 -> fields_laid_out s ptrs -> points_to s1 l fs -> l ≡ₚ ptrs ->
  (forall p f, FieldsInLexicalOrder s !! p = Some f -> refers_to_graph graph (FieldType f)) ->
  Forall (fun f => refers_to_graph graph (FieldType f)) fs.
Proof.
  intros [_ Hsame] Hl Hat Hperm Hg. rewrite Forall_forall. intros f [i Hi]%list_elem_of_lookup.
  destruct (Forall2_lookup_r _ _ _ _ _ Hat Hi) as (p & Hp & Hf).
  assert (p ∈ ptrs) as Hin by (rewrite <- Hperm; by eapply list_elem_of_lookup_2).
  unfold fields_laid_out in Hl. rewrite Forall_forall in Hl. destruct (Hl p Hin) as (f0 & Hf0 & _).
  destruct (Hsame _ _ Hf0) as (f1 & Hf1 & (o & b & Heq)). rewrite Hf in Hf1. injection Hf1 as ->.
  rewrite Heq. exact (Hg _ _ Hf0).
Qed.

(** C12: the structs of the generated C header have the layout of the wire. When the front end has packed a struct and translated it, and the C generator makes a template of it, a C compiler that knows the sizes and the alignments of the types the header uses reads the texts of the template as members and lays them out: every member that is not padding has the name of a field, in packing order, and begins at the byte and the bit that the packing has computed, where the encoders of the other languages write it, and the struct, its padding included, ends at a multiple of 8 bytes: at the first one after the end of the last field. *)
Theorem c_struct_layout graph c_type FormatFloat fuel g line name cont file s ptrs s' st t :
  fieldsInOrdinalOrder s = Some (map Some ptrs) -> NoDup ptrs -> fields_laid_out s ptrs ->
  24 * len ptrs + 8 < 2 ^ 32 ->
  (forall p f, FieldsInLexicalOrder s !! p = Some f -> refers_to_graph graph (FieldType f)) ->
  Struct_ComputeFinalData s = (s', Ok tt) ->
  translateFidlStruct g line true name cont file s' = Some st ->
  c_types graph c_type -> Forall well_named (Fields st) ->
  NewStructTemplate FormatFloat graph fuel st = Some t ->
  let fields := sort_fields (Fields st) in
  exists members stop, c_struct c_type t = Some (members, stop) /\
    c_fields members = map (fun f => (field_name f, 8 * sf_Offset f + sf_Bit f)) fields /\
    byte_up stop = 64 * ((foldr Z.max 0 (map (ir_end graph) fields) + 7) / 8).
Proof.
  intros Ho Hnd Hl Hb Hg Hfinal Htr Hc Hnames Ht.
  destruct (computeFieldOffsets_packed s ptrs Ho Hnd Hl ltac:(lia))
    as (s1 & l & fs & Hrun & Hrep & Hat & Hpack & Hperm & _ & Hfirst).
  unfold Struct_ComputeFinalData in Hfinal. rewrite (bind_run_ok _ _ _ _ _ Hrun) in Hfinal.
  pose proof (computeVersionInfo_reversioned s1) as Hrev. rewrite Hfinal in Hrev. cbn [fst] in Hrev.
  assert (fieldsInOrdinalOrder s1 = Some (map Some ptrs)) as Ho1 by (by rewrite (proj1 Hrep)).
  destruct (sorted_fields _ _ _ _ _ _ _ _ _ _ _ _ Htr Ho1 Hrev Hat Hpack Hperm ltac:(lia)) as (fs' & Hp & Htrs).
  pose proof (packed_refers _ _ _ _ _ _ Hrep Hl Hat Hperm Hg) as Hgs.
  destruct (translated_sorted graph fs fs' _ Htrs Hgs Hpack ltac:(lia)) as [Hsort Hall].
  pose proof (translated_all_aligned graph fs fs' _ Htrs Hgs Hpack) as Haligned.
  intros fields. assert (fields = fs') as Hfs by (by apply sort_fields_unique, (sorted_packing graph)).
  unfold NewStructTemplate in Ht. fold fields in Ht. rewrite Hfs in *. rewrite Hp in Hnames.
  destruct (mapM (field_templates graph fs') (seq 0 (length fs'))) as [tss|] eqn:Htss; [|done]. cbn [mbind option_bind] in Ht.
  assert (cs_Fields t = concat tss) as Hfields.
  { repeat (apply bind_Some in Ht as (? & _ & Ht)). by injection Ht as <-. }
  unfold c_struct. rewrite Hfields. destruct fs' as [|x fs'].
  { injection Htss as <-. by exists [], 0. }
  destruct (c_layout_from graph c_type Hc (x :: fs') (x :: fs') 0 0 tss)
    as (ms & ps & stop & last & Hms & Hlay & Hps & Hlast & Hstop); try done.
  { apply Forall_and. by split. }
  { intros f [= <-]. unfold ir_start. inversion Htrs as [|f0 x' fs0 fs0' (_ & Hox & Hbx)]; subst.
    destruct (Hfirst f0 eq_refl) as [Ho0 Hb0]. rewrite Hox, Hbx, Ho0, Hb0. by destruct (ir_bool x). }
  rewrite Hms. cbn [mbind option_bind]. rewrite Hlay. exists ps, stop. split; [done|]. split; [exact Hps|].
  rewrite Hstop, (ir_end_last _ _ _ Hsort Hall Hlast). lia.
Qed.

Definition an_empty_graph : FidlFileGraph := mkFidlFileGraph ∅ ∅ ∅.
Definition a_c_type (type : string) : option (Z * Z) :=
  (list_to_map [("int8_t", (1, 1)); ("int16_t", (2, 2)); ("int32_t", (4, 4)); ("int64_t", (8, 8));
    ("uint8_t", (1, 1)); ("uint16_t", (2, 2)); ("uint32_t", (4, 4)); ("uint64_t", (8, 8));
    ("float", (4, 4)); ("double", (8, 8)); ("MojoHandle", (4, 4)); ("struct MojomInterfaceData", (8, 4));
    ("union MojomArrayHeaderPtr", (8, 8)); ("union MojomMapHeaderPtr", (8, 8));
    ("union MojomStringHeaderPtr", (8, 8))] : gmap string (Z * Z)) !! type.
Lemma a_c_types : c_types an_empty_graph a_c_type.
Proof.
  split; try done; intros n Hn; repeat apply elem_of_cons in Hn as [->|Hn]; try done; by apply elem_of_nil in Hn.
Qed.
Lemma c_struct_layout_witness :
  let types := map TRSimple [SimpleTypeBool; SimpleTypeInt32; SimpleTypeBool; SimpleTypeInt8; SimpleTypeInt64; SimpleTypeUInt16] in
  let s := a_packed_struct types (replicate 6 None) in
  exists st t members stop,
    translateFidlStruct (read_program empty_heap) true true "S" None "f.fidl" (Struct_ComputeFinalData s).1 = Some st /\
    NewStructTemplate (fun _ _ => "") an_empty_graph 1 st = Some t /\
    c_struct a_c_type t = Some (members, stop) /\ map snd (c_fields members) = [0; 1; 8; 16; 32; 64] /\ byte_up stop = 64 * 2.
Proof.
  intros types s.
  destruct (translateFidlStruct (read_program empty_heap) true true "S" None "f.fidl" (Struct_ComputeFinalData s).1) as [st|] eqn:Hst;
    [|by vm_compute in Hst].
  destruct (NewStructTemplate (fun _ _ => "") an_empty_graph 1 st) as [t|] eqn:Ht;
    [|by vm_compute in Hst; injection Hst as <-; vm_compute in Ht].
  destruct (c_struct_layout an_empty_graph a_c_type (fun _ _ => "") 1 (read_program empty_heap) true "S" None "f.fidl" s (seq 0 6)
              (Struct_ComputeFinalData s).1 st t) as (members & stop & Hm & Hf & Hstop); [| | | | | |exact Hst|apply a_c_types| |exact Ht|].
  - reflexivity.
  - by apply NoDup_seq.
  - repeat constructor; (eexists; split; [reflexivity|by apply laid_out_valid]).
  - reflexivity.
  - intros p f Hp. do 6 (destruct p as [|p]; [by injection Hp as <-|]). done.
  - vm_compute. reflexivity.
  - vm_compute in Hst. injection Hst as <-. repeat constructor; intros n [= <-]; by vm_compute.
  - exists st, t, members, stop. split; [done|]. split; [done|]. split; [done|]. rewrite Hf.
    vm_compute in Hst. injection Hst as <-. split; [by vm_compute|exact Hstop].
Defined.
