(* ===== verification/CTypeTable.v ===== *)
(** * The type descriptors of the C generator: generators/c/cgen/type_table.go

    The methods build up a [TypeTableTemplate]: tables for the structs and
    unions of a file, and for the arrays and maps that are nested in the types
    of their fields, which refer to each other by name.  log.Fatal is a panic. *)
From S2P Require Export CGen.

Record StructPointerTableEntry := mkStructPointerTableEntry {
  se_ElemTable : string;
  se_Offset : Z;
  se_MinVersion : Z;
  se_ElemType : string;
  se_Nullable : bool
}.
Record UnionPointerTableEntry := mkUnionPointerTableEntry {
  ue_ElemTable : string;
  ue_Tag : Z;
  ue_Nullable : bool;
  ue_ElemType : string
}.
Record ArrayPointerTableEntry := mkArrayPointerTableEntry {
  ar_Name : string;
  ar_ElemTable : string;
  NumElements : Z;
  ar_Nullable : bool;
  ar_ElemType : string;
  ElemNumBits : Z
}.
Record CStructVersion := mkCStructVersion { cv_Version : Z; cv_NumBytes : Z }.
Definition version_le (v v' : CStructVersion) : Prop := cv_Version v <= cv_Version v'.
#[export] Instance version_le_dec : RelDecision version_le.
Proof. intros v v'. unfold version_le. solve_decision. Defined.
Record StructPointerTable := mkStructPointerTable {
  sp_Name : string;
  Versions : list CStructVersion;
  sp_Entries : list StructPointerTableEntry
}.
Record UnionPointerTable := mkUnionPointerTable {
  up_Name : string;
  up_Entries : list UnionPointerTableEntry;
  up_NumFields : Z
}.
Record TypeTableTemplate := mkTypeTableTemplate {
  tt_Structs : list StructPointerTable;
  tt_Unions : list UnionPointerTable;
  Arrays : list ArrayPointerTableEntry;
  PublicUnionNames : list string;
  PublicStructNames : list string;
  counter : Z
}.
Definition empty_table : TypeTableTemplate := mkTypeTableTemplate [] [] [] [] [] 0.
Definition add_array (a : ArrayPointerTableEntry) (t : TypeTableTemplate) : TypeTableTemplate :=
  mkTypeTableTemplate (tt_Structs t) (tt_Unions t) (Arrays t ++ [a]) (PublicUnionNames t)
    (PublicStructNames t) (counter t).
Definition add_struct_table (s : StructPointerTable) (t : TypeTableTemplate) : TypeTableTemplate :=
  mkTypeTableTemplate (tt_Structs t ++ [s]) (tt_Unions t) (Arrays t) (PublicUnionNames t)
    (PublicStructNames t) (counter t).
Definition add_union_table (u : UnionPointerTable) (t : TypeTableTemplate) : TypeTableTemplate :=
  mkTypeTableTemplate (tt_Structs t) (tt_Unions t ++ [u]) (Arrays t) (PublicUnionNames t)
    (PublicStructNames t) (counter t).
Definition add_public_struct (n : string) (t : TypeTableTemplate) : TypeTableTemplate :=
  mkTypeTableTemplate (tt_Structs t) (tt_Unions t) (Arrays t) (PublicUnionNames t)
    (PublicStructNames t ++ [n]) (counter t).
Definition add_public_union (n : string) (t : TypeTableTemplate) : TypeTableTemplate :=
  mkTypeTableTemplate (tt_Structs t) (tt_Unions t) (Arrays t) (PublicUnionNames t ++ [n])
    (PublicStructNames t) (counter t).
Definition count (t : TypeTableTemplate) : TypeTableTemplate :=
  mkTypeTableTemplate (tt_Structs t) (tt_Unions t) (Arrays t) (PublicUnionNames t)
    (PublicStructNames t) (u32 (counter t + 1)).

Inductive GeneratorError : Type :=.
#[local] Abbreviation TM := (M TypeTableTemplate GeneratorError).

Definition desc (name : string) : string := name +:+ "__TypeDesc".
(** A reference to a table, or none. *)
Definition pointer (name : string) : string := "&" +:+ name.
Definition POD : string := "MOJOM_TYPE_DESCRIPTOR_TYPE_POD".
Definition HANDLE : string := "MOJOM_TYPE_DESCRIPTOR_TYPE_HANDLE".
Definition ARRAY_PTR : string := "MOJOM_TYPE_DESCRIPTOR_TYPE_ARRAY_PTR".
Definition MAP_PTR : string := "MOJOM_TYPE_DESCRIPTOR_TYPE_MAP_PTR".
Definition STRUCT_PTR : string := "MOJOM_TYPE_DESCRIPTOR_TYPE_STRUCT_PTR".
Definition UNION : string := "MOJOM_TYPE_DESCRIPTOR_TYPE_UNION".
Definition UNION_PTR : string := "MOJOM_TYPE_DESCRIPTOR_TYPE_UNION_PTR".
Definition INTERFACE : string := "MOJOM_TYPE_DESCRIPTOR_TYPE_INTERFACE".
Definition string_desc : string := "g_mojom_string_type_description".

(** The element table, the element type and whether it is nullable. *)
Record Elem := mkElem { elemTable : string; elemType : string; elemNullable : bool }.

Section TypeTable.
Context (fileGraph : FidlFileGraph).

Definition getTableForUDT (r : TypeReference) : TM Elem :=
  if IsInterfaceRequest r then ret (mkElem "NULL" HANDLE (tr_Nullable r))
  else
    let! udt := must (resolved_reference fileGraph r) in
    match udt with
    | Some (UserDefinedTypeStructType s) =>
      let! name := must (decl_name FullIdentifier (st_DeclData s)) in
      ret (mkElem (pointer (desc (mojomToCName name))) STRUCT_PTR (tr_Nullable r))
    | Some (UserDefinedTypeUnionType u) =>
      let! name := must (decl_name FullIdentifier (fu_DeclData u)) in
      ret (mkElem (pointer (desc (mojomToCName name))) UNION (tr_Nullable r))
    | Some (UserDefinedTypeInterfaceType _) => ret (mkElem "NULL" INTERFACE (tr_Nullable r))
    | _ => ret (mkElem "NULL" POD (tr_Nullable r))
    end.

(** makeArrayPointerEntry, given the call of makeTableForType for the elements;
    the nullability of the array itself is overwritten. *)
Definition makeArrayPointerEntry (prefix : string) (fixedLength : Z) (elementType : FidlType) (element : TM Elem)
    : TM string :=
  let numElements := if 0 <? fixedLength then u32 fixedLength else 0 in
  let! bits := must (mojomTypeBitSize fileGraph elementType) in
  let! e := element in
  modify (add_array (mkArrayPointerTableEntry (desc prefix) (elemTable e) numElements (elemNullable e)
                       (elemType e) bits)) ;;;
  ret (desc prefix).
Definition map_entries (keyArray valueArray : string) : list StructPointerTableEntry :=
  [mkStructPointerTableEntry (pointer keyArray) 0 0 ARRAY_PTR false;
   mkStructPointerTableEntry (pointer valueArray) 8 0 ARRAY_PTR false].
Definition makeMapPointerTable (prefix : string) (keys values : string -> TM string) : TM string :=
  let! keyArray := keys (prefix +:+ "_Keys") in
  let! valueArray := values (prefix +:+ "_Values") in
  modify (add_struct_table (mkStructPointerTable (desc prefix) [mkCStructVersion 0 24]
                              (map_entries keyArray valueArray))) ;;;
  ret (desc prefix).
(** A name that no other nested table has. *)
Definition counted_name (prefix : string) : TM string :=
  let! t := get in
  modify count ;;;
  ret (prefix +:+ "_" +:+ FormatInt (counter t)).
Fixpoint makeTableForType (prefix : string) (t : FidlType) : TM Elem :=
  match t with
  | TypeStringType n => ret (mkElem (pointer string_desc) ARRAY_PTR n)
  | TypeArrayType n l e =>
    let! name := counted_name prefix in
    let! entry := makeArrayPointerEntry name l e (makeTableForType name e) in
    ret (mkElem (pointer entry) ARRAY_PTR n)
  | TypeMapType n k v =>
    let! name := counted_name prefix in
    let! table := makeMapPointerTable name
      (fun prefix => makeArrayPointerEntry prefix (-1) k (makeTableForType prefix k))
      (fun prefix => makeArrayPointerEntry prefix (-1) v (makeTableForType prefix v)) in
    ret (mkElem (pointer table) MAP_PTR n)
  | TypeHandleType n _ => ret (mkElem "NULL" HANDLE n)
  | TypeTypeReference r => getTableForUDT r
  | TypeSimpleType _ => ret (mkElem "NULL" POD false)
  | TypeUnknown _ => panic
  end.

Definition isPointerOrHandle (t : FidlType) : option bool :=
  match t with
  | TypeStringType _ | TypeArrayType _ _ _ | TypeMapType _ _ _ | TypeHandleType _ _ => Some true
  | TypeTypeReference r =>
    udt ← resolved_reference fileGraph r;
    udt ← udt;
    Some (match udt with UserDefinedTypeEnumType _ | UserDefinedTypeUnknown _ => false | _ => true end)
  | TypeSimpleType _ | TypeUnknown _ => Some false
  end.
Definition makeStructPointerTableEntry (prefix : string) (offset minVersion : Z) (t : FidlType)
    : TM StructPointerTableEntry :=
  let! e := makeTableForType (prefix +:+ "_" +:+ FormatInt offset) t in
  ret (mkStructPointerTableEntry (elemTable e) offset minVersion (elemType e) (elemNullable e)).
Fixpoint struct_entries (prefix : string) (fields : list FidlStructField) : TM (list StructPointerTableEntry) :=
  match fields with
  | [] => ret []
  | f :: fields =>
    let! pointer_or_handle := must (isPointerOrHandle (sf_Type f)) in
    if pointer_or_handle : bool then
      let! e := makeStructPointerTableEntry prefix (u32 (sf_Offset f)) (sf_MinVersion f) (sf_Type f) in
      let! rest := struct_entries prefix fields in
      ret (e :: rest)
    else struct_entries prefix fields
  end.
Definition table_versions (s : FidlStruct) : list CStructVersion :=
  merge_sort version_le
    (map (fun v => mkCStructVersion (sv_VersionNumber v) (sv_NumBytes v)) (default [] (st_VersionInfo s))).
Definition insertStructPointerTable (s : FidlStruct) : TM unit :=
  let! name := must (decl_name FullIdentifier (st_DeclData s)) in
  let prefix := mojomToCName name in
  let! entries := struct_entries prefix (Fields s) in
  modify (add_public_struct (desc prefix)) ;;;
  modify (add_struct_table (mkStructPointerTable (desc prefix) (table_versions s) entries)).

Definition makeUnionPointerTableEntry (prefix : string) (tag : Z) (t : FidlType) : TM UnionPointerTableEntry :=
  let! e := makeTableForType (prefix +:+ "_" +:+ FormatInt tag) t in
  let elemType := if bool_decide (elemType e = UNION) then UNION_PTR else elemType e in
  ret (mkUnionPointerTableEntry (elemTable e) tag (elemNullable e) elemType).
Fixpoint union_entries (prefix : string) (fields : list FidlUnionField) : TM (list UnionPointerTableEntry) :=
  match fields with
  | [] => ret []
  | f :: fields =>
    let! pointer_or_handle := must (isPointerOrHandle (uf_Type f)) in
    if pointer_or_handle : bool then
      let! e := makeUnionPointerTableEntry prefix (u32 (uf_Tag f)) (uf_Type f) in
      let! rest := union_entries prefix fields in
      ret (e :: rest)
    else union_entries prefix fields
  end.
Definition insertUnionPointerTable (u : FidlUnion) : TM unit :=
  let! name := must (decl_name FullIdentifier (fu_DeclData u)) in
  let prefix := mojomToCName name in
  let! entries := union_entries prefix (fu_Fields u) in
  modify (add_public_union (desc prefix)) ;;;
  modify (add_union_table (mkUnionPointerTable (desc prefix) entries (u32 (len (fu_Fields u))))).

(** The parameters of a method under the name of its message. *)
Definition set_full_identifier (name : string) (s : FidlStruct) : option FidlStruct :=
  d ← st_DeclData s;
  Some (mkFidlStruct (Some (mkFidlDeclarationData (dd_Attributes d) (ShortName d) (Some name)
    (DeclaredOrdinal d) (DeclarationOrder d) (dd_SourceFileInfo d) (dd_ContainedDeclarations d)
    (ContainerTypeKey d) (dd_Comments d))) (Fields s) (st_VersionInfo s)).
Definition insert_method (i : FidlInterface) (m : FidlMethod) : TM unit :=
  let! name := must (requestMethodToCName i (fm_Parameters m)) in
  let! params := must (set_full_identifier name (fm_Parameters m)) in
  insertStructPointerTable params ;;;
  match fm_ResponseParams m with
  | None => ret tt
  | Some s =>
    let! name := must (responseMethodToCName i s) in
    let! params := must (set_full_identifier name s) in
    insertStructPointerTable params
  end.
Fixpoint for_each {A} (f : A -> TM unit) (l : list A) : TM unit :=
  match l with [] => ret tt | x :: l => f x ;;; for_each f l end.
Definition resolved_type (key : string) : TM FidlUserDefinedType := must (ResolvedTypes fileGraph !! key).
(** [methods] gives the methods of an interface in the order of iteration. *)
Definition NewTypeTableTemplate (methods : FidlInterface -> list FidlMethod) (keys : KeysByType) : TM unit :=
  for_each (fun key => let! t := resolved_type key in
                       match t with UserDefinedTypeStructType s => insertStructPointerTable s | _ => panic end)
    (default [] (kt_Structs keys)) ;;;
  for_each (fun key => let! t := resolved_type key in
                       match t with UserDefinedTypeUnionType u => insertUnionPointerTable u | _ => panic end)
    (default [] (kt_Unions keys)) ;;;
  for_each (fun key => let! t := resolved_type key in
                       match t with
                       | UserDefinedTypeInterfaceType i => for_each (insert_method i) (methods i)
                       | _ => panic
                       end)
    (default [] (kt_Interfaces keys)).
End TypeTable.

(** ** A header: [NewHeaderTemplate] of header.go *)
Record HeaderTemplate := mkHeaderTemplate {
  HeaderGuard : string;
  h_Imports : list string;
  h_Constants : list CConstantTemplate;
  h_Enums : list CEnumTemplate;
  h_Structs : list CStructTemplate;
  h_Unions : list CUnionTemplate;
  h_Interfaces : list CInterfaceTemplate;
  TypeTable : TypeTableTemplate
}.
(** [NewStructTemplate] sorts the fields in place: the slice is shared with the
    graph, so that the type tables, which come last, have the sorted fields. *)
Definition sort_struct (s : FidlStruct) : FidlStruct :=
  mkFidlStruct (st_DeclData s) (sort_fields (Fields s)) (st_VersionInfo s).
Definition sort_method (m : FidlMethod) : FidlMethod :=
  mkFidlMethod (fm_DeclData m) (sort_struct (fm_Parameters m)) (sort_struct <$> fm_ResponseParams m)
    (fm_Ordinal m) (fm_MinVersion m).
Definition sort_key (t : FidlUserDefinedType) : FidlUserDefinedType :=
  match t with
  | UserDefinedTypeStructType s => UserDefinedTypeStructType (sort_struct s)
  | _ => t
  end.
Definition sort_graph (keys : list string) (g : FidlFileGraph) : FidlFileGraph :=
  mkFidlFileGraph (Files g)
    (map_imap (fun key t => Some (if bool_decide (key ∈ keys) then sort_key t else t)) (ResolvedTypes g))
    (ResolvedConstants g).

Section Header.
Context (FormatFloat : spec_float -> Z -> string) (ToUpper : string -> string).
Context (filepath_Rel : string -> string -> option string) (fileGraph : FidlFileGraph).
(** The methods of an interface in the orders of the two iterations. *)
Context (methods methods' : FidlInterface -> list FidlMethod).

Definition header_type (key : string) : option FidlUserDefinedType := ResolvedTypes fileGraph !! key.
Definition type_table (keys : KeysByType) : option TypeTableTemplate :=
  match NewTypeTableTemplate (sort_graph (default [] (kt_Structs keys)) fileGraph)
          (fun i => map sort_method (methods' i)) keys empty_table with
  | (table, Ok _) => Some table
  | _ => None
  end.
Definition NewHeaderTemplate (fuel : nat) (srcRootPath : string) (f : FidlFile) : option HeaderTemplate :=
  let keys := DeclaredFidlObjects f in
  relGenPath ← filepath_Rel srcRootPath (ff_FileName f);
  imports ← mapM (mojomToCFilePath filepath_Rel srcRootPath) (default [] (ff_Imports f));
  constants ← mapM (fun key => c ← ResolvedConstants fileGraph !! key;
                               NewConstantTemplate FormatFloat fileGraph fuel c)
                (default [] (TopLevelConstants keys));
  enums ← mapM (fun key => t ← header_type key;
                  match t with UserDefinedTypeEnumType e => NewEnumTemplate e | _ => None end)
            (default [] (TopLevelEnums keys));
  unions ← mapM (fun key => t ← header_type key;
                  match t with UserDefinedTypeUnionType u => NewUnionTemplate fileGraph u | _ => None end)
             (default [] (kt_Unions keys));
  structs ← mapM (fun key => t ← header_type key;
                   match t with
                   | UserDefinedTypeStructType s => NewStructTemplate FormatFloat fileGraph fuel s
                   | _ => None
                   end)
              (default [] (kt_Structs keys));
  interfaces ← mapM (fun key => t ← header_type key;
                      match t with
                      | UserDefinedTypeInterfaceType i =>
                        NewInterfaceTemplate FormatFloat fileGraph fuel i (methods i)
                      | _ => None
                      end)
                 (default [] (kt_Interfaces keys));
  table ← type_table keys;
  Some (mkHeaderTemplate (toHeaderGuard ToUpper relGenPath) imports constants enums structs unions interfaces table).
End Header.
