(* ===== verification/Names.v ===== *)
(** * Names in the style of the target language:
      generators/go/translator/names.go and generators/rust/rustgen/names.go

    The names of a fidl file are ASCII, so that runes are characters here. *)
From Stdlib Require Export Ascii.
From S2P Require Export Prelude.

Definition in_range (lo hi : ascii) (c : ascii) : bool :=
  (N_of_ascii lo <=? N_of_ascii c)%N && (N_of_ascii c <=? N_of_ascii hi)%N.
Definition IsUpper : ascii -> bool := in_range "A" "Z".
Definition IsLower : ascii -> bool := in_range "a" "z".
Definition IsDigit : ascii -> bool := in_range "0" "9".
Definition to_lower (c : ascii) : ascii := if IsUpper c then ascii_of_N (N_of_ascii c + 32) else c.
Definition to_upper (c : ascii) : ascii := if IsLower c then ascii_of_N (N_of_ascii c - 32) else c.
Fixpoint map_string (f : ascii -> ascii) (s : string) : string :=
  match s with EmptyString => "" | String c s => String (f c) (map_string f s) end.
Definition ToLower : string -> string := map_string to_lower.
Definition ToUpper : string -> string := map_string to_upper.
(** [strings.Title] of a name without separators. *)
Definition Title (s : string) : string :=
  match s with EmptyString => "" | String c s => String (to_upper c) s end.

(** [strings.Split(s, sep)] for one character, and [strings.Join]. *)
Fixpoint split_char (sep : ascii) (s : string) : list string :=
  match s with
  | EmptyString => [""]
  | String c s =>
    if Ascii.eqb c sep then "" :: split_char sep s
    else match split_char sep s with
         | x :: r => String c x :: r
         | [] => [String c ""]
         end
  end.
Fixpoint join_with (sep : string) (l : list string) : string :=
  match l with
  | [] => ""
  | [x] => x
  | x :: r => x +:+ sep +:+ join_with sep r
  end.

Definition slice (s : string) (from to : nat) : string := String.substring from (to - from) s.
(** The loop over the runes of one part of a name, [rest] from index [i] on:
    the parts it appends, and the start of the last one. *)
Fixpoint part_loop (namePart rest : string) (i partStart lastRuneStart : nat) (lastRune : ascii)
    : list string * nat :=
  match rest with
  | EmptyString => ([], partStart)
  | String curRune rest =>
    if (i =? 0)%nat then part_loop namePart rest 1 partStart lastRuneStart lastRune
    else
      let up := IsUpper curRune && negb (IsUpper lastRune) in
      let parts := if up then [slice namePart partStart i] else [] in
      let partStart := if up then i else partStart in
      let down := negb (IsUpper curRune || IsDigit curRune) && IsUpper lastRune
                  && negb (partStart =? lastRuneStart)%nat in
      let parts := parts ++ (if down then [slice namePart partStart lastRuneStart] else []) in
      let partStart := if down then lastRuneStart else partStart in
      let r := part_loop namePart rest (S i) partStart i curRune in
      (parts ++ r.1, r.2)
  end.
(** [first] is what the loop takes for the rune before the second one. *)
Definition parts_of (first : ascii) (namePart : string) : list string :=
  let r := part_loop namePart namePart 0 0 0 first in
  r.1 ++ [slice namePart r.2 (String.length namePart)].
(** The first rune; an empty string has a replacement rune, which is not upper case. *)
Definition first_rune (s : string) : ascii := match s with EmptyString => "000" | String c _ => c end.

(** ** Go *)
Definition formatName (name : string) : string :=
  let parts := concat (map (parts_of (first_rune name)) (split_char "_" name)) in
  join_with "" (map (fun p => Title (ToLower p)) parts).
Definition privateName (name : string) : string :=
  match name with EmptyString => "" | String c name => String (to_lower c) name end.

(** ** Rust *)
Definition nameParts (name : string) : list string :=
  concat (map (fun p => parts_of (first_rune p) p) (split_char "_" name)).
Definition formatMethodName (name : string) : string := join_with "_" (map ToLower (nameParts name)).
Definition formatEnumValue (name : string) : string :=
  join_with "" (map (fun p => let t := Title (ToLower p) in if bool_decide (t = "") then "_" else t) (nameParts name)).
Definition formatConstName (name : string) : string :=
  let name :=
    match name with
    | String c (String c' _ as rest) => if Ascii.eqb c "k" && IsUpper c' then rest else name
    | _ => name
    end in
  join_with "_" (map ToUpper (nameParts name)).
Definition ident (name : string) : string := name.

Example formatName_1 : formatName "fooBar_bazURLParser2x" = "FooBarBazUrlParser2x". Proof. reflexivity. Qed.
Example formatMethodName_1 : formatMethodName "GetURLFor" = "get_url_for". Proof. reflexivity. Qed.
Example formatConstName_1 : formatConstName "kMaxSize" = "MAX_SIZE". Proof. reflexivity. Qed.
