(* ===== verification/GoTranslator.v ===== *)
(** * The Go generator: generators/go/translator

    The methods of the translator, which remembers the names of types and the
    packages to import, and the [EncodingInfo] of mojom_file.go, by which the
    templates generate the code that encodes and decodes a type.  A panic of
    the source is a panic here; a nil pointer is one too.  The printing of
    floats and the quoting of strings are functions of the Go library, the root
    of the sources is an option of the generator. *)
From stdpp Require Export pretty sorting.
From S2P Require Export Names Filepath CTypeTable.

Record translator := mkTranslator {
  goTypeCache : gmap string string;
  imports : gmap string string;
  currentFileName : string
}.
Definition NewTranslator : translator := mkTranslator ∅ ∅ "".
Definition add_import (name path : string) (t : translator) : translator :=
  mkTranslator (goTypeCache t) (<[name := path]> (imports t)) (currentFileName t).
Definition cache_type (key name : string) (t : translator) : translator :=
  mkTranslator (<[key := name]> (goTypeCache t)) (imports t) (currentFileName t).
#[local] Abbreviation TM := (M translator GeneratorError).

(** ** mojom_file.go: the encoding of a type *)
Record EncodingBase := mkEncodingBase { enc_identifier : string; enc_goType : string }.
(** The structs that implement [EncodingInfo]; the keys and the values of a map
    are arrays. *)
Inductive EncodingInfo : Type :=
| simpleTypeEncodingInfo (b : EncodingBase) (bitSize : Z) (writeFunction readFunction : string)
| stringTypeEncodingInfo (b : EncodingBase) (nullable : bool)
| handleTypeEncodingInfo (b : EncodingBase) (nullable : bool) (readFunction : string)
| arrayTypeEncodingInfo (b : EncodingBase) (nullable : bool) (element : EncodingInfo) (fixedSize : Z)
| mapTypeEncodingInfo (b : EncodingBase) (nullable : bool) (keys values : EncodingInfo)
| structTypeEncodingInfo (b : EncodingBase) (nullable : bool)
| unionTypeEncodingInfo (b : EncodingBase) (nullable nestedUnion : bool)
| enumTypeEncodingInfo (b : EncodingBase)
| interfaceTypeEncodingInfo (b : EncodingBase) (nullable interfaceRequest : bool).
Definition empty_base : EncodingBase := mkEncodingBase "" "".
Definition base_of (e : EncodingInfo) : EncodingBase :=
  match e with
  | simpleTypeEncodingInfo b _ _ _ | stringTypeEncodingInfo b _ | handleTypeEncodingInfo b _ _
  | arrayTypeEncodingInfo b _ _ _ | mapTypeEncodingInfo b _ _ _ | structTypeEncodingInfo b _
  | unionTypeEncodingInfo b _ _ | enumTypeEncodingInfo b | interfaceTypeEncodingInfo b _ _ => b
  end.
Definition set_base (b : EncodingBase) (e : EncodingInfo) : EncodingInfo :=
  match e with
  | simpleTypeEncodingInfo _ s w r => simpleTypeEncodingInfo b s w r
  | stringTypeEncodingInfo _ n => stringTypeEncodingInfo b n
  | handleTypeEncodingInfo _ n r => handleTypeEncodingInfo b n r
  | arrayTypeEncodingInfo _ n e l => arrayTypeEncodingInfo b n e l
  | mapTypeEncodingInfo _ n k v => mapTypeEncodingInfo b n k v
  | structTypeEncodingInfo _ n => structTypeEncodingInfo b n
  | unionTypeEncodingInfo _ n u => unionTypeEncodingInfo b n u
  | enumTypeEncodingInfo _ => enumTypeEncodingInfo b
  | interfaceTypeEncodingInfo _ n r => interfaceTypeEncodingInfo b n r
  end.
Definition Identifier (e : EncodingInfo) : string := enc_identifier (base_of e).
Definition GoType (e : EncodingInfo) : string := enc_goType (base_of e).
Definition setIdentifier (id : string) (e : EncodingInfo) : EncodingInfo :=
  set_base (mkEncodingBase id (GoType e)) e.
Definition setGoType (goType : string) (e : EncodingInfo) : EncodingInfo :=
  set_base (mkEncodingBase (Identifier e) goType) e.

Definition IsSimple (e : EncodingInfo) : bool :=
  match e with simpleTypeEncodingInfo _ _ _ _ | stringTypeEncodingInfo _ _ => true | _ => false end.
Definition IsHandle (e : EncodingInfo) : bool :=
  match e with handleTypeEncodingInfo _ _ _ => true | _ => false end.
Definition IsPointer (e : EncodingInfo) : bool :=
  match e with
  | stringTypeEncodingInfo _ _ | arrayTypeEncodingInfo _ _ _ _ | mapTypeEncodingInfo _ _ _ _
  | structTypeEncodingInfo _ _ => true
  | unionTypeEncodingInfo _ _ nestedUnion => nestedUnion
  | _ => false
  end.
Definition IsUnion (e : EncodingInfo) : bool :=
  match e with unionTypeEncodingInfo _ _ _ => true | _ => false end.
Definition IsStruct (e : EncodingInfo) : bool :=
  match e with structTypeEncodingInfo _ _ => true | _ => false end.
Definition IsEnum (e : EncodingInfo) : bool :=
  match e with enumTypeEncodingInfo _ => true | _ => false end.
Definition IsInterface (e : EncodingInfo) : bool :=
  match e with interfaceTypeEncodingInfo _ _ _ => true | _ => false end.
Definition IsInterfaceRequest_ (e : EncodingInfo) : bool :=
  match e with interfaceTypeEncodingInfo _ _ r => r | _ => false end.
Definition IsArray (e : EncodingInfo) : bool :=
  match e with arrayTypeEncodingInfo _ _ _ _ => true | _ => false end.
Definition IsMap (e : EncodingInfo) : bool :=
  match e with mapTypeEncodingInfo _ _ _ _ => true | _ => false end.
Definition ElementEncodingInfo (e : EncodingInfo) : option EncodingInfo :=
  match e with arrayTypeEncodingInfo _ _ element _ => Some element | _ => None end.
Definition KeyEncodingInfo (e : EncodingInfo) : option EncodingInfo :=
  match e with mapTypeEncodingInfo _ _ keys _ => Some keys | _ => None end.
Definition ValueEncodingInfo (e : EncodingInfo) : option EncodingInfo :=
  match e with mapTypeEncodingInfo _ _ _ values => Some values | _ => None end.
Definition IsNullable (e : EncodingInfo) : bool :=
  match e with
  | simpleTypeEncodingInfo _ _ _ _ | enumTypeEncodingInfo _ => false
  | stringTypeEncodingInfo _ n | handleTypeEncodingInfo _ n _ | arrayTypeEncodingInfo _ n _ _
  | mapTypeEncodingInfo _ n _ _ | structTypeEncodingInfo _ n | unionTypeEncodingInfo _ n _
  | interfaceTypeEncodingInfo _ n _ => n
  end.
(** Panics for what is never a pointer. *)
Definition setNullable (n : bool) (e : EncodingInfo) : option EncodingInfo :=
  match e with
  | simpleTypeEncodingInfo _ _ _ _ | enumTypeEncodingInfo _ => None
  | stringTypeEncodingInfo b _ => Some (stringTypeEncodingInfo b n)
  | handleTypeEncodingInfo b _ r => Some (handleTypeEncodingInfo b n r)
  | arrayTypeEncodingInfo b _ e l => Some (arrayTypeEncodingInfo b n e l)
  | mapTypeEncodingInfo b _ k v => Some (mapTypeEncodingInfo b n k v)
  | structTypeEncodingInfo b _ => Some (structTypeEncodingInfo b n)
  | unionTypeEncodingInfo b _ u => Some (unionTypeEncodingInfo b n u)
  | interfaceTypeEncodingInfo b _ r => Some (interfaceTypeEncodingInfo b n r)
  end.
Definition BitSize (e : EncodingInfo) : Z :=
  match e with
  | simpleTypeEncodingInfo _ s _ _ => s
  | stringTypeEncodingInfo _ _ | arrayTypeEncodingInfo _ _ _ _ | mapTypeEncodingInfo _ _ _ _
  | structTypeEncodingInfo _ _ => 64
  | handleTypeEncodingInfo _ _ _ => 32
  | unionTypeEncodingInfo _ _ nestedUnion => if nestedUnion then 64 else 128
  | enumTypeEncodingInfo _ => 32
  | interfaceTypeEncodingInfo _ _ interfaceRequest => if interfaceRequest then 32 else 64
  end.
Definition ReadFunction (e : EncodingInfo) : option string :=
  match e with
  | simpleTypeEncodingInfo _ _ _ r => Some r
  | stringTypeEncodingInfo _ _ => Some "ReadString"
  | handleTypeEncodingInfo _ _ r => Some r
  | enumTypeEncodingInfo _ => Some "ReadInt32"
  | interfaceTypeEncodingInfo _ _ r => Some (if r then "ReadChannelHandle" else "ReadInterface")
  | _ => None
  end.
Definition WriteFunction (e : EncodingInfo) : option string :=
  match e with
  | simpleTypeEncodingInfo _ _ w _ => Some w
  | stringTypeEncodingInfo _ _ => Some "WriteString"
  | interfaceTypeEncodingInfo _ _ r => Some (if r then "WriteHandle" else "WriteInterface")
  | _ => None
  end.
Definition FixedSize (e : EncodingInfo) : option Z :=
  match e with arrayTypeEncodingInfo _ _ _ l => if l <? 0 then None else Some l | _ => None end.
Definition HasFixedSize (e : EncodingInfo) : bool :=
  match e with arrayTypeEncodingInfo _ _ _ l => 0 <=? l | _ => false end.
Definition DerefIdentifier (e : EncodingInfo) : string :=
  if IsNullable e && negb (IsUnion e) then "(*" +:+ Identifier e +:+ ")" else Identifier e.
(** [goType[0]] panics on an empty string. *)
Definition BaseGoType (e : EncodingInfo) : option string :=
  match GoType e with
  | EmptyString => None
  | String c goType => Some (if Ascii.eqb c "*" then goType else String c goType)
  end.
Definition UnionDecodeFunction (e : EncodingInfo) : option string :=
  base ← BaseGoType e;
  match split_char "." base with
  | [x] => Some ("Decode" +:+ x)
  | x :: y :: _ => Some (x +:+ ".Decode" +:+ y)
  | [] => None
  end.

Section Translator.
Context (fileGraph : FidlFileGraph).
Context (srcRootPath : string) (filepath_Rel : string -> string -> option string).
Context (format_float : spec_float -> string) (Quote : string -> string).

(** ** names.go *)
Definition fileNameToPackageName (fileName : string) : string :=
  replace_char "." "_" (replace_char "-" "_" (without_ext (Base fileName))).
Definition importFidlFile (fileName : string) : TM unit :=
  let! pkgPath := must (filepath_Rel srcRootPath fileName) in
  modify (add_import (fileNameToPackageName fileName) (without_ext pkgPath)).
Definition userDefinedType (key : string) : TM FidlUserDefinedType := must (ResolvedTypes fileGraph !! key).
Definition userDefinedTypeDeclData (t : FidlUserDefinedType) : TM FidlDeclarationData := must (declData_of t).
Definition userDefinedTypeShortName (t : FidlUserDefinedType) : TM string :=
  let! d := userDefinedTypeDeclData t in must (ShortName d).
(** The name of an enum starts with that of the type that contains it; [fuel]
    is the depth of containment. *)
Fixpoint goTypeName (fuel : nat) (typeKey : string) : TM string :=
  match fuel with
  | O => panic
  | S fuel =>
    let! t := get in
    match goTypeCache t !! typeKey with
    | Some name => ret name
    | None =>
      let! udt := userDefinedType typeKey in
      let! shortName := userDefinedTypeShortName udt in
      let goType := formatName shortName in
      let! goType :=
        match udt with
        | UserDefinedTypeEnumType e =>
          let! d := must (fe_DeclData e) in
          match ContainerTypeKey d with
          | Some container =>
            let! containerName := goTypeName fuel container in
            ret (containerName +:+ "_" +:+ goType)
          | None => ret goType
          end
        | _ => ret goType
        end in
      modify (cache_type typeKey goType) ;;;
      ret goType
    end
  end.
Definition goConstName (fuel : nat) (constKey : string) : TM string :=
  let! c := must (ResolvedConstants fileGraph !! constKey) in
  let! shortName := must (ShortName (dc_DeclData c)) in
  let name := formatName shortName in
  match ContainerTypeKey (dc_DeclData c) with
  | Some container =>
    let! containerName := goTypeName fuel container in
    ret (containerName +:+ "_" +:+ name)
  | None => ret name
  end.

(** ** types.go *)
Definition translateSimpleGoType (t : FidlSimpleType) : option string :=
  match t with
  | SimpleType_Bool => Some "bool"
  | SimpleType_Float => Some "float32"
  | SimpleType_Double => Some "float64"
  | SimpleType_Int8 => Some "int8"
  | SimpleType_Int16 => Some "int16"
  | SimpleType_Int32 => Some "int32"
  | SimpleType_Int64 => Some "int64"
  | SimpleType_Uint8 => Some "uint8"
  | SimpleType_Uint16 => Some "uint16"
  | SimpleType_Uint32 => Some "uint32"
  | SimpleType_Uint64 => Some "uint64"
  | SimpleType_Other _ => None
  end.
Definition optional (nullable : bool) (goType : string) : string := if nullable then "*" +:+ goType else goType.
Definition is_interface (t : FidlUserDefinedType) : bool :=
  match t with UserDefinedTypeInterfaceType _ => true | _ => false end.
Definition is_union (t : FidlUserDefinedType) : bool :=
  match t with UserDefinedTypeUnionType _ => true | _ => false end.
(** The qualified name of something declared in the file of [info]. *)
Definition qualified (info : option SourceFileInfo) (name : string) : TM string :=
  let! t := get in
  match info with
  | Some info =>
    if bool_decide (FileName info = currentFileName t) then ret name
    else importFidlFile (FileName info) ;;; ret (fileNameToPackageName (FileName info) +:+ "." +:+ name)
  | None => ret name
  end.
Definition translateTypeReference (fuel : nat) (r : TypeReference) : TM string :=
  let! typeKey := must (TypeKey r) in
  let! typeName := goTypeName fuel typeKey in
  let! udt := userDefinedType typeKey in
  let typeName :=
    if is_interface udt
    then typeName +:+ (if IsInterfaceRequest r then "_Request" else "_Pointer") else typeName in
  let! d := userDefinedTypeDeclData udt in
  let! typeName := qualified (dd_SourceFileInfo d) typeName in
  ret (optional (negb (is_union udt) && tr_Nullable r) typeName).
Definition translateStringGoType (n : bool) : string := optional n "string".
Definition translateHandleGoType (n : bool) (kind : HandleType_Kind) : TM string :=
  modify (add_import "mx" "syscall/mx") ;;;
  match kind with
  | HandleType_Kind_Other _ => panic
  | _ => ret (optional n "mx.Handle")
  end.
(** Given the translation of the element, of the key and of the value. *)
Definition translateArrayGoType (n : bool) (fixedLength : Z) (element : TM string) : TM string :=
  let! e := element in
  ret (optional n ((if fixedLength <? 0 then "[]" else "[" +:+ FormatInt fixedLength +:+ "]") +:+ e)).
Definition translateMapGoType (n : bool) (key value : TM string) : TM string :=
  let! k := key in
  let! v := value in
  ret (optional n ("map[" +:+ k +:+ "]" +:+ v)).
Fixpoint translateType (fuel : nat) (t : FidlType) : TM string :=
  match t with
  | TypeSimpleType t => must (translateSimpleGoType t)
  | TypeStringType n => ret (translateStringGoType n)
  | TypeHandleType n k => translateHandleGoType n k
  | TypeTypeReference r => translateTypeReference fuel r
  | TypeArrayType n l e => translateArrayGoType n l (translateType fuel e)
  | TypeMapType n k v => translateMapGoType n (translateType fuel k) (translateType fuel v)
  | TypeUnknown _ => panic
  end.

(** ** encoding_info.go *)
Definition simple_suffix (t : FidlSimpleType) : string * Z :=
  match t with
  | SimpleType_Bool => ("Bool", 1)
  | SimpleType_Double => ("Float64", 64)
  | SimpleType_Float => ("Float32", 32)
  | SimpleType_Int8 => ("Int8", 8)
  | SimpleType_Int16 => ("Int16", 16)
  | SimpleType_Int32 => ("Int32", 32)
  | SimpleType_Int64 => ("Int64", 64)
  | SimpleType_Uint8 => ("Uint8", 8)
  | SimpleType_Uint16 => ("Uint16", 16)
  | SimpleType_Uint32 => ("Uint32", 32)
  | SimpleType_Uint64 => ("Uint64", 64)
  | SimpleType_Other _ => ("", 0)
  end.
Definition new_simpleTypeEncodingInfo (t : FidlSimpleType) : EncodingInfo :=
  let (typeSuffix, bitSize) := simple_suffix t in
  simpleTypeEncodingInfo empty_base bitSize ("Write" +:+ typeSuffix) ("Read" +:+ typeSuffix).
Definition new_handleTypeEncodingInfo (n : bool) (kind : HandleType_Kind) : EncodingInfo :=
  handleTypeEncodingInfo empty_base n
    match kind with
    | HandleType_Kind_Channel => "ReadChannelHandle"
    | HandleType_Kind_Vmo => "ReadVmoHandle"
    | HandleType_Kind_Other _ => ""
    | _ => "ReadHandle"
    end.
Definition udt_info (udt : FidlUserDefinedType) (interfaceRequest : bool) : option EncodingInfo :=
  match udt with
  | UserDefinedTypeStructType _ => Some (structTypeEncodingInfo empty_base false)
  | UserDefinedTypeUnionType _ => Some (unionTypeEncodingInfo empty_base false false)
  | UserDefinedTypeEnumType _ => Some (enumTypeEncodingInfo empty_base)
  | UserDefinedTypeInterfaceType _ => Some (interfaceTypeEncodingInfo empty_base false interfaceRequest)
  | UserDefinedTypeUnknown _ => None
  end.
Definition typeRefEncodingInfo (r : TypeReference) : TM EncodingInfo :=
  let! typeKey := must (TypeKey r) in
  let! udt := userDefinedType typeKey in
  let! info := must (udt_info udt (IsInterfaceRequest r)) in
  if tr_Nullable r then must (setNullable true info) else ret info.
Definition level_id (name : string) (level : nat) : string := name +:+ FormatInt (Z.of_nat level).
(** The array of the keys, or of the values, of a map. *)
Definition map_array (name : string) (level : nat) (element : EncodingInfo) : EncodingInfo :=
  arrayTypeEncodingInfo (mkEncodingBase (level_id name level) ("[]" +:+ GoType element)) false
    (setIdentifier (level_id "elem" level) element) (-1).
Definition new_stringTypeEncodingInfo (n : bool) : EncodingInfo := stringTypeEncodingInfo empty_base n.
Definition new_arrayTypeEncodingInfo (n : bool) (fixedLength : Z) (level : nat) (element : TM EncodingInfo)
    : TM EncodingInfo :=
  let! e := element in
  ret (arrayTypeEncodingInfo empty_base n (setIdentifier (level_id "elem" level) e) fixedLength).
Definition new_mapTypeEncodingInfo (n : bool) (level : nat) (key value : TM EncodingInfo) : TM EncodingInfo :=
  let! k := key in
  let! v := value in
  ret (mapTypeEncodingInfo empty_base n (map_array "keys" level k) (map_array "values" level v)).
Fixpoint encodingInfoNested (fuel : nat) (t : FidlType) (level : nat) : TM EncodingInfo :=
  let! info :=
    match t with
    | TypeSimpleType t => ret (new_simpleTypeEncodingInfo t)
    | TypeStringType n => ret (new_stringTypeEncodingInfo n)
    | TypeHandleType n k => ret (new_handleTypeEncodingInfo n k)
    | TypeArrayType n l e => new_arrayTypeEncodingInfo n l level (encodingInfoNested fuel e (S level))
    | TypeMapType n k v =>
      new_mapTypeEncodingInfo n level (encodingInfoNested fuel k (S level)) (encodingInfoNested fuel v (S level))
    | TypeTypeReference r => typeRefEncodingInfo r
    | TypeUnknown _ => panic
    end in
  let! goType := translateType fuel t in
  ret (setGoType goType info).
Definition encodingInfo (fuel : nat) (t : FidlType) : TM EncodingInfo := encodingInfoNested fuel t 0.

(** ** translator.go: structs and unions *)
Record structVersion := mkStructVersion_ { gv_NumBytes : Z; gv_Version : Z }.
Record GoFieldTemplate := mkGoFieldTemplate {
  gf_Type : string;
  gf_Name : string;
  gf_MinVersion : Z;
  gf_EncodingInfo : EncodingInfo
}.
Record GoStructTemplate := mkGoStructTemplate {
  gs_Fields : list GoFieldTemplate;
  CurVersionNumber : Z;
  CurVersionSize : Z;
  gs_Versions : list structVersion
}.
Record GoUnionFieldTemplate := mkGoUnionFieldTemplate {
  gu_Name : string;
  gu_Type : string;
  gu_Tag : Z;
  gu_EncodingInfo : EncodingInfo
}.
Fixpoint map_each {A B} (f : A -> TM B) (l : list A) : TM (list B) :=
  match l with
  | [] => ret []
  | x :: l => let! y := f x in let! r := map_each f l in ret (y :: r)
  end.
Definition translateStructField (fuel : nat) (f : FidlStructField) : TM GoFieldTemplate :=
  let! shortName := must (decl_name ShortName (sf_DeclData f)) in
  let name := formatName shortName in
  let! type := translateType fuel (sf_Type f) in
  let! info := encodingInfo fuel (sf_Type f) in
  ret (mkGoFieldTemplate type name (sf_MinVersion f) (setIdentifier ("s." +:+ name) info)).
Definition translate_version (v : FidlStructVersion) : structVersion :=
  mkStructVersion_ (u32 (sv_NumBytes v - 8)) (sv_VersionNumber v).
Definition translateMojomStructObject (fuel : nat) (s : FidlStruct) : TM GoStructTemplate :=
  match List.last (map Some (default [] (st_VersionInfo s))) None with
  | None => panic
  | Some curVersion =>
    let! fields := map_each (translateStructField fuel) (sort_fields (Fields s)) in
    ret (mkGoStructTemplate fields (sv_VersionNumber curVersion) (u32 (sv_NumBytes curVersion - 8))
           (map translate_version (default [] (st_VersionInfo s))))
  end.
Definition set_nested_union (e : EncodingInfo) : EncodingInfo :=
  match e with unionTypeEncodingInfo b n _ => unionTypeEncodingInfo b n true | _ => e end.
Definition translateUnionGoField (fuel : nat) (f : FidlUnionField) : TM GoUnionFieldTemplate :=
  let! shortName := must (decl_name ShortName (uf_DeclData f)) in
  let! type := translateType fuel (uf_Type f) in
  let! info := encodingInfo fuel (uf_Type f) in
  ret (mkGoUnionFieldTemplate (formatName shortName) type (uf_Tag f)
         (set_nested_union (setIdentifier "u.Value" info))).

(** ** values.go *)
Definition translateGoLiteral (v : FidlLiteralValue) : string :=
  match v with
  | LiteralValueStringValue s => Quote s
  | LiteralValueBoolValue b => if b then "true" else "false"
  | LiteralValueDoubleValue f | LiteralValueFloatValue f => format_float f
  | LiteralValueInt8Value z | LiteralValueInt16Value z | LiteralValueInt32Value z | LiteralValueInt64Value z
  | LiteralValueUint8Value z | LiteralValueUint16Value z | LiteralValueUint32Value z
  | LiteralValueUint64Value z => FormatInt z
  | LiteralValueUnknown _ => "<nil>"
  end.
Definition translateConstantReference (fuel : nat) (r : ConstantReference) : TM string :=
  let! c := must (ResolvedConstants fileGraph !! ConstantKey r) in
  let! value := goConstName fuel (ConstantKey r) in
  qualified (dd_SourceFileInfo (dc_DeclData c)) value.
Definition translateEnumValueReference (fuel : nat) (r : EnumValueReference) : TM string :=
  let! enumName := translateTypeReference fuel (mkTypeReference false false None (Some (EnumTypeKey r))) in
  let! udt := userDefinedType (EnumTypeKey r) in
  match udt with
  | UserDefinedTypeEnumType e =>
    let! v := must (fe_Values e !! Z.to_nat (EnumValueIndex r)) in
    let! shortName := must (decl_name ShortName (fv_DeclData v)) in
    ret (enumName +:+ "_" +:+ formatName shortName)
  | _ => panic
  end.
Definition translateValue (fuel : nat) (v : FidlValue) : TM string :=
  match v with
  | ValueLiteralValue v => ret (translateGoLiteral v)
  | ValueEnumValueReference r => translateEnumValueReference fuel r
  | ValueConstantReference r => translateConstantReference fuel r
  | ValueBuiltinValue _ | ValueUnknown _ => panic
  end.
(** Follows references to constants; a missing constant has a nil value. *)
Fixpoint resolveConstRef (fuel : nat) (v : FidlValue) : option FidlValue :=
  match fuel with
  | O => None
  | S fuel =>
    match v with
    | ValueConstantReference r =>
      c ← ResolvedConstants fileGraph !! ConstantKey r; resolveConstRef fuel (dc_Value c)
    | _ => Some v
    end
  end.
(** A constant that is infinite or not a number has no template. *)
Definition translateDeclaredConstant (fuel : nat) (constKey : string)
    : TM (option (string * string * string)) :=
  let! c := must (ResolvedConstants fileGraph !! constKey) in
  let! resolved := must (resolveConstRef fuel (dc_Value c)) in
  match resolved with
  | ValueBuiltinValue _ => ret None
  | _ =>
    let! name := goConstName fuel constKey in
    let! type := translateType fuel (dc_Type c) in
    let! value := translateValue fuel (dc_Value c) in
    ret (Some (name, type, value))
  end.

(** ** translator.go: the declarations of a file *)
Record GoEnumTemplate := mkGoEnumTemplate { ge_Name : string; ge_Values : list (string * Z); ge_TypeKey : string }.
#[local] Abbreviation GoConstant := (string * string * string)%type.
Record GoStruct := mkGoStruct {
  go_Name : string;
  go_PrivateName : string;
  go_Struct : GoStructTemplate;
  go_NestedEnums : list GoEnumTemplate;
  go_NestedConstants : list GoConstant;
  go_TypeKey : string
}.
Record GoUnion := mkGoUnion { gn_Name : string; gn_Fields : list GoUnionFieldTemplate; gn_TypeKey : string }.
Record GoMethod := mkGoMethod {
  MethodName : string;
  FullName : string;
  gm_Ordinal : Z;
  gm_Params : string * GoStructTemplate;
  gm_ResponseParams : option (string * GoStructTemplate)
}.
Record GoInterface := mkGoInterface {
  gi_Name : string;
  gi_PrivateName : string;
  gi_ServiceName : option string;
  gi_Methods : list GoMethod;
  gi_NestedEnums : list GoEnumTemplate;
  gi_NestedConstants : list GoConstant;
  gi_TypeKey : string
}.
Record TmplFile := mkTmplFile {
  PackageName : string;
  tf_Structs : list GoStruct;
  tf_Unions : list GoUnion;
  tf_Enums : list GoEnumTemplate;
  tf_Interfaces : list GoInterface;
  tf_Constants : list GoConstant;
  MojomImports : list string;
  tf_Imports : gmap string string;
  tf_TypeInfo : string
}.
Definition translateMojomEnum (fuel : nat) (typeKey : string) : TM GoEnumTemplate :=
  let! udt := userDefinedType typeKey in
  match udt with
  | UserDefinedTypeEnumType e =>
    let! name := goTypeName fuel typeKey in
    let! values := must (mapM (fun v => short ← decl_name ShortName (fv_DeclData v);
                                 Some (name +:+ "_" +:+ formatName short, IntValue v)) (fe_Values e)) in
    ret (mkGoEnumTemplate name values typeKey)
  | _ => panic
  end.
Definition catOptions {A} (l : list (option A)) : list A := omap id l.
(** The enums and constants that a declaration contains. *)
Definition nested_declarations (fuel : nat) (d : option FidlDeclarationData)
    : TM (list GoEnumTemplate * list GoConstant) :=
  match d ≫= dd_ContainedDeclarations with
  | None => ret ([], [])
  | Some c =>
    let! enums := map_each (translateMojomEnum fuel) (default [] (cd_Enums c)) in
    let! constants := map_each (translateDeclaredConstant fuel) (default [] (cd_Constants c)) in
    ret (enums, catOptions constants)
  end.
Definition translateMojomStruct (fuel : nat) (typeKey : string) : TM GoStruct :=
  let! udt := userDefinedType typeKey in
  match udt with
  | UserDefinedTypeStructType s =>
    let! m := translateMojomStructObject fuel s in
    let! name := goTypeName fuel typeKey in
    let! nested := nested_declarations fuel (st_DeclData s) in
    ret (mkGoStruct name (privateName name) m nested.1 nested.2 typeKey)
  | _ => panic
  end.
Definition translateMojomUnion (fuel : nat) (typeKey : string) : TM GoUnion :=
  let! udt := userDefinedType typeKey in
  match udt with
  | UserDefinedTypeUnionType u =>
    let! name := goTypeName fuel typeKey in
    let! fields := map_each (translateUnionGoField fuel) (fu_Fields u) in
    ret (mkGoUnion name fields typeKey)
  | _ => panic
  end.
Definition translateMojomMethod (fuel : nat) (interfacePrivateName : string) (m : FidlMethod) : TM GoMethod :=
  let! short := must (decl_name ShortName (fm_DeclData m)) in
  let name := formatName short in
  let full := interfacePrivateName +:+ "_" +:+ name in
  let! params := translateMojomStructObject fuel (fm_Parameters m) in
  let! responseParams :=
    match fm_ResponseParams m with
    | None => ret None
    | Some s => let! r := translateMojomStructObject fuel s in ret (Some (full +:+ "_ResponseParams", r))
    end in
  ret (mkGoMethod name full (fm_Ordinal m) (full +:+ "_Params", params) responseParams).
(** The names of the declarations in the templates; an interface is declared by
    its requests. *)
Definition InterfaceConcreteName (i : GoInterface) : string := gi_Name i +:+ "_Request".
Definition UnionFieldConcreteName (u : GoUnion) (f : GoUnionFieldTemplate) : string := gn_Name u +:+ gu_Name f.
Definition TypesPkg (f : TmplFile) : string :=
  if bool_decide (PackageName f = "fidl_types") then "" else "fidl_types.".
Definition DescPkg (f : TmplFile) : string :=
  if bool_decide (PackageName f = "service_describer") then "" else "service_describer.".

(** [methods] gives the methods in the order in which the map is iterated over. *)
Definition translateMojomInterface (methods : FidlInterface -> list FidlMethod) (fuel : nat) (typeKey : string)
    : TM GoInterface :=
  let! udt := userDefinedType typeKey in
  match udt with
  | UserDefinedTypeInterfaceType i =>
    let! name := goTypeName fuel typeKey in
    let! ms := map_each (translateMojomMethod fuel (privateName name)) (methods i) in
    let! nested := nested_declarations fuel (fi_DeclData i) in
    ret (mkGoInterface name (privateName name) (fi_ServiceName i) ms nested.1 nested.2 typeKey)
  | _ => panic
  end.

Definition set_current (fileName : string) (t : translator) : translator :=
  mkTranslator (goTypeCache t) ∅ fileName.
Definition is_fidl_import (i : string * string) : bool :=
  negb (bool_decide (i.1 = "service_describer") || bool_decide (i.1 = "fidl_types")
        || bool_decide (i.2 = "fidl/system")).
Definition import_all (l : list (string * string)) (t : translator) : translator :=
  foldl (fun t '(name, path) => add_import name path t) t l.
Definition nonempty {A} (l : list A) : bool := match l with [] => false | _ => true end.
Definition TranslateFidlFile (methods : FidlInterface -> list FidlMethod) (genTypeInfo : bool) (fuel : nat)
    (fileName : string) : TM TmplFile :=
  modify (set_current fileName) ;;;
  let! file := must (Files fileGraph !! fileName) in
  let package := fileNameToPackageName fileName in
  let keys := DeclaredFidlObjects file in
  let! structs := map_each (translateMojomStruct fuel) (default [] (kt_Structs keys)) in
  let! unions := map_each (translateMojomUnion fuel) (default [] (kt_Unions keys)) in
  let! enums := map_each (translateMojomEnum fuel)
    (default [] (TopLevelEnums keys) ++ default [] (EmbeddedEnums keys)) in
  let! interfaces := map_each (translateMojomInterface methods fuel) (default [] (kt_Interfaces keys)) in
  let methodDefined := existsb (fun i => nonempty (gi_Methods i)) interfaces in
  let! constants := map_each (translateDeclaredConstant fuel)
    (default [] (TopLevelConstants keys) ++ default [] (EmbeddedConstants keys)) in
  let! t := get in
  let mojomImports := map fst (List.filter is_fidl_import (map_to_list (imports t))) in
  modify (import_all
    ((if nonempty structs || nonempty unions || nonempty interfaces
      then [("fmt", "fmt"); ("bindings", "fidl/bindings")] else []) ++
     (if nonempty interfaces then [("mx", "syscall/mx")] else []) ++
     (if nonempty structs || methodDefined then [("sort", "sort")] else []) ++
     (if genTypeInfo
      then [("bindings", "fidl/bindings"); ("fmt", "fmt"); ("base64", "encoding/base64");
            ("gzip", "compress/gzip"); ("bytes", "bytes"); ("ioutil", "io/ioutil")] ++
           (if bool_decide (package = "fidl_types") then []
            else [("fidl_types", "fidl/compiler/generated/fidl_types")])
      else []))) ;;;
  let! t := get in
  ret (mkTmplFile package structs unions enums interfaces (catOptions constants) mojomImports (imports t)
         (default "" (SerializedRuntimeTypeInfo file))).
End Translator.
