(* ===== verification/RustGen.v ===== *)
(** * The Rust generator: generators/rust/rustgen

    The translation of types, names and values (type_translation.go) and the
    templates of a source file (source.go).  [None] is a call of log.Fatal or a
    panic. *)
From S2P Require Export Names CGen.

(** ** type_translation.go: names *)
Definition reservedRustKeywords : list string :=
  ["as"; "box"; "break"; "const"; "continue"; "crate"; "else"; "enum"; "extern"; "false"; "fn"; "for";
   "if"; "impl"; "in"; "let"; "loop"; "match"; "mod"; "move"; "mut"; "pub"; "ref"; "return"; "self"; "Self";
   "static"; "struct"; "super"; "trait"; "true"; "type"; "unsafe"; "use"; "where"; "while";
   "abstract"; "alignof"; "become"; "do"; "final"; "macro"; "offsetof"; "override"; "priv"; "proc"; "pure";
   "sizeof"; "typeof"; "unsized"; "virtual"; "yield";
   "Ok"; "Err"; "Vec"; "Option"; "Some"; "None"; "Box"].
(** [strings.TrimRight(s, "_")]. *)
Fixpoint trim_underscores (s : string) : string :=
  match s with
  | EmptyString => ""
  | String c s =>
    match trim_underscores s with
    | EmptyString => if Ascii.eqb c "_" then "" else String c ""
    | r => String c r
    end
  end.
Definition mangleReservedKeyword (name : string) : string :=
  if bool_decide (trim_underscores name ∈ reservedRustKeywords) then name +:+ "_" else name.

Section RustGen.
Context (FormatFloat : spec_float -> string) (filepath_Rel : string -> string -> option string).
(** The fields of [Context]. *)
Context (fileGraph : FidlFileGraph) (file : FidlFile).
Context (rustNames : gmap string (gmap string string)) (crateMap : gmap string string) (srcRootPath : string).

(** Assigns the names in order; a method has a name for each of its messages. *)
Definition add_name (names : gmap string string) (name : string) : gmap string string := <[name := name]> names.
Definition short_names {A} (decl : A -> option FidlDeclarationData) (lookup : string -> option A)
    (keys : option (list string)) : option (list string) :=
  mapM (fun key => x ← lookup key; decl_name ShortName (decl x)) (default [] keys).
Definition as_enum (key : string) : option FidlEnum :=
  t ← ResolvedTypes fileGraph !! key; match t with UserDefinedTypeEnumType e => Some e | _ => None end.
Definition as_union (key : string) : option FidlUnion :=
  t ← ResolvedTypes fileGraph !! key; match t with UserDefinedTypeUnionType u => Some u | _ => None end.
Definition as_struct (key : string) : option FidlStruct :=
  t ← ResolvedTypes fileGraph !! key; match t with UserDefinedTypeStructType s => Some s | _ => None end.
Definition as_interface (key : string) : option FidlInterface :=
  t ← ResolvedTypes fileGraph !! key; match t with UserDefinedTypeInterfaceType i => Some i | _ => None end.
Definition message_names (names : gmap string string) (m : string) : gmap string string :=
  <[m +:+ "-response" := m +:+ "_Response"]> (<[m +:+ "-request" := m +:+ "_Request"]> names).
Definition interface_names (methods : FidlInterface -> list FidlMethod) (names : gmap string string) (key : string)
    : option (gmap string string) :=
  i ← as_interface key;
  name ← decl_name ShortName (fi_DeclData i);
  ms ← mapM (fun m => decl_name ShortName (fm_DeclData m)) (methods i);
  Some (foldl message_names (add_name names name) ms).
Fixpoint all_interface_names (methods : FidlInterface -> list FidlMethod) (names : gmap string string)
    (keys : list string) : option (gmap string string) :=
  match keys with
  | [] => Some names
  | key :: keys => names ← interface_names methods names key; all_interface_names methods names keys
  end.
Definition CollectAllNames (methods : FidlInterface -> list FidlMethod) (f : FidlFile) : option (gmap string string) :=
  let keys := DeclaredFidlObjects f in
  constants ← short_names (fun c => Some (dc_DeclData c)) (fun key => ResolvedConstants fileGraph !! key)
                (TopLevelConstants keys);
  enums ← short_names fe_DeclData as_enum (TopLevelEnums keys);
  unions ← short_names fu_DeclData as_union (kt_Unions keys);
  structs ← short_names st_DeclData as_struct (kt_Structs keys);
  all_interface_names methods (foldl add_name ∅ (constants ++ enums ++ unions ++ structs))
    (default [] (kt_Interfaces keys)).

(** An unknown file has no names; a name that is mapped to nothing is fatal. *)
Definition GetNameFromFile (name : string) (fileName : string) : option string :=
  names ← rustNames !! fileName;
  match default "" (names !! name) with EmptyString => None | n => Some n end.
Definition removeNamespaceFromIdentifier (f : FidlFile) (identifier : string) : option string :=
  let namespace := match ff_ModuleNamespace f with Some n => n +:+ "." | None => "" end in
  match split_char "." (replace_first namespace "" identifier) with
  | [] => None
  | x :: portions => x' ← GetNameFromFile x (ff_FileName f); Some (join_with "" (x' :: portions))
  end.
Definition fidlToRustName (decl : FidlDeclarationData) (fmt : string -> string) : option string :=
  match FullIdentifier decl with
  | None =>
    short ← ShortName decl;
    name ← GetNameFromFile short (ff_FileName file);
    Some (mangleReservedKeyword (fmt name))
  | Some full =>
    info ← dd_SourceFileInfo decl;
    if bool_decide (FileName info = ff_FileName file) then
      name ← removeNamespaceFromIdentifier file full; Some (mangleReservedKeyword (fmt name))
    else
      relpath ← filepath_Rel srcRootPath (FileName info);
      src_file ← Files fileGraph !! FileName info;
      name ← removeNamespaceFromIdentifier src_file full;
      crates ← crateMap !! ("//" +:+ relpath);
      Some (if bool_decide (crates = "") then "::" +:+ mangleReservedKeyword (fmt name)
            else "::" +:+ crates +:+ "::" +:+ mangleReservedKeyword (fmt name))
  end.
Definition rust_name (d : option FidlDeclarationData) (fmt : string -> string) : option string :=
  d ← d; fidlToRustName d fmt.

(** ** type_translation.go: types and values *)
Definition fidlToRustBuiltinValue (v : BuiltinConstantValue) : option string :=
  match v with
  | BuiltinConstantValue_DoubleNegativeInfinity => Some "::std::f64::NEG_INFINITY"
  | BuiltinConstantValue_FloatNegativeInfinity => Some "::std::f32::NEG_INFINITY"
  | BuiltinConstantValue_DoubleInfinity => Some "::std::f64::INFINITY"
  | BuiltinConstantValue_FloatInfinity => Some "::std::f32::INFINITY"
  | BuiltinConstantValue_DoubleNan => Some "::std::f64::NAN"
  | BuiltinConstantValue_FloatNan => Some "::std::f32::NAN"
  | BuiltinConstantValue_Other _ => None
  end.
Definition simpleTypeToRustType (t : FidlSimpleType) : option string :=
  match t with
  | SimpleType_Int8 => Some "i8"
  | SimpleType_Int16 => Some "i16"
  | SimpleType_Int32 => Some "i32"
  | SimpleType_Int64 => Some "i64"
  | SimpleType_Uint8 => Some "u8"
  | SimpleType_Uint16 => Some "u16"
  | SimpleType_Uint32 => Some "u32"
  | SimpleType_Uint64 => Some "u64"
  | SimpleType_Float => Some "f32"
  | SimpleType_Double => Some "f64"
  | SimpleType_Bool => Some "bool"
  | SimpleType_Other _ => None
  end.
Definition handle_rust_type (k : HandleType_Kind) : option string :=
  match k with
  | HandleType_Kind_Channel => Some "::magenta::Channel"
  | HandleType_Kind_Vmo => Some "::magenta::Vmo"
  | HandleType_Kind_Process => Some "::magenta::Process"
  | HandleType_Kind_Thread => Some "::magenta::Thread"
  | HandleType_Kind_Event => Some "::magenta::Event"
  | HandleType_Kind_Port => Some "::magenta::Port"
  | HandleType_Kind_Job => Some "::magenta::Job"
  | HandleType_Kind_Socket => Some "::magenta::Socket"
  | HandleType_Kind_EventPair => Some "::magenta::EventPair"
  | HandleType_Kind_Unspecified => Some "::magenta::Handle"
  | HandleType_Kind_Other _ => None
  end.
Definition Option_ (nullable : bool) (t : string) : string := if nullable then "Option<" +:+ t +:+ ">" else t.
Definition userDefinedTypeToRustType (t : FidlUserDefinedType) (interfaceRequest : bool) : option string :=
  full_name ← rust_name (declData_of t) ident;
  Some (match t with
        | UserDefinedTypeInterfaceType _ =>
          if interfaceRequest then "::fidl::ServerEnd<" +:+ full_name +:+ "::Marker>"
          else "::fidl::InterfacePtr<::fidl::ClientEnd<" +:+ full_name +:+ "::Marker>>"
        | _ => full_name
        end).
Definition fidlUserTypeNeedsBoxing (t : FidlUserDefinedType) : bool :=
  match t with UserDefinedTypeStructType _ | UserDefinedTypeUnionType _ => true | _ => false end.
Definition resolved_udt (r : TypeReference) : option FidlUserDefinedType :=
  t ← resolved_reference fileGraph r; t.
Fixpoint fidlToRustType (t : FidlType) : option string :=
  match t with
  | TypeSimpleType t => simpleTypeToRustType t
  | TypeArrayType n l e =>
    elem ← fidlToRustType e;
    if l <? 0 then Some (Option_ n ("Vec<" +:+ elem +:+ ">"))
    else if l <=? 32 then Some (Option_ n ("[" +:+ elem +:+ "; " +:+ FormatInt l +:+ "]"))
    else None
  | TypeMapType n k v =>
    key ← fidlToRustType k;
    value ← fidlToRustType v;
    Some (Option_ n ("::std::collections::HashMap<" +:+ key +:+ ", " +:+ value +:+ ">"))
  | TypeStringType n => Some (Option_ n "String")
  | TypeHandleType n k => t ← handle_rust_type k; Some (Option_ n t)
  | TypeTypeReference r =>
    udt ← resolved_udt r;
    type ← userDefinedTypeToRustType udt (IsInterfaceRequest r);
    Some (if tr_Nullable r
          then if fidlUserTypeNeedsBoxing udt then "Option<Box<" +:+ type +:+ ">>" else "Option<" +:+ type +:+ ">"
          else type)
  | TypeUnknown _ => None
  end.
Definition fidlToRustLiteral (v : FidlLiteralValue) : option string :=
  match v with
  | LiteralValueBoolValue b => Some (if b then "true" else "false")
  | LiteralValueDoubleValue f | LiteralValueFloatValue f => Some (FormatFloat f)
  | LiteralValueInt8Value z | LiteralValueInt16Value z | LiteralValueInt32Value z | LiteralValueInt64Value z
  | LiteralValueUint8Value z | LiteralValueUint16Value z | LiteralValueUint32Value z
  | LiteralValueUint64Value z => Some (FormatInt z)
  | LiteralValueStringValue s => Some (String quote s +:+ String quote "")
  | LiteralValueUnknown _ => None
  end.
Fixpoint all_digits (s : string) : bool :=
  match s with EmptyString => true | String c s => (Ascii.eqb c "-" || IsDigit c) && all_digits s end.
Definition floatifyRustLiteral (repr : string) : string := if all_digits repr then repr +:+ ".0" else repr.
Definition fidlTypeIsBool (t : FidlType) : bool :=
  match t with TypeSimpleType SimpleType_Bool => true | _ => false end.
Definition fidlTypeIsUnion (t : FidlType) : option bool :=
  match t with
  | TypeTypeReference r =>
    t ← resolved_reference fileGraph r;
    Some (match t with Some (UserDefinedTypeUnionType _) => true | _ => false end)
  | _ => Some false
  end.
Definition fidlTypeNeedsBoxing (t : FidlType) : option bool :=
  match t with
  | TypeTypeReference r =>
    t ← resolved_reference fileGraph r;
    Some (match t with Some t => fidlUserTypeNeedsBoxing t | None => false end)
  | _ => Some false
  end.
(** The remainder by zero panics before the test for it. *)
Definition fidlAlignToBytes (size alignment : Z) : option Z :=
  if alignment =? 0 then None
  else
    let diff := size mod alignment in
    Some (if diff =? 0 then size else u32 (size + alignment - diff)).
Definition fidlTypeSize (t : FidlType) : option Z :=
  match t with
  | TypeSimpleType SimpleType_Bool => None
  | TypeSimpleType t => simpleTypeByteSize t
  | TypeStringType _ | TypeArrayType _ _ _ | TypeMapType _ _ _ => Some 8
  | TypeHandleType _ _ => Some 4
  | TypeTypeReference r => referenceTypeSize fileGraph r
  | TypeUnknown _ => None
  end.

(** ** source.go *)
Record RustField := mkRustField {
  rf_Type : string;
  rf_Name : string;
  rf_MinVersion : Z;
  rf_Offset : Z;
  rf_IsUnion : bool;
  rf_IsNullable : bool
}.
Record RustVersion := mkRustVersion { rv_Version : Z; rv_Size : Z }.
Definition rust_version_le (v v' : RustVersion) : Prop := rv_Version v <= rv_Version v'.
#[local] Instance rust_version_le_dec : RelDecision rust_version_le.
Proof. intros v v'. unfold rust_version_le. solve_decision. Defined.
Record RustEnum := mkRustEnum { re_Name : string; re_Values : list (string * Z); Signed : bool }.
Record RustConstant := mkRustConstant { rc_Type : string; rc_Name : string; rc_Value : string }.
Record RustStruct := mkRustStruct {
  rs_Name : string;
  rs_Size : Z;
  rs_Version : Z;
  rs_Versions : list RustVersion;
  rs_Fields : list RustField;
  rs_Constants : list RustConstant;
  rs_Enums : list RustEnum
}.
Record RustUnion := mkRustUnion { ru_Name : string; ru_Fields : list RustField; ru_TagsEnum : RustEnum }.
Record RustMessage := mkRustMessage {
  rm_Name : string;
  RawName : string;
  rm_MessageOrdinal : Z;
  rm_MinVersion : Z;
  rm_RequestStruct : RustStruct;
  rm_ResponseStruct : option RustStruct
}.
Record RustInterface := mkRustInterface {
  ri_Name : string;
  ri_ServiceName : string;
  ri_Client : string;
  ri_Server : string;
  ri_Version : Z;
  ri_Messages : list RustMessage;
  ri_Enums : list RustEnum;
  ri_Constants : list RustConstant
}.

Definition Rust_NewEnumTemplate (e : FidlEnum) : option RustEnum :=
  name ← rust_name (fe_DeclData e) ident;
  values ← mapM (fun v => short ← decl_name ShortName (fv_DeclData v); Some (formatEnumValue short, IntValue v))
             (fe_Values e);
  Some (mkRustEnum name values true).
Fixpoint Rust_resolveValue (fuel : nat) (v : FidlValue) : option string :=
  match fuel with
  | O => None
  | S fuel =>
    match v with
    | ValueLiteralValue v => fidlToRustLiteral v
    | ValueConstantReference r =>
      c ← ResolvedConstants fileGraph !! ConstantKey r;
      Rust_resolveValue fuel (default (dc_Value c) (dc_ResolvedConcreteValue c))
    | ValueEnumValueReference r =>
      match ResolvedTypes fileGraph !! EnumTypeKey r with
      | Some (UserDefinedTypeEnumType e) =>
        v ← fe_Values e !! Z.to_nat (EnumValueIndex r);
        match InitializerValue_ v with
        | None => Some (FormatInt (IntValue v))
        | Some init => Rust_resolveValue fuel init
        end
      | Some _ => None
      | None => Some ""
      end
    | ValueBuiltinValue v => fidlToRustBuiltinValue v
    | ValueUnknown _ => None
    end
  end.
Definition Rust_NewConstantTemplate (fuel : nat) (c : DeclaredConstant) : option RustConstant :=
  type ← match dc_Type c with TypeStringType _ => Some "&'static str" | t => fidlToRustType t end;
  name ← fidlToRustName (dc_DeclData c) formatConstName;
  val ← Rust_resolveValue fuel (dc_Value c);
  Some (mkRustConstant type name
    (if bool_decide (type = "f32") || bool_decide (type = "f64") then floatifyRustLiteral val else val)).
Definition union_rust_field (f : FidlUnionField) : option RustField :=
  short ← decl_name ShortName (uf_DeclData f);
  let field_name := formatEnumValue (mangleReservedKeyword short) in
  type ← fidlToRustType (uf_Type f);
  is_union ← fidlTypeIsUnion (uf_Type f);
  let is_nullable := String.prefix "Option<" type in
  boxed ← fidlTypeNeedsBoxing (uf_Type f);
  Some (mkRustField (if boxed && negb is_nullable then "Box<" +:+ type +:+ ">" else type) field_name 0 0
          is_union is_nullable).
Definition Rust_NewUnionTemplate (u : FidlUnion) : option RustUnion :=
  name ← rust_name (fu_DeclData u) ident;
  fields ← mapM union_rust_field (fu_Fields u);
  Some (mkRustUnion name fields
    (mkRustEnum (name +:+ "_Tag") (imap (fun i f => (rf_Name f, Z.of_nat i)) fields) false)).
Definition rust_contained (fuel : nat) (d : option FidlDeclarationData)
    : option (list RustConstant * list RustEnum) :=
  d ← d;
  match dd_ContainedDeclarations d with
  | None => Some ([], [])
  | Some decls =>
    constants ← mapM (fun key => c ← ResolvedConstants fileGraph !! key; Rust_NewConstantTemplate fuel c)
                  (default [] (cd_Constants decls));
    enums ← mapM (fun key => e ← as_enum key; Rust_NewEnumTemplate e) (default [] (cd_Enums decls));
    Some (constants, enums)
  end.
Definition struct_rust_field (f : FidlStructField) : option RustField :=
  short ← decl_name ShortName (sf_DeclData f);
  type ← fidlToRustType (sf_Type f);
  is_union ← fidlTypeIsUnion (sf_Type f);
  let offset := if fidlTypeIsBool (sf_Type f) then u32 (u32 (sf_Offset f * 8) + u32 (sf_Bit f)) else sf_Offset f in
  Some (mkRustField type (mangleReservedKeyword short) (sf_MinVersion f) offset is_union false).
Definition rust_versions (s : FidlStruct) : list RustVersion :=
  merge_sort rust_version_le
    (map (fun v => mkRustVersion (sv_VersionNumber v) (sv_NumBytes v)) (default [] (st_VersionInfo s))).
(** Without version information the size is computed from the last field. *)
Definition size_without_versions (s : FidlStruct) : option Z :=
  match List.last (map Some (sort_fields (Fields s))) None with
  | None => Some 0
  | Some final_field =>
    size ← (if 0 <? sf_Bit final_field then Some 1 else fidlTypeSize (sf_Type final_field));
    fidlAlignToBytes (u32 (sf_Offset final_field + size)) 8
  end.
Definition Rust_NewStructTemplate (fuel : nat) (s : FidlStruct) : option RustStruct :=
  fields ← mapM struct_rust_field (Fields s);
  let versions := rust_versions s in
  let current := default (mkRustVersion 0 0) (List.last (map Some versions) None) in
  size ← (if rv_Size current =? 0 then size_without_versions s else Some (rv_Size current));
  contained ← rust_contained fuel (st_DeclData s);
  name ← rust_name (st_DeclData s) ident;
  Some (mkRustStruct name size (rv_Version current) versions fields contained.1 contained.2).
Definition set_rs_Name (name : string) (s : RustStruct) : RustStruct :=
  mkRustStruct name (rs_Size s) (rs_Version s) (rs_Versions s) (rs_Fields s) (rs_Constants s) (rs_Enums s).
Definition rust_message (fuel : nat) (interface_name : string) (m : FidlMethod) : option RustMessage :=
  short ← decl_name ShortName (fm_DeclData m);
  let raw_name := formatMethodName short in
  req ← Rust_NewStructTemplate fuel (fm_Parameters m);
  let named s := set_rs_Name (interface_name +:+ "_" +:+ rs_Name s) s in
  resp ← match fm_ResponseParams m with
         | None => Some None
         | Some s => r ← Rust_NewStructTemplate fuel s; Some (Some (named r))
         end;
  Some (mkRustMessage (mangleReservedKeyword raw_name) raw_name (fm_Ordinal m) (fm_MinVersion m) (named req) resp).
Definition Rust_NewInterfaceTemplate (fuel : nat) (i : FidlInterface) : option RustInterface :=
  name ← rust_name (fi_DeclData i) ident;
  contained ← rust_contained fuel (fi_DeclData i);
  let ordinals := merge_sort Z.le (map fst (map_to_list (fi_Methods i))) in
  msgs ← mapM (fun ordinal => m ← fi_Methods i !! ordinal; rust_message fuel name m) ordinals;
  Some (mkRustInterface name (default "" (fi_ServiceName i)) (name +:+ "_Client") (name +:+ "_Server")
    (CurrentVersion i) msgs contained.2 contained.1).
Record SourceTemplate := mkSourceTemplate {
  so_Constants : list RustConstant;
  so_Structs : list RustStruct;
  so_Unions : list RustUnion;
  so_Enums : list RustEnum;
  so_Interfaces : list RustInterface
}.
Definition NewSourceTemplate (fuel : nat) : option SourceTemplate :=
  let keys := DeclaredFidlObjects file in
  constants ← mapM (fun key => c ← ResolvedConstants fileGraph !! key; Rust_NewConstantTemplate fuel c)
                (default [] (TopLevelConstants keys));
  enums ← mapM (fun key => e ← as_enum key; Rust_NewEnumTemplate e) (default [] (TopLevelEnums keys));
  unions ← mapM (fun key => u ← as_union key; Rust_NewUnionTemplate u) (default [] (kt_Unions keys));
  structs ← mapM (fun key => s ← as_struct key; Rust_NewStructTemplate fuel s) (default [] (kt_Structs keys));
  interfaces ← mapM (fun key => i ← as_interface key; Rust_NewInterfaceTemplate fuel i)
                 (default [] (kt_Interfaces keys));
  Some (mkSourceTemplate constants structs unions enums interfaces).
End RustGen.
