(* ===== verification/GeneratorsSpec.v ===== *)
(** * What the generators agree on

    The sizes by which the C, Go and Rust generators lay out and check a type
    are those of the front end. *)
From S2P Require Export CGenSpec CTypeTable RustGen GoTranslator.

(** ** The Go translator returns *)
Lemma must_run {S E A} (o : option A) a (s : S) : o = Some a -> must (E:=E) o s = (s, Ok a).
Proof. by intros ->. Qed.

Section Go.
Context (graph : FidlFileGraph) (srcRootPath : string) (filepath_Rel : string -> string -> option string).

(** The type of the key and those that contain it, [fuel] of them, have names. *)
Fixpoint nameable (fuel : nat) (key : string) : Prop :=
  match fuel with
  | O => False
  | S fuel =>
    exists t d, ResolvedTypes graph !! key = Some t /\ declData_of t = Some d /\ is_Some (ShortName d) /\
      match t with
      | UserDefinedTypeEnumType _ => forall c, ContainerTypeKey d = Some c -> nameable fuel c
      | _ => True
      end
  end.
(** The file of a declaration is below the root of the sources. *)
Definition importable (info : option SourceFileInfo) : Prop :=
  forall i, info = Some i -> is_Some (filepath_Rel srcRootPath (FileName i)).
(** A reference is to a type with a name, and not to a nullable enum. *)
Definition ref_ready (fuel : nat) (r : TypeReference) : Prop :=
  exists key t d, TypeKey r = Some key /\ nameable fuel key /\ ResolvedTypes graph !! key = Some t /\
    declData_of t = Some d /\ importable (dd_SourceFileInfo d) /\
    (tr_Nullable r = true -> forall e, t <> UserDefinedTypeEnumType e).
Fixpoint type_ready (fuel : nat) (t : FidlType) : Prop :=
  match t with
  | TypeSimpleType (SimpleType_Other _) | TypeHandleType _ (HandleType_Kind_Other _) | TypeUnknown _ => False
  | TypeArrayType _ _ e => type_ready fuel e
  | TypeMapType _ k v => type_ready fuel k /\ type_ready fuel v
  | TypeTypeReference r => ref_ready fuel r
  | _ => True
  end.

(** [m] returns, from every state. *)
Definition returns {A} (m : M translator GeneratorError A) (P : A -> Prop) : Prop :=
  forall t, exists t' a, m t = (t', Ok a) /\ P a.
Lemma returns_ret {A} (a : A) (P : A -> Prop) : P a -> returns (ret a) P.
Proof. intros H t. by exists t, a. Qed.
Lemma returns_bind {A B} (m : M translator GeneratorError A) (k : A -> M translator GeneratorError B) P Q :
  returns m P -> (forall a, P a -> returns (k a) Q) -> returns (bind m k) Q.
Proof.
  intros Hm Hk t. destruct (Hm t) as (t1 & a & Ha & Hp). destruct (Hk a Hp t1) as (t2 & b & Hb & Hq).
  exists t2, b. by rewrite (bind_run_ok _ _ _ _ _ Ha).
Qed.
Lemma returns_must {A} (o : option A) a (P : A -> Prop) : o = Some a -> P a -> returns (must o) P.
Proof. intros -> H t. by exists t, a. Qed.
Lemma returns_modify f (P : unit -> Prop) : P tt -> returns (modify f) P.
Proof. intros H t. by exists (f t), tt. Qed.
Lemma returns_get (P : translator -> Prop) : (forall t, P t) -> returns get P.
Proof. intros H t. by exists t, t. Qed.
Lemma returns_mono {A} (m : M translator GeneratorError A) (P Q : A -> Prop) :
  returns m P -> (forall a, P a -> Q a) -> returns m Q.
Proof. intros Hm H t. destruct (Hm t) as (t' & a & ? & ?). eauto. Qed.
#[local] Abbreviation runs m := (returns m (fun _ => True)).

Lemma goTypeName_runs fuel : forall key, nameable fuel key -> runs (goTypeName graph fuel key).
Proof.
  induction fuel as [|fuel IH]; intros key; [done|]. intros (t & d & Ht & Hd & [short Hs] & Hc). cbn [goTypeName].
  eapply returns_bind; [by apply (returns_get (fun _ => True))|]. intros tr _.
  destruct (goTypeCache tr !! key); [by apply returns_ret|].
  eapply returns_bind; [by apply (returns_must _ t (fun x => x = t))|]. intros ? ->.
  eapply returns_bind.
  { unfold userDefinedTypeShortName, userDefinedTypeDeclData. eapply returns_bind; [by apply (returns_must _ d (fun x => x = d))|].
    intros ? ->. by apply (returns_must _ short (fun _ => True)). }
  intros _short _. eapply (returns_bind _ _ (fun _ => True)).
  - destruct t as [e|s|u|i|]; try by apply returns_ret. cbn [declData_of] in Hd.
    eapply returns_bind; [by apply (returns_must _ d (fun x => x = d))|]. intros ? ->.
    destruct (ContainerTypeKey d) as [c|]; [|by apply returns_ret].
    eapply returns_bind; [by apply IH, Hc|]. intros. by apply returns_ret.
  - intros. eapply returns_bind; [by apply (returns_modify _ (fun _ => True))|]. intros. by apply returns_ret.
Qed.
Lemma translateTypeReference_runs fuel r :
  ref_ready fuel r -> runs (translateTypeReference graph srcRootPath filepath_Rel fuel r).
Proof.
  intros (key & t & d & Hk & Hn & Ht & Hd & Hi & _). unfold translateTypeReference.
  eapply returns_bind; [by apply (returns_must _ key (fun x => x = key))|]. intros ? ->.
  eapply returns_bind; [by apply goTypeName_runs|]. intros name _.
  eapply returns_bind; [by apply (returns_must _ t (fun x => x = t))|]. intros ? ->.
  eapply returns_bind; [by apply (returns_must _ d (fun x => x = d))|]. intros ? ->.
  eapply (returns_bind _ _ (fun _ => True)); [|intros; by apply returns_ret].
  unfold qualified. eapply returns_bind; [by apply (returns_get (fun _ => True))|]. intros tr _.
  destruct (dd_SourceFileInfo d) as [i|]; [|by apply returns_ret].
  case_bool_decide; [by apply returns_ret|]. destruct (Hi i eq_refl) as [rel Hrel].
  eapply (returns_bind _ _ (fun _ => True)); [|intros; by apply returns_ret].
  unfold importFidlFile. eapply returns_bind; [by apply (returns_must _ rel (fun _ => True))|].
  intros. by apply returns_modify.
Qed.
Lemma translateType_runs fuel t : type_ready fuel t -> runs (translateType graph srcRootPath filepath_Rel fuel t).
Proof.
  induction t as [s|n|n l e IH|n k IHk v IHv|n k|r|]; cbn [type_ready translateType]; intros Hr; [| | | | | |done].
  - by destruct s; try apply returns_ret.
  - by apply returns_ret.
  - eapply returns_bind; [by apply IH|]. intros. by apply returns_ret.
  - destruct Hr. eapply returns_bind; [by apply IHk|]. intros. eapply returns_bind; [by apply IHv|].
    intros. by apply returns_ret.
  - eapply returns_bind; [by apply (returns_modify _ (fun _ => True))|]. intros. by destruct k; try apply returns_ret.
  - by apply translateTypeReference_runs.
Qed.

(** ** Sizes *)
Lemma BitSize_setGoType s info : BitSize (setGoType s info) = BitSize info.
Proof. by destruct info. Qed.
(** Only an interface is requested. *)
Definition request_ok (t : FidlType) : Prop :=
  match t with
  | TypeTypeReference r =>
    IsInterfaceRequest r = true -> forall key u, TypeKey r = Some key -> ResolvedTypes graph !! key = Some u ->
      is_interface u = true
  | _ => True
  end.
Lemma typeRef_bits r fuel :
  ref_ready fuel r ->
  returns (typeRefEncodingInfo graph r)
    (fun info => request_ok (TypeTypeReference r) -> mojomTypeBitSize graph (TypeTypeReference r) = Some (BitSize info)).
Proof.
  intros (key & t & d & Hk & _ & Ht & Hdecl & _ & Hnull). unfold typeRefEncodingInfo.
  eapply returns_bind; [by apply (returns_must _ key (fun x => x = key))|]. intros ? ->.
  eapply returns_bind; [by apply (returns_must _ t (fun x => x = t))|]. intros ? ->.
  cbn [request_ok]. unfold mojomTypeBitSize, mojomTypeByteSize, referenceTypeSize, resolved_reference.
  cbn [mojomTypeIsBool]. rewrite Hk. cbn [mbind option_bind]. rewrite Ht.
  assert (exists info0 info, udt_info t (IsInterfaceRequest r) = Some info0 /\
            (if tr_Nullable r then setNullable true info0 else Some info0) = Some info /\
            BitSize info = BitSize info0) as (info0 & info & Hinfo0 & Hinfo & Hbits).
  { destruct (tr_Nullable r); (destruct t as [e|s|u|i|]; [try by destruct (Hnull eq_refl e)|..|done]);
      eexists _, _; (split; [reflexivity|]); by split. }
  eapply returns_bind; [by apply (returns_must _ info0 (fun x => x = info0))|]. intros ? ->.
  apply (returns_mono _ (fun x => x = info)).
  { destruct (tr_Nullable r); [by eapply returns_must|]. injection Hinfo as ->. by apply returns_ret. }
  intros ? -> Hok. rewrite Hbits. destruct t as [e|s|u|i|]; destruct (IsInterfaceRequest r); try done; injection Hinfo0 as <-; try reflexivity;
    by specialize (Hok eq_refl _ _ eq_refl Ht).
Qed.
Lemma encodingInfo_bits fuel t : forall level,
  type_ready fuel t ->
  returns (encodingInfoNested graph srcRootPath filepath_Rel fuel t level)
    (fun info => request_ok t -> mojomTypeBitSize graph t = Some (BitSize info)).
Proof.
  assert (forall t m, type_ready fuel t ->
    returns m (fun info => request_ok t -> mojomTypeBitSize graph t = Some (BitSize info)) ->
    returns (let! info := m in let! goType := translateType graph srcRootPath filepath_Rel fuel t in
             ret (setGoType goType info))
      (fun info => request_ok t -> mojomTypeBitSize graph t = Some (BitSize info))) as Hwrap.
  { intros t' m Hr Hm. eapply returns_bind; [exact Hm|]. intros info Hi.
    eapply returns_bind; [by apply translateType_runs|]. intros goType _. apply returns_ret. by rewrite BitSize_setGoType. }
  induction t as [s|n|n l e IH|n k IHk v IHv|n k|r|]; intros level Hr; cbn [encodingInfoNested]; apply Hwrap; try done.
  - apply returns_ret. by destruct s.
  - by apply returns_ret.
  - eapply returns_bind; [by apply IH|]. intros. by apply returns_ret.
  - destruct Hr. eapply returns_bind; [by apply IHk|]. intros. eapply returns_bind; [by apply IHv|].
    intros. by apply returns_ret.
  - by apply returns_ret.
  - by eapply typeRef_bits.
Qed.
End Go.

(** C39: the size of a type is the same everywhere, except for bool in Rust. For a validated type of the front end with a layout and its translation for the generators, the C generator computes the same byte size and, for a bool, one bit and otherwise eight times as many bits for the elements of an array; the Rust generator computes the same byte size for every type but bool, on which it stops with a fatal error; and the Go translator returns, from every state, an encoding info with the same number of bits, by which the generated code checks the headers of arrays, provided that the referenced types have names and files below the source root. *)
Theorem sizes_agree graph srcRootPath filepath_Rel fuel t t' n :
  validated t -> refers_to_graph graph t -> translateTypeRef t = Some t' -> SerializationSize t = Some n ->
  type_ready graph srcRootPath filepath_Rel fuel t' ->
  let bits := if mojomTypeIsBool t' then 1 else 8 * n in
  mojomTypeByteSize graph t' = Some n /\ mojomTypeBitSize graph t' = Some bits /\
  fidlTypeSize graph t' = (if mojomTypeIsBool t' then None else Some n) /\
  forall tr, exists tr' info, encodingInfo graph srcRootPath filepath_Rel fuel t' tr = (tr', Ok info) /\ BitSize info = bits.
Proof.
  intros Hv Hg Ht Hn Hr bits. pose proof (translated_size _ _ _ Ht Hg) as Hsize. rewrite Hn in Hsize.
  destruct (layout_of t Hv) as (n' & _ & Hn' & _ & _ & _ & Hpos). rewrite Hn in Hn'. injection Hn' as <-.
  assert (mojomTypeBitSize graph t' = Some bits) as Hbits.
  { unfold mojomTypeBitSize. rewrite Hsize. cbn [mbind option_bind]. rewrite u32_small by lia. unfold bits. by destruct (mojomTypeIsBool t'). }
  split; [done|]. split; [done|]. split.
  { destruct t' as [[]| | | | | |]; try exact Hsize. done. }
  intros tr. destruct (encodingInfo_bits graph srcRootPath filepath_Rel fuel t' 0 Hr tr) as (tr' & info & Hrun & Hinfo).
  exists tr', info. split; [exact Hrun|].
  assert (request_ok graph t') as Hq.
  { destruct t as [s|s|h|n' l e|n' k v|r]; cbn in Ht; unfold translateArrayType, translateMapType in Ht;
      try (by simplify_option_eq).
    apply validateAfterResolution_Ok in Hv as (rt & Hrt & Hreq & _). unfold translateUserTypeRef in Ht. rewrite Hrt in Ht.
    injection Ht as <-. cbn. intros Hir key u [= <-] Hu. destruct (Hg rt Hrt) as (u' & Hu' & Hk).
    rewrite Hu in Hu'. injection Hu' as <-. rewrite (Hreq Hir) in Hk. by destruct u. }
  specialize (Hinfo Hq). congruence.
Qed.

Definition a_declaration (name : string) : FidlDeclarationData :=
  mkFidlDeclarationData None (Some name) (Some name) (-1) 0 (Some (mkSourceFileInfo "f.fidl" 0 0)) None None None.
Definition a_graph : FidlFileGraph :=
  mkFidlFileGraph ∅
    {[ "TYPE_KEY:I" := UserDefinedTypeInterfaceType (mkFidlInterface (Some (a_declaration "I")) None ∅ 0) ]} ∅.
Lemma sizes_agree_witness :
  let t' := TypeTypeReference (mkTypeReference false true (Some "I") (Some "TYPE_KEY:I")) in
  mojomTypeByteSize a_graph t' = Some 4 /\ fidlTypeSize a_graph t' = Some 4 /\
  exists tr' info, encodingInfo a_graph "" (fun _ f => Some f) 1 t' NewTranslator = (tr', Ok info) /\ BitSize info = 32.
Proof.
  intros t'.
  destruct (sizes_agree a_graph "" (fun _ f => Some f) 1 (TRUser an_interface_request) t' 4) as (H1 & _ & H3 & H4);
    [reflexivity| |reflexivity|reflexivity| |].
  - intros rt [= <-]. eexists. split; reflexivity.
  - eexists _, _, _. split; [reflexivity|]. split; [eexists _, _; split; [reflexivity|]; split; [reflexivity|]; by split|].
    split; [reflexivity|]. split; [reflexivity|]. split; [by intros i [= <-]|done].
  - split; [exact H1|]. split; [exact H3|]. apply (H4 NewTranslator).
Defined.
