(* ===== verification/GoSpec.v ===== *)
(** * The encoding infos of the Go generator

    The templates generate loops over the elements, keys and values that the
    [EncodingInfo] of a type describes: it has the shape of the type, and its
    identifiers of elements, keys and values are different in nested loops. *)
From S2P Require Export GeneratorsSpec.
#[local] Set Warnings "-clear-no-such-hyp".


(** ** The shape of a type *)
Definition array_of (describes : EncodingInfo -> Prop) (e : EncodingInfo) : Prop :=
  exists b element, e = arrayTypeEncodingInfo b false element (-1) /\ describes element.
Fixpoint describes (graph : FidlFileGraph) (t : FidlType) (e : EncodingInfo) : Prop :=
  match t with
  | TypeSimpleType s =>
    exists b, e = simpleTypeEncodingInfo b (simple_suffix s).2 ("Write" +:+ (simple_suffix s).1) ("Read" +:+ (simple_suffix s).1)
  | TypeStringType n => exists b, e = stringTypeEncodingInfo b n
  | TypeHandleType n _ => exists b r, e = handleTypeEncodingInfo b n r
  | TypeArrayType n l t => exists b element, e = arrayTypeEncodingInfo b n element l /\ describes graph t element
  | TypeMapType n k v =>
    exists b keys values, e = mapTypeEncodingInfo b n keys values /\
      array_of (describes graph k) keys /\ array_of (describes graph v) values
  | TypeTypeReference r =>
    exists key u b, TypeKey r = Some key /\ ResolvedTypes graph !! key = Some u /\ kind_of u <> None /\
      e = match u with
          | UserDefinedTypeStructType _ => structTypeEncodingInfo b (tr_Nullable r)
          | UserDefinedTypeUnionType _ => unionTypeEncodingInfo b (tr_Nullable r) false
          | UserDefinedTypeEnumType _ => enumTypeEncodingInfo b
          | UserDefinedTypeInterfaceType _ => interfaceTypeEncodingInfo b (tr_Nullable r) (IsInterfaceRequest r)
          | UserDefinedTypeUnknown _ => e
          end
  | TypeUnknown _ => False
  end.
Lemma describes_set_base graph t b e : describes graph t e -> describes graph t (set_base b e).
Proof.
  destruct t as [s|n|n l t|n k v|n k|r|]; cbn; [| | | | | |done].
  - intros (? & ->). by eexists.
  - intros (? & ->). by eexists.
  - intros (? & ? & -> & ?). by eexists _, _.
  - intros (? & ? & ? & -> & ? & ?). by eexists _, _, _.
  - intros (? & ? & ->). by eexists _, _.
  - intros (key & u & ? & ? & ? & ? & ->). exists key, u, b. split; [done|]. split; [done|]. split; [done|]. by destruct u.
Qed.

(** ** The identifiers of the loops *)
(** The identifiers that the infos of the elements, keys and values in [e] have
    are none of [used], and those of an inner info none of those around it.  The
    counters and lengths of the loops ([i], [len0]) have fixed names in the
    templates, and an inner loop does declare them again. *)
Fixpoint fresh (used : list string) (e : EncodingInfo) : Prop :=
  match e with
  | arrayTypeEncodingInfo _ _ element _ =>
    (Identifier element ∉ used) /\ fresh (Identifier element :: used) element
  | mapTypeEncodingInfo _ _ keys values =>
    (Identifier keys ∉ used) /\ (Identifier values ∉ used) /\ Identifier keys <> Identifier values /\
    fresh (Identifier keys :: Identifier values :: used) keys /\ fresh (Identifier keys :: Identifier values :: used) values
  | _ => True
  end.
Lemma fresh_set_base used b e : fresh used e -> fresh used (set_base b e).
Proof. by destruct e. Qed.

Definition loop_variables : list string := ["elem"; "keys"; "values"].
Lemma level_id_inj x y l m :
  x ∈ loop_variables -> y ∈ loop_variables -> level_id x l = level_id y m -> x = y /\ l = m.
Proof.
  intros Hx Hy H. assert (x = y) as ->.
  { set_unfold in Hx. set_unfold in Hy. destruct Hx as [->|[->|[->|[]]]], Hy as [->|[->|[->|[]]]]; try done; discriminate H. }
  split; [done|]. unfold level_id, FormatInt in H. apply String.app_inj, pretty_Z_inj in H. lia.
Qed.
(** Variables of loops around level [l], or other names. *)
Definition below (l : nat) (used : list string) : Prop :=
  forall x m, x ∈ loop_variables -> (l <= m)%nat -> level_id x m ∉ used.
Lemma below_fresh l used x : below l used -> x ∈ loop_variables -> level_id x l ∉ used.
Proof. intros H Hx. by apply (H x l). Qed.
Lemma below_S l used : below l used -> below (S l) used.
Proof. intros H x m Hx Hm. apply H; [done|lia]. Qed.
Lemma below_add l used x m : below l used -> x ∈ loop_variables -> (m < l)%nat -> below l (level_id x m :: used).
Proof.
  intros H Hx Hm y k Hy Hk [[_ ->]%level_id_inj|Hu]%elem_of_cons; [lia|done|done|]. by apply (H y k).
Qed.
Lemma level_id_ne x y l : x ∈ loop_variables -> y ∈ loop_variables -> x <> y -> level_id x l <> level_id y l.
Proof. intros Hx Hy Hne H. by apply level_id_inj in H as [? _]. Qed.
Lemma Identifier_setIdentifier id e : Identifier (setIdentifier id e) = id.
Proof. by destruct e. Qed.
Lemma is_elem : "elem" ∈ loop_variables.
Proof. set_solver. Qed.
Lemma is_keys : "keys" ∈ loop_variables.
Proof. set_solver. Qed.
Lemma is_values : "values" ∈ loop_variables.
Proof. set_solver. Qed.

Section Go.
Context (graph : FidlFileGraph) (srcRootPath : string) (filepath_Rel : string -> string -> option string).
#[local] Abbreviation nested := (encodingInfoNested graph srcRootPath filepath_Rel).

Definition well_described (level : nat) (t : FidlType) (e : EncodingInfo) : Prop :=
  describes graph t e /\ forall used, below level used -> fresh used e.
Lemma well_described_set_base level t b e : well_described level t e -> well_described level t (set_base b e).
Proof. intros [Hd Hf]. split; [by apply describes_set_base|]. intros used Hu. by apply fresh_set_base, Hf. Qed.
Lemma setIdentifier_described level t id e : well_described level t e -> well_described level t (setIdentifier id e).
Proof. apply well_described_set_base. Qed.
(** The elements of an array around which only variables of lower levels, and
    some of the same level other than the element, are declared. *)
Lemma element_fresh level t e used :
  well_described (S level) t e -> below (S level) used -> (level_id "elem" level ∉ used) ->
  let element := setIdentifier (level_id "elem" level) e in
  (Identifier element ∉ used) /\ fresh (Identifier element :: used) element.
Proof.
  intros [_ Hf] Hu Hne element. unfold element. rewrite Identifier_setIdentifier. split; [done|].
  apply fresh_set_base, Hf. apply below_add; [done|apply is_elem|lia].
Qed.
Lemma map_array_described name level t e :
  well_described (S level) t e -> array_of (describes graph t) (map_array name level e).
Proof. intros Hd. eexists _, _. split; [reflexivity|]. by apply describes_set_base, Hd. Qed.
Lemma map_array_fresh name level t e used :
  well_described (S level) t e -> below level used ->
  fresh (level_id "keys" level :: level_id "values" level :: used) (map_array name level e).
Proof.
  intros He Hu. eapply element_fresh; [exact He| |].
  { apply below_add; [apply below_add; [by apply below_S|apply is_values|lia]|apply is_keys|lia]. }
  pose proof (level_id_ne "elem" "keys" level is_elem is_keys ltac:(done)).
  pose proof (level_id_ne "elem" "values" level is_elem is_values ltac:(done)).
  pose proof (below_fresh _ _ _ Hu is_elem). set_solver.
Qed.

Lemma typeRef_described fuel r level :
  ref_ready graph srcRootPath filepath_Rel fuel r ->
  returns (typeRefEncodingInfo graph r) (well_described level (TypeTypeReference r)).
Proof.
  intros (key & t & d & Hk & _ & Ht & Hdecl & _ & Hnull). unfold typeRefEncodingInfo.
  eapply returns_bind; [by apply (returns_must _ key (fun x => x = key))|]. intros ? ->.
  eapply returns_bind; [by apply (returns_must _ t (fun x => x = t))|]. intros ? ->.
  assert (exists info0 info, udt_info t (IsInterfaceRequest r) = Some info0 /\
            (if tr_Nullable r then setNullable true info0 else Some info0) = Some info /\
            well_described level (TypeTypeReference r) info) as (info0 & info & Hinfo0 & Hinfo & Hd).
  { destruct (tr_Nullable r) eqn:Hn; (destruct t as [e|s|u|i|]; [try by destruct (Hnull eq_refl e)|..|done]);
      (eexists _, _; split; [reflexivity|]; split; [reflexivity|]; split; [|done]); cbn [describes]; rewrite Hn; eexists key, _, _;
      (split; [done|]); (split; [done|]); by split. }
  eapply returns_bind; [by apply (returns_must _ info0 (fun x => x = info0))|]. intros ? ->.
  destruct (tr_Nullable r); [by eapply returns_must|]. injection Hinfo as <-. by apply returns_ret.
Qed.
Lemma encodingInfo_described fuel t : forall level,
  type_ready graph srcRootPath filepath_Rel fuel t -> returns (nested fuel t level) (well_described level t).
Proof.
  assert (forall t level m, type_ready graph srcRootPath filepath_Rel fuel t -> returns m (well_described level t) ->
    returns (let! info := m in let! goType := translateType graph srcRootPath filepath_Rel fuel t in
             ret (setGoType goType info)) (well_described level t)) as Hwrap.
  { intros t' level m Hr Hm. eapply returns_bind; [exact Hm|]. intros info Hi.
    eapply returns_bind; [by apply translateType_runs|]. intros goType _. by apply returns_ret, well_described_set_base. }
  induction t as [s|n|n l e IH|n k IHk v IHv|n k|r|]; intros level Hr; cbn [encodingInfoNested]; apply Hwrap; try done.
  - apply returns_ret. split; [|by destruct s]. exists empty_base. by destruct s.
  - apply returns_ret. split; [by eexists|done].
  - eapply returns_bind; [by apply IH|]. intros info Hi. apply returns_ret. split.
    + eexists _, _. split; [reflexivity|]. by apply describes_set_base, Hi.
    + intros used Hu. by eapply element_fresh; [|apply below_S|apply below_fresh, is_elem].
  - destruct Hr as [Hk Hv]. eapply returns_bind; [by apply IHk|]. intros ki Hki.
    eapply returns_bind; [by apply IHv|]. intros vi Hvi. apply returns_ret. split.
    + eexists _, _, _. split; [reflexivity|]. split; by eapply map_array_described.
    + intros used Hu. cbn [fresh]. split; [by apply below_fresh, is_keys|]. split; [by apply below_fresh, is_values|].
      split; [by apply level_id_ne; [apply is_keys|apply is_values|]|]. split; by eapply map_array_fresh.
  - apply returns_ret. split; [by eexists _, _|done].
  - by eapply typeRef_described.
Qed.
End Go.

(** The identifiers that the translator gives to the values of fields. *)
Definition field_value (id : string) : Prop := (exists name, id = "s." +:+ name) \/ id = "u.Value".
Lemma field_value_below id : field_value id -> below 0 [id].
Proof.
  intros Hid x m Hx _ Heq0%list_elem_of_singleton. rewrite <- Heq0 in Hid. set_unfold in Hx.
  destruct Hid as [[name Heq]|Heq], Hx as [->|[->|[->|[]]]]; discriminate Heq.
Qed.

(** C40: the encoding info of a type is a faithful description of it. For a type whose references have names, are to files below the source root and not to nullable enums, the translator returns from every state, and the info has the kind, the nullability, the fixed size, the element, key and value types and the reader and writer of scalars that the type has, nested to every depth. Once the field has its identifier, the identifiers that the info gives to the elements, keys and values differ from the identifier of the field and from those that the infos around them have; nothing is said of the counters and lengths that the templates name themselves, which do shadow each other in nested loops. *)
Theorem encodingInfo_describes graph srcRootPath filepath_Rel fuel t id tr :
  type_ready graph srcRootPath filepath_Rel fuel t -> field_value id ->
  exists tr' info, encodingInfo graph srcRootPath filepath_Rel fuel t tr = (tr', Ok info) /\
    describes graph t info /\ fresh [id] (setIdentifier id info).
Proof.
  intros Hr Hid. destruct (encodingInfo_described graph srcRootPath filepath_Rel fuel t 0 Hr tr) as (tr' & info & Hrun & Hd & Hf).
  exists tr', info. split; [exact Hrun|]. split; [done|]. by apply fresh_set_base, Hf, field_value_below.
Qed.
Lemma encodingInfo_describes_witness :
  let t := TypeMapType true (TypeStringType false) (TypeArrayType false 3 (TypeArrayType true (-1) (TypeSimpleType SimpleType_Bool))) in
  exists tr' info, encodingInfo a_graph "" (fun _ f => Some f) 1 t NewTranslator = (tr', Ok info) /\
    describes a_graph t info /\ fresh ["s.Field"] (setIdentifier "s.Field" info).
Proof. intros t. apply encodingInfo_describes; [by repeat split|left; by exists "Field"]. Defined.
