(* ===== verification/FloatBits.v ===== *)
(** * The bits of floating-point numbers

    [math.Float64bits], [math.Float32bits] and their inverses (Go's standard
    library) on the [spec_float] by which the values of literals are represented.
    The encoder and the decoder see only the bits.  [spec_float] has one NaN: it
    is given the pattern of the quiet one. *)
From Stdlib Require Export SpecFloat.
From S2P Require Export Prelude.

Section Format.
(** The widths of the mantissa and of the exponent. *)
Context (mw ew : Z).
Definition emin_of : Z := 3 - 2 ^ (ew - 1) - (mw + 1).
Definition join_bits (sign : bool) (exponent mantissa : Z) : Z :=
  (if sign then 2 ^ (mw + ew) else 0) + exponent * 2 ^ mw + mantissa.
Definition float_bits (f : spec_float) : Z :=
  match f with
  | S754_zero s => join_bits s 0 0
  | S754_infinity s => join_bits s (2 ^ ew - 1) 0
  | S754_nan => join_bits false (2 ^ ew - 1) (2 ^ (mw - 1))
  | S754_finite s m e =>
    if Zpos m <? 2 ^ mw then join_bits s 0 (Zpos m)
    else join_bits s (e - emin_of + 1) (Zpos m - 2 ^ mw)
  end.
Definition float_frombits (bits : Z) : spec_float :=
  let s := 2 ^ (mw + ew) <=? bits in
  let e := (bits / 2 ^ mw) mod 2 ^ ew in
  let m := bits mod 2 ^ mw in
  if e =? 0 then match m with Zpos m => S754_finite s m emin_of | _ => S754_zero s end
  else if e =? 2 ^ ew - 1 then if m =? 0 then S754_infinity s else S754_nan
  else match m + 2 ^ mw with Zpos m => S754_finite s m (e - 1 + emin_of) | _ => S754_nan end.

Context (Hmw : 0 < mw) (Hew : 1 < ew).

(** The number is representable in the format. *)
Definition float_ok (f : spec_float) : Prop := valid_binary (mw + 1) (2 ^ (ew - 1)) f = true.

Lemma join_bits_range s e m :
  0 <= e < 2 ^ ew -> 0 <= m < 2 ^ mw -> 0 <= join_bits s e m < 2 ^ (mw + ew + 1).
Proof.
  intros He Hm. unfold join_bits. rewrite !Z.pow_add_r by lia. change (2 ^ 1) with 2.
  pose proof (Z.pow_pos_nonneg 2 mw). destruct s; nia.
Qed.
Lemma join_bits_split s e m :
  0 <= e < 2 ^ ew -> 0 <= m < 2 ^ mw ->
  (2 ^ (mw + ew) <=? join_bits s e m) = s /\ (join_bits s e m / 2 ^ mw) mod 2 ^ ew = e /\
  join_bits s e m mod 2 ^ mw = m.
Proof.
  intros He Hm. unfold join_bits. rewrite !Z.pow_add_r by lia.
  pose proof (Z.pow_pos_nonneg 2 mw). set (A := 2 ^ mw) in *. set (B := 2 ^ ew) in *.
  assert ((if s then A * B else 0) = A * (if s then B else 0)) as -> by (destruct s; lia).
  replace (A * (if s then B else 0) + e * A + m) with (m + ((if s then B else 0) + e) * A) by lia.
  split_and!.
  - destruct s; [apply Z.leb_le|apply Z.leb_gt]; nia.
  - rewrite Z.div_add, (Z.div_small m) by lia.
    replace (0 + ((if s then B else 0) + e)) with (e + (if s then 1 else 0) * B) by (destruct s; lia).
    rewrite Z.mod_add by lia. by apply Z.mod_small.
  - rewrite Z.mod_add by lia. by apply Z.mod_small.
Qed.

Lemma digits2_bounds p : 2 ^ (Zpos (digits2_pos p) - 1) <= Zpos p < 2 ^ Zpos (digits2_pos p).
Proof.
  induction p as [p IH|p IH|]; cbn [digits2_pos]; [| |done];
    rewrite Pos2Z.inj_succ; replace (Z.succ (Zpos (digits2_pos p)) - 1) with (Zpos (digits2_pos p) - 1 + 1) by lia;
    rewrite Z.pow_succ_r, Z.pow_add_r by lia; change (2 ^ 1) with 2; lia.
Qed.

(** A finite number of the format is normal, or it has the least exponent. *)
Lemma finite_ok s m e :
  float_ok (S754_finite s m e) ->
  Zpos m < 2 ^ (mw + 1) /\ emin_of <= e <= 2 ^ (ew - 1) - (mw + 1) /\ (Zpos m < 2 ^ mw -> e = emin_of).
Proof.
  unfold float_ok, valid_binary, SpecFloat.bounded, canonical_mantissa, fexp, SpecFloat.emin.
  fold emin_of. intros [Hc%Z.eqb_eq He%Zle_bool_imp_le]%andb_prop.
  pose proof (digits2_bounds m) as Hd. split_and!; [|lia..|].
  - eapply Z.lt_le_trans; [apply Hd|]. apply Z.pow_le_mono_r; lia.
  - intros Hm. assert (Zpos (digits2_pos m) - 1 < mw); [|lia].
    apply (Z.pow_lt_mono_r_iff 2); lia.
Qed.

Lemma emin_top : 2 ^ (ew - 1) - (mw + 1) - emin_of + 1 = 2 ^ ew - 2.
Proof.
  unfold emin_of. replace ew with (ew - 1 + 1) at 3 by lia. rewrite Z.pow_add_r by lia.
  change (2 ^ 1) with 2. lia.
Qed.

Lemma exp_pos : 4 <= 2 ^ ew.
Proof. change 4 with (2 ^ 2). apply Z.pow_le_mono_r; lia. Qed.

Lemma float_bits_range f : float_ok f -> 0 <= float_bits f < 2 ^ (mw + ew + 1).
Proof.
  pose proof exp_pos. pose proof (Z.pow_pos_nonneg 2 mw).
  assert (2 ^ (mw - 1) < 2 ^ mw) by (apply Z.pow_lt_mono_r; lia).
  pose proof (Z.pow_pos_nonneg 2 (mw - 1)).
  destruct f as [s|s| |s m e]; intros Hf; cbn [float_bits]; try (apply join_bits_range; lia).
  pose proof emin_top. apply finite_ok in Hf as (Hm & He & _).
  rewrite Z.pow_add_r in Hm by lia. change (2 ^ 1) with 2 in Hm.
  case_match eqn:E; [apply Z.ltb_lt in E|apply Z.ltb_ge in E]; apply join_bits_range; lia.
Qed.

Lemma float_frombits_bits f : float_ok f -> float_frombits (float_bits f) = f.
Proof.
  pose proof exp_pos. pose proof (Z.pow_pos_nonneg 2 mw).
  assert (2 ^ (mw - 1) < 2 ^ mw) by (apply Z.pow_lt_mono_r; lia).
  pose proof (Z.pow_pos_nonneg 2 (mw - 1)).
  assert (forall s e m, 0 <= e < 2 ^ ew -> 0 <= m < 2 ^ mw ->
    float_frombits (join_bits s e m) =
      if e =? 0 then match m with Zpos m => S754_finite s m emin_of | _ => S754_zero s end
      else if e =? 2 ^ ew - 1 then if m =? 0 then S754_infinity s else S754_nan
      else match m + 2 ^ mw with Zpos m => S754_finite s m (e - 1 + emin_of) | _ => S754_nan end) as Hj.
  { intros s e m He Hm. destruct (join_bits_split s e m He Hm) as (E1 & E2 & E3).
    unfold float_frombits. by rewrite E1, E2, E3. }
  destruct f as [s|s| |s m e]; intros Hf; cbn [float_bits].
  - by rewrite Hj by lia.
  - rewrite Hj by lia. by rewrite (proj2 (Z.eqb_neq _ _)), Z.eqb_refl by lia.
  - rewrite Hj by lia. rewrite (proj2 (Z.eqb_neq _ 0)), Z.eqb_refl by lia.
    by rewrite (proj2 (Z.eqb_neq _ 0)) by lia.
  - pose proof emin_top. apply finite_ok in Hf as (Hm & He & Hsub).
    rewrite Z.pow_add_r in Hm by lia. change (2 ^ 1) with 2 in Hm.
    case_match eqn:E; [apply Z.ltb_lt in E|apply Z.ltb_ge in E]; rewrite Hj by lia.
    + by rewrite Hsub by done.
    + rewrite (proj2 (Z.eqb_neq _ 0)), (proj2 (Z.eqb_neq _ _)) by lia.
      replace (Zpos m - 2 ^ mw + 2 ^ mw) with (Zpos m) by lia. f_equal. lia.
Qed.

(** Conversely, every pattern of bits is the one of a number of the format. *)
Lemma digits2_unique p n : 0 < n -> 2 ^ (n - 1) <= Zpos p < 2 ^ n -> Zpos (digits2_pos p) = n.
Proof.
  intros Hn Hp. pose proof (digits2_bounds p) as Hd.
  assert (Zpos (digits2_pos p) - 1 < n) by (apply (Z.pow_lt_mono_r_iff 2); lia).
  assert (n - 1 < Zpos (digits2_pos p)) by (apply (Z.pow_lt_mono_r_iff 2); lia). lia.
Qed.
Lemma finite_is_ok s m e :
  Zpos m < 2 ^ (mw + 1) -> emin_of <= e <= 2 ^ (ew - 1) - (mw + 1) -> (Zpos m < 2 ^ mw -> e = emin_of) ->
  float_ok (S754_finite s m e).
Proof.
  intros Hm He Hsub. unfold float_ok, valid_binary, SpecFloat.bounded, canonical_mantissa, fexp, SpecFloat.emin.
  fold emin_of. apply andb_true_intro. split; [|apply Zle_imp_le_bool; lia]. apply Z.eqb_eq.
  destruct (Z.lt_ge_cases (Zpos m) (2 ^ mw)) as [Hlt|Hge].
  - rewrite Hsub in * by done. assert (Zpos (digits2_pos m) - 1 < mw); [|lia].
    apply (Z.pow_lt_mono_r_iff 2); [lia|lia|]. pose proof (digits2_bounds m). lia.
  - rewrite (digits2_unique m (mw + 1)); [lia|lia|]. split; [|done]. by replace (mw + 1 - 1) with mw by lia.
Qed.
Lemma float_frombits_ok bits : float_ok (float_frombits bits).
Proof.
  pose proof exp_pos. pose proof (Z.pow_pos_nonneg 2 mw). pose proof emin_top. unfold float_frombits.
  set (m := bits mod 2 ^ mw). assert (0 <= m < 2 ^ mw) by (apply Z.mod_pos_bound; lia).
  set (e := (bits / 2 ^ mw) mod 2 ^ ew). assert (0 <= e < 2 ^ ew) by (apply Z.mod_pos_bound; lia).
  assert (2 ^ (mw + 1) = 2 * 2 ^ mw) by (rewrite Z.pow_add_r by lia; lia).
  destruct (Z.eqb_spec e 0); [|destruct (Z.eqb_spec e (2 ^ ew - 1))].
  - destruct m as [|m|m]; [done| |done]. apply finite_is_ok; lia.
  - by destruct (m =? 0).
  - destruct (m + 2 ^ mw) as [|m'|m'] eqn:E; [done| |done]. apply finite_is_ok; lia.
Qed.
End Format.

(** ** The two formats *)
Definition Float64bits_ : spec_float -> Z := float_bits 52 11.
Definition Float64frombits_ : Z -> spec_float := float_frombits 52 11.
Definition Float32bits_ : spec_float -> Z := float_bits 23 8.
Definition Float32frombits_ : Z -> spec_float := float_frombits 23 8.

Example Float64bits_1 : Float64bits_ (S754_finite false 5629499534213120 (-51)) = 0x4004000000000000.
Proof. reflexivity. Qed.
Example Float32bits_1 : Float32bits_ (S754_finite true 8388608 (-23)) = 0xbf800000.
Proof. reflexivity. Qed.
