(* ===== verification/FidlEncode.v ===== *)
(** * Encoding the intermediate representation

    The Encode methods of go/src/fidl/compiler/generated/fidl_types and
    fidl_files, which the compiler's own Go generator made of fidl_types.fidl and
    fidl_files.fidl.  Every struct and every variant of a union has a Definition
    [<type>_Encode] that makes the calls of its method, on the [Encoder] of the
    bindings; the first section has the pieces of which the template builds them.
    The types of FidlTypes that are no options have no nil: the test for a nil
    interface, which returns an error, is left out.  A map is ranged over in an
    order that is a parameter. *)
From Stdlib Require Import Ascii String.
From stdpp Require Import sorting.
From S2P Require Export FidlTypes FloatBits.
From S2P Require Import Wire Encoder.

Definition string_le (s t : string) : Prop := String.leb s t = true.
#[export] Instance string_le_dec : RelDecision string_le.
Proof. intros s t. unfold string_le. apply _. Defined.

(** The bytes of a string. *)
Definition string_bytes (s : string) : list Z :=
  map (fun a => Z.of_N (N_of_ascii a)) (list_ascii_of_string s).
Definition bytes_string (bs : list Z) : string :=
  string_of_list_ascii (map (fun b => ascii_of_N (Z.to_N b)) bs).

(** ** Integers of enums *)
Definition SimpleType_value (t : FidlSimpleType) : Z :=
  match t with
  | SimpleType_Bool => 0
  | SimpleType_Double => 1
  | SimpleType_Float => 2
  | SimpleType_Int8 => 3
  | SimpleType_Int16 => 4
  | SimpleType_Int32 => 5
  | SimpleType_Int64 => 6
  | SimpleType_Uint8 => 7
  | SimpleType_Uint16 => 8
  | SimpleType_Uint32 => 9
  | SimpleType_Uint64 => 10
  | SimpleType_Other z => z
  end.
Definition HandleType_Kind_value (k : HandleType_Kind) : Z :=
  match k with
  | HandleType_Kind_Unspecified => 0
  | HandleType_Kind_Channel => 1
  | HandleType_Kind_Vmo => 4
  | HandleType_Kind_Process => 5
  | HandleType_Kind_Thread => 6
  | HandleType_Kind_Event => 7
  | HandleType_Kind_Port => 8
  | HandleType_Kind_Job => 9
  | HandleType_Kind_Socket => 10
  | HandleType_Kind_EventPair => 11
  | HandleType_Kind_Other z => z
  end.
Definition BuiltinConstantValue_value (v : BuiltinConstantValue) : Z :=
  match v with
  | BuiltinConstantValue_DoubleInfinity => 0
  | BuiltinConstantValue_DoubleNegativeInfinity => 1
  | BuiltinConstantValue_DoubleNan => 2
  | BuiltinConstantValue_FloatInfinity => 3
  | BuiltinConstantValue_FloatNegativeInfinity => 4
  | BuiltinConstantValue_FloatNan => 5
  | BuiltinConstantValue_Other z => z
  end.

(** ** What the template is made of *)

(** A call whose error is dropped. *)
Definition ignore (m : EM unit) : EM unit := fun e =>
  match m e with
  | (e', Panic) => (e', Panic)
  | (e', _) => (e', Ok tt)
  end.
Definition write_pointer {A} (w : A -> EM unit) (a : A) : EM unit := WritePointer ;;; w a.
Definition write_optional {A} (w : A -> EM unit) (o : option A) : EM unit :=
  match o with
  | None => ignore WriteNullPointer
  | Some a => WritePointer ;;; w a
  end.
Definition write_nullable_union {A} (w : A -> EM unit) (o : option A) : EM unit :=
  match o with
  | None => ignore WriteNullUnion
  | Some a => w a
  end.
Fixpoint write_each {A} (w : A -> EM unit) (l : list A) : EM unit :=
  match l with
  | [] => ret tt
  | a :: l => w a ;;; write_each w l
  end.
Definition write_array {A} (elementBitSize : Z) (w : A -> EM unit) (l : list A) : EM unit :=
  StartArray (u32 (len l)) elementBitSize ;;; write_each w l ;;; Finish.
(** An array of pointers to its elements. *)
Definition write_pointers {A} (w : A -> EM unit) (l : list A) : EM unit := write_array 64 (write_pointer w) l.
Definition write_string (s : string) : EM unit := WriteString (string_bytes s).
Definition write_strings (l : list string) : EM unit := write_pointers write_string l.
(** [range] gives the keys in the order of the loop over the map, and
    [SortMapKeys] sorts them. *)
Definition write_map {K A} `{Countable K} (range : gmap K A -> list K) (SortMapKeys : list K -> list K)
    (keyBitSize : Z) (write_key : K -> EM unit) (valueBitSize : Z) (write_value : A -> EM unit)
    (m : gmap K A) : EM unit :=
  StartMap ;;;
  let! e := get in
  let keys := if Deterministic e then SortMapKeys (range m) else range m in
  let values := omap (fun k => m !! k) keys in
  WritePointer ;;;
  write_array keyBitSize write_key keys ;;;
  WritePointer ;;;
  write_array valueBitSize write_value values ;;;
  Finish.
Definition write_union (tag : Z) (value : EM unit) : EM unit :=
  ignore (WriteUnionHeader tag) ;;; value ;;; FinishWritingUnionValue.
(** A union inside a union is behind a pointer. *)
Definition write_nested_union (union : EM unit) : EM unit :=
  WritePointer ;;; StartNestedUnion ;;; union ;;; ignore Finish.
Definition unknown_union {A} (name : string) : EM A :=
  throw (Errorf ("Trying to serialize an unknown " +:+ name +:+ ". There is no sane way to do that!") []).

Definition sort_uint32 : list Z -> list Z := merge_sort Z.le.
Definition sort_strings : list string -> list string := merge_sort string_le.

(** ** Types *)
Definition StringType_Encode (nullable : bool) : EM unit :=
  StartStruct 8 0 ;;; WriteBool nullable ;;; Finish.
Definition HandleType_Encode (nullable : bool) (kind : HandleType_Kind) : EM unit :=
  StartStruct 8 0 ;;; WriteBool nullable ;;; WriteInt32 (HandleType_Kind_value kind) ;;; Finish.
Definition ArrayType_Encode (nullable : bool) (fixedLength : Z) (elementType : EM unit) : EM unit :=
  StartStruct 24 0 ;;; WriteBool nullable ;;; WriteInt32 fixedLength ;;; elementType ;;; Finish.
Definition MapType_Encode (nullable : bool) (keyType valueType : EM unit) : EM unit :=
  StartStruct 40 0 ;;; WriteBool nullable ;;; keyType ;;; valueType ;;; Finish.
Definition TypeReference_Encode (s : TypeReference) : EM unit :=
  StartStruct 24 0 ;;;
  WriteBool (tr_Nullable s) ;;;
  WriteBool (IsInterfaceRequest s) ;;;
  write_optional write_string (tr_Identifier s) ;;;
  write_optional write_string (TypeKey s) ;;;
  Finish.
Definition TypeUnknown_Encode : EM unit := unknown_union "Type".
Definition TypeSimpleType_Encode (t : FidlSimpleType) : EM unit := write_union 0 (WriteInt32 (SimpleType_value t)).
Definition TypeStringType_Encode (nullable : bool) : EM unit := write_union 1 (WritePointer ;;; StringType_Encode nullable).
Definition TypeArrayType_Encode (nullable : bool) (fixedLength : Z) (elementType : EM unit) : EM unit :=
  write_union 2 (WritePointer ;;; ArrayType_Encode nullable fixedLength elementType).
Definition TypeMapType_Encode (nullable : bool) (keyType valueType : EM unit) : EM unit :=
  write_union 3 (WritePointer ;;; MapType_Encode nullable keyType valueType).
Definition TypeHandleType_Encode (nullable : bool) (kind : HandleType_Kind) : EM unit :=
  write_union 4 (WritePointer ;;; HandleType_Encode nullable kind).
Definition TypeTypeReference_Encode (r : TypeReference) : EM unit :=
  write_union 5 (WritePointer ;;; TypeReference_Encode r).
(** The method of the dynamic type. *)
Fixpoint Type_Encode (t : FidlType) : EM unit :=
  match t with
  | TypeSimpleType t => TypeSimpleType_Encode t
  | TypeStringType n => TypeStringType_Encode n
  | TypeArrayType n l e => TypeArrayType_Encode n l (Type_Encode e)
  | TypeMapType n k v => TypeMapType_Encode n (Type_Encode k) (Type_Encode v)
  | TypeHandleType n k => TypeHandleType_Encode n k
  | TypeTypeReference r => TypeTypeReference_Encode r
  | TypeUnknown _ => TypeUnknown_Encode
  end.

(** ** Values *)
Definition LiteralValueUnknown_Encode : EM unit := unknown_union "LiteralValue".
Definition LiteralValueBoolValue_Encode (v : bool) : EM unit := write_union 0 (WriteBool v).
Definition LiteralValueDoubleValue_Encode (v : spec_float) : EM unit := write_union 1 (WriteFloat64 (Float64bits_ v)).
Definition LiteralValueFloatValue_Encode (v : spec_float) : EM unit := write_union 2 (WriteFloat32 (Float32bits_ v)).
Definition LiteralValueInt8Value_Encode (v : Z) : EM unit := write_union 3 (WriteInt8 v).
Definition LiteralValueInt16Value_Encode (v : Z) : EM unit := write_union 4 (WriteInt16 v).
Definition LiteralValueInt32Value_Encode (v : Z) : EM unit := write_union 5 (WriteInt32 v).
Definition LiteralValueInt64Value_Encode (v : Z) : EM unit := write_union 6 (WriteInt64 v).
Definition LiteralValueStringValue_Encode (v : string) : EM unit := write_union 7 (WritePointer ;;; write_string v).
Definition LiteralValueUint8Value_Encode (v : Z) : EM unit := write_union 8 (WriteUint8 v).
Definition LiteralValueUint16Value_Encode (v : Z) : EM unit := write_union 9 (WriteUint16 v).
Definition LiteralValueUint32Value_Encode (v : Z) : EM unit := write_union 10 (WriteUint32 v).
Definition LiteralValueUint64Value_Encode (v : Z) : EM unit := write_union 11 (WriteUint64 v).
Definition LiteralValue_Encode (v : FidlLiteralValue) : EM unit :=
  match v with
  | LiteralValueBoolValue b => LiteralValueBoolValue_Encode b
  | LiteralValueDoubleValue f => LiteralValueDoubleValue_Encode f
  | LiteralValueFloatValue f => LiteralValueFloatValue_Encode f
  | LiteralValueInt8Value z => LiteralValueInt8Value_Encode z
  | LiteralValueInt16Value z => LiteralValueInt16Value_Encode z
  | LiteralValueInt32Value z => LiteralValueInt32Value_Encode z
  | LiteralValueInt64Value z => LiteralValueInt64Value_Encode z
  | LiteralValueStringValue s => LiteralValueStringValue_Encode s
  | LiteralValueUint8Value z => LiteralValueUint8Value_Encode z
  | LiteralValueUint16Value z => LiteralValueUint16Value_Encode z
  | LiteralValueUint32Value z => LiteralValueUint32Value_Encode z
  | LiteralValueUint64Value z => LiteralValueUint64Value_Encode z
  | LiteralValueUnknown _ => LiteralValueUnknown_Encode
  end.
Definition ConstantReference_Encode (s : ConstantReference) : EM unit :=
  StartStruct 16 0 ;;;
  write_pointer write_string (cr_Identifier s) ;;;
  write_pointer write_string (ConstantKey s) ;;;
  Finish.
Definition EnumValueReference_Encode (s : EnumValueReference) : EM unit :=
  StartStruct 24 0 ;;;
  write_pointer write_string (er_Identifier s) ;;;
  write_pointer write_string (EnumTypeKey s) ;;;
  WriteUint32 (EnumValueIndex s) ;;;
  Finish.
Definition ValueUnknown_Encode : EM unit := unknown_union "Value".
Definition ValueLiteralValue_Encode (v : FidlLiteralValue) : EM unit :=
  write_union 0 (write_nested_union (LiteralValue_Encode v)).
Definition ValueConstantReference_Encode (r : ConstantReference) : EM unit :=
  write_union 1 (WritePointer ;;; ConstantReference_Encode r).
Definition ValueEnumValueReference_Encode (r : EnumValueReference) : EM unit :=
  write_union 2 (WritePointer ;;; EnumValueReference_Encode r).
Definition ValueBuiltinValue_Encode (v : BuiltinConstantValue) : EM unit :=
  write_union 3 (WriteInt32 (BuiltinConstantValue_value v)).
Definition Value_Encode (v : FidlValue) : EM unit :=
  match v with
  | ValueLiteralValue v => ValueLiteralValue_Encode v
  | ValueConstantReference r => ValueConstantReference_Encode r
  | ValueEnumValueReference r => ValueEnumValueReference_Encode r
  | ValueBuiltinValue v => ValueBuiltinValue_Encode v
  | ValueUnknown _ => ValueUnknown_Encode
  end.
Definition DefaultKeyword_Encode : EM unit := StartStruct 0 0 ;;; Finish.
Definition DefaultFieldValueUnknown_Encode : EM unit := unknown_union "DefaultFieldValue".
Definition DefaultFieldValueValue_Encode (v : FidlValue) : EM unit :=
  write_union 0 (write_nested_union (Value_Encode v)).
Definition DefaultFieldValueDefaultKeyword_Encode : EM unit :=
  write_union 1 (WritePointer ;;; DefaultKeyword_Encode).
Definition DefaultFieldValue_Encode (v : DefaultFieldValue) : EM unit :=
  match v with
  | DefaultFieldValueValue v => DefaultFieldValueValue_Encode v
  | DefaultFieldValueDefaultKeyword => DefaultFieldValueDefaultKeyword_Encode
  | DefaultFieldValueUnknown _ => DefaultFieldValueUnknown_Encode
  end.

(** ** Declarations *)
Definition Attribute_Encode (s : FidlAttribute) : EM unit :=
  StartStruct 24 0 ;;; write_pointer write_string (at_Key s) ;;; LiteralValue_Encode (at_Value s) ;;; Finish.
Definition SourceFileInfo_Encode (s : SourceFileInfo) : EM unit :=
  StartStruct 16 0 ;;;
  write_pointer write_string (FileName s) ;;;
  WriteUint32 (LineNumber s) ;;;
  WriteUint32 (ColumnNumber s) ;;;
  Finish.
Definition ContainedDeclarations_Encode (s : ContainedDeclarations) : EM unit :=
  StartStruct 16 0 ;;;
  write_optional write_strings (cd_Enums s) ;;;
  write_optional write_strings (cd_Constants s) ;;;
  Finish.
Fixpoint Comments_Encode (s : FidlComments) : EM unit :=
  match s with
  | mkFidlComments ForAttributes Above Left Right AtBottom =>
    StartStruct 40 0 ;;;
    match ForAttributes with
    | None => ignore WriteNullPointer
    | Some c => WritePointer ;;; Comments_Encode c
    end ;;;
    write_pointer write_strings Above ;;;
    write_pointer write_strings Left ;;;
    write_pointer write_strings Right ;;;
    write_pointer write_strings AtBottom ;;;
    Finish
  end.
Definition DeclarationData_Encode (s : FidlDeclarationData) : EM unit :=
  StartStruct 64 0 ;;;
  write_optional (write_pointers Attribute_Encode) (dd_Attributes s) ;;;
  write_optional write_string (ShortName s) ;;;
  write_optional write_string (FullIdentifier s) ;;;
  WriteInt32 (DeclaredOrdinal s) ;;;
  WriteInt32 (DeclarationOrder s) ;;;
  write_optional SourceFileInfo_Encode (dd_SourceFileInfo s) ;;;
  write_optional ContainedDeclarations_Encode (dd_ContainedDeclarations s) ;;;
  write_optional write_string (ContainerTypeKey s) ;;;
  write_optional Comments_Encode (dd_Comments s) ;;;
  Finish.
Definition StructField_Encode (s : FidlStructField) : EM unit :=
  StartStruct 56 0 ;;;
  write_optional DeclarationData_Encode (sf_DeclData s) ;;;
  Type_Encode (sf_Type s) ;;;
  write_nullable_union DefaultFieldValue_Encode (sf_DefaultValue s) ;;;
  WriteUint32 (sf_Offset s) ;;;
  WriteInt8 (sf_Bit s) ;;;
  WriteUint32 (sf_MinVersion s) ;;;
  Finish.
Definition StructVersion_Encode (s : FidlStructVersion) : EM unit :=
  StartStruct 16 0 ;;;
  WriteUint32 (sv_VersionNumber s) ;;;
  WriteUint32 (sv_NumFields s) ;;;
  WriteUint32 (sv_NumBytes s) ;;;
  Finish.
Definition FidlStruct_Encode (s : FidlStruct) : EM unit :=
  StartStruct 24 0 ;;;
  write_optional DeclarationData_Encode (st_DeclData s) ;;;
  write_pointer (write_pointers StructField_Encode) (Fields s) ;;;
  write_optional (write_pointers StructVersion_Encode) (st_VersionInfo s) ;;;
  Finish.
Definition UnionField_Encode (s : FidlUnionField) : EM unit :=
  StartStruct 32 0 ;;;
  write_optional DeclarationData_Encode (uf_DeclData s) ;;;
  Type_Encode (uf_Type s) ;;;
  WriteUint32 (uf_Tag s) ;;;
  Finish.
Definition FidlUnion_Encode (s : FidlUnion) : EM unit :=
  StartStruct 16 0 ;;;
  write_optional DeclarationData_Encode (fu_DeclData s) ;;;
  write_pointer (write_pointers UnionField_Encode) (fu_Fields s) ;;;
  Finish.
Definition EnumValue_Encode (s : FidlEnumValue) : EM unit :=
  StartStruct 32 0 ;;;
  write_optional DeclarationData_Encode (fv_DeclData s) ;;;
  write_nullable_union Value_Encode (InitializerValue_ s) ;;;
  WriteInt32 (IntValue s) ;;;
  Finish.
Definition FidlEnum_Encode (s : FidlEnum) : EM unit :=
  StartStruct 16 0 ;;;
  write_optional DeclarationData_Encode (fe_DeclData s) ;;;
  write_pointer (write_pointers EnumValue_Encode) (fe_Values s) ;;;
  Finish.
Definition FidlMethod_Encode (s : FidlMethod) : EM unit :=
  StartStruct 32 0 ;;;
  write_optional DeclarationData_Encode (fm_DeclData s) ;;;
  write_pointer FidlStruct_Encode (fm_Parameters s) ;;;
  write_optional FidlStruct_Encode (fm_ResponseParams s) ;;;
  WriteUint32 (fm_Ordinal s) ;;;
  WriteUint32 (fm_MinVersion s) ;;;
  Finish.
Definition DeclaredConstant_Encode (s : DeclaredConstant) : EM unit :=
  StartStruct 56 0 ;;;
  write_pointer DeclarationData_Encode (dc_DeclData s) ;;;
  Type_Encode (dc_Type s) ;;;
  Value_Encode (dc_Value s) ;;;
  write_nullable_union Value_Encode (dc_ResolvedConcreteValue s) ;;;
  Finish.

(** ** Interfaces and graphs *)
Section Maps.
(** The orders of the loops over maps. *)
Context (range_methods : gmap Z FidlMethod -> list Z).
Context (range_string : forall {A}, gmap string A -> list string).

Definition FidlInterface_Encode (s : FidlInterface) : EM unit :=
  StartStruct 32 0 ;;;
  write_optional DeclarationData_Encode (fi_DeclData s) ;;;
  write_optional write_string (fi_ServiceName s) ;;;
  write_pointer (write_map range_methods sort_uint32 32 WriteUint32 64 (write_pointer FidlMethod_Encode))
    (fi_Methods s) ;;;
  WriteUint32 (CurrentVersion s) ;;;
  Finish.
Definition UserDefinedTypeUnknown_Encode : EM unit := unknown_union "UserDefinedType".
Definition UserDefinedTypeEnumType_Encode (v : FidlEnum) : EM unit := write_union 0 (WritePointer ;;; FidlEnum_Encode v).
Definition UserDefinedTypeStructType_Encode (v : FidlStruct) : EM unit :=
  write_union 1 (WritePointer ;;; FidlStruct_Encode v).
Definition UserDefinedTypeUnionType_Encode (v : FidlUnion) : EM unit :=
  write_union 2 (WritePointer ;;; FidlUnion_Encode v).
Definition UserDefinedTypeInterfaceType_Encode (v : FidlInterface) : EM unit :=
  write_union 3 (WritePointer ;;; FidlInterface_Encode v).
Definition UserDefinedType_Encode (v : FidlUserDefinedType) : EM unit :=
  match v with
  | UserDefinedTypeEnumType v => UserDefinedTypeEnumType_Encode v
  | UserDefinedTypeStructType v => UserDefinedTypeStructType_Encode v
  | UserDefinedTypeUnionType v => UserDefinedTypeUnionType_Encode v
  | UserDefinedTypeInterfaceType v => UserDefinedTypeInterfaceType_Encode v
  | UserDefinedTypeUnknown _ => UserDefinedTypeUnknown_Encode
  end.
(** Maps with string keys. *)
Definition write_string_map {A} (valueBitSize : Z) (w : A -> EM unit) (m : gmap string A) : EM unit :=
  write_map (@range_string A) sort_strings 64 (write_pointer write_string) valueBitSize w m.
Definition RuntimeTypeInfo_Encode (s : RuntimeTypeInfo) : EM unit :=
  StartStruct 16 0 ;;;
  write_pointer (write_string_map 64 (write_pointer write_string)) (Services s) ;;;
  write_pointer (write_string_map 128 UserDefinedType_Encode) (TypeMap s) ;;;
  Finish.

(** ** Files: fidl_files.core.go *)
Definition KeysByType_Encode (s : KeysByType) : EM unit :=
  StartStruct 56 0 ;;;
  write_optional write_strings (kt_Interfaces s) ;;;
  write_optional write_strings (kt_Structs s) ;;;
  write_optional write_strings (kt_Unions s) ;;;
  write_optional write_strings (TopLevelEnums s) ;;;
  write_optional write_strings (EmbeddedEnums s) ;;;
  write_optional write_strings (TopLevelConstants s) ;;;
  write_optional write_strings (EmbeddedConstants s) ;;;
  Finish.
Definition FidlFile_Encode (s : FidlFile) : EM unit :=
  StartStruct 64 0 ;;;
  write_pointer write_string (ff_FileName s) ;;;
  write_optional write_string (ff_SpecifiedFileName s) ;;;
  write_optional write_string (ff_ModuleNamespace s) ;;;
  write_optional (write_pointers Attribute_Encode) (ff_Attributes s) ;;;
  write_optional write_strings (ff_Imports s) ;;;
  write_pointer KeysByType_Encode (DeclaredFidlObjects s) ;;;
  write_optional write_string (SerializedRuntimeTypeInfo s) ;;;
  write_optional Comments_Encode (ff_Comments s) ;;;
  Finish.
Definition FidlFileGraph_Encode (s : FidlFileGraph) : EM unit :=
  StartStruct 24 0 ;;;
  write_pointer (write_string_map 64 (write_pointer FidlFile_Encode)) (Files s) ;;;
  write_pointer (write_string_map 128 UserDefinedType_Encode) (ResolvedTypes s) ;;;
  write_pointer (write_string_map 64 (write_pointer DeclaredConstant_Encode)) (ResolvedConstants s) ;;;
  Finish.
End Maps.
