(* ===== verification/FidlDecode.v ===== *)
(** * Decoding the intermediate representation

    The Decode methods and the functions [Decode<union>] of
    go/src/fidl/compiler/generated/fidl_types and fidl_files, on the [Decoder] of
    the bindings.  The tests [header.ElementsOrVersion >= 0] of an unsigned number
    are always true.  Where the generated code returns nil although an array or a
    map cannot be finished, the struct that is returned has what was read so far.
    [DecodeType] and the Decode of comments take as fuel more than the length of
    the buffer; each level of nesting claims at least eight bytes of it. *)
From Stdlib Require Import Ascii String.
From S2P Require Export FidlTypes FloatBits.
From S2P Require Import FidlEncode.
From S2P Require Import Wire Decoder.

Definition UnexpectedNullPointer : string := "VALIDATION_ERROR_UNEXPECTED_NULL_POINTER".
Definition UnexpectedNullUnion : string := "VALIDATION_ERROR_UNEXPECTED_NULL_UNION".
Definition DifferentSizedArraysInMap : string := "VALIDATION_ERROR_DIFFERENT_SIZED_ARRAYS_IN_MAP".

(** ** Enums of integers *)
Definition SimpleType_of (z : Z) : FidlSimpleType :=
  match z with
  | 0 => SimpleType_Bool
  | 1 => SimpleType_Double
  | 2 => SimpleType_Float
  | 3 => SimpleType_Int8
  | 4 => SimpleType_Int16
  | 5 => SimpleType_Int32
  | 6 => SimpleType_Int64
  | 7 => SimpleType_Uint8
  | 8 => SimpleType_Uint16
  | 9 => SimpleType_Uint32
  | 10 => SimpleType_Uint64
  | _ => SimpleType_Other z
  end.
Definition HandleType_Kind_of (z : Z) : HandleType_Kind :=
  match z with
  | 0 => HandleType_Kind_Unspecified
  | 1 => HandleType_Kind_Channel
  | 4 => HandleType_Kind_Vmo
  | 5 => HandleType_Kind_Process
  | 6 => HandleType_Kind_Thread
  | 7 => HandleType_Kind_Event
  | 8 => HandleType_Kind_Port
  | 9 => HandleType_Kind_Job
  | 10 => HandleType_Kind_Socket
  | 11 => HandleType_Kind_EventPair
  | _ => HandleType_Kind_Other z
  end.
Definition BuiltinConstantValue_of (z : Z) : BuiltinConstantValue :=
  match z with
  | 0 => BuiltinConstantValue_DoubleInfinity
  | 1 => BuiltinConstantValue_DoubleNegativeInfinity
  | 2 => BuiltinConstantValue_DoubleNan
  | 3 => BuiltinConstantValue_FloatInfinity
  | 4 => BuiltinConstantValue_FloatNegativeInfinity
  | 5 => BuiltinConstantValue_FloatNan
  | _ => BuiltinConstantValue_Other z
  end.

(** ** What the template is made of *)

(** [sort.Search] of Go's standard library. *)
Fixpoint search_loop (fuel : nat) (f : Z -> bool) (i j : Z) : Z :=
  match fuel with
  | O => i
  | S fuel =>
    if i <? j then
      let h := (i + j) / 2 in
      if f h then search_loop fuel f i h else search_loop fuel f (h + 1) j
    else i
  end.
Definition sort_Search (n : Z) (f : Z -> bool) : Z := search_loop (Z.to_nat n) f 0 n.

(** The size must be that of the version in the table, unless the version is
    newer than the table. *)
Definition check_version (versions : list DataHeader) (header : DataHeader) : DM unit :=
  let i := sort_Search (len versions) (fun i =>
    match index versions i with
    | Some v => ElementsOrVersion header <=? ElementsOrVersion v
    | None => false
    end) in
  if i <? len versions then
    let! v := must (index versions i) in
    let! v := must (index versions (if ElementsOrVersion header <? ElementsOrVersion v then i - 1 else i)) in
    let expectedSize := Size v in
    if negb (expectedSize =? Size header)
    then throw (ValidationError UnexpectedStructHeader
                  "invalid struct header size: should be %d, but was %d" [expectedSize; Size header])
    else ret tt
  else ret tt.
Definition start_versioned (versions : list DataHeader) : DM unit :=
  let! header := StartStruct in check_version versions header.

Definition read_pointer {A} (r : DM A) : DM A :=
  let! pointer := ReadPointer in
  if pointer =? 0 then throw (ValidationError UnexpectedNullPointer "unexpected null pointer" []) else r.
Definition read_optional {A} (r : DM A) : DM (option A) :=
  let! pointer := ReadPointer in
  if pointer =? 0 then ret None else let! a := r in ret (Some a).
Definition non_null_union {A} (r : DM (option A)) : DM A :=
  let! u := r in
  match u with
  | None => throw (ValidationError UnexpectedNullUnion "unexpected null union" [])
  | Some a => ret a
  end.
(** Whether [Finish] succeeds. *)
Definition finishes : DM bool := fun d =>
  match Finish d with
  | (d', Ok _) => (d', Ok true)
  | (d', Err _) => (d', Ok false)
  | (d', Panic) => (d', Panic)
  end.
(** Go on unless the value comes with the demand to return. *)
Definition unless_return {A B} (m : DM (A * bool)) (early : A -> B) (k : A -> DM B) : DM B :=
  let! r := m in if r.2 then k r.1 else ret (early r.1).
Notation "'let*' x := m 'else' early 'in' k" := (unless_return m (fun x => early) (fun x => k))
  (at level 10, x name, m at level 100, early at level 100, k at level 200) : go_scope.
Fixpoint read_each {A} (r : DM A) (n : nat) : DM (list A) :=
  match n with
  | O => ret []
  | S n => let! a := r in let! l := read_each r n in ret (a :: l)
  end.
Definition read_array {A} (elementBitSize : Z) (r : DM A) : DM (list A * bool) :=
  let! length := StartArray elementBitSize in
  let! l := read_each r (Z.to_nat length) in
  let! ok := finishes in
  ret (l, ok).
Definition read_pointers {A} (r : DM A) : DM (list A * bool) := read_array 64 (read_pointer r).
Definition read_optional_array {A} (r : DM (A * bool)) : DM (option A * bool) :=
  let! o := read_optional r in
  ret match o with None => (None, true) | Some (a, ok) => (Some a, ok) end.
Definition read_string : DM string := let! bytes := ReadString in ret (bytes_string bytes).
Definition read_strings : DM (list string * bool) := read_pointers read_string.
Definition read_map {K A} `{Countable K} (keyBitSize : Z) (read_key : DM K) (valueBitSize : Z) (read_value : DM A)
    : DM (gmap K A * bool) :=
  StartMap ;;;
  let* keys := read_pointer (read_array keyBitSize read_key) else (∅, false) in
  let* values := read_pointer (read_array valueBitSize read_value) else (∅, false) in
  let! ok := finishes in
  if negb ok then ret (∅, false)
  else if negb (len keys =? len values)
  then throw (ValidationError DifferentSizedArraysInMap
                "Number of keys %d is different from number of values %d" [len keys; len values])
  else ret (foldl (fun m kv => <[kv.1 := kv.2]> m) ∅ (zip keys values), true).
Definition read_string_map {A} (valueBitSize : Z) (r : DM A) : DM (gmap string A * bool) :=
  read_map 64 (read_pointer read_string) valueBitSize r.
Definition decode_union {A} (decodeInternal : Z -> option (DM A)) (unknown : Z -> A) : DM (option A) :=
  let! header := ReadUnionHeader in
  if header.1 =? 0 then SkipUnionValue ;;; ret None
  else
    match decodeInternal header.2 with
    | Some d => let! value := d in FinishReadingUnionValue ;;; ret (Some value)
    | None => SkipUnionValue ;;; ret (Some (unknown header.2))
    end.
(** The value of a variant that is a union. *)
Definition read_nested_union {A} (decode : DM (option A)) : DM A :=
  let! pointer := ReadPointer in
  if pointer =? 0 then throw (ValidationError UnexpectedNullPointer "unexpected null union pointer" [])
  else
    StartNestedUnion ;;;
    let! v := non_null_union decode in
    finishes ;;;
    ret v.

(** ** Types *)
Definition stringType_Versions : list DataHeader := [mkDataHeader 16 0].
Definition StringType_Decode : DM bool :=
  start_versioned stringType_Versions ;;; let! nullable := ReadBool in Finish ;;; ret nullable.
Definition handleType_Versions : list DataHeader := [mkDataHeader 16 0].
Definition HandleType_Decode : DM (bool * HandleType_Kind) :=
  start_versioned handleType_Versions ;;;
  let! nullable := ReadBool in
  let! kind := ReadInt32 in
  Finish ;;;
  ret (nullable, HandleType_Kind_of kind).
Definition arrayType_Versions : list DataHeader := [mkDataHeader 32 0].
Definition ArrayType_Decode (DecodeType : DM (option FidlType)) : DM (bool * Z * FidlType) :=
  start_versioned arrayType_Versions ;;;
  let! nullable := ReadBool in
  let! fixedLength := ReadInt32 in
  let! elementType := non_null_union DecodeType in
  Finish ;;;
  ret (nullable, fixedLength, elementType).
Definition mapType_Versions : list DataHeader := [mkDataHeader 48 0].
Definition MapType_Decode (DecodeType : DM (option FidlType)) : DM (bool * FidlType * FidlType) :=
  start_versioned mapType_Versions ;;;
  let! nullable := ReadBool in
  let! keyType := non_null_union DecodeType in
  let! valueType := non_null_union DecodeType in
  Finish ;;;
  ret (nullable, keyType, valueType).
Definition typeReference_Versions : list DataHeader := [mkDataHeader 32 0].
Definition TypeReference_Decode : DM TypeReference :=
  start_versioned typeReference_Versions ;;;
  let! nullable := ReadBool in
  let! isInterfaceRequest := ReadBool in
  let! identifier := read_optional read_string in
  let! typeKey := read_optional read_string in
  Finish ;;;
  ret (mkTypeReference nullable isInterfaceRequest identifier typeKey).
Definition TypeSimpleType_decodeInternal : DM FidlType :=
  let! value := ReadInt32 in ret (TypeSimpleType (SimpleType_of value)).
Definition TypeStringType_decodeInternal : DM FidlType :=
  let! nullable := read_pointer StringType_Decode in ret (TypeStringType nullable).
Definition TypeArrayType_decodeInternal (DecodeType : DM (option FidlType)) : DM FidlType :=
  let! a := read_pointer (ArrayType_Decode DecodeType) in ret (TypeArrayType a.1.1 a.1.2 a.2).
Definition TypeMapType_decodeInternal (DecodeType : DM (option FidlType)) : DM FidlType :=
  let! m := read_pointer (MapType_Decode DecodeType) in ret (TypeMapType m.1.1 m.1.2 m.2).
Definition TypeHandleType_decodeInternal : DM FidlType :=
  let! h := read_pointer HandleType_Decode in ret (TypeHandleType h.1 h.2).
Definition TypeTypeReference_decodeInternal : DM FidlType :=
  let! r := read_pointer TypeReference_Decode in ret (TypeTypeReference r).
Fixpoint DecodeType (fuel : nat) : DM (option FidlType) :=
  match fuel with
  | O => panic
  | S fuel =>
    decode_union (fun tag =>
      match tag with
      | 0 => Some TypeSimpleType_decodeInternal
      | 1 => Some TypeStringType_decodeInternal
      | 2 => Some (TypeArrayType_decodeInternal (DecodeType fuel))
      | 3 => Some (TypeMapType_decodeInternal (DecodeType fuel))
      | 4 => Some TypeHandleType_decodeInternal
      | 5 => Some TypeTypeReference_decodeInternal
      | _ => None
      end) TypeUnknown
  end.
(** The call of a recursive function with the fuel for the buffer. *)
Definition with_fuel {A} (decode : nat -> DM A) : DM A := fun d => decode (S (length (buf d))) d.
Definition read_type : DM FidlType := non_null_union (with_fuel DecodeType).

(** ** Values *)
Definition LiteralValueBoolValue_decodeInternal : DM FidlLiteralValue :=
  let! value := ReadBool in ret (LiteralValueBoolValue value).
Definition LiteralValueDoubleValue_decodeInternal : DM FidlLiteralValue :=
  let! value := ReadFloat64 in ret (LiteralValueDoubleValue (Float64frombits_ value)).
Definition LiteralValueFloatValue_decodeInternal : DM FidlLiteralValue :=
  let! value := ReadFloat32 in ret (LiteralValueFloatValue (Float32frombits_ value)).
Definition LiteralValueInt8Value_decodeInternal : DM FidlLiteralValue :=
  let! value := ReadInt8 in ret (LiteralValueInt8Value value).
Definition LiteralValueInt16Value_decodeInternal : DM FidlLiteralValue :=
  let! value := ReadInt16 in ret (LiteralValueInt16Value value).
Definition LiteralValueInt32Value_decodeInternal : DM FidlLiteralValue :=
  let! value := ReadInt32 in ret (LiteralValueInt32Value value).
Definition LiteralValueInt64Value_decodeInternal : DM FidlLiteralValue :=
  let! value := ReadInt64 in ret (LiteralValueInt64Value value).
Definition LiteralValueStringValue_decodeInternal : DM FidlLiteralValue :=
  let! value := read_pointer read_string in ret (LiteralValueStringValue value).
Definition LiteralValueUint8Value_decodeInternal : DM FidlLiteralValue :=
  let! value := ReadUint8 in ret (LiteralValueUint8Value value).
Definition LiteralValueUint16Value_decodeInternal : DM FidlLiteralValue :=
  let! value := ReadUint16 in ret (LiteralValueUint16Value value).
Definition LiteralValueUint32Value_decodeInternal : DM FidlLiteralValue :=
  let! value := ReadUint32 in ret (LiteralValueUint32Value value).
Definition LiteralValueUint64Value_decodeInternal : DM FidlLiteralValue :=
  let! value := ReadUint64 in ret (LiteralValueUint64Value value).
Definition DecodeLiteralValue : DM (option FidlLiteralValue) :=
  decode_union (fun tag =>
    match tag with
    | 0 => Some LiteralValueBoolValue_decodeInternal
    | 1 => Some LiteralValueDoubleValue_decodeInternal
    | 2 => Some LiteralValueFloatValue_decodeInternal
    | 3 => Some LiteralValueInt8Value_decodeInternal
    | 4 => Some LiteralValueInt16Value_decodeInternal
    | 5 => Some LiteralValueInt32Value_decodeInternal
    | 6 => Some LiteralValueInt64Value_decodeInternal
    | 7 => Some LiteralValueStringValue_decodeInternal
    | 8 => Some LiteralValueUint8Value_decodeInternal
    | 9 => Some LiteralValueUint16Value_decodeInternal
    | 10 => Some LiteralValueUint32Value_decodeInternal
    | 11 => Some LiteralValueUint64Value_decodeInternal
    | _ => None
    end) LiteralValueUnknown.
Definition constantReference_Versions : list DataHeader := [mkDataHeader 24 0].
Definition ConstantReference_Decode : DM ConstantReference :=
  start_versioned constantReference_Versions ;;;
  let! identifier := read_pointer read_string in
  let! constantKey := read_pointer read_string in
  Finish ;;;
  ret (mkConstantReference identifier constantKey).
Definition enumValueReference_Versions : list DataHeader := [mkDataHeader 32 0].
Definition EnumValueReference_Decode : DM EnumValueReference :=
  start_versioned enumValueReference_Versions ;;;
  let! identifier := read_pointer read_string in
  let! enumTypeKey := read_pointer read_string in
  let! enumValueIndex := ReadUint32 in
  Finish ;;;
  ret (mkEnumValueReference identifier enumTypeKey enumValueIndex).
Definition ValueLiteralValue_decodeInternal : DM FidlValue :=
  let! v := read_nested_union DecodeLiteralValue in ret (ValueLiteralValue v).
Definition ValueConstantReference_decodeInternal : DM FidlValue :=
  let! r := read_pointer ConstantReference_Decode in ret (ValueConstantReference r).
Definition ValueEnumValueReference_decodeInternal : DM FidlValue :=
  let! r := read_pointer EnumValueReference_Decode in ret (ValueEnumValueReference r).
Definition ValueBuiltinValue_decodeInternal : DM FidlValue :=
  let! value := ReadInt32 in ret (ValueBuiltinValue (BuiltinConstantValue_of value)).
Definition DecodeValue : DM (option FidlValue) :=
  decode_union (fun tag =>
    match tag with
    | 0 => Some ValueLiteralValue_decodeInternal
    | 1 => Some ValueConstantReference_decodeInternal
    | 2 => Some ValueEnumValueReference_decodeInternal
    | 3 => Some ValueBuiltinValue_decodeInternal
    | _ => None
    end) ValueUnknown.
Definition defaultKeyword_Versions : list DataHeader := [mkDataHeader 8 0].
Definition DefaultKeyword_Decode : DM unit := start_versioned defaultKeyword_Versions ;;; Finish.
Definition DefaultFieldValueValue_decodeInternal : DM DefaultFieldValue :=
  let! v := read_nested_union DecodeValue in ret (DefaultFieldValueValue v).
Definition DefaultFieldValueDefaultKeyword_decodeInternal : DM DefaultFieldValue :=
  read_pointer DefaultKeyword_Decode ;;; ret DefaultFieldValueDefaultKeyword.
Definition DecodeDefaultFieldValue : DM (option DefaultFieldValue) :=
  decode_union (fun tag =>
    match tag with
    | 0 => Some DefaultFieldValueValue_decodeInternal
    | 1 => Some DefaultFieldValueDefaultKeyword_decodeInternal
    | _ => None
    end) DefaultFieldValueUnknown.

(** ** Declarations *)
Definition attribute_Versions : list DataHeader := [mkDataHeader 32 0].
Definition Attribute_Decode : DM FidlAttribute :=
  start_versioned attribute_Versions ;;;
  let! key := read_pointer read_string in
  let! value := non_null_union DecodeLiteralValue in
  Finish ;;;
  ret (mkFidlAttribute key value).
Definition sourceFileInfo_Versions : list DataHeader := [mkDataHeader 24 0].
Definition SourceFileInfo_Decode : DM SourceFileInfo :=
  start_versioned sourceFileInfo_Versions ;;;
  let! fileName := read_pointer read_string in
  let! lineNumber := ReadUint32 in
  let! columnNumber := ReadUint32 in
  Finish ;;;
  ret (mkSourceFileInfo fileName lineNumber columnNumber).
Definition containedDeclarations_Versions : list DataHeader := [mkDataHeader 24 0].
Definition ContainedDeclarations_Decode : DM ContainedDeclarations :=
  start_versioned containedDeclarations_Versions ;;;
  let* enums := read_optional_array read_strings else mkContainedDeclarations enums None in
  let* constants := read_optional_array read_strings else mkContainedDeclarations enums constants in
  Finish ;;;
  ret (mkContainedDeclarations enums constants).
Definition comments_Versions : list DataHeader := [mkDataHeader 48 0].
Fixpoint Comments_Decode (fuel : nat) : DM FidlComments :=
  match fuel with
  | O => panic
  | S fuel =>
    start_versioned comments_Versions ;;;
    let! forAttributes := read_optional (Comments_Decode fuel) in
    let* above := read_pointer read_strings else mkFidlComments forAttributes above [] [] [] in
    let* left := read_pointer read_strings else mkFidlComments forAttributes above left [] [] in
    let* right := read_pointer read_strings else mkFidlComments forAttributes above left right [] in
    let* atBottom := read_pointer read_strings else mkFidlComments forAttributes above left right atBottom in
    Finish ;;;
    ret (mkFidlComments forAttributes above left right atBottom)
  end.
Definition declarationData_Versions : list DataHeader := [mkDataHeader 72 0].
Definition DeclarationData_Decode : DM FidlDeclarationData :=
  start_versioned declarationData_Versions ;;;
  let* attributes := read_optional_array (read_pointers Attribute_Decode)
    else mkFidlDeclarationData attributes None None 0 0 None None None None in
  let! shortName := read_optional read_string in
  let! fullIdentifier := read_optional read_string in
  let! declaredOrdinal := ReadInt32 in
  let! declarationOrder := ReadInt32 in
  let! sourceFileInfo := read_optional SourceFileInfo_Decode in
  let! containedDeclarations := read_optional ContainedDeclarations_Decode in
  let! containerTypeKey := read_optional read_string in
  let! comments := read_optional (with_fuel Comments_Decode) in
  Finish ;;;
  ret (mkFidlDeclarationData attributes shortName fullIdentifier declaredOrdinal declarationOrder
         sourceFileInfo containedDeclarations containerTypeKey comments).
Definition structField_Versions : list DataHeader := [mkDataHeader 64 0].
Definition StructField_Decode : DM FidlStructField :=
  start_versioned structField_Versions ;;;
  let! declData := read_optional DeclarationData_Decode in
  let! type := read_type in
  let! defaultValue := DecodeDefaultFieldValue in
  let! offset := ReadUint32 in
  let! bit := ReadInt8 in
  let! minVersion := ReadUint32 in
  Finish ;;;
  ret (mkFidlStructField declData type defaultValue offset bit minVersion).
Definition structVersion_Versions : list DataHeader := [mkDataHeader 24 0].
Definition StructVersion_Decode : DM FidlStructVersion :=
  start_versioned structVersion_Versions ;;;
  let! versionNumber := ReadUint32 in
  let! numFields := ReadUint32 in
  let! numBytes := ReadUint32 in
  Finish ;;;
  ret (mkFidlStructVersion versionNumber numFields numBytes).
Definition fidlStruct_Versions : list DataHeader := [mkDataHeader 32 0].
Definition FidlStruct_Decode : DM FidlStruct :=
  start_versioned fidlStruct_Versions ;;;
  let! declData := read_optional DeclarationData_Decode in
  let* fields := read_pointer (read_pointers StructField_Decode) else mkFidlStruct declData fields None in
  let* versionInfo := read_optional_array (read_pointers StructVersion_Decode)
    else mkFidlStruct declData fields versionInfo in
  Finish ;;;
  ret (mkFidlStruct declData fields versionInfo).
Definition unionField_Versions : list DataHeader := [mkDataHeader 40 0].
Definition UnionField_Decode : DM FidlUnionField :=
  start_versioned unionField_Versions ;;;
  let! declData := read_optional DeclarationData_Decode in
  let! type := read_type in
  let! tag := ReadUint32 in
  Finish ;;;
  ret (mkFidlUnionField declData type tag).
Definition fidlUnion_Versions : list DataHeader := [mkDataHeader 24 0].
Definition FidlUnion_Decode : DM FidlUnion :=
  start_versioned fidlUnion_Versions ;;;
  let! declData := read_optional DeclarationData_Decode in
  let* fields := read_pointer (read_pointers UnionField_Decode) else mkFidlUnion declData fields in
  Finish ;;;
  ret (mkFidlUnion declData fields).
Definition enumValue_Versions : list DataHeader := [mkDataHeader 40 0].
Definition EnumValue_Decode : DM FidlEnumValue :=
  start_versioned enumValue_Versions ;;;
  let! declData := read_optional DeclarationData_Decode in
  let! initializerValue := DecodeValue in
  let! intValue := ReadInt32 in
  Finish ;;;
  ret (mkFidlEnumValue declData initializerValue intValue).
Definition fidlEnum_Versions : list DataHeader := [mkDataHeader 24 0].
Definition FidlEnum_Decode : DM FidlEnum :=
  start_versioned fidlEnum_Versions ;;;
  let! declData := read_optional DeclarationData_Decode in
  let* values := read_pointer (read_pointers EnumValue_Decode) else mkFidlEnum declData values in
  Finish ;;;
  ret (mkFidlEnum declData values).
Definition fidlMethod_Versions : list DataHeader := [mkDataHeader 40 0].
Definition FidlMethod_Decode : DM FidlMethod :=
  start_versioned fidlMethod_Versions ;;;
  let! declData := read_optional DeclarationData_Decode in
  let! parameters := read_pointer FidlStruct_Decode in
  let! responseParams := read_optional FidlStruct_Decode in
  let! ordinal := ReadUint32 in
  let! minVersion := ReadUint32 in
  Finish ;;;
  ret (mkFidlMethod declData parameters responseParams ordinal minVersion).
Definition fidlInterface_Versions : list DataHeader := [mkDataHeader 40 0].
Definition FidlInterface_Decode : DM FidlInterface :=
  start_versioned fidlInterface_Versions ;;;
  let! declData := read_optional DeclarationData_Decode in
  let! serviceName := read_optional read_string in
  let* methods := read_pointer (read_map 32 ReadUint32 64 (read_pointer FidlMethod_Decode))
    else mkFidlInterface declData serviceName methods 0 in
  let! currentVersion := ReadUint32 in
  Finish ;;;
  ret (mkFidlInterface declData serviceName methods currentVersion).
Definition declaredConstant_Versions : list DataHeader := [mkDataHeader 64 0].
Definition DeclaredConstant_Decode : DM DeclaredConstant :=
  start_versioned declaredConstant_Versions ;;;
  let! declData := read_pointer DeclarationData_Decode in
  let! type := read_type in
  let! value := non_null_union DecodeValue in
  let! resolvedConcreteValue := DecodeValue in
  Finish ;;;
  ret (mkDeclaredConstant declData type value resolvedConcreteValue).

(** ** User-defined types and graphs *)
Definition UserDefinedTypeEnumType_decodeInternal : DM FidlUserDefinedType :=
  let! v := read_pointer FidlEnum_Decode in ret (UserDefinedTypeEnumType v).
Definition UserDefinedTypeStructType_decodeInternal : DM FidlUserDefinedType :=
  let! v := read_pointer FidlStruct_Decode in ret (UserDefinedTypeStructType v).
Definition UserDefinedTypeUnionType_decodeInternal : DM FidlUserDefinedType :=
  let! v := read_pointer FidlUnion_Decode in ret (UserDefinedTypeUnionType v).
Definition UserDefinedTypeInterfaceType_decodeInternal : DM FidlUserDefinedType :=
  let! v := read_pointer FidlInterface_Decode in ret (UserDefinedTypeInterfaceType v).
Definition DecodeUserDefinedType : DM (option FidlUserDefinedType) :=
  decode_union (fun tag =>
    match tag with
    | 0 => Some UserDefinedTypeEnumType_decodeInternal
    | 1 => Some UserDefinedTypeStructType_decodeInternal
    | 2 => Some UserDefinedTypeUnionType_decodeInternal
    | 3 => Some UserDefinedTypeInterfaceType_decodeInternal
    | _ => None
    end) UserDefinedTypeUnknown.
Definition runtimeTypeInfo_Versions : list DataHeader := [mkDataHeader 24 0].
Definition RuntimeTypeInfo_Decode : DM RuntimeTypeInfo :=
  start_versioned runtimeTypeInfo_Versions ;;;
  let* services := read_pointer (read_string_map 64 (read_pointer read_string))
    else mkRuntimeTypeInfo services ∅ in
  let* typeMap := read_pointer (read_string_map 128 (non_null_union DecodeUserDefinedType))
    else mkRuntimeTypeInfo services typeMap in
  Finish ;;;
  ret (mkRuntimeTypeInfo services typeMap).

(** ** Files: fidl_files.core.go *)
Definition keysByType_Versions : list DataHeader := [mkDataHeader 64 0].
Definition KeysByType_Decode : DM KeysByType :=
  start_versioned keysByType_Versions ;;;
  let* interfaces := read_optional_array read_strings else mkKeysByType interfaces None None None None None None in
  let* structs := read_optional_array read_strings else mkKeysByType interfaces structs None None None None None in
  let* unions := read_optional_array read_strings else mkKeysByType interfaces structs unions None None None None in
  let* topLevelEnums := read_optional_array read_strings
    else mkKeysByType interfaces structs unions topLevelEnums None None None in
  let* embeddedEnums := read_optional_array read_strings
    else mkKeysByType interfaces structs unions topLevelEnums embeddedEnums None None in
  let* topLevelConstants := read_optional_array read_strings
    else mkKeysByType interfaces structs unions topLevelEnums embeddedEnums topLevelConstants None in
  let* embeddedConstants := read_optional_array read_strings
    else mkKeysByType interfaces structs unions topLevelEnums embeddedEnums topLevelConstants embeddedConstants in
  Finish ;;;
  ret (mkKeysByType interfaces structs unions topLevelEnums embeddedEnums topLevelConstants embeddedConstants).
Definition no_keys : KeysByType := mkKeysByType None None None None None None None.
Definition fidlFile_Versions : list DataHeader := [mkDataHeader 72 0].
Definition FidlFile_Decode : DM FidlFile :=
  start_versioned fidlFile_Versions ;;;
  let! fileName := read_pointer read_string in
  let! specifiedFileName := read_optional read_string in
  let! moduleNamespace := read_optional read_string in
  let* attributes := read_optional_array (read_pointers Attribute_Decode)
    else mkFidlFile fileName specifiedFileName moduleNamespace attributes None no_keys None None in
  let* imports := read_optional_array read_strings
    else mkFidlFile fileName specifiedFileName moduleNamespace attributes imports no_keys None None in
  let! declaredFidlObjects := read_pointer KeysByType_Decode in
  let! serializedRuntimeTypeInfo := read_optional read_string in
  let! comments := read_optional (with_fuel Comments_Decode) in
  Finish ;;;
  ret (mkFidlFile fileName specifiedFileName moduleNamespace attributes imports declaredFidlObjects
         serializedRuntimeTypeInfo comments).
Definition fidlFileGraph_Versions : list DataHeader := [mkDataHeader 32 0].
Definition FidlFileGraph_Decode : DM FidlFileGraph :=
  start_versioned fidlFileGraph_Versions ;;;
  let* files := read_pointer (read_string_map 64 (read_pointer FidlFile_Decode))
    else mkFidlFileGraph files ∅ ∅ in
  let* resolvedTypes := read_pointer (read_string_map 128 (non_null_union DecodeUserDefinedType))
    else mkFidlFileGraph files resolvedTypes ∅ in
  let* resolvedConstants := read_pointer (read_string_map 64 (read_pointer DeclaredConstant_Decode))
    else mkFidlFileGraph files resolvedTypes resolvedConstants in
  Finish ;;;
  ret (mkFidlFileGraph files resolvedTypes resolvedConstants).
