(* ===== verification/FidlWellFormed.v ===== *)
(** * Well-formed intermediate representation

    What the Go types and the 32-bit sizes of the wire format promise of the values
    of FidlTypes: every number is in the range of its type and an unnamed member of
    an enum has no name, every string and every list is short enough for the size in
    its header.  Of the unknown variants of unions, which can be decoded but not
    encoded, the parameter says whether they are allowed.  All of it is decidable. *)
From Stdlib Require Import Ascii String.
From S2P Require Export FidlTypes FloatBits.
From S2P Require Import FidlEncode.

Definition string_ok (s : string) : Prop := 8 + len (string_bytes s) < 2 ^ 32.
Definition int_ok (n z : Z) : Prop := - 2 ^ (n - 1) <= z < 2 ^ (n - 1).
Definition uint_ok (n z : Z) : Prop := 0 <= z < 2 ^ n.
Definition option_ok {A} (P : A -> Prop) (o : option A) : Prop :=
  match o with Some a => P a | None => True end.
Definition list_ok {A} (P : A -> Prop) (l : list A) : Prop := 8 + 8 * len l < 2 ^ 32 /\ Forall P l.

(** A number that has no name. *)
Definition SimpleType_ok (t : FidlSimpleType) : Prop :=
  match t with SimpleType_Other z => int_ok 32 z /\ ~ 0 <= z <= 10 | _ => True end.
Definition HandleType_Kind_ok (k : HandleType_Kind) : Prop :=
  match k with HandleType_Kind_Other z => int_ok 32 z /\ ~ 0 <= z <= 1 /\ ~ 4 <= z <= 11 | _ => True end.
Definition BuiltinConstantValue_ok (v : BuiltinConstantValue) : Prop :=
  match v with BuiltinConstantValue_Other z => int_ok 32 z /\ ~ 0 <= z <= 5 | _ => True end.
Definition TypeReference_ok (r : TypeReference) : Prop :=
  option_ok string_ok (tr_Identifier r) /\ option_ok string_ok (TypeKey r).

Section WellFormed.
(** Whether a variant may be unknown. *)
Context (unknown : Prop).

Fixpoint Type_wf (t : FidlType) : Prop :=
  match t with
  | TypeSimpleType t => SimpleType_ok t
  | TypeStringType _ => True
  | TypeArrayType _ n e => int_ok 32 n /\ Type_wf e
  | TypeMapType _ k v => Type_wf k /\ Type_wf v
  | TypeHandleType _ k => HandleType_Kind_ok k
  | TypeTypeReference r => TypeReference_ok r
  | TypeUnknown _ => unknown
  end.
Definition LiteralValue_wf (v : FidlLiteralValue) : Prop :=
  match v with
  | LiteralValueBoolValue _ => True
  | LiteralValueDoubleValue f => float_ok 52 11 f
  | LiteralValueFloatValue f => float_ok 23 8 f
  | LiteralValueInt8Value z => int_ok 8 z
  | LiteralValueInt16Value z => int_ok 16 z
  | LiteralValueInt32Value z => int_ok 32 z
  | LiteralValueInt64Value z => int_ok 64 z
  | LiteralValueStringValue s => string_ok s
  | LiteralValueUint8Value z => uint_ok 8 z
  | LiteralValueUint16Value z => uint_ok 16 z
  | LiteralValueUint32Value z => uint_ok 32 z
  | LiteralValueUint64Value z => uint_ok 64 z
  | LiteralValueUnknown _ => unknown
  end.
Definition Value_wf (v : FidlValue) : Prop :=
  match v with
  | ValueLiteralValue v => LiteralValue_wf v
  | ValueConstantReference r => string_ok (cr_Identifier r) /\ string_ok (ConstantKey r)
  | ValueEnumValueReference r =>
    string_ok (er_Identifier r) /\ string_ok (EnumTypeKey r) /\ uint_ok 32 (EnumValueIndex r)
  | ValueBuiltinValue v => BuiltinConstantValue_ok v
  | ValueUnknown _ => unknown
  end.
Definition DefaultFieldValue_wf (v : DefaultFieldValue) : Prop :=
  match v with
  | DefaultFieldValueValue v => Value_wf v
  | DefaultFieldValueDefaultKeyword => True
  | DefaultFieldValueUnknown _ => unknown
  end.
Definition Attribute_wf (a : FidlAttribute) : Prop := string_ok (at_Key a) /\ LiteralValue_wf (at_Value a).
Definition SourceFileInfo_ok (i : SourceFileInfo) : Prop :=
  string_ok (FileName i) /\ uint_ok 32 (LineNumber i) /\ uint_ok 32 (ColumnNumber i).
Definition strings_ok : list string -> Prop := list_ok string_ok.
Definition ContainedDeclarations_ok (c : ContainedDeclarations) : Prop :=
  option_ok strings_ok (cd_Enums c) /\ option_ok strings_ok (cd_Constants c).
Fixpoint Comments_ok (c : FidlComments) : Prop :=
  match c with
  | mkFidlComments ForAttributes Above Left Right AtBottom =>
    match ForAttributes with Some c => Comments_ok c | None => True end /\
    strings_ok Above /\ strings_ok Left /\ strings_ok Right /\ strings_ok AtBottom
  end.
Definition DeclarationData_wf (d : FidlDeclarationData) : Prop :=
  option_ok (list_ok Attribute_wf) (dd_Attributes d) /\ option_ok string_ok (ShortName d) /\
  option_ok string_ok (FullIdentifier d) /\ int_ok 32 (DeclaredOrdinal d) /\ int_ok 32 (DeclarationOrder d) /\
  option_ok SourceFileInfo_ok (dd_SourceFileInfo d) /\ option_ok ContainedDeclarations_ok (dd_ContainedDeclarations d) /\
  option_ok string_ok (ContainerTypeKey d) /\ option_ok Comments_ok (dd_Comments d).
Definition StructField_wf (f : FidlStructField) : Prop :=
  option_ok DeclarationData_wf (sf_DeclData f) /\ Type_wf (sf_Type f) /\
  option_ok DefaultFieldValue_wf (sf_DefaultValue f) /\ uint_ok 32 (sf_Offset f) /\ int_ok 8 (sf_Bit f) /\
  uint_ok 32 (sf_MinVersion f).
Definition StructVersion_ok (v : FidlStructVersion) : Prop :=
  uint_ok 32 (sv_VersionNumber v) /\ uint_ok 32 (sv_NumFields v) /\ uint_ok 32 (sv_NumBytes v).
Definition FidlStruct_wf (s : FidlStruct) : Prop :=
  option_ok DeclarationData_wf (st_DeclData s) /\ list_ok StructField_wf (Fields s) /\
  option_ok (list_ok StructVersion_ok) (st_VersionInfo s).
Definition UnionField_wf (f : FidlUnionField) : Prop :=
  option_ok DeclarationData_wf (uf_DeclData f) /\ Type_wf (uf_Type f) /\ uint_ok 32 (uf_Tag f).
Definition FidlUnion_wf (u : FidlUnion) : Prop :=
  option_ok DeclarationData_wf (fu_DeclData u) /\ list_ok UnionField_wf (fu_Fields u).
Definition EnumValue_wf (v : FidlEnumValue) : Prop :=
  option_ok DeclarationData_wf (fv_DeclData v) /\ option_ok Value_wf (InitializerValue_ v) /\ int_ok 32 (IntValue v).
Definition FidlEnum_wf (e : FidlEnum) : Prop :=
  option_ok DeclarationData_wf (fe_DeclData e) /\ list_ok EnumValue_wf (fe_Values e).
Definition FidlMethod_wf (m : FidlMethod) : Prop :=
  option_ok DeclarationData_wf (fm_DeclData m) /\ FidlStruct_wf (fm_Parameters m) /\
  option_ok FidlStruct_wf (fm_ResponseParams m) /\ uint_ok 32 (fm_Ordinal m) /\ uint_ok 32 (fm_MinVersion m).
(** A map whose arrays of keys and of values, of up to [width] bytes each, fit. *)
Definition map_ok {K A} `{Countable K} (width : Z) (P : K -> Prop) (Q : A -> Prop) (m : gmap K A) : Prop :=
  8 + width * Z.of_nat (size m) < 2 ^ 32 /\ map_Forall (fun k a => P k /\ Q a) m.
Definition FidlInterface_wf (i : FidlInterface) : Prop :=
  option_ok DeclarationData_wf (fi_DeclData i) /\ option_ok string_ok (fi_ServiceName i) /\
  map_ok 8 (uint_ok 32) FidlMethod_wf (fi_Methods i) /\ uint_ok 32 (CurrentVersion i).
Definition UserDefinedType_wf (t : FidlUserDefinedType) : Prop :=
  match t with
  | UserDefinedTypeEnumType e => FidlEnum_wf e
  | UserDefinedTypeStructType s => FidlStruct_wf s
  | UserDefinedTypeUnionType u => FidlUnion_wf u
  | UserDefinedTypeInterfaceType i => FidlInterface_wf i
  | UserDefinedTypeUnknown _ => unknown
  end.
Definition DeclaredConstant_wf (c : DeclaredConstant) : Prop :=
  DeclarationData_wf (dc_DeclData c) /\ Type_wf (dc_Type c) /\ Value_wf (dc_Value c) /\
  option_ok Value_wf (dc_ResolvedConcreteValue c).
Definition RuntimeTypeInfo_wf (t : RuntimeTypeInfo) : Prop :=
  map_ok 8 string_ok string_ok (Services t) /\ map_ok 16 string_ok UserDefinedType_wf (TypeMap t).
Definition KeysByType_ok (k : KeysByType) : Prop :=
  option_ok strings_ok (kt_Interfaces k) /\ option_ok strings_ok (kt_Structs k) /\ option_ok strings_ok (kt_Unions k) /\
  option_ok strings_ok (TopLevelEnums k) /\ option_ok strings_ok (EmbeddedEnums k) /\
  option_ok strings_ok (TopLevelConstants k) /\ option_ok strings_ok (EmbeddedConstants k).
Definition FidlFile_wf (f : FidlFile) : Prop :=
  string_ok (ff_FileName f) /\ option_ok string_ok (ff_SpecifiedFileName f) /\
  option_ok string_ok (ff_ModuleNamespace f) /\ option_ok (list_ok Attribute_wf) (ff_Attributes f) /\
  option_ok strings_ok (ff_Imports f) /\ KeysByType_ok (DeclaredFidlObjects f) /\
  option_ok string_ok (SerializedRuntimeTypeInfo f) /\ option_ok Comments_ok (ff_Comments f).
Definition FidlFileGraph_wf (g : FidlFileGraph) : Prop :=
  map_ok 8 string_ok FidlFile_wf (Files g) /\ map_ok 16 string_ok UserDefinedType_wf (ResolvedTypes g) /\
  map_ok 8 string_ok DeclaredConstant_wf (ResolvedConstants g).
End WellFormed.

(** ** Deciding well-formedness *)
#[export] Instance option_ok_dec {A} (P : A -> Prop) `{forall a, Decision (P a)} o : Decision (option_ok P o).
Proof. destruct o; simpl; apply _. Defined.
#[export] Instance list_ok_dec {A} (P : A -> Prop) `{forall a, Decision (P a)} l : Decision (list_ok P l).
Proof. unfold list_ok. apply _. Defined.
#[export] Instance map_ok_dec {K A} `{Countable K} n (P : K -> Prop) (Q : A -> Prop)
  `{forall k, Decision (P k)} `{forall a, Decision (Q a)} (m : gmap K A) : Decision (map_ok n P Q m).
Proof. unfold map_ok. apply _. Defined.
#[export] Instance string_ok_dec s : Decision (string_ok s).
Proof. unfold string_ok. apply _. Defined.
#[export] Instance int_ok_dec n z : Decision (int_ok n z).
Proof. unfold int_ok. apply _. Defined.
#[export] Instance uint_ok_dec n z : Decision (uint_ok n z).
Proof. unfold uint_ok. apply _. Defined.
#[export] Instance float_ok_dec mw ew f : Decision (float_ok mw ew f).
Proof. unfold float_ok. apply _. Defined.
#[export] Instance SimpleType_ok_dec t : Decision (SimpleType_ok t).
Proof. destruct t; simpl; apply _. Defined.
#[export] Instance HandleType_Kind_ok_dec k : Decision (HandleType_Kind_ok k).
Proof. destruct k; simpl; apply _. Defined.
#[export] Instance BuiltinConstantValue_ok_dec v : Decision (BuiltinConstantValue_ok v).
Proof. destruct v; simpl; apply _. Defined.
#[export] Instance TypeReference_ok_dec r : Decision (TypeReference_ok r).
Proof. unfold TypeReference_ok. apply _. Defined.
#[export] Instance SourceFileInfo_ok_dec i : Decision (SourceFileInfo_ok i).
Proof. unfold SourceFileInfo_ok. apply _. Defined.
#[export] Instance strings_ok_dec l : Decision (strings_ok l).
Proof. unfold strings_ok. apply _. Defined.
#[export] Instance ContainedDeclarations_ok_dec c : Decision (ContainedDeclarations_ok c).
Proof. unfold ContainedDeclarations_ok. apply _. Defined.
#[export] Instance Comments_ok_dec : forall c, Decision (Comments_ok c).
Proof. fix IH 1. intros [[c|] a l r b]; simpl; apply _. Defined.
#[export] Instance StructVersion_ok_dec v : Decision (StructVersion_ok v).
Proof. unfold StructVersion_ok. apply _. Defined.
#[export] Instance KeysByType_ok_dec k : Decision (KeysByType_ok k).
Proof. unfold KeysByType_ok. apply _. Defined.

Section Decidable.
Context (unknown : Prop) `{!Decision unknown}.
#[export] Instance Type_wf_dec t : Decision (Type_wf unknown t).
Proof. induction t; simpl; apply _. Defined.
#[export] Instance LiteralValue_wf_dec v : Decision (LiteralValue_wf unknown v).
Proof. destruct v; simpl; apply _. Defined.
#[export] Instance Value_wf_dec v : Decision (Value_wf unknown v).
Proof. destruct v; simpl; apply _. Defined.
#[export] Instance DefaultFieldValue_wf_dec v : Decision (DefaultFieldValue_wf unknown v).
Proof. destruct v; simpl; apply _. Defined.
#[export] Instance Attribute_wf_dec a : Decision (Attribute_wf unknown a).
Proof. unfold Attribute_wf. apply _. Defined.
#[export] Instance DeclarationData_wf_dec d : Decision (DeclarationData_wf unknown d).
Proof. unfold DeclarationData_wf. apply _. Defined.
#[export] Instance StructField_wf_dec f : Decision (StructField_wf unknown f).
Proof. unfold StructField_wf. apply _. Defined.
#[export] Instance FidlStruct_wf_dec s : Decision (FidlStruct_wf unknown s).
Proof. unfold FidlStruct_wf. apply _. Defined.
#[export] Instance UnionField_wf_dec f : Decision (UnionField_wf unknown f).
Proof. unfold UnionField_wf. apply _. Defined.
#[export] Instance FidlUnion_wf_dec u : Decision (FidlUnion_wf unknown u).
Proof. unfold FidlUnion_wf. apply _. Defined.
#[export] Instance EnumValue_wf_dec v : Decision (EnumValue_wf unknown v).
Proof. unfold EnumValue_wf. apply _. Defined.
#[export] Instance FidlEnum_wf_dec e : Decision (FidlEnum_wf unknown e).
Proof. unfold FidlEnum_wf. apply _. Defined.
#[export] Instance FidlMethod_wf_dec m : Decision (FidlMethod_wf unknown m).
Proof. unfold FidlMethod_wf. apply _. Defined.
#[export] Instance FidlInterface_wf_dec i : Decision (FidlInterface_wf unknown i).
Proof. unfold FidlInterface_wf. apply _. Defined.
#[export] Instance UserDefinedType_wf_dec t : Decision (UserDefinedType_wf unknown t).
Proof. destruct t; simpl; apply _. Defined.
#[export] Instance DeclaredConstant_wf_dec c : Decision (DeclaredConstant_wf unknown c).
Proof. unfold DeclaredConstant_wf. apply _. Defined.
#[export] Instance RuntimeTypeInfo_wf_dec t : Decision (RuntimeTypeInfo_wf unknown t).
Proof. unfold RuntimeTypeInfo_wf. apply _. Defined.
#[export] Instance FidlFile_wf_dec f : Decision (FidlFile_wf unknown f).
Proof. unfold FidlFile_wf. apply _. Defined.
#[export] Instance FidlFileGraph_wf_dec g : Decision (FidlFileGraph_wf unknown g).
Proof. unfold FidlFileGraph_wf. apply _. Defined.
End Decidable.
