(* ===== verification/Serialize.v ===== *)
(** * Serializing a descriptor: serialize of serialization.go

    The file graph of a descriptor is encoded for the code generators, and the
    type information of each file on the way, with an encoder that is set to
    deterministic.  gzip and base64 are parameters; writing to the buffer of bytes
    that gzip has does not fail.  The human-readable form for debugging, which is
    the work of a library, is left out. *)
From Stdlib Require Import Ascii String.
From S2P Require Export Serialization FidlEncode.
From S2P Require Import Wire Encoder.

(** [encoder := bindings.NewEncoder()], [SetDeterministic(true)], Encode, whose
    error is dropped, and [Data]. *)
Definition encode_value (encode : EM unit) : res error (list Z * list Z) :=
  ((SetDeterministic true ;;; ignore encode ;;; Data) NewEncoder).2.

Section Serialize.
(** The orders of the loops over maps. *)
Context (range_methods : gmap Z FidlMethod -> list Z).
Context (range_string : forall {A}, gmap string A -> list string).
Context (gzip : list Z -> list Z) (base64 : list Z -> string).

(** [None] is a panic. *)
Definition serialized_type_info (typeInfo : RuntimeTypeInfo) : option string :=
  match encode_value (RuntimeTypeInfo_Encode range_methods (@range_string) typeInfo) with
  | Ok (byteSlice, _) => Some (base64 (gzip byteSlice))
  | _ => None
  end.
Definition serialize (emitLineAndColumnNumbers emitComputedPackingData emitSerializedRuntimeTypeInfo : bool)
    (constantAttributes : nat -> option Attributes) (g : Program) : res error (list Z) :=
  match translateDescriptor g emitLineAndColumnNumbers emitComputedPackingData emitSerializedRuntimeTypeInfo
          serialized_type_info constantAttributes with
  | None => Panic
  | Some fileGraph =>
    match encode_value (FidlFileGraph_Encode range_methods (@range_string) fileGraph) with
    | Ok (bytes, _) => Ok bytes
    | Err x => Err x
    | Panic => Panic
    end
  end.
Definition Serialize : (nat -> option Attributes) -> Program -> res error (list Z) := serialize true true true.
End Serialize.
