(* ===== verification/CodecLogic.v ===== *)
(** * A logic of encoders and their decoders

    An encoder and the decoder of the same type make the same sequence of calls,
    so their cursors move alike.  This file has the invariant of the encoder that
    makes this work, what a step leaves as it was ([wrote]), what a reader sees of
    a buffer, and the shapes of the values, which say where the cursor goes. *)
From Stdlib Require Import Sorting.
From S2P Require Export Roundtrip.
From S2P Require Import FidlEncode FidlDecode.
From S2P Require Import Wire.
From S2P Require Encoder Decoder.

#[local] Abbreviation EM A := (M Encoder.Encoder error A).
#[local] Abbreviation DM A := (M Decoder.Decoder error A).
#[local] Abbreviation ensured n s := (ensureElementBitSizeAndCapacity (Some s) n = Ok tt).

(** ** Bits of a buffer *)
Definition bitat (b : list Z) (p : Z) : bool :=
  match index b (p / 8) with Some x => Z.testbit x (p mod 8) | None => false end.
Definition pos (s : encodingState) : Z := 8 * offset s + bitOffset s.

Lemma bitat_byte b i j : 0 <= j < 8 -> bitat b (8 * i + j) = match index b i with Some x => Z.testbit x j | None => false end.
Proof.
  intros Hj. unfold bitat. replace (8 * i + j) with (j + i * 8) by lia.
  rewrite Z.div_add, Z.mod_add, Z.div_small, Z.mod_small by lia. done.
Qed.
Lemma bitat_index b b' p : index b (p / 8) = index b' (p / 8) -> bitat b p = bitat b' p.
Proof. unfold bitat. by intros ->. Qed.
Lemma byte_bits x j : is_byte x -> 8 <= j -> Z.testbit x j = false.
Proof.
  intros [Hx Hx'] Hj. destruct (Z.eq_dec x 0) as [->|]; [apply Z.bits_0|].
  apply Z.bits_above_log2; [done|]. assert (Z.log2 x < 8); [|lia]. apply Z.log2_lt_pow2; lia.
Qed.
(** Bytes with the same bits are equal. *)
Lemma byte_ext x y : is_byte x -> is_byte y -> (forall j, 0 <= j < 8 -> Z.testbit x j = Z.testbit y j) -> x = y.
Proof.
  intros Hx Hy H. apply Z.bits_inj'. intros j Hj.
  destruct (Z.ltb_spec j 8); [by apply H|]. by rewrite !byte_bits by (done || lia).
Qed.
Lemma index_byte b i x : Forall is_byte b -> index b i = Some x -> is_byte x.
Proof.
  unfold index. intros Hb. case_match; [|done]. intros Hx. exact (Forall_lookup_1 _ _ _ _ Hb Hx).
Qed.
Lemma index_ext b b' i x :
  Forall is_byte b -> Forall is_byte b' -> index b i = Some x -> 0 <= i < len b' ->
  (forall j, 0 <= j < 8 -> bitat b (8 * i + j) = bitat b' (8 * i + j)) -> index b' i = Some x.
Proof.
  intros Hb Hb' Hx Hi H. destruct (index_Some b' i Hi) as [y Hy]. rewrite Hy. f_equal.
  apply byte_ext; [exact (index_byte _ _ _ Hb' Hy)|exact (index_byte _ _ _ Hb Hx)|]. intros j Hj.
  specialize (H j Hj). rewrite !bitat_byte, Hx, Hy in H by done. by symmetry.
Qed.

Lemma bitat_app_zero b z p : bitat (b ++ replicate z 0) p = bitat b p.
Proof.
  unfold bitat. destruct (Z.leb_spec 0 (p / 8)); [|unfold index; by rewrite (proj2 (Z.leb_gt _ _))].
  destruct (Z.ltb_spec (p / 8) (len b)).
  - unfold index. rewrite (proj2 (Z.leb_le _ _)) by done. by rewrite lookup_app_l by lia.
  - assert (index b (p / 8) = None) as ->.
    { unfold index. case_match; [|done]. apply lookup_ge_None_2. lia. }
    case_match eqn:E; [|done]. unfold index in E. case_match; [|done].
    rewrite lookup_app_r in E by lia. apply lookup_replicate in E as [-> _]. apply Z.bits_0.
Qed.

Lemma PutUint_bits n b off v b' p :
  PutUint n b off v = Some b' -> p < 8 * off \/ 8 * (off + Z.of_nat n) <= p -> bitat b' p = bitat b p.
Proof.
  intros Hp H. apply bitat_index, (PutUint_frame _ _ _ _ _ _ Hp).
  destruct H; [left; apply Z.div_lt_upper_bound; lia|right; apply Z.div_le_lower_bound; lia].
Qed.
Lemma PutUint_bytes n b off v b' : Forall is_byte b -> PutUint n b off v = Some b' -> Forall is_byte b'.
Proof.
  intros Hb (?&?&->)%PutUint_inv. apply Forall_app. split; [by apply Forall_take|].
  apply Forall_app. split; [|by apply Forall_drop]. clear. revert v.
  induction n as [|n IH]; intros v; constructor; [|apply IH]. apply Z.mod_pos_bound. lia.
Qed.
(** A word is determined by its bits. *)
Lemma GetUint_bits n b b' off v :
  Forall is_byte b -> Forall is_byte b' -> 0 <= off -> off + Z.of_nat n <= len b' ->
  (forall p, 8 * off <= p < 8 * (off + Z.of_nat n) -> bitat b' p = bitat b p) ->
  GetUint n b off = Some v -> GetUint n b' off = Some v.
Proof.
  intros Hb Hb' Ho Hl H Hv. rewrite <- Hv.
  assert (off + Z.of_nat n <= len b) as Hl'.
  { unfold GetUint in Hv. destruct (_ && _) eqn:E; [|done]. by apply andb_prop in E as [_ ?%Z.leb_le]. }
  apply GetUint_agree; [lia..|]. intros j Hj.
  destruct (index_Some b (off + j)) as [x Hx]; [lia|]. rewrite Hx.
  apply (index_ext b); [done..|lia|]. intros k Hk. symmetry. apply H. lia.
Qed.

(** ** The states of the encoder *)
Record winv (e : Encoder.Encoder) : Prop := {
  w_inv : Encoder.enc_inv e;
  w_bytes : Forall is_byte (Encoder.buf e);
  w_tail : forall p, 8 * Encoder.end_ e <= p -> bitat (Encoder.buf e) p = false;
  w_ahead : Forall (fun s => pos s <= 8 * limit s /\ 0 <= elementsProcessed s < 2 ^ 32 /\
    forall p, pos s <= p < 8 * limit s -> bitat (Encoder.buf e) p = false) (Encoder.stateStack e);
  w_sorted : StronglySorted (fun s t => limit t <= offset s) (Encoder.stateStack e)
}.

(** What a step leaves as it was: the bits below the end, except from [lo] to [hi]. *)
Record wrote (lo hi : Z) (e e' : Encoder.Encoder) : Prop := {
  wr_inv : winv e';
  wr_end : Encoder.end_ e <= Encoder.end_ e';
  wr_handles : Encoder.handles e' = Encoder.handles e;
  wr_det : Encoder.deterministic e' = Encoder.deterministic e;
  wr_frame : forall p, 0 <= p < 8 * Encoder.end_ e -> p < lo \/ hi <= p ->
    bitat (Encoder.buf e') p = bitat (Encoder.buf e) p
}.

Lemma winv_new d : winv (Encoder.mkEncoder [] 0 [] [] d).
Proof.
  split; simpl.
  - split_and!; simpl; [lia..|by exists 0|apply Forall_nil_2].
  - apply Forall_nil_2.
  - intros p _. unfold bitat, index. by destruct (0 <=? p / 8); rewrite ?lookup_nil.
  - apply Forall_nil_2.
  - constructor.
Qed.

Lemma winv_top e s st :
  winv e -> Encoder.stateStack e = s :: st ->
  cursor_ok s /\ limit s <= Encoder.end_ e /\ (8 | limit s) /\ pos s <= 8 * limit s /\
  0 <= elementsProcessed s < 2 ^ 32.
Proof.
  intros [(?&?&Hf) _ _ Ha _] E. rewrite E in *.
  apply Forall_cons in Hf as [(?&?&?) _]. apply Forall_cons in Ha as [(?&?&?) _]. done.
Qed.

(** Writing inside the top block, ahead of its cursor. *)
Lemma inline_write e s st s' b :
  winv e -> Encoder.stateStack e = s :: st -> length b = length (Encoder.buf e) -> Forall is_byte b ->
  (forall p, 0 <= p -> p < pos s \/ pos s' <= p -> bitat b p = bitat (Encoder.buf e) p) ->
  cursor_ok s' -> limit s' = limit s -> pos s <= pos s' <= 8 * limit s -> offset s <= offset s' ->
  0 <= elementsProcessed s' < 2 ^ 32 ->
  wrote (pos s) (pos s') e
    (Encoder.mkEncoder b (Encoder.end_ e) (Encoder.handles e) (s' :: st) (Encoder.deterministic e)).
Proof.
  intros Hw Hst Hl Hb Hfr Hc Hlim Hpos Hoff Hproc.
  destruct (winv_top _ _ _ Hw Hst) as ([? ?]&?&?&_&_).
  destruct Hw as [(Hen&Hd&Hf) Hby Htail Hah Hso]. rewrite Hst in *.
  apply Forall_cons in Hf as [(?&?&?) Hf]. apply Forall_cons in Hah as [(?&?&Hz) Hah].
  apply StronglySorted_inv in Hso as [Hso Hsf].
  split; simpl; [|lia|done|done|intros p [? ?] ?; by apply Hfr].
  split; simpl; [|done| | |].
  - split_and!; simpl; [lia..|done|]. constructor; [|done]. split; [done|]. by rewrite Hlim.
  - intros p Hp. rewrite Hfr by (unfold pos in *; destruct Hc; lia). by apply Htail.
  - constructor.
    + split_and!; [lia|lia..|]. intros p Hp. rewrite Hlim in Hp. rewrite Hfr by (unfold pos in *; destruct Hc; lia).
      apply Hz. lia.
    + apply Forall_forall. intros t Ht. rewrite Forall_forall in Hah, Hsf, Hf.
      destruct (Hah t Ht) as (?&?&Hzt). destruct (Hf t Ht) as ([? ?]&_). split; [done|]. split; [done|].
      intros p Hp. rewrite Hfr; [by apply Hzt|unfold pos in *; lia|].
      left. specialize (Hsf t Ht). unfold pos in *. lia.
  - constructor; [done|]. eapply Forall_impl; [exact Hsf|]. simpl. lia.
Qed.

Lemma winv_pop e s st : winv e -> Encoder.stateStack e = s :: st -> winv (Encoder.set_stack st e).
Proof.
  intros [(Hen&Hd&Hf) Hby Htail Hah Hso] Hst. rewrite Hst in *.
  apply Forall_cons in Hf as [_ Hf]. apply Forall_cons in Hah as [_ Hah].
  apply StronglySorted_inv in Hso as [Hso _]. split; simpl; try done.
Qed.

(** Opening a block of [n] bytes, of which the first [m] are its header. *)
Lemma push_block e b n m els c :
  winv e -> 0 <= m <= n -> (8 | n) -> Encoder.end_ e + n <= len b -> Forall is_byte b ->
  (forall p, 0 <= p -> p < 8 * Encoder.end_ e \/ 8 * (Encoder.end_ e + m) <= p ->
    bitat b p = bitat (Encoder.buf e) p) ->
  wrote 0 0 e
    (Encoder.mkEncoder b (Encoder.end_ e + n) (Encoder.handles e)
       (mkState (Encoder.end_ e + m) 0 (Encoder.end_ e + n) els 0 c :: Encoder.stateStack e)
       (Encoder.deterministic e)).
Proof.
  intros [(Hen&Hd&Hf) Hby Htail Hah Hso] Hm Hn Hl Hb Hfr.
  split; simpl; [|lia|done|done|intros p ??; apply Hfr; lia].
  split; simpl; [|done| | |].
  - split_and!; simpl; [lia..|by apply Z.divide_add_r|]. constructor.
    + split_and!; simpl; [split; simpl; lia|lia|by apply Z.divide_add_r].
    + eapply Encoder.block_ok_mono; [|exact Hf]. lia.
  - intros p Hp. rewrite Hfr by lia. apply Htail. lia.
  - constructor.
    + unfold pos. simpl. split; [lia|]. split; [lia|]. intros p Hp. rewrite Hfr by lia. apply Htail. lia.
    + apply Forall_forall. intros t Ht. rewrite Forall_forall in Hah, Hf.
      destruct (Hah t Ht) as (?&?&Hzt). destruct (Hf t Ht) as ([? ?]&?&_). split; [done|]. split; [done|].
      intros p Hp. rewrite Hfr by (unfold pos in *; lia). by apply Hzt.
  - constructor; [done|]. apply Forall_forall. intros t Ht. rewrite Forall_forall in Hf.
    destruct (Hf t Ht) as (_&?&_). simpl. lia.
Qed.

Lemma Forall_byte_zeros z b : Forall is_byte b -> Forall is_byte (b ++ replicate z 0).
Proof.
  intros Hb. apply Forall_app. split; [done|]. apply Forall_replicate. unfold is_byte. lia.
Qed.

Lemma start_wrote h c e :
  winv e -> 8 <= Size h < 2 ^ 32 -> 0 <= ElementsOrVersion h < 2 ^ 32 ->
  exists e', Encoder.start h c e = (e', Ok tt) /\ wrote 0 0 e e' /\
    Encoder.end_ e' = Encoder.end_ e + align (Size h) 8 /\
    Encoder.stateStack e' = mkState (Encoder.end_ e + 8) 0 (Encoder.end_ e')
      (if c then ElementsOrVersion h else 0) 0 c :: Encoder.stateStack e /\
    GetUint 4 (Encoder.buf e') (Encoder.end_ e) = Some (Size h) /\
    GetUint 4 (Encoder.buf e') (Encoder.end_ e + 4) = Some (ElementsOrVersion h).
Proof.
  intros Hw Hs Hv. pose proof (w_inv _ Hw) as He.
  destruct (Encoder.start_run h c e ltac:(lia) He) as (b&Hr&z&b1&Hb1&Hb&Hl).
  eexists. split; [exact Hr|]. simpl. pose proof He as (Hen&_).
  pose proof (align_bounds 3 (Size h)) as [? Hdv]; [lia|]. change (2 ^ 3) with 8 in *.
  pose proof (length_PutUint _ _ _ _ _ Hb1) as Hl1. pose proof (length_PutUint _ _ _ _ _ Hb) as Hl2.
  split_and!; [|done|done| |].
  - apply push_block; [done|lia|done|lia| |].
    + eapply PutUint_bytes; [|exact Hb]. eapply PutUint_bytes; [|exact Hb1]. apply Forall_byte_zeros, Hw.
    + intros p Hp Hout. rewrite (PutUint_bits _ _ _ _ _ _ Hb) by lia.
      rewrite (PutUint_bits _ _ _ _ _ _ Hb1) by lia. apply bitat_app_zero.
  - pose proof (GetUint_Put _ _ _ _ _ Hb1) as Hg. change (8 * Z.of_nat 4) with 32 in Hg.
    rewrite Z.mod_small in Hg by lia. rewrite <- Hg.
    apply GetUint_agree; [lia..|]. intros j Hj. apply (PutUint_frame _ _ _ _ _ _ Hb). lia.
  - rewrite (GetUint_Put _ _ _ _ _ Hb). f_equal. by apply Z.mod_small.
Qed.

Lemma wrote_trans lo hi lo' hi' lo'' hi'' e e' e'' :
  wrote lo hi e e' -> wrote lo' hi' e' e'' ->
  (forall p, 0 <= p < 8 * Encoder.end_ e -> p < lo'' \/ hi'' <= p -> (p < lo \/ hi <= p) /\ (p < lo' \/ hi' <= p)) ->
  wrote lo'' hi'' e e''.
Proof.
  intros [H1 H2 H3 H4 H5] [H1' H2' H3' H4' H5'] Hcov. split; [done|lia|congruence|congruence|].
  intros p Hp Hout. destruct (Hcov p Hp Hout). rewrite H5' by (done || lia). by apply H5.
Qed.

(** ** What a reader sees *)
Definition sees (b : list Z) (lo hi : Z) (d : Decoder.Decoder) : Prop :=
  forall p, lo <= p < hi -> bitat (Decoder.buf d) p = bitat b p.
(** A buffer of bytes that goes as far as [n]. *)
Definition readable (n : Z) (d : Decoder.Decoder) : Prop :=
  Forall is_byte (Decoder.buf d) /\ n <= len (Decoder.buf d) < 2 ^ 63.
(** The blocks of the decoder are not padded, those of the encoder are. *)
Definition near (d : Decoder.Decoder) (n : Z) : Prop := Decoder.end_ d <= n < Decoder.end_ d + 8.

Lemma sees_sub b lo hi lo' hi' d : sees b lo hi d -> lo <= lo' -> hi' <= hi -> sees b lo' hi' d.
Proof. intros H ?? p Hp. apply H. lia. Qed.
(** What was written before is still seen after [wrote]. *)
Lemma sees_before lo hi e e' a b d :
  wrote lo hi e e' -> sees (Encoder.buf e') a b d -> 0 <= a -> b <= 8 * Encoder.end_ e ->
  b <= lo \/ hi <= a -> sees (Encoder.buf e) a b d.
Proof. intros Hw H ??? p Hp. rewrite H by done. apply (wr_frame _ _ _ _ Hw); lia. Qed.
Lemma readable_le n m d : readable n d -> m <= n -> readable m d.
Proof. intros [? ?] ?. split; [done|lia]. Qed.

Lemma sees_word n b off v d :
  Forall is_byte b -> readable (off + Z.of_nat n) d -> 0 <= off ->
  sees b (8 * off) (8 * (off + Z.of_nat n)) d ->
  GetUint n b off = Some v -> GetUint n (Decoder.buf d) off = Some v.
Proof. intros Hb [Hd Hl] Ho Hs. apply GetUint_bits; [done|done|done|lia|]. intros p Hp. by apply Hs. Qed.

(** ** Shapes: where the cursor goes *)
Inductive shape : Type :=
| SBit
| SWord (k : Z)
(** a union whose value is a word, a pointer or nothing, and one whose value is a bit *)
| SUnion
| SUnionBit.

Definition byte_of (s : encodingState) : Z := if 0 <? bitOffset s then offset s + 1 else offset s.
Definition at_byte (s : encodingState) (o p : Z) : encodingState :=
  mkState o 0 (limit s) (elements s) p (checkElements s).
Definition set_limit (l : Z) (s : encodingState) : encodingState :=
  mkState (offset s) (bitOffset s) l (elements s) (elementsProcessed s) (checkElements s).
(** The cursor behind the header of a union. *)
Definition header_next (s : encodingState) : encodingState :=
  at_byte s (align (byte_of s) 8 + 8) (elementsProcessed s).
Definition advance (sh : shape) (s : encodingState) : encodingState :=
  match sh with
  | SBit => bit_next s
  | SWord k => at_byte s (align (byte_of s) (2 ^ k) + 2 ^ k) (u32 (elementsProcessed s + 1))
  | SUnion => at_byte s (align (byte_of s) 8 + 16) (u32 (elementsProcessed s + 1))
  | SUnionBit => at_byte s (align (byte_of s) 8 + 9) (u32 (elementsProcessed s + 1))
  end.
Definition fits (sh : shape) (s : encodingState) : Prop :=
  match sh with
  | SBit => ensured 1 s
  | SWord k => 0 <= k <= 3 /\ ensured (8 * 2 ^ k) s
  | SUnion | SUnionBit => ensured 64 s /\ ensured 64 (header_next s)
  end.

Lemma word_start_at n s : cursor_ok s -> word_start n s = at_byte s (align (byte_of s) n) (elementsProcessed s).
Proof.
  intros [? ?]. unfold word_start, alignOffsetToBytes, byte_of. destruct s as [o b l el p c]. simpl in *.
  destruct (Z.ltb_spec 0 b); [done|]. by replace b with 0 by lia.
Qed.
Lemma word_next_at k s : cursor_ok s -> word_next (2 ^ k) s = advance (SWord k) s.
Proof. intros Hc. unfold word_next. by rewrite word_start_at. Qed.
Lemma advance_limit sh s l : advance sh (set_limit l s) = set_limit l (advance sh s).
Proof. by destruct sh, s. Qed.
Lemma header_next_limit s l : header_next (set_limit l s) = set_limit l (header_next s).
Proof. by destruct s. Qed.

(** A word fits at the next multiple of its size. *)
Lemma ensured_word k s :
  0 <= k <= 3 -> cursor_ok s -> (8 | limit s) -> ensured (8 * 2 ^ k) s ->
  byte_of s <= align (byte_of s) (2 ^ k) /\ align (byte_of s) (2 ^ k) + 2 ^ k <= limit s /\
  (2 ^ k | align (byte_of s) (2 ^ k)).
Proof.
  intros Hk Hc Hl H. destruct (ensure_fits s k Hk Hc (or_intror Hl) H) as (_&_&Hfit&_&Hd).
  fold (word_start (2 ^ k) s) in Hfit, Hd. rewrite word_start_at in Hfit, Hd by done. simpl in Hfit, Hd.
  pose proof (align_bounds k (byte_of s) ltac:(lia)). lia || (split_and!; [lia|lia|done]).
Qed.
(** A smaller word fits where a word of eight bytes does. *)
Lemma ensured_smaller k s :
  0 <= k <= 3 -> bitOffset s = 0 -> (8 | offset s) -> 0 <= offset s -> ensured 64 s -> ensured (8 * 2 ^ k) s.
Proof.
  intros Hk Hb Hd Ho (s0&[= <-]&Hch&Hfit)%ensure_inv. rewrite Hb in Hfit.
  change (bytesForBits (u32 (0 + 64))) with 8 in Hfit.
  assert (1 <= 2 ^ k <= 8) as Hpow.
  { split; [pose proof (Z.pow_pos_nonneg 2 k); lia|apply (Z.pow_le_mono_r 2 k 3); lia]. }
  simpl. rewrite Hb, u32_small, bytesForBits_small by lia.
  replace ((0 + 8 * 2 ^ k + 7) / 8) with (2 ^ k) by (apply (Z.div_unique_pos _ _ _ 7); lia).
  assert (align (offset s + 2 ^ k) (2 ^ k) <= limit s) as Hf.
  { destruct Hd as [q Hq]. rewrite Hq in *.
    assert ((2 ^ k | q * 8)).
    { apply Z.divide_mul_r. exists (2 ^ (3 - k)). rewrite <- Z.pow_add_r by lia. by replace (3 - k + k) with 3 by lia. }
    rewrite Z.add_comm, align_shift by (lia || done). rewrite align_pow2, Z.div_small by lia.
    pose proof (align_bounds 3 (q * 8 + 8) ltac:(lia)). change (2 ^ 3) with 8 in *. lia. }
  rewrite (proj2 (Z.ltb_ge _ _)) by done.
  destruct (checkElements s); [|done]. simpl. by rewrite (proj2 (Z.leb_gt _ _)) by (by apply Hch).
Qed.

Lemma byte_of_bounds s : cursor_ok s -> 8 * offset s <= pos s <= 8 * byte_of s /\ offset s <= byte_of s <= offset s + 1.
Proof. intros [? ?]. unfold byte_of, pos. case_match eqn:E; [apply Z.ltb_lt in E|apply Z.ltb_ge in E]; lia. Qed.

Lemma union_room s :
  cursor_ok s -> (8 | limit s) -> ensured 64 s -> ensured 64 (header_next s) ->
  byte_of s <= align (byte_of s) 8 /\ align (byte_of s) 8 + 16 <= limit s /\ (8 | align (byte_of s) 8) /\
  cursor_ok (header_next s).
Proof.
  intros Hc Hl H1 H2. pose proof (byte_of_bounds s Hc). destruct Hc as [Hc1 Hc2].
  destruct (ensured_word 3 s ltac:(lia) (conj Hc1 Hc2) Hl H1) as (Ha&Hb&Hd). change (2 ^ 3) with 8 in *.
  assert (cursor_ok (header_next s)) as Hc' by (split; simpl; lia).
  destruct (ensured_word 3 (header_next s) ltac:(lia) Hc' Hl H2) as (Ha'&Hb'&_). change (2 ^ 3) with 8 in *.
  unfold byte_of in Ha', Hb'. cbn [header_next at_byte bitOffset offset limit Z.ltb Z.compare] in Ha', Hb'.
  split_and!; [done|lia|done|apply Hc'..].
Qed.

Lemma advance_ok sh s :
  cursor_ok s -> (8 | limit s) -> 0 <= elementsProcessed s < 2 ^ 32 -> fits sh s ->
  cursor_ok (advance sh s) /\ pos s <= pos (advance sh s) <= 8 * limit s /\ offset s <= offset (advance sh s) /\
  0 <= elementsProcessed (advance sh s) < 2 ^ 32.
Proof.
  intros Hc Hl Hp Hf. pose proof (byte_of_bounds s Hc). pose proof (u32_range (elementsProcessed s + 1)).
  destruct sh as [|k| |]; cbn [advance fits] in *.
  - pose proof (ensure_fits_bit s Hc Hf). pose proof (cursor_ok_bit_next s Hc) as Hc'.
    destruct Hc as [? Hb]. destruct (bit_next_cursor s Hb) as [(?&?&?)|(?&?&?)]; unfold pos in *;
      (split; [done|]); (split; [lia|]); (split; [lia|]); unfold bit_next; simpl; lia.
  - destruct Hf as [Hk Hf]. destruct (ensured_word k s Hk Hc Hl Hf) as (?&?&?).
    pose proof (Z.pow_pos_nonneg 2 k). destruct Hc. unfold pos in *. simpl. (split; [split; simpl; lia|]); split_and!; simpl; lia.
  - destruct Hf as [H1 H2]. destruct (union_room s Hc Hl H1 H2) as (?&?&?&_). destruct Hc.
    unfold pos in *. simpl. (split; [split; simpl; lia|]); split_and!; simpl; lia.
  - destruct Hf as [H1 H2]. destruct (union_room s Hc Hl H1 H2) as (?&?&?&_). destruct Hc.
    unfold pos in *. simpl. (split; [split; simpl; lia|]); split_and!; simpl; lia.
Qed.
