(* ===== verification/CodecSlots.v ===== *)
(** * Writers and their readers

    [code g fin shs w r a] says that, in any block with room for the shapes [shs],
    [w] writes the value [a], moving the cursor over [shs], adding at least [g]
    bytes at the end, and that [r] reads [a] from every buffer that has the bits
    that were written; with [fin] both then finish the block.  [object] says the
    same of a value that has a block of its own.  Here are the words, the bits, the
    pointers and sequences of them; CodecObjects has the blocks. *)
From Stdlib Require Import Ascii String Sorting.
From S2P Require Export CodecLogic.
From S2P Require Import FidlEncode FidlDecode.
From S2P Require Import Wire.
From S2P Require Encoder Decoder.

#[local] Abbreviation EM A := (M Encoder.Encoder error A).
#[local] Abbreviation DM A := (M Decoder.Decoder error A).
#[local] Abbreviation ensured n s := (ensureElementBitSizeAndCapacity (Some s) n = Ok tt).

Definition advances (shs : list shape) (s : encodingState) : encodingState :=
  foldl (fun s sh => advance sh s) s shs.
Fixpoint all_fit (shs : list shape) (s : encodingState) : Prop :=
  match shs with
  | [] => True
  | sh :: shs => fits sh s /\ all_fit shs (advance sh s)
  end.
Lemma advances_limit shs s l : advances shs (set_limit l s) = set_limit l (advances shs s).
Proof. revert s. induction shs as [|sh shs IH]; intros s; [done|]. simpl. by rewrite advance_limit, IH. Qed.
Lemma limit_advance sh s : limit (advance sh s) = limit s.
Proof. by destruct sh. Qed.
Lemma limit_advances shs s : limit (advances shs s) = limit s.
Proof. revert s. induction shs as [|sh shs IH]; intros s; [done|]. simpl. by rewrite IH, limit_advance. Qed.
Lemma advances_app shs shs' s : advances (shs ++ shs') s = advances shs' (advances shs s).
Proof. apply foldl_app. Qed.
Lemma all_fit_app shs shs' s : all_fit (shs ++ shs') s <-> all_fit shs s /\ all_fit shs' (advances shs s).
Proof.
  revert s. induction shs as [|sh shs IH]; intros s; simpl; [tauto|]. rewrite IH. unfold advances. simpl. tauto.
Qed.
Lemma advances_ok shs s :
  cursor_ok s -> (8 | limit s) -> pos s <= 8 * limit s -> 0 <= elementsProcessed s < 2 ^ 32 -> all_fit shs s ->
  pos s <= pos (advances shs s) <= 8 * limit s.
Proof.
  revert s. induction shs as [|sh shs IH]; intros s Hc Hl Hp He Hf; [simpl; lia|].
  destruct Hf as [Hf Hfs]. destruct (advance_ok sh s Hc Hl He Hf) as (Hc'&Hp'&_&He').
  specialize (IH (advance sh s) Hc'). rewrite limit_advance in IH. specialize (IH Hl ltac:(lia) He' Hfs).
  change (advances (sh :: shs) s) with (advances shs (advance sh s)). lia.
Qed.

(** ** The judgements *)
Definition after (fin : bool) (shs : list shape) (s : encodingState) (st : list encodingState) :=
  if fin then st else advances shs s :: st.
Definition reach (fin : bool) (shs : list shape) (s : encodingState) : Z :=
  if fin then 8 * limit s else pos (advances shs s).
Definition complete (fin : bool) (shs : list shape) (s : encodingState) : Prop :=
  fin = true -> checkElements s = true -> elementsProcessed (advances shs s) = elements s.

(** The blocks of the decoder may have a lower limit. *)
Definition code {A} (g : Z) (fin : bool) (shs : list shape) (w : EM unit) (r : DM A) (a : A) : Prop :=
  forall e s st, winv e -> Encoder.stateStack e = s :: st -> all_fit shs s -> complete fin shs s ->
  exists e', w e = (e', Ok tt) /\ Encoder.stateStack e' = after fin shs s st /\
    wrote (pos s) (reach fin shs s) e e' /\ Encoder.end_ e + g <= Encoder.end_ e' /\
    forall d l dst, Decoder.stateStack d = set_limit l s :: dst -> all_fit shs (set_limit l s) ->
      near d (Encoder.end_ e) -> readable (Encoder.end_ e') d ->
      sees (Encoder.buf e') (pos s) (reach fin shs s) d ->
      sees (Encoder.buf e') (8 * Encoder.end_ e) (8 * Encoder.end_ e') d ->
      exists n, r d = (Decoder.set_end n (Decoder.set_stack (after fin shs (set_limit l s) dst) d), Ok a) /\
        n <= Encoder.end_ e' < n + 8.
Definition object {A} (g : Z) (w : EM unit) (r : DM A) (a : A) : Prop :=
  forall e, winv e ->
  exists e', w e = (e', Ok tt) /\ Encoder.stateStack e' = Encoder.stateStack e /\ wrote 0 0 e e' /\
    Encoder.end_ e + 8 <= Encoder.end_ e' /\ Encoder.end_ e + g <= Encoder.end_ e' /\
    forall d, Decoder.end_ d = Encoder.end_ e -> readable (Encoder.end_ e') d ->
      sees (Encoder.buf e') (8 * Encoder.end_ e) (8 * Encoder.end_ e') d ->
      exists n, r d = (Decoder.set_end n d, Ok a) /\ n <= Encoder.end_ e' < n + 8.
(** A value in line, for which nothing is claimed. *)
Definition inline {A} (sh : shape) (w : EM unit) (r : DM A) (a : A) : Prop :=
  forall e s st, winv e -> Encoder.stateStack e = s :: st -> fits sh s ->
  exists e', w e = (e', Ok tt) /\ Encoder.stateStack e' = advance sh s :: st /\
    wrote (pos s) (pos (advance sh s)) e e' /\ Encoder.end_ e' = Encoder.end_ e /\
    forall d l dst, Decoder.stateStack d = set_limit l s :: dst -> fits sh (set_limit l s) ->
      readable (Encoder.end_ e) d -> sees (Encoder.buf e') (pos s) (pos (advance sh s)) d ->
      r d = (Decoder.set_stack (set_limit l (advance sh s) :: dst) d, Ok a).

Abbreviation slot sh w r a := (code 0 false [sh] w r a).
Abbreviation rest shs w r a := (code 0 true shs w r a).

Lemma set_end_same d : Decoder.set_end (Decoder.end_ d) d = d.
Proof. by destruct d. Qed.

Lemma slot_inline {A} sh w (r : DM A) a : inline sh w r a -> slot sh w r a.
Proof.
  intros H e s st Hw Hst [Hf _] _. destruct (H e s st Hw Hst Hf) as (e' & Hrun & Hst' & Hwr & Hend & Hrd).
  exists e'. split; [done|]. split; [done|]. split; [done|]. split; [lia|].
  intros d l dst Hd [Hfd _] Hn Hr Hs _. exists (Decoder.end_ d). split; [|unfold near in Hn; lia].
  rewrite (Hrd d l dst Hd Hfd); [|by rewrite <- Hend|done].
  cbn [after advances foldl]. rewrite advance_limit. by destruct d.
Qed.
(** What a word writer does. *)
Lemma write_word_wrote k v e s st :
  0 <= k <= 3 -> winv e -> Encoder.stateStack e = s :: st -> ensured (8 * 2 ^ k) s ->
  exists b, PutUint (Z.to_nat (2 ^ k)) (Encoder.buf e) (align (byte_of s) (2 ^ k)) v = Some b /\ Forall is_byte b /\
    let e' := Encoder.mkEncoder b (Encoder.end_ e) (Encoder.handles e) (advance (SWord k) s :: st) (Encoder.deterministic e) in
    Encoder.write_word (2 ^ k) v e = (e', Ok tt) /\ wrote (pos s) (pos (advance (SWord k) s)) e e'.
Proof.
  intros Hk Hw Hst Hf. destruct (winv_top _ _ _ Hw Hst) as (Hc&Hle&Hl&Hps&Hp).
  destruct (advance_ok (SWord k) s Hc Hl Hp (conj Hk Hf)) as (Hc'&Hpos&Hoff&Hp').
  destruct (ensured_word k s Hk Hc Hl Hf) as (Ha&Hb&_). pose proof (byte_of_bounds s Hc) as Hby.
  pose proof (Z.pow_pos_nonneg 2 k ltac:(lia) ltac:(lia)) as Hpw.
  pose proof (w_inv _ Hw) as (Hen&_). assert (0 <= offset s) by apply Hc.
  destruct (PutUint_Some (Z.to_nat (2 ^ k)) (Encoder.buf e) (align (byte_of s) (2 ^ k)) v) as [b Hput]; [lia|lia|].
  assert (Forall is_byte b) as Hbb by (eapply PutUint_bytes; [apply Hw|exact Hput]).
  exists b. split; [done|]. split; [done|]. cbv zeta. split.
  - rewrite <- word_next_at by done. apply Encoder.write_word_ok; [done..|]. by rewrite word_start_at.
  - apply inline_write; [done|done|by eapply length_PutUint|done| |done|done|lia|done|done].
    intros p Hp0 Hout. apply (PutUint_bits _ _ _ _ _ _ Hput).
    change (pos (advance (SWord k) s)) with (8 * (align (byte_of s) (2 ^ k) + 2 ^ k) + 0) in Hout. lia.
Qed.

Lemma inline_word k v :
  0 <= k <= 3 -> 0 <= v < 2 ^ (8 * 2 ^ k) ->
  inline (SWord k) (Encoder.write_word (2 ^ k) v) (Decoder.read_word (2 ^ k)) v.
Proof.
  intros Hk Hv e s st Hw Hst [_ Hf]. destruct (winv_top _ _ _ Hw Hst) as (Hc&Hle&Hl&Hps&Hp).
  destruct (ensured_word k s Hk Hc Hl Hf) as (Ha&Hb&_). pose proof (byte_of_bounds s Hc) as Hby.
  pose proof (Z.pow_pos_nonneg 2 k ltac:(lia) ltac:(lia)) as Hpw. assert (0 <= offset s) by apply Hc.
  destruct (write_word_wrote k v e s st Hk Hw Hst Hf) as (b&Hput&Hbb&Hrun&Hwr).
  eexists. split; [exact Hrun|]. split; [done|]. split; [exact Hwr|]. split; [done|].
  cbn [Encoder.end_ Encoder.buf]. intros d l dst Hd [_ Hfd] Hread Hsee.
  rewrite (Decoder.read_word_ok (2 ^ k) d (set_limit l s) dst v Hd Hfd).
  - rewrite word_next_at by exact Hc. by rewrite advance_limit.
  - rewrite word_start_at by exact Hc. cbn [at_byte offset set_limit].
    change (byte_of (set_limit l s)) with (byte_of s).
    apply (sees_word _ b); [done| |lia| |].
    + eapply readable_le; [exact Hread|]. lia.
    + eapply sees_sub; [exact Hsee|lia|].
      change (pos (advance (SWord k) s)) with (8 * (align (byte_of s) (2 ^ k) + 2 ^ k) + 0). lia.
    + rewrite (GetUint_Put _ _ _ _ _ Hput). f_equal. apply Z.mod_small. by rewrite Z2Nat.id by lia.
Qed.

Lemma inline_map {A B} sh w (r : DM A) (f : A -> B) a :
  inline sh w r a -> inline sh w (let! x := r in ret (f x)) (f a).
Proof.
  intros H e s st He Hst Hf. destruct (H e s st He Hst Hf) as (e' & Hrun & Hst' & Hwr & Hend & Hrd).
  exists e'. split_and!; [done..|]. intros d l dst Hd Hfd Hr Hs.
  by rewrite (bind_run_ok _ _ _ _ _ (Hrd d l dst Hd Hfd Hr Hs)).
Qed.

Lemma lor_byte x y : is_byte x -> is_byte y -> is_byte (Z.lor x y).
Proof.
  intros Hx Hy. assert (Z.lor x y mod 2 ^ 8 = Z.lor x y) as <-; [|apply Z.mod_pos_bound; lia].
  apply Z.bits_inj'. intros j Hj. destruct (Z.ltb_spec j 8); [by rewrite Z.mod_pow2_bits_low|].
  rewrite Z.mod_pow2_bits_high, Z.lor_spec by lia. by rewrite !byte_bits.
Qed.

Lemma inline_bit v : inline SBit (Encoder.WriteBool v) Decoder.ReadBool v.
Proof.
  intros e s st Hw Hst Hf. destruct (winv_top _ _ _ Hw Hst) as (Hc&Hle&Hl&Hps&Hp).
  destruct (advance_ok SBit s Hc Hl Hp Hf) as (Hc'&Hpos&Hoff&Hp').
  pose proof (ensure_fits_bit s Hc Hf) as Hfit. pose proof (w_inv _ Hw) as (Hen&_).
  pose proof Hc as [Ho Hb]. assert (pos (advance SBit s) = pos s + 1) as Hnext.
  { unfold pos. destruct (bit_next_cursor s Hb) as [(?&?&?)|(?&?&?)]; cbn [advance]; lia. }
  destruct (index_Some (Encoder.buf e) (offset s)) as [x Hx]; [lia|].
  assert (bitat (Encoder.buf e) (pos s) = false) as Hz.
  { pose proof (w_ahead _ Hw) as Ha. rewrite Hst in Ha. apply Forall_cons in Ha as [(_&_&Ha) _]. apply Ha. lia. }
  pose proof (index_byte _ _ _ (w_bytes _ Hw) Hx) as Hbx.
  set (x' := Z.lor x (u8 (Z.shiftl 1 (bitOffset s)))).
  set (b := if v then <[Z.to_nat (offset s) := x']> (Encoder.buf e) else Encoder.buf e).
  assert (length b = length (Encoder.buf e)) as Hlb by (subst b; destruct v; [apply length_insert|done]).
  assert (forall p, 0 <= p -> bitat b p = if p =? pos s then v else bitat (Encoder.buf e) p) as Hbit.
  { intros p Hp0. subst b. destruct (Z.eqb_spec p (pos s)) as [->|Hne]; destruct v; try done.
    - unfold pos. rewrite bitat_byte by done.
      rewrite (index_store _ _ _ _ _ (store_Some (Encoder.buf e) (offset s) x' ltac:(lia))), Z.eqb_refl. subst x'.
      by rewrite testbit_set_bit, Z.eqb_refl, orb_true_r by lia.
    - unfold bitat. rewrite (index_store _ _ _ _ _ (store_Some (Encoder.buf e) (offset s) x' ltac:(lia))).
      destruct (Z.eqb_spec (offset s) (p / 8)) as [Heq|]; [|done]. rewrite <- Heq, Hx. subst x'.
      pose proof (Z.mod_pos_bound p 8 ltac:(lia)). pose proof (Z.div_mod p 8 ltac:(lia)).
      rewrite testbit_set_bit by lia. rewrite (proj2 (Z.eqb_neq (p mod 8) (bitOffset s))) by (unfold pos in Hne; lia).
      by rewrite orb_false_r. }
  assert (Forall is_byte b) as Hbb.
  { subst b. destruct v; [|apply Hw]. apply Forall_insert; [apply Hw|]. apply lor_byte; [done|apply u8_range]. }
  eexists. split; [by apply Encoder.WriteBool_ok|]. cbn [advance]. split; [done|].
  cbn [Encoder.end_ Encoder.buf]. split; [|split; [done|]].
  - apply inline_write; [done|done|exact Hlb|exact Hbb| |done|done|done|done|done].
    intros p Hp0 Hout. change (bit_next s) with (advance SBit s) in Hout.
    change (bitat b p = bitat (Encoder.buf e) p). rewrite Hbit by done. by rewrite (proj2 (Z.eqb_neq _ _)) by lia.
  - intros d l dst Hd Hfd [Hdb Hdl] Hsee.
    destruct (index_Some (Decoder.buf d) (offset s)) as [y Hy]; [lia|].
    assert ((Z.land (Z.shiftr y (bitOffset s)) 1 =? 1) = v) as Hv.
    { assert (bitat (Decoder.buf d) (pos s) = v) as Hv.
      { rewrite Hsee by (change (bit_next s) with (advance SBit s); lia). fold x' b. by rewrite Hbit, Z.eqb_refl by (unfold pos; lia). }
      unfold pos in Hv. rewrite bitat_byte, Hy in Hv by done. rewrite <- Hv.
      change 1 with (Z.ones 1) at 1. rewrite Z.land_ones by lia. change (2 ^ 1) with 2.
      rewrite <- Z.bit0_mod, Z.shiftr_spec, Z.add_0_l by lia. by destruct (Z.testbit y (bitOffset s)). }
    rewrite (Decoder.ReadBool_ok d (set_limit l s) dst y Hd Hfd Hy). change (bitOffset (set_limit l s)) with (bitOffset s). rewrite Hv.
    change (bit_next (set_limit l s)) with (advance SBit (set_limit l s)). by rewrite advance_limit.
Qed.
(** ** Numbers *)
Lemma ReadUint8_word d : Decoder.ReadUint8 d = Decoder.read_word (2 ^ 0) d.
Proof.
  unfold Decoder.ReadUint8, Decoder.read_word, bind. change (8 * 2 ^ 0) with 8.
  destruct (Decoder.ensure 8 d) as [d1 [[]|x|]]; [|done..].
  destruct (Decoder.with_state alignOffsetToBytes d1) as [d2 [[]|x|]]; [|done..].
  assert (Decoder.with_state (alignOffset (2 ^ 0)) d2 =
          match Decoder.stateStack d2 with [] => (d2, Panic) | _ => (d2, Ok tt) end) as ->.
  { unfold Decoder.with_state. destruct d2 as [? ? ? ? [|s st]]; simpl; [done|].
    by rewrite alignOffset_1. }
  destruct (Decoder.stateStack d2) as [|s st] eqn:Hst.
  - unfold Decoder.get_state, Decoder.state. by rewrite Hst.
  - destruct (Decoder.get_state d2) as [d3 [s'|x|]]; [|done..].
    unfold get, Decoder.get_uint, must. change (Z.to_nat (2 ^ 0)) with 1%nat.
    destruct (index (Decoder.buf d3) (offset s')) as [v|] eqn:Hv.
    + by rewrite (proj2 (Decoder.GetUint_1 _ _ _) Hv).
    + destruct (GetUint 1 (Decoder.buf d3) (offset s')) as [v|] eqn:Hg; [|done].
      apply Decoder.GetUint_1 in Hg. congruence.
Qed.
Lemma inline_ext {A} sh (w w' : EM unit) (r r' : DM A) a :
  (forall e, w e = w' e) -> (forall d, r d = r' d) -> inline sh w' r' a -> inline sh w r a.
Proof.
  intros Hw Hr H e s st He Hst Hf. destruct (H e s st He Hst Hf) as (e' & Hrun & Hst' & Hwr & Hend & Hrd).
  exists e'. rewrite Hw. split_and!; [done..|]. intros. rewrite Hr. by eapply Hrd.
Qed.
Lemma inline_uint8 v : 0 <= v < 2 ^ 8 -> inline (SWord 0) (Encoder.WriteUint8 v) Decoder.ReadUint8 v.
Proof.
  intros Hv. eapply inline_ext; [intros e; by apply Encoder.WriteUint8_word|apply ReadUint8_word|]. by apply inline_word.
Qed.
Lemma inline_uint16 v : 0 <= v < 2 ^ 16 -> inline (SWord 1) (Encoder.WriteUint16 v) Decoder.ReadUint16 v.
Proof. intros Hv. by apply (inline_word 1). Qed.
Lemma inline_uint32 v : 0 <= v < 2 ^ 32 -> inline (SWord 2) (Encoder.WriteUint32 v) Decoder.ReadUint32 v.
Proof. intros Hv. by apply (inline_word 2). Qed.
Lemma inline_uint64 v : 0 <= v < 2 ^ 64 -> inline (SWord 3) (Encoder.WriteUint64 v) Decoder.ReadUint64 v.
Proof. intros Hv. by apply (inline_word 3). Qed.
(** A signed number is written as the unsigned one with the same bits. *)
Lemma inline_signed n sh w (r : DM Z) v :
  0 < n -> - 2 ^ (n - 1) <= v < 2 ^ (n - 1) ->
  (forall u, 0 <= u < 2 ^ n -> inline sh (w u) r u) -> inline sh (w (v mod 2 ^ n)) (let! x := r in ret (signed n x)) v.
Proof.
  intros Hn Hv H. rewrite <- (signed_unsigned n v Hn Hv) at 2. apply (inline_map sh _ r (signed n)).
  apply H, Z.mod_pos_bound. lia.
Qed.
Lemma inline_int8 v : - 2 ^ 7 <= v < 2 ^ 7 -> inline (SWord 0) (Encoder.WriteInt8 v) Decoder.ReadInt8 v.
Proof. intros Hv. apply (inline_signed 8); [done|done|]. apply inline_uint8. Qed.
Lemma inline_int16 v : - 2 ^ 15 <= v < 2 ^ 15 -> inline (SWord 1) (Encoder.WriteInt16 v) Decoder.ReadInt16 v.
Proof. intros Hv. apply (inline_signed 16); [done|done|]. apply inline_uint16. Qed.
Lemma inline_int32 v : - 2 ^ 31 <= v < 2 ^ 31 -> inline (SWord 2) (Encoder.WriteInt32 v) Decoder.ReadInt32 v.
Proof. intros Hv. apply (inline_signed 32); [done|done|]. apply inline_uint32. Qed.
Lemma inline_int64 v : - 2 ^ 63 <= v < 2 ^ 63 -> inline (SWord 3) (Encoder.WriteInt64 v) Decoder.ReadInt64 v.
Proof. intros Hv. apply (inline_signed 64); [done|done|]. apply inline_uint64. Qed.

(** ** Pointers *)
Lemma ensured_aligned s :
  cursor_ok s -> (8 | limit s) -> ensured 64 s -> ensured 64 (at_byte s (align (byte_of s) 8) (elementsProcessed s)).
Proof.
  intros Hc Hl H. destruct (ensured_word 3 s ltac:(lia) Hc Hl H) as (?&Hfit&Hd). change (2 ^ 3) with 8 in *.
  apply ensure_inv in H as (s0&[= <-]&Hch&_). simpl.
  change (bytesForBits (u32 (0 + 64))) with 8.
  assert (align (align (byte_of s) 8 + 8) 8 <= limit s).
  { apply (align_least 3); [lia|lia|done]. }
  rewrite (proj2 (Z.ltb_ge _ _)) by done.
  destruct (checkElements s); [|done]. simpl. by rewrite (proj2 (Z.leb_gt _ _)) by (by apply Hch).
Qed.

(** A pointer is the word for the distance to the end. *)
Lemma WritePointer_word e s st :
  winv e -> Encoder.stateStack e = s :: st -> ensured 64 s ->
  Encoder.WritePointer e = Encoder.write_word (2 ^ 3) (u64 (Encoder.end_ e - align (byte_of s) 8)) e.
Proof.
  intros Hw Hst Hf. destruct (winv_top _ _ _ Hw Hst) as (Hc&Hle&Hl&Hps&Hp).
  destruct (ensured_word 3 s ltac:(lia) Hc Hl Hf) as (Ha&Hfit&_). change (2 ^ 3) with 8 in *.
  pose proof (w_inv _ Hw) as (Hen&_). pose proof (byte_of_bounds s Hc). destruct Hc as [Ho Hb].
  set (v := u64 (Encoder.end_ e - align (byte_of s) 8)).
  destruct (PutUint_Some (Z.to_nat 8) (Encoder.buf e) (align (byte_of s) 8) v) as [b Hput]; [lia..|].
  rewrite (Encoder.write_word_ok 8 v e s st b Hst Hf) by (by rewrite word_start_at).
  unfold Encoder.WritePointer.
  rewrite (bind_run_ok _ _ _ _ _ (Encoder.with_state_run _ _ _ _ Hst)).
  erewrite bind_run_ok by (by apply Encoder.with_state_run).
  erewrite bind_run_ok by done. erewrite bind_run_ok by done.
  set (s1 := word_start 8 s). change (alignOffset 8 (alignOffsetToBytes s)) with s1.
  assert (s1 = at_byte s (align (byte_of s) 8) (elementsProcessed s)) as Hs1 by (by apply word_start_at).
  cbn [Encoder.end_ Encoder.set_stack]. rewrite Encoder.WriteUint64_word.
  assert (cursor_ok s1) as Hc1 by (rewrite Hs1; split; simpl; lia).
  assert (byte_of s1 = align (byte_of s) 8) as Hb1 by (by rewrite Hs1).
  assert (align (byte_of s1) 8 = byte_of s1) as Ha1.
  { rewrite Hb1. pose proof (align_bounds 3 (byte_of s) ltac:(lia)) as [? ?].
    pose proof (align_bounds 3 (align (byte_of s) 8) ltac:(lia)). change (2 ^ 3) with 8 in *.
    pose proof (align_least 3 (align (byte_of s) 8) (align (byte_of s) 8) ltac:(lia) ltac:(lia)) as Hx.
    change (2 ^ 3) with 8 in Hx. specialize (Hx ltac:(done)). lia. }
  erewrite (Encoder.write_word_ok (2 ^ 3) _ _ s1 st b); [|done| |].
  - f_equal. cbn [Encoder.end_ Encoder.handles Encoder.deterministic Encoder.set_stack]. f_equal. f_equal.
    etrans; [exact (word_next_at 3 s1 Hc1)|]. etrans; [|symmetry; exact (word_next_at 3 s (conj Ho Hb))].
    cbn [advance]. change (2 ^ 3) with 8. rewrite Ha1, Hb1, Hs1. done.
  - change (8 * 2 ^ 3) with 64. rewrite Hs1. by apply ensured_aligned.
  - change (2 ^ 3) with 8. rewrite word_start_at by done. rewrite Ha1, Hb1. cbn [at_byte offset Encoder.buf Encoder.set_stack].
    rewrite Hs1. exact Hput.
Qed.

(** Reading a pointer brings the decoder to where the value begins. *)
Lemma ReadPointer_run d s l dst n :
  cursor_ok s -> 0 <= Decoder.end_ d <= n -> (8 | n) -> n < len (Decoder.buf d) < 2 ^ 63 ->
  align (byte_of s) 8 + 8 <= n ->
  Decoder.ReadUint64 d =
    (Decoder.set_stack (set_limit l (advance (SWord 3) s) :: dst) d, Ok (n - align (byte_of s) 8)) ->
  Decoder.ReadPointer d =
    (Decoder.set_end n (Decoder.set_stack (set_limit l (advance (SWord 3) s) :: dst) d), Ok (n - align (byte_of s) 8)).
Proof.
  intros Hc Hend Hd Hlen Ha Hrun. pose proof (byte_of_bounds s Hc). destruct Hc as [Ho _].
  pose proof (align_bounds 3 (byte_of s) ltac:(lia)) as [? _]. change (2 ^ 3) with 8 in *.
  unfold Decoder.ReadPointer. rewrite (bind_run_ok _ _ _ _ _ Hrun).
  rewrite (proj2 (Z.eqb_neq _ 0)) by lia.
  set (d1 := Decoder.set_stack _ d). rewrite (bind_run_ok _ _ d1 d1 d1) by done.
  erewrite bind_run_ok by (by eapply Decoder.dec_get_state_run). cbv zeta.
  change (offset (set_limit l (advance (SWord 3) s))) with (align (byte_of s) 8 + 8).
  change (Decoder.buf d1) with (Decoder.buf d). change (Decoder.end_ d1) with (Decoder.end_ d).
  replace (align (byte_of s) 8 + 8 - 8) with (align (byte_of s) 8) by lia.
  rewrite (u64_small (align (byte_of s) 8)), (u64_small (Decoder.end_ d)) by lia.
  replace (align (byte_of s) 8 + (n - align (byte_of s) 8)) with n by lia. rewrite u64_small by lia.
  rewrite (proj2 (Z.leb_gt _ _)), (proj2 (Z.leb_gt _ _)), (proj2 (Z.ltb_ge _ _)) by lia.
  destruct Hd as [q ->]. rewrite Z.mod_mul by lia. cbn [orb negb Z.eqb].
  unfold Decoder.claimData. change (Decoder.buf d1) with (Decoder.buf d). change (Decoder.end_ d1) with (Decoder.end_ d).
  rewrite (proj2 (Z.ltb_ge _ _)) by lia. cbn [fst].
  by replace (Decoder.end_ d + (q * 8 - Decoder.end_ d)) with (q * 8) by lia.
Qed.

Lemma code_pointer {A} g w (r z : DM A) a :
  object g w r a ->
  code g false [SWord 3] (Encoder.WritePointer ;;; w) (let! p := Decoder.ReadPointer in if p =? 0 then z else r) a.
Proof.
  intros Hblk e s st Hw Hst [[_ Hf] _] _. destruct (winv_top _ _ _ Hw Hst) as (Hc&Hle&Hl&Hps&Hp).
  pose proof (ensured_word 3 s ltac:(lia) Hc Hl Hf) as (Ha&Hfit&_). change (2 ^ 3) with 8 in *.
  pose proof (byte_of_bounds s Hc). pose proof (w_inv _ Hw) as (Hen&Hdv&_).
  set (v := u64 (Encoder.end_ e - align (byte_of s) 8)).
  assert (fits (SWord 3) s) as Hf3 by (split; [lia|done]).
  destruct (inline_word 3 v ltac:(lia) (u64_range _) e s st Hw Hst Hf3) as (e1 & Hrun1 & Hst1 & Hwr1 & Hend1 & Hrd1).
  destruct (Hblk e1 (wr_inv _ _ _ _ Hwr1)) as (e' & Hrun & Hst' & Hwr & Hend & Hg & Hrd).
  pose proof (advance_ok (SWord 3) s Hc Hl Hp Hf3) as (_&Hpos&_).
  exists e'. split; [|split; [|split; [|split]]].
  - rewrite (bind_run_ok _ _ _ e1 tt); [exact Hrun|]. by rewrite (WritePointer_word e s st).
  - by rewrite Hst'.
  - eapply wrote_trans; [exact Hwr1|exact Hwr|]. intros p Hpr Hout. split; [done|lia].
  - lia.
  - intros d l dst Hd [Hfd _] Hnear Hread Hs1 Hs2. unfold near in Hnear. pose proof (proj2 Hread).
    assert (sees (Encoder.buf e1) (pos s) (pos (advance (SWord 3) s)) d) as Hs3.
    { eapply sees_before; [exact Hwr|exact Hs1|destruct Hc; unfold pos; lia|lia|]. destruct Hc; unfold pos in *; lia. }
    assert (readable (Encoder.end_ e) d) as Hr0 by (eapply readable_le; [exact Hread|lia]).
    specialize (Hrd1 d l dst Hd Hfd Hr0 Hs3).
    change (Decoder.read_word (2 ^ 3) d) with (Decoder.ReadUint64 d) in Hrd1. subst v.
    rewrite u64_small in Hrd1 by (destruct Hc; lia).
    set (d1 := Decoder.set_end (Encoder.end_ e) (Decoder.set_stack (set_limit l (advance (SWord 3) s) :: dst) d)).
    destruct (Hrd d1) as (n & Hn & ?).
    + done.
    + exact Hread.
    + by rewrite Hend1.
    + exists n. split; [|done]. rewrite (bind_run_ok _ _ _ d1 (Encoder.end_ e - align (byte_of s) 8)).
      * rewrite (proj2 (Z.eqb_neq _ 0)) by lia. rewrite Hn. cbn [after advances foldl]. by rewrite advance_limit.
      * apply ReadPointer_run; [exact Hc|split; [|lia]|done|lia|lia|exact Hrd1].
        destruct Hc. lia.
Qed.
Lemma code_map {A B} g fin shs w (r : DM A) (f : A -> B) a :
  code g fin shs w r a -> code g fin shs w (let! x := r in ret (f x)) (f a).
Proof.
  intros H e s st He Hst Hf Hc. destruct (H e s st He Hst Hf Hc) as (e' & Hrun & Hst' & Hwr & Hg & Hrd).
  exists e'. split_and!; [done..|]. intros d l dst Hd Hfd Hn Hr Hs1 Hs2.
  destruct (Hrd d l dst Hd Hfd Hn Hr Hs1 Hs2) as (n & Hn' & ?). exists n. split; [|done].
  by rewrite (bind_run_ok _ _ _ _ _ Hn').
Qed.
Lemma object_map {A B} g w (r : DM A) (f : A -> B) a :
  object g w r a -> object g w (let! x := r in ret (f x)) (f a).
Proof.
  intros H e He. destruct (H e He) as (e' & Hrun & Hst' & Hwr & Hend & Hg & Hrd).
  exists e'. split_and!; [done..|]. intros d Hd Hr Hs. destruct (Hrd d Hd Hr Hs) as (n & Hn & ?).
  exists n. split; [|done]. by rewrite (bind_run_ok _ _ _ _ _ Hn).
Qed.

Lemma slot_pointer {A} g w (r : DM A) a :
  object g w r a -> code g false [SWord 3] (Encoder.WritePointer ;;; w) (read_pointer r) a.
Proof. apply code_pointer. Qed.
Lemma inline_null {A} (r z : DM A) a :
  (forall d, z d = (d, Ok a)) ->
  inline (SWord 3) (ignore Encoder.WriteNullPointer) (let! p := Decoder.ReadPointer in if p =? 0 then z else r) a.
Proof.
  intros Hz e s st Hw Hst Hf.
  destruct (inline_uint64 0 ltac:(lia) e s st Hw Hst Hf) as (e' & Hrun & Hst' & Hwr & Hend & Hrd).
  exists e'. split; [unfold ignore, Encoder.WriteNullPointer; by rewrite Hrun|]. split_and!; [done..|].
  intros d l dst Hd Hfd Hr Hs. specialize (Hrd d l dst Hd Hfd Hr Hs).
  rewrite (bind_run_ok _ _ _ (Decoder.set_stack (set_limit l (advance (SWord 3) s) :: dst) d) 0); [by apply Hz|].
  unfold Decoder.ReadPointer. by rewrite (bind_run_ok _ _ _ _ _ Hrd).
Qed.
(** An optional value; [f] is what the reader makes of it. *)
Lemma slot_optional {A B} (w : A -> EM unit) (r : DM B) (f : A -> B) o :
  (forall a, o = Some a -> object 0 (w a) r (f a)) ->
  slot (SWord 3) (write_optional w o) (read_optional r) (f <$> o).
Proof.
  intros H. destruct o as [a|]; simpl.
  - apply code_pointer, (object_map 0 (w a) r Some). by apply H.
  - by apply slot_inline, inline_null.
Qed.
Lemma slot_optional_id {A} (w : A -> EM unit) r o :
  (forall a, o = Some a -> object 0 (w a) r a) -> slot (SWord 3) (write_optional w o) (read_optional r) o.
Proof. intros H. rewrite <- (option_fmap_id o) at 2. by apply (slot_optional w r id). Qed.
Lemma slot_optional_array {A} (w : A -> EM unit) r o :
  (forall a, o = Some a -> object 0 (w a) r (a, true)) ->
  slot (SWord 3) (write_optional w o) (read_optional_array r) (o, true).
Proof.
  intros H.
  set (f o := match o with None => (None, true) | Some (a, ok) => (Some a, ok) end : option A * bool).
  replace (o, true) with (f ((fun a => (a, true)) <$> o)) by (by destruct o).
  exact (code_map 0 false _ _ _ f _ (slot_optional w r _ o H)).
Qed.
(** ** Sequences *)
Lemma checks_advances shs s :
  checkElements (advances shs s) = checkElements s /\ elements (advances shs s) = elements s.
Proof.
  revert s. induction shs as [|sh shs IH]; intros s; [done|]. destruct (IH (advance sh s)) as [Hc He].
  change (advances (sh :: shs) s) with (advances shs (advance sh s)). rewrite Hc, He. by destruct sh.
Qed.
Lemma reach_bounds e s st fin shs :
  winv e -> Encoder.stateStack e = s :: st -> all_fit shs s ->
  0 <= pos s <= pos (advances shs s) /\ pos (advances shs s) <= reach fin shs s <= 8 * limit s /\
  limit s <= Encoder.end_ e.
Proof.
  intros Hw Hst Hf. destruct (winv_top _ _ _ Hw Hst) as (Hc&Hle&Hl&Hps&Hp).
  pose proof (advances_ok shs s Hc Hl Hps Hp Hf). destruct Hc. unfold reach, pos in *. destruct fin; lia.
Qed.

Lemma code_bind {A B} g1 g2 fin shs1 shs2 w1 w2 (r1 : DM A) (k : A -> DM B) x a :
  0 <= g1 -> 0 <= g2 -> code g1 false shs1 w1 r1 x -> code g2 fin shs2 w2 (k x) a ->
  code (g1 + g2) fin (shs1 ++ shs2) (w1 ;;; w2) (let! y := r1 in k y) a.
Proof.
  intros Hg1 Hg2 H1 H2 e s st Hw Hst [Hf1 Hf2]%all_fit_app Hcomp.
  destruct (H1 e s st Hw Hst Hf1 ltac:(done)) as (e1 & Hrun1 & Hst1 & Hwr1 & Hend1 & Hrd1).
  pose proof (wr_inv _ _ _ _ Hwr1) as Hw1. cbn [after reach] in *.
  destruct (H2 e1 _ st Hw1 Hst1 Hf2) as (e' & Hrun2 & Hst2 & Hwr2 & Hend2 & Hrd2).
  { intros Hfin Hch. destruct (checks_advances shs1 s) as [Hc He]. rewrite He, <- advances_app.
    apply Hcomp; [done|]. by rewrite <- Hc. }
  pose proof (reach_bounds _ _ _ false _ Hw Hst Hf1) as (?&_&?).
  pose proof (reach_bounds _ _ _ fin _ Hw1 Hst1 Hf2) as (?&?&_). rewrite limit_advances in *.
  assert (reach fin (shs1 ++ shs2) s = reach fin shs2 (advances shs1 s)) as Hreach.
  { unfold reach. destruct fin; [by rewrite limit_advances|by rewrite advances_app]. }
  exists e'. split; [by rewrite (bind_run_ok _ _ _ _ _ Hrun1)|]. split; [|split; [|split; [lia|]]].
  { rewrite Hst2. unfold after. by rewrite advances_app. }
  { rewrite Hreach. eapply wrote_trans; [exact Hwr1|exact Hwr2|]. lia. }
  intros d l dst Hd Hfd Hnear Hread Hs1 Hs2. rewrite Hreach in Hs1.
  apply all_fit_app in Hfd as [Hfd1 Hfd2]. rewrite advances_limit in Hfd2.
  pose proof (wr_end _ _ _ _ Hwr2).
  destruct (Hrd1 d l dst Hd Hfd1 Hnear) as (n & Hn & Hn').
  { eapply readable_le; [exact Hread|lia]. }
  { eapply sees_before; [exact Hwr2|eapply sees_sub; [exact Hs1|lia|lia]|lia|lia|lia]. }
  { eapply sees_before; [exact Hwr2|eapply sees_sub; [exact Hs2|lia|lia]|lia|lia|lia]. }
  rewrite advances_limit in Hn.
  destruct (Hrd2 (Decoder.set_end n (Decoder.set_stack (set_limit l (advances shs1 s) :: dst) d)) l dst)
    as (m & Hm & Hm'); [done|done|unfold near; simpl; lia|done| | |].
  { eapply sees_sub; [exact Hs1|lia|lia]. }
  { eapply sees_sub; [exact Hs2|lia|lia]. }
  assert (after fin (shs1 ++ shs2) (set_limit l s) dst = after fin shs2 (set_limit l (advances shs1 s)) dst) as ->.
  { unfold after. by rewrite advances_app, advances_limit. }
  exists m. split; [|done]. by rewrite (bind_run_ok _ _ _ _ _ Hn), Hm.
Qed.
Lemma code_seq {A B} fin sh shs w1 w2 (r1 : DM A) (k : A -> DM B) x a :
  slot sh w1 r1 x -> code 0 fin shs w2 (k x) a -> code 0 fin (sh :: shs) (w1 ;;; w2) (let! y := r1 in k y) a.
Proof. intros H1 H2. by apply (code_bind 0 0 fin [sh] shs w1 w2 r1 k x a). Qed.
Lemma code_unless {A B} fin sh shs w1 w2 (r1 : DM (A * bool)) (early : A -> B) k x a :
  slot sh w1 r1 (x, true) -> code 0 fin shs w2 (k x) a ->
  code 0 fin (sh :: shs) (w1 ;;; w2) (unless_return r1 early k) a.
Proof.
  intros H1 H2. apply (code_seq fin sh shs w1 w2 r1 (fun r => if r.2 then k r.1 else ret (early r.1)) (x, true) a H1 H2).
Qed.

Lemma enc_finish e s st :
  Encoder.stateStack e = s :: st -> (checkElements s = true -> elementsProcessed s = elements s) ->
  Encoder.Finish e = (Encoder.set_stack st e, Ok tt).
Proof.
  intros Hst Hc. unfold Encoder.Finish, Encoder.state, Encoder.popState, modify. rewrite Hst. simpl.
  destruct (checkElements s); [|done]. rewrite Hc by done. by rewrite Z.eqb_refl.
Qed.
Lemma dec_finish d s st :
  Decoder.stateStack d = s :: st -> (checkElements s = true -> elementsProcessed s = elements s) ->
  Decoder.Finish d = (Decoder.set_stack st d, Ok tt).
Proof.
  intros Hst Hc. unfold Decoder.Finish, Decoder.state, Decoder.popState, modify. rewrite Hst. simpl.
  destruct (checkElements s); [|done]. rewrite Hc by done. by rewrite Z.eqb_refl.
Qed.
Lemma rest_done {A} w (r : DM A) a :
  (forall e, w e = Encoder.Finish e \/ w e = ignore Encoder.Finish e) ->
  (forall d d', Decoder.Finish d = (d', Ok tt) -> r d = (d', Ok a)) -> rest [] w r a.
Proof.
  intros Hw Hr e s st Hinv Hst _ Hcomp. pose proof (enc_finish e s st Hst (Hcomp eq_refl)) as Hfin.
  destruct (winv_top _ _ _ Hinv Hst) as (?&?&_&?&_).
  exists (Encoder.set_stack st e). split_and!.
  - destruct (Hw e) as [->| ->]; [done|]. unfold ignore. by rewrite Hfin.
  - done.
  - split; [by eapply winv_pop|simpl; lia|done|done|done].
  - simpl. lia.
  - intros d l dst Hd _ Hnear _ _ _. exists (Decoder.end_ d). split; [|unfold near in Hnear; simpl; lia].
    rewrite (Hr d (Decoder.set_stack dst d)); [by destruct d|]. eapply dec_finish; [exact Hd|]. apply Hcomp. done.
Qed.
Lemma rest_finish {A} (a : A) : rest [] Encoder.Finish (Decoder.Finish ;;; ret a) a.
Proof. apply rest_done; [by left|]. intros d d' H. by rewrite (bind_run_ok _ _ _ _ _ H). Qed.
Lemma finishes_run d d' : Decoder.Finish d = (d', Ok tt) -> finishes d = (d', Ok true).
Proof. intros H. unfold finishes. by rewrite H. Qed.
Lemma rest_finishes {A} (k : bool -> DM A) a :
  (forall d, k true d = (d, Ok a)) -> rest [] Encoder.Finish (let! ok := finishes in k ok) a.
Proof.
  intros Hk. apply rest_done; [by left|]. intros d d' H.
  by rewrite (bind_run_ok _ _ _ _ _ (finishes_run _ _ H)).
Qed.

(** The elements of an array. *)
Lemma code_each {A B} sh (w : A -> EM unit) (r : DM B) (f : A -> B) l :
  Forall (fun a => slot sh (w a) r (f a)) l ->
  code 0 false (replicate (length l) sh) (write_each w l) (read_each r (length l)) (map f l).
Proof.
  induction 1 as [|a l Ha Hl IH]; cbn [length replicate write_each read_each map].
  - intros e s st Hw Hst _ _. exists e. split_and!; [done|done| |lia|].
    + split; [done|lia|done|done|done].
    + intros d lm dst Hd _ Hn _ _ _. exists (Decoder.end_ d). split; [|unfold near in Hn; lia].
      cbn [after advances foldl]. rewrite <- Hd. by destruct d.
  - apply (code_seq false sh _ _ _ r _ (f a)); [done|].
    exact (code_map 0 false _ _ _ (fun l => f a :: l) _ IH).
Qed.
