(* ===== verification/CodecObjects.v ===== *)
(** * Blocks and their readers

    The rules of the judgements of CodecSlots for structs, arrays, strings, maps
    and unions.  Whether the fields of a struct have room is computed from their
    shapes ([room]); functions with fuel have enough of it in the length of the
    buffer, because every level of the recursion has written at least a byte. *)
From Stdlib Require Import Ascii String Sorting.
From S2P Require Export FidlWellFormed CodecSlots.
From S2P Require Import FidlEncode FidlDecode.
From S2P Require Import Wire.
From S2P Require Encoder Decoder.

#[local] Abbreviation EM A := (M Encoder.Encoder error A).
#[local] Abbreviation DM A := (M Decoder.Decoder error A).
#[local] Abbreviation ensured n s := (ensureElementBitSizeAndCapacity (Some s) n = Ok tt).

(** ** Room *)
Lemma lor_shift_16 x d m : (16 | d) -> 0 <= m < 16 -> Z.lor (x + d) m = Z.lor x m + d.
Proof.
  intros [q ->] Hm. assert (m = Z.land m (Z.ones 4)) as Hmm.
  { rewrite Z.land_ones by lia. symmetry. apply Z.mod_small. lia. }
  pose proof (Z.add_lor_land (x + q * 16) m). pose proof (Z.add_lor_land x m).
  assert (Z.land (x + q * 16) m = Z.land x m); [|lia].
  rewrite Hmm, (Z.land_comm m), !Z.land_assoc, !Z.land_ones by lia.
  change (2 ^ 4) with 16. by rewrite Z.mod_add by lia.
Qed.
Lemma ensured_move d n s :
  (16 | d) -> 0 <= bitOffset s < 8 -> 0 < n <= 64 -> ensured n s -> ensured n (Roundtrip.shift d s).
Proof.
  intros Hd Hb Hn. simpl. destruct (checkElements s && _); [done|]. rewrite u32_small, bytesForBits_small by lia.
  set (m := (bitOffset s + n + 7) / 8). assert (1 <= m <= 9) as Hm.
  { split; [apply Z.div_le_lower_bound; lia|]. assert ((bitOffset s + n + 7) / 8 < 10); [|lia]. apply Z.div_lt_upper_bound; lia. }
  unfold align. replace (offset s - d + m - 1) with (offset s + m - 1 + - d) by lia.
  rewrite lor_shift_16 by (by apply Z.divide_opp_r || lia).
  destruct (Z.ltb_spec (limit s) (Z.lor (offset s + m - 1) (m - 1) + 1)); [done|].
  intros _. destruct (Z.ltb_spec (limit s - d) (Z.lor (offset s + m - 1) (m - 1) + - d + 1)); [lia|done].
Qed.
Lemma ensured_more l n s : limit s <= l -> ensured n s -> ensured n (set_limit l s).
Proof.
  intros Hl. simpl. destruct (checkElements s && _); [done|].
  destruct (Z.ltb_spec (limit s) (align (offset s + bytesForBits (u32 (bitOffset s + n)))
    (bytesForBits (u32 (bitOffset s + n))))); [done|]. by rewrite (proj2 (Z.ltb_ge _ _)) by lia.
Qed.
Lemma shift_at_byte d k m s :
  0 <= k <= 3 -> (8 | d) ->
  at_byte (Roundtrip.shift d s) (align (byte_of (Roundtrip.shift d s)) (2 ^ k) + m) (elementsProcessed s) =
  Roundtrip.shift d (at_byte s (align (byte_of s) (2 ^ k) + m) (elementsProcessed s)).
Proof.
  intros Hk Hd.
  assert (byte_of (Roundtrip.shift d s) = byte_of s - d) as -> by (unfold byte_of; simpl; case_match; lia).
  unfold at_byte, Roundtrip.shift. simpl. f_equal. rewrite <- Z.add_opp_r, align_shift; [lia|lia|]. apply Z.divide_opp_r.
  eapply Z.divide_trans; [|exact Hd]. exists (2 ^ (3 - k)). rewrite <- Z.pow_add_r by lia. by replace (3 - k + k) with 3 by lia.
Qed.
Lemma header_next_shift d s : (8 | d) -> header_next (Roundtrip.shift d s) = Roundtrip.shift d (header_next s).
Proof. apply (shift_at_byte d 3 8 s). lia. Qed.
Lemma advance_shift d sh s :
  (8 | d) -> 0 <= bitOffset s < 8 -> fits sh s -> advance sh (Roundtrip.shift d s) = Roundtrip.shift d (advance sh s).
Proof.
  intros Hd Hb Hf. destruct sh as [|k| |]; cbn [advance fits] in *.
  - by apply shift_bit_next.
  - destruct Hf as [Hk _]. pose proof (shift_at_byte d k (2 ^ k) s Hk Hd) as H. injection H as H. unfold at_byte, Roundtrip.shift in *. cbn [offset bitOffset limit elements elementsProcessed checkElements] in *. by rewrite H.
  - pose proof (shift_at_byte d 3 16 s ltac:(lia) Hd) as H. injection H as H. unfold at_byte, Roundtrip.shift in *. cbn [offset bitOffset limit elements elementsProcessed checkElements] in *. change (2 ^ 3) with 8 in H. by rewrite H.
  - pose proof (shift_at_byte d 3 9 s ltac:(lia) Hd) as H. injection H as H. unfold at_byte, Roundtrip.shift in *. cbn [offset bitOffset limit elements elementsProcessed checkElements] in *. change (2 ^ 3) with 8 in H. by rewrite H.
Qed.
Lemma pow2_le_8 k : 0 <= k <= 3 -> 1 <= 2 ^ k <= 8.
Proof. intros Hk. split; [pose proof (Z.pow_pos_nonneg 2 k); lia|apply (Z.pow_le_mono_r 2 k 3); lia]. Qed.
Lemma fits_move d sh s : (16 | d) -> 0 <= bitOffset s < 8 -> fits sh s -> fits sh (Roundtrip.shift d s).
Proof.
  intros Hd Hb Hf. assert ((8 | d)) as Hd8 by (eapply Z.divide_trans; [|exact Hd]; by exists 2).
  destruct sh as [|k| |]; cbn [fits] in *.
  - by apply ensured_move.
  - destruct Hf as [Hk Hf]. pose proof (pow2_le_8 k Hk). split; [done|]. apply ensured_move; [done|done|lia|done].
  - destruct Hf as [H1 H2]. rewrite header_next_shift by done. split; (apply ensured_move; [done|simpl; lia|lia|done]).
  - destruct Hf as [H1 H2]. rewrite header_next_shift by done. split; (apply ensured_move; [done|simpl; lia|lia|done]).
Qed.
Lemma fits_more l sh s : limit s <= l -> fits sh s -> fits sh (set_limit l s).
Proof.
  intros Hl. destruct sh as [|k| |]; cbn [fits]; rewrite ?header_next_limit;
    [|intros [? ?]..]; try split; try (by apply ensured_more); done.
Qed.
Lemma bit_advance sh s : 0 <= bitOffset s < 8 -> 0 <= bitOffset (advance sh s) < 8.
Proof.
  intros Hb. destruct sh; cbn [advance at_byte bitOffset]; [|lia..]. destruct (bit_next_cursor s Hb) as [(?&?&?)|(?&?&?)]; lia.
Qed.
Lemma all_fit_move d shs s : (16 | d) -> 0 <= bitOffset s < 8 -> all_fit shs s -> all_fit shs (Roundtrip.shift d s).
Proof.
  intros Hd. revert s. induction shs as [|sh shs IH]; intros s Hb; [done|]. intros [Hf Hfs].
  split; [by apply fits_move|]. rewrite advance_shift; [|eapply Z.divide_trans; [|exact Hd]; by exists 2|done|done].
  apply IH; [by apply bit_advance|done].
Qed.
Lemma all_fit_more l shs s : limit s <= l -> all_fit shs s -> all_fit shs (set_limit l s).
Proof.
  revert s. induction shs as [|sh shs IH]; intros s Hl; [done|]. intros [Hf Hfs].
  split; [by apply fits_more|]. rewrite advance_limit. apply IH; [|done]. by rewrite limit_advance.
Qed.

Definition ensuredb (n : Z) (s : encodingState) : bool :=
  match ensureElementBitSizeAndCapacity (Some s) n with Ok _ => true | _ => false end.
Definition fitsb (sh : shape) (s : encodingState) : bool :=
  match sh with
  | SBit => ensuredb 1 s
  | SWord k => (0 <=? k) && (k <=? 3) && ensuredb (8 * 2 ^ k) s
  | SUnion | SUnionBit => ensuredb 64 s && ensuredb 64 (header_next s)
  end.
Fixpoint all_fitb (shs : list shape) (s : encodingState) : bool :=
  match shs with
  | [] => true
  | sh :: shs => fitsb sh s && all_fitb shs (advance sh s)
  end.
Lemma ensuredb_spec n s : ensuredb n s = true -> ensured n s.
Proof. unfold ensuredb. destruct (ensureElementBitSizeAndCapacity (Some s) n) as [[]|x|]; done. Qed.
Lemma all_fitb_spec shs s : all_fitb shs s = true -> all_fit shs s.
Proof.
  revert s. induction shs as [|sh shs IH]; intros s; [done|]. cbn [all_fitb].
  intros [Hf Hfs]%andb_prop. split; [|by apply IH].
  destruct sh as [|k| |]; cbn [fitsb fits] in *; [by apply ensuredb_spec|..].
  - apply andb_prop in Hf as [[?%Z.leb_le ?%Z.leb_le]%andb_prop Hf]. split; [lia|by apply ensuredb_spec].
  - apply andb_prop in Hf as [? ?]. by split; apply ensuredb_spec.
  - apply andb_prop in Hf as [? ?]. by split; apply ensuredb_spec.
Qed.
(** The shapes fit in a block of [size] bytes, wherever it is. *)
Definition room (size : Z) (shs : list shape) : bool :=
  all_fitb shs (mkState 0 0 size 0 0 false) && all_fitb shs (mkState 8 0 (8 + size) 0 0 false).
Lemma room_fits size shs o l :
  room size shs = true -> (8 | o) -> o + size <= l -> all_fit shs (mkState o 0 l 0 0 false).
Proof.
  intros [H0%all_fitb_spec H8%all_fitb_spec]%andb_prop [q ->] Hl.
  assert (all_fit shs (mkState (q * 8) 0 (q * 8 + size) 0 0 false)) as H.
  { destruct (Z.Even_or_Odd q) as [[p ->]|[p ->]].
    - replace (mkState _ 0 _ 0 0 false) with (Roundtrip.shift (- (16 * p)) (mkState 0 0 size 0 0 false))
        by (unfold Roundtrip.shift; simpl; f_equal; lia).
      apply all_fit_move; [exists (- p); lia|simpl; lia|done].
    - replace (mkState _ 0 _ 0 0 false) with (Roundtrip.shift (- (16 * p)) (mkState 8 0 (8 + size) 0 0 false))
        by (unfold Roundtrip.shift; simpl; f_equal; lia).
      apply all_fit_move; [exists (- p); lia|simpl; lia|done]. }
  apply (all_fit_more l) in H; [exact H|simpl; lia].
Qed.
(** ** Objects *)
Lemma claimData_run n d :
  Decoder.end_ d + n <= len (Decoder.buf d) -> Decoder.claimData n d = (Decoder.set_end (Decoder.end_ d + n) d, Ok tt).
Proof. intros H. unfold Decoder.claimData. by rewrite (proj2 (Z.ltb_ge _ _)). Qed.
Lemma dec_pushState_run h (c : bool) d :
  8 <= Size h < 2 ^ 32 -> Decoder.end_ d + (Size h - 8) <= len (Decoder.buf d) ->
  Decoder.pushState h c d =
  (Decoder.set_end (Decoder.end_ d + (Size h - 8)) (Decoder.set_stack
     (mkState (Decoder.end_ d) 0 (Decoder.end_ d + (Size h - 8)) (if c then ElementsOrVersion h else 0) 0 c ::
        Decoder.stateStack d) d), Ok tt).
Proof.
  intros Hs Hl. unfold Decoder.pushState, dataHeaderSize. rewrite u32_small by lia.
  erewrite bind_run_ok by done. by rewrite (bind_run_ok _ _ _ _ _ (claimData_run _ _ Hl)).
Qed.
Lemma readDataHeader_run h d :
  Decoder.end_ d + 8 <= len (Decoder.buf d) ->
  GetUint 4 (Decoder.buf d) (Decoder.end_ d) = Some (Size h) ->
  GetUint 4 (Decoder.buf d) (Decoder.end_ d + 4) = Some (ElementsOrVersion h) ->
  Decoder.readDataHeader d = (Decoder.set_end (Decoder.end_ d + 8) d, Ok h).
Proof.
  intros Hl H1 H2. unfold Decoder.readDataHeader, dataHeaderSize.
  rewrite (bind_run_ok _ _ _ _ _ (claimData_run 8 d Hl)). erewrite bind_run_ok by done. cbv zeta.
  cbn [Decoder.end_ Decoder.set_end]. replace (Decoder.end_ d + 8 - 8) with (Decoder.end_ d) by lia.
  erewrite bind_run_ok by (by apply get_uint_run).
  erewrite bind_run_ok by (by apply get_uint_run). by destruct h.
Qed.

(** A block that begins with a header. *)
Lemma object_start {A} g h (c : bool) shs (w : EM unit) (rd r : DM A) a :
  0 <= g -> 8 <= Size h < 2 ^ 32 -> 0 <= ElementsOrVersion h < 2 ^ 32 ->
  (forall o l, (8 | o) -> o + (Size h - 8) <= l ->
    let s := mkState o 0 l (if c then ElementsOrVersion h else 0) 0 c in all_fit shs s /\ complete true shs s) ->
  (forall e, exists w' : EM unit, w e = w' e /\ code g true shs w' r a) ->
  (forall d d', Decoder.readDataHeader d = (d', Ok h) -> rd d = (Decoder.pushState h c ;;; r) d') ->
  object (8 + g) (Encoder.start h c ;;; w) rd a.
Proof.
  intros Hg Hs Hv Hfit Hcode Hrd e Hw.
  destruct (start_wrote h c e Hw Hs Hv) as (e1 & Hrun1 & Hwr1 & Hend1 & Hst1 & Hg1 & Hg2).
  destruct (Hcode e1) as (w' & Hw' & Hc). pose proof (wr_inv _ _ _ _ Hwr1) as Hw1.
  pose proof (w_inv _ Hw) as (Hen&Hdv&_). pose proof (align_bounds 3 (Size h) ltac:(lia)) as [Hal _].
  change (2 ^ 3) with 8 in Hal.
  destruct (Hfit (Encoder.end_ e + 8) (Encoder.end_ e1)) as [Hf Hcomp];
    [by apply Z.divide_add_r; [|exists 1]|lia|].
  destruct (Hc e1 _ _ Hw1 Hst1 Hf Hcomp) as (e' & Hrun & Hst & Hwr & Hend & Hread').
  pose proof (reach_bounds _ _ _ true _ Hw1 Hst1 Hf) as (_&_&?). cbn [reach limit] in *.
  exists e'. split; [rewrite (bind_run_ok _ _ _ _ _ Hrun1); by rewrite Hw'|]. split; [done|].
  split; [eapply wrote_trans; [exact Hwr1|exact Hwr|]; unfold pos; simpl; lia|].
  split; [lia|]. split; [lia|]. intros d Hd Hread Hsee. pose proof (proj2 Hread).
  assert (forall n off v, Encoder.end_ e <= off -> off + Z.of_nat n <= Encoder.end_ e + 8 ->
    GetUint n (Encoder.buf e1) off = Some v -> GetUint n (Decoder.buf d) off = Some v) as Hword.
  { intros n off v Ho Hn. apply sees_word; [apply Hw1| |lia|].
    - eapply readable_le; [exact Hread|lia].
    - eapply sees_before; [exact Hwr| |lia|lia|unfold pos; simpl; lia].
      eapply sees_sub; [exact Hsee|lia|lia]. }
  rewrite (Hrd d (Decoder.set_end (Decoder.end_ d + 8) d)).
  2:{ apply readDataHeader_run; [lia|rewrite Hd; apply Hword; (lia || done)..]. }
  erewrite bind_run_ok by (apply dec_pushState_run; [lia|simpl; lia]).
  cbn [Decoder.end_ Decoder.set_end Decoder.set_stack Decoder.stateStack].
  destruct (Hfit (Encoder.end_ e + 8) (Encoder.end_ e + 8 + (Size h - 8))) as [Hfd _];
    [by apply Z.divide_add_r; [|exists 1]|lia|].
  match goal with |- exists n, r ?d1 = _ /\ _ =>
    destruct (Hread' d1 (Encoder.end_ e + 8 + (Size h - 8)) (Decoder.stateStack d)) as (n & Hn & Hn') end.
  - simpl. rewrite Hd. done.
  - exact Hfd.
  - unfold near. simpl. lia.
  - exact Hread.
  - eapply sees_sub; [exact Hsee|unfold pos; simpl; lia|lia].
  - eapply sees_sub; [exact Hsee|lia|lia].
  - exists n. split; [|done]. rewrite Hn. by destruct d.
Qed.
Lemma object_weaken {A} g g' w (r : DM A) a : g' <= g -> object g w r a -> object g' w r a.
Proof.
  intros Hg H e He. destruct (H e He) as (e' & Hrun & Hst' & Hwr & Hend & Hg' & Hrd).
  exists e'. split_and!; [done..|lia|done].
Qed.

Lemma object_struct_by {A} g size shs w (r : DM A) a :
  0 <= g -> 0 <= size < 2 ^ 32 - 8 -> room size shs = true -> code g true shs w r a ->
  object (8 + g) (Encoder.StartStruct size 0 ;;; w) (start_versioned [mkDataHeader (8 + size) 0] ;;; r) a.
Proof.
  intros Hg Hs Hroom Hc. unfold Encoder.StartStruct, dataHeaderSize. rewrite u32_small by lia.
  apply (object_start g (mkDataHeader (8 + size) 0) false shs w _ r a); simpl Size; [done|lia|simpl; lia|..].
  - intros o l Ho Hl. split; [|done]. eapply room_fits; [exact Hroom|done|simpl in Hl; lia].
  - intros e. by exists w.
  - intros d d' Hd. set (h := mkDataHeader (8 + size) 0) in *.
    assert (Decoder.StartStruct d = (Decoder.pushState h false ;;; ret h) d') as Hstart.
    { unfold Decoder.StartStruct. rewrite (bind_run_ok _ _ _ _ _ Hd). unfold h, dataHeaderSize. cbn [Size].
      by rewrite (proj2 (Z.ltb_ge _ _)) by lia. }
    unfold start_versioned, bind in *. rewrite Hstart. destruct (Decoder.pushState h false d') as [d1 [[]|x|]]; [|done..].
    unfold ret.
    assert (check_version [h] h d1 = (d1, Ok tt)) as ->; [|done].
    unfold check_version. simpl. unfold bind, must. simpl. by rewrite Z.eqb_refl.
Qed.
Lemma object_struct {A} size shs w (r : DM A) a :
  0 <= size < 2 ^ 32 - 8 -> room size shs = true -> rest shs w r a ->
  object 0 (Encoder.StartStruct size 0 ;;; w) (start_versioned [mkDataHeader (8 + size) 0] ;;; r) a.
Proof. intros Hs Hr Hc. apply (object_weaken 8); [lia|]. by apply (object_struct_by 0 size shs). Qed.

(** The width of an element, what it must be a multiple of, and the check of a row
    of elements. *)
Definition width (sh : shape) : Z :=
  match sh with SWord k => 2 ^ k | SUnion => 16 | _ => 0 end.
Definition grain (sh : shape) : Z :=
  match sh with SWord k => 2 ^ k | _ => 8 end.
Definition element (sh : shape) : Prop :=
  match sh with SWord k => 0 <= k <= 3 | SUnion => True | _ => False end.

Lemma align_fix k x : 0 <= k -> (2 ^ k | x) -> align x (2 ^ k) = x.
Proof.
  intros Hk Hd. pose proof (align_bounds k x Hk). pose proof (align_least k x x Hk ltac:(lia) Hd). lia.
Qed.
Lemma ensured_here k s :
  0 <= k <= 3 -> bitOffset s = 0 -> (2 ^ k | offset s) -> offset s + 2 ^ k <= limit s ->
  (checkElements s = true -> elementsProcessed s < elements s) -> ensured (8 * 2 ^ k) s.
Proof.
  intros Hk Hb Hd Hl Hc. pose proof (pow2_le_8 k Hk). simpl.
  rewrite Hb, u32_small, bytesForBits_small by lia.
  replace ((0 + 8 * 2 ^ k + 7) / 8) with (2 ^ k) by (apply (Z.div_unique_pos _ _ _ 7); lia).
  rewrite align_fix by (lia || by apply Z.divide_add_r). rewrite (proj2 (Z.ltb_ge _ _)) by done.
  destruct (checkElements s); [|done]. simpl. by rewrite (proj2 (Z.leb_gt _ _)) by (by apply Hc).
Qed.
Lemma row_step sh s :
  element sh -> bitOffset s = 0 -> (grain sh | offset s) -> offset s + width sh <= limit s ->
  (checkElements s = true -> elementsProcessed s < elements s) ->
  fits sh s /\ advance sh s = at_byte s (offset s + width sh) (u32 (elementsProcessed s + 1)) /\ (grain sh | width sh).
Proof.
  intros He Hb Hd Hl Hc. assert (byte_of s = offset s) as Hby by (unfold byte_of; by rewrite Hb).
  destruct sh as [|k| |]; simpl in *; try done.
  - split; [split; [done|by apply ensured_here]|]. split; [|done]. by rewrite Hby, align_fix by (lia || done).
  - pose proof (align_fix 3 (offset s) ltac:(lia) Hd) as Hal. change (2 ^ 3) with 8 in Hal.
    unfold header_next. rewrite Hby, Hal. split; [split|].
    + apply (ensured_here 3); (done || lia).
    + apply (ensured_here 3 (at_byte s (offset s + 8) (elementsProcessed s)));
        cbn [at_byte bitOffset offset limit elementsProcessed checkElements elements];
        [lia|done|by apply Z.divide_add_r; [|exists 1]|lia|done].
    + split; [done|by exists 2].
Qed.
Lemma row_fits sh n s :
  element sh -> bitOffset s = 0 -> (grain sh | offset s) -> offset s + Z.of_nat n * width sh <= limit s ->
  0 <= elementsProcessed s -> (checkElements s = true -> elementsProcessed s + Z.of_nat n <= elements s < 2 ^ 32) ->
  all_fit (replicate n sh) s /\
  (checkElements s = true -> elementsProcessed (advances (replicate n sh) s) = elementsProcessed s + Z.of_nat n).
Proof.
  intros He. revert s. induction n as [|n IH]; intros s Hb Hd Hl Hp Hc; [simpl; lia|].
  assert (0 <= width sh) by (destruct sh; simpl in *; lia || (pose proof (pow2_le_8 k He); lia)).
  destruct (row_step sh s He Hb Hd) as (Hf & Hadv & Hdw); [nia|intros; specialize (Hc H0); lia|].
  change (advances (replicate (S n) sh) s) with (advances (replicate n sh) (advance sh s)). rewrite Hadv.
  destruct (IH (at_byte s (offset s + width sh) (u32 (elementsProcessed s + 1)))) as [Hfs Hps]; cbn [at_byte bitOffset offset limit elementsProcessed checkElements elements];
    [done|by apply Z.divide_add_r|lia|apply u32_range| |].
  { intros Hch. specialize (Hc Hch). rewrite u32_small by lia. lia. }
  split; [split; [done|by rewrite Hadv]|]. intros Hch. specialize (Hc Hch).
  rewrite Hps by done. cbn [at_byte elementsProcessed]. rewrite u32_small by lia. lia.
Qed.
(** ** Arrays and strings *)
Lemma object_array {A} sh n w (k : Z -> DM A) a :
  element sh -> 8 + Z.of_nat n * width sh < 2 ^ 32 -> rest (replicate n sh) w (k (Z.of_nat n)) a ->
  object 0 (Encoder.StartArray (u32 (Z.of_nat n)) (8 * width sh) ;;; w)
    (let! length := Decoder.StartArray (8 * width sh) in k length) a.
Proof.
  intros He Hn Hc.
  assert (1 <= width sh) by (destruct sh as [|j| |]; simpl in *; (lia || pose proof (pow2_le_8 j He); lia)).
  assert (Z.of_nat n < 2 ^ 32 - 8) by nia. rewrite u32_small by lia.
  assert (bytesForBits (u64 (Z.of_nat n * (8 * width sh))) = Z.of_nat n * width sh) as Hbytes.
  { rewrite u64_small, bytesForBits_small by nia. symmetry. apply (Z.div_unique_pos _ _ _ 7); lia. }
  unfold Encoder.StartArray. rewrite Hbytes. unfold dataHeaderSize. rewrite u32_small by nia.
  apply (object_weaken 8); [lia|].
  apply (object_start 0 (mkDataHeader (8 + Z.of_nat n * width sh) (Z.of_nat n)) true (replicate n sh) w _ (k (Z.of_nat n)) a);
    cbn [Size ElementsOrVersion]; [done|nia|lia|..].
  - intros o l Ho Hl. set (s := mkState o 0 l (Z.of_nat n) 0 true).
    assert ((grain sh | o)) as Hd.
    { eapply Z.divide_trans; [|exact Ho]. destruct sh as [|j| |]; simpl in *; try done. exists (2 ^ (3 - j)).
      rewrite <- Z.pow_add_r by lia. by replace (3 - j + j) with 3 by lia. }
    destruct (row_fits sh n s) as [Hf Hp]; simpl; [done|done|done|lia|lia|lia|].
    split; [done|]. intros _ Hch. rewrite (Hp Hch). done.
  - intros e. by exists w.
  - intros d d' Hd. unfold Decoder.StartArray. unfold bind at 1. rewrite (bind_run_ok _ _ _ _ _ Hd).
    cbn [Size ElementsOrVersion]. rewrite Hbytes. unfold dataHeaderSize. rewrite (proj2 (Z.ltb_ge _ _)) by lia.
    unfold bind. by destruct (Decoder.pushState _ _ d') as [d1 [[]|x|]].
Qed.

Lemma object_write_array {A B} sh bits (w : A -> EM unit) (r : DM B) (f : A -> B) l :
  element sh -> bits = 8 * width sh -> 8 + len l * width sh < 2 ^ 32 ->
  Forall (fun a => slot sh (w a) r (f a)) l -> object 0 (write_array bits w l) (read_array bits r) (map f l, true).
Proof.
  intros He -> Hn Hl. apply (object_array sh (length l)); [done..|]. rewrite Nat2Z.id.
  rewrite <- (app_nil_r (replicate _ _)).
  apply (code_bind 0 0 true _ [] _ _ _ _ (map f l)); [done|done|by apply code_each|].
  by apply rest_finishes.
Qed.
Lemma object_pointers {A} (w : A -> EM unit) r l :
  8 + 8 * len l < 2 ^ 32 -> Forall (fun a => object 0 (w a) r a) l ->
  object 0 (write_pointers w l) (read_pointers r) (l, true).
Proof.
  intros Hn Hl. rewrite <- (map_id l) at 2. unfold write_pointers, read_pointers.
  apply (object_write_array (SWord 3) 64 (write_pointer w) (read_pointer r) (fun a => a) l);
    [cbn; lia|done|change (width (SWord 3)) with 8; lia|].
  eapply Forall_impl; [exact Hl|]. intros a Ha. by apply slot_pointer.
Qed.

Lemma string_bytes_back s : bytes_string (string_bytes s) = s.
Proof.
  unfold bytes_string, string_bytes. rewrite map_map.
  transitivity (string_of_list_ascii (list_ascii_of_string s)); [|apply string_of_list_ascii_of_string].
  f_equal. induction (list_ascii_of_string s) as [|c l IH]; simpl; [done|]. rewrite IH. f_equal.
  by rewrite N2Z.id, ascii_N_embedding.
Qed.
Lemma string_bytes_range s : Forall (fun b => 0 <= b < 2 ^ 8) (string_bytes s).
Proof.
  unfold string_bytes.   apply Forall_map, Forall_forall. intros c _. pose proof (N_ascii_bounded c). simpl. lia.
Qed.
Lemma write_bytes_each bs : Encoder.write_bytes bs = write_each Encoder.WriteUint8 bs.
Proof. induction bs as [|b bs IH]; simpl; [done|]. by rewrite IH. Qed.
Lemma read_bytes_each n : Decoder.read_bytes n = read_each Decoder.ReadUint8 n.
Proof. induction n as [|n IH]; simpl; [done|]. by rewrite IH. Qed.
Lemma object_string s : string_ok s -> object 0 (write_string s) read_string s.
Proof.
  intros Hs. rewrite <- (string_bytes_back s) at 2. apply (object_map 0 _ _ bytes_string).
  apply (object_array (SWord 0) (length (string_bytes s)) _
    (fun length => let! bytes := Decoder.read_bytes (Z.to_nat length) in Decoder.Finish ;;; ret bytes));
    [cbn; lia|unfold string_ok in Hs; change (width (SWord 0)) with 1; lia|].
  rewrite Nat2Z.id, write_bytes_each, read_bytes_each, <- (app_nil_r (replicate _ _)).
  apply (code_bind 0 0 true _ [] _ _ _ _ (string_bytes s)); [done|done| |apply rest_finish].
  rewrite <- (map_id (string_bytes s)) at 4. apply code_each. eapply Forall_impl; [apply string_bytes_range|].
  intros b Hb. by apply slot_inline, inline_uint8.
Qed.
Lemma object_strings l :
  8 + 8 * len l < 2 ^ 32 -> Forall string_ok l -> object 0 (write_strings l) read_strings (l, true).
Proof. intros Hn Hl. apply object_pointers; [done|]. eapply Forall_impl; [exact Hl|]. apply object_string. Qed.
(** ** Unions *)
Definition union_shape (sh : shape) : shape := match sh with SBit => SUnionBit | _ => SUnion end.
Definition value_shape (sh : shape) : Prop :=
  match sh with SBit => True | SWord k => 0 <= k <= 3 | _ => False end.
Definition finish_union (s : encodingState) : encodingState := alignOffsetToBytes (alignOffset 8 s).

Lemma header_divide s : (8 | align (byte_of s) 8).
Proof. pose proof (align_bounds 3 (byte_of s) ltac:(lia)) as [_ H]. exact H. Qed.
Lemma finish_union_value sh s :
  value_shape sh -> finish_union (advance sh (header_next s)) = advance (union_shape sh) s.
Proof.
  intros Hsh. pose proof (header_divide s) as Hd. assert ((8 | align (byte_of s) 8 + 8)) as Hd8 by (by apply Z.divide_add_r; [|exists 1]).
  assert (forall x, align (x + (align (byte_of s) 8 + 8)) 8 = align x 8 + (align (byte_of s) 8 + 8)) as Hal.
  { intros x. by apply (align_shift 3). }
  destruct sh as [|k| |]; try done; cbn [union_shape advance].
  - unfold bit_next. rewrite skipBits_1 by (simpl; lia). simpl.
    unfold finish_union, alignOffset, alignOffsetToBytes, at_byte. simpl.
    pose proof (Hal 0) as H0. rewrite Z.add_0_l in H0. unfold set_processed, set_offset. simpl. rewrite H0.
    change (align 0 8) with 0. f_equal. lia.
  - simpl in Hsh. assert (byte_of (header_next s) = align (byte_of s) 8 + 8) as Hb by done. rewrite Hb.
    assert ((2 ^ k | align (byte_of s) 8 + 8)) as Hk.
    { eapply Z.divide_trans; [|exact Hd8]. exists (2 ^ (3 - k)). rewrite <- Z.pow_add_r by lia. by replace (3 - k + k) with 3 by lia. }
    rewrite align_fix by (lia || done). unfold finish_union, alignOffset, alignOffsetToBytes, at_byte, set_offset. simpl.
    f_equal. rewrite (Z.add_comm _ (2 ^ k)), Hal.
    assert (align (2 ^ k) 8 = 8); [|lia].
    assert (k = 0 \/ k = 1 \/ k = 2 \/ k = 3) as [->|[->|[->| ->]]] by lia; reflexivity.
Qed.
Lemma fits_union_value sh s :
  value_shape sh -> cursor_ok s -> fits (union_shape sh) s -> ensured 64 s /\ ensured 64 (header_next s) /\ fits sh (header_next s).
Proof.
  intros Hsh Hc Hf. assert (ensured 64 s /\ ensured 64 (header_next s)) as [H1 H2] by (by destruct sh).
  split; [done|]. split; [done|]. pose proof (header_divide s) as Hd. pose proof (byte_of_bounds s Hc). destruct Hc as [Ho _].
  pose proof (align_bounds 3 (byte_of s) ltac:(lia)). change (2 ^ 3) with 8 in *.
  destruct sh as [|k| |]; try done; cbn [fits].
  - apply ensure_inv in H2 as (s0&[= <-]&Hch&Hfit). revert Hfit. cbn [header_next at_byte bitOffset offset limit].
    change (bytesForBits (u32 (0 + 64))) with 8. intros Hfit.
    pose proof (align_bounds 3 (align (byte_of s) 8 + 8 + 8) ltac:(lia)). change (2 ^ 3) with 8 in *. simpl.
    change (bytesForBits (u32 (0 + 1))) with 1. rewrite align_1, (proj2 (Z.ltb_ge _ _)) by lia.
    simpl in Hch. destruct (checkElements s); [|done]. simpl. by rewrite (proj2 (Z.leb_gt _ _)) by (by apply Hch).
  - split; [done|]. apply ensured_smaller; [done|done| |simpl; lia|done]. simpl. by apply Z.divide_add_r; [|exists 1].
Qed.

(** The header: two words of four bytes. *)
Definition header_wrote (size tag : Z) (e e' : Encoder.Encoder) (s : encodingState) (st : list encodingState) : Prop :=
  Encoder.stateStack e' = header_next s :: st /\ wrote (pos s) (pos (header_next s)) e e' /\
  Encoder.end_ e' = Encoder.end_ e /\
  GetUint 4 (Encoder.buf e') (align (byte_of s) 8) = Some size /\
  GetUint 4 (Encoder.buf e') (align (byte_of s) 8 + 4) = Some tag.
Lemma header_moves s :
  cursor_ok s -> (8 | limit s) -> ensured 64 s -> ensured 64 (header_next s) -> 
  cursor_ok (header_next s) /\ pos s <= 8 * align (byte_of s) 8 /\ pos (header_next s) = 8 * align (byte_of s) 8 + 64 /\
  pos (header_next s) <= 8 * limit s /\ offset s <= offset (header_next s) /\ 0 <= align (byte_of s) 8.
Proof.
  intros Hc Hl H1 H2. destruct (union_room s Hc Hl H1 H2) as (?&?&?&Hc'). pose proof (byte_of_bounds s Hc).
  split; [done|]. destruct Hc as [Ho _]. unfold pos in *. simpl. lia.
Qed.
Lemma WriteUnionHeader_wrote tag e s st :
  winv e -> Encoder.stateStack e = s :: st -> ensured 64 s -> ensured 64 (header_next s) -> 0 <= tag < 2 ^ 32 ->
  exists e', Encoder.WriteUnionHeader tag e = (e', Ok tt) /\ header_wrote 16 tag e e' s st.
Proof.
  intros Hw Hst H1 H2 Htag. destruct (winv_top _ _ _ Hw Hst) as (Hc&Hle&Hl&Hps&Hp).
  destruct (header_moves s Hc Hl H1 H2) as (Hc'&?&?&?&?&?). pose proof (w_inv _ Hw) as (Hen&_).
  set (o := align (byte_of s) 8) in *.
  destruct (PutUint_Some 4 (Encoder.buf e) o 16) as [b1 Hb1]; [lia..|]. pose proof (length_PutUint _ _ _ _ _ Hb1).
  destruct (PutUint_Some 4 b1 (o + 4) tag) as [b Hb]; [lia..|]. pose proof (length_PutUint _ _ _ _ _ Hb).
  assert (Forall is_byte b) as Hbb by (eapply PutUint_bytes; [eapply PutUint_bytes; [apply Hw|exact Hb1]|exact Hb]).
  exists (Encoder.mkEncoder b (Encoder.end_ e) (Encoder.handles e) (header_next s :: st) (Encoder.deterministic e)). split.
  - unfold Encoder.WriteUnionHeader.
    rewrite (bind_run_ok _ _ _ _ _ (Encoder.ensure_run _ _ _ _ Hst H1)).
    rewrite (bind_run_ok _ _ _ _ _ (Encoder.with_state_run _ _ _ _ Hst)).
    erewrite bind_run_ok by (by apply Encoder.with_state_run). erewrite bind_run_ok by done.
    assert (alignOffset 8 (alignOffsetToBytes s) = at_byte s o (elementsProcessed s)) as -> by (by apply word_start_at).
    erewrite bind_run_ok by (unfold Encoder.put_uint; simpl; by rewrite Hb1).
    erewrite bind_run_ok by (unfold Encoder.put_uint; simpl; by rewrite Hb).
    erewrite bind_run_ok by (by apply Encoder.with_state_run). 
    by apply (Encoder.ensure_run _ _ (header_next s) st).
  - split; [done|]. split; [|split; [done|split]].
    + apply inline_write; [done|done|lia|done| |done|done|lia|done|done].
      intros p Hp0 Hout. rewrite (PutUint_bits _ _ _ _ _ _ Hb), (PutUint_bits _ _ _ _ _ _ Hb1) by lia. done.
    + pose proof (GetUint_Put _ _ _ _ _ Hb1) as Hg. rewrite <- (Z.mod_small 16 (2 ^ (8 * Z.of_nat 4))), <- Hg by (simpl; lia).
      apply GetUint_agree; [simpl; lia..|]. intros j Hj. apply (PutUint_frame _ _ _ _ _ _ Hb). lia.
    + change (GetUint 4 b (o + 4) = Some tag). rewrite (GetUint_Put _ _ _ _ _ Hb). f_equal. by apply Z.mod_small.
Qed.
Lemma ReadUnionHeader_run size tag d s l dst :
  cursor_ok s -> Decoder.stateStack d = set_limit l s :: dst ->
  ensured 64 (set_limit l s) -> ensured 64 (header_next (set_limit l s)) ->
  GetUint 4 (Decoder.buf d) (align (byte_of s) 8) = Some size ->
  GetUint 4 (Decoder.buf d) (align (byte_of s) 8 + 4) = Some tag ->
  Decoder.ReadUnionHeader d = (Decoder.set_stack (set_limit l (header_next s) :: dst) d, Ok (size, tag)).
Proof.
  intros Hc Hd H1 H2 Hsize Htag. unfold Decoder.ReadUnionHeader.
  rewrite (bind_run_ok _ _ _ _ _ (Decoder.dec_ensure_run _ _ _ _ Hd H1)).
  rewrite (bind_run_ok _ _ _ _ _ (Decoder.dec_with_state_run _ _ _ _ Hd)).
  erewrite bind_run_ok by (by eapply Decoder.dec_with_state_run).
  erewrite bind_run_ok by (by eapply Decoder.dec_get_state_run).
  assert (alignOffset 8 (alignOffsetToBytes (set_limit l s)) =
    set_limit l (at_byte s (align (byte_of s) 8) (elementsProcessed s))) as -> by exact (word_start_at 8 (set_limit l s) Hc).
  erewrite bind_run_ok by (by apply get_uint_run).
  erewrite bind_run_ok by (by apply get_uint_run).
  erewrite bind_run_ok by (by eapply Decoder.dec_with_state_run).
  erewrite bind_run_ok by (eapply Decoder.dec_ensure_run; [done|exact H2]). done.
Qed.
(** The reader of a header sees what was written. *)
Lemma header_read size tag e e' s st d l dst :
  winv e -> Encoder.stateStack e = s :: st -> ensured 64 s -> ensured 64 (header_next s) ->
  header_wrote size tag e e' s st ->
  Decoder.stateStack d = set_limit l s :: dst ->
  ensured 64 (set_limit l s) -> ensured 64 (header_next (set_limit l s)) ->
  readable (Encoder.end_ e) d -> sees (Encoder.buf e') (pos s) (pos (header_next s)) d ->
  Decoder.ReadUnionHeader d = (Decoder.set_stack (set_limit l (header_next s) :: dst) d, Ok (size, tag)).
Proof.
  intros Hw Hst H1 H2 (Hst'&Hwr&Hend&Hsize&Htag) Hd Hd1 Hd2 Hread Hsee.
  destruct (winv_top _ _ _ Hw Hst) as (Hc&Hle&Hl&Hps&Hp).
  destruct (header_moves s Hc Hl H1 H2) as (Hc'&?&?&?&?&?). pose proof (w_bytes _ (wr_inv _ _ _ _ Hwr)).
  apply ReadUnionHeader_run; [done..| |].
  - eapply sees_word; [done|eapply readable_le; [exact Hread|lia]|done| |exact Hsize]. eapply sees_sub; [exact Hsee|lia|lia].
  - eapply sees_word; [done|eapply readable_le; [exact Hread|lia]|lia| |exact Htag]. eapply sees_sub; [exact Hsee|lia|lia].
Qed.
(** Moving on to the next boundary behind the value. *)
Lemma finish_union_run e s0 s sh st :
  winv e -> Encoder.stateStack e = advance sh (header_next s0) :: st -> value_shape sh -> s = advance (union_shape sh) s0 ->
  cursor_ok s -> limit s = limit s0 -> pos (advance sh (header_next s0)) <= pos s <= 8 * limit s0 ->
  offset (advance sh (header_next s0)) <= offset s -> 0 <= elementsProcessed s < 2 ^ 32 ->
  exists e', Encoder.FinishWritingUnionValue e = (e', Ok tt) /\ Encoder.stateStack e' = s :: st /\
    wrote (pos (advance sh (header_next s0))) (pos s) e e' /\ Encoder.end_ e' = Encoder.end_ e /\ Encoder.buf e' = Encoder.buf e.
Proof.
  intros Hw Hst Hsh Hs Hc Hl Hpos Hoff Hp.
  exists (Encoder.mkEncoder (Encoder.buf e) (Encoder.end_ e) (Encoder.handles e) (s :: st) (Encoder.deterministic e)).
  split; [|split; [done|split; [|done]]].
  - unfold Encoder.FinishWritingUnionValue.
    rewrite (bind_run_ok _ _ _ _ _ (Encoder.with_state_run _ _ _ _ Hst)).
    erewrite Encoder.with_state_run by done. rewrite Hs, <- finish_union_value by done. done.
  - assert (limit (advance sh (header_next s0)) = limit s0) as Hl0 by (by rewrite limit_advance).
    apply inline_write; [done|done|done|apply Hw|done|done|by rewrite Hl, Hl0|by rewrite Hl0|done|done].
Qed.

Lemma code_union {A} g sh tag wv (rv : DM A) v (decodeInternal : Z -> option (DM A)) unknown :
  value_shape sh -> 0 <= tag < 2 ^ 32 -> decodeInternal tag = Some rv -> code g false [sh] wv rv v ->
  code g false [union_shape sh] (write_union tag wv) (decode_union decodeInternal unknown) (Some v).
Proof.
  intros Hsh Htag Hdec Hv e s st Hw Hst [Hf _] _.
  destruct (winv_top _ _ _ Hw Hst) as (Hc&Hle&Hl&Hps&Hp).
  destruct (fits_union_value sh s Hsh Hc Hf) as (H1&H2&Hfv).
  destruct (header_moves s Hc Hl H1 H2) as (Hc1&?&?&?&?&?).
  destruct (advance_ok (union_shape sh) s Hc Hl Hp Hf) as (Hc'&Hpos'&Hoff'&Hp').
  destruct (WriteUnionHeader_wrote tag e s st Hw Hst H1 H2 Htag) as (e1 & Hrun1 & Hhead).
  pose proof Hhead as (Hst1&Hwr1&Hend1&_). pose proof (wr_inv _ _ _ _ Hwr1) as Hw1.
  destruct (Hv e1 _ st Hw1 Hst1 (conj Hfv I) ltac:(done)) as (e2 & Hrun2 & Hst2 & Hwr2 & Hend2 & Hrd).
  cbn [after reach advances foldl] in *. pose proof (wr_inv _ _ _ _ Hwr2) as Hw2.
  destruct (advance_ok sh (header_next s) Hc1 Hl Hp Hfv) as (_&Hpos1&_&_).
  assert (pos (advance sh (header_next s)) <= pos (advance (union_shape sh) s) /\
    offset (advance sh (header_next s)) <= offset (advance (union_shape sh) s)) as [Hposf Hofff].
  { rewrite <- finish_union_value by done.
    destruct (winv_top _ _ _ Hw2 Hst2) as ([? ?]&_&_&_&_).
    pose proof (align_bounds 3 (offset (advance sh (header_next s))) ltac:(lia)). change (2 ^ 3) with 8 in *.
    unfold finish_union, alignOffsetToBytes, pos. cbn [alignOffset set_offset bitOffset offset].
    destruct (Z.ltb_spec 0 (bitOffset (advance sh (header_next s)))); simpl; lia. }
  destruct (finish_union_run e2 s _ sh st Hw2 Hst2 Hsh eq_refl Hc') as (e' & Hrun3 & Hst3 & Hwr3 & Hend3 & Hbuf3).
  { by rewrite limit_advance. } { lia. } { done. } { done. }
  exists e'. split; [|split; [done|split; [|split; [lia|]]]].
  - unfold write_union. rewrite (bind_run_ok _ _ _ e1 tt) by (unfold ignore; by rewrite Hrun1).
    by rewrite (bind_run_ok _ _ _ _ _ Hrun2).
  - assert (wrote (pos s) (pos (advance sh (header_next s))) e e2) as Hwr by (eapply wrote_trans; [exact Hwr1|exact Hwr2|lia]).
    eapply wrote_trans; [exact Hwr|exact Hwr3|lia].
  - intros d l dst Hd [Hfd _] Hnear Hread Hs1 Hs2. rewrite Hbuf3 in Hs1, Hs2. rewrite Hend3 in *.
    destruct (fits_union_value sh (set_limit l s) Hsh Hc Hfd) as (Hd1&Hd2&Hfdv). rewrite header_next_limit in Hfdv.
    pose proof (wr_end _ _ _ _ Hwr2). assert (0 <= pos s) by (destruct Hc; unfold pos; lia).
    unfold decode_union. erewrite bind_run_ok.
    2:{ eapply (header_read 16 tag e e1 s st d l dst); [done|done|done|done|exact Hhead|done|done|done| |].
        - eapply readable_le; [exact Hread|lia].
        - eapply sees_before; [exact Hwr2| |lia|lia|lia]. eapply sees_sub; [exact Hs1|lia|lia]. }
    cbn [fst snd Z.eqb]. rewrite Hdec.
    destruct (Hrd (Decoder.set_stack (set_limit l (header_next s) :: dst) d) l dst) as (n & Hn & Hn');
      [done|done|by rewrite Hend1|done| | |].
    { eapply sees_sub; [exact Hs1|lia|lia]. }
    { by rewrite Hend1. }
    exists n. split; [|done]. rewrite (bind_run_ok _ _ _ _ _ Hn). unfold Decoder.FinishReadingUnionValue.
    erewrite bind_run_ok.
    2:{ erewrite bind_run_ok by (by eapply Decoder.dec_with_state_run). by eapply Decoder.dec_with_state_run. }
    cbn [after advances foldl]. change (alignOffsetToBytes (alignOffset 8 (advance sh (set_limit l (header_next s)))))
      with (finish_union (advance sh (set_limit l (header_next s)))).
    rewrite <- header_next_limit, finish_union_value by done. done.
Qed.
(** A reader that ends with a pure step. *)
Lemma code_then {A B} g fin shs w (r : DM A) (k : A -> DM B) a b :
  code g fin shs w r a -> (forall d, k a d = (d, Ok b)) -> code g fin shs w (let! x := r in k x) b.
Proof.
  intros H Hk e s st He Hst Hf Hc. destruct (H e s st He Hst Hf Hc) as (e' & Hrun & Hst' & Hwr & Hg & Hrd).
  exists e'. split_and!; [done..|]. intros d l dst Hd Hfd Hn Hr Hs1 Hs2.
  destruct (Hrd d l dst Hd Hfd Hn Hr Hs1 Hs2) as (n & Hn' & ?). exists n. split; [|done].
  rewrite (bind_run_ok _ _ _ _ _ Hn'). apply Hk.
Qed.
Lemma code_non_null {A} g fin shs w (r : DM (option A)) a :
  code g fin shs w r (Some a) -> code g fin shs w (non_null_union r) a.
Proof. intros H. by apply (code_then g fin shs w r _ (Some a)). Qed.

Lemma le_word_8 l x : length l = 8%nat -> Forall is_byte l -> le_word l = x ->
  le_word (take 4 l) = x mod 2 ^ 32 /\ le_word (take 4 (drop 4 l)) = x / 2 ^ 32.
Proof.
  intros Hl Hb <-. do 8 (destruct l as [|? l]; [done|]). destruct l; [|done]. 
  repeat (apply Forall_cons in Hb as [? Hb]). unfold is_byte in *.
  cbn [take drop le_word]. change (2 ^ 32) with 4294967296.
  match goal with |- ?lo = ?x mod _ /\ ?hi = _ =>
    split; [apply (Z.mod_unique_pos x _ hi)|apply (Z.div_unique_pos x _ _ lo)]; lia end.
Qed.
Lemma GetUint_halves b off x :
  Forall is_byte b -> GetUint 8 b off = Some x ->
  GetUint 4 b off = Some (x mod 2 ^ 32) /\ GetUint 4 b (off + 4) = Some (x / 2 ^ 32).
Proof.
  intros Hb H. unfold GetUint in *. destruct (_ && _) eqn:E; [|done].
  apply andb_prop in E as [?%Z.leb_le ?%Z.leb_le]. injection H as H.
  rewrite !(proj2 (Z.leb_le 0 _)), !(proj2 (Z.leb_le _ (len b))) by lia. simpl.
  destruct (le_word_8 (take 8 (drop (Z.to_nat off) b)) x) as [Hlo Hhi].
  { rewrite length_take, length_drop. lia. }
  { by apply Forall_take, Forall_drop. }
  { exact H. }
  rewrite take_take in Hlo. rewrite <- Hlo. split; [done|]. rewrite <- Hhi. do 2 f_equal.
  assert (forall l : list Z, take 4 (drop 4 (take 8 l)) = take 4 (drop 4 l)) as ->.
  { intros l. by do 8 (destruct l as [|? l]; [done|]). }
  rewrite drop_drop. do 2 f_equal. lia.
Qed.

Lemma slot_null_union {A} (d0 : Z -> option (DM A)) unknown :
  slot SUnion (ignore Encoder.WriteNullUnion) (decode_union d0 unknown) None.
Proof.
  apply slot_inline. intros e s st Hw Hst [H1 H2]. destruct (winv_top _ _ _ Hw Hst) as (Hc&Hle&Hl&Hps&Hp).
  destruct (header_moves s Hc Hl H1 H2) as (Hc1&?&?&?&?&?).
  destruct (write_word_wrote 3 0 e s st ltac:(lia) Hw Hst H1) as (b1&Hput1&Hb1&Hrun1&Hwr1).
  change (2 ^ 3) with 8 in *. set (e1 := Encoder.mkEncoder b1 _ _ _ _) in *.
  set (e2 := Encoder.mkEncoder b1 (Encoder.end_ e) (Encoder.handles e) (header_next s :: st) (Encoder.deterministic e)).
  assert (decProcessed (advance (SWord 3) s) = header_next s) as Hdec.
  { unfold decProcessed, header_next, at_byte, set_processed. simpl. f_equal. change (2 ^ 3) with 8.
    unfold u32. rewrite Zminus_mod_idemp_l. rewrite Z.add_simpl_r. by apply Z.mod_small. }
  assert (wrote (pos (advance (SWord 3) s)) (pos (header_next s)) e1 e2) as Hwr2.
  { apply (inline_write e1 (advance (SWord 3) s) st); try done; [apply Hwr1|..]; unfold pos in *; simpl in *; lia. }
  destruct (write_word_wrote 3 0 e2 (header_next s) st ltac:(lia) (wr_inv _ _ _ _ Hwr2) eq_refl H2) as (b&Hput&Hb&Hrun&Hwr3).
  set (e3 := Encoder.mkEncoder b _ _ _ _) in *.
  assert (advance (SWord 3) (header_next s) = advance SUnion s) as Hadv.
  { cbn [advance]. unfold at_byte. simpl. f_equal. change (byte_of (header_next s)) with (align (byte_of s) 8 + 8).
    rewrite (align_fix 3) by (lia || by apply Z.divide_add_r; [apply header_divide|exists 1]). lia. }
  assert (fits (SWord 3) s) as Hf3 by (split; [lia|exact H1]).
  pose proof (advance_ok (SWord 3) s Hc Hl Hp Hf3) as (_&Hpos1&_).
  destruct (advance_ok SUnion s Hc Hl Hp (conj H1 H2)) as (_&Hpos&_).
  assert (pos (advance (SWord 3) s) = pos (header_next s)) as Hsame by done.
  assert (pos (advance SUnion s) = pos (header_next s) + 64) as Hlast by (unfold pos; simpl; lia).
  assert (0 <= pos s) by (destruct Hc; unfold pos; lia). rewrite Hadv in *.
  assert (wrote (pos s) (pos (advance SUnion s)) e e3) as Hwr.
  { assert (wrote (pos s) (pos (header_next s)) e e2) as Hwr by (eapply wrote_trans; [exact Hwr1|exact Hwr2|lia]).
    eapply wrote_trans; [exact Hwr|exact Hwr3|lia]. }
  exists e3. split; [|split; [by rewrite <- Hadv|split; [exact Hwr|split; [done|]]]].
  - assert (Encoder.WriteNullUnion e = (e3, Ok tt)) as Hnull; [|unfold ignore; by rewrite Hnull].
    unfold Encoder.WriteNullUnion.
    erewrite bind_run_ok by exact Hrun1. erewrite bind_run_ok by (by apply Encoder.with_state_run).
    rewrite Hdec. exact Hrun.
  - intros d l dst Hd [Hd1 Hd2] Hread Hsee.
    destruct (GetUint_halves b1 (align (byte_of s) 8) 0 Hb1) as [Hg1 Hg2]; [exact (GetUint_Put _ _ _ _ _ Hput1)|].
    assert (forall off, align (byte_of s) 8 <= off -> off + Z.of_nat 4 <= align (byte_of s) 8 + 8 ->
      GetUint 4 b1 off = Some 0 -> GetUint 4 (Decoder.buf d) off = Some 0) as Hword.
    { intros off Ho Hn. apply sees_word; [done|eapply readable_le; [exact Hread|lia]|lia|].
      eapply (sees_before _ _ e2 e3); [exact Hwr3| |lia|simpl; lia|left; lia].
      eapply sees_sub; [exact Hsee|lia|lia]. }
    unfold decode_union. erewrite bind_run_ok.
    2:{ apply (ReadUnionHeader_run 0 0 d s l dst); [done|done|done|done|apply Hword; [lia|lia|exact Hg1]|apply Hword; [lia|lia|exact Hg2]]. }
    cbn [fst snd Z.eqb]. unfold Decoder.SkipUnionValue. erewrite bind_run_ok.
    2:{ erewrite bind_run_ok by (by eapply Decoder.dec_with_state_run). by eapply Decoder.dec_with_state_run. }
    assert (incProcessed (set_offset (offset (set_limit l (header_next s)) + 8) (set_limit l (header_next s))) =
      set_limit l (advance SUnion s)) as ->; [|done].
    unfold incProcessed, set_processed, set_offset, set_limit. simpl. unfold at_byte. simpl. f_equal. lia.
Qed.
(** A union behind a pointer. *)
Lemma object_nested {A} sh union (decode : DM (option A)) a :
  sh = SUnion \/ sh = SUnionBit -> slot sh union decode (Some a) ->
  object 0 (Encoder.StartNestedUnion ;;; union ;;; ignore Encoder.Finish)
    (Decoder.StartNestedUnion ;;; let! v := non_null_union decode in finishes ;;; ret v) a.
Proof.
  intros Hsh Hu e Hw.
  assert (code 0 true [sh] (union ;;; ignore Encoder.Finish) (let! v := non_null_union decode in finishes ;;; ret v) a) as Hc.
  { apply (code_seq true sh [] _ _ _ _ a); [by apply code_non_null|]. apply rest_done; [by right|].
    intros d d' H. by rewrite (bind_run_ok _ _ _ _ _ (finishes_run _ _ H)). }
  destruct (Encoder.pushState_run (mkDataHeader 16 0) false e ltac:(simpl; lia) (w_inv _ Hw)) as (z & Hrun0 & Hz).
  pose proof (w_inv _ Hw) as (Hen&Hdv&_). change (align (Size (mkDataHeader 16 0)) 8) with 16 in *.
  assert (wrote 0 0 e (Encoder.mkEncoder (Encoder.buf e ++ replicate z 0) (Encoder.end_ e + 16) (Encoder.handles e)
    (mkState (Encoder.end_ e + 0) 0 (Encoder.end_ e + 16) 0 0 false :: Encoder.stateStack e) (Encoder.deterministic e))) as Hwr0.
  { apply push_block; [done|lia|by exists 2|done|apply Forall_byte_zeros, Hw|]. intros p _ _. apply bitat_app_zero. }
  rewrite Z.add_0_r in Hwr0. simpl in Hrun0. set (e1 := Encoder.mkEncoder _ _ _ _ _) in *.
  set (s := mkState (Encoder.end_ e) 0 (Encoder.end_ e + 16) 0 0 false).
  pose proof (wr_inv _ _ _ _ Hwr0) as Hw1.
  assert (all_fit [sh] s) as Hf.
  { apply (room_fits 16); [by destruct Hsh as [->| ->]|done|lia]. }
  destruct (Hc e1 s (Encoder.stateStack e) Hw1 eq_refl Hf ltac:(done)) as (e' & Hrun & Hst & Hwr & Hend & Hrd).
  cbn [reach after limit Encoder.end_] in *. change (limit s) with (Encoder.end_ e + 16) in *.
  change (Encoder.end_ e1) with (Encoder.end_ e + 16) in *. assert (pos s = 8 * Encoder.end_ e) as Hpos by (unfold pos; simpl; lia).
  exists e'. split; [by rewrite (bind_run_ok _ _ _ _ _ Hrun0)|]. split; [done|].
  split; [eapply wrote_trans; [exact Hwr0|exact Hwr|]; lia|]. split; [lia|]. split; [lia|].
  intros d Hd Hread Hsee. pose proof (proj2 Hread).
  destruct (Hrd (Decoder.set_end (Encoder.end_ e + 16) (Decoder.set_stack (s :: Decoder.stateStack d) d))
    (Encoder.end_ e + 16) (Decoder.stateStack d)) as (n & Hn & Hn').
  - done.
  - exact Hf.
  - unfold near. simpl. lia.
  - exact Hread.
  - eapply sees_sub; [exact Hsee|lia|lia].
  - eapply sees_sub; [exact Hsee|lia|lia].
  - exists n. split; [|done].
    rewrite (bind_run_ok _ _ _ (Decoder.set_end (Encoder.end_ e + 16) (Decoder.set_stack (s :: Decoder.stateStack d) d)) tt);
      [rewrite Hn; by destruct d|].
    unfold Decoder.StartNestedUnion. rewrite dec_pushState_run by (simpl; lia). simpl Size. by rewrite Hd.
Qed.
Lemma slot_nested {A} sh union (decode : DM (option A)) a :
  sh = SUnion \/ sh = SUnionBit -> slot sh union decode (Some a) ->
  slot (SWord 3) (write_nested_union union) (read_nested_union decode) a.
Proof. intros Hsh Hu. apply code_pointer. by eapply object_nested. Qed.

(** ** Maps *)
Lemma foldl_insert {K A} `{Countable K} (l : list (K * A)) :
  foldl (fun m kv => <[kv.1 := kv.2]> m) (∅ : gmap K A) l = list_to_map (reverse l).
Proof.
  induction l as [|[k a] l IH] using rev_ind; [done|]. rewrite foldl_snoc, IH, reverse_snoc. done.
Qed.
Lemma zip_omap {K A} `{Countable K} (m : gmap K A) keys :
  Forall (fun k => is_Some (m !! k)) keys ->
  zip keys (omap (fun k => m !! k) keys) = omap (fun k => (fun a => (k, a)) <$> m !! k) keys /\
  length (omap (fun k => m !! k) keys) = length keys.
Proof.
  induction 1 as [|k keys [a Ha] Hk [IH IHl]]; [done|]. csimpl. rewrite Ha. csimpl. by rewrite IH, IHl.
Qed.
Lemma omap_map_to_list {K A} `{Countable K} (m : gmap K A) :
  omap (fun k => (fun a => (k, a)) <$> m !! k) (map_to_list m).*1 = map_to_list m.
Proof.
  assert (forall l, l ⊆ map_to_list m -> omap (fun k => (fun a => (k, a)) <$> m !! k) l.*1 = l) as Hl.
  { induction l as [|[k a] l IH]; intros Hs; [done|]. csimpl.
    assert (m !! k = Some a) as -> by (apply elem_of_map_to_list, Hs; by left). csimpl.
    rewrite IH; [done|]. intros x Hx. apply Hs. by right. }
  by apply Hl.
Qed.
(** The keys in any order give the map back. *)
Lemma map_of_keys {K A} `{Countable K} (m : gmap K A) keys :
  keys ≡ₚ (map_to_list m).*1 ->
  let values := omap (fun k => m !! k) keys in
  len keys = len values /\ foldl (fun m kv => <[kv.1 := kv.2]> m) (∅ : gmap K A) (zip keys values) = m /\
  length keys = size m.
Proof.
  intros Hp. assert (Forall (fun k => is_Some (m !! k)) keys) as Hk.
  { rewrite Hp. apply Forall_map, Forall_forall. intros [k a] Ha%elem_of_map_to_list. by exists a. }
  destruct (zip_omap m keys Hk) as [Hz Hl]. cbv zeta. rewrite Hl. split; [done|]. split.
  - rewrite foldl_insert, Hz. etrans; [|apply (list_to_map_to_list m)].
    assert (omap (fun k => (fun a => (k, a)) <$> m !! k) keys ≡ₚ map_to_list m) as Hperm.
    { rewrite Hp, omap_map_to_list. done. }
    apply list_to_map_proper; [|by rewrite reverse_Permutation, Hperm].
    rewrite reverse_Permutation, Hperm. apply NoDup_fst_map_to_list.
  - rewrite Hp, length_fmap. apply length_map_to_list.
Qed.

Lemma object_map_of {K A} `{Countable K} range sort shk shv kb vb (wk : K -> EM Datatypes.unit) rk (wv : A -> EM Datatypes.unit) rv (m : gmap K A) :
  range m ≡ₚ (map_to_list m).*1 -> (forall l, sort l ≡ₚ l) ->
  element shk -> kb = 8 * width shk -> element shv -> vb = 8 * width shv ->
  8 + Z.of_nat (size m) * width shk < 2 ^ 32 -> 8 + Z.of_nat (size m) * width shv < 2 ^ 32 ->
  (forall k a, m !! k = Some a -> slot shk (wk k) rk k /\ slot shv (wv a) rv a) ->
  object 0 (write_map range sort kb wk vb wv m) (read_map kb rk vb rv) (m, true).
Proof.
  intros Hrange Hsort Hek Hkb Hev Hvb Hsk Hsv Hslots.
  apply (object_weaken 8); [lia|].
  apply (object_start 0 mapHeader false [SWord 3; SWord 3] _ _ (
    let* keys := read_pointer (read_array kb rk) else (∅, false) in
    let* values := read_pointer (read_array vb rv) else (∅, false) in
    let! ok := finishes in
    if negb ok then ret (∅, false)
    else if negb (len keys =? len values)
    then throw (ValidationError DifferentSizedArraysInMap
                  "Number of keys %d is different from number of values %d" [len keys; len values])
    else ret (foldl (fun m kv => <[kv.1 := kv.2]> m) ∅ (zip keys values), true))); [done|done|done|..].
  - intros o l Ho Hl. split; [|done]. apply (room_fits 16); [done|done|simpl in Hl; lia].
  - intros e. set (keys := if Encoder.Deterministic e then sort (range m) else range m).
    assert (keys ≡ₚ (map_to_list m).*1) as Hkeys by (subst keys; case_match; by rewrite ?Hsort).
    destruct (map_of_keys m keys Hkeys) as (Hlen & Hmap & Hsize). cbv zeta in Hlen, Hmap.
    set (values := omap (fun k => m !! k) keys) in *.
    exists ((Encoder.WritePointer ;;; write_array kb wk keys) ;;;
      (Encoder.WritePointer ;;; write_array vb wv values) ;;; Encoder.Finish). split.
    { etrans; [by apply (bind_run_ok _ _ _ e e)|]. cbv beta zeta. fold keys. fold values.
      rewrite bind_assoc_run. apply bind_ext_run. intros _ e1. apply bind_ext_run. intros _ e2. by rewrite bind_assoc_run. }
    apply (code_unless true (SWord 3) [SWord 3] _ _ _ _ _ keys).
    { apply slot_pointer. rewrite <- (map_id keys) at 2. apply (object_write_array shk); [done|done|by rewrite Hsize|].
      rewrite Hkeys. apply Forall_map, Forall_forall. intros [k a] Ha%elem_of_map_to_list. by destruct (Hslots k a Ha). }
    apply (code_unless true (SWord 3) [] _ _ _ _ _ values).
    { apply slot_pointer. rewrite <- (map_id values) at 2. apply (object_write_array shv); [done|done|rewrite <- Hlen, Hsize; done|].
      apply Forall_forall. intros a (k&Hk&Ha)%list_elem_of_omap. by destruct (Hslots k a Ha). }
    apply rest_finishes. intros d. cbn [negb]. rewrite Hlen, Z.eqb_refl, Hmap. done.
  - intros d d' Hd. unfold read_map. unfold bind at 1. unfold Decoder.StartMap. rewrite (bind_run_ok _ _ _ _ _ Hd).
    rewrite bool_decide_true by done. done.
Qed.

(** ** Growth and fuel *)
Lemma code_weaken {A} g g' fin shs w (r : DM A) a : g' <= g -> code g fin shs w r a -> code g' fin shs w r a.
Proof.
  intros Hg H e s st He Hst Hf Hc. destruct (H e s st He Hst Hf Hc) as (e' & Hrun & Hst' & Hwr & Hg' & Hrd).
  exists e'. split_and!; [done..|lia|done].
Qed.
Lemma code_seq_by {A B} g fin sh shs w1 w2 (r1 : DM A) (k : A -> DM B) x a :
  0 <= g -> slot sh w1 r1 x -> code g fin shs w2 (k x) a -> code g fin (sh :: shs) (w1 ;;; w2) (let! y := r1 in k y) a.
Proof. intros Hg H1 H2. rewrite <- (Z.add_0_l g). by apply (code_bind 0 g fin [sh] shs w1 w2 r1 k x a). Qed.
Lemma code_grow {A B} g g' fin sh shs w1 w2 (r1 : DM A) (k : A -> DM B) x a :
  0 <= g -> 0 <= g' -> code g false [sh] w1 r1 x -> code g' fin shs w2 (k x) a ->
  code (g + g') fin (sh :: shs) (w1 ;;; w2) (let! y := r1 in k y) a.
Proof. intros Hg Hg' H1 H2. by apply (code_bind g g' fin [sh] shs w1 w2 r1 k x a). Qed.

(** A function whose depth of recursion is at most what is written has enough fuel
    in the length of the buffer. *)
Lemma code_with_fuel {A} n fin shs w (decode : nat -> DM A) a :
  (forall fuel, (n < fuel)%nat -> code (Z.of_nat n) fin shs w (decode fuel) a) -> code 0 fin shs w (with_fuel decode) a.
Proof.
  intros H e s st He Hst Hf Hc.
  destruct (H (S n) ltac:(lia) e s st He Hst Hf Hc) as (e' & Hrun & Hst' & Hwr & Hg & _).
  exists e'. split_and!; [done..|lia|]. intros d l dst Hd Hfd Hn Hr Hs1 Hs2.
  pose proof (w_inv _ He) as (?&_). pose proof (proj2 Hr).
  destruct (H (S (length (Decoder.buf d))) ltac:(lia) e s st He Hst Hf Hc) as (e'' & Hrun' & _ & _ & _ & Hrd).
  rewrite Hrun in Hrun'. injection Hrun' as <-. by apply Hrd.
Qed.
Lemma object_with_fuel {A} n w (decode : nat -> DM A) a :
  (forall fuel, (n < fuel)%nat -> object (Z.of_nat n) w (decode fuel) a) -> object 0 w (with_fuel decode) a.
Proof.
  intros H e He.
  destruct (H (S n) ltac:(lia) e He) as (e' & Hrun & Hst' & Hwr & Hend & Hg & _).
  exists e'. split_and!; [done..|lia|]. intros d Hd Hr Hs.
  pose proof (w_inv _ He) as (?&_). pose proof (proj2 Hr).
  destruct (H (S (length (Decoder.buf d))) ltac:(lia) e He) as (e'' & Hrun' & _ & _ & _ & _ & Hrd).
  rewrite Hrun in Hrun'. injection Hrun' as <-. by apply Hrd.
Qed.

(** ** Whole messages *)
(** What is written from an empty encoder is read back from the bytes it returns. *)
Lemma object_message {A} w (r : DM A) a det :
  object 0 w r a ->
  exists e', w (Encoder.mkEncoder [] 0 [] [] det) = (e', Ok tt) /\
    exists bs, Encoder.Data e' = (e', Ok (bs, [])) /\ len bs = Encoder.end_ e' /\
      (len bs < 2 ^ 63 -> exists d', r (Decoder.NewDecoder bs []) = (d', Ok a)).
Proof.
  intros H. destruct (H _ (winv_new det)) as (e' & Hrun & Hst & Hwr & _ & _ & Hrd). cbn [Encoder.stateStack Encoder.end_] in *.
  exists e'. split; [done|]. destruct (w_inv _ (wr_inv _ _ _ _ Hwr)) as (Hen&_&_).
  exists (take (Z.to_nat (Encoder.end_ e')) (Encoder.buf e')).
  assert (len (take (Z.to_nat (Encoder.end_ e')) (Encoder.buf e')) = Encoder.end_ e') as Hl.
  { rewrite length_take. lia. }
  split; [|split; [done|]].
  - unfold Encoder.Data. rewrite Hst. simpl. rewrite slice_Some by lia. rewrite Z.sub_0_r. simpl.
    by rewrite (wr_handles _ _ _ _ Hwr).
  - intros Hmax. destruct (Hrd (Decoder.NewDecoder (take (Z.to_nat (Encoder.end_ e')) (Encoder.buf e')) [])) as (n & Hn & _).
    + done.
    + split; [apply Forall_take, (wr_inv _ _ _ _ Hwr)|]. simpl. lia.
    + intros p Hp. simpl. unfold bitat, index. rewrite (proj2 (Z.leb_le _ _)) by (apply Z.div_le_lower_bound; lia).
      rewrite lookup_take_lt; [done|]. assert (p / 8 < Encoder.end_ e'); [|lia]. apply Z.div_lt_upper_bound; lia.
    + by eexists.
Qed.
