(* ===== verification/FidlCodecSpec.v ===== *)
(** * The intermediate representation survives its encoding

    The round trip of fidl_types.core.go and fidl_files.core.go: the lemmas [*_codec]
    say that each Decode reads back what its Encode writes, provided the value is
    well-formed and has no unknown variant. *)
From Stdlib Require Import Ascii String.
From stdpp Require Import sorting.
From S2P Require Export FidlWellFormed CodecObjects.
From S2P Require Import FidlEncode FidlDecode.
From S2P Require Import Wire.
From S2P Require Encoder Decoder.

(** Every variant is known. *)
Abbreviation Type_ok := (Type_wf False).
Abbreviation LiteralValue_ok := (LiteralValue_wf False).
Abbreviation Value_ok := (Value_wf False).
Abbreviation DefaultFieldValue_ok := (DefaultFieldValue_wf False).
Abbreviation Attribute_ok := (Attribute_wf False).
Abbreviation DeclarationData_ok := (DeclarationData_wf False).
Abbreviation StructField_ok := (StructField_wf False).
Abbreviation FidlStruct_ok := (FidlStruct_wf False).
Abbreviation UnionField_ok := (UnionField_wf False).
Abbreviation FidlUnion_ok := (FidlUnion_wf False).
Abbreviation EnumValue_ok := (EnumValue_wf False).
Abbreviation FidlEnum_ok := (FidlEnum_wf False).
Abbreviation FidlMethod_ok := (FidlMethod_wf False).
Abbreviation FidlInterface_ok := (FidlInterface_wf False).
Abbreviation UserDefinedType_ok := (UserDefinedType_wf False).
Abbreviation DeclaredConstant_ok := (DeclaredConstant_wf False).
Abbreviation RuntimeTypeInfo_ok := (RuntimeTypeInfo_wf False).
Abbreviation FidlFile_ok := (FidlFile_wf False).
Abbreviation FidlFileGraph_ok := (FidlFileGraph_wf False).

(** ** Fields *)
Section Fields.
#[local] Abbreviation writes A := (A -> M Encoder.Encoder error unit).
#[local] Abbreviation reads A := (M Decoder.Decoder error A).
Lemma slot_uint8 v : uint_ok 8 v -> slot (SWord 0) (Encoder.WriteUint8 v) Decoder.ReadUint8 v.
Proof. intros Hv. by apply slot_inline, inline_uint8. Qed.
Lemma slot_uint16 v : uint_ok 16 v -> slot (SWord 1) (Encoder.WriteUint16 v) Decoder.ReadUint16 v.
Proof. intros Hv. by apply slot_inline, inline_uint16. Qed.
Lemma slot_uint32 v : uint_ok 32 v -> slot (SWord 2) (Encoder.WriteUint32 v) Decoder.ReadUint32 v.
Proof. intros Hv. by apply slot_inline, inline_uint32. Qed.
Lemma slot_uint64 v : uint_ok 64 v -> slot (SWord 3) (Encoder.WriteUint64 v) Decoder.ReadUint64 v.
Proof. intros Hv. by apply slot_inline, inline_uint64. Qed.
Lemma slot_int8 v : int_ok 8 v -> slot (SWord 0) (Encoder.WriteInt8 v) Decoder.ReadInt8 v.
Proof. intros Hv. by apply slot_inline, inline_int8. Qed.
Lemma slot_int16 v : int_ok 16 v -> slot (SWord 1) (Encoder.WriteInt16 v) Decoder.ReadInt16 v.
Proof. intros Hv. by apply slot_inline, inline_int16. Qed.
Lemma slot_int32 v : int_ok 32 v -> slot (SWord 2) (Encoder.WriteInt32 v) Decoder.ReadInt32 v.
Proof. intros Hv. by apply slot_inline, inline_int32. Qed.
Lemma slot_int64 v : int_ok 64 v -> slot (SWord 3) (Encoder.WriteInt64 v) Decoder.ReadInt64 v.
Proof. intros Hv. by apply slot_inline, inline_int64. Qed.
Lemma slot_bool v : slot SBit (Encoder.WriteBool v) Decoder.ReadBool v.
Proof. by apply slot_inline, inline_bit. Qed.
Lemma slot_float64 f :
  float_ok 52 11 f -> slot (SWord 3) (Encoder.WriteFloat64 (Float64bits_ f)) Decoder.ReadFloat64 (Float64bits_ f).
Proof.
  intros Hf. apply slot_inline. apply (inline_map (SWord 3) _ Decoder.ReadUint64 Decoder.Float64frombits).
  apply inline_uint64. by apply (float_bits_range 52 11).
Qed.
Lemma slot_float32 f :
  float_ok 23 8 f -> slot (SWord 2) (Encoder.WriteFloat32 (Float32bits_ f)) Decoder.ReadFloat32 (Float32bits_ f).
Proof.
  intros Hf. apply slot_inline. apply (inline_map (SWord 2) _ Decoder.ReadUint32 Decoder.Float32frombits).
  apply inline_uint32. by apply (float_bits_range 23 8).
Qed.
Lemma slot_write_pointer {A B} (w : writes A) (r : reads B) a b :
  object 0 (w a) r b -> slot (SWord 3) (write_pointer w a) (read_pointer r) b.
Proof. apply slot_pointer. Qed.
Lemma slot_option {A} (P : A -> Prop) (w : writes A) r o :
  option_ok P o -> (forall a, P a -> object 0 (w a) r a) -> slot (SWord 3) (write_optional w o) (read_optional r) o.
Proof. intros Ho H. apply slot_optional_id. intros a ->. by apply H. Qed.
Lemma slot_option_array {A} (P : A -> Prop) (w : writes A) r o :
  option_ok P o -> (forall a, P a -> object 0 (w a) r (a, true)) ->
  slot (SWord 3) (write_optional w o) (read_optional_array r) (o, true).
Proof. intros Ho H. apply slot_optional_array. intros a ->. by apply H. Qed.
Lemma object_list {A} (P : A -> Prop) (w : writes A) r l :
  list_ok P l -> (forall a, P a -> object 0 (w a) r a) -> object 0 (write_pointers w l) (read_pointers r) (l, true).
Proof. intros [Hl Hp] H. apply object_pointers; [lia|]. by eapply Forall_impl. Qed.
Lemma object_strings_ok l : strings_ok l -> object 0 (write_strings l) read_strings (l, true).
Proof. intros Hl. apply (object_list string_ok); [done|apply object_string]. Qed.
End Fields.

Create HintDb codec discriminated.
#[export] Hint Constants Opaque : codec.
#[export] Hint Resolve slot_uint8 slot_uint16 slot_uint32 slot_uint64 slot_int8 slot_int16 slot_int32 slot_int64
  slot_bool slot_float64 slot_float32 slot_write_pointer slot_option slot_option_array object_list
  object_strings_ok object_string code_non_null : codec.
(** The fields of a struct one after the other, then Finish. *)
Ltac codec_fields :=
  repeat lazymatch goal with
  | |- code 0 true _ (_ ;;; _) (unless_return _ _ _) _ => eapply code_unless; [solve [eauto with codec]|]
  | |- code 0 true _ (_ ;;; _) _ _ => eapply code_seq; [solve [eauto with codec]|]
  | _ => apply rest_finish
  end.
(** A struct: the fields determine the shapes, which have room. *)
Ltac codec_struct :=
  eapply object_struct; cycle 2; [codec_fields|done|done].

(** ** Types *)
Lemma StringType_codec n : object 0 (StringType_Encode n) StringType_Decode n.
Proof. codec_struct. Qed.
Lemma TypeReference_codec r : TypeReference_ok r -> object 0 (TypeReference_Encode r) TypeReference_Decode r.
Proof. destruct r. intros (?&?). codec_struct. Qed.
Lemma HandleType_Kind_back k : HandleType_Kind_ok k -> HandleType_Kind_of (HandleType_Kind_value k) = k.
Proof.
  destruct k as [| | | | | | | | | |z]; try done. intros (_&?&?). simpl.
  destruct z as [|p|p]; [lia| |done]. do 4 (destruct p as [p|p|]; try done; try lia).
Qed.
Lemma HandleType_Kind_range k : HandleType_Kind_ok k -> int_ok 32 (HandleType_Kind_value k).
Proof. destruct k; simpl; unfold int_ok; lia. Qed.
Lemma SimpleType_back t : SimpleType_ok t -> SimpleType_of (SimpleType_value t) = t.
Proof.
  destruct t as [| | | | | | | | | | |z]; try done. intros (_&?). simpl.
  destruct z as [|p|p]; [lia| |done]. do 4 (destruct p as [p|p|]; try done; try lia).
Qed.
Lemma SimpleType_range t : SimpleType_ok t -> int_ok 32 (SimpleType_value t).
Proof. destruct t; simpl; unfold int_ok; lia. Qed.
Lemma BuiltinConstantValue_back v : BuiltinConstantValue_ok v -> BuiltinConstantValue_of (BuiltinConstantValue_value v) = v.
Proof.
  destruct v as [| | | | | |z]; try done. intros (_&?). simpl.
  destruct z as [|p|p]; [lia| |done]. do 3 (destruct p as [p|p|]; try done; try lia).
Qed.
Lemma BuiltinConstantValue_range v : BuiltinConstantValue_ok v -> int_ok 32 (BuiltinConstantValue_value v).
Proof. destruct v; simpl; unfold int_ok; lia. Qed.

Lemma HandleType_codec n k : HandleType_Kind_ok k -> object 0 (HandleType_Encode n k) HandleType_Decode (n, k).
Proof.
  intros Hk. pose proof (HandleType_Kind_range k Hk). rewrite <- (HandleType_Kind_back k Hk) at 2. codec_struct.
Qed.
Lemma slot_union {A} tag wv (rv : M Decoder.Decoder error A) v (d0 : Z -> option (M Decoder.Decoder error A)) unknown sh :
  slot sh wv rv v -> value_shape sh -> 0 <= tag < 2 ^ 32 -> d0 tag = Some rv ->
  slot (union_shape sh) (write_union tag wv) (decode_union d0 unknown) (Some v).
Proof. intros. by eapply code_union. Qed.

(** How deep the types are nested. *)
Fixpoint Type_depth (t : FidlType) : nat :=
  match t with
  | TypeArrayType _ _ e => S (Type_depth e)
  | TypeMapType _ k v => S (Type_depth k + Type_depth v)
  | _ => 0
  end.
Lemma Type_codec_fuel t :
  Type_ok t -> forall fuel, (Type_depth t < fuel)%nat ->
  code (Z.of_nat (Type_depth t)) false [SUnion] (Type_Encode t) (DecodeType fuel) (Some t).
Proof.
  induction t as [t|n|n l t IH|n k IHk v IHv|n k|r|tag]; simpl Type_ok; intros Ht [|fuel] Hfuel; try (by destruct Ht);
    try (cbn in Hfuel; lia); cbn [Type_depth Type_Encode DecodeType].
  - rewrite <- (SimpleType_back t Ht) at 2. apply (code_union 0 (SWord 2) 0 _ TypeSimpleType_decodeInternal); [done|done|done|].
    apply (code_map 0 false _ _ _ (fun v => TypeSimpleType (SimpleType_of v))). by apply slot_int32, SimpleType_range.
  - apply (code_union 0 (SWord 3) 1 _ TypeStringType_decodeInternal); [done|done|done|].
    apply (code_map 0 false _ _ _ TypeStringType), slot_pointer, StringType_codec.
  - destruct Ht as [Hl Ht]. specialize (IH Ht fuel ltac:(cbn in Hfuel; lia)).
    apply (code_weaken (8 + Z.of_nat (Type_depth t))); [lia|].
    eapply (code_union _ (SWord 3) 2); [done|done|reflexivity|].
    apply (code_map _ false _ _ _ (fun a => TypeArrayType a.1.1 a.1.2 a.2) (n, l, t)), slot_pointer.
    eapply object_struct_by; [lia|..].
    3:{ eapply code_seq_by; [lia|apply slot_bool|]. eapply code_seq_by; [lia|by apply slot_int32|].
      rewrite <- (Z.add_0_r (Z.of_nat _)). eapply code_grow; [lia|done|apply code_non_null; exact IH|apply rest_finish]. }
    { done. } { done. }
  - destruct Ht as [Hk Hv]. specialize (IHk Hk fuel ltac:(cbn in Hfuel; lia)). specialize (IHv Hv fuel ltac:(cbn in Hfuel; lia)).
    apply (code_weaken (8 + (Z.of_nat (Type_depth k) + (Z.of_nat (Type_depth v) + 0)))); [lia|].
    eapply (code_union _ (SWord 3) 3); [done|done|reflexivity|].
    apply (code_map _ false _ _ _ (fun a => TypeMapType a.1.1 a.1.2 a.2) (n, k, v)), slot_pointer.
    eapply object_struct_by; [lia|..].
    3:{ eapply code_seq_by; [lia|apply slot_bool|].
      eapply code_grow; [lia|lia|apply code_non_null; exact IHk|].
      eapply code_grow; [lia|done|apply code_non_null; exact IHv|apply rest_finish]. }
    { done. } { done. }
  - apply (code_union 0 (SWord 3) 4 _ TypeHandleType_decodeInternal); [done|done|done|].
    apply (code_map 0 false _ _ _ (fun h => TypeHandleType h.1 h.2) (n, k)), slot_pointer. by apply HandleType_codec.
  - apply (code_union 0 (SWord 3) 5 _ TypeTypeReference_decodeInternal); [done|done|done|].
    apply (code_map 0 false _ _ _ TypeTypeReference), slot_pointer. by apply TypeReference_codec.
Qed.
Lemma read_type_codec t : Type_ok t -> slot SUnion (Type_Encode t) read_type t.
Proof. intros Ht. apply code_non_null, (code_with_fuel (Type_depth t)). by apply Type_codec_fuel. Qed.
(** ** Values *)
Definition literal_shape (v : FidlLiteralValue) : shape :=
  match v with LiteralValueBoolValue _ => SUnionBit | _ => SUnion end.
(** A variant: its tag, its reader and the constructor. *)
Ltac codec_variant sh tag f :=
  eapply (slot_union tag _ _ _ _ _ sh); [|done|done|reflexivity]; apply (code_map 0 false [sh] _ _ f).
Lemma Float64_back f : float_ok 52 11 f -> Float64frombits_ (Float64bits_ f) = f.
Proof. by apply (float_frombits_bits 52 11). Qed.
Lemma Float32_back f : float_ok 23 8 f -> Float32frombits_ (Float32bits_ f) = f.
Proof. by apply (float_frombits_bits 23 8). Qed.
Lemma LiteralValue_codec v :
  LiteralValue_ok v -> slot (literal_shape v) (LiteralValue_Encode v) DecodeLiteralValue (Some v).
Proof.
  destruct v; cbn [LiteralValue_ok]; intros Hv; try done.
  - codec_variant SBit 0 LiteralValueBoolValue. apply slot_bool.
  - rewrite <- (Float64_back f Hv) at 3.
    codec_variant (SWord 3) 1 (fun v => LiteralValueDoubleValue (Float64frombits_ v)). by apply slot_float64.
  - rewrite <- (Float32_back f Hv) at 3.
    codec_variant (SWord 2) 2 (fun v => LiteralValueFloatValue (Float32frombits_ v)). by apply slot_float32.
  - codec_variant (SWord 0) 3 LiteralValueInt8Value. by apply slot_int8.
  - codec_variant (SWord 1) 4 LiteralValueInt16Value. by apply slot_int16.
  - codec_variant (SWord 2) 5 LiteralValueInt32Value. by apply slot_int32.
  - codec_variant (SWord 3) 6 LiteralValueInt64Value. by apply slot_int64.
  - codec_variant (SWord 3) 7 LiteralValueStringValue. by apply slot_pointer, object_string.
  - codec_variant (SWord 0) 8 LiteralValueUint8Value. by apply slot_uint8.
  - codec_variant (SWord 1) 9 LiteralValueUint16Value. by apply slot_uint16.
  - codec_variant (SWord 2) 10 LiteralValueUint32Value. by apply slot_uint32.
  - codec_variant (SWord 3) 11 LiteralValueUint64Value. by apply slot_uint64.
Qed.
Lemma literal_union v : literal_shape v = SUnion \/ literal_shape v = SUnionBit.
Proof. destruct v; auto. Qed.

Lemma ConstantReference_codec r :
  string_ok (cr_Identifier r) /\ string_ok (ConstantKey r) -> object 0 (ConstantReference_Encode r) ConstantReference_Decode r.
Proof. destruct r. intros (?&?). codec_struct. Qed.
Lemma EnumValueReference_codec r :
  string_ok (er_Identifier r) /\ string_ok (EnumTypeKey r) /\ uint_ok 32 (EnumValueIndex r) ->
  object 0 (EnumValueReference_Encode r) EnumValueReference_Decode r.
Proof. destruct r. intros (?&?&?). codec_struct. Qed.
Lemma Value_codec v : Value_ok v -> slot SUnion (Value_Encode v) DecodeValue (Some v).
Proof.
  destruct v as [v|r|r|v|]; cbn [Value_ok]; intros Hv; try done.
  - codec_variant (SWord 3) 0 ValueLiteralValue.
    eapply slot_nested; [apply literal_union|]. by apply LiteralValue_codec.
  - codec_variant (SWord 3) 1 ValueConstantReference. by apply slot_pointer, ConstantReference_codec.
  - codec_variant (SWord 3) 2 ValueEnumValueReference. by apply slot_pointer, EnumValueReference_codec.
  - rewrite <- (BuiltinConstantValue_back v Hv) at 2.
    codec_variant (SWord 2) 3 (fun v => ValueBuiltinValue (BuiltinConstantValue_of v)).
    by apply slot_int32, BuiltinConstantValue_range.
Qed.
Lemma DefaultKeyword_codec : object 0 DefaultKeyword_Encode DefaultKeyword_Decode tt.
Proof.
  eapply (object_struct 0 []); [done|done|]. apply rest_done; [by left|done].
Qed.
Lemma DefaultFieldValue_codec v :
  DefaultFieldValue_ok v -> slot SUnion (DefaultFieldValue_Encode v) DecodeDefaultFieldValue (Some v).
Proof.
  destruct v as [v| |]; cbn [DefaultFieldValue_ok]; intros Hv; try done.
  - codec_variant (SWord 3) 0 DefaultFieldValueValue. eapply slot_nested; [by left|]. by apply Value_codec.
  - eapply (slot_union 1 _ _ _ _ _ (SWord 3)); [|done|done|reflexivity].
    apply (code_map 0 false [SWord 3] _ _ (fun _ => DefaultFieldValueDefaultKeyword) tt).
    apply slot_pointer, DefaultKeyword_codec.
Qed.
(** A union that may be absent. *)
Lemma slot_nullable_union {A} (P : A -> Prop) (w : A -> M Encoder.Encoder error unit) d0 unknown o :
  option_ok P o -> (forall a, P a -> slot SUnion (w a) (decode_union d0 unknown) (Some a)) ->
  slot SUnion (write_nullable_union w o) (decode_union d0 unknown) o.
Proof. intros Ho H. destruct o as [a|]; [by apply H|apply slot_null_union]. Qed.
Lemma nullable_value_codec o : option_ok Value_ok o -> slot SUnion (write_nullable_union Value_Encode o) DecodeValue o.
Proof. intros Ho. by eapply slot_nullable_union; [exact Ho|exact Value_codec]. Qed.
Lemma nullable_default_codec o :
  option_ok DefaultFieldValue_ok o ->
  slot SUnion (write_nullable_union DefaultFieldValue_Encode o) DecodeDefaultFieldValue o.
Proof. intros Ho. by eapply slot_nullable_union; [exact Ho|exact DefaultFieldValue_codec]. Qed.
#[export] Hint Resolve read_type_codec Value_codec nullable_value_codec nullable_default_codec : codec.

(** ** Declarations *)
Lemma Attribute_codec a : Attribute_ok a -> object 0 (Attribute_Encode a) Attribute_Decode a.
Proof.
  destruct a as [k v]. intros [? Hv]. pose proof (LiteralValue_codec v Hv).
  eapply object_struct; cycle 2; [codec_fields|done|by destruct v].
Qed.
Lemma SourceFileInfo_codec i : SourceFileInfo_ok i -> object 0 (SourceFileInfo_Encode i) SourceFileInfo_Decode i.
Proof. destruct i. intros (?&?&?). codec_struct. Qed.
Lemma ContainedDeclarations_codec c :
  ContainedDeclarations_ok c -> object 0 (ContainedDeclarations_Encode c) ContainedDeclarations_Decode c.
Proof. destruct c. intros (?&?). codec_struct. Qed.
Lemma attributes_codec l : list_ok Attribute_ok l -> object 0 (write_pointers Attribute_Encode l) (read_pointers Attribute_Decode) (l, true).
Proof. intros Hl. eapply object_list; [exact Hl|exact Attribute_codec]. Qed.
Fixpoint Comments_depth (c : FidlComments) : nat :=
  match c with
  | mkFidlComments ForAttributes _ _ _ _ => match ForAttributes with Some c => S (Comments_depth c) | None => 0 end
  end.
Lemma Comments_codec_fuel : forall c, Comments_ok c -> forall fuel, (Comments_depth c < fuel)%nat ->
  object (Z.of_nat (Comments_depth c)) (Comments_Encode c) (Comments_Decode fuel) c.
Proof.
  fix IH 1. intros [o above left right atBottom] (Ho&?&?&?&?) [|fuel] Hfuel; [lia|].
  set (g := match o with Some c => Z.of_nat (Comments_depth c) | None => 0 end).
  assert (0 <= g) by (subst g; destruct o; lia).
  assert (code g false [SWord 3] (match o with None => ignore Encoder.WriteNullPointer
    | Some c => Encoder.WritePointer ;;; Comments_Encode c end) (read_optional (Comments_Decode fuel)) o) as Hc.
  { subst g. destruct o as [c|].
    - apply code_pointer, (object_map _ _ _ Some), IH; [done|]. cbn in Hfuel. lia.
    - by apply slot_inline, inline_null. }
  apply (object_weaken (8 + (g + 0))); [subst g; destruct o; cbn; lia|].
  eapply (object_struct_by _ 40 (SWord 3 :: _)); [lia|done|..].
  2:{ eapply code_grow; [done|done|exact Hc|]. codec_fields. }
  done.
Qed.
Lemma Comments_codec c : Comments_ok c -> object 0 (Comments_Encode c) (with_fuel Comments_Decode) c.
Proof. intros Hc. apply (object_with_fuel (Comments_depth c)). by apply Comments_codec_fuel. Qed.
#[export] Hint Resolve attributes_codec SourceFileInfo_codec ContainedDeclarations_codec Comments_codec : codec.
Lemma DeclarationData_codec d : DeclarationData_ok d -> object 0 (DeclarationData_Encode d) DeclarationData_Decode d.
Proof. destruct d. intros (?&?&?&?&?&?&?&?&?). codec_struct. Qed.
#[export] Hint Resolve DeclarationData_codec : codec.
Lemma StructField_codec f : StructField_ok f -> object 0 (StructField_Encode f) StructField_Decode f.
Proof. destruct f. intros (?&?&?&?&?&?). codec_struct. Qed.
Lemma StructVersion_codec v : StructVersion_ok v -> object 0 (StructVersion_Encode v) StructVersion_Decode v.
Proof. destruct v. intros (?&?&?). codec_struct. Qed.
#[export] Hint Resolve StructField_codec StructVersion_codec : codec.
Lemma FidlStruct_codec s : FidlStruct_ok s -> object 0 (FidlStruct_Encode s) FidlStruct_Decode s.
Proof. destruct s. intros (?&?&?). codec_struct. Qed.
Lemma UnionField_codec f : UnionField_ok f -> object 0 (UnionField_Encode f) UnionField_Decode f.
Proof. destruct f. intros (?&?&?). codec_struct. Qed.
#[export] Hint Resolve FidlStruct_codec UnionField_codec : codec.
Lemma FidlUnion_codec u : FidlUnion_ok u -> object 0 (FidlUnion_Encode u) FidlUnion_Decode u.
Proof. destruct u. intros (?&?). codec_struct. Qed.
Lemma EnumValue_codec v : EnumValue_ok v -> object 0 (EnumValue_Encode v) EnumValue_Decode v.
Proof. destruct v. intros (?&?&?). codec_struct. Qed.
#[export] Hint Resolve EnumValue_codec : codec.
Lemma FidlEnum_codec e : FidlEnum_ok e -> object 0 (FidlEnum_Encode e) FidlEnum_Decode e.
Proof. destruct e. intros (?&?). codec_struct. Qed.
Lemma FidlMethod_codec m : FidlMethod_ok m -> object 0 (FidlMethod_Encode m) FidlMethod_Decode m.
Proof. destruct m. intros (?&?&?&?&?). codec_struct. Qed.
Lemma DeclaredConstant_codec c : DeclaredConstant_ok c -> object 0 (DeclaredConstant_Encode c) DeclaredConstant_Decode c.
Proof. destruct c. intros (?&?&?&?). codec_struct. Qed.
Lemma KeysByType_codec k : KeysByType_ok k -> object 0 (KeysByType_Encode k) KeysByType_Decode k.
Proof. destruct k. intros (?&?&?&?&?&?&?). codec_struct. Qed.
#[export] Hint Resolve FidlUnion_codec FidlEnum_codec FidlMethod_codec DeclaredConstant_codec KeysByType_codec : codec.
Lemma FidlFile_codec f : FidlFile_ok f -> object 0 (FidlFile_Encode f) FidlFile_Decode f.
Proof. destruct f. intros (?&?&?&?&?&?&?&?). codec_struct. Qed.
#[export] Hint Resolve FidlFile_codec : codec.

(** ** Maps and graphs *)
Lemma string_le_permutation l : sort_strings l ≡ₚ l.
Proof. apply merge_sort_Permutation. Qed.
Section Graphs.
(** The orders of the loops over maps: every key once. *)
Context (range_methods : gmap Z FidlMethod -> list Z).
Context (range_string : forall {A}, gmap string A -> list string).
Context (Hmethods : forall m, range_methods m ≡ₚ (map_to_list m).*1).
Context (Hstring : forall A (m : gmap string A), @range_string A m ≡ₚ (map_to_list m).*1).

Lemma methods_codec m :
  map_ok 8 (uint_ok 32) FidlMethod_ok m ->
  object 0 (write_map range_methods sort_uint32 32 Encoder.WriteUint32 64 (write_pointer FidlMethod_Encode) m)
    (read_map 32 Decoder.ReadUint32 64 (read_pointer FidlMethod_Decode)) (m, true).
Proof.
  intros [Hs Hm]. apply (object_map_of _ _ (SWord 2) (SWord 3)); 
    [done|apply merge_sort_Permutation|done|done|done|done| | |].
  - change (width (SWord 2)) with 4. lia.
  - change (width (SWord 3)) with 8. lia.
  - intros k a Ha. destruct (Hm k a Ha). split; eauto with codec.
Qed.
Lemma string_map_codec {A} sh bits (P : A -> Prop) w r (m : gmap string A) :
  map_ok (width sh) string_ok P m -> 8 <= width sh -> element sh -> bits = 8 * width sh ->
  (forall a, P a -> slot sh (w a) r a) ->
  object 0 (write_string_map (@range_string) bits w m) (read_string_map bits r) (m, true).
Proof.
  intros [Hs Hm] Hw He Hb Hr. unfold write_string_map, read_string_map.
  apply (object_map_of (@range_string A) sort_strings (SWord 3) sh 64 bits).
  - apply Hstring.
  - apply string_le_permutation.
  - cbn. lia.
  - done.
  - done.
  - done.
  - change (width (SWord 3)) with 8. nia.
  - lia.
  - intros k a Ha. destruct (Hm k a Ha). split; eauto with codec.
Qed.
Lemma string_pointers_codec {A} (P : A -> Prop) w r (m : gmap string A) :
  map_ok 8 string_ok P m -> (forall a, P a -> object 0 (w a) r a) ->
  object 0 (write_string_map (@range_string) 64 (write_pointer w) m) (read_string_map 64 (read_pointer r)) (m, true).
Proof.
  intros Hm Hr. apply (string_map_codec (SWord 3) 64 P (write_pointer w) (read_pointer r) m Hm); [done|done|done|].
  intros a Ha. apply slot_pointer, Hr, Ha.
Qed.
#[local] Hint Resolve methods_codec : codec.
Lemma FidlInterface_codec i : FidlInterface_ok i -> object 0 (FidlInterface_Encode range_methods i) FidlInterface_Decode i.
Proof. destruct i. intros (?&?&?&?). codec_struct. Qed.
Lemma UserDefinedType_codec t :
  UserDefinedType_ok t -> slot SUnion (UserDefinedType_Encode range_methods t) DecodeUserDefinedType (Some t).
Proof.
  destruct t as [e|s|u|i|]; cbn [UserDefinedType_ok]; intros Ht; [..|done].
  - codec_variant (SWord 3) 0 UserDefinedTypeEnumType. by apply slot_pointer, FidlEnum_codec.
  - codec_variant (SWord 3) 1 UserDefinedTypeStructType. by apply slot_pointer, FidlStruct_codec.
  - codec_variant (SWord 3) 2 UserDefinedTypeUnionType. by apply slot_pointer, FidlUnion_codec.
  - codec_variant (SWord 3) 3 UserDefinedTypeInterfaceType. by apply slot_pointer, FidlInterface_codec.
Qed.
Lemma types_codec m :
  map_ok 16 string_ok UserDefinedType_ok m ->
  object 0 (write_string_map (@range_string) 128 (UserDefinedType_Encode range_methods) m)
    (read_string_map 128 (non_null_union DecodeUserDefinedType)) (m, true).
Proof.
  intros Hm. apply (string_map_codec SUnion 128 UserDefinedType_ok _ _ m Hm); [done|done|done|].
  intros t Ht. by apply code_non_null, UserDefinedType_codec.
Qed.
Lemma RuntimeTypeInfo_codec t :
  RuntimeTypeInfo_ok t ->
  object 0 (RuntimeTypeInfo_Encode range_methods (@range_string) t) RuntimeTypeInfo_Decode t.
Proof.
  destruct t as [services types]. intros [Hs Ht].
  pose proof (string_pointers_codec string_ok _ _ _ Hs object_string). pose proof (types_codec _ Ht). codec_struct.
Qed.
Lemma FidlFileGraph_codec g :
  FidlFileGraph_ok g -> object 0 (FidlFileGraph_Encode range_methods (@range_string) g) FidlFileGraph_Decode g.
Proof.
  destruct g as [files types constants]. intros (Hf&Ht&Hc).
  pose proof (string_pointers_codec FidlFile_ok _ _ _ Hf FidlFile_codec). pose proof (types_codec _ Ht).
  pose proof (string_pointers_codec DeclaredConstant_ok _ _ _ Hc DeclaredConstant_codec). codec_struct.
Qed.
End Graphs.
