(* ===== verification/SerializeSpec.v ===== *)
(** * What serialization promises

    That the file graph is read back from the bytes, which CodecObjects and
    FidlCodecSpec prepare, and that the bytes do not depend on the orders of the
    loops over maps, since a deterministic encoder sorts the keys.  For the latter,
    [keeps_flag] says of a writer that it leaves the flag as it is, and [same] that two
    writers agree where the flag is set. *)
From Stdlib Require Import Ascii String FunctionalExtensionality.
From stdpp Require Import sorting.
From S2P Require Export Serialize FidlCodecSpec.
From S2P Require Import FidlDecode ParseDriverSpec.
From S2P Require Import Wire Encoder.
From S2P Require Decoder.

(** ** The flag is kept *)
Definition keeps_flag {A} (m : EM A) : Prop := forall e, deterministic (m e).1 = deterministic e.
Definition same {A} (m m' : EM A) : Prop := forall e, deterministic e = true -> m e = m' e.

Lemma flag_ret {A} (a : A) : keeps_flag (ret a).
Proof. by intros e. Qed.
Lemma flag_bind {A B} (m : EM A) (k : A -> EM B) : keeps_flag m -> (forall a, keeps_flag (k a)) -> keeps_flag (bind m k).
Proof.
  intros Hm Hk e. unfold bind. specialize (Hm e). destruct (m e) as [e' [a|x|]]; simpl in *; [|done..].
  by rewrite Hk.
Qed.
Lemma flag_throw {A} x : keeps_flag (throw x : EM A).
Proof. by intros e. Qed.
Lemma flag_must {A} (o : option A) : keeps_flag (must o).
Proof. intros e. unfold must. by destruct o. Qed.
Lemma flag_get : keeps_flag get.
Proof. by intros e. Qed.
Lemma flag_get_state : keeps_flag get_state.
Proof. intros e. unfold get_state, must. by destruct (state e). Qed.
Lemma flag_with_state f : keeps_flag (with_state f).
Proof. intros e. unfold with_state. by destruct (stateStack e). Qed.
Lemma flag_ensure n : keeps_flag (ensure n).
Proof. by intros e. Qed.
Lemma flag_put_uint n off v : keeps_flag (put_uint n off v).
Proof. intros e. unfold put_uint. by destruct (PutUint _ _ _ _). Qed.
Lemma flag_put_byte off v : keeps_flag (put_byte off v).
Proof. intros e. unfold put_byte. by destruct (store _ _ _). Qed.
Lemma flag_claimData n : keeps_flag (claimData n).
Proof. intros e. unfold claimData, modify. cbv zeta. simpl. by destruct (_ <? _). Qed.
Lemma flag_push s : keeps_flag (modify (fun e => set_stack (s e :: stateStack e) e)).
Proof. by intros e. Qed.
Lemma flag_Finish : keeps_flag Finish.
Proof. intros e. unfold Finish. destruct (state e); [|done]. destruct (_ && _); [done|]. unfold popState, modify. by destruct (negb _). Qed.
Lemma flag_ignore m : keeps_flag m -> keeps_flag (ignore m).
Proof. intros Hm e. specialize (Hm e). unfold ignore. by destruct (m e) as [e' [a|x|]]. Qed.

Create HintDb flag discriminated.
#[export] Hint Resolve flag_ret flag_bind flag_throw flag_must flag_get flag_get_state flag_with_state flag_ensure
  flag_put_uint flag_put_byte flag_claimData flag_push flag_Finish flag_ignore : flag.
#[export] Hint Constants Opaque : flag.
Ltac keep := intros; auto 200 with flag.

Lemma flag_pushState h c : keeps_flag (pushState h c).
Proof. unfold pushState. keep. Qed.
Lemma flag_writeDataHeader h : keeps_flag (writeDataHeader h).
Proof. unfold writeDataHeader. keep. Qed.
#[export] Hint Resolve flag_pushState flag_writeDataHeader : flag.
Lemma flag_StartStruct n v : keeps_flag (StartStruct n v).
Proof. unfold StartStruct. keep. Qed.
Lemma flag_StartArray n w : keeps_flag (StartArray n w).
Proof. unfold StartArray. keep. Qed.
Lemma flag_StartMap : keeps_flag StartMap.
Proof. unfold StartMap. keep. Qed.
Lemma flag_StartNestedUnion : keeps_flag StartNestedUnion.
Proof. unfold StartNestedUnion. keep. Qed.
Lemma flag_WriteUnionHeader tag : keeps_flag (WriteUnionHeader tag).
Proof. unfold WriteUnionHeader. keep. Qed.
Lemma flag_FinishWritingUnionValue : keeps_flag FinishWritingUnionValue.
Proof. unfold FinishWritingUnionValue. keep. Qed.
Lemma flag_WriteBool v : keeps_flag (WriteBool v).
Proof. unfold WriteBool. destruct v; keep. Qed.
Lemma flag_WriteUint8 v : keeps_flag (WriteUint8 v).
Proof. unfold WriteUint8. keep. Qed.
Lemma flag_WriteUint16 v : keeps_flag (WriteUint16 v).
Proof. unfold WriteUint16. keep. Qed.
Lemma flag_WriteUint32 v : keeps_flag (WriteUint32 v).
Proof. unfold WriteUint32. keep. Qed.
Lemma flag_WriteUint64 v : keeps_flag (WriteUint64 v).
Proof. unfold WriteUint64. keep. Qed.
#[export] Hint Resolve flag_StartStruct flag_StartArray flag_StartMap flag_StartNestedUnion flag_WriteUnionHeader
  flag_FinishWritingUnionValue flag_WriteBool flag_WriteUint8 flag_WriteUint16 flag_WriteUint32 flag_WriteUint64 : flag.
Lemma flag_WriteInt8 v : keeps_flag (WriteInt8 v).
Proof. apply flag_WriteUint8. Qed.
Lemma flag_WriteInt32 v : keeps_flag (WriteInt32 v).
Proof. apply flag_WriteUint32. Qed.
Lemma flag_WriteNullPointer : keeps_flag WriteNullPointer.
Proof. apply flag_WriteUint64. Qed.
Lemma flag_WriteNullUnion : keeps_flag WriteNullUnion.
Proof. unfold WriteNullUnion. keep. Qed.
Lemma flag_WritePointer : keeps_flag WritePointer.
Proof. unfold WritePointer. keep. Qed.
Lemma flag_write_bytes bs : keeps_flag (write_bytes bs).
Proof. induction bs; simpl; keep. Qed.
#[export] Hint Resolve flag_WriteInt8 flag_WriteInt32 flag_WriteNullPointer flag_WriteNullUnion flag_WritePointer
  flag_write_bytes : flag.

(** The pieces of the template. *)
Lemma flag_string s : keeps_flag (write_string s).
Proof. unfold write_string, WriteString. keep. Qed.
Lemma flag_pointer {A} (w : A -> EM unit) a : (forall a, keeps_flag (w a)) -> keeps_flag (write_pointer w a).
Proof. unfold write_pointer. keep. Qed.
Lemma flag_optional {A} (w : A -> EM unit) o : (forall a, keeps_flag (w a)) -> keeps_flag (write_optional w o).
Proof. unfold write_optional. destruct o; keep. Qed.
Lemma flag_nullable_union {A} (w : A -> EM unit) o : (forall a, keeps_flag (w a)) -> keeps_flag (write_nullable_union w o).
Proof. unfold write_nullable_union. destruct o; keep. Qed.
Lemma flag_each {A} (w : A -> EM unit) l : (forall a, keeps_flag (w a)) -> keeps_flag (write_each w l).
Proof. intros. induction l; simpl; keep. Qed.
#[export] Hint Resolve flag_string flag_pointer flag_optional flag_nullable_union flag_each : flag.
Lemma flag_array {A} n (w : A -> EM unit) l : (forall a, keeps_flag (w a)) -> keeps_flag (write_array n w l).
Proof. unfold write_array. keep. Qed.
#[export] Hint Resolve flag_array : flag.
Lemma flag_pointers {A} (w : A -> EM unit) l : (forall a, keeps_flag (w a)) -> keeps_flag (write_pointers w l).
Proof. unfold write_pointers. keep. Qed.
#[export] Hint Resolve flag_pointers : flag.
Lemma flag_strings l : keeps_flag (write_strings l).
Proof. unfold write_strings. keep. Qed.
Lemma flag_map {K A} `{Countable K} range sort n wk k (wv : A -> EM unit) (m : gmap K A) :
  (forall k, keeps_flag (wk k)) -> (forall a, keeps_flag (wv a)) -> keeps_flag (write_map range sort n wk k wv m).
Proof. intros. unfold write_map. apply flag_bind; [keep|]. intros _. apply flag_bind; keep. Qed.
Lemma flag_union tag w : keeps_flag w -> keeps_flag (write_union tag w).
Proof. unfold write_union. keep. Qed.
Lemma flag_nested w : keeps_flag w -> keeps_flag (write_nested_union w).
Proof. unfold write_nested_union. keep. Qed.
Lemma flag_unknown {A} s : keeps_flag (unknown_union s : EM A).
Proof. apply flag_throw. Qed.
#[export] Hint Resolve flag_strings flag_map flag_union flag_nested flag_unknown : flag.

(** The methods. *)
Lemma flag_TypeReference r : keeps_flag (TypeReference_Encode r).
Proof. unfold TypeReference_Encode. keep. Qed.
#[export] Hint Resolve flag_TypeReference : flag.
Lemma flag_Type t : keeps_flag (Type_Encode t).
Proof.
  induction t; cbn [Type_Encode]; apply flag_union || apply flag_unknown;
    unfold StringType_Encode, ArrayType_Encode, MapType_Encode, HandleType_Encode; keep.
Qed.
Lemma flag_LiteralValue v : keeps_flag (LiteralValue_Encode v).
Proof. destruct v; apply flag_union || apply flag_unknown; keep; apply flag_WriteUint16 || apply flag_WriteUint32 || apply flag_WriteUint64. Qed.
#[export] Hint Resolve flag_Type flag_LiteralValue : flag.
Lemma flag_Value v : keeps_flag (Value_Encode v).
Proof.
  destruct v; apply flag_union || apply flag_unknown; unfold ConstantReference_Encode, EnumValueReference_Encode; keep.
Qed.
#[export] Hint Resolve flag_Value : flag.
Lemma flag_DefaultFieldValue v : keeps_flag (DefaultFieldValue_Encode v).
Proof. destruct v; apply flag_union || apply flag_unknown; unfold DefaultKeyword_Encode; keep. Qed.
Lemma flag_Attribute a : keeps_flag (Attribute_Encode a).
Proof. unfold Attribute_Encode. keep. Qed.
Lemma flag_SourceFileInfo i : keeps_flag (SourceFileInfo_Encode i).
Proof. unfold SourceFileInfo_Encode. keep. Qed.
Lemma flag_ContainedDeclarations c : keeps_flag (ContainedDeclarations_Encode c).
Proof. unfold ContainedDeclarations_Encode. keep. Qed.
Lemma flag_Comments : forall c, keeps_flag (Comments_Encode c).
Proof. fix IH 1. intros [[c|] a l r b]; cbn [Comments_Encode]; keep. Qed.
#[export] Hint Resolve flag_DefaultFieldValue flag_Attribute flag_SourceFileInfo flag_ContainedDeclarations
  flag_Comments : flag.
Lemma flag_DeclarationData d : keeps_flag (DeclarationData_Encode d).
Proof. unfold DeclarationData_Encode. keep. Qed.
#[export] Hint Resolve flag_DeclarationData : flag.
Lemma flag_StructField f : keeps_flag (StructField_Encode f).
Proof. unfold StructField_Encode. keep. Qed.
Lemma flag_StructVersion v : keeps_flag (StructVersion_Encode v).
Proof. unfold StructVersion_Encode. keep. Qed.
#[export] Hint Resolve flag_StructField flag_StructVersion : flag.
Lemma flag_FidlStruct s : keeps_flag (FidlStruct_Encode s).
Proof. unfold FidlStruct_Encode. keep. Qed.
Lemma flag_UnionField f : keeps_flag (UnionField_Encode f).
Proof. unfold UnionField_Encode. keep. Qed.
Lemma flag_EnumValue v : keeps_flag (EnumValue_Encode v).
Proof. unfold EnumValue_Encode. keep. Qed.
#[export] Hint Resolve flag_FidlStruct flag_UnionField flag_EnumValue : flag.
Lemma flag_FidlMethod m : keeps_flag (FidlMethod_Encode m).
Proof. unfold FidlMethod_Encode. keep. Qed.
Lemma flag_FidlEnum e : keeps_flag (FidlEnum_Encode e).
Proof. unfold FidlEnum_Encode. keep. Qed.
Lemma flag_FidlUnion u : keeps_flag (FidlUnion_Encode u).
Proof. unfold FidlUnion_Encode. keep. Qed.
#[export] Hint Resolve flag_FidlMethod flag_FidlEnum flag_FidlUnion : flag.
Lemma flag_FidlInterface rm i : keeps_flag (FidlInterface_Encode rm i).
Proof. unfold FidlInterface_Encode. keep. Qed.
#[export] Hint Resolve flag_FidlInterface : flag.
Lemma flag_UserDefinedType rm t : keeps_flag (UserDefinedType_Encode rm t).
Proof. destruct t; apply flag_union || apply flag_unknown; keep. Qed.
Lemma flag_DeclaredConstant c : keeps_flag (DeclaredConstant_Encode c).
Proof. unfold DeclaredConstant_Encode. keep. Qed.
Lemma flag_KeysByType k : keeps_flag (KeysByType_Encode k).
Proof. unfold KeysByType_Encode. keep. Qed.
#[export] Hint Resolve flag_UserDefinedType flag_DeclaredConstant flag_KeysByType : flag.
Lemma flag_FidlFile f : keeps_flag (FidlFile_Encode f).
Proof. unfold FidlFile_Encode. keep. Qed.
#[export] Hint Resolve flag_FidlFile : flag.
Lemma flag_string_map {A} rs n (w : A -> EM unit) m : (forall a, keeps_flag (w a)) -> keeps_flag (write_string_map rs n w m).
Proof. unfold write_string_map. keep. Qed.
#[export] Hint Resolve flag_string_map : flag.

(** ** Sorted keys *)
Lemma string_le_cons c s d t :
  string_le (String c s) (String d t) <->
  (N_of_ascii c < N_of_ascii d)%N \/ c = d /\ string_le s t.
Proof.
  unfold string_le, String.leb. cbn [String.compare]. unfold Ascii.compare.
  destruct (N.compare_spec (N_of_ascii c) (N_of_ascii d)) as [Heq|Hlt|Hgt].
  - assert (c = d) as <- by (rewrite <- (ascii_N_embedding c), <- (ascii_N_embedding d); by f_equal).
    split; [by right|]. intros [?|[_ ?]]; [lia|done].
  - split; [by left|done].
  - split; [done|]. intros [?|[-> _]]; lia.
Qed.
#[export] Instance string_le_trans : Transitive string_le.
Proof.
  intros s. induction s as [|c s IH]; intros [|d t] [|f u]; try done.
  rewrite !string_le_cons. intros [?|[-> ?]] [?|[-> ?]]; [left; lia|by left|by left|]. right. split; [done|]. by eapply IH.
Qed.
#[export] Instance string_le_total : Total string_le.
Proof. intros s t. apply String.leb_total. Qed.
#[export] Instance string_le_antisymm : AntiSymm eq string_le.
Proof. intros s t. apply String.leb_antisym. Qed.
Lemma sort_perm {A} (R : relation A) `{forall x y, Decision (R x y)} `{!Transitive R} `{!Total R} `{!AntiSymm eq R} l l' :
  l ≡ₚ l' -> merge_sort R l = merge_sort R l'.
Proof.
  intros Hl. apply (StronglySorted_unique R); [by apply StronglySorted_merge_sort..|].
  by rewrite !merge_sort_Permutation.
Qed.

(** ** The order does not matter *)
Lemma same_refl {A} (m : EM A) : same m m.
Proof. by intros e. Qed.
Lemma same_bind {A B} (m m' : EM A) (k k' : A -> EM B) :
  same m m' -> keeps_flag m -> (forall a, same (k a) (k' a)) -> same (bind m k) (bind m' k').
Proof.
  intros Hm Hkeep Hk e He. unfold bind. rewrite <- (Hm e He). specialize (Hkeep e).
  destruct (m e) as [e' [a|x|]]; simpl in *; [|done..]. apply Hk. by rewrite Hkeep.
Qed.
Lemma same_ignore m m' : same m m' -> same (ignore m) (ignore m').
Proof. intros H e He. unfold ignore. by rewrite H. Qed.
Lemma same_optional {A} (w w' : A -> EM unit) o :
  (forall a, same (w a) (w' a)) -> same (write_optional w o) (write_optional w' o).
Proof. destruct o; simpl; intros; [apply same_bind; [apply same_refl|keep|done]|apply same_refl]. Qed.
Lemma same_pointer {A} (w w' : A -> EM unit) a : same (w a) (w' a) -> same (write_pointer w a) (write_pointer w' a).
Proof. intros. apply same_bind; [apply same_refl|keep|done]. Qed.
Lemma same_each {A} (w w' : A -> EM unit) l :
  (forall a, same (w a) (w' a)) -> (forall a, keeps_flag (w a)) -> same (write_each w l) (write_each w' l).
Proof. intros. induction l; simpl; [apply same_refl|]. by apply same_bind. Qed.
Lemma same_array {A} n (w w' : A -> EM unit) l :
  (forall a, same (w a) (w' a)) -> (forall a, keeps_flag (w a)) -> same (write_array n w l) (write_array n w' l).
Proof.
  intros. apply same_bind; [apply same_refl|keep|]. intros _.
  apply same_bind; [by apply same_each|keep|]. intros _. apply same_refl.
Qed.
Lemma same_map {K A} `{Countable K} range range' sort n wk k (wv wv' : A -> EM unit) (m : gmap K A) :
  sort (range m) = sort (range' m) -> (forall k, keeps_flag (wk k)) -> (forall a, keeps_flag (wv a)) -> (forall a, same (wv a) (wv' a)) ->
  same (write_map range sort n wk k wv m) (write_map range' sort n wk k wv' m).
Proof.
  intros Hsort Hwk Hwv Hsame. apply same_bind; [apply same_refl|keep|]. intros _ e He.
  erewrite bind_run_ok by done. erewrite (bind_run_ok get) by done.
  unfold Deterministic. rewrite He, <- Hsort. revert e He.
  apply same_bind; [apply same_refl|keep|]. intros _. apply same_bind; [apply same_refl|keep|]. intros _.
  apply same_bind; [apply same_refl|keep|]. intros _. apply same_bind; [by apply same_array|keep|]. intros _. apply same_refl.
Qed.

Section Orders.
Context (rm rm' : gmap Z FidlMethod -> list Z).
Context (rs rs' : forall A, gmap string A -> list string).
Context (Hrm : forall m, rm m ≡ₚ rm' m) (Hrs : forall A (m : gmap string A), rs A m ≡ₚ rs' A m).

Lemma same_FidlInterface i : same (FidlInterface_Encode rm i) (FidlInterface_Encode rm' i).
Proof.
  unfold FidlInterface_Encode.
  do 3 (apply same_bind; [apply same_refl|keep|intros _]).
  apply same_bind; [|keep|intros _; apply same_refl].
  apply same_pointer, same_map; [|keep|keep|intros; apply same_refl]. by apply (sort_perm Z.le).
Qed.
Lemma same_UserDefinedType t : same (UserDefinedType_Encode rm t) (UserDefinedType_Encode rm' t).
Proof.
  destruct t; try apply same_refl. simpl. apply same_bind; [apply same_refl|keep|]. intros _.
  apply same_bind; [|keep|intros _; apply same_refl]. apply (same_pointer (FidlInterface_Encode rm) (FidlInterface_Encode rm')), same_FidlInterface.
Qed.
Lemma same_string_map {A} n (w w' : A -> EM unit) m :
  (forall a, same (w a) (w' a)) -> (forall a, keeps_flag (w a)) -> same (write_string_map rs n w m) (write_string_map rs' n w' m).
Proof.
  intros Hw Hkeep. unfold write_string_map.
  apply (same_map (rs A) (rs' A) sort_strings); [apply (sort_perm string_le), Hrs|keep|exact Hkeep|exact Hw].
Qed.
Lemma same_RuntimeTypeInfo t : same (RuntimeTypeInfo_Encode rm rs t) (RuntimeTypeInfo_Encode rm' rs' t).
Proof.
  unfold RuntimeTypeInfo_Encode. apply same_bind; [apply same_refl|keep|intros _].
  apply same_bind; [apply same_pointer, same_string_map; [intros; apply same_refl|keep]|keep|intros _].
  apply same_bind; [apply same_pointer, same_string_map; [apply same_UserDefinedType|keep]|keep|intros _].
  apply same_refl.
Qed.
Lemma same_FidlFileGraph g : same (FidlFileGraph_Encode rm rs g) (FidlFileGraph_Encode rm' rs' g).
Proof.
  unfold FidlFileGraph_Encode. apply same_bind; [apply same_refl|keep|intros _].
  apply same_bind; [apply same_pointer, same_string_map; [intros; apply same_refl|keep]|keep|intros _].
  apply same_bind; [apply same_pointer, same_string_map; [apply same_UserDefinedType|keep]|keep|intros _].
  apply same_bind; [apply same_pointer, same_string_map; [intros; apply same_refl|keep]|keep|intros _].
  apply same_refl.
Qed.
Lemma encode_value_same m m' : same m m' -> encode_value m = encode_value m'.
Proof.
  intros H. unfold encode_value. f_equal. unfold SetDeterministic, bind, modify. unfold ignore.
  by rewrite (H (mkEncoder _ _ _ _ true)).
Qed.
End Orders.

(** ** Theorems *)

(** A loop over a map comes to every key once. *)
Definition visits_keys {K A} `{Countable K} (range : gmap K A -> list K) : Prop :=
  forall m, range m ≡ₚ (map_to_list m).*1.

Lemma encode_value_object {A} w (r : M Decoder.Decoder error A) a :
  object 0 w r a ->
  exists bytes, encode_value w = Ok (bytes, []) /\
    (len bytes < 2 ^ 63 -> exists d, r (Decoder.NewDecoder bytes []) = (d, Ok a)).
Proof.
  intros H. destruct (object_message w r a true H) as (e' & Hrun & bytes & Hdata & _ & Hread).
  exists bytes. split; [|done]. unfold encode_value, bind, SetDeterministic, modify, ignore. simpl.
  by rewrite Hrun, Hdata.
Qed.

(** The bytes that [serialize] returns are read back as the graph it made of the
    descriptor. *)
Lemma serialize_readable rm rs gzip base64 lines packing info attributes g graph :
  visits_keys rm -> (forall A, visits_keys (rs A)) ->
  translateDescriptor g lines packing info (serialized_type_info rm rs gzip base64) attributes = Some graph ->
  FidlFileGraph_ok graph ->
  exists bytes, serialize rm rs gzip base64 lines packing info attributes g = Ok bytes /\
    (len bytes < 2 ^ 63 -> exists d, FidlFileGraph_Decode (Decoder.NewDecoder bytes []) = (d, Ok graph)).
Proof.
  intros Hrm Hrs Ht Hg.
  destruct (encode_value_object _ _ _ (FidlFileGraph_codec rm rs Hrm Hrs graph Hg)) as (bytes & Henc & Hdec).
  exists bytes. split; [|done]. unfold serialize. by rewrite Ht, Henc.
Qed.

(** C1: a file graph whose strings and collections fit the 32-bit sizes of their
    headers, whose numbers are in the ranges of their Go types and which has no
    unknown variant is encoded without an error, and decoding the bytes gives
    exactly the graph back, in whatever orders the loops over maps run. *)
Theorem FidlFileGraph_roundtrip rm rs graph :
  visits_keys rm -> (forall A, visits_keys (rs A)) -> FidlFileGraph_ok graph ->
  exists bytes, encode_value (FidlFileGraph_Encode rm rs graph) = Ok (bytes, []) /\
    (len bytes < 2 ^ 63 -> exists d, FidlFileGraph_Decode (Decoder.NewDecoder bytes []) = (d, Ok graph)).
Proof. intros Hrm Hrs Hg. by apply encode_value_object, FidlFileGraph_codec. Qed.

(** C9: what [serialize] returns is a function of the descriptor: the bytes, or the
    error, are the same in whatever orders the loops over maps run, in the graph
    and in the compressed type information inside it. *)
Theorem serialize_deterministic rm rm' rs rs' gzip base64 lines packing info attributes g :
  visits_keys rm -> visits_keys rm' -> (forall A, visits_keys (rs A)) -> (forall A, visits_keys (rs' A)) ->
  serialize rm rs gzip base64 lines packing info attributes g =
  serialize rm' rs' gzip base64 lines packing info attributes g.
Proof.
  intros Hrm Hrm' Hrs Hrs'. unfold serialize.
  assert (forall m, rm m ≡ₚ rm' m) as Hm by (intros m; by rewrite Hrm, Hrm').
  assert (forall A (m : gmap string A), rs A m ≡ₚ rs' A m) as Hs by (intros A m; by rewrite (Hrs A), (Hrs' A)).
  assert (serialized_type_info rm rs gzip base64 = serialized_type_info rm' rs' gzip base64) as ->.
  { apply functional_extensionality. intros t. unfold serialized_type_info.
    by rewrite (encode_value_same _ _ (same_RuntimeTypeInfo rm rm' rs rs' Hm Hs t)). }
  destruct (translateDescriptor _ _ _ _ _ _) as [graph|]; [|done].
  by rewrite (encode_value_same _ _ (same_FidlFileGraph rm rm' rs rs' Hm Hs graph)).
Qed.

(** ** A file that is compiled, serialized and read back *)
Definition sample_source : list Z := source
  ("module m; enum E {A, B = 7}; const int8 c = -3; " +:+
   "struct S { bool b; int32 x; array<E> e; S? next; string s = 'hi'; map<string, handle<channel>> h; }; " +:+
   "union U { int8 a; double d; }; [ServiceName='svc'] interface I { M@0(int32 a) => (bool b); };").
Definition sample_os : OS :=
  {| Stat p := if bool_decide (p ∈ ["/w/a.fidl"; "a.fidl"]) then Some false else None;
     ReadFile p := if bool_decide (p = "/w/a.fidl") then Some sample_source else None; Getwd := Some "/w" |}.
#[local] Instance sample_provider : FileProvider := OSFileProvider (H := sample_os) [].
#[local] Instance sample_parser : ParseInvoker := DefaultParseInvoker 200.
Definition sample_compiled : res CompileError Program :=
  ParseFiles false type_addresses type_addresses (fun _ => [0%nat]) (fun _ => base.elements) 10 100 ["a.fidl"].
Definition sample_program : Program :=
  match sample_compiled with Ok g => g | _ => read_program empty_heap end.
(** Two orders for the loops over maps. *)
Definition keys_forward {K A} `{Countable K} (m : gmap K A) : list K := (map_to_list m).*1.
Definition keys_backward {K A} `{Countable K} (m : gmap K A) : list K := reverse (map_to_list m).*1.
Lemma forward_visits {K A} `{Countable K} : visits_keys (@keys_forward K A _ _).
Proof. by intros m. Qed.
Lemma backward_visits {K A} `{Countable K} : visits_keys (@keys_backward K A _ _).
Proof. intros m. apply reverse_Permutation. Qed.
Definition sample_serialize (lines packing info : bool) : res error (list Z) :=
  serialize keys_forward (fun _ => keys_forward) (fun bs => bs) (fun bs => "") lines packing info (fun _ => None) sample_program.
Definition sample_graph : FidlFileGraph :=
  match translateDescriptor sample_program true true true (fun _ => Some "") (fun _ => None) with
  | Some graph => graph
  | None => mkFidlFileGraph ∅ ∅ ∅
  end.
Example sample_compiles : match sample_compiled with Ok _ => true | _ => false end = true.
Proof. by vm_compute. Qed.

Lemma FidlFileGraph_roundtrip_witness :
  size (ResolvedTypes sample_graph) = 4%nat /\
  exists bytes, encode_value (FidlFileGraph_Encode keys_backward (fun _ => keys_backward) sample_graph) = Ok (bytes, []) /\
    exists d, FidlFileGraph_Decode (Decoder.NewDecoder bytes []) = (d, Ok sample_graph).
Proof.
  split; [by vm_compute|].
  destruct (FidlFileGraph_roundtrip keys_backward (fun _ => keys_backward) sample_graph backward_visits
    (fun _ => backward_visits)) as (bytes & Henc & Hdec).
  - apply (bool_decide_eq_true_1 (FidlFileGraph_ok sample_graph)). by vm_compute.
  - exists bytes. split; [exact Henc|]. apply Hdec. clear Hdec.
    assert (match encode_value (FidlFileGraph_Encode keys_backward (fun _ => keys_backward) sample_graph) with
      | Ok (bs, _) => bool_decide (len bs < 2 ^ 63) | _ => true end = true) as Hlen by by vm_compute.
    rewrite Henc in Hlen. by apply bool_decide_eq_true_1 in Hlen.
Defined.
Lemma serialize_deterministic_witness :
  match sample_serialize true true true with Ok bs => len bs | _ => 0 end = 5400 /\
  sample_serialize true true true =
  serialize keys_backward (fun _ => keys_backward) (fun bs => bs) (fun bs => "") true true true (fun _ => None) sample_program.
Proof.
  split; [by vm_compute|].
  exact (serialize_deterministic keys_forward keys_backward (fun _ => keys_forward) (fun _ => keys_backward)
    (fun bs => bs) (fun bs => "") true true true (fun _ => None) sample_program
    forward_visits backward_visits (fun _ => forward_visits) (fun _ => backward_visits)).
Defined.
