(* ===== verification/FidlDecodeSpec.v ===== *)
(** * What decoding returns is well-formed

    [yields P m]: from a buffer of bytes, which it leaves as it is, whatever [m]
    returns satisfies [P].  The pieces of the template and the Decode methods yield
    well-formed values whatever the bytes are, the struct that an unfinished array
    or map returns early included.  At the end, bytes that make Decode panic. *)
From Stdlib Require Import Ascii String.
From S2P Require Export FidlWellFormed FidlDecode.
From S2P Require Import FidlEncode CodecSlots FidlCodecSpec SerializeSpec.
From S2P Require Import Wire Decoder.

Definition yields {A} (P : A -> Prop) (m : DM A) : Prop :=
  forall d, Forall is_byte (buf d) -> buf (m d).1 = buf d /\ forall a, (m d).2 = Ok a -> P a.

Lemma yields_ret {A} (P : A -> Prop) a : P a -> yields P (ret a).
Proof. intros Ha d _. split; [done|]. by intros a' [= <-]. Qed.
Lemma yields_throw {A} (P : A -> Prop) x : yields P (throw x).
Proof. by intros d _. Qed.
Lemma yields_panic {A} (P : A -> Prop) : yields P panic.
Proof. by intros d _. Qed.
Lemma yields_bind {A B} (P : A -> Prop) (Q : B -> Prop) m k :
  yields P m -> (forall a, P a -> yields Q (k a)) -> yields Q (bind m k).
Proof.
  intros Hm Hk d Hd. destruct (Hm d Hd) as [Hb Ha]. unfold bind. destruct (m d) as [d' [a|x|]]; simpl in *; [|done..].
  rewrite <- Hb in *. apply Hk; [by apply Ha|done].
Qed.
Lemma yields_weaken {A} (P Q : A -> Prop) m : (forall a, P a -> Q a) -> yields P m -> yields Q m.
Proof. intros H Hm d Hd. destruct (Hm d Hd) as [Hb Ha]. split; [done|]. intros a E. by apply H, Ha. Qed.
Lemma yields_get : yields (fun _ => True) get.
Proof. by intros d _. Qed.
Lemma yields_must {A} (o : option A) : yields (fun a => o = Some a) (must o).
Proof. intros d _. unfold must. destruct o; split; try done. by intros a' [= <-]. Qed.
Lemma yields_get_state : yields (fun _ => True) get_state.
Proof. intros d _. unfold get_state, must. by destruct (state d). Qed.
Lemma yields_with_state f : yields (fun _ => True) (with_state f).
Proof. intros d _. unfold with_state. by destruct (stateStack d). Qed.
Lemma yields_ensure n : yields (fun _ => True) (ensure n).
Proof. by intros d _. Qed.
Lemma yields_get_uint n off : yields (fun v => 0 <= v < 2 ^ (8 * Z.of_nat n)) (get_uint n off).
Proof.
  intros d Hd. unfold get_uint, must. destruct (GetUint n (buf d) off) as [v|] eqn:E; [|done].
  split; [done|]. intros v' [= <-]. by eapply GetUint_range.
Qed.
Lemma yields_claimData n : yields (fun _ => True) (claimData n).
Proof. intros d _. unfold claimData. by destruct (_ <? _). Qed.
Lemma yields_push s : yields (fun _ => True) (modify (fun d => set_stack (s d :: stateStack d) d)).
Proof. by intros d _. Qed.
Lemma Finish_buf d : buf (Finish d).1 = buf d.
Proof. unfold Finish. destruct (state d); [|done]. destruct (_ && _); [done|]. unfold popState, modify. by destruct (negb _). Qed.
Lemma yields_Finish : yields (fun _ => True) Finish.
Proof. intros d _. split; [apply Finish_buf|done]. Qed.
Lemma yields_finishes : yields (fun _ => True) finishes.
Proof. intros d _. pose proof (Finish_buf d) as H. unfold finishes. by destruct (Finish d) as [d' [a|x|]]. Qed.
Create HintDb yields discriminated.
#[export] Hint Constants Opaque : yields.
#[export] Hint Resolve yields_throw yields_panic yields_get yields_must yields_get_state yields_with_state yields_ensure
  yields_get_uint yields_claimData yields_push yields_Finish yields_finishes : yields.
(** Step by step, with what is known of the values so far. *)
Ltac yields :=
  repeat lazymatch goal with
  | |- yields _ (bind _ _) => eapply yields_bind; [solve [eauto with yields]|intros]
  | |- yields _ (ret _) => apply yields_ret
  | |- yields _ (throw _) => apply yields_throw
  | |- yields _ (if ?b then _ else _) => destruct b eqn:?
  end.

Lemma yields_pushState h c : yields (fun _ => True) (pushState h c).
Proof. unfold pushState. yields. apply yields_push. Qed.
Lemma yields_readDataHeader : yields (fun h => 0 <= Size h < 2 ^ 32 /\ 0 <= ElementsOrVersion h < 2 ^ 32) readDataHeader.
Proof. unfold readDataHeader. yields. done. Qed.
#[export] Hint Resolve yields_pushState yields_readDataHeader : yields.
Lemma yields_StartStruct : yields (fun _ => True) StartStruct.
Proof. unfold StartStruct. yields. done. Qed.
Lemma yields_StartMap : yields (fun _ => True) StartMap.
Proof. unfold StartMap. yields. apply yields_pushState. Qed.
Lemma yields_StartNestedUnion : yields (fun _ => True) StartNestedUnion.
Proof. apply yields_pushState. Qed.
(** The elements, of [w] bytes each, fit the size in the header. *)
Lemma yields_StartArray w :
  0 <= w < 2 ^ 20 -> yields (fun n => 0 <= n < 2 ^ 32 /\ 8 + w * n < 2 ^ 32) (StartArray (8 * w)).
Proof.
  intros Hw. unfold StartArray. yields. destruct H as [Hs He].
  set (n := ElementsOrVersion a) in *. apply Z.ltb_ge in Heqb. unfold dataHeaderSize in Heqb.
  assert (0 <= n * (8 * w) < 2 ^ 64 - 7) by (change (2 ^ 20) with 1048576 in Hw; nia).
  rewrite u64_small, bytesForBits_small in Heqb by lia.
  replace ((n * (8 * w) + 7) / 8) with (n * w) in Heqb by (apply (Z.div_unique_pos _ _ _ 7); lia).
  rewrite (Z.mul_comm w). fold n. lia.
Qed.
#[export] Hint Resolve yields_StartStruct yields_StartMap yields_StartNestedUnion : yields.
Lemma yields_ReadBool : yields (fun _ => True) ReadBool.
Proof. unfold ReadBool. yields. done. Qed.
Lemma yields_read_word n : yields (fun v => 0 <= v < 2 ^ (8 * Z.of_nat (Z.to_nat n))) (read_word n).
Proof. unfold read_word. yields. done. Qed.
Lemma yields_ReadUint8 : yields (uint_ok 8) ReadUint8.
Proof. intros d Hd. rewrite ReadUint8_word. exact (yields_read_word 1 d Hd). Qed.
Lemma yields_ReadUint16 : yields (uint_ok 16) ReadUint16.
Proof. exact (yields_read_word 2). Qed.
Lemma yields_ReadUint32 : yields (uint_ok 32) ReadUint32.
Proof. exact (yields_read_word 4). Qed.
Lemma yields_ReadUint64 : yields (uint_ok 64) ReadUint64.
Proof. exact (yields_read_word 8). Qed.
#[export] Hint Resolve yields_ReadBool yields_ReadUint8 yields_ReadUint16 yields_ReadUint32 yields_ReadUint64 : yields.
Lemma yields_ReadInt8 : yields (int_ok 8) ReadInt8.
Proof. unfold ReadInt8. yields. by apply (signed_range 8). Qed.
Lemma yields_ReadInt16 : yields (int_ok 16) ReadInt16.
Proof. unfold ReadInt16. yields. by apply (signed_range 16). Qed.
Lemma yields_ReadInt32 : yields (int_ok 32) ReadInt32.
Proof. unfold ReadInt32. yields. by apply (signed_range 32). Qed.
Lemma yields_ReadInt64 : yields (int_ok 64) ReadInt64.
Proof. unfold ReadInt64. yields. by apply (signed_range 64). Qed.
Lemma yields_ReadFloat32 : yields (uint_ok 32) ReadFloat32.
Proof. unfold ReadFloat32. yields. done. Qed.
Lemma yields_ReadFloat64 : yields (uint_ok 64) ReadFloat64.
Proof. unfold ReadFloat64. yields. done. Qed.
Lemma yields_ReadPointer : yields (fun _ => True) ReadPointer.
Proof.
  unfold ReadPointer. yields; [done|]. intros d0 _. cbn [fst snd]. split; [|done].
  unfold claimData. by case_match.
Qed.
Lemma yields_ReadUnionHeader : yields (fun _ => True) ReadUnionHeader.
Proof. unfold ReadUnionHeader. yields. done. Qed.
Lemma yields_FinishReadingUnionValue : yields (fun _ => True) FinishReadingUnionValue.
Proof. unfold FinishReadingUnionValue. yields. apply yields_with_state. Qed.
Lemma yields_SkipUnionValue : yields (fun _ => True) SkipUnionValue.
Proof. unfold SkipUnionValue. yields. apply yields_with_state. Qed.
#[export] Hint Resolve yields_ReadInt8 yields_ReadInt16 yields_ReadInt32 yields_ReadInt64 yields_ReadFloat32 yields_ReadFloat64
  yields_ReadPointer yields_ReadUnionHeader yields_FinishReadingUnionValue yields_SkipUnionValue : yields.

(** ** The template *)
Lemma yields_check_version l h : yields (fun _ => True) (check_version l h).
Proof. unfold check_version. by yields. Qed.
#[export] Hint Resolve yields_check_version : yields.
Lemma yields_start_versioned l : yields (fun _ => True) (start_versioned l).
Proof. unfold start_versioned. yields. apply yields_check_version. Qed.
Lemma yields_pointer {A} (P : A -> Prop) m : yields P m -> yields P (read_pointer m).
Proof. intros. unfold read_pointer. yields. done. Qed.
Lemma yields_optional {A} (P : A -> Prop) m : yields P m -> yields (option_ok P) (read_optional m).
Proof. intros. unfold read_optional. by yields. Qed.
Lemma yields_non_null {A} (P : A -> Prop) m : yields (option_ok P) m -> yields P (non_null_union m).
Proof.
  intros. unfold non_null_union. eapply yields_bind; [done|]. intros [a|] ?; [by apply yields_ret|apply yields_throw].
Qed.
Lemma yields_unless {A B} (P : A -> Prop) (Q : B -> Prop) m early k :
  yields (fun r => P r.1) m -> (forall a, P a -> Q (early a)) -> (forall a, P a -> yields Q (k a)) ->
  yields Q (unless_return m early k).
Proof.
  intros Hm He Hk. eapply yields_bind; [exact Hm|]. intros [a []] Ha; [by apply Hk|]. by apply yields_ret, He.
Qed.
Lemma yields_each {A} (P : A -> Prop) m n : yields P m -> yields (fun l => length l = n /\ Forall P l) (read_each m n).
Proof.
  intros Hm. induction n as [|n IH]; simpl; [by apply yields_ret|]. eapply yields_bind; [exact Hm|]. intros a Ha.
  eapply yields_bind; [exact IH|]. intros l [Hl Hp]. apply yields_ret. simpl. auto.
Qed.
Lemma yields_array {A} (P : A -> Prop) w m :
  0 <= w < 2 ^ 20 -> yields P m ->
  yields (fun r => 8 + w * len r.1 < 2 ^ 32 /\ Forall P r.1) (read_array (8 * w) m).
Proof.
  intros Hw Hm. unfold read_array. eapply yields_bind; [by apply yields_StartArray|]. intros n [Hn Hs].
  eapply yields_bind; [by apply yields_each|]. intros l [Hl Hp]. yields. simpl. split; [|done]. rewrite Hl. lia.
Qed.
Lemma yields_pointers {A} (P : A -> Prop) m : yields P m -> yields (fun r => list_ok P r.1) (read_pointers m).
Proof. intros Hm. apply (yields_array P 8); [lia|]. by apply yields_pointer. Qed.
Lemma yields_optional_array {A} (P : A -> Prop) m :
  yields (fun r => P r.1) m -> yields (fun r => option_ok P r.1) (read_optional_array m).
Proof.
  intros Hm. unfold read_optional_array. eapply yields_bind; [by apply yields_optional|].
  intros [[a ok]|] Ha; by apply yields_ret.
Qed.
Lemma bytes_string_length bs : length (string_bytes (bytes_string bs)) = length bs.
Proof.
  unfold string_bytes, bytes_string. rewrite length_map, list_ascii_of_string_of_list_ascii. apply length_map.
Qed.
Lemma yields_string : yields string_ok read_string.
Proof.
  unfold read_string, ReadString. eapply (yields_bind (fun bs => 8 + len bs < 2 ^ 32)).
  - eapply yields_bind; [apply (yields_StartArray 1); lia|]. intros n [Hn Hs].
    rewrite read_bytes_each. eapply yields_bind; [by eapply yields_each, yields_ReadUint8|]. intros l [Hl _].
    yields. rewrite Hl. lia.
  - intros bs Hbs. apply yields_ret. unfold string_ok. by rewrite bytes_string_length.
Qed.
Lemma foldl_map_ok {K A} `{Countable K} (P : K -> Prop) (Q : A -> Prop) keys values (m : gmap K A) :
  Forall P keys -> Forall Q values -> map_Forall (fun k a => P k /\ Q a) m ->
  map_Forall (fun k a => P k /\ Q a) (foldl (fun m kv => <[kv.1 := kv.2]> m) m (zip keys values)) /\
  (size (foldl (fun m kv => <[kv.1 := kv.2]> m) m (zip keys values)) <= size m + length values)%nat.
Proof.
  intros Hk. revert values m. induction Hk as [|k keys Hk _ IH]; intros values m Hv Hm; [split; [done|simpl; lia]|].
  destruct Hv as [|a values Ha Hv]; [split; [done|simpl; lia]|]. simpl.
  destruct (IH values (<[k := a]> m) Hv) as [Hm' Hs]; [by apply map_Forall_insert_2|]. split; [exact Hm'|].
  rewrite map_size_insert in Hs. case_match; simpl in *; lia.
Qed.
Lemma map_ok_empty {K A} `{Countable K} w (P : K -> Prop) (Q : A -> Prop) : map_ok w P Q (∅ : gmap K A).
Proof. split; [by rewrite map_size_empty, Z.mul_0_r|apply map_Forall_empty]. Qed.
Lemma yields_map {K A} `{Countable K} (P : K -> Prop) (Q : A -> Prop) wk wv rk rv :
  0 <= wk < 2 ^ 20 -> 0 <= wv < 2 ^ 20 -> yields P rk -> yields Q rv ->
  yields (fun r => map_ok wv P Q r.1) (read_map (8 * wk) rk (8 * wv) rv).
Proof.
  intros Hwk Hwv Hk Hv. unfold read_map. eapply yields_bind; [apply yields_StartMap|]. intros _ _.
  eapply (yields_unless (fun l => 8 + wk * len l < 2 ^ 32 /\ Forall P l)); [by apply yields_pointer, yields_array|intros; apply map_ok_empty|].
  intros keys [_ Hkeys].
  eapply (yields_unless (fun l => 8 + wv * len l < 2 ^ 32 /\ Forall Q l)); [by apply yields_pointer, yields_array|intros; apply map_ok_empty|].
  intros values [Hs Hvalues]. yields; [apply map_ok_empty|]. simpl.
  destruct (foldl_map_ok P Q keys values ∅ Hkeys Hvalues) as [Hm Hsize]; [apply map_Forall_empty|].
  split; [|exact Hm]. rewrite map_size_empty in Hsize. nia.
Qed.
Lemma yields_string_map {A} (Q : A -> Prop) w (rv : M Decoder error A) :
  0 <= w < 2 ^ 20 -> yields Q rv -> yields (fun r => map_ok w string_ok Q r.1) (read_string_map (8 * w) rv).
Proof. intros Hw Hv. apply (yields_map string_ok Q 8 w); [lia|done|apply yields_pointer, yields_string|done]. Qed.
Lemma yields_decode_union {A} (P : A -> Prop) d0 unknown :
  (forall tag r, d0 tag = Some r -> yields P r) -> (forall tag, P (unknown tag)) ->
  yields (option_ok P) (decode_union d0 unknown).
Proof.
  intros Hd Hu. unfold decode_union. yields; [done|]. destruct (d0 a.2) as [r|] eqn:E.
  - eapply yields_bind; [by eapply Hd|]. intros v Hv. yields. done.
  - yields. apply Hu.
Qed.
Lemma yields_nested {A} (P : A -> Prop) m : yields (option_ok P) m -> yields P (read_nested_union m).
Proof.
  intros Hm. unfold read_nested_union. yields. eapply yields_bind; [by apply yields_non_null|]. intros v Hv. yields. done.
Qed.
#[export] Hint Resolve yields_start_versioned yields_pointer yields_optional yields_non_null yields_pointers
  yields_optional_array yields_string yields_nested : yields.
Lemma yields_strings : yields (fun r => strings_ok r.1) read_strings.
Proof. apply yields_pointers, yields_string. Qed.
#[export] Hint Resolve yields_strings : yields.

(** ** The methods *)
Lemma list_ok_nil {A} (P : A -> Prop) : list_ok P [].
Proof. by split. Qed.
(** A record of well-formed parts. *)
Ltac well_formed :=
  repeat first
    [ assumption
    | exact I
    | lazymatch goal with |- list_ok _ [] => apply list_ok_nil | |- map_ok _ _ _ ∅ => apply map_ok_empty end
    | done
    | split
    | progress simpl ].
Ltac decodes :=
  repeat lazymatch goal with
  | |- yields _ (unless_return _ _ _) => eapply yields_unless; [solve [eauto with yields]|intros; well_formed|intros]
  | |- yields _ (bind _ _) => eapply yields_bind; [solve [eauto with yields]|intros]
  | |- yields _ (ret _) => apply yields_ret; well_formed
  end.
Abbreviation typed f := (f True).

Lemma SimpleType_typed z : int_ok 32 z -> SimpleType_ok (SimpleType_of z).
Proof.
  intros Hz. destruct (decide (0 <= z <= 10)) as [Hr|Hr].
  - assert (z = 0 \/ z = 1 \/ z = 2 \/ z = 3 \/ z = 4 \/ z = 5 \/ z = 6 \/ z = 7 \/ z = 8 \/ z = 9 \/ z = 10) as H by lia.
    by repeat destruct H as [->|H]; [..|subst].
  - destruct z as [|p|p]; [lia| |by split]. do 4 (destruct p as [p|p|]; try (by split); try lia).
Qed.
Lemma HandleType_Kind_typed z : int_ok 32 z -> HandleType_Kind_ok (HandleType_Kind_of z).
Proof.
  intros Hz. unfold int_ok in *. destruct z as [|p|p]; [done| |cbn; unfold int_ok; lia].
  do 4 (destruct p as [p|p|]; try (cbn; unfold int_ok; lia)).
Qed.
Lemma BuiltinConstantValue_typed z : int_ok 32 z -> BuiltinConstantValue_ok (BuiltinConstantValue_of z).
Proof.
  intros Hz. unfold int_ok in *. destruct z as [|p|p]; [done| |cbn; unfold int_ok; lia].
  do 3 (destruct p as [p|p|]; try (cbn; unfold int_ok; lia)).
Qed.
#[export] Hint Resolve SimpleType_typed HandleType_Kind_typed BuiltinConstantValue_typed : yields.

Lemma yields_StringType : yields (fun _ => True) StringType_Decode.
Proof. unfold StringType_Decode. decodes. Qed.
Lemma yields_HandleType : yields (fun h => HandleType_Kind_ok h.2) HandleType_Decode.
Proof. unfold HandleType_Decode. decodes. by apply HandleType_Kind_typed. Qed.
Lemma yields_TypeReference : yields TypeReference_ok TypeReference_Decode.
Proof. unfold TypeReference_Decode. decodes. Qed.
#[export] Hint Resolve yields_StringType yields_HandleType yields_TypeReference : yields.
Lemma yields_Type fuel : yields (option_ok (typed Type_wf)) (DecodeType fuel).
Proof.
  induction fuel as [|fuel IH]; [apply yields_panic|]. cbn [DecodeType]. apply yields_decode_union; [|done].
  intros tag r Hr. destruct tag as [|p|p]; [injection Hr as <-| |done].
  - unfold TypeSimpleType_decodeInternal. decodes. by apply SimpleType_typed.
  - destruct p as [[p|[p|p|]|]|[p|[p|p|]|]|]; try done; injection Hr as <-.
    + unfold TypeTypeReference_decodeInternal. decodes.
    + unfold TypeMapType_decodeInternal. eapply (yields_bind (fun m => typed Type_wf m.1.2 /\ typed Type_wf m.2)).
      * apply yields_pointer. unfold MapType_Decode. decodes.
      * intros m [? ?]. decodes.
    + unfold TypeHandleType_decodeInternal. decodes.
    + unfold TypeArrayType_decodeInternal. eapply (yields_bind (fun a => int_ok 32 a.1.2 /\ typed Type_wf a.2)).
      * apply yields_pointer. unfold ArrayType_Decode. decodes.
      * intros a [? ?]. decodes.
    + unfold TypeStringType_decodeInternal. decodes.
Qed.
Lemma yields_with_fuel {A} (P : A -> Prop) decode : (forall fuel, yields P (decode fuel)) -> yields P (with_fuel decode).
Proof. intros H d Hd. by apply H. Qed.
Lemma yields_read_type : yields (typed Type_wf) read_type.
Proof. apply yields_non_null, yields_with_fuel, yields_Type. Qed.
#[export] Hint Resolve yields_read_type : yields.

(** The readers of the variants, by the cases of the tag. *)
Ltac variants :=
  apply yields_decode_union; [|done]; intros tag r Hr; repeat case_match; try done; injection Hr as <-.
Lemma yields_LiteralValue : yields (option_ok (typed LiteralValue_wf)) DecodeLiteralValue.
Proof.
  variants.
  all: hnf; eapply yields_bind; [solve [eauto with yields]|intros]; apply yields_ret; try done;
    apply float_frombits_ok; lia.
Qed.
#[export] Hint Resolve yields_LiteralValue : yields.
Lemma yields_ConstantReference :
  yields (fun r => string_ok (cr_Identifier r) /\ string_ok (ConstantKey r)) ConstantReference_Decode.
Proof. unfold ConstantReference_Decode. decodes. Qed.
Lemma yields_EnumValueReference :
  yields (fun r => string_ok (er_Identifier r) /\ string_ok (EnumTypeKey r) /\ uint_ok 32 (EnumValueIndex r))
    EnumValueReference_Decode.
Proof. unfold EnumValueReference_Decode. decodes. Qed.
#[export] Hint Resolve yields_ConstantReference yields_EnumValueReference : yields.
Lemma yields_Value : yields (option_ok (typed Value_wf)) DecodeValue.
Proof.
  variants; hnf; (eapply yields_bind; [solve [eauto with yields]|intros]); apply yields_ret; try done.
  by apply BuiltinConstantValue_typed.
Qed.
Lemma yields_DefaultKeyword : yields (fun _ => True) DefaultKeyword_Decode.
Proof. unfold DefaultKeyword_Decode. decodes. apply yields_Finish. Qed.
#[export] Hint Resolve yields_Value yields_DefaultKeyword : yields.
Lemma yields_DefaultFieldValue : yields (option_ok (typed DefaultFieldValue_wf)) DecodeDefaultFieldValue.
Proof. variants; hnf; (eapply yields_bind; [solve [eauto with yields]|intros]); by apply yields_ret. Qed.
#[export] Hint Resolve yields_DefaultFieldValue : yields.
Lemma yields_Attribute : yields (typed Attribute_wf) Attribute_Decode.
Proof. unfold Attribute_Decode. decodes. Qed.
Lemma yields_SourceFileInfo : yields SourceFileInfo_ok SourceFileInfo_Decode.
Proof. unfold SourceFileInfo_Decode. decodes. Qed.
Lemma yields_ContainedDeclarations : yields ContainedDeclarations_ok ContainedDeclarations_Decode.
Proof. unfold ContainedDeclarations_Decode. decodes. Qed.
Lemma yields_Comments fuel : yields Comments_ok (Comments_Decode fuel).
Proof.
  induction fuel as [|fuel IH]; [apply yields_panic|]. cbn [Comments_Decode]. decodes.
Qed.
#[export] Hint Resolve yields_Attribute yields_SourceFileInfo yields_ContainedDeclarations yields_Comments
  yields_with_fuel : yields.
Lemma yields_DeclarationData : yields (typed DeclarationData_wf) DeclarationData_Decode.
Proof. unfold DeclarationData_Decode. decodes. Qed.
#[export] Hint Resolve yields_DeclarationData : yields.
Lemma yields_StructField : yields (typed StructField_wf) StructField_Decode.
Proof. unfold StructField_Decode. decodes. Qed.
Lemma yields_StructVersion : yields StructVersion_ok StructVersion_Decode.
Proof. unfold StructVersion_Decode. decodes. Qed.
#[export] Hint Resolve yields_StructField yields_StructVersion : yields.
Lemma yields_FidlStruct : yields (typed FidlStruct_wf) FidlStruct_Decode.
Proof. unfold FidlStruct_Decode. decodes. Qed.
Lemma yields_UnionField : yields (typed UnionField_wf) UnionField_Decode.
Proof. unfold UnionField_Decode. decodes. Qed.
Lemma yields_EnumValue : yields (typed EnumValue_wf) EnumValue_Decode.
Proof. unfold EnumValue_Decode. decodes. Qed.
#[export] Hint Resolve yields_FidlStruct yields_UnionField yields_EnumValue : yields.
Lemma yields_FidlUnion : yields (typed FidlUnion_wf) FidlUnion_Decode.
Proof. unfold FidlUnion_Decode. decodes. Qed.
Lemma yields_FidlEnum : yields (typed FidlEnum_wf) FidlEnum_Decode.
Proof. unfold FidlEnum_Decode. decodes. Qed.
Lemma yields_FidlMethod : yields (typed FidlMethod_wf) FidlMethod_Decode.
Proof. unfold FidlMethod_Decode. decodes. Qed.
#[export] Hint Resolve yields_FidlUnion yields_FidlEnum yields_FidlMethod : yields.
Lemma yields_methods :
  yields (fun r => map_ok 8 (uint_ok 32) (typed FidlMethod_wf) r.1) (read_map 32 ReadUint32 64 (read_pointer FidlMethod_Decode)).
Proof. apply (yields_map _ _ 4 8); [lia|lia|apply yields_ReadUint32|apply yields_pointer, yields_FidlMethod]. Qed.
#[export] Hint Resolve yields_methods : yields.
Lemma yields_FidlInterface : yields (typed FidlInterface_wf) FidlInterface_Decode.
Proof. unfold FidlInterface_Decode. decodes. Qed.
Lemma yields_DeclaredConstant : yields (typed DeclaredConstant_wf) DeclaredConstant_Decode.
Proof. unfold DeclaredConstant_Decode. decodes. Qed.
#[export] Hint Resolve yields_FidlInterface yields_DeclaredConstant : yields.
Lemma yields_UserDefinedType : yields (option_ok (typed UserDefinedType_wf)) DecodeUserDefinedType.
Proof. variants; hnf; (eapply yields_bind; [solve [eauto with yields]|intros]); by apply yields_ret. Qed.
Lemma yields_types :
  yields (fun r => map_ok 16 string_ok (typed UserDefinedType_wf) r.1)
    (read_string_map 128 (non_null_union DecodeUserDefinedType)).
Proof. apply (yields_string_map _ 16); [lia|]. apply yields_non_null, yields_UserDefinedType. Qed.
Lemma yields_string_pointers {A} (P : A -> Prop) m :
  yields P m -> yields (fun r => map_ok 8 string_ok P r.1) (read_string_map 64 (read_pointer m)).
Proof. intros Hm. apply (yields_string_map _ 8); [lia|]. by apply yields_pointer. Qed.
Lemma yields_KeysByType : yields KeysByType_ok KeysByType_Decode.
Proof. unfold KeysByType_Decode. decodes. Qed.
#[export] Hint Resolve yields_types yields_string_pointers yields_KeysByType : yields.
Lemma yields_RuntimeTypeInfo : yields (typed RuntimeTypeInfo_wf) RuntimeTypeInfo_Decode.
Proof. unfold RuntimeTypeInfo_Decode. decodes. Qed.
Lemma yields_FidlFile : yields (typed FidlFile_wf) FidlFile_Decode.
Proof. unfold FidlFile_Decode. decodes. Qed.
#[export] Hint Resolve yields_FidlFile : yields.
Lemma yields_FidlFileGraph : yields (typed FidlFileGraph_wf) FidlFileGraph_Decode.
Proof. unfold FidlFileGraph_Decode. decodes. Qed.

(** ** Theorems *)

(** Whatever bytes are decoded, and whatever handles come with them, a graph
    that [FidlFileGraph_Decode] returns without an error is well-formed: every
    number is in the range of its Go type, an unnamed enum value has none of the
    named numbers, every floating-point number is one of its format, and all
    strings, arrays and maps fit the 32-bit sizes of the wire format. *)
Theorem FidlFileGraph_Decode_typed bytes hs d graph :
  Forall is_byte bytes -> FidlFileGraph_Decode (NewDecoder bytes hs) = (d, Ok graph) -> FidlFileGraph_wf True graph.
Proof.
  intros Hb Hrun. destruct (yields_FidlFileGraph (NewDecoder bytes hs) Hb) as [_ H]. apply H. by rewrite Hrun.
Qed.
Lemma FidlFileGraph_Decode_typed_witness :
  exists bytes d graph, sample_serialize true true true = Ok bytes /\
    FidlFileGraph_Decode (NewDecoder bytes []) = (d, Ok graph) /\ size (ResolvedTypes graph) = 4%nat /\
    FidlFileGraph_wf True graph.
Proof.
  destruct (sample_serialize true true true) as [bytes|x|] eqn:Hs; [|by vm_compute in Hs..].
  assert (match sample_serialize true true true with
    | Ok bytes => bool_decide (Forall is_byte bytes) &&
      match FidlFileGraph_Decode (NewDecoder bytes []) with
      | (_, Ok graph) => bool_decide (size (ResolvedTypes graph) = 4%nat) | _ => false end
    | _ => false end = true) as Hrun by by vm_compute.
  rewrite Hs in Hrun. apply andb_prop in Hrun as [Hbytes%bool_decide_eq_true_1 Hrun].
  destruct (FidlFileGraph_Decode (NewDecoder bytes [])) as [d [graph|x|]] eqn:Hd; [|done..].
  apply bool_decide_eq_true_1 in Hrun. exists bytes, d, graph. split; [done|]. split; [done|]. split; [done|].
  exact (FidlFileGraph_Decode_typed bytes [] d graph Hbytes Hd).
Defined.

(** ** Bytes that are not checked *)

(** A constant whose type is a reference, encoded last; in its place, a struct of
    a newer version, which may have any size, that ends one byte behind its bits. *)
Definition crafted_graph : FidlFileGraph :=
  mkFidlFileGraph ∅ ∅ {[ "0123456789" :=
    mkDeclaredConstant (mkFidlDeclarationData None None None 0 0 None None None None)
      (TypeTypeReference (mkTypeReference true false None None))
      (ValueBuiltinValue BuiltinConstantValue_FloatNan) None ]}.
Definition crafted_bytes : list Z :=
  match encode_value (FidlFileGraph_Encode keys_forward (fun _ => keys_forward) crafted_graph) with
  | Ok (bytes, _) =>
    take (length bytes - 32) bytes ++ [17; 0; 0; 0; 1; 0; 0; 0] ++ take 9 (drop (length bytes - 24) bytes)
  | _ => []
  end.
(** Decoding a graph can panic: a pointer behind a bit is looked for beyond the end
    of the buffer, since the check of the capacity counts the nine bytes of bit and
    pointer from the byte of the bit on. *)
Theorem FidlFileGraph_Decode_panics :
  Forall is_byte crafted_bytes /\ (FidlFileGraph_Decode (NewDecoder crafted_bytes [])).2 = Panic.
Proof. split; [apply (bool_decide_eq_true_1 (Forall is_byte crafted_bytes))|]; by vm_compute. Qed.
